(* ===== verification/_CoqProject ===== *)
-Q . S2P
Prelude.v
Memblock.v
MemblockFacts.v
MemblockAlloc.v
MemblockProps.v
Ipc.v
IpcFacts.v
IpcProps.v
Rbtree.v
RbtreeLogic.v
RbtreeInsert.v
RbtreeWalk.v
RbtreeErase.v
RbtreeSpec.v
RbtreeRun.v
RbtreeProps.v
RbtreeKeyed.v
Pid.v
PidProps.v
Timerqueue.v
Cpio.v
CpioProps.v
PageAlloc.v
PageAllocFacts.v
PageAllocBuddy.v
PageAllocPcp.v
PageAllocOps.v
PageAllocBoot.v
PageAllocSpec.v
PageAllocProps.v
Sort.v
SortLists.v
SortProps.v
Kstrtox.v
KstrtoxProps.v
PageSource.v
Vma.v
VmaFacts.v
VmaCopy.v
VmaString.v
VmaProps.v
FindBit.v
FindBitProps.v
Sched.v
SchedRt.v
SchedFair.v
SchedCore.v
SchedLogic.v
SchedRtFacts.v
SchedFairFacts.v
SchedInv.v
SchedOps.v
SchedOpsFair.v
SchedSwitch.v
SchedSys.v
SchedActivate.v
SchedSchedule.v
SchedWake.v
SchedMigrate.v
SchedBoot.v
SchedDemo.v
SchedProps.v
SchedClassProps.v
SchedFairProps.v
SchedPolicyProps.v
Command.v
BlockSource.v
Slub.v
SlubInv.v
SlubStep.v
SlubOps.v
SlubAlloc.v
SlubSizes.v
SlubInit.v
SlubHeap.v
SlubCreate.v
SlubProps.v
