(* ===== verification/Prelude.v ===== *)
(** * Minix-rt: a verification library

    Minix-rt is a microkernel for AArch64 with its boot and base libraries.  The
    boot code records the physical memory in region arrays (memblock), hands
    what is left to the zoned page allocator, cuts its pages into objects (the
    slab allocator), finds its services in a CPIO archive, gives every task a
    pid, schedules the tasks on the processors and lets tasks and servers talk
    through endpoints.  The trees, queues, sorts and number conversions below
    them are in the base library.

    ** Parts and files

    - [Prelude]: machine integers ([u8] .. [s64]), error numbers, the rounding
      macros, [memmove] on arrays, the tactics and the hint databases.
    - [Memblock], [MemblockFacts], [MemblockAlloc], [MemblockProps]:
      lib/memalloc/src/memblock.c.  A region array denotes a partial map from
      addresses to flags; every operation keeps the arrays sorted, disjoint and
      accounted for and acts on the map as documented, the iterators enumerate
      exactly the free memory and the allocator finds a window iff one exists.
    - [PageAlloc] and [PageAllocFacts], [PageAllocBuddy], [PageAllocPcp],
      [PageAllocOps], [PageAllocBoot], [PageAllocSpec], [PageAllocProps]:
      kernel/mm/page_alloc.c.  The buddy lists, the per-processor lists, the
      compound pages; allocation and release keep the invariant (lists and page
      marks agree, no two free buddies, every page in one place) and refine a
      specification that knows only which blocks are held.
    - [Ipc], [IpcFacts], [IpcProps]: kernel/core/ipc.c, the wait queues it
      sleeps on (kernel/core/sched/wait.c), the service loop of
      kernel/core/system.c with the handlers of system/misc.c, and the wrappers
      of kernel/libminix-rt/src/ipc.c.  A small-step machine that interleaves
      any number of tasks; a ghost life cycle of message nodes gives memory
      safety, FIFO delivery, the right answer to the right sender and no lost
      wake-up.
    - [Rbtree] .. [RbtreeKeyed]: lib/base/src/rbtree.c with its headers, as
      pointer code on a heap.  [RbtreeLogic] is a small program logic over Iris
      for it; [RbtreeSpec] turns its specifications into statements about
      running the code; [RbtreeKeyed] is the interface its users are proved
      against.
    - [Pid], [PidProps]: kernel/core/pid.c and kernel/libminix-rt/src/pid.c, on
      that interface; [Timerqueue]: kernel/lib/timerqueue.c.
    - [Cpio], [CpioProps]: lib/cpio/src/cpio.c, against an encoder of archives.
    - [Sort], [SortLists], [SortProps]: lib/base/src/sort.c,
      bsearch.c and list_sort.c, for any comparison that is a total preorder
      (the class [Comparator]).
    - [Kstrtox], [KstrtoxProps]: lib/base/src/kstrtox.c and ctype.c, against a
      printer of numbers.
    - [PageSource]: what the page allocator promises its clients (the classes
      [PageSource] and [PageSourceLaws]), with the reference counting of pages
      in kernel/include/minix_rt/mm.h; [PageAlloc] is an instance.
    - [Vma], [VmaFacts], [VmaCopy], [VmaString], [VmaProps]:
      the virtual memory areas of kernel/mm/mmap.c, against those classes, and
      kernel/core/system/string.c over them.  Areas are taken and given back
      without losing a page (the failure path excepted, see
      [mmap_get_vmap_area_leak]), and copies between address spaces move the
      bytes they say and nothing else.
    - [FindBit], [FindBitProps]: the bit operations and searches of
      lib/base/src/find_bit.c, equal to scans bit by bit.
    - [Sched] (tasks, run queues and the state monad), [SchedRt]
      (kernel/core/sched/rt.c), [SchedFair] (fair.c, with the timeline as the
      heap tree of [Rbtree]) and [SchedCore] (core.c and idle.c): the classes,
      [schedule], wake-ups, new tasks, the tick, priorities and policies, the
      moves of tasks between run queues.  [SchedLogic] .. [SchedOpsFair] prove
      the operations of each class against the invariant of one processor
      ([SchedInv]); [SchedSys] is the invariant [sched_inv] of the whole system;
      [SchedActivate], [SchedSchedule], [SchedWake], [SchedMigrate] and
      [SchedBoot] show that the operations of core.c keep it.  [SchedProps]
      (who runs next, wake-ups, activation), [SchedClassProps] (the real-time
      class), [SchedFairProps] (charging and slices), [SchedPolicyProps]
      (policies) hold the theorems, [SchedDemo] the concrete systems they are
      tried on.
    - [Command]: the state monad of the slab allocator with its rules.
      [BlockSource]: what the page allocator promises to code that takes blocks
      of any order, with [PageAlloc] as an instance.
    - [Slub]: kernel/mm/slub.c with its headers, on raw memory (a byte for each
      address, free lists threaded through the free objects).  [SlubInv] is
      about the bytes and the lists in them and states the invariant, [SlubStep]
      says which steps keep it and runs commands, [SlubOps] and [SlubAlloc]
      prove the paths of allocation and release, [SlubSizes] the layouts,
      [SlubInit] and [SlubCreate] the creation of caches and [kmem_cache_init].
      [SlubHeap] relates the allocator to a heap of disjoint pieces, for any
      client that chooses its requests from the results it has got; [SlubProps]
      holds the theorems.

    ** Conventions

    C integers are [Z] in the range of their type, with the wrap-around written
    out; the bit operations are those of [Z].  A crash (a [BUG_ON], a [NULL]
    dereference, an access outside an array) is the value [None], or the outcome
    [Crash] of the IPC machine, so that a theorem with [Some] on the right says
    that the code cannot crash there.  Error numbers are results as in C.

    Definitions keep the names of the code; a loop has the name of its function
    with a suffix.  Code that is not in the repository or is left out (user
    copies, comparison callbacks, constructors of objects, the boot memory of a
    machine) is an argument of the definitions that use it.

    ** Fuel

    Loops that are not structural carry fuel, and the theorems say that the
    loop returns: the memblock loops get the length of the arrays they index;
    the tree operations twice the logarithm of the number of nodes, which
    [RbtreeWalk] shows to bound the height; the archive reader the number of
    headers that fit the archive; the sorts the number of elements; the number
    conversions the length of the string; the scheduler the height of the
    timeline, bounded by the number of tasks, and one turn of [schedule]; the
    loops over a slab the number of its objects, and [__slab_alloc] three turns
    (the slab of the processor, a partial or new one, its list).  The IPC
    machine is a step relation and needs none.

    ** Virtual time

    The virtual run times of the fair class wrap around.  The invariant says
    that the ones on a run queue lie in a window of 2^62 above a base chosen by
    the proof, so that the signed differences the code takes order them; an
    operation that charges a task has a hypothesis that the charge keeps it in
    the window.  [update_rq_clock_bounds] bounds what a charge can be.

    ** What is not modelled

    The architecture code and the drivers (registers, assembly, page tables),
    libfdt and the device tree over it, the locks (the operations modelled run
    as atomic steps under them, and the IPC machine interleaves at the points
    where a lock is not held), the page tables behind the virtual memory areas,
    the clock bases, process creation, signals and the message loops of the
    servers.  Of the scheduler, the search for the
    busiest processor over the scheduling domains, the tickless balancer, the
    context switch itself, completions and the migration threads are left out:
    [idle_balance] and [trigger_load_balance] are arguments with the contract
    [balancer].  Of the page allocator, the walk over the
    memblock ranges at boot is left out; its body is modelled. *)

From stdpp Require Export base option list numbers strings.
From Stdlib Require Export ZArith Lia Bool.

#[global] Open Scope Z_scope.

(** ** Machine integers *)

(** C integers are [Z] values kept inside their range by these maps: [uN] is
    the conversion to an unsigned N-bit type, [sN] the conversion to a signed
    one (two's complement). *)
Definition u8 (z : Z) : Z := z mod 2 ^ 8.
Definition u16 (z : Z) : Z := z mod 2 ^ 16.
Definition u32 (z : Z) : Z := z mod 2 ^ 32.
Definition u64 (z : Z) : Z := z mod 2 ^ 64.
Definition s8 (z : Z) : Z := (z + 2 ^ 7) mod 2 ^ 8 - 2 ^ 7.
Definition s16 (z : Z) : Z := (z + 2 ^ 15) mod 2 ^ 16 - 2 ^ 15.
Definition s32 (z : Z) : Z := (z + 2 ^ 31) mod 2 ^ 32 - 2 ^ 31.
Definition s64 (z : Z) : Z := (z + 2 ^ 63) mod 2 ^ 64 - 2 ^ 63.

Definition ULLONG_MAX : Z := 2 ^ 64 - 1.
Definition PHYS_ADDR_MAX : Z := 2 ^ 64 - 1.

(** [lib/base/include/base/errno-base.h] *)
Definition EPERM : Z := 1.
Definition ENOENT : Z := 2.
Definition ESRCH : Z := 3.
Definition EFAULT : Z := 14.
Definition ENOMEM : Z := 12.
Definition EACCES : Z := 13.
Definition EBUSY : Z := 16.
Definition ENODEV : Z := 19.
Definition EINVAL : Z := 22.
Definition ERANGE : Z := 34.

(** The rounding macros of [base/common.h], on [u64] operands. *)
Definition __round_mask (y : Z) : Z := u64 (y - 1).
Definition round_up (x y : Z) : Z := u64 (Z.lor (u64 (x - 1)) (__round_mask y) + 1).
Definition round_down (x y : Z) : Z := Z.land x (u64 (Z.lnot (__round_mask y))).
Definition clamp (val lo hi : Z) : Z := Z.min (Z.max val lo) hi.

Definition PAGE_SHIFT : Z := 12.
Definition PAGE_SIZE : Z := 4096.

(** ** Crashes

    A definition that can stop the kernel (a [BUG_ON], a dereference outside an
    array) returns an [option]: [None] is the crash, and a theorem that the
    result is [Some _] says that the code cannot crash there. *)

(** [a - b] as an unsigned length: a wrapped difference is longer than every
    array, so using it is an access out of bounds. *)
Definition usub (a b : nat) : option nat :=
  if decide (b ≤ a)%nat then Some (a - b)%nat else None.

(** [memmove(&l[dst], &l[src], n * sizeof *l)] on an array. *)
Definition memmove {A} (l : list A) (dst src n : nat) : option (list A) :=
  if decide (dst + n ≤ length l ∧ src + n ≤ length l)%nat
  then Some (take dst l ++ take n (drop src l) ++ drop (dst + n) l)
  else None.

(** ** Tactics and hints *)

(** Turn the boolean tests of the code into (in)equalities. *)
Ltac bool_prop :=
  repeat match goal with
  | H : context [Z.ltb ?a ?b] |- _ => destruct (Z.ltb_spec a b)
  | H : context [Z.leb ?a ?b] |- _ => destruct (Z.leb_spec a b)
  | H : context [Z.eqb ?a ?b] |- _ => destruct (Z.eqb_spec a b)
  | |- context [Z.ltb ?a ?b] => destruct (Z.ltb_spec a b)
  | |- context [Z.leb ?a ?b] => destruct (Z.leb_spec a b)
  | |- context [Z.eqb ?a ?b] => destruct (Z.eqb_spec a b)
  end.

(** Split every test of the goal, keeping the arithmetic facts. *)
Ltac case_tests :=
  repeat match goal with
  | |- context [if decide ?P then _ else _] => destruct (decide P)
  | |- context [if Z.ltb ?a ?b then _ else _] => destruct (Z.ltb_spec a b)
  | |- context [if Z.leb ?a ?b then _ else _] => destruct (Z.leb_spec a b)
  | |- context [if Z.eqb ?a ?b then _ else _] => destruct (Z.eqb_spec a b)
  end.

(** Open every existential and conjunction of the context. *)
Ltac destruct_ex :=
  repeat match goal with
  | H : ∃ _, _ |- _ => destruct H
  | H : _ ∧ _ |- _ => destruct H
  end.

(** ** Arithmetic of the machine maps *)

Lemma u64_small z : 0 ≤ z < 2 ^ 64 → u64 z = z.
Proof. intros. unfold u64. by apply Z.mod_small. Qed.

Lemma u64_bound z : 0 ≤ u64 z < 2 ^ 64.
Proof. apply Z.mod_pos_bound. lia. Qed.

Lemma u64_add_l x y : u64 (u64 x + y) = u64 (x + y).
Proof. unfold u64. by rewrite Zplus_mod_idemp_l. Qed.

Lemma u64_sub_l x y : u64 (u64 x - y) = u64 (x - y).
Proof. unfold u64. by rewrite Zminus_mod_idemp_l. Qed.

Lemma u32_small z : 0 ≤ z < 2 ^ 32 → u32 z = z.
Proof. intros. unfold u32. by apply Z.mod_small. Qed.

Lemma s32_small z : - 2 ^ 31 ≤ z < 2 ^ 31 → s32 z = z.
Proof. intros. unfold s32. rewrite Z.mod_small; lia. Qed.

Lemma u32_bound z : 0 ≤ u32 z < 2 ^ 32.
Proof. apply Z.mod_pos_bound. lia. Qed.

(** [machine] discharges range conditions and removes conversions of values
    that are in range. *)
Create HintDb machine.
Create Rewrite HintDb machine.
#[export] Hint Resolve u64_bound u32_bound : machine.
#[export] Hint Rewrite u64_small u32_small s32_small using lia : machine.

(** A field shifted above [a] is added by [lor]. *)
Lemma lor_disjoint_add a b n : 0 ≤ n → 0 ≤ a < 2 ^ n → Z.lor a (b * 2 ^ n) = a + b * 2 ^ n.
Proof.
  intros Hn Ha. rewrite <-Z.shiftl_mul_pow2 by lia.
  assert (Z.land a (Z.shiftl b n) = 0) as H0.
  { apply Z.bits_inj'. intros k Hk. rewrite Z.land_spec, Z.bits_0.
    destruct (Z.lt_ge_cases k n); [by rewrite Z.shiftl_spec_low, andb_false_r by lia|].
    rewrite (proj1 (Z.bounded_iff_bits_nonneg n a ltac:(lia) ltac:(lia)) ltac:(lia) k); [done|lia]. }
  rewrite Z.add_nocarry_lxor by done. symmetry. by apply Z.lxor_lor.
Qed.

(** Rounding to a power of two. *)
Lemma u64_testbit z n : 0 ≤ n → Z.testbit (u64 z) n = bool_decide (n < 64) && Z.testbit z n.
Proof.
  intros Hn. unfold u64. case_bool_decide; simpl.
  - by rewrite Z.mod_pow2_bits_low by lia.
  - by rewrite Z.mod_pow2_bits_high by lia.
Qed.

Lemma round_mask_pow2 k : 0 ≤ k < 64 → __round_mask (2 ^ k) = Z.ones k.
Proof.
  intros Hk. unfold __round_mask. rewrite Z.ones_equiv, <-Z.sub_1_r. apply u64_small.
  assert (0 < 2 ^ k < 2 ^ 64); [|lia]. split; [lia|]. apply Z.pow_lt_mono_r; lia.
Qed.

Lemma round_down_pow2 x k :
  0 ≤ x < 2 ^ 64 → 0 ≤ k < 64 → round_down x (2 ^ k) = 2 ^ k * (x / 2 ^ k).
Proof.
  intros Hx Hk. unfold round_down. rewrite round_mask_pow2 by done.
  rewrite (Z.mul_comm (2 ^ k)), <-Z.shiftr_div_pow2, <-Z.shiftl_mul_pow2 by lia.
  rewrite <-Z.ldiff_ones_r by lia. apply Z.bits_inj'. intros n Hn.
  rewrite Z.land_spec, Z.ldiff_spec, u64_testbit, Z.lnot_spec by lia.
  case_bool_decide; [done|]. simpl. rewrite andb_false_r.
  by rewrite (proj1 (Z.bounded_iff_bits_nonneg 64 x ltac:(lia) ltac:(lia)) ltac:(lia) n) by lia.
Qed.

Lemma lor_ones a k : 0 ≤ k → Z.lor a (Z.ones k) = 2 ^ k * (a / 2 ^ k) + 2 ^ k - 1.
Proof.
  intros Hk. replace (2 ^ k * (a / 2 ^ k) + 2 ^ k - 1) with (Z.ones k + (a / 2 ^ k) * 2 ^ k)
    by (rewrite Z.ones_equiv; lia).
  rewrite <-lor_disjoint_add; [|done|rewrite Z.ones_equiv; pose proof (Z.pow_pos_nonneg 2 k); lia].
  rewrite <-Z.shiftr_div_pow2, <-Z.shiftl_mul_pow2, <-Z.ldiff_ones_r by done.
  apply Z.bits_inj'. intros n Hn. rewrite !Z.lor_spec, Z.ldiff_spec.
  destruct (Z.testbit a n), (Z.testbit (Z.ones k) n); done.
Qed.

(** [round_up] is the next multiple, or wraps to [0] at the top. *)
Lemma round_up_pow2 x k :
  1 ≤ x < 2 ^ 64 → 0 ≤ k < 64 →
  round_up x (2 ^ k) = 0 ∨
  (x ≤ round_up x (2 ^ k) < x + 2 ^ k ∧ (2 ^ k | round_up x (2 ^ k))).
Proof.
  intros Hx Hk. unfold round_up. rewrite round_mask_pow2 by done.
  rewrite (u64_small (x - 1)) by lia. rewrite lor_ones by lia.
  assert (Hp : 0 < 2 ^ k) by (apply Z.pow_pos_nonneg; lia).
  pose proof (Z.mul_div_le (x - 1) (2 ^ k) Hp). pose proof (Z.mul_succ_div_gt (x - 1) (2 ^ k) Hp).
  set (q := (x - 1) / 2 ^ k) in *. replace (2 ^ k * q + 2 ^ k - 1 + 1) with (2 ^ k * (q + 1)) by lia.
  assert (Hle : 2 ^ k * (q + 1) ≤ 2 ^ 64).
  { assert (Hs : 2 ^ 64 = 2 ^ k * 2 ^ (64 - k)) by (rewrite <-Z.pow_add_r by lia; f_equal; lia).
    rewrite Hs in *. apply Z.mul_le_mono_nonneg_l; [lia|].
    assert (2 ^ k * q < 2 ^ k * 2 ^ (64 - k)) as Hq by lia.
    apply Z.mul_lt_mono_pos_l in Hq; lia. }
  destruct (Z.eq_dec (2 ^ k * (q + 1)) (2 ^ 64)) as [->|Hne]; [by left|right].
  rewrite u64_small by lia. split; [lia|]. apply Z.divide_factor_l.
Qed.

(** ** Arrays *)

Lemma usub_le a b : (b ≤ a)%nat → usub a b = Some (a - b)%nat.
Proof. intros. unfold usub. by rewrite decide_True. Qed.

(** The two shifts of an array: open a slot, close a slot. *)
Lemma memmove_open {A} (pre suf : list A) (x : A) (stale : list A) :
  ∃ y, memmove (pre ++ suf ++ x :: stale) (length pre + 1) (length pre) (length suf)
       = Some (pre ++ y :: suf ++ stale).
Proof.
  unfold memmove. rewrite decide_True; last (rewrite !length_app; simpl; lia).
  rewrite drop_app_length, (take_app_length suf), take_app_add.
  rewrite <-Nat.add_assoc, drop_app_add.
  assert (∃ y, take 1 (suf ++ x :: stale) = [y]) as [y ->]; [destruct suf; by eexists|].
  exists y. rewrite <-app_assoc. do 4 f_equal.
  rewrite Nat.add_comm, drop_app_add. reflexivity.
Qed.

Lemma memmove_close {A} (pre suf : list A) (x : A) (stale : list A) :
  ∃ y, memmove (pre ++ x :: suf ++ stale) (length pre) (length pre + 1) (length suf)
       = Some (pre ++ suf ++ y :: stale).
Proof.
  unfold memmove. rewrite decide_True; last (rewrite !length_app; simpl; rewrite length_app; lia).
  rewrite (take_app_length pre), (drop_app_add pre).
  change (drop 1 (x :: suf ++ stale)) with (suf ++ stale).
  rewrite (take_app_length suf), (drop_app_add pre).
  assert (∃ y, drop (length suf) (x :: suf ++ stale) = y :: stale) as [y ->]; [|by exists y].
  rewrite app_comm_cons. destruct (exists_last (l := x :: suf)) as (l' & y & E); [done|].
  exists y. rewrite E. assert (length suf = length l') as ->.
  { apply (f_equal length) in E. rewrite length_app in E. simpl in E. lia. }
  rewrite <-app_assoc. by rewrite drop_app_length.
Qed.
