(* ===== verification/Memblock.v ===== *)
(** * Boot-time memory blocks ([lib/memalloc/src/memblock.c])

    The region arrays of [struct memblock_type] with their live prefix [cnt],
    and every operation of the file on them.  Arrays keep their stale entries:
    the live regions are [take cnt regions].  [None] is a crash (a [BUG_ON] or
    an access out of the array). *)

From S2P Require Import Prelude.

(** ** Data *)

Record memblock_region := mk_region {
  rg_base : Z;
  rg_size : Z;
  rg_flags : Z;
}.

Record memblock_type := mk_type {
  mt_cnt : nat;
  mt_max : nat;
  mt_total_size : Z;
  mt_regions : list memblock_region;
  mt_name : string;
}.

Record memblock := mk_memblock {
  mb_bottom_up : bool;
  mb_current_limit : Z;
  mb_memory : memblock_type;
  mb_reserved : memblock_type;
}.

#[export] Instance memblock_region_eq_dec : EqDecision memblock_region.
Proof. solve_decision. Defined.

Definition MEMBLOCK_NONE : Z := 0x0.
Definition MEMBLOCK_NOMAP : Z := 0x1.
Definition MEMBLOCK_DMA : Z := 0x2.
Definition MEMBLOCK_MOVABLE : Z := 0x4.

Definition MEMBLOCK_ALLOC_ANYWHERE : Z := ULLONG_MAX.
Definition MEMBLOCK_ALLOC_ACCESSIBLE : Z := 0.

Definition INIT_MEMBLOCK_REGIONS : nat := 128.

Definition zero_region : memblock_region := mk_region 0 0 0.

(** ** Field updates *)

Definition set_cnt (c : nat) (t : memblock_type) : memblock_type :=
  mk_type c (mt_max t) (mt_total_size t) (mt_regions t) (mt_name t).
Definition set_max (m : nat) (t : memblock_type) : memblock_type :=
  mk_type (mt_cnt t) m (mt_total_size t) (mt_regions t) (mt_name t).
Definition set_total (z : Z) (t : memblock_type) : memblock_type :=
  mk_type (mt_cnt t) (mt_max t) z (mt_regions t) (mt_name t).
Definition set_regions (l : list memblock_region) (t : memblock_type) : memblock_type :=
  mk_type (mt_cnt t) (mt_max t) (mt_total_size t) l (mt_name t).
Definition set_name (n : string) (t : memblock_type) : memblock_type :=
  mk_type (mt_cnt t) (mt_max t) (mt_total_size t) (mt_regions t) n.

Definition set_memory (t : memblock_type) (mb : memblock) : memblock :=
  mk_memblock (mb_bottom_up mb) (mb_current_limit mb) t (mb_reserved mb).
Definition set_reserved (t : memblock_type) (mb : memblock) : memblock :=
  mk_memblock (mb_bottom_up mb) (mb_current_limit mb) (mb_memory mb) t.

(** ** The header's inline helpers *)

Definition memblock_is_nomap (m : memblock_region) : bool :=
  negb (Z.land (rg_flags m) MEMBLOCK_NOMAP =? 0).
Definition memblock_is_dma (m : memblock_region) : bool :=
  negb (Z.land (rg_flags m) MEMBLOCK_DMA =? 0).
Definition memblock_is_movable (m : memblock_region) : bool :=
  negb (Z.land (rg_flags m) MEMBLOCK_MOVABLE =? 0).

Definition memblock_set_region_flags (r : memblock_region) (flags : Z) : memblock_region :=
  mk_region (rg_base r) (rg_size r) (Z.lor (rg_flags r) flags).
Definition memblock_clear_region_flags (r : memblock_region) (flags : Z) : memblock_region :=
  mk_region (rg_base r) (rg_size r) (Z.land (rg_flags r) (Z.lnot flags)).

Definition memblock_set_bottom_up (mb : memblock) (enable : bool) : memblock :=
  mk_memblock enable (mb_current_limit mb) (mb_memory mb) (mb_reserved mb).

Definition PFN_UP (x : Z) : Z := Z.shiftr (u64 (x + PAGE_SIZE - 1)) PAGE_SHIFT.
Definition PFN_DOWN (x : Z) : Z := Z.shiftr x PAGE_SHIFT.
Definition PFN_PHYS (x : Z) : Z := u64 (Z.shiftl x PAGE_SHIFT).

Definition memblock_region_memory_base_pfn (r : memblock_region) : Z :=
  PFN_UP (rg_base r).
Definition memblock_region_memory_end_pfn (r : memblock_region) : Z :=
  PFN_DOWN (u64 (rg_base r + rg_size r)).

(** ** Initialisation *)

Definition memblock_init_type (n : string) (t : memblock_type) : memblock_type :=
  set_name n (set_max INIT_MEMBLOCK_REGIONS (set_cnt 1
    (set_regions (replicate (length (mt_regions t)) zero_region) t))).

(** [total_size] is not written: the callers pass zero-initialised storage. *)
Definition memblock_init (mb : memblock) : memblock :=
  mk_memblock false MEMBLOCK_ALLOC_ANYWHERE
    (memblock_init_type "memory" (mb_memory mb))
    (memblock_init_type "reserved" (mb_reserved mb)).

Definition choose_memblock_flags : Z := MEMBLOCK_NONE.

(** ** Address helpers *)

(** The new size; the C function also stores it through its argument. *)
Definition memblock_cap_size (base size : Z) : Z :=
  Z.min size (u64 (PHYS_ADDR_MAX - base)).

Definition memblock_addrs_overlap (base1 size1 base2 size2 : Z) : bool :=
  (base1 <? u64 (base2 + size2)) && (base2 <? u64 (base1 + size1)).

Fixpoint overlap_index (n : nat) (t : memblock_type) (i : nat) (base size : Z) : option nat :=
  match n with
  | O => Some i
  | S n' =>
      r ← mt_regions t !! i;
      if memblock_addrs_overlap base size (rg_base r) (rg_size r)
      then Some i
      else overlap_index n' t (S i) base size
  end.

Definition memblock_overlaps_region (t : memblock_type) (base size : Z) : option bool :=
  i ← overlap_index (mt_cnt t) t 0 base size;
  Some (bool_decide (i < mt_cnt t)%nat).

(** ** Array primitives *)

Definition memblock_remove_region (t : memblock_type) (r : nat) : option memblock_type :=
  rg ← mt_regions t !! r;
  n ← usub (mt_cnt t) (r + 1);
  regs ← memmove (mt_regions t) r (r + 1) n;
  let t1 := set_cnt (mt_cnt t - 1) (set_regions regs
              (set_total (u64 (mt_total_size t - rg_size rg)) t)) in
  if decide (mt_cnt t1 = 0%nat)
  then Some (set_cnt 1 (set_regions (<[0%nat := zero_region]> (mt_regions t1)) t1))
  else Some t1.

Fixpoint merge_loop (fuel : nat) (t : memblock_type) (i : nat) : option memblock_type :=
  match fuel with
  | O => None
  | S fuel' =>
      if decide (i < mt_cnt t - 1)%nat then
        this ← mt_regions t !! i;
        next ← mt_regions t !! (i + 1)%nat;
        if negb (u64 (rg_base this + rg_size this) =? rg_base next)
           || negb (rg_flags this =? rg_flags next)
        then
          if rg_base next <? u64 (rg_base this + rg_size this)
          then None
          else merge_loop fuel' t (i + 1)
        else
          let this' := mk_region (rg_base this) (u64 (rg_size this + rg_size next))
                         (rg_flags this) in
          n ← usub (mt_cnt t) (i + 2);
          regs ← memmove (<[i := this']> (mt_regions t)) (i + 1) (i + 2) n;
          merge_loop fuel' (set_cnt (mt_cnt t - 1) (set_regions regs t)) i
      else Some t
  end.

(** Each round moves [i] forward or removes a region, so [cnt] rounds are
    enough. *)
Definition memblock_merge_regions (t : memblock_type) : option memblock_type :=
  merge_loop (mt_cnt t) t 0.

Definition memblock_insert_region (t : memblock_type) (idx : nat)
    (base size flags : Z) : option memblock_type :=
  if decide (mt_max t ≤ mt_cnt t)%nat then None else
  n ← usub (mt_cnt t) idx;
  regs ← memmove (mt_regions t) (idx + 1) idx n;
  Some (set_total (u64 (mt_total_size t + size)) (set_cnt (mt_cnt t + 1)
          (set_regions (<[idx := mk_region base size flags]> regs) t))).

(** ** Adding a range *)

(** One scan of the regions; with [insert] it inserts the missing pieces.
    Result: the type, the index and [base] at the end of the loop, [nr_new]. *)
Fixpoint add_scan (fuel : nat) (insert : bool) (t : memblock_type) (idx : nat)
    (base end_ flags : Z) (nr_new : nat) : option (memblock_type * nat * Z * nat) :=
  match fuel with
  | O => None
  | S fuel' =>
      if decide (idx < mt_cnt t)%nat then
        rgn ← mt_regions t !! idx;
        let rbase := rg_base rgn in
        let rend := u64 (rbase + rg_size rgn) in
        if end_ <=? rbase then Some (t, idx, base, nr_new)
        else if rend <=? base then add_scan fuel' insert t (idx + 1) base end_ flags nr_new
        else if base <? rbase then
          if insert then
            t' ← memblock_insert_region t idx base (u64 (rbase - base)) flags;
            add_scan fuel' insert t' (idx + 2) (Z.min rend end_) end_ flags (nr_new + 1)
          else add_scan fuel' insert t (idx + 1) (Z.min rend end_) end_ flags (nr_new + 1)
        else add_scan fuel' insert t (idx + 1) (Z.min rend end_) end_ flags nr_new
      else Some (t, idx, base, nr_new)
  end.

(** A scan followed by the insertion of the remaining portion. *)
Definition add_pass (insert : bool) (t : memblock_type) (base end_ flags : Z)
    : option (memblock_type * nat) :=
  '(t1, idx, b, nr_new) ← add_scan (mt_cnt t + 1) insert t 0 base end_ flags 0;
  if b <? end_ then
    if insert then
      t2 ← memblock_insert_region t1 idx b (u64 (end_ - b)) flags;
      Some (t2, (nr_new + 1)%nat)
    else Some (t1, (nr_new + 1)%nat)
  else Some (t1, nr_new).

Definition memblock_add_range (t : memblock_type) (base size flags : Z)
    : option (Z * memblock_type) :=
  let size := memblock_cap_size base size in
  let end_ := u64 (base + size) in
  if size =? 0 then Some (0, t) else
  r0 ← mt_regions t !! 0%nat;
  if rg_size r0 =? 0 then
    Some (0, set_total size
               (set_regions (<[0%nat := mk_region base size flags]> (mt_regions t)) t))
  else
    '(_, nr_new) ← add_pass false t base end_ flags;
    if decide (nr_new = 0%nat) then Some (0, t)
    else if decide (mt_max t < mt_cnt t + nr_new)%nat then Some (- ENOMEM, t)
    else
      '(t2, nr_new2) ← add_pass true t base end_ flags;
      if decide (nr_new2 = 0%nat) then Some (0, t2)
      else t3 ← memblock_merge_regions t2; Some (0, t3).

Definition memblock_add (mb : memblock) (base size : Z) : option (Z * memblock) :=
  '(ret, t) ← memblock_add_range (mb_memory mb) base size 0;
  Some (ret, set_memory t mb).

(** ** Isolating and removing a range *)

Fixpoint isolate_loop (fuel : nat) (t : memblock_type) (idx : nat) (base end_ : Z)
    (start_rgn end_rgn : nat) : option (memblock_type * nat * nat) :=
  match fuel with
  | O => None
  | S fuel' =>
      if decide (idx < mt_cnt t)%nat then
        rgn ← mt_regions t !! idx;
        let rbase := rg_base rgn in
        let rend := u64 (rbase + rg_size rgn) in
        if end_ <=? rbase then Some (t, start_rgn, end_rgn)
        else if rend <=? base then isolate_loop fuel' t (idx + 1) base end_ start_rgn end_rgn
        else if rbase <? base then
          let d := u64 (base - rbase) in
          let top := mk_region base (u64 (rg_size rgn - d)) (rg_flags rgn) in
          let t1 := set_total (u64 (mt_total_size t - d))
                      (set_regions (<[idx := top]> (mt_regions t)) t) in
          t2 ← memblock_insert_region t1 idx rbase d (rg_flags rgn);
          isolate_loop fuel' t2 (idx + 1) base end_ start_rgn end_rgn
        else if end_ <? rend then
          let d := u64 (end_ - rbase) in
          let top := mk_region end_ (u64 (rg_size rgn - d)) (rg_flags rgn) in
          let t1 := set_total (u64 (mt_total_size t - d))
                      (set_regions (<[idx := top]> (mt_regions t)) t) in
          t2 ← memblock_insert_region t1 idx rbase d (rg_flags rgn);
          (* [idx--] here and [idx++] of the loop: the bottom half is redone *)
          isolate_loop fuel' t2 idx base end_ start_rgn end_rgn
        else
          isolate_loop fuel' t (idx + 1) base end_
            (if decide (end_rgn = 0%nat) then idx else start_rgn) (idx + 1)
      else Some (t, start_rgn, end_rgn)
  end.

(** At most two splits, each costing one round more than the regions there are:
    [cnt + 3] rounds are enough. *)
Definition memblock_isolate_range (t : memblock_type) (base size : Z)
    : option (Z * memblock_type * nat * nat) :=
  let size := memblock_cap_size base size in
  let end_ := u64 (base + size) in
  if size =? 0 then Some (0, t, 0%nat, 0%nat)
  else if decide (mt_max t < mt_cnt t + 2)%nat then Some (- ENOMEM, t, 0%nat, 0%nat)
  else
    '(t', s, e) ← isolate_loop (mt_cnt t + 3) t 0 base end_ 0 0;
    Some (0, t', s, e).

(** [for (i = start + n - 1; i >= start; i--) memblock_remove_region(type, i)] *)
Fixpoint remove_down (n : nat) (t : memblock_type) (start : nat) : option memblock_type :=
  match n with
  | O => Some t
  | S n' => t' ← memblock_remove_region t (start + n'); remove_down n' t' start
  end.

Definition memblock_remove_range (t : memblock_type) (base size : Z)
    : option (Z * memblock_type) :=
  '(ret, t1, start_rgn, end_rgn) ← memblock_isolate_range t base size;
  if negb (ret =? 0) then Some (ret, t1)
  else t2 ← remove_down (end_rgn - start_rgn) t1 start_rgn; Some (0, t2).

Definition memblock_remove (mb : memblock) (base size : Z) : option (Z * memblock) :=
  '(ret, t) ← memblock_remove_range (mb_memory mb) base size;
  Some (ret, set_memory t mb).

Definition memblock_free (mb : memblock) (base size : Z) : option (Z * memblock) :=
  '(ret, t) ← memblock_remove_range (mb_reserved mb) base size;
  Some (ret, set_reserved t mb).

Definition memblock_reserve (mb : memblock) (base size : Z) : option (Z * memblock) :=
  '(ret, t) ← memblock_add_range (mb_reserved mb) base size 0;
  Some (ret, set_reserved t mb).

(** ** Region attributes *)

(** [for (i = i0; n iterations; i++)]: apply [f] to the regions in place. *)
Fixpoint update_flags (n : nat) (t : memblock_type) (i : nat)
    (f : memblock_region → memblock_region) : option memblock_type :=
  match n with
  | O => Some t
  | S n' =>
      r ← mt_regions t !! i;
      update_flags n' (set_regions (<[i := f r]> (mt_regions t)) t) (i + 1) f
  end.

Definition setclr_region (set : bool) (flag : Z) (r : memblock_region) : memblock_region :=
  if set then memblock_set_region_flags r flag else memblock_clear_region_flags r flag.

Definition memblock_setclr_flag (mb : memblock) (base size : Z) (set : bool) (flag : Z)
    : option (Z * memblock) :=
  '(ret, t1, start_rgn, end_rgn) ← memblock_isolate_range (mb_memory mb) base size;
  if negb (ret =? 0) then Some (ret, set_memory t1 mb)
  else
    t2 ← update_flags (end_rgn - start_rgn) t1 start_rgn (setclr_region set flag);
    t3 ← memblock_merge_regions t2;
    Some (0, set_memory t3 mb).

Definition memblock_mark_nomap (mb : memblock) (base size : Z) :=
  memblock_setclr_flag mb base size true MEMBLOCK_NOMAP.
Definition memblock_clear_nomap (mb : memblock) (base size : Z) :=
  memblock_setclr_flag mb base size false MEMBLOCK_NOMAP.
Definition memblock_mark_dma (mb : memblock) (base size : Z) :=
  memblock_setclr_flag mb base size true MEMBLOCK_DMA.
Definition memblock_clear_dma (mb : memblock) (base size : Z) :=
  memblock_setclr_flag mb base size false MEMBLOCK_DMA.
Definition memblock_mark_movable (mb : memblock) (base size : Z) :=
  memblock_setclr_flag mb base size true MEMBLOCK_MOVABLE.
Definition memblock_clear_movable (mb : memblock) (base size : Z) :=
  memblock_setclr_flag mb base size false MEMBLOCK_MOVABLE.

(** ** Iterators *)

Definition regionZ (t : memblock_type) (i : Z) : option memblock_region :=
  if decide (0 ≤ i) then mt_regions t !! Z.to_nat i else None.

Definition cntZ (t : memblock_type) : Z := Z.of_nat (mt_cnt t).

(** The new [*idx] and, unless the iteration has ended, [*out_start] and
    [*out_end]. *)
Definition __next_reserved_mem_region (mb : memblock) (idx : Z)
    : option (Z * option (Z * Z)) :=
  let t := mb_reserved mb in
  if idx <? cntZ t then
    r ← regionZ t idx;
    Some (u64 (idx + 1), Some (rg_base r, u64 (rg_base r + rg_size r - 1)))
  else Some (ULLONG_MAX, None).

(** [*idx = (u32)idx_a | (u64)idx_b << 32] *)
Definition pack_idx (idx_a idx_b : Z) : Z :=
  Z.lor (u32 idx_a) (u64 (Z.shiftl (u64 idx_b) 32)).

Definition unpack_a (idx : Z) : Z := s32 (Z.land idx 0xffffffff).
Definition unpack_b (idx : Z) : Z := s32 (Z.shiftr idx 32).

(** [r_start] and [r_end]: the gap of [type_b] below its region [idx_b]. *)
Definition gap_start (t : memblock_type) (idx_b : Z) : option Z :=
  if idx_b =? 0 then Some 0
  else r ← regionZ t (idx_b - 1); Some (u64 (rg_base r + rg_size r)).
Definition gap_end (t : memblock_type) (idx_b : Z) : option Z :=
  if u64 idx_b <? cntZ t then r ← regionZ t idx_b; Some (rg_base r)
  else Some PHYS_ADDR_MAX.

(** The inner loop stops at a gap that intersects [m_start, m_end) (the new
    indices and the range), or hands [idx_b] back to the outer loop. *)
Inductive scan_result :=
| ScanFound (idx_a idx_b : Z) (out_start out_end : Z)
| ScanNext (idx_b : Z).

Fixpoint scan_gaps (fuel : nat) (tb : memblock_type) (idx_a idx_b m_start m_end : Z)
    : option scan_result :=
  match fuel with
  | O => None
  | S fuel' =>
      if u64 idx_b <? cntZ tb + 1 then
        r_start ← gap_start tb idx_b;
        r_end ← gap_end tb idx_b;
        if m_end <=? r_start then Some (ScanNext idx_b)
        else if m_start <? r_end then
          let '(idx_a', idx_b') :=
            if m_end <=? r_end then (idx_a + 1, idx_b) else (idx_a, idx_b + 1) in
          Some (ScanFound idx_a' idx_b' (Z.max m_start r_start) (Z.min m_end r_end))
        else scan_gaps fuel' tb idx_a (idx_b + 1) m_start m_end
      else Some (ScanNext idx_b)
  end.

Fixpoint next_loop (fuel : nat) (flags : Z) (ta : memblock_type)
    (tb : option memblock_type) (idx_a idx_b : Z) : option (Z * option (Z * Z)) :=
  match fuel with
  | O => None
  | S fuel' =>
      if u64 idx_a <? cntZ ta then
        m ← regionZ ta idx_a;
        let m_start := rg_base m in
        let m_end := u64 (rg_base m + rg_size m) in
        if negb (flags =? rg_flags m) then next_loop fuel' flags ta tb (idx_a + 1) idx_b
        else
          match tb with
          | None => Some (pack_idx (idx_a + 1) idx_b, Some (m_start, m_end))
          | Some b =>
              res ← scan_gaps (mt_cnt b + 2) b idx_a idx_b m_start m_end;
              match res with
              | ScanFound a' b' s e => Some (pack_idx a' b', Some (s, e))
              | ScanNext b' => next_loop fuel' flags ta tb (idx_a + 1) b'
              end
          end
      else Some (ULLONG_MAX, None)
  end.

Definition __next_mem_range (idx flags : Z) (ta : memblock_type)
    (tb : option memblock_type) : option (Z * option (Z * Z)) :=
  next_loop (mt_cnt ta + 1) flags ta tb (unpack_a idx) (unpack_b idx).

Fixpoint scan_gaps_rev (fuel : nat) (tb : memblock_type) (idx_a idx_b m_start m_end : Z)
    : option scan_result :=
  match fuel with
  | O => None
  | S fuel' =>
      if 0 <=? idx_b then
        r_start ← gap_start tb idx_b;
        r_end ← gap_end tb idx_b;
        if r_end <=? m_start then Some (ScanNext idx_b)
        else if r_start <? m_end then
          let '(idx_a', idx_b') :=
            if r_start <=? m_start then (idx_a - 1, idx_b) else (idx_a, idx_b - 1) in
          Some (ScanFound idx_a' idx_b' (Z.max m_start r_start) (Z.min m_end r_end))
        else scan_gaps_rev fuel' tb idx_a (idx_b - 1) m_start m_end
      else Some (ScanNext idx_b)
  end.

Fixpoint next_loop_rev (fuel : nat) (flags : Z) (ta : memblock_type)
    (tb : option memblock_type) (idx_a idx_b : Z) : option (Z * option (Z * Z)) :=
  match fuel with
  | O => None
  | S fuel' =>
      if 0 <=? idx_a then
        m ← regionZ ta idx_a;
        let m_start := rg_base m in
        let m_end := u64 (rg_base m + rg_size m) in
        if negb (flags =? rg_flags m) then next_loop_rev fuel' flags ta tb (idx_a - 1) idx_b
        else
          match tb with
          | None => Some (pack_idx (idx_a - 1) idx_b, Some (m_start, m_end))
          | Some b =>
              res ← scan_gaps_rev (mt_cnt b + 2) b idx_a idx_b m_start m_end;
              match res with
              | ScanFound a' b' s e => Some (pack_idx a' b', Some (s, e))
              | ScanNext b' => next_loop_rev fuel' flags ta tb (idx_a - 1) b'
              end
          end
      else Some (ULLONG_MAX, None)
  end.

Definition __next_mem_range_rev (idx flags : Z) (ta : memblock_type)
    (tb : option memblock_type) : option (Z * option (Z * Z)) :=
  let '(idx_a, idx_b) :=
    if idx =? ULLONG_MAX
    then (cntZ ta - 1, match tb with Some b => cntZ b | None => 0 end)
    else (unpack_a idx, unpack_b idx) in
  next_loop_rev (mt_cnt ta + 1) flags ta tb idx_a idx_b.

(** The [for_each_*] macros: [next] is the iterator, [body] returns [Some r]
    where the loop body executes [return r].  The result is [None] on a crash,
    [Some None] when the loop runs to its end. *)
Fixpoint for_each {R} (fuel : nat) (next : Z → option (Z * option (Z * Z)))
    (i : Z) (body : Z → Z → option R) : option (option R) :=
  match fuel with
  | O => None
  | S fuel' =>
      '(i', out) ← next i;
      if i' =? ULLONG_MAX then Some None
      else
        match out with
        | Some (s, e) =>
            match body s e with
            | Some r => Some (Some r)
            | None => for_each fuel' next i' body
            end
        | None => None
        end
  end.

(** Every call but the last moves one of the two indices, so the free ranges
    number at most [memory.cnt + reserved.cnt + 1]. *)
Definition range_fuel (mb : memblock) : nat :=
  mt_cnt (mb_memory mb) + mt_cnt (mb_reserved mb) + 2.

Definition for_each_free_mem_range {R} (mb : memblock) (flags : Z)
    (body : Z → Z → option R) : option (option R) :=
  for_each (range_fuel mb)
    (λ i, __next_mem_range i flags (mb_memory mb) (Some (mb_reserved mb))) 0 body.

Definition for_each_free_mem_range_reverse {R} (mb : memblock) (flags : Z)
    (body : Z → Z → option R) : option (option R) :=
  for_each (range_fuel mb)
    (λ i, __next_mem_range_rev i flags (mb_memory mb) (Some (mb_reserved mb)))
    ULLONG_MAX body.

(** The new [*idx] ([-1] at the end) and the page frames of the region. *)
Fixpoint __next_mem_pfn_range_loop (fuel : nat) (t : memblock_type) (idx : Z)
    : option (Z * option (Z * Z)) :=
  match fuel with
  | O => None
  | S fuel' =>
      let idx := idx + 1 in
      if u64 idx <? cntZ t then
        r ← regionZ t idx;
        if PFN_DOWN (u64 (rg_base r + rg_size r)) <=? PFN_UP (rg_base r)
        then __next_mem_pfn_range_loop fuel' t idx
        else Some (idx, Some (PFN_UP (rg_base r), PFN_DOWN (u64 (rg_base r + rg_size r))))
      else Some (-1, None)
  end.

Definition __next_mem_pfn_range (mb : memblock) (idx : Z) : option (Z * option (Z * Z)) :=
  __next_mem_pfn_range_loop (mt_cnt (mb_memory mb) + 1) (mb_memory mb) idx.

(** ** Finding and allocating *)

Definition bottom_up_body (start end_ size align this_start this_end : Z) : option Z :=
  let this_start := clamp this_start start end_ in
  let this_end := clamp this_end start end_ in
  let cand := round_up this_start align in
  if (cand <? this_end) && (size <=? u64 (this_end - cand)) then Some cand else None.

Definition __memblock_find_range_bottom_up (mb : memblock)
    (start end_ size align flags : Z) : option Z :=
  r ← for_each_free_mem_range mb flags (bottom_up_body start end_ size align);
  Some (default 0 r).

Definition top_down_body (start end_ size align this_start this_end : Z) : option Z :=
  let this_start := clamp this_start start end_ in
  let this_end := clamp this_end start end_ in
  if this_end <? size then None
  else
    let cand := round_down (u64 (this_end - size)) align in
    if this_start <=? cand then Some cand else None.

Definition __memblock_find_range_top_down (mb : memblock)
    (start end_ size align flags : Z) : option Z :=
  r ← for_each_free_mem_range_reverse mb flags (top_down_body start end_ size align);
  Some (default 0 r).

Definition __memblock_find_in_range (mb : memblock)
    (size align start end_ flags : Z) : option Z :=
  let end_ := if end_ =? MEMBLOCK_ALLOC_ACCESSIBLE then mb_current_limit mb else end_ in
  let start := Z.max start PAGE_SIZE in
  let end_ := Z.max start end_ in
  if mb_bottom_up mb then
    ret ← __memblock_find_range_bottom_up mb start end_ size align flags;
    if negb (ret =? 0) then Some ret
    else __memblock_find_range_top_down mb start end_ size align flags
  else __memblock_find_range_top_down mb start end_ size align flags.

Definition memblock_find_in_range (mb : memblock) (start end_ size align : Z) : option Z :=
  __memblock_find_in_range mb size align start end_ choose_memblock_flags.

Definition __memblock_alloc_range (mb : memblock) (size align start end_ flags : Z)
    : option (Z * memblock) :=
  if align =? 0 then Some (0, mb) else
  found ← __memblock_find_in_range mb size align start end_ flags;
  if found =? 0 then Some (0, mb)
  else
    '(ret, mb') ← memblock_reserve mb found size;
    if ret =? 0 then Some (found, mb') else Some (0, mb').

Definition memblock_alloc_range (mb : memblock) (size align start end_ flags : Z) :=
  __memblock_alloc_range mb size align start end_ flags.

Definition memblock_alloc_base (mb : memblock) (size align max_addr flags : Z) :=
  __memblock_alloc_range mb size align 0 max_addr flags.

Definition memblock_phys_alloc (mb : memblock) (size align : Z) :=
  memblock_alloc_base mb size align MEMBLOCK_ALLOC_ACCESSIBLE choose_memblock_flags.

(** One attempt: find a range and reserve it; [0] when either fails. *)
Definition alloc_attempt (mb : memblock) (size align min_addr max_addr flags : Z)
    : option (Z * memblock) :=
  alloc ← __memblock_find_in_range mb size align min_addr max_addr flags;
  if alloc =? 0 then Some (0, mb)
  else
    '(ret, mb') ← memblock_reserve mb alloc size;
    if ret =? 0 then Some (alloc, mb') else Some (0, mb').

Definition memblock_alloc_internal (mb : memblock) (size align min_addr max_addr : Z)
    : option (Z * memblock) :=
  if align =? 0 then Some (0, mb) else
  let flags := choose_memblock_flags in
  let max_addr := if mb_current_limit mb <? max_addr then mb_current_limit mb else max_addr in
  '(alloc, mb1) ← alloc_attempt mb size align min_addr max_addr flags;
  if negb (alloc =? 0) then Some (alloc, mb1)
  else if negb (min_addr =? 0) then alloc_attempt mb1 size align 0 max_addr flags
  else Some (0, mb1).

Definition memblock_alloc_try_raw (mb : memblock) (size align min_addr max_addr : Z) :=
  memblock_alloc_internal mb size align min_addr max_addr.

Definition memblock_alloc (mb : memblock) (size align : Z) :=
  memblock_alloc_try_raw mb size align 0 MEMBLOCK_ALLOC_ACCESSIBLE.

Definition memblock_alloc_from (mb : memblock) (size align min_addr : Z) :=
  memblock_alloc_try_raw mb size align min_addr MEMBLOCK_ALLOC_ACCESSIBLE.

Definition memblock_alloc_low (mb : memblock) (size align : Z) :=
  memblock_alloc_try_raw mb size align 0 0xffffffff.

(** ** Sizes and limits *)

Definition memblock_phys_mem_size (mb : memblock) : Z := mt_total_size (mb_memory mb).
Definition memblock_reserved_size (mb : memblock) : Z := mt_total_size (mb_reserved mb).

Definition live (t : memblock_type) : list memblock_region := take (mt_cnt t) (mt_regions t).

Definition memblock_mem_size (mb : memblock) (limit_pfn : Z) : Z :=
  PFN_PHYS (foldl (λ pages r,
    let start_pfn := Z.min (memblock_region_memory_base_pfn r) limit_pfn in
    let end_pfn := Z.min (memblock_region_memory_end_pfn r) limit_pfn in
    u64 (pages + (end_pfn - start_pfn))) 0 (live (mb_memory mb))).

Definition memblock_start_of_DRAM (mb : memblock) : option Z :=
  r ← mt_regions (mb_memory mb) !! 0%nat; Some (rg_base r).

Definition memblock_end_of_DRAM (mb : memblock) : option Z :=
  r ← regionZ (mb_memory mb) (cntZ (mb_memory mb) - 1);
  Some (u64 (rg_base r + rg_size r)).

Fixpoint find_max_addr_loop (l : list memblock_region) (limit : Z) : Z :=
  match l with
  | [] => PHYS_ADDR_MAX
  | r :: l' =>
      if limit <=? rg_size r then u64 (rg_base r + limit)
      else find_max_addr_loop l' (u64 (limit - rg_size r))
  end.

Definition __find_max_addr (mb : memblock) (limit : Z) : Z :=
  find_max_addr_loop (live (mb_memory mb)) limit.

Definition memblock_enforce_memory_limit (mb : memblock) (limit : Z) : option memblock :=
  if limit =? 0 then Some mb else
  let max_addr := __find_max_addr mb limit in
  if max_addr =? PHYS_ADDR_MAX then Some mb else
  '(_, m) ← memblock_remove_range (mb_memory mb) max_addr PHYS_ADDR_MAX;
  '(_, r) ← memblock_remove_range (mb_reserved mb) max_addr PHYS_ADDR_MAX;
  Some (set_reserved r (set_memory m mb)).

(** [for (i = lo + n - 1; i >= lo; i--)] remove the regions without NOMAP. *)
Fixpoint remove_map_down (n : nat) (t : memblock_type) (lo : nat) : option memblock_type :=
  match n with
  | O => Some t
  | S n' =>
      r ← mt_regions t !! (lo + n')%nat;
      if memblock_is_nomap r then remove_map_down n' t lo
      else t' ← memblock_remove_region t (lo + n'); remove_map_down n' t' lo
  end.

Definition memblock_cap_memory_range (mb : memblock) (base size : Z) : option memblock :=
  if size =? 0 then Some mb else
  '(ret, t1, start_rgn, end_rgn) ← memblock_isolate_range (mb_memory mb) base size;
  if negb (ret =? 0) then Some (set_memory t1 mb) else
  t2 ← remove_map_down (mt_cnt t1 - end_rgn) t1 end_rgn;
  t3 ← remove_map_down start_rgn t2 0;
  '(_, r1) ← memblock_remove_range (mb_reserved mb) 0 base;
  '(_, r2) ← memblock_remove_range r1 (u64 (base + size)) PHYS_ADDR_MAX;
  Some (set_reserved r2 (set_memory t3 mb)).

Definition memblock_mem_limit_remove_map (mb : memblock) (limit : Z) : option memblock :=
  if limit =? 0 then Some mb else
  let max_addr := __find_max_addr mb limit in
  if max_addr =? PHYS_ADDR_MAX then Some mb
  else memblock_cap_memory_range mb 0 max_addr.

(** ** Queries *)

(** The do-while loop; [-1] when the interval is empty. *)
Fixpoint search_loop (fuel : nat) (t : memblock_type) (addr left right : Z) : option Z :=
  match fuel with
  | O => None
  | S fuel' =>
      let mid := u32 (right + left) / 2 in
      r ← regionZ t mid;
      if addr <? rg_base r then
        if left <? mid then search_loop fuel' t addr left mid else Some (-1)
      else if u64 (rg_base r + rg_size r) <=? addr then
        if mid + 1 <? right then search_loop fuel' t addr (mid + 1) right else Some (-1)
      else Some mid
  end.

Definition memblock_search (t : memblock_type) (addr : Z) : option Z :=
  search_loop (mt_cnt t + 1) t addr 0 (u32 (cntZ t)).

Definition memblock_is_reserved (mb : memblock) (addr : Z) : option bool :=
  i ← memblock_search (mb_reserved mb) addr; Some (negb (i =? -1)).

Definition memblock_is_memory (mb : memblock) (addr : Z) : option bool :=
  i ← memblock_search (mb_memory mb) addr; Some (negb (i =? -1)).

Definition memblock_is_map_memory (mb : memblock) (addr : Z) : option bool :=
  i ← memblock_search (mb_memory mb) addr;
  if i =? -1 then Some false
  else r ← regionZ (mb_memory mb) i; Some (negb (memblock_is_nomap r)).

Definition memblock_is_region_memory (mb : memblock) (base size : Z) : option bool :=
  idx ← memblock_search (mb_memory mb) base;
  let end_ := u64 (base + memblock_cap_size base size) in
  if idx =? -1 then Some false
  else r ← regionZ (mb_memory mb) idx; Some (end_ <=? u64 (rg_base r + rg_size r)).

Definition memblock_is_region_reserved (mb : memblock) (base size : Z) : option bool :=
  memblock_overlaps_region (mb_reserved mb) base (memblock_cap_size base size).

(** [total_size] is left alone when a region is shortened in place. *)
Fixpoint trim_loop (fuel : nat) (t : memblock_type) (i : nat) (align : Z)
    : option memblock_type :=
  match fuel with
  | O => None
  | S fuel' =>
      if decide (i < mt_cnt t)%nat then
        r ← mt_regions t !! i;
        let orig_start := rg_base r in
        let orig_end := u64 (rg_base r + rg_size r) in
        let start := round_up orig_start align in
        let end_ := round_down orig_end align in
        if (start =? orig_start) && (end_ =? orig_end) then trim_loop fuel' t (i + 1) align
        else if start <? end_ then
          let r' := mk_region start (u64 (end_ - start)) (rg_flags r) in
          trim_loop fuel' (set_regions (<[i := r']> (mt_regions t)) t) (i + 1) align
        else t' ← memblock_remove_region t i; trim_loop fuel' t' i align
      else Some t
  end.

Definition memblock_trim_memory (mb : memblock) (align : Z) : option memblock :=
  t ← trim_loop (mt_cnt (mb_memory mb) + 2) (mb_memory mb) 0 align;
  Some (set_memory t mb).

Definition memblock_set_current_limit (mb : memblock) (limit : Z) : memblock :=
  mk_memblock (mb_bottom_up mb) limit (mb_memory mb) (mb_reserved mb).
Definition memblock_get_current_limit (mb : memblock) : Z := mb_current_limit mb.
