(* ===== verification/MemblockFacts.v ===== *)
(** * Correctness of the boot-time memory blocks

    A region array denotes a partial map from addresses to attribute flags
    ([attrs]).  The operations of [Memblock] are shown to keep the arrays
    sorted, disjoint and accounted for ([wf_type]) and to act on that map as
    their documentation says; none of them can hit a [BUG_ON]. *)

From S2P Require Import Prelude Memblock.

(** ** Specification *)

(** Sorted, disjoint, non-empty regions above [lo], none of which passes
    [PHYS_ADDR_MAX]. *)
Fixpoint chain (lo : Z) (l : list memblock_region) : Prop :=
  match l with
  | [] => lo ≤ PHYS_ADDR_MAX
  | r :: l' => lo ≤ rg_base r ∧ 0 < rg_size r ∧ chain (rg_base r + rg_size r) l'
  end.

Definition in_range (b e a : Z) : bool := (b <=? a) && (a <? e).

Definition in_region (r : memblock_region) (a : Z) : bool :=
  in_range (rg_base r) (rg_base r + rg_size r) a.

(** The address map of a list of regions. *)
Fixpoint attr (l : list memblock_region) (a : Z) : option Z :=
  match l with
  | [] => None
  | r :: l' => if in_region r a then Some (rg_flags r) else attr l' a
  end.

Definition attrs (t : memblock_type) (a : Z) : option Z := attr (live t) a.

Fixpoint sum_sizes (l : list memblock_region) : Z :=
  match l with [] => 0 | r :: l' => rg_size r + sum_sizes l' end.

(** No two neighbours could be merged. *)
Fixpoint minimal (l : list memblock_region) : Prop :=
  match l with
  | [] => True
  | r :: l' =>
      match l' with
      | [] => True
      | n :: _ => rg_base r + rg_size r ≠ rg_base n ∨ rg_flags r ≠ rg_flags n
      end ∧ minimal l'
  end.

(** The array [t] holds the live regions [l] and room for [mx]. *)
Definition repr (t : memblock_type) (l : list memblock_region) (mx : nat) : Prop :=
  mt_max t = mx ∧ mt_cnt t = length l ∧ mt_total_size t = u64 (sum_sizes l) ∧
  ∃ stale, mt_regions t = l ++ stale ∧ (length l + length stale = mx)%nat.

(** The well-formed types: the empty one, with its single zero region, or a
    chain of regions. *)
Definition wf_type (t : memblock_type) : Prop :=
  ∃ l, repr t l (mt_max t) ∧ (l = [zero_region] ∨ (l ≠ [] ∧ chain 0 l)).

Definition wf_memblock (mb : memblock) : Prop :=
  wf_type (mb_memory mb) ∧ wf_type (mb_reserved mb) ∧
  0 ≤ mb_current_limit mb ≤ PHYS_ADDR_MAX.

(** The end of a range as the code caps it. *)
Definition cap_end (base size : Z) : Z := Z.min (base + size) PHYS_ADDR_MAX.

(** The address map after adding [base, base + size) with [flags]. *)
Definition attrs_add (t : memblock_type) (base size flags a : Z) : option Z :=
  match attrs t a with
  | Some g => Some g
  | None => if in_range base (cap_end base size) a then Some flags else None
  end.

(** *** What the loops compute on the list of live regions *)

Definition piece (b e flags : Z) : list memblock_region :=
  if b <? e then [mk_region b (e - b) flags] else [].

(** The regions with the missing pieces of [b, e) inserted. *)
Fixpoint add_spec (l : list memblock_region) (b e flags : Z) : list memblock_region :=
  match l with
  | [] => piece b e flags
  | r :: l' =>
      let rend := rg_base r + rg_size r in
      if e <=? rg_base r then piece b e flags ++ l
      else if rend <=? b then r :: add_spec l' b e flags
      else piece b (rg_base r) flags ++ r :: add_spec l' (Z.min rend e) e flags
  end.

Fixpoint add_new (l : list memblock_region) (b e : Z) : nat :=
  match l with
  | [] => length (piece b e 0)
  | r :: l' =>
      let rend := rg_base r + rg_size r in
      if e <=? rg_base r then length (piece b e 0)
      else if rend <=? b then add_new l' b e
      else (length (piece b (rg_base r) 0) + add_new l' (Z.min rend e) e)%nat
  end.

(** Greedy merging, with [r] the region the scan stands on. *)
Fixpoint merge_spec (r : memblock_region) (l : list memblock_region) : list memblock_region :=
  match l with
  | [] => [r]
  | n :: l' =>
      if (rg_base r + rg_size r =? rg_base n) && (rg_flags r =? rg_flags n)
      then merge_spec (mk_region (rg_base r) (rg_size r + rg_size n) (rg_flags r)) l'
      else r :: merge_spec n l'
  end.

(** ** Chains *)

Lemma chain_bound lo l : chain lo l → lo ≤ PHYS_ADDR_MAX.
Proof.
  revert lo. induction l as [|r l IH]; simpl; intros lo H; [done|].
  destruct H as (? & ? & H%IH). lia.
Qed.

Lemma chain_weaken lo lo' l : chain lo l → lo' ≤ lo → chain lo' l.
Proof. destruct l; simpl; intuition lia. Qed.

Lemma chain_tail lo r l : chain lo (r :: l) → chain (rg_base r + rg_size r) l.
Proof. by intros (_ & _ & ?). Qed.

Lemma chain_region lo r l :
  0 ≤ lo → chain lo (r :: l) →
  0 ≤ rg_base r ∧ 0 < rg_size r ∧ rg_base r + rg_size r ≤ PHYS_ADDR_MAX ∧
  u64 (rg_base r + rg_size r) = rg_base r + rg_size r.
Proof.
  intros Hlo (Hb & Hs & Hc). pose proof (chain_bound _ _ Hc) as Hm.
  unfold PHYS_ADDR_MAX in *. repeat split; try lia. apply u64_small. lia.
Qed.

Lemma chain_app lo l1 l2 :
  chain lo (l1 ++ l2) ↔
  chain lo l1 ∧ chain (foldl (λ _ r, rg_base r + rg_size r) lo l1) l2.
Proof.
  revert lo. induction l1 as [|r l1 IH]; simpl; intros lo.
  - split; [|by intros [_ ?]]. intros H. split; [by eapply chain_bound|done].
  - rewrite IH. tauto.
Qed.

Lemma chain_app_l lo l1 l2 : chain lo (l1 ++ l2) → chain lo l1.
Proof. by intros [? _]%chain_app. Qed.

Lemma chain_app_r lo l1 l2 : chain lo (l1 ++ l2) → chain lo l2.
Proof.
  revert lo. induction l1 as [|r l1 IH]; simpl; [done|].
  intros lo (? & ? & H%IH). eapply chain_weaken; [done|lia].
Qed.

Lemma chain_attr_lo lo l a : chain lo l → a < lo → attr l a = None.
Proof.
  revert lo. induction l as [|r l IH]; simpl; intros lo H Ha; [done|].
  destruct H as (? & ? & H). unfold in_region, in_range.
  destruct (Z.leb_spec (rg_base r) a); [lia|]. simpl. eapply IH; [done|lia].
Qed.

Lemma sum_sizes_app l1 l2 : sum_sizes (l1 ++ l2) = sum_sizes l1 + sum_sizes l2.
Proof. induction l1; simpl; lia. Qed.

Lemma chain_sum lo l : chain lo l → 0 ≤ sum_sizes l ∧ lo + sum_sizes l ≤ PHYS_ADDR_MAX.
Proof.
  revert lo. induction l as [|r l IH]; simpl; intros lo H; [lia|].
  destruct H as (? & ? & H%IH). lia.
Qed.

Lemma attr_app l1 l2 a :
  attr (l1 ++ l2) a = match attr l1 a with Some f => Some f | None => attr l2 a end.
Proof. induction l1 as [|r l1 IH]; simpl; [done|]. by destruct (in_region r a). Qed.

Lemma attr_Some l a f :
  attr l a = Some f → ∃ i r, l !! i = Some r ∧ in_region r a = true ∧ rg_flags r = f.
Proof.
  induction l as [|r l IH]; simpl; [done|].
  destruct (in_region r a) eqn:Hin; [intros [= <-]; by exists 0%nat, r|].
  intros (i & r' & ? & ? & ?)%IH. by exists (S i), r'.
Qed.

Lemma in_region_spec r a : in_region r a = true ↔ rg_base r ≤ a < rg_base r + rg_size r.
Proof. unfold in_region, in_range. bool_prop; simpl; split; try done; lia. Qed.

(** ** The array representation *)

Lemma repr_live t l mx : repr t l mx → live t = l.
Proof.
  intros (_ & Hc & _ & stale & Hr & _). unfold live. rewrite Hc, Hr. apply take_app_length.
Qed.

Lemma repr_lookup t pre r suf mx :
  repr t (pre ++ r :: suf) mx → mt_regions t !! length pre = Some r.
Proof.
  intros (_ & _ & _ & stale & Hr & _). rewrite Hr, <-app_assoc. by apply list_lookup_middle.
Qed.

Lemma repr_insert t pre suf mx b s f :
  repr t (pre ++ suf) mx → (length (pre ++ suf) < mx)%nat →
  ∃ t', memblock_insert_region t (length pre) b s f = Some t' ∧
        repr t' (pre ++ mk_region b s f :: suf) mx.
Proof.
  intros (Hm & Hc & Ht & stale & Hr & Hl) Hlt. unfold memblock_insert_region.
  rewrite decide_False by lia. rewrite Hc.
  rewrite usub_le by (rewrite length_app; lia). simpl.
  rewrite length_app in *. replace (length pre + length suf - length pre)%nat with (length suf) by lia.
  destruct stale as [|x stale]; [simpl in Hl; lia|].
  rewrite Hr, <-app_assoc. destruct (memmove_open pre suf x stale) as [y ->]. simpl.
  eexists; split; [done|]. unfold repr; simpl.
  repeat split; [lia|rewrite length_app; simpl; lia| |].
  - rewrite Ht, u64_add_l. f_equal. rewrite !sum_sizes_app. simpl. lia.
  - exists stale. rewrite insert_app_r_alt by lia. rewrite Nat.sub_diag. simpl.
    split; [by rewrite <-app_assoc|]. rewrite length_app; simpl in *; lia.
Qed.

Lemma repr_remove t pre r suf mx :
  repr t (pre ++ r :: suf) mx →
  ∃ t', memblock_remove_region t (length pre) = Some t' ∧
        (pre ++ suf ≠ [] → repr t' (pre ++ suf) mx) ∧
        (pre ++ suf = [] → repr t' [zero_region] mx).
Proof.
  intros Hrep. pose proof (repr_lookup _ _ _ _ _ Hrep) as Hlk.
  destruct Hrep as (Hm & Hc & Ht & stale & Hr & Hl).
  unfold memblock_remove_region. rewrite Hlk. simpl.
  rewrite length_app in *. simpl in *.
  rewrite usub_le by lia. simpl.
  replace (mt_cnt t - (length pre + 1))%nat with (length suf) by lia.
  rewrite Hr, <-app_assoc. simpl.
  destruct (memmove_close pre suf r stale) as [y ->]. simpl.
  assert (Hsum : u64 (mt_total_size t - rg_size r) = u64 (sum_sizes (pre ++ suf))).
  { rewrite Ht, u64_sub_l. f_equal. rewrite !sum_sizes_app. simpl. lia. }
  rewrite Hc, Hsum. case_decide as Hz; eexists; (split; [reflexivity|]); unfold repr; simpl; split;
    intros Hne.
  - destruct pre, suf; simpl in *; try lia; done.
  - destruct pre, suf; simpl in *; try discriminate; try lia.
    repeat split; try lia; try done. exists stale. simpl in *. split; [done|lia].
  - repeat split; try lia; try (rewrite length_app; lia).
    exists (y :: stale). rewrite <-app_assoc. split; [done|]. rewrite length_app; simpl; lia.
  - apply app_eq_nil in Hne as [-> ->]; simpl in *. lia.
Qed.

(** Overwriting a region in place. *)
Lemma repr_update t pre r r' suf mx :
  repr t (pre ++ r :: suf) mx → rg_size r' = rg_size r →
  repr (set_regions (<[length pre := r']> (mt_regions t)) t) (pre ++ r' :: suf) mx.
Proof.
  intros (Hm & Hc & Ht & stale & Hr & Hl) Hs. unfold repr; simpl.
  rewrite length_app in *; simpl in *. repeat split; [lia|lia| |].
  - rewrite Ht, !sum_sizes_app. simpl. by rewrite Hs.
  - exists stale. rewrite Hr, <-!app_assoc. rewrite insert_app_r_alt by lia.
    rewrite Nat.sub_diag. simpl. split; [done|]. lia.
Qed.

(** ** Merging *)

Lemma repr_merge t pre r n suf mx :
  repr t (pre ++ r :: n :: suf) mx → u64 (rg_size r + rg_size n) = rg_size r + rg_size n →
  ∃ t', (n0 ← usub (mt_cnt t) (length pre + 2);
         regs ← memmove (<[length pre := mk_region (rg_base r) (u64 (rg_size r + rg_size n))
                                           (rg_flags r)]> (mt_regions t))
                  (length pre + 1) (length pre + 2) n0;
         Some (set_cnt (mt_cnt t - 1) (set_regions regs t))) = Some t' ∧
        repr t' (pre ++ mk_region (rg_base r) (rg_size r + rg_size n) (rg_flags r) :: suf) mx.
Proof.
  intros (Hm & Hc & Ht & stale & Hr & Hl) Hs. rewrite Hs.
  set (r' := mk_region _ _ _). rewrite length_app in *. simpl in *.
  rewrite usub_le by lia. simpl. rewrite Hr, <-app_assoc.
  rewrite insert_app_r_alt by lia. rewrite Nat.sub_diag. simpl.
  replace (mt_cnt t - (length pre + 2))%nat with (length suf) by lia.
  replace (pre ++ r' :: n :: suf ++ stale) with ((pre ++ [r']) ++ n :: suf ++ stale)
    by by rewrite <-app_assoc.
  destruct (memmove_close (pre ++ [r']) suf n stale) as [y Hy].
  rewrite length_app in Hy. simpl in Hy. rewrite <-Nat.add_assoc in Hy. simpl in Hy.
  rewrite Hy. simpl. eexists; split; [reflexivity|]. unfold repr; simpl.
  repeat split; [lia|rewrite length_app; simpl; lia| |].
  - rewrite Ht, !sum_sizes_app. simpl. f_equal. lia.
  - exists (y :: stale). rewrite <-!app_assoc. simpl. split; [done|].
    rewrite length_app. simpl. lia.
Qed.

Lemma merge_loop_spec suf : ∀ fuel t pre r lo mx,
  repr t (pre ++ r :: suf) mx → 0 ≤ lo → chain lo (r :: suf) → (length suf < fuel)%nat →
  ∃ t', merge_loop fuel t (length pre) = Some t' ∧ repr t' (pre ++ merge_spec r suf) mx.
Proof.
  induction suf as [|n suf IH]; intros fuel t pre r lo mx Hrep Hlo Hch Hf;
    (destruct fuel as [|fuel]; [simpl in Hf; lia|]).
  - exists t. split; [|done]. simpl. rewrite decide_False; [done|].
    destruct Hrep as (_ & -> & _). rewrite length_app. simpl. lia.
  - pose proof (chain_region _ _ _ Hlo Hch) as (Hb & Hs & Hm & Hu).
    pose proof (chain_tail _ _ _ Hch) as Hch'.
    destruct (chain_region (rg_base r + rg_size r) _ _ ltac:(lia) Hch') as (Hb' & Hs' & Hm' & Hu').
    assert (Hle : rg_base r + rg_size r ≤ rg_base n) by (by destruct Hch').
    cbn [merge_loop merge_spec].
    rewrite decide_True; last (destruct Hrep as (_ & -> & _); rewrite length_app; simpl; lia).
    rewrite (repr_lookup _ _ _ _ _ Hrep). simpl.
    assert (Hn : mt_regions t !! (length pre + 1)%nat = Some n).
    { rewrite <-(repr_lookup t (pre ++ [r]) n suf mx); [f_equal; rewrite length_app; simpl; lia|].
      by rewrite <-app_assoc. }
    rewrite Hn. simpl. rewrite Hu.
    destruct (Z.eqb_spec (rg_base r + rg_size r) (rg_base n)) as [He|He];
      [destruct (Z.eqb_spec (rg_flags r) (rg_flags n)) as [Hfl|Hfl]|]; simpl.
    + destruct (repr_merge t pre r n suf mx Hrep) as (t1 & Ht1 & Hrep1).
      { apply u64_small. unfold PHYS_ADDR_MAX in *. lia. }
      destruct (usub _ _) as [n0|]; [|done]. simpl in *.
      destruct (memmove _ _ _ _) as [regs|]; [|done]. simpl in *. injection Ht1 as <-.
      destruct (IH fuel _ pre _ lo mx Hrep1 Hlo) as (t2 & Ht2 & Hrep2).
      { destruct Hch as (? & _ & _), Hch' as (_ & _ & Hch'). simpl. repeat split; try lia.
        by replace (rg_base r + (rg_size r + rg_size n)) with (rg_base n + rg_size n) by lia. }
      { simpl in Hf. lia. }
      by exists t2.
    + destruct (Z.ltb_spec (rg_base n) (rg_base r + rg_size r)); [lia|].
      destruct (IH fuel t (pre ++ [r]) n (rg_base r + rg_size r) mx) as (t2 & Ht2 & Hrep2);
        rewrite <-?app_assoc; simpl in *; try lia; try done.
      exists t2. rewrite length_app in Ht2. by rewrite <-app_assoc in Hrep2.
    + destruct (Z.ltb_spec (rg_base n) (rg_base r + rg_size r)); [lia|].
      destruct (IH fuel t (pre ++ [r]) n (rg_base r + rg_size r) mx) as (t2 & Ht2 & Hrep2);
        rewrite <-?app_assoc; simpl in *; try lia; try done.
      exists t2. rewrite length_app in Ht2. by rewrite <-app_assoc in Hrep2.
Qed.

Lemma merge_spec_chain l : ∀ lo r, chain lo (r :: l) → chain lo (merge_spec r l).
Proof.
  induction l as [|n l IH]; intros lo r H; [done|].
  cbn [merge_spec]. destruct H as (? & ? & ? & ? & H).
  destruct (Z.eqb_spec (rg_base r + rg_size r) (rg_base n)) as [He|He];
    [destruct (Z.eqb_spec (rg_flags r) (rg_flags n))|]; simpl.
  - apply IH. simpl. repeat split; [done|lia|].
    by replace (rg_base r + (rg_size r + rg_size n)) with (rg_base n + rg_size n) by lia.
  - repeat split; [done..|]. by apply IH.
  - repeat split; [done..|]. by apply IH.
Qed.

Lemma merge_spec_attr l : ∀ lo r a, chain lo (r :: l) → attr (merge_spec r l) a = attr (r :: l) a.
Proof.
  induction l as [|n l IH]; intros lo r a H; [done|].
  cbn [merge_spec]. destruct H as (? & ? & ? & ? & H).
  destruct (Z.eqb_spec (rg_base r + rg_size r) (rg_base n)) as [He|He];
    [destruct (Z.eqb_spec (rg_flags r) (rg_flags n)) as [Hfl|]|]; simpl.
  - rewrite (IH lo).
    + simpl. unfold in_region, in_range; simpl. rewrite <-Hfl.
      bool_prop; simpl; try done; try lia.
    + simpl. repeat split; [done|lia|].
      by replace (rg_base r + (rg_size r + rg_size n)) with (rg_base n + rg_size n) by lia.
  - destruct (in_region r a); [done|]. by eapply IH.
  - destruct (in_region r a); [done|]. by eapply IH.
Qed.

Lemma merge_spec_head l r : ∃ s l', merge_spec r l = mk_region (rg_base r) s (rg_flags r) :: l'.
Proof.
  revert r. induction l as [|n l IH]; intros r; simpl.
  - destruct r. by eexists _, _.
  - destruct (_ && _); [apply (IH (mk_region _ _ _))|]. destruct r. by eexists _, _.
Qed.

Lemma merge_spec_minimal l r : minimal (merge_spec r l).
Proof.
  revert r. induction l as [|n l IH]; intros r; simpl; [done|].
  destruct (Z.eqb_spec (rg_base r + rg_size r) (rg_base n)) as [He|He];
    [destruct (Z.eqb_spec (rg_flags r) (rg_flags n)) as [Hfl|]|]; simpl; [by apply IH| |];
  (split; [|by apply IH]); destruct (merge_spec_head l n) as (s & l' & ->); simpl; auto.
Qed.

Lemma merge_regions_spec t l mx :
  repr t l mx → l ≠ [] → chain 0 l →
  ∃ t' l', memblock_merge_regions t = Some t' ∧ repr t' l' mx ∧ l' ≠ [] ∧ chain 0 l' ∧
           minimal l' ∧ ∀ a, attr l' a = attr l a.
Proof.
  intros Hrep Hne Hch. destruct l as [|r l]; [done|]. unfold memblock_merge_regions.
  destruct (merge_loop_spec l (mt_cnt t) t [] r 0 mx) as (t' & Ht' & Hrep'); try done.
  { destruct Hrep as (_ & -> & _). simpl. lia. }
  exists t', (merge_spec r l). split_and!; [done|done| | | |].
  - destruct (merge_spec_head l r) as (? & ? & ->). done.
  - by apply merge_spec_chain.
  - apply merge_spec_minimal.
  - intros a. by eapply merge_spec_attr.
Qed.

(** ** Adding a range *)

Lemma length_piece b e f : length (piece b e f) = length (piece b e 0).
Proof. unfold piece. by destruct (b <? e). Qed.

Lemma repr_cnt_lt t pre r suf mx : repr t (pre ++ r :: suf) mx → (length pre < mt_cnt t)%nat.
Proof. intros (_ & -> & _). rewrite length_app. simpl. lia. Qed.

Lemma repr_cnt_end t pre mx : repr t (pre ++ []) mx → ¬ (length pre < mt_cnt t)%nat.
Proof. intros (_ & -> & _). rewrite app_nil_r. lia. Qed.

Lemma repr_snoc t pre r suf mx : repr t (pre ++ r :: suf) mx → repr t ((pre ++ [r]) ++ suf) mx.
Proof. by rewrite <-app_assoc. Qed.

Lemma length_snoc {A} (l : list A) x : length (l ++ [x]) = (length l + 1)%nat.
Proof. by rewrite length_app. Qed.

Lemma piece_lt b e f : b < e → piece b e f = [mk_region b (e - b) f].
Proof. intros. unfold piece. by destruct (Z.ltb_spec b e); [|lia]. Qed.

Lemma piece_ge b e f : e ≤ b → piece b e f = [].
Proof. intros. unfold piece. by destruct (Z.ltb_spec b e); [lia|]. Qed.

(** The counting pass changes nothing and counts the missing pieces. *)
Lemma add_scan_count suf : ∀ fuel t pre base e f n lo mx,
  repr t (pre ++ suf) mx → 0 ≤ lo → chain lo suf → (length suf < fuel)%nat →
  ∃ idx b m, add_scan fuel false t (length pre) base e f n = Some (t, idx, b, m) ∧
             (m + length (piece b e 0) = n + add_new suf base e)%nat.
Proof.
  induction suf as [|r suf IH]; intros fuel t pre base e f n lo mx Hrep Hlo Hch Hf;
    (destruct fuel as [|fuel]; [simpl in Hf; lia|]); cbn [add_scan add_new].
  - rewrite decide_False by by eapply repr_cnt_end. by eexists _, _, _.
  - rewrite decide_True by by eapply repr_cnt_lt.
    rewrite (repr_lookup _ _ _ _ _ Hrep). simpl.
    destruct (chain_region _ _ _ Hlo Hch) as (? & ? & ? & ->).
    pose proof (chain_tail _ _ _ Hch) as Hch'. apply repr_snoc in Hrep.
    rewrite <-(length_snoc pre r). simpl in Hf.
    destruct (Z.leb_spec e (rg_base r)); [by eexists _, _, _|].
    destruct (Z.leb_spec (rg_base r + rg_size r) base); [eapply (IH _ _ _ _ _ _ _ (rg_base r + rg_size r)); eauto; lia|].
    destruct (Z.ltb_spec base (rg_base r)); [rewrite piece_lt by done|rewrite piece_ge by done].
    + destruct (IH fuel t (pre ++ [r]) (Z.min (rg_base r + rg_size r) e) e f (n + 1)%nat (rg_base r + rg_size r) mx) as (idx & b & m & -> & Hm); try done; try lia.
      exists idx, b, m. split; [done|]. simpl. rewrite Hm. lia.
    + eapply (IH _ _ _ _ _ _ _ (rg_base r + rg_size r)); eauto; lia.
Qed.

(** The inserting pass: what it leaves is [add_spec], once the remaining
    portion is put where it stopped. *)
Lemma add_scan_insert suf : ∀ fuel t pre base e f n lo mx,
  repr t (pre ++ suf) mx → 0 ≤ lo → chain lo suf → 0 ≤ base → (length suf < fuel)%nat →
  (length (pre ++ suf) + add_new suf base e ≤ mx)%nat →
  ∃ t' pre' suf' b m,
    add_scan fuel true t (length pre) base e f n = Some (t', length pre', b, m) ∧
    repr t' (pre' ++ suf') mx ∧ 0 ≤ b ∧
    pre' ++ piece b e f ++ suf' = pre ++ add_spec suf base e f ∧
    (m + length (piece b e f) = n + add_new suf base e)%nat.
Proof.
  induction suf as [|r suf IH]; intros fuel t pre base e f n lo mx Hrep Hlo Hch Hba Hf Hmx;
    (destruct fuel as [|fuel]; [simpl in Hf; lia|]); cbn [add_scan add_new add_spec] in *.
  - rewrite decide_False by by eapply repr_cnt_end.
    exists t, pre, [], base, n. by rewrite (app_nil_r (piece _ _ _)), (length_piece _ _ f).
  - rewrite decide_True by by eapply repr_cnt_lt.
    rewrite (repr_lookup _ _ _ _ _ Hrep). simpl.
    destruct (chain_region _ _ _ Hlo Hch) as (? & ? & ? & ->).
    pose proof (chain_tail _ _ _ Hch) as Hch'. simpl in Hf.
    destruct (Z.leb_spec e (rg_base r)).
    { exists t, pre, (r :: suf), base, n. by rewrite (length_piece _ _ f). }
    destruct (Z.leb_spec (rg_base r + rg_size r) base).
    { destruct (IH fuel t (pre ++ [r]) base e f n (rg_base r + rg_size r) mx) as (t' & pre' & suf' & b & m & HH);
        eauto using repr_snoc; try lia.
      { by rewrite <-app_assoc. }
      exists t', pre', suf', b, m. by rewrite length_snoc, <-app_assoc in HH. }
    destruct (Z.ltb_spec base (rg_base r));
      [rewrite !(piece_lt base (rg_base r)) in * by done
      |rewrite !(piece_ge base (rg_base r)) in * by done].
    + rewrite u64_small by (unfold PHYS_ADDR_MAX in *; lia).
      destruct (repr_insert t pre (r :: suf) mx base (rg_base r - base) f) as (t1 & -> & Hrep1);
        [done|simpl in Hmx; lia|]. simpl.
      set (x := mk_region base (rg_base r - base) f) in *.
      destruct (IH fuel t1 (pre ++ [x; r]) (Z.min (rg_base r + rg_size r) e) e f (n + 1)%nat (rg_base r + rg_size r) mx) as (t' & pre' & suf' & b & m & HH);
        eauto; try lia.
      { by rewrite <-app_assoc. }
      { rewrite !length_app in *. simpl in *. lia. }
      rewrite length_app in HH. exists t', pre', suf', b, m.
      rewrite <-app_assoc in HH. simpl in HH. destruct HH as (-> & ? & ? & -> & ->).
      split_and!; try done. simpl. lia.
    + destruct (IH fuel t (pre ++ [r]) (Z.min (rg_base r + rg_size r) e) e f n (rg_base r + rg_size r) mx) as (t' & pre' & suf' & b & m & HH);
        eauto using repr_snoc; try lia.
      { by rewrite <-app_assoc. }
      exists t', pre', suf', b, m. by rewrite length_snoc, <-app_assoc in HH.
Qed.

Lemma add_pass_count t l mx base e f :
  repr t l mx → chain 0 l → add_pass false t base e f = Some (t, add_new l base e).
Proof.
  intros Hrep Hch. unfold add_pass.
  destruct (add_scan_count l (mt_cnt t + 1) t [] base e f 0 0 mx) as (idx & b & m & Hs & Hm);
    try done.
  { destruct Hrep as (_ & -> & _). lia. }
  simpl in Hs. rewrite Hs. simpl. unfold piece in Hm.
  destruct (b <? e); simpl in Hm; do 2 f_equal; lia.
Qed.

Lemma add_pass_insert t l mx base e f :
  repr t l mx → chain 0 l → 0 ≤ base → 0 ≤ e ≤ PHYS_ADDR_MAX →
  (length l + add_new l base e ≤ mx)%nat →
  ∃ t', add_pass true t base e f = Some (t', add_new l base e) ∧
        repr t' (add_spec l base e f) mx.
Proof.
  intros Hrep Hch Hb He Hmx. unfold add_pass.
  destruct (add_scan_insert l (mt_cnt t + 1) t [] base e f 0 0 mx)
    as (t1 & pre & suf & b & m & Hs & Hrep1 & Hb1 & Heq & Hm); try done.
  { destruct Hrep as (_ & -> & _). lia. }
  simpl in Hs, Heq, Hm. rewrite Hs. simpl.
  assert (Hlen : length (add_spec l base e f) = (length l + add_new l base e)%nat).
  { clear. revert base. induction l as [|r l IH]; intros base; simpl.
    - by rewrite length_piece.
    - case_tests; simpl; rewrite ?length_app, ?(length_piece _ _ f); simpl; rewrite ?IH; lia. }
  unfold piece in Heq, Hm. destruct (Z.ltb_spec b e).
  - rewrite u64_small by (unfold PHYS_ADDR_MAX in *; lia).
    destruct (repr_insert t1 pre suf mx b (e - b) f) as (t2 & -> & Hrep2); [done| |].
    { rewrite <-Heq in Hlen. rewrite !length_app in *. simpl in Hlen. lia. }
    simpl. exists t2. simpl in Heq. rewrite <-Heq. split; [do 2 f_equal; simpl in Hm; lia|done].
  - exists t1. simpl in *. rewrite <-Heq. split; [do 2 f_equal; lia|done].
Qed.

Lemma add_spec_chain l : ∀ lo lo' b e f,
  chain lo l → lo' ≤ lo → lo' ≤ b ∨ e ≤ b → e ≤ PHYS_ADDR_MAX →
  chain lo' (add_spec l b e f).
Proof.
  induction l as [|r l IH]; intros lo lo' b e f Hch Hlo Hb He; cbn [add_spec].
  - unfold piece. case_tests; simpl in *; lia.
  - destruct Hch as (? & ? & Hch).
    case_tests; [|simpl; repeat split; try lia; eapply IH; eauto; lia|].
    + unfold piece. case_tests; simpl; repeat split; try lia;
        by replace (b + (e - b)) with e by lia.
    + assert (chain (rg_base r + rg_size r)
                (add_spec l (Z.min (rg_base r + rg_size r) e) e f)) by (eapply IH; eauto; lia).
      unfold piece. case_tests; simpl; repeat split; try done; lia.
Qed.

Lemma attr_piece b e f a : attr (piece b e f) a = if in_range b e a then Some f else None.
Proof.
  unfold piece, in_range. case_tests; simpl; unfold in_region, in_range; simpl.
  - by replace (b + (e - b)) with e by lia.
  - bool_prop; simpl; try done; lia.
Qed.

Lemma add_spec_attr l : ∀ lo b e f a,
  chain lo l →
  attr (add_spec l b e f) a =
  match attr l a with
  | Some g => Some g
  | None => if in_range b e a then Some f else None
  end.
Proof.
  induction l as [|r l IH]; intros lo b e f a Hch; cbn [add_spec]; [by rewrite attr_piece|].
  destruct Hch as (? & ? & Hch). case_tests.
  - rewrite attr_app, attr_piece. destruct (in_range b e a) eqn:Hin; [|by destruct (attr _ _)].
    rewrite (chain_attr_lo (rg_base r)); [done| |unfold in_range in Hin; bool_prop; done || lia].
    simpl. repeat split; [lia|done|done].
  - simpl. destruct (in_region r a); [done|]. by eapply IH.
  - rewrite attr_app, attr_piece. cbn [attr]. rewrite (IH _ _ _ _ _ Hch).
    destruct (attr l a) eqn:Ha.
    + assert (rg_base r + rg_size r ≤ a).
      { destruct (Z.le_gt_cases (rg_base r + rg_size r) a) as [?|Hlt]; [done|].
        by rewrite (chain_attr_lo _ _ _ Hch Hlt) in Ha. }
      unfold in_region, in_range. bool_prop; simpl; try done; lia.
    + unfold in_region, in_range. bool_prop; simpl; try done; lia.
Qed.

Lemma add_spec_nonempty l b e f : b < e → add_spec l b e f ≠ [].
Proof.
  intros. destruct l; simpl; [by rewrite piece_lt|].
  case_tests; [by rewrite piece_lt|done|]. intros [_ ?]%app_eq_nil. done.
Qed.

Lemma add_new_zero l : ∀ lo b e a,
  chain lo l → add_new l b e = 0%nat → in_range b e a = true → attr l a ≠ None.
Proof.
  induction l as [|r l IH]; intros lo b e a Hch Hn Hin; cbn [add_new] in Hn.
  - unfold piece, in_range in *. bool_prop; simpl in *; try done; lia.
  - destruct Hch as (? & ? & Hch). revert Hn. case_tests; intros Hn.
    + unfold piece, in_range in *. bool_prop; simpl in *; try done; lia.
    + simpl. destruct (in_region r a); [done|]. by eapply IH.
    + simpl. destruct (in_region r a) eqn:Hr; [done|].
      apply Nat.eq_add_0 in Hn as [Hp Hn]. eapply IH; [done|done|].
      unfold piece, in_region, in_range in *. bool_prop; simpl in *; try done; lia.
Qed.

Lemma wf_type_init t mx :
  mt_max t = mx → (0 < mx)%nat → mt_total_size t = 0 → mt_cnt t = 1%nat →
  mt_regions t = replicate mx zero_region → wf_type t.
Proof.
  intros Hm Hp Ht Hc Hr. exists [zero_region]. split; [|by left].
  unfold repr. rewrite Ht, Hc, Hr. split_and!; [done..|]. rewrite Hm.
  destruct mx as [|mx]; [lia|]. exists (replicate mx zero_region). split; [done|].
  simpl. rewrite length_replicate. lia.
Qed.

(** Region 0 is the sentinel exactly in the empty type. *)
Lemma wf_head t l mx :
  repr t l mx → l = [zero_region] ∨ (l ≠ [] ∧ chain 0 l) →
  ∃ r l', l = r :: l' ∧ mt_regions t !! 0%nat = Some r ∧
          (rg_size r = 0 ∧ l = [zero_region] ∨ rg_size r ≠ 0 ∧ chain 0 l).
Proof.
  intros Hrep Hl. destruct l as [|r l]; [by destruct Hl as [?|[? _]]|].
  exists r, l. split; [done|]. split; [apply (repr_lookup t [] r l mx Hrep)|].
  destruct Hl as [[= -> ->]|[_ Hch]]; [by left|right]. split; [|done].
  destruct Hch as (_ & ? & _). lia.
Qed.

(** What the capped interval is. *)
Lemma cap_size_range base size :
  0 ≤ base ≤ PHYS_ADDR_MAX → 0 ≤ size ≤ PHYS_ADDR_MAX →
  memblock_cap_size base size = Z.min size (PHYS_ADDR_MAX - base) ∧
  u64 (base + memblock_cap_size base size) = Z.min (base + size) PHYS_ADDR_MAX.
Proof.
  intros. unfold memblock_cap_size. rewrite (u64_small (PHYS_ADDR_MAX - base))
    by (unfold PHYS_ADDR_MAX in *; lia). split; [done|].
  rewrite u64_small by (unfold PHYS_ADDR_MAX in *; lia). lia.
Qed.

Lemma attr_zero a : attr [zero_region] a = None.
Proof.
  unfold attr, in_region, in_range, zero_region. simpl. bool_prop; simpl; try done; lia.
Qed.

(** Repackage a result of an operation. *)
Lemma wf_type_intro t l mx :
  repr t l mx → l ≠ [] → chain 0 l → wf_type t.
Proof. intros Hr ? ?. assert (mt_max t = mx) as <- by by destruct Hr. exists l. auto. Qed.

Lemma add_range_empty t base size flags :
  repr t [zero_region] (mt_max t) → 0 ≤ base → 0 < size → base + size ≤ PHYS_ADDR_MAX →
  let r := mk_region base size flags in
  repr (set_total size (set_regions (<[0%nat := r]> (mt_regions t)) t)) [r] (mt_max t).
Proof.
  intros (Hm & Hc & Ht & stale & Hr & Hl) ? ? ? r. unfold repr; simpl.
  split_and!; [done|done| |].
  - subst r. simpl. rewrite Z.add_0_r, u64_small; [done|unfold PHYS_ADDR_MAX in *; lia].
  - exists stale. rewrite Hr. split; [done|simpl in *; lia].
Qed.

(** Everything [memblock_add_range] does. *)
Lemma add_range_result t base size flags :
  wf_type t → 0 ≤ base ≤ PHYS_ADDR_MAX → 0 ≤ size ≤ PHYS_ADDR_MAX →
  ∃ ret t', memblock_add_range t base size flags = Some (ret, t') ∧ wf_type t' ∧
    mt_max t' = mt_max t ∧
    ((ret = 0 ∧ (∀ a, attrs t' a = attrs_add t base size flags a) ∧
      (minimal (live t) → minimal (live t'))) ∨
     (ret = - ENOMEM ∧ t' = t ∧
      (mt_max t < mt_cnt t + add_new (live t) base (cap_end base size))%nat)).
Proof.
  intros Hwf Hb Hs. destruct (cap_size_range base size Hb Hs) as [Hcap Hend].
  destruct Hwf as (l & Hrep & Hl). pose proof (repr_live _ _ _ Hrep) as Hlive.
  destruct (wf_head _ _ _ Hrep Hl) as (r0 & l0 & Hl0 & Hr0 & Hcase).
  unfold memblock_add_range. rewrite Hend. fold (cap_end base size). rewrite Hcap.
  destruct (Z.eqb_spec (Z.min size (PHYS_ADDR_MAX - base)) 0) as [Hz|Hz].
  { exists 0, t. split_and!; try done; [by exists l|]. left. split_and!; try done.
    intros a. unfold attrs_add. destruct (attrs t a); [done|].
    unfold in_range, cap_end. bool_prop; simpl; try done; lia. }
  rewrite Hr0. simpl. destruct Hcase as [[Hz0 Hsent]|[Hz0 Hch]].
  - rewrite (proj2 (Z.eqb_eq _ _) Hz0). rewrite Hsent in Hrep, Hlive.
    pose proof (add_range_empty t base (Z.min size (PHYS_ADDR_MAX - base)) flags Hrep
      ltac:(lia) ltac:(lia) ltac:(lia)) as Hrep'. simpl in Hrep'.
    eexists 0, _. split_and!; [done| |done|].
    + eapply wf_type_intro; [exact Hrep'|done|]. simpl. unfold PHYS_ADDR_MAX in *. lia.
    + left. split_and!; [done| |by rewrite (repr_live _ _ _ Hrep')].
      intros a. unfold attrs_add, attrs. rewrite (repr_live _ _ _ Hrep'), Hlive, attr_zero.
      simpl. unfold in_region, in_range, cap_end. simpl. bool_prop; simpl; try done; lia.
  - rewrite (proj2 (Z.eqb_neq _ _) Hz0). rewrite (add_pass_count _ _ _ _ _ _ Hrep Hch).
    cbn [mbind option_bind]. rewrite Hlive.
    destruct (decide (add_new l base (cap_end base size) = 0%nat)) as [Hn|Hn].
    { exists 0, t. split_and!; try done; [by exists l|]. left.
      split_and!; [done| |by rewrite Hlive].
      intros a. unfold attrs_add, attrs. rewrite Hlive.
      destruct (attr l a) eqn:Ha; [done|]. destruct (in_range _ _ _) eqn:Hin; [|done].
      by destruct (add_new_zero _ _ _ _ _ Hch Hn Hin). }
    destruct (decide (mt_max t < mt_cnt t + add_new l base (cap_end base size))%nat) as [Hf|Hf].
    { exists (- ENOMEM), t. split_and!; try done; [by exists l|]. right. done. }
    assert (Hcnt : mt_cnt t = length l) by by destruct Hrep as (_ & ? & _).
    destruct (add_pass_insert t l (mt_max t) base (cap_end base size) flags)
      as (t2 & -> & Hrep2); try done; [lia|unfold cap_end; lia|lia|].
    cbn [mbind option_bind]. rewrite decide_False by done.
    assert (Hlt : base < cap_end base size) by (unfold cap_end; lia).
    destruct (merge_regions_spec t2 _ _ Hrep2) as (t3 & l3 & -> & Hrep3 & Hne & Hch3 & Hmin & Ha3).
    { by apply add_spec_nonempty. }
    { eapply add_spec_chain; [exact Hch|lia|lia|unfold cap_end; lia]. }
    simpl. exists 0, t3. split_and!; [done|by eapply wf_type_intro|by destruct Hrep3|].
    left. split_and!; [done| |by rewrite (repr_live _ _ _ Hrep3)].
    intros a. unfold attrs_add, attrs. rewrite (repr_live _ _ _ Hrep3), Hlive, Ha3.
    by eapply add_spec_attr.
Qed.

(** ** Isolating a range *)

Lemma repr_split t pre r suf mx d :
  repr t (pre ++ r :: suf) mx → (length (pre ++ r :: suf) < mx)%nat →
  0 < d < rg_size r → rg_size r ≤ PHYS_ADDR_MAX →
  ∃ t', memblock_insert_region
          (set_total (u64 (mt_total_size t - d))
            (set_regions (<[length pre := mk_region (rg_base r + d) (u64 (rg_size r - d))
                                            (rg_flags r)]> (mt_regions t)) t))
          (length pre) (rg_base r) d (rg_flags r) = Some t' ∧
        repr t' (pre ++ mk_region (rg_base r) d (rg_flags r)
                     :: mk_region (rg_base r + d) (rg_size r - d) (rg_flags r) :: suf) mx.
Proof.
  intros (Hm & Hc & Ht & stale & Hr & Hl) Hlt Hd Hs.
  rewrite (u64_small (rg_size r - d)) by (unfold PHYS_ADDR_MAX in *; lia).
  apply repr_insert; [|rewrite length_app in *; simpl in *; lia].
  rewrite length_app in *; simpl in *. unfold repr; simpl. split_and!.
  - lia.
  - rewrite length_app; simpl; lia.
  - rewrite Ht, u64_sub_l. f_equal. rewrite !sum_sizes_app. simpl. lia.
  - exists stale. rewrite Hr, <-!app_assoc. rewrite insert_app_r_alt by lia.
    rewrite Nat.sub_diag. simpl. rewrite length_app. simpl. split; [done|lia].
Qed.

Lemma attr_split pre r suf d a :
  0 < d < rg_size r →
  attr (pre ++ mk_region (rg_base r) d (rg_flags r)
            :: mk_region (rg_base r + d) (rg_size r - d) (rg_flags r) :: suf) a
  = attr (pre ++ r :: suf) a.
Proof.
  intros. rewrite !attr_app. destruct (attr pre a); [done|]. simpl.
  unfold in_region, in_range. simpl. bool_prop; simpl; try done; lia.
Qed.

Lemma chain_split lo r suf d :
  0 < d < rg_size r → chain lo (r :: suf) →
  chain lo (mk_region (rg_base r) d (rg_flags r)
              :: mk_region (rg_base r + d) (rg_size r - d) (rg_flags r) :: suf).
Proof.
  intros Hd (? & ? & ?). simpl. repeat split; try lia.
  by replace (rg_base r + d + (rg_size r - d)) with (rg_base r + rg_size r) by lia.
Qed.

Lemma chain_above lo l : chain lo l → Forall (λ r, lo ≤ rg_base r) l.
Proof.
  revert lo. induction l as [|r l IH]; intros lo H; [done|]. destruct H as (? & ? & H%IH).
  constructor; [done|]. eapply Forall_impl; [exact H|]. simpl. lia.
Qed.

(** The outcome of isolation: [A] below the range, [B] inside, [C] above. *)
Definition isolated (base e lo : Z) (old A B C : list memblock_region) : Prop :=
  chain lo (A ++ B ++ C) ∧ (∀ a, attr (A ++ B ++ C) a = attr old a) ∧
  Forall (λ r, rg_base r + rg_size r ≤ base) A ∧
  Forall (λ r, base ≤ rg_base r ∧ rg_base r + rg_size r ≤ e) B ∧
  Forall (λ r, e ≤ rg_base r) C.

(** The recorded bounds, when the regions inside start at index [k]. *)
Definition recorded (s0 e0 k : nat) (B : list memblock_region) (s e : nat) : Prop :=
  (B = [] → s = s0 ∧ e = e0) ∧
  (B ≠ [] → s = (if decide (e0 = 0%nat) then k else s0) ∧ e = (k + length B)%nat).

(** From a region at or above [base] on. *)
Lemma isolate_high suf : ∀ fuel t pre lo base e s0 e0 mx,
  repr t (pre ++ suf) mx → 0 ≤ base ≤ lo → chain lo suf → base < e →
  (length suf + 1 < fuel)%nat → (length (pre ++ suf) + 1 ≤ mx)%nat →
  ∃ t' B C s' e',
    isolate_loop fuel t (length pre) base e s0 e0 = Some (t', s', e') ∧
    repr t' (pre ++ B ++ C) mx ∧ isolated base e lo suf [] B C ∧
    recorded s0 e0 (length pre) B s' e'.
Proof.
  induction suf as [|r suf IH]; intros fuel t pre lo base e s0 e0 mx Hrep Hb Hch He Hf Hmx;
    (destruct fuel as [|fuel]; [simpl in Hf; lia|]); cbn [isolate_loop].
  - rewrite decide_False by by eapply repr_cnt_end.
    exists t, [], [], s0, e0. unfold isolated, recorded. split_and!; done.
  - rewrite decide_True by by eapply repr_cnt_lt.
    rewrite (repr_lookup _ _ _ _ _ Hrep). cbn [mbind option_bind].
    destruct (chain_region lo _ _ ltac:(lia) Hch) as (? & ? & ? & ->).
    pose proof (chain_tail _ _ _ Hch) as Hch'. assert (lo ≤ rg_base r) by by destruct Hch.
    simpl in Hf.
    destruct (Z.leb_spec e (rg_base r)).
    { exists t, [], (r :: suf), s0, e0. unfold isolated, recorded. split_and!; try done.
      eapply Forall_impl; [apply (chain_above (rg_base r))|simpl; lia].
      simpl. repeat split; [lia|done|done]. }
    destruct (Z.leb_spec (rg_base r + rg_size r) base); [lia|].
    destruct (Z.ltb_spec (rg_base r) base); [lia|].
    destruct (Z.ltb_spec e (rg_base r + rg_size r)) as [Hgt|Hle].
    + rewrite (u64_small (e - rg_base r)) by (unfold PHYS_ADDR_MAX in *; lia).
      destruct (repr_split t pre r suf mx (e - rg_base r)) as (t2 & Ht2 & Hrep2);
        [done|lia|lia|lia|].
      replace (rg_base r + (e - rg_base r)) with e in Ht2, Hrep2 by lia.
      rewrite Ht2. cbn [mbind option_bind].
      set (lowr := mk_region (rg_base r) (e - rg_base r) (rg_flags r)) in *.
      set (topr := mk_region e (rg_size r - (e - rg_base r)) (rg_flags r)) in *.
      destruct fuel as [|[|fuel]]; [lia|lia|]. cbn [isolate_loop].
      rewrite decide_True by by eapply repr_cnt_lt.
      rewrite (repr_lookup _ _ _ _ _ Hrep2). cbn [mbind option_bind rg_base rg_size lowr].
      replace (rg_base r + (e - rg_base r)) with e by lia.
      rewrite u64_small by (unfold PHYS_ADDR_MAX in *; lia).
      destruct (Z.leb_spec e (rg_base r)); [lia|]. destruct (Z.leb_spec e base); [lia|].
      destruct (Z.ltb_spec (rg_base r) base); [lia|]. destruct (Z.ltb_spec e e); [lia|].
      apply repr_snoc in Hrep2. rewrite <-(length_snoc pre lowr).
      rewrite decide_True by by eapply repr_cnt_lt.
      rewrite (repr_lookup _ _ _ _ _ Hrep2). cbn [mbind option_bind rg_base topr].
      destruct (Z.leb_spec e e); [|lia].
      pose proof (chain_split lo r suf (e - rg_base r) ltac:(lia) Hch) as Hcs.
      replace (rg_base r + (e - rg_base r)) with e in Hcs by lia. fold lowr topr in Hcs.
      exists t2, [lowr], (topr :: suf). eexists _, _. split; [reflexivity|]. split.
      { by rewrite <-app_assoc in Hrep2. }
      split.
      * unfold isolated. split_and!; [done| |done| |].
        -- intros a. pose proof (attr_split [] r suf (e - rg_base r) a ltac:(lia)) as Ha.
           by replace (rg_base r + (e - rg_base r)) with e in Ha by lia.
        -- constructor; [simpl; lia|done].
        -- constructor; [simpl; lia|]. destruct Hcs as (_ & _ & _ & _ & Hcs).
           eapply Forall_impl; [exact (chain_above _ _ Hcs)|]. simpl. lia.
      * split; [done|]. intros _. rewrite length_snoc. split; [done|simpl; lia].
    + apply repr_snoc in Hrep. rewrite <-(length_snoc pre r).
      destruct (IH fuel t (pre ++ [r]) (rg_base r + rg_size r) base e
        (if decide (e0 = 0%nat) then length pre else s0) (length (pre ++ [r])) mx)
        as (t' & B & C & s' & e' & Hl & Hrep' & (Hc' & Ha & _ & HB & HC) & Hrec1 & Hrec2);
        try done; try lia.
      { rewrite <-app_assoc. done. }
      exists t', (r :: B), C, s', e'. split_and!; [done|by rewrite <-app_assoc in Hrep'| |].
      * unfold isolated. split_and!; [done| |done| |done].
        -- intros a. simpl. destruct (in_region r a); [done|]. apply Ha.
        -- constructor; [lia|done].
      * split; [done|]. intros _. rewrite length_snoc in *. destruct B as [|x B].
        -- destruct (Hrec1 eq_refl) as [-> ->]. split; [done|simpl; lia].
        -- destruct (Hrec2 ltac:(done)) as [-> ->]. rewrite decide_False by lia.
           split; [done|simpl; lia].
Qed.

Lemma isolated_cons base e lo r old A B C :
  isolated base e (rg_base r + rg_size r) old A B C →
  lo ≤ rg_base r → 0 < rg_size r → rg_base r + rg_size r ≤ base →
  isolated base e lo (r :: old) (r :: A) B C.
Proof.
  intros (Hc & Ha & HA & HB & HC) ? ? ?. unfold isolated. simpl. split_and!; try done.
  - intros a. by destruct (in_region r a).
  - by constructor.
Qed.

Lemma isolate_all suf : ∀ fuel t pre lo base e mx,
  repr t (pre ++ suf) mx → 0 ≤ lo → 0 ≤ base → chain lo suf → base < e →
  (length suf + 2 < fuel)%nat → (length (pre ++ suf) + 2 ≤ mx)%nat →
  ∃ t' A B C s' e',
    isolate_loop fuel t (length pre) base e 0 0 = Some (t', s', e') ∧
    repr t' (pre ++ A ++ B ++ C) mx ∧ isolated base e lo suf A B C ∧
    recorded 0 0 (length pre + length A) B s' e'.
Proof.
  induction suf as [|r suf IH]; intros fuel t pre lo base e mx Hrep Hlo Hb Hch He Hf Hmx;
    (destruct fuel as [|fuel]; [simpl in Hf; lia|]).
  - cbn [isolate_loop]. rewrite decide_False by by eapply repr_cnt_end.
    exists t, [], [], [], 0%nat, 0%nat. unfold isolated, recorded. split_and!; done.
  - destruct (chain_region lo _ _ Hlo Hch) as (? & ? & ? & Hu).
    pose proof (chain_tail _ _ _ Hch) as Hch'. assert (lo ≤ rg_base r) by by destruct Hch.
    simpl in Hf. destruct (Z.leb_spec base (rg_base r)) as [Hhi|Hhi].
    { (* nothing left below the range *)
      destruct (isolate_high (r :: suf) (S fuel) t pre (rg_base r) base e 0 0 mx)
        as (t' & B & C & s' & e' & Hl & Hr' & Hiso & Hrec); try done; try (simpl; lia).
      exists t', [], B, C, s', e'. rewrite Nat.add_0_r. split_and!; try done.
      destruct Hiso as (Hc & HH). split; [|done]. eapply chain_weaken; [done|lia]. }
    cbn [isolate_loop]. rewrite decide_True by by eapply repr_cnt_lt.
    rewrite (repr_lookup _ _ _ _ _ Hrep). cbn [mbind option_bind]. rewrite Hu.
    destruct (Z.leb_spec e (rg_base r)); [lia|].
    destruct (Z.leb_spec (rg_base r + rg_size r) base).
    + rewrite <-(length_snoc pre r).
      destruct (IH fuel t (pre ++ [r]) (rg_base r + rg_size r) base e mx)
        as (t' & A & B & C & s' & e' & Hl & Hr' & Hiso & Hrec); try done; try lia.
      { by apply repr_snoc. }
      { by rewrite <-app_assoc. }
      exists t', (r :: A), B, C, s', e'. split_and!; [done|by rewrite <-app_assoc in Hr'| |].
      * by apply isolated_cons.
      * rewrite length_snoc in Hrec. simpl. by rewrite Nat.add_succ_r, <-Nat.add_succ_l, <-Nat.add_1_r.
    + destruct (Z.ltb_spec (rg_base r) base); [|lia].
      rewrite (u64_small (base - rg_base r)) by (unfold PHYS_ADDR_MAX in *; lia).
      destruct (repr_split t pre r suf mx (base - rg_base r)) as (t2 & Ht2 & Hrep2);
        [done|lia|lia|lia|].
      pose proof (chain_split lo r suf (base - rg_base r) ltac:(lia) Hch) as Hcs.
      pose proof (λ a, attr_split [] r suf (base - rg_base r) a ltac:(lia)) as Has.
      replace (rg_base r + (base - rg_base r)) with base in Ht2, Hrep2, Hcs, Has by lia.
      rewrite Ht2. cbn [mbind option_bind].
      set (lowr := mk_region (rg_base r) (base - rg_base r) (rg_flags r)) in *.
      set (topr := mk_region base (rg_size r - (base - rg_base r)) (rg_flags r)) in *.
      rewrite <-(length_snoc pre lowr). apply repr_snoc in Hrep2.
      destruct (isolate_high (topr :: suf) fuel t2 (pre ++ [lowr]) base base e 0 0 mx)
        as (t' & B & C & s' & e' & Hl & Hr' & Hiso & Hrec); try done; try (simpl; lia).
      { destruct Hcs as (_ & _ & Hcs). simpl in Hcs.
        by replace (rg_base r + (base - rg_base r)) with base in Hcs by lia. }
      { rewrite !length_app in *. simpl in *. lia. }
      exists t', [lowr], B, C, s', e'. split_and!; [done|by rewrite <-app_assoc in Hr'| |].
      * destruct Hiso as (Hc & Ha & _ & HB & HC). unfold isolated.
        split_and!; [|intros a; rewrite <-Has; simpl; destruct (in_region lowr a); [done|apply Ha]
                    |constructor; [simpl; lia|done]|done|done].
        simpl. split_and!; [done|lia|].
        by replace (rg_base r + (base - rg_base r)) with base by lia.
      * by rewrite length_snoc in Hrec.
Qed.

(** ** Removing *)

Lemma remove_down_spec B : ∀ t A C mx,
  repr t (A ++ B ++ C) mx → B ≠ [] →
  ∃ t', remove_down (length B) t (length A) = Some t' ∧
        (A ++ C ≠ [] → repr t' (A ++ C) mx) ∧ (A ++ C = [] → repr t' [zero_region] mx).
Proof.
  induction B as [|r B IH] using rev_ind; intros t A C mx Hrep Hne; [done|].
  rewrite length_app, Nat.add_comm. simpl.
  rewrite <-!app_assoc in Hrep. simpl in Hrep. rewrite app_assoc in Hrep.
  destruct (repr_remove _ _ _ _ _ Hrep) as (t1 & Ht1 & Hne1 & He1).
  rewrite length_app in Ht1. rewrite Ht1. cbn [mbind option_bind].
  destruct B as [|b B].
  - simpl. rewrite app_nil_r in *. by exists t1.
  - apply IH; [|done]. rewrite app_assoc. apply Hne1.
    rewrite <-app_assoc. intros [_ ?]%app_eq_nil. done.
Qed.

(** Where the three parts lie. *)
Lemma isolated_where base e lo old A B C a :
  base < e → isolated base e lo old A B C →
  match attr A a, attr B a, attr C a with
  | Some _, None, None => a < base
  | None, Some _, None => base ≤ a < e
  | None, None, Some _ => e ≤ a
  | None, None, None => True
  | _, _, _ => False
  end.
Proof.
  intros Hlt (Hc & _ & HA & HB & HC). rewrite Forall_lookup in HA, HB, HC.
  destruct (attr A a) eqn:HAa, (attr B a) eqn:HBa, (attr C a) eqn:HCa; try done;
    repeat match goal with
    | H : attr _ _ = Some _ |- _ => apply attr_Some in H as (? & ? & ? & ?%in_region_spec & _)
    | HF : ∀ i x, ?l !! i = Some x → _, H : ?l !! _ = Some _ |- _ => apply HF in H
    end; lia.
Qed.

Lemma isolated_remove_attr base e lo old A B C a :
  base < e → isolated base e lo old A B C →
  attr (A ++ C) a = if in_range base e a then None else attr old a.
Proof.
  intros Hlt Hiso. pose proof (isolated_where _ _ _ _ _ _ _ a Hlt Hiso) as Hw.
  destruct Hiso as (_ & <- & _). rewrite !attr_app. unfold in_range.
  destruct (attr A a), (attr B a), (attr C a); bool_prop; simpl; done || lia.
Qed.

Lemma chain_remove lo A B C : chain lo (A ++ B ++ C) → chain lo (A ++ C).
Proof.
  rewrite !chain_app. intros (? & ? & HC). split; [done|].
  apply (chain_app_r _ B). by rewrite chain_app.
Qed.

(** The empty type is a fixed point of the isolation loop. *)
Lemma isolate_sentinel t mx base e :
  repr t [zero_region] mx → 0 ≤ base → base < e →
  isolate_loop (mt_cnt t + 3) t 0 base e 0 0 = Some (t, 0%nat, 0%nat).
Proof.
  intros Hrep Hb He. assert (Hc : mt_cnt t = 1%nat) by by destruct Hrep as (_ & ? & _).
  pose proof (repr_lookup t [] zero_region [] mx Hrep) as Hlk. simpl in Hlk.
  rewrite Hc at 1. cbn [isolate_loop Nat.add].
  rewrite decide_True by lia. rewrite Hlk. cbn [mbind option_bind zero_region rg_base rg_size].
  change (u64 (0 + 0)) with 0.
  destruct (Z.leb_spec e 0); [done|]. destruct (Z.leb_spec 0 base); [|lia].
  by rewrite decide_False by lia.
Qed.

(** Everything [memblock_isolate_range] does. *)
Lemma isolate_range_result t base size :
  wf_type t → 0 ≤ base ≤ PHYS_ADDR_MAX → 0 ≤ size ≤ PHYS_ADDR_MAX →
  (memblock_isolate_range t base size = Some (- ENOMEM, t, 0%nat, 0%nat) ∧
   (mt_max t < mt_cnt t + 2)%nat) ∨
  (memblock_isolate_range t base size = Some (0, t, 0%nat, 0%nat) ∧
   (cap_end base size ≤ base ∨ live t = [zero_region])) ∨
  ∃ t' A B C s e,
    memblock_isolate_range t base size = Some (0, t', s, e) ∧ base < cap_end base size ∧
    repr t' (A ++ B ++ C) (mt_max t) ∧
    isolated base (cap_end base size) 0 (live t) A B C ∧ A ++ B ++ C ≠ [] ∧
    recorded 0 0 (length A) B s e.
Proof.
  intros (l & Hrep & Hl) Hb Hs. destruct (cap_size_range base size Hb Hs) as [Hcap Hend].
  pose proof (repr_live _ _ _ Hrep) as Hlive. unfold memblock_isolate_range.
  rewrite Hend. fold (cap_end base size). rewrite Hcap.
  assert (Hcnt : mt_cnt t = length l) by by destruct Hrep as (_ & ? & _).
  destruct (Z.eqb_spec (Z.min size (PHYS_ADDR_MAX - base)) 0) as [Hz|Hz].
  { right; left. split; [done|]. left. unfold cap_end. lia. }
  assert (Hlt : base < cap_end base size) by (unfold cap_end; lia).
  destruct (decide _) as [Hfull|Hfull]; [by left|]. right.
  destruct Hl as [->|[Hne Hch]].
  { left. split; [|by right]. by rewrite (isolate_sentinel _ _ _ _ Hrep) by lia. }
  right. destruct (isolate_all l (mt_cnt t + 3) t [] 0 base (cap_end base size) (mt_max t))
    as (t' & A & B & C & s & e & Hlp & Hrep' & Hiso & Hrec); try done; try lia.
  { simpl. lia. }
  simpl in Hlp. rewrite Hlp. exists t', A, B, C, s, e. rewrite Hlive. split_and!; try done.
  intros HE. destruct Hiso as (_ & Ha & _). rewrite HE in Ha. destruct l as [|r l]; [done|].
  destruct Hch as (? & ? & _). specialize (Ha (rg_base r)). simpl in Ha.
  revert Ha. unfold in_region, in_range. bool_prop; simpl; try done; lia.
Qed.

Lemma isolated_wf t t' A B C base e :
  repr t' (A ++ B ++ C) (mt_max t) → isolated base e 0 (live t) A B C → A ++ B ++ C ≠ [] →
  wf_type t' ∧ mt_max t' = mt_max t ∧ ∀ a, attrs t' a = attrs t a.
Proof.
  intros Hr (Hc & Ha & _) Hne. split_and!; [by eapply wf_type_intro|by destruct Hr|].
  intros a. unfold attrs. by rewrite (repr_live _ _ _ Hr).
Qed.

(** Everything [memblock_remove_range] does. *)
Lemma remove_range_result t base size :
  wf_type t → 0 ≤ base ≤ PHYS_ADDR_MAX → 0 ≤ size ≤ PHYS_ADDR_MAX →
  ∃ ret t', memblock_remove_range t base size = Some (ret, t') ∧ wf_type t' ∧
    mt_max t' = mt_max t ∧
    ((ret = 0 ∧ ∀ a, attrs t' a = if in_range base (cap_end base size) a then None
                                  else attrs t a) ∨
     (ret = - ENOMEM ∧ t' = t ∧ (mt_max t < mt_cnt t + 2)%nat)).
Proof.
  intros Hwf Hb Hs. unfold memblock_remove_range.
  destruct (isolate_range_result t base size Hwf Hb Hs)
    as [[-> Hfull]|[[-> Hnop]|(t1 & A & B & C & s & e & -> & Hlt & Hrep & Hiso & Hne & Hrec)]];
    cbn [mbind option_bind].
  - exists (- ENOMEM), t. split_and!; try done. by right.
  - exists 0, t. split_and!; try done. left. split; [done|]. intros a.
    destruct Hnop as [Hnop|Hnop].
    + unfold in_range. bool_prop; simpl; try done; lia.
    + unfold attrs. rewrite Hnop, attr_zero. by destruct (in_range _ _ _).
  - simpl. destruct (decide (B = [])) as [->|HB].
    + destruct Hrec as [Hrec _]. destruct (Hrec eq_refl) as [-> ->]. simpl.
      destruct (isolated_wf _ _ _ _ _ _ _ Hrep Hiso Hne) as (? & ? & Hat).
      exists 0, t1. split_and!; try done. left. split; [done|]. intros a.
      pose proof (isolated_remove_attr _ _ _ _ _ _ _ a Hlt Hiso) as HH.
      unfold attrs at 1. rewrite (repr_live _ _ _ Hrep). simpl in *. by rewrite HH.
    + destruct Hrec as [_ Hrec]. destruct (Hrec HB) as [-> ->]. simpl.
      replace (length A + length B - length A)%nat with (length B) by lia.
      destruct (remove_down_spec B t1 A C _ Hrep HB) as (t2 & -> & H1 & H2).
      cbn [mbind option_bind]. exists 0, t2. split; [done|].
      assert (Hat : ∀ a, attr (A ++ C) a =
        (if in_range base (cap_end base size) a then None else attrs t a))
        by (intros a; by eapply isolated_remove_attr).
      destruct (decide (A ++ C = [])) as [HAC|HAC].
      * specialize (H2 HAC). split_and!; [|by destruct H2|].
        { exists [zero_region]. split; [|by left]. destruct H2 as (Hm & ?). by rewrite Hm in *. }
        left. split; [done|]. intros a. unfold attrs at 1.
        rewrite (repr_live _ _ _ H2), attr_zero, <-Hat, HAC. done.
      * specialize (H1 HAC). destruct Hiso as (Hc & _).
        split_and!; [by eapply wf_type_intro, chain_remove|by destruct H1|].
        left. split; [done|]. intros a. unfold attrs at 1. by rewrite (repr_live _ _ _ H1).
Qed.

(** ** Attributes *)

Lemma update_flags_spec f B : ∀ t A C mx,
  (∀ r, rg_size (f r) = rg_size r) → repr t (A ++ B ++ C) mx →
  ∃ t', update_flags (length B) t (length A) f = Some t' ∧ repr t' (A ++ map f B ++ C) mx.
Proof.
  induction B as [|r B IH]; intros t A C mx Hf Hrep; simpl; [by exists t|].
  simpl in Hrep. rewrite (repr_lookup _ _ _ _ _ Hrep). cbn [mbind option_bind].
  destruct (IH (set_regions (<[length A := f r]> (mt_regions t)) t) (A ++ [f r]) C mx)
    as (t' & Ht' & Hrep'); [done| |].
  { apply repr_snoc. by apply (repr_update _ _ r). }
  rewrite length_snoc in Ht'. exists t'. by rewrite <-app_assoc in Hrep'.
Qed.

Definition setclr_flags (set : bool) (flag g : Z) : Z :=
  if set then Z.lor g flag else Z.land g (Z.lnot flag).

Lemma setclr_region_shape set flag r :
  setclr_region set flag r = mk_region (rg_base r) (rg_size r) (setclr_flags set flag (rg_flags r)).
Proof. by destruct set. Qed.

Lemma chain_map_setclr set flag lo A B C :
  chain lo (A ++ B ++ C) → chain lo (A ++ map (setclr_region set flag) B ++ C).
Proof.
  assert (H : ∀ B lo C, chain lo (B ++ C) → chain lo (map (setclr_region set flag) B ++ C)).
  { clear. induction B as [|r B IH]; intros lo C H; [done|]. simpl.
    rewrite setclr_region_shape. destruct H as (? & ? & H). simpl. auto. }
  rewrite !(chain_app lo A). intros [? ?]. auto.
Qed.

Lemma attr_map_setclr set flag B a :
  attr (map (setclr_region set flag) B) a = setclr_flags set flag <$> attr B a.
Proof.
  induction B as [|r B IH]; [done|]. simpl. rewrite setclr_region_shape, IH.
  unfold in_region. simpl. by destruct (in_range _ _ _).
Qed.

Lemma isolated_setclr_attr set flag base e lo old A B C a :
  base < e → isolated base e lo old A B C →
  attr (A ++ map (setclr_region set flag) B ++ C) a =
  if in_range base e a then setclr_flags set flag <$> attr old a else attr old a.
Proof.
  intros Hlt Hiso. pose proof (isolated_where _ _ _ _ _ _ _ a Hlt Hiso) as Hw.
  destruct Hiso as (_ & <- & _). rewrite !attr_app, attr_map_setclr. unfold in_range.
  destruct (attr A a), (attr B a), (attr C a); bool_prop; simpl; done || lia.
Qed.

(** Everything [memblock_setclr_flag] does. *)
Lemma setclr_flag_result mb base size set flag :
  wf_type (mb_memory mb) → 0 ≤ base ≤ PHYS_ADDR_MAX → 0 ≤ size ≤ PHYS_ADDR_MAX →
  ∃ ret t', memblock_setclr_flag mb base size set flag = Some (ret, set_memory t' mb) ∧
    wf_type t' ∧ mt_max t' = mt_max (mb_memory mb) ∧
    ((ret = 0 ∧ ∀ a, attrs t' a =
        if in_range base (cap_end base size) a
        then setclr_flags set flag <$> attrs (mb_memory mb) a
        else attrs (mb_memory mb) a) ∨
     (ret = - ENOMEM ∧ t' = mb_memory mb ∧
      (mt_max (mb_memory mb) < mt_cnt (mb_memory mb) + 2)%nat)).
Proof.
  intros Hwf Hb Hs. unfold memblock_setclr_flag. set (t := mb_memory mb) in *.
  destruct (isolate_range_result t base size Hwf Hb Hs)
    as [[-> Hfull]|[[-> Hnop]|(t1 & A & B & C & s & e & -> & Hlt & Hrep & Hiso & Hne & Hrec)]];
    cbn [mbind option_bind].
  - exists (- ENOMEM), t. split_and!; try done. by right.
  - change (negb (0 =? 0)) with false. cbn [update_flags Nat.sub mbind option_bind].
    assert (Hid : ∀ a, attrs t a = if in_range base (cap_end base size) a
                        then setclr_flags set flag <$> attrs t a else attrs t a).
    { intros a. destruct (in_range _ _ _) eqn:Hin; [|done]. destruct Hnop as [Hnop|Hnop].
      - unfold in_range in Hin. bool_prop; simpl in Hin; try done; lia.
      - unfold attrs. by rewrite Hnop, attr_zero. }
    destruct Hwf as (l & Hrep & [->|[Hne Hch]]).
    + exists 0, t. assert (Hm : memblock_merge_regions t = Some t).
      { unfold memblock_merge_regions. destruct Hrep as (_ & Hc & _). rewrite Hc. simpl.
        by rewrite decide_False by (rewrite Hc; simpl; lia). }
      rewrite Hm. cbn [mbind option_bind]. split_and!; try done.
      { exists [zero_region]. auto. }
      left. done.
    + destruct (merge_regions_spec t l _ Hrep Hne Hch)
        as (t3 & l3 & -> & Hrep3 & Hne3 & Hch3 & _ & Ha3). cbn [mbind option_bind].
      exists 0, t3. split_and!; [done|by eapply wf_type_intro|by destruct Hrep3|].
      left. split; [done|]. intros a. rewrite <-Hid. unfold attrs.
      by rewrite (repr_live _ _ _ Hrep3), (repr_live _ _ _ Hrep).
  - change (negb (0 =? 0)) with false. cbn iota.
    assert (Hse : (e - s)%nat = length B ∧ (B = [] ∨ s = length A)).
    { destruct Hrec as [H1 H2]. destruct (decide (B = [])) as [->|HB].
      - destruct (H1 eq_refl) as [-> ->]. auto.
      - destruct (H2 HB) as [-> ->]. simpl. split; [lia|by right]. }
    destruct Hse as [-> HsA].
    assert (Hup : ∃ t2, update_flags (length B) t1 s (setclr_region set flag) = Some t2 ∧
                        repr t2 (A ++ map (setclr_region set flag) B ++ C) (mt_max t)).
    { destruct HsA as [->| ->]; [by exists t1|].
      apply update_flags_spec; [|done]. intros r. by rewrite setclr_region_shape. }
    destruct Hup as (t2 & -> & Hrep2). cbn [mbind option_bind].
    destruct (merge_regions_spec t2 _ _ Hrep2)
      as (t3 & l3 & -> & Hrep3 & Hne3 & Hch3 & _ & Ha3).
    { intros HE. apply Hne. apply app_eq_nil in HE as [-> HE].
      apply app_eq_nil in HE as [HE ->]. by apply map_eq_nil in HE as ->. }
    { destruct Hiso as (Hc & _). by apply chain_map_setclr. }
    cbn [mbind option_bind]. exists 0, t3.
    split_and!; [done|by eapply wf_type_intro|by destruct Hrep3|].
    left. split; [done|]. intros a. unfold attrs at 1.
    rewrite (repr_live _ _ _ Hrep3), Ha3. by eapply isolated_setclr_attr.
Qed.
