(* ===== verification/MemblockAlloc.v ===== *)
(** * Searching and allocating boot memory

    Binary search, the two free-range iterators and the allocator of
    [memblock.c]: the iterators enumerate exactly the memory that is not
    reserved, and the allocator finds a window whenever one exists. *)

From S2P Require Import Prelude Memblock MemblockFacts.

(** ** Specification *)

(** Live regions seen through their indices; both kinds of well-formed type
    are ordered. *)
Definition ordered (l : list memblock_region) : Prop :=
  (∀ i r, l !! i = Some r →
     0 ≤ rg_base r ∧ 0 ≤ rg_size r ∧ rg_base r + rg_size r ≤ PHYS_ADDR_MAX) ∧
  (∀ i j ri rj, (i < j)%nat → l !! i = Some ri → l !! j = Some rj →
     rg_base ri + rg_size ri ≤ rg_base rj).

(** An address that may be handed out: memory with these flags, not reserved. *)
Definition free_addr (mb : memblock) (flags a : Z) : Prop :=
  attrs (mb_memory mb) a = Some flags ∧ attrs (mb_reserved mb) a = None.

(** Position of a window: inside memory region [p] and inside the gap below
    reserved region [q]. *)
Definition gap_lo (l : list memblock_region) (q : nat) : Z :=
  match q with O => 0 | S q' => from_option (λ r, rg_base r + rg_size r) 0 (l !! q') end.
Definition gap_hi (l : list memblock_region) (q : nat) : Z :=
  from_option rg_base PHYS_ADDR_MAX (l !! q).

Definition window_at (la lb : list memblock_region) (flags c e : Z) (p q : nat) : Prop :=
  ∃ m, la !! p = Some m ∧ rg_flags m = flags ∧ rg_base m ≤ c ∧ e ≤ rg_base m + rg_size m ∧
       (q ≤ length lb)%nat ∧ gap_lo lb q ≤ c ∧ e ≤ gap_hi lb q.

(** ** Ordered lists *)

Lemma chain_ordered lo l : 0 ≤ lo → chain lo l → ordered l.
Proof.
  intros Hlo Hch. revert lo Hlo Hch. induction l as [|r l IH]; intros lo Hlo Hch; [done|].
  destruct (chain_region _ _ _ Hlo Hch) as (? & ? & ? & _).
  apply chain_tail in Hch. destruct (IH (rg_base r + rg_size r) ltac:(lia) Hch) as [Ho1 Ho2].
  split.
  - intros [|i] r' Hi; simplify_eq/=; [lia|]. by eapply Ho1.
  - intros [|i] [|j] ri rj Hij Hi Hj; simplify_eq/=; try lia.
    + apply chain_above in Hch. rewrite Forall_lookup in Hch. by eapply Hch.
    + eapply (Ho2 i j); eauto. lia.
Qed.

Lemma zero_ordered : ordered [zero_region].
Proof.
  split.
  - intros [|i] r Hi; simplify_eq/=. unfold PHYS_ADDR_MAX. lia.
  - intros [|i] [|j] ri rj Hij Hi Hj; simplify_eq/=; lia.
Qed.

Lemma wf_ordered t : wf_type t → ordered (live t).
Proof.
  intros (l & Hrep & Hl). rewrite (repr_live _ _ _ Hrep).
  destruct Hl as [->|[_ Hch]]; [apply zero_ordered|by apply (chain_ordered 0)].
Qed.

Lemma wf_len t : wf_type t → mt_cnt t = length (live t) ∧ (0 < mt_cnt t ≤ mt_max t)%nat.
Proof.
  intros (l & Hrep & Hl). rewrite (repr_live _ _ _ Hrep).
  destruct Hrep as (_ & Hc & _ & stale & _ & Hs). split; [done|].
  destruct Hl as [->|[Hne _]]; [simpl in *; lia|]. destruct l; [done|]. simpl in *. lia.
Qed.

Lemma wf_regionZ t i :
  wf_type t → 0 ≤ i < cntZ t → ∃ r, regionZ t i = Some r ∧ live t !! Z.to_nat i = Some r.
Proof.
  intros Hwf Hi. destruct (wf_len _ Hwf) as [Hc _]. unfold cntZ in Hi.
  destruct (lookup_lt_is_Some_2 (live t) (Z.to_nat i)) as [r Hr]; [lia|].
  exists r. split; [|done]. unfold regionZ. rewrite decide_True by lia.
  unfold live in Hr. by apply lookup_take_Some in Hr as [? _].
Qed.

Lemma attr_lookup l i r a :
  ordered l → l !! i = Some r → in_region r a = true → attr l a = Some (rg_flags r).
Proof.
  intros Ho Hi Hin. destruct (attr l a) as [f|] eqn:Ha.
  - apply attr_Some in Ha as (j & r' & Hj & Hin' & <-). f_equal.
    rewrite in_region_spec in *. destruct Ho as [_ Ho].
    destruct (lt_eq_lt_dec i j) as [[Hlt|<-]|Hlt]; [|by simplify_eq|];
      exfalso; [specialize (Ho i j _ _ Hlt Hi Hj)|specialize (Ho j i _ _ Hlt Hj Hi)]; lia.
  - exfalso. clear Ho. revert i Hi Ha. induction l as [|r' l IH]; intros i Hi Ha; [done|].
    simpl in Ha. destruct (in_region r' a) eqn:Hin'; [done|].
    destruct i as [|i]; simplify_eq/=; [congruence|by eapply IH].
Qed.

(** ** Binary search *)

Lemma search_loop_spec t addr : ∀ fuel left right,
  wf_type t → Z.of_nat (mt_max t) < 2 ^ 31 → 0 ≤ left < right → right ≤ cntZ t →
  right - left < Z.of_nat fuel →
  (∀ i r, live t !! i = Some r → Z.of_nat i < left → rg_base r + rg_size r ≤ addr) →
  (∀ i r, live t !! i = Some r → right ≤ Z.of_nat i → addr < rg_base r) →
  ∃ i, search_loop fuel t addr left right = Some i ∧
    ((i = -1 ∧ attrs t addr = None) ∨
     (∃ r, 0 ≤ i < cntZ t ∧ regionZ t i = Some r ∧ in_region r addr = true ∧
           attrs t addr = Some (rg_flags r))).
Proof.
  induction fuel as [|fuel IH]; intros left right Hwf Hmx Hlr Hr Hf HL HR; [lia|].
  cbn [search_loop]. destruct (wf_len _ Hwf) as [Hc Hcm]. unfold cntZ in *.
  rewrite u32_small by lia. set (mid := (right + left) / 2).
  assert (Hmid : left ≤ mid < right) by (subst mid; split; [apply Z.div_le_lower_bound|apply Z.div_lt_upper_bound]; lia).
  destruct (wf_regionZ t mid Hwf) as (r & Hrz & Hlk); [unfold cntZ; lia|].
  rewrite Hrz. cbn [mbind option_bind].
  destruct (wf_ordered _ Hwf) as [Ho1 Ho2]. destruct (Ho1 _ _ Hlk) as (? & ? & Hend).
  rewrite u64_small by (unfold PHYS_ADDR_MAX in *; lia).
  assert (Hnone : ∀ x, (∀ i r0, live t !! i = Some r0 → Z.of_nat i < x → rg_base r0 + rg_size r0 ≤ addr) →
    (∀ i r0, live t !! i = Some r0 → x ≤ Z.of_nat i → addr < rg_base r0) → attrs t addr = None).
  { intros x H1 H2. unfold attrs. destruct (attr _ _) eqn:Ha; [|done].
    apply attr_Some in Ha as (j & r' & Hj & Hin & _). rewrite in_region_spec in Hin.
    destruct (Z.lt_ge_cases (Z.of_nat j) x);
      [specialize (H1 j r' Hj ltac:(lia))|specialize (H2 j r' Hj ltac:(lia))]; lia. }
  destruct (Z.ltb_spec addr (rg_base r)) as [Hlt|Hge].
  - assert (HR' : ∀ i r0, live t !! i = Some r0 → mid ≤ Z.of_nat i → addr < rg_base r0).
    { intros j rj Hj Hmj. destruct (decide (Z.to_nat mid = j)) as [<-|?]; [by simplify_eq|].
      specialize (Ho2 (Z.to_nat mid) j r rj ltac:(lia) Hlk Hj). lia. }
    destruct (Z.ltb_spec left mid).
    + destruct (IH left mid) as (i & Hi & HH); try done; try lia. by exists i.
    + exists (-1). split; [done|]. left. split; [done|].
      apply (Hnone left); [done|]. intros j rj Hj Hmj. apply (HR' j); [done|lia].
  - destruct (Z.leb_spec (rg_base r + rg_size r) addr) as [Hle|Hgt].
    + assert (HL' : ∀ i r0, live t !! i = Some r0 → Z.of_nat i < mid + 1 →
                     rg_base r0 + rg_size r0 ≤ addr).
      { intros j rj Hj Hmj. destruct (decide (Z.to_nat mid = j)) as [<-|?]; [by simplify_eq|].
        specialize (Ho2 j (Z.to_nat mid) rj r ltac:(lia) Hj Hlk). lia. }
      destruct (Z.ltb_spec (mid + 1) right).
      * destruct (IH (mid + 1) right) as (i & Hi & HH); try done; try lia. by exists i.
      * exists (-1). split; [done|]. left. split; [done|].
        apply (Hnone right); [|done]. intros j rj Hj Hmj. apply (HL' j); [done|lia].
    + exists mid. split; [done|]. right. exists r. split_and!; [lia|lia|done| |].
      * apply in_region_spec. lia.
      * apply (attr_lookup _ (Z.to_nat mid)); [by apply wf_ordered|done|]. apply in_region_spec. lia.
Qed.

(** Everything [memblock_search] does. *)
Lemma search_result t addr :
  wf_type t → Z.of_nat (mt_max t) < 2 ^ 31 →
  ∃ i, memblock_search t addr = Some i ∧
    ((i = -1 ∧ attrs t addr = None) ∨
     (∃ r, 0 ≤ i < cntZ t ∧ regionZ t i = Some r ∧ in_region r addr = true ∧
           attrs t addr = Some (rg_flags r))).
Proof.
  intros Hwf Hmx. destruct (wf_len _ Hwf) as [Hc Hcm]. unfold memblock_search.
  rewrite u32_small by (unfold cntZ; lia).
  apply search_loop_spec; try done; unfold cntZ; try lia.
  intros i r Hi Hge. apply lookup_lt_Some in Hi. lia.
Qed.

(** ** Gaps between reserved regions *)

Lemma gap_hi_le_lo l q q' :
  ordered l → (q < q')%nat → (q' ≤ length l)%nat → gap_hi l q ≤ gap_lo l q'.
Proof.
  intros [Ho1 Ho2] Hq Hq'. destruct q' as [|k]; [lia|]. unfold gap_hi, gap_lo.
  destruct (lookup_lt_is_Some_2 l q) as [r Hr]; [lia|].
  destruct (lookup_lt_is_Some_2 l k) as [r' Hr']; [lia|]. rewrite Hr, Hr'. simpl.
  destruct (decide (q = k)) as [->|?].
  - rewrite Hr in Hr'. injection Hr' as <-. destruct (Ho1 _ _ Hr). lia.
  - specialize (Ho2 q k _ _ ltac:(lia) Hr Hr'). destruct (Ho1 _ _ Hr), (Ho1 _ _ Hr'). lia.
Qed.

Lemma gap_not_reserved l q a :
  ordered l → (q ≤ length l)%nat → gap_lo l q ≤ a < gap_hi l q → attr l a = None.
Proof.
  intros [Ho1 Ho2] Hq Ha. destruct (attr l a) eqn:Hat; [exfalso|done].
  apply attr_Some in Hat as (i & r & Hi & Hin & _). apply in_region_spec in Hin.
  destruct (decide (i < q)%nat).
  - destruct q as [|k]; [lia|]. unfold gap_lo in Ha.
    destruct (lookup_lt_is_Some_2 l k) as [r' Hr']; [lia|]. rewrite Hr' in Ha. simpl in Ha.
    destruct (decide (i = k)) as [->|?]; [simplify_eq; lia|].
    specialize (Ho2 i k _ _ ltac:(lia) Hi Hr'). destruct (Ho1 _ _ Hr'). lia.
  - unfold gap_hi in Ha. pose proof (lookup_lt_Some _ _ _ Hi).
    destruct (lookup_lt_is_Some_2 l q) as [r' Hr']; [lia|]. rewrite Hr' in Ha. simpl in Ha.
    destruct (decide (i = q)) as [->|?]; [simplify_eq; lia|].
    specialize (Ho2 q i _ _ ltac:(lia) Hr' Hi). destruct (Ho1 _ _ Hr'). lia.
Qed.

Lemma gap_start_spec t (q : nat) :
  wf_type t → (q ≤ mt_cnt t)%nat → gap_start t (Z.of_nat q) = Some (gap_lo (live t) q).
Proof.
  intros Hwf Hq. unfold gap_start, gap_lo. destruct q as [|k]; [done|].
  destruct (Z.eqb_spec (Z.of_nat (S k)) 0); [lia|].
  destruct (wf_regionZ t (Z.of_nat (S k) - 1) Hwf) as (r & -> & Hlk); [unfold cntZ; lia|].
  replace (Z.to_nat (Z.of_nat (S k) - 1)) with k in Hlk by lia. rewrite Hlk. simpl.
  destruct (wf_ordered _ Hwf) as [Ho _]. destruct (Ho _ _ Hlk) as (? & ? & ?).
  rewrite u64_small; [done|unfold PHYS_ADDR_MAX in *; lia].
Qed.

Lemma gap_end_spec t (q : nat) :
  wf_type t → Z.of_nat (mt_max t) < 2 ^ 31 → (q ≤ mt_cnt t)%nat →
  gap_end t (Z.of_nat q) = Some (gap_hi (live t) q).
Proof.
  intros Hwf Hmx Hq. destruct (wf_len _ Hwf) as [Hc Hcm]. unfold gap_end, gap_hi.
  rewrite u64_small by lia. unfold cntZ.
  destruct (Z.ltb_spec (Z.of_nat q) (Z.of_nat (mt_cnt t))).
  - destruct (wf_regionZ t (Z.of_nat q) Hwf) as (r & -> & Hlk); [unfold cntZ; lia|].
    rewrite Nat2Z.id in Hlk. by rewrite Hlk.
  - rewrite (proj2 (lookup_ge_None (live t) q)); [done|lia].
Qed.

Lemma pack_unpack ia ib :
  -1 ≤ ia < 2 ^ 31 → 0 ≤ ib < 2 ^ 31 →
  unpack_a (pack_idx ia ib) = ia ∧ unpack_b (pack_idx ia ib) = ib ∧
  pack_idx ia ib ≠ ULLONG_MAX.
Proof.
  intros Ha Hb. unfold unpack_a, unpack_b, pack_idx.
  rewrite (u64_small ib) by lia. rewrite Z.shiftl_mul_pow2 by lia.
  rewrite (u64_small (ib * 2 ^ 32)) by lia.
  assert (Hu : 0 ≤ u32 ia < 2 ^ 32) by (apply Z.mod_pos_bound; lia).
  rewrite lor_disjoint_add by lia. split_and!.
  - change 0xffffffff with (Z.ones 32). rewrite Z.land_ones by lia.
    rewrite Z.mod_add by lia. rewrite Z.mod_small by lia.
    unfold s32, u32. rewrite Z.add_mod_idemp_l by lia. fold (s32 ia). apply s32_small. lia.
  - rewrite Z.shiftr_div_pow2, Z.div_add, Z.div_small by lia. apply s32_small. lia.
  - unfold ULLONG_MAX. lia.
Qed.

(** ** The iterators *)

Lemma gap_lo_le_hi l q : ordered l → (q ≤ length l)%nat → gap_lo l q ≤ gap_hi l q.
Proof.
  intros Ho Hq. unfold gap_hi, gap_lo. destruct q as [|k].
  - destruct (l !! 0%nat) as [r|] eqn:Hr; simpl; [by destruct (proj1 Ho _ _ Hr)|].
    unfold PHYS_ADDR_MAX. lia.
  - destruct (lookup_lt_is_Some_2 l k) as [r' Hr']; [lia|]. rewrite Hr'. simpl.
    destruct (l !! S k) as [r|] eqn:Hr; simpl; [apply (proj2 Ho k (S k)); [lia|done..]|].
    by destruct (proj1 Ho _ _ Hr') as (? & ? & ?).
Qed.

(** A window above the gap [q] of [l] is above the ones before it. *)
Lemma gap_above l q q' c :
  ordered l → (q ≤ q')%nat → (q' ≤ length l)%nat → gap_lo l q' ≤ c → gap_lo l q ≤ c.
Proof.
  intros Ho Hq Hq' Hc. destruct (decide (q = q')) as [->|]; [done|].
  pose proof (gap_hi_le_lo l q q' Ho ltac:(lia) Hq').
  pose proof (gap_lo_le_hi l q Ho ltac:(lia)). lia.
Qed.

Section iterators.
Context (ta tb : memblock_type) (flags : Z).
Context (Hwfa : wf_type ta) (Hwfb : wf_type tb).
Context (Hma : Z.of_nat (mt_max ta) < 2 ^ 31 - 1) (Hmb : Z.of_nat (mt_max tb) < 2 ^ 31 - 1).

#[local] Abbreviation la := (live ta).
#[local] Abbreviation lb := (live tb).
#[local] Abbreviation ca := (mt_cnt ta).
#[local] Abbreviation cb := (mt_cnt tb).

(** Every address of an emitted range may be handed out. *)
Definition range_sound (s e : Z) : Prop :=
  ∀ a, s ≤ a < e → attrs ta a = Some flags ∧ attrs tb a = None.

(** Pairs of indices of non-empty windows. *)
Definition no_window (pend : nat → nat → Prop) : Prop :=
  ∀ p q c c', window_at la lb flags c c' p q → c < c' → ¬ pend p q.

(** A pending window is in the emitted range or still pending. *)
Definition range_complete (pend pend' : nat → nat → Prop) (s e : Z) : Prop :=
  ∀ p q c c', window_at la lb flags c c' p q → c < c' → pend p q →
    (s ≤ c ∧ c' ≤ e) ∨ pend' p q.

(** What one call of an iterator promises: [pend] are the index pairs still
    to visit from the indices [i], [j], [enc] their encoding, [ok] their
    bounds and [meas] a bound on the calls left. *)
Definition iter_step (enc : nat → nat → Z) (ok : nat → nat → Prop)
    (pend : nat → nat → nat → nat → Prop)
    (meas : nat → nat → nat) (pend0 : nat → nat → Prop) (m0 : nat)
    (res : option (Z * option (Z * Z))) : Prop :=
  (res = Some (ULLONG_MAX, None) ∧ no_window pend0) ∨
  ∃ i j s e, res = Some (enc i j, Some (s, e)) ∧ ok i j ∧
    (meas i j < m0)%nat ∧ range_sound s e ∧ range_complete pend0 (pend i j) s e.

Lemma iter_weaken enc ok pend meas pend1 m1 pend0 m0 res :
  iter_step enc ok pend meas pend1 m1 res → (m1 ≤ m0)%nat →
  (∀ p q c c', window_at la lb flags c c' p q → c < c' → pend0 p q → pend1 p q) →
  iter_step enc ok pend meas pend0 m0 res.
Proof.
  intros [[-> Hno]|(i & j & s & e & -> & ? & ? & Hs & Hc)] Hm Hp.
  - left. split; [done|]. intros p q c c' Hw Hcc Hpe. by eapply Hno; eauto.
  - right. exists i, j, s, e. split_and!; try done; [lia|].
    intros p q c c' Hw Hcc Hpe. eapply Hc; eauto.
Qed.

Lemma range_sound_intro p q m :
  la !! p = Some m → rg_flags m = flags → (q ≤ cb)%nat →
  range_sound (Z.max (rg_base m) (gap_lo lb q)) (Z.min (rg_base m + rg_size m) (gap_hi lb q)).
Proof.
  intros Hp Hfl Hq a Ha. destruct (wf_len _ Hwfb) as [Hcb _]. split.
  - rewrite <-Hfl. apply (attr_lookup _ p); [by apply wf_ordered|done|].
    apply in_region_spec. lia.
  - apply (gap_not_reserved _ q); [by apply wf_ordered|lia|lia].
Qed.

(** A window at the region and the gap of an emitted range lies in it. *)
Lemma window_in_range p q m c c' :
  la !! p = Some m → window_at la lb flags c c' p q →
  Z.max (rg_base m) (gap_lo lb q) ≤ c ∧ c' ≤ Z.min (rg_base m + rg_size m) (gap_hi lb q).
Proof. intros Hm (m' & Hp & _ & ? & ? & _ & ? & ?). simplify_eq. lia. Qed.

(** *** Forward *)

Lemma scan_gaps_spec ia ms me : ∀ fuel ib,
  (ib ≤ cb + 1)%nat → (cb + 1 - ib < fuel)%nat →
  ∃ q, (ib ≤ q)%nat ∧ (∀ k, (ib ≤ k < q)%nat → (k ≤ cb)%nat → gap_hi lb k ≤ ms) ∧
    ((scan_gaps fuel tb ia (Z.of_nat ib) ms me = Some (ScanNext (Z.of_nat q)) ∧
      (q ≤ cb + 1)%nat ∧ ((q ≤ cb)%nat → me ≤ gap_lo lb q)) ∨
     ((q ≤ cb)%nat ∧ gap_lo lb q < me ∧ ms < gap_hi lb q ∧
      scan_gaps fuel tb ia (Z.of_nat ib) ms me =
        Some (ScanFound (if me <=? gap_hi lb q then ia + 1 else ia)
                (Z.of_nat (if me <=? gap_hi lb q then q else S q))
                (Z.max ms (gap_lo lb q)) (Z.min me (gap_hi lb q))))).
Proof.
  destruct (wf_len _ Hwfb) as [_ Hcm].
  induction fuel as [|fuel IH]; intros ib Hib Hf; [lia|]. cbn [scan_gaps].
  rewrite u64_small by lia. unfold cntZ.
  destruct (Z.ltb_spec (Z.of_nat ib) (Z.of_nat cb + 1)) as [Hlt|Hge].
  - assert (Hq : (ib ≤ cb)%nat) by lia.
    rewrite gap_start_spec, gap_end_spec by (done || lia). cbn [mbind option_bind].
    destruct (Z.leb_spec me (gap_lo lb ib)).
    { exists ib. split; [lia|]. split; [lia|]. left. done. }
    destruct (Z.ltb_spec ms (gap_hi lb ib)).
    { exists ib. split; [lia|]. split; [lia|]. right. split_and!; try done.
      destruct (me <=? gap_hi lb ib); do 2 f_equal. lia. }
    destruct (IH (S ib)) as (q & Hle & Hsk & Hres); [lia|lia|].
    rewrite Nat2Z.inj_succ in Hres. exists q. split; [lia|]. split; [|done].
    intros k Hk Hkc. destruct (decide (k = ib)) as [->|]; [done|]. apply Hsk; lia.
  - exists ib. split; [lia|]. split; [lia|]. left. split; [done|]. lia.
Qed.

Definition enc_fwd (ia ib : nat) : Z := pack_idx (Z.of_nat ia) (Z.of_nat ib).
Definition pend_fwd (ia ib p q : nat) : Prop := (ia ≤ p)%nat ∧ (ib ≤ q)%nat.
Definition meas_fwd (ia ib : nat) : nat := ((ca - ia) + (cb + 1 - ib))%nat.
Definition ok_fwd (ia ib : nat) : Prop := (ia ≤ ca)%nat ∧ (ib ≤ cb + 1)%nat.
Definition step_fwd := iter_step enc_fwd ok_fwd pend_fwd meas_fwd.

(** The gaps a scan skips hold nothing of the regions from [ia] on. *)
Lemma skipped_gaps ia ib q0 m p q c c' :
  la !! ia = Some m →
  (∀ k, (ib ≤ k < q0)%nat → (k ≤ cb)%nat → gap_hi lb k ≤ rg_base m) →
  window_at la lb flags c c' p q → c < c' → pend_fwd ia ib p q → (q0 ≤ q)%nat.
Proof.
  intros Hm Hsk (m' & Hp & _ & ? & ? & Hq & ? & ?) ? [? ?]. destruct (wf_len _ Hwfb) as [Hlb _].
  destruct (Nat.lt_ge_cases q q0) as [Hqq|]; [exfalso|done].
  specialize (Hsk q ltac:(lia) ltac:(lia)). pose proof (wf_ordered _ Hwfa) as Hoa.
  destruct (decide (p = ia)) as [->|]; [simplify_eq; lia|].
  pose proof (proj2 Hoa ia p _ _ ltac:(lia) Hm Hp). destruct (proj1 Hoa _ _ Hm). lia.
Qed.

(** The range found at region [ia] and gap [q0], and the indices after it. *)
Lemma found_fwd ia ib q0 m :
  la !! ia = Some m → rg_flags m = flags → (ib ≤ q0 ≤ cb)%nat →
  (∀ k, (ib ≤ k < q0)%nat → (k ≤ cb)%nat → gap_hi lb k ≤ rg_base m) →
  let me := rg_base m + rg_size m in
  let b := me <=? gap_hi lb q0 in
  step_fwd (pend_fwd ia ib) (meas_fwd ia ib)
    (Some (enc_fwd (if b then S ia else ia) (if b then q0 else S q0),
           Some (Z.max (rg_base m) (gap_lo lb q0), Z.min me (gap_hi lb q0)))).
Proof.
  intros Hm Hfl Hq0 Hsk me b. destruct (wf_len _ Hwfa) as [Hla _], (wf_len _ Hwfb) as [Hlb _].
  pose proof (wf_ordered _ Hwfa) as Hoa. pose proof (wf_ordered _ Hwfb) as Hob.
  pose proof (lookup_lt_Some _ _ _ Hm) as Hia. destruct (proj1 Hoa _ _ Hm) as (? & ? & ?).
  assert (Hq0c : me ≤ gap_hi lb q0 ∨ (q0 < cb)%nat).
  { destruct (decide (q0 = cb)) as [->|]; [left|right; lia]. unfold gap_hi.
    rewrite (proj2 (lookup_ge_None lb cb)); [simpl; lia|lia]. }
  right. eexists _, _, _, _. split; [reflexivity|]. unfold meas_fwd, ok_fwd.
  split_and!; [destruct b; lia|destruct b; lia| |by apply (range_sound_intro ia); [| |lia]|].
  { subst b; destruct (Z.leb_spec me (gap_hi lb q0)); lia. }
  intros p q c c' Hw Hc Hpe. pose proof (skipped_gaps _ _ _ _ _ _ _ _ Hm Hsk Hw Hc Hpe) as Hqq.
  pose proof Hw as (m' & Hp & _ & ? & ? & Hq & ? & ?). destruct Hpe as [? ?]. unfold pend_fwd.
  subst b. destruct (Z.leb_spec me (gap_hi lb q0)) as [Hle|Hgt].
  - destruct (decide (p = ia)) as [->|]; [|right; lia]. left.
    destruct (decide (q = q0)) as [->|]; [by apply (window_in_range ia)|].
    simplify_eq. pose proof (gap_hi_le_lo lb q0 q Hob ltac:(lia) Hq). lia.
  - destruct (decide (q = q0)) as [->|]; [|right; lia]. left.
    destruct (decide (p = ia)) as [->|]; [by apply (window_in_range ia)|].
    pose proof (proj2 Hoa ia p _ _ ltac:(lia) Hm Hp). lia.
Qed.

Lemma next_loop_spec : ∀ fuel ia ib,
  (ia ≤ ca)%nat → (ib ≤ cb + 1)%nat → (ca - ia < fuel)%nat →
  step_fwd (pend_fwd ia ib) (meas_fwd ia ib)
    (next_loop fuel flags ta (Some tb) (Z.of_nat ia) (Z.of_nat ib)).
Proof.
  destruct (wf_len _ Hwfa) as [Hla Hcma], (wf_len _ Hwfb) as [Hlb Hcmb].
  pose proof (wf_ordered _ Hwfa) as Hoa. pose proof (wf_ordered _ Hwfb) as Hob.
  induction fuel as [|fuel IH]; intros ia ib Hia Hib Hf; [lia|]. cbn [next_loop].
  rewrite u64_small by lia. unfold cntZ.
  destruct (Z.ltb_spec (Z.of_nat ia) (Z.of_nat ca)) as [Hlt|Hge]; cycle 1.
  { left. split; [done|]. intros p q c c' (m & Hp & _) _ [Hpe _].
    apply lookup_lt_Some in Hp. lia. }
  destruct (wf_regionZ ta (Z.of_nat ia) Hwfa) as (m & -> & Hm); [unfold cntZ; lia|].
  rewrite Nat2Z.id in Hm. cbn [mbind option_bind].
  destruct (proj1 Hoa _ _ Hm) as (? & ? & Hend).
  rewrite u64_small by (unfold PHYS_ADDR_MAX in *; lia).
  replace (Z.of_nat ia + 1) with (Z.of_nat (S ia)) by lia.
  destruct (Z.eqb_spec flags (rg_flags m)) as [Hfl|Hfl]; cbn [negb]; cycle 1.
  { eapply iter_weaken; [apply IH; lia|unfold meas_fwd; lia|].
    intros p q c c' (m' & Hp & Hf' & _) _ [? ?]. split; [|done].
    destruct (decide (p = ia)) as [->|]; [by simplify_eq|lia]. }
  destruct (scan_gaps_spec (Z.of_nat ia) (rg_base m) (rg_base m + rg_size m) (cb + 2) ib)
    as (q0 & Hq0 & Hsk & [(-> & Hq1 & Hme)|(Hq1 & Hlo & Hhi & ->)]); [lia|lia| |];
    cbn [mbind option_bind].
  - eapply iter_weaken; [apply IH; lia|unfold meas_fwd; lia|].
    intros p q c c' Hw Hc Hpe. pose proof (skipped_gaps _ _ _ _ _ _ _ _ Hm Hsk Hw Hc Hpe).
    destruct Hw as (m' & Hp & _ & ? & ? & Hq & ? & ?), Hpe as [? ?]. split; [|done].
    destruct (decide (p = ia)) as [->|]; [exfalso; simplify_eq|lia].
    specialize (Hme ltac:(lia)). pose proof (gap_above lb q0 q c Hob ltac:(lia) Hq). lia.
  - pose proof (found_fwd ia ib q0 m Hm (eq_sym Hfl) ltac:(lia) Hsk) as Hfd. cbn zeta in Hfd.
    unfold enc_fwd in Hfd. destruct (_ <=? _); [|exact Hfd].
    by replace (Z.of_nat ia + 1) with (Z.of_nat (S ia)) by lia.
Qed.

(** *** Backward: the indices are one more than those of the code *)

Lemma gap_hi_mono l q q' :
  ordered l → (q ≤ q')%nat → (q' ≤ length l)%nat → gap_hi l q ≤ gap_hi l q'.
Proof.
  intros Ho Hq Hq'. destruct (decide (q = q')) as [->|]; [done|].
  pose proof (gap_hi_le_lo l q q' Ho ltac:(lia) Hq').
  pose proof (gap_lo_le_hi l q' Ho ltac:(lia)). lia.
Qed.

Lemma scan_gaps_rev_spec ia ms me : ∀ fuel nb,
  (nb ≤ cb + 1)%nat → (nb < fuel)%nat →
  ∃ q, (q ≤ nb)%nat ∧ (∀ k, (q ≤ k < nb)%nat → me ≤ gap_lo lb k) ∧
    ((scan_gaps_rev fuel tb ia (Z.of_nat nb - 1) ms me = Some (ScanNext (Z.of_nat q - 1)) ∧
      ∀ k, q = S k → gap_hi lb k ≤ ms) ∨
     ∃ k, q = S k ∧ gap_lo lb k < me ∧ ms < gap_hi lb k ∧
      scan_gaps_rev fuel tb ia (Z.of_nat nb - 1) ms me =
        Some (ScanFound (if gap_lo lb k <=? ms then ia - 1 else ia)
                (Z.of_nat (if gap_lo lb k <=? ms then S k else k) - 1)
                (Z.max ms (gap_lo lb k)) (Z.min me (gap_hi lb k)))).
Proof.
  destruct (wf_len _ Hwfb) as [_ Hcm].
  induction fuel as [|fuel IH]; intros nb Hnb Hf; [lia|]. cbn [scan_gaps_rev].
  destruct nb as [|ib].
  { exists 0%nat. split; [lia|]. split; [lia|]. left. split; [done|]. lia. }
  destruct (Z.leb_spec 0 (Z.of_nat (S ib) - 1)); [|lia].
  replace (Z.of_nat (S ib) - 1) with (Z.of_nat ib) by lia.
  rewrite gap_start_spec, gap_end_spec by (done || lia). cbn [mbind option_bind].
  destruct (Z.leb_spec (gap_hi lb ib) ms).
  { exists (S ib). split; [lia|]. split; [lia|]. left. split; [do 2 f_equal; lia|].
    by intros k [= <-]. }
  destruct (Z.ltb_spec (gap_lo lb ib) me).
  { exists (S ib). split; [lia|]. split; [lia|]. right. exists ib. split_and!; try done.
    destruct (gap_lo lb ib <=? ms); do 2 f_equal; lia. }
  destruct (IH ib) as (q & Hle & Hsk & Hres); [lia|lia|].
  exists q. split; [lia|]. split; [|done].
  intros k Hk. destruct (decide (k = ib)) as [->|]; [done|]. apply Hsk; lia.
Qed.

Definition enc_rev (na nb : nat) : Z := pack_idx (Z.of_nat na - 1) (Z.of_nat nb - 1).
Definition pend_rev (na nb p q : nat) : Prop := (p < na)%nat ∧ (q < nb)%nat.
Definition meas_rev (na nb : nat) : nat := (na + nb)%nat.
Definition ok_rev (na nb : nat) : Prop := (na ≤ ca)%nat ∧ (1 ≤ nb ≤ cb + 1)%nat.
Definition step_rev := iter_step enc_rev ok_rev pend_rev meas_rev.

Lemma skipped_gaps_rev ia nb q0 m p q c c' :
  la !! ia = Some m →
  (∀ k, (q0 ≤ k < nb)%nat → rg_base m + rg_size m ≤ gap_lo lb k) →
  window_at la lb flags c c' p q → c < c' → pend_rev (S ia) nb p q → (q < q0)%nat.
Proof.
  intros Hm Hsk (m' & Hp & _ & ? & ? & Hq & ? & ?) ? [? ?].
  destruct (Nat.lt_ge_cases q q0) as [|Hqq]; [done|exfalso].
  specialize (Hsk q ltac:(lia)). pose proof (wf_ordered _ Hwfa) as Hoa.
  destruct (decide (p = ia)) as [->|]; [simplify_eq; lia|].
  pose proof (proj2 Hoa p ia _ _ ltac:(lia) Hp Hm). destruct (proj1 Hoa _ _ Hm). lia.
Qed.

Lemma found_rev ia nb k m :
  la !! ia = Some m → rg_flags m = flags → (S k ≤ nb ≤ cb + 1)%nat →
  (∀ j, (S k ≤ j < nb)%nat → rg_base m + rg_size m ≤ gap_lo lb j) →
  let b := gap_lo lb k <=? rg_base m in
  step_rev (pend_rev (S ia) nb) (meas_rev (S ia) nb)
    (Some (enc_rev (if b then ia else S ia) (if b then S k else k),
           Some (Z.max (rg_base m) (gap_lo lb k),
                 Z.min (rg_base m + rg_size m) (gap_hi lb k)))).
Proof.
  intros Hm Hfl Hk Hsk b. destruct (wf_len _ Hwfa) as [Hla _], (wf_len _ Hwfb) as [Hlb _].
  pose proof (wf_ordered _ Hwfa) as Hoa. pose proof (wf_ordered _ Hwfb) as Hob.
  pose proof (lookup_lt_Some _ _ _ Hm) as Hia. destruct (proj1 Hoa _ _ Hm) as (? & ? & ?).
  assert (Hk0 : gap_lo lb k ≤ rg_base m ∨ (1 ≤ k)%nat) by (destruct k; [left; simpl|right]; lia).
  right. eexists _, _, _, _. split; [reflexivity|]. unfold meas_rev, ok_rev.
  split_and!; [destruct b; lia| |destruct b; lia| |by apply (range_sound_intro ia); [| |lia]|].
  { subst b; destruct (Z.leb_spec (gap_lo lb k) (rg_base m)); lia. }
  { subst b; destruct (Z.leb_spec (gap_lo lb k) (rg_base m)); lia. }
  intros p q c c' Hw Hc Hpe.
  pose proof (skipped_gaps_rev _ _ _ _ _ _ _ _ Hm Hsk Hw Hc Hpe) as Hqq.
  pose proof Hw as (m' & Hp & _ & ? & ? & Hq & ? & ?). destruct Hpe as [? ?]. unfold pend_rev.
  subst b. destruct (Z.leb_spec (gap_lo lb k) (rg_base m)) as [Hle|Hgt].
  - destruct (decide (p = ia)) as [->|]; [|right; lia]. left.
    destruct (decide (q = k)) as [->|]; [by apply (window_in_range ia)|].
    simplify_eq. pose proof (gap_hi_le_lo lb q k Hob ltac:(lia) ltac:(lia)). lia.
  - destruct (decide (q = k)) as [->|]; [|right; lia]. left.
    destruct (decide (p = ia)) as [->|]; [by apply (window_in_range ia)|].
    pose proof (proj2 Hoa p ia _ _ ltac:(lia) Hp Hm). lia.
Qed.

Lemma next_loop_rev_spec : ∀ fuel na nb,
  (na ≤ ca)%nat → (nb ≤ cb + 1)%nat → (na < fuel)%nat →
  step_rev (pend_rev na nb) (meas_rev na nb)
    (next_loop_rev fuel flags ta (Some tb) (Z.of_nat na - 1) (Z.of_nat nb - 1)).
Proof.
  destruct (wf_len _ Hwfa) as [Hla Hcma], (wf_len _ Hwfb) as [Hlb Hcmb].
  pose proof (wf_ordered _ Hwfa) as Hoa. pose proof (wf_ordered _ Hwfb) as Hob.
  induction fuel as [|fuel IH]; intros na nb Hna Hnb Hf; [lia|]. cbn [next_loop_rev].
  destruct na as [|ia].
  { left. split; [done|]. intros p q c c' _ _ [Hpe _]. lia. }
  destruct (Z.leb_spec 0 (Z.of_nat (S ia) - 1)); [|lia].
  replace (Z.of_nat (S ia) - 1) with (Z.of_nat ia) by lia.
  destruct (wf_regionZ ta (Z.of_nat ia) Hwfa) as (m & -> & Hm); [unfold cntZ; lia|].
  rewrite Nat2Z.id in Hm. cbn [mbind option_bind].
  destruct (proj1 Hoa _ _ Hm) as (? & ? & Hend).
  rewrite u64_small by (unfold PHYS_ADDR_MAX in *; lia).
  destruct (Z.eqb_spec flags (rg_flags m)) as [Hfl|Hfl]; cbn [negb]; cycle 1.
  { eapply iter_weaken; [apply (IH ia nb); lia|unfold meas_rev; lia|].
    intros p q c c' (m' & Hp & Hf' & _) _ [? ?]. split; [|done].
    destruct (decide (p = ia)) as [->|]; [by simplify_eq|lia]. }
  destruct (scan_gaps_rev_spec (Z.of_nat ia) (rg_base m) (rg_base m + rg_size m) (cb + 2) nb)
    as (q0 & Hq0 & Hsk & [(-> & Hms)|(k & -> & Hlo & Hhi & ->)]); [lia|lia| |];
    cbn [mbind option_bind].
  - eapply iter_weaken; [apply (IH ia q0); lia|unfold meas_rev; lia|].
    intros p q c c' Hw Hc Hpe.
    pose proof (skipped_gaps_rev _ _ _ _ _ _ _ _ Hm Hsk Hw Hc Hpe) as Hqq.
    destruct Hw as (m' & Hp & _ & ? & ? & Hq & ? & ?), Hpe as [? ?]. split; [|done].
    destruct (decide (p = ia)) as [->|]; [exfalso; simplify_eq|lia].
    destruct q0 as [|k]; [lia|]. specialize (Hms k eq_refl).
    pose proof (gap_hi_mono lb q k Hob ltac:(lia) ltac:(lia)). lia.
  - pose proof (found_rev ia nb k m Hm (eq_sym Hfl) ltac:(lia) Hsk) as Hfd. cbn zeta in Hfd.
    unfold enc_rev in Hfd. destruct (_ <=? _); [exact Hfd|].
    by replace (Z.of_nat (S ia) - 1) with (Z.of_nat ia) in Hfd by lia.
Qed.

(** *** The loops over an iterator *)

Lemma for_each_spec {R} (body : Z → Z → option R) enc ok pend meas next :
  (∀ i j, ok i j →
     enc i j ≠ ULLONG_MAX ∧
     iter_step enc ok pend meas (pend i j) (meas i j) (next (enc i j))) →
  ∀ fuel x pend0 m0, iter_step enc ok pend meas pend0 m0 (next x) → (m0 < fuel)%nat →
  ∃ res, for_each fuel next x body = Some res ∧
    (∀ r, res = Some r → ∃ s e, range_sound s e ∧ body s e = Some r) ∧
    (res = None → ∀ p q c c', window_at la lb flags c c' p q → c < c' → pend0 p q →
       ∃ s e, s ≤ c ∧ c' ≤ e ∧ body s e = None).
Proof.
  intros Hnext. induction fuel as [|fuel IH]; intros x pend0 m0 Hst Hf; [lia|].
  cbn [for_each]. destruct Hst as [[-> Hno]|(i & j & s & e & -> & Hok & Hm & Hs & Hc)];
    cbn [mbind option_bind].
  - exists None. split; [done|]. split; [done|]. intros _ p q c c' Hw Hcc Hpe.
    by destruct (Hno _ _ _ _ Hw Hcc Hpe).
  - destruct (Hnext i j Hok) as [Hne Hst'].
    destruct (Z.eqb_spec (enc i j) ULLONG_MAX); [done|].
    destruct (body s e) as [r|] eqn:Hb.
    { exists (Some r). split_and!; [done| |done]. intros r' [= <-]. by exists s, e. }
    destruct (IH (enc i j) _ _ Hst' ltac:(lia)) as (res & -> & H1 & H2).
    exists res. split_and!; [done..|]. intros Hres p q c c' Hw Hcc Hpe.
    destruct (Hc p q c c' Hw Hcc Hpe) as [[? ?]|Hpe']; [by exists s, e|]. by eapply H2.
Qed.

Lemma next_fwd_step i j :
  ok_fwd i j →
  enc_fwd i j ≠ ULLONG_MAX ∧
  step_fwd (pend_fwd i j) (meas_fwd i j) (__next_mem_range (enc_fwd i j) flags ta (Some tb)).
Proof.
  intros [Hi Hj]. destruct (wf_len _ Hwfa) as [_ ?], (wf_len _ Hwfb) as [_ ?].
  unfold __next_mem_range, enc_fwd.
  destruct (pack_unpack (Z.of_nat i) (Z.of_nat j)) as (-> & -> & ?); [lia|lia|].
  split; [done|]. apply next_loop_spec; lia.
Qed.

Lemma next_rev_step i j :
  ok_rev i j →
  enc_rev i j ≠ ULLONG_MAX ∧
  step_rev (pend_rev i j) (meas_rev i j) (__next_mem_range_rev (enc_rev i j) flags ta (Some tb)).
Proof.
  intros (Hi & Hj & Hj'). destruct (wf_len _ Hwfa) as [_ ?], (wf_len _ Hwfb) as [_ ?].
  unfold __next_mem_range_rev, enc_rev.
  destruct (pack_unpack (Z.of_nat i - 1) (Z.of_nat j - 1)) as (Ha & Hb & Hne); [lia|lia|].
  split; [done|]. destruct (Z.eqb_spec (pack_idx (Z.of_nat i - 1) (Z.of_nat j - 1)) ULLONG_MAX);
    [done|]. rewrite Ha, Hb. apply next_loop_rev_spec; lia.
Qed.
End iterators.

(** ** Finding a window *)

(** What the two loops return: nothing crashes, a result is a free, aligned
    window, and [None] means that no window fits. *)
Definition find_spec (mb : memblock) (flags : Z)
    (body : Z → Z → option Z) (res : option (option Z)) : Prop :=
  ∃ r, res = Some r ∧
    (∀ c, r = Some c → ∃ s e, range_sound (mb_memory mb) (mb_reserved mb) flags s e ∧
                              body s e = Some c) ∧
    (r = None → ∀ p q c c',
       window_at (live (mb_memory mb)) (live (mb_reserved mb)) flags c c' p q → c < c' →
       ∃ s e, s ≤ c ∧ c' ≤ e ∧ body s e = None).

Definition small_memblock (mb : memblock) : Prop :=
  wf_type (mb_memory mb) ∧ wf_type (mb_reserved mb) ∧
  mt_max (mb_memory mb) = INIT_MEMBLOCK_REGIONS ∧
  mt_max (mb_reserved mb) = INIT_MEMBLOCK_REGIONS.

Lemma for_each_fwd_result mb flags body :
  small_memblock mb →
  find_spec mb flags body (for_each_free_mem_range mb flags body).
Proof.
  intros (Ha & Hb & Hma & Hmb). unfold for_each_free_mem_range, range_fuel, find_spec.
  destruct (for_each_spec (mb_memory mb) (mb_reserved mb) flags body enc_fwd
    (ok_fwd (mb_memory mb) (mb_reserved mb)) pend_fwd
    (meas_fwd (mb_memory mb) (mb_reserved mb))
    (λ i, __next_mem_range i flags (mb_memory mb) (Some (mb_reserved mb))))
    with (fuel := (mt_cnt (mb_memory mb) + mt_cnt (mb_reserved mb) + 2)%nat)
         (x := enc_fwd 0 0) (pend0 := pend_fwd 0 0)
         (m0 := meas_fwd (mb_memory mb) (mb_reserved mb) 0 0) as (res & Hr & H1 & H2).
  - intros i j Hok. apply next_fwd_step; try done; rewrite ?Hma, ?Hmb; unfold INIT_MEMBLOCK_REGIONS; lia.
  - apply next_fwd_step; try done; rewrite ?Hma, ?Hmb; unfold INIT_MEMBLOCK_REGIONS; try lia.
    split; lia.
  - unfold meas_fwd. lia.
  - exists res. split_and!; [done..|]. intros Hn p q c c' Hw Hc.
    by eapply (H2 Hn p q c c' Hw Hc); split; lia.
Qed.

Lemma for_each_rev_result mb flags body :
  small_memblock mb →
  find_spec mb flags body (for_each_free_mem_range_reverse mb flags body).
Proof.
  intros (Ha & Hb & Hma & Hmb). unfold for_each_free_mem_range_reverse, range_fuel, find_spec.
  assert (Hinit : __next_mem_range_rev ULLONG_MAX flags (mb_memory mb) (Some (mb_reserved mb)) =
    next_loop_rev (mt_cnt (mb_memory mb) + 1) flags (mb_memory mb) (Some (mb_reserved mb))
      (Z.of_nat (mt_cnt (mb_memory mb)) - 1) (Z.of_nat (mt_cnt (mb_reserved mb) + 1) - 1)).
  { unfold __next_mem_range_rev. rewrite Z.eqb_refl. f_equal. unfold cntZ. lia. }
  destruct (for_each_spec (mb_memory mb) (mb_reserved mb) flags body enc_rev
    (ok_rev (mb_memory mb) (mb_reserved mb)) pend_rev meas_rev
    (λ i, __next_mem_range_rev i flags (mb_memory mb) (Some (mb_reserved mb))))
    with (fuel := (mt_cnt (mb_memory mb) + mt_cnt (mb_reserved mb) + 2)%nat)
         (x := ULLONG_MAX)
         (pend0 := pend_rev (mt_cnt (mb_memory mb)) (mt_cnt (mb_reserved mb) + 1))
         (m0 := meas_rev (mt_cnt (mb_memory mb)) (mt_cnt (mb_reserved mb) + 1))
    as (res & Hr & H1 & H2).
  - intros i j Hok. apply next_rev_step; try done; rewrite ?Hma, ?Hmb; unfold INIT_MEMBLOCK_REGIONS; lia.
  - rewrite Hinit. apply next_loop_rev_spec; try done; rewrite ?Hma, ?Hmb;
      unfold INIT_MEMBLOCK_REGIONS; lia.
  - unfold meas_rev. lia.
  - exists res. split_and!; [done..|]. intros Hn p q c c' Hw Hc.
    eapply (H2 Hn p q c c' Hw Hc). destruct Hw as (m & Hp & _ & _ & _ & Hq & _).
    apply lookup_lt_Some in Hp. destruct (wf_len _ Ha) as [? _], (wf_len _ Hb) as [? _].
    split; lia.
Qed.

(** A window [c, c + size) that the caller may be given. *)
Definition good_window (mb : memblock) (flags start end_ size align c : Z) : Prop :=
  start ≤ c ∧ c + size ≤ end_ ∧ (align | c) ∧
  ∀ a, c ≤ a < c + size → free_addr mb flags a.

Lemma bottom_up_sound mb flags start end_ size k s e c :
  range_sound (mb_memory mb) (mb_reserved mb) flags s e →
  1 ≤ start ≤ end_ → end_ ≤ PHYS_ADDR_MAX → 0 < size → 0 ≤ k < 64 →
  bottom_up_body start end_ size (2 ^ k) s e = Some c → c ≠ 0 →
  good_window mb flags start end_ size (2 ^ k) c.
Proof.
  intros Hs Hst He Hsz Hk. unfold bottom_up_body, clamp. unfold PHYS_ADDR_MAX in He.
  destruct (round_up_pow2 (Z.min (Z.max s start) end_) k) as [->|[Hb Hd]]; [lia|done| |].
  { destruct (_ && _); [|done]. by intros [= <-] ?. }
  set (cand := round_up _ _) in *. destruct (Z.ltb_spec cand (Z.min (Z.max e start) end_)); [|done].
  simpl. rewrite u64_small by lia.
  destruct (Z.leb_spec size (Z.min (Z.max e start) end_ - cand)); [|done].
  intros [= <-] _. split_and!; [lia|lia|done|]. intros a Ha. apply Hs. lia.
Qed.

Lemma top_down_sound mb flags start end_ size k s e c :
  range_sound (mb_memory mb) (mb_reserved mb) flags s e →
  1 ≤ start ≤ end_ → end_ ≤ PHYS_ADDR_MAX → 0 < size → 0 ≤ k < 64 →
  top_down_body start end_ size (2 ^ k) s e = Some c →
  good_window mb flags start end_ size (2 ^ k) c ∧ c ≠ 0.
Proof.
  intros Hs Hst He Hsz Hk. unfold top_down_body, clamp. unfold PHYS_ADDR_MAX in He.
  destruct (Z.ltb_spec (Z.min (Z.max e start) end_) size); [done|].
  rewrite u64_small by lia. rewrite round_down_pow2 by lia.
  set (x := Z.min (Z.max e start) end_ - size).
  pose proof (Z.mul_div_le x (2 ^ k) ltac:(apply Z.pow_pos_nonneg; lia)).
  destruct (Z.leb_spec (Z.min (Z.max s start) end_) (2 ^ k * (x / 2 ^ k))); [|done].
  intros [= <-]. split; [|lia]. split_and!; [lia|lia|apply Z.divide_factor_l|].
  intros a Ha. apply Hs. lia.
Qed.

Lemma top_down_complete start end_ size k s e c :
  1 ≤ start ≤ end_ → end_ ≤ PHYS_ADDR_MAX → 0 < size → 0 ≤ k < 64 →
  start ≤ c → c + size ≤ end_ → (2 ^ k | c) → s ≤ c → c + size ≤ e →
  top_down_body start end_ size (2 ^ k) s e ≠ None.
Proof.
  intros Hst He Hsz Hk Hc Hce [x ->] Hs Hee. unfold top_down_body, clamp.
  unfold PHYS_ADDR_MAX in He.
  destruct (Z.ltb_spec (Z.min (Z.max e start) end_) size); [lia|].
  rewrite u64_small by lia. rewrite round_down_pow2 by lia.
  assert (Hp : 0 < 2 ^ k) by (apply Z.pow_pos_nonneg; lia).
  assert (Hx : x ≤ (Z.min (Z.max e start) end_ - size) / 2 ^ k)
    by (apply Z.div_le_lower_bound; lia).
  destruct (Z.leb_spec (Z.min (Z.max s start) end_)
    (2 ^ k * ((Z.min (Z.max e start) end_ - size) / 2 ^ k))); [done|]. nia.
Qed.

Lemma chain_pos lo l : chain lo l → Forall (λ r, 0 < rg_size r) l.
Proof.
  revert lo. induction l as [|r l IH]; intros lo H; [done|].
  destruct H as (? & ? & H%IH). by constructor.
Qed.

(** A stretch without reserved addresses lies in one gap. *)
Lemma unreserved_gap t c c' :
  wf_type t → 0 ≤ c < c' → c' ≤ PHYS_ADDR_MAX →
  (∀ a, c ≤ a < c' → attrs t a = None) →
  ∃ q, (q ≤ length (live t))%nat ∧ gap_lo (live t) q ≤ c ∧ c' ≤ gap_hi (live t) q.
Proof.
  intros Hwf Hc Hm Hfree. pose proof (wf_ordered _ Hwf) as Ho.
  destruct Hwf as (l & Hrep & Hl). unfold attrs in Hfree.
  rewrite (repr_live _ _ _ Hrep) in *. destruct Hl as [->|[_ Hch]].
  { exists 1%nat. simpl. unfold gap_hi. simpl. split; [lia|lia]. }
  pose proof (chain_pos _ _ Hch) as Hpos.
  assert (Hq : ∃ q, (q ≤ length l)%nat ∧ c' ≤ gap_hi l q ∧
            ∀ i r, (i < q)%nat → l !! i = Some r → rg_base r < c').
  { clear -Hm. induction l as [|r l (q & ? & ? & Hb)].
    - exists 0%nat. split; [done|]. split; [done|]. lia.
    - destruct (Z.le_gt_cases c' (rg_base r)).
      + exists 0%nat. split; [lia|]. split; [done|]. lia.
      + exists (S q). split; [simpl; lia|]. split; [done|].
        intros [|i] r' Hi Hr; simplify_eq/=; [done|]. eapply (Hb i); [lia|done]. }
  destruct Hq as (q & Hql & Hhi & Hbelow). exists q. split_and!; [done| |done].
  destruct q as [|k]; [simpl; lia|]. unfold gap_lo.
  destruct (lookup_lt_is_Some_2 l k) as [r Hr]; [lia|]. rewrite Hr. simpl.
  destruct (Z.le_gt_cases (rg_base r + rg_size r) c) as [|Hgt]; [done|exfalso].
  specialize (Hbelow k r ltac:(lia) Hr). rewrite Forall_lookup in Hpos.
  specialize (Hpos _ _ Hr). simpl in Hpos.
  assert (Hin : in_region r (Z.max c (rg_base r)) = true) by (apply in_region_spec; lia).
  pose proof (attr_lookup _ _ _ _ Ho Hr Hin) as Hat. rewrite Hfree in Hat; [done|lia].
Qed.

(** A window that a caller could be given: inside one memory region. *)
Definition has_window (mb : memblock) (flags lo hi size align : Z) : Prop :=
  ∃ c m, m ∈ live (mb_memory mb) ∧ rg_flags m = flags ∧
    rg_base m ≤ c ∧ c + size ≤ rg_base m + rg_size m ∧
    lo ≤ c ∧ c + size ≤ hi ∧ (align | c) ∧
    ∀ a, c ≤ a < c + size → attrs (mb_reserved mb) a = None.

Definition find_lo (start : Z) : Z := Z.max start PAGE_SIZE.
Definition find_hi (mb : memblock) (start end_ : Z) : Z :=
  Z.max (find_lo start)
    (if end_ =? MEMBLOCK_ALLOC_ACCESSIBLE then mb_current_limit mb else end_).

(** The top-down search decides whether there is a window. *)
Lemma find_top_down_result mb flags start end_ size k :
  small_memblock mb → 1 ≤ start ≤ end_ → end_ ≤ PHYS_ADDR_MAX → 0 < size → 0 ≤ k < 64 →
  ∃ c, __memblock_find_range_top_down mb start end_ size (2 ^ k) flags = Some c ∧
    (c ≠ 0 → good_window mb flags start end_ size (2 ^ k) c) ∧
    (c = 0 → ¬ has_window mb flags start end_ size (2 ^ k)).
Proof.
  intros Hmb Hst He Hsz Hk. unfold __memblock_find_range_top_down.
  destruct (for_each_rev_result mb flags (top_down_body start end_ size (2 ^ k)) Hmb)
    as (r & -> & Hs & Hc). cbn [mbind option_bind]. exists (default 0 r). split; [done|].
  destruct r as [c|]; simpl.
  - destruct (Hs c eq_refl) as (s & e & Hr & Hb).
    destruct (top_down_sound _ _ _ _ _ _ _ _ _ Hr Hst He Hsz Hk Hb). done.
  - split; [done|]. intros _ (c & m & Hm & Hf & H1 & H2 & H3 & H4 & Hd & Hfr).
    apply list_elem_of_lookup in Hm as [p Hp]. destruct Hmb as (Hwa & Hwb & _).
    destruct (proj1 (wf_ordered _ Hwa) _ _ Hp) as (? & ? & ?).
    destruct (unreserved_gap (mb_reserved mb) c (c + size)) as (q & Hq & Hlo & Hhi);
      [done|lia|lia|done|].
    destruct (Hc eq_refl p q c (c + size)) as (s & e & ? & ? & Hb); [|lia|].
    { by exists m. }
    by apply (top_down_complete start end_ size k s e c) in Hb.
Qed.

(** Everything [__memblock_find_in_range] does. *)
Lemma find_in_range_result mb flags start end_ size k :
  small_memblock mb → 0 ≤ mb_current_limit mb ≤ PHYS_ADDR_MAX →
  0 ≤ start ≤ PHYS_ADDR_MAX → 0 ≤ end_ ≤ PHYS_ADDR_MAX → 0 < size → 0 ≤ k < 64 →
  ∃ c, __memblock_find_in_range mb size (2 ^ k) start end_ flags = Some c ∧
    (c ≠ 0 → good_window mb flags (find_lo start) (find_hi mb start end_) size (2 ^ k) c) ∧
    (c = 0 → ¬ has_window mb flags (find_lo start) (find_hi mb start end_) size (2 ^ k)).
Proof.
  intros Hmb Hlim Hst He Hsz Hk. unfold __memblock_find_in_range.
  fold (find_lo start). fold (find_hi mb start end_).
  assert (Hb1 : 1 ≤ find_lo start ≤ find_hi mb start end_)
    by (unfold find_hi, find_lo, PAGE_SIZE; lia).
  assert (Hb2 : find_hi mb start end_ ≤ PHYS_ADDR_MAX).
  { unfold find_hi, find_lo, PAGE_SIZE, PHYS_ADDR_MAX in *. destruct (_ =? _); lia. }
  destruct (find_top_down_result mb flags _ _ size k Hmb Hb1 Hb2 Hsz Hk) as (c & Hc & H1 & H2).
  destruct (mb_bottom_up mb); [|by exists c].
  unfold __memblock_find_range_bottom_up.
  destruct (for_each_fwd_result mb flags
    (bottom_up_body (find_lo start) (find_hi mb start end_) size (2 ^ k)) Hmb)
    as (r & -> & Hs & _). cbn [mbind option_bind].
  destruct (Z.eqb_spec (default 0 r) 0) as [Hz|Hz]; cbn [negb]; [by exists c|].
  exists (default 0 r). split_and!; [done| |done]. intros _.
  destruct r as [c'|]; [|done]. destruct (Hs c' eq_refl) as (s & e & Hr & Hb).
  eapply bottom_up_sound; eauto.
Qed.

(** ** Allocating *)

(** The state after a successful allocation of [c, c + size). *)
Definition allocated (mb mb' : memblock) (size c : Z) : Prop :=
  small_memblock mb' ∧ mb_memory mb' = mb_memory mb ∧
  mb_current_limit mb' = mb_current_limit mb ∧ mb_bottom_up mb' = mb_bottom_up mb ∧
  ∀ a, attrs (mb_reserved mb') a =
       if in_range c (c + size) a then Some MEMBLOCK_NONE else attrs (mb_reserved mb) a.

Lemma set_reserved_id mb : set_reserved (mb_reserved mb) mb = mb.
Proof. by destruct mb. Qed.

Lemma reserve_result mb flags lo hi size align c :
  small_memblock mb → 0 ≤ lo → hi ≤ PHYS_ADDR_MAX → 0 < size →
  good_window mb flags lo hi size align c →
  (∃ mb', memblock_reserve mb c size = Some (0, mb') ∧ allocated mb mb' size c) ∨
  memblock_reserve mb c size = Some (- ENOMEM, mb).
Proof.
  intros (Hwa & Hwb & Hma & Hmb) Hlo Hhi Hsz (Hc & Hce & _ & Hfree). unfold memblock_reserve.
  destruct (add_range_result (mb_reserved mb) c size 0 Hwb)
    as (ret & t' & -> & Hwf & Hmx & Hres); [unfold PHYS_ADDR_MAX in *; lia..|].
  cbn [mbind option_bind].
  destruct Hres as [(-> & Hat & _)|(-> & -> & _)]; [left|right; by rewrite set_reserved_id].
  eexists; split; [reflexivity|]. unfold allocated, small_memblock. simpl.
  split_and!; try done; [by rewrite Hmx|]. intros a. rewrite Hat. unfold attrs_add, cap_end.
  rewrite Z.min_l by lia. destruct (in_range c (c + size) a) eqn:Hin.
  - destruct (Hfree a) as [_ ->]; [|done].
    unfold in_range in Hin. bool_prop; simpl in Hin; try done; lia.
  - by destruct (attrs (mb_reserved mb) a).
Qed.

Lemma alloc_attempt_result mb flags size k start end_ :
  small_memblock mb → 0 ≤ mb_current_limit mb ≤ PHYS_ADDR_MAX →
  0 ≤ start ≤ PHYS_ADDR_MAX → 0 ≤ end_ ≤ PHYS_ADDR_MAX → 0 < size → 0 ≤ k < 64 →
  ∃ c mb', alloc_attempt mb size (2 ^ k) start end_ flags = Some (c, mb') ∧
    (c ≠ 0 → good_window mb flags (find_lo start) (find_hi mb start end_) size (2 ^ k) c ∧
             allocated mb mb' size c) ∧
    (c = 0 → mb' = mb).
Proof.
  intros Hmb Hlim Hst He Hsz Hk. unfold alloc_attempt.
  destruct (find_in_range_result mb flags start end_ size k) as (c & -> & Hw & Hn); try done.
  cbn [mbind option_bind]. destruct (Z.eqb_spec c 0) as [->|Hc]; [by exists 0, mb|].
  specialize (Hw Hc).
  destruct (reserve_result mb flags (find_lo start) (find_hi mb start end_) size (2 ^ k) c)
    as [(mb' & -> & Ha)| ->]; try done; cbn [mbind option_bind].
  - unfold find_lo, PAGE_SIZE. lia.
  - unfold find_hi, find_lo, PAGE_SIZE, PHYS_ADDR_MAX in *. destruct (_ =? _); lia.
  - exists c, mb'. split_and!; [done|done|done].
  - exists 0, mb. split_and!; done.
Qed.
