(* ===== verification/MemblockProps.v ===== *)
(** * Properties of the boot-time memory blocks

    The theorems about [memblock.c], proved from the lemmas of
    [MemblockFacts] and [MemblockAlloc], and their instances. *)

From S2P Require Import Prelude Memblock MemblockFacts MemblockAlloc.

(** ** Every operation as a step *)


Definition addr_ok (a : Z) : Prop := 0 ≤ a ≤ PHYS_ADDR_MAX.





(** The invariant of a memblock in use. *)
Definition mb_inv (mb : memblock) : Prop :=
  small_memblock mb ∧ addr_ok (mb_current_limit mb).

(** ** Capping memory *)

Definition keep_nomap (l : list memblock_region) : list memblock_region :=
  filter (λ r, memblock_is_nomap r = true) l.

Lemma remove_map_down_spec B : ∀ t A C mx,
  repr t (A ++ B ++ C) mx → A ++ B ++ C ≠ [] →
  ∃ t', remove_map_down (length B) t (length A) = Some t' ∧
        (A ++ keep_nomap B ++ C ≠ [] → repr t' (A ++ keep_nomap B ++ C) mx) ∧
        (A ++ keep_nomap B ++ C = [] → repr t' [zero_region] mx).
Proof.
  induction B as [|r B IH] using rev_ind; intros t A C mx Hrep Hne.
  { exists t. split; [done|]. split; [done|]. intros HE. done. }
  rewrite length_app, Nat.add_comm. cbn [remove_map_down length Nat.add].
  rewrite <-!app_assoc in Hrep. simpl in Hrep. rewrite app_assoc in Hrep.
  pose proof (repr_lookup _ _ _ _ _ Hrep) as Hlk. rewrite length_app in Hlk. rewrite Hlk.
  cbn [mbind option_bind]. unfold keep_nomap. rewrite filter_app, filter_cons, filter_nil.
  destruct (memblock_is_nomap r) eqn:Hno.
  - rewrite decide_True by done. rewrite <-!app_assoc in *.
    apply (IH t A ([r] ++ C)); [done|]. by intros [_ [_ ?]%app_eq_nil]%app_eq_nil.
  - rewrite decide_False by done. rewrite app_nil_r.
    destruct (repr_remove _ _ _ _ _ Hrep) as (t1 & Ht1 & H1 & H2).
    rewrite length_app in Ht1. rewrite Ht1. cbn [mbind option_bind].
    rewrite <-app_assoc in H1, H2.
    destruct (decide (A ++ B ++ C = [])) as [HE|HE]; [|by apply IH; auto].
    apply app_eq_nil in HE as [-> HE]. apply app_eq_nil in HE as [-> ->].
    exists t1. simpl. split; [done|]. split; [done|]. intros _. by apply H2.
Qed.

Lemma chain_filter lo l P `{∀ r, Decision (P r)} : chain lo l → chain lo (filter P l).
Proof.
  revert lo. induction l as [|r l IH]; intros lo Hch; [done|]. rewrite filter_cons.
  destruct Hch as (? & ? & Hch). case_decide; [simpl; auto|].
  apply IH in Hch. eapply chain_weaken; [done|lia].
Qed.

Lemma chain_keep lo A B C :
  chain lo (A ++ B ++ C) → chain lo (keep_nomap A ++ B ++ keep_nomap C).
Proof.
  assert (Hone : ∀ X Y lo, chain lo (X ++ Y) → chain lo (keep_nomap X ++ Y)).
  { clear. unfold keep_nomap. induction X as [|r X IH]; intros Y lo Hch; [done|].
    rewrite filter_cons. destruct Hch as (? & ? & Hch%IH).
    case_decide; [simpl; auto|]. eapply chain_weaken; [done|lia]. }
  intros H. apply Hone. rewrite chain_app in *. destruct H as [? H]. split; [done|].
  rewrite chain_app in *. destruct H as [? H]. split; [done|]. by apply chain_filter.
Qed.

Definition nomap_flags (g : Z) : bool := negb (Z.land g MEMBLOCK_NOMAP =? 0).

Definition keep_attr (o : option Z) : option Z :=
  match o with Some g => if nomap_flags g then Some g else None | None => None end.

Lemma attr_keep lo l a : chain lo l → attr (keep_nomap l) a = keep_attr (attr l a).
Proof.
  revert lo. induction l as [|r l IH]; intros lo Hch; [done|]. destruct Hch as (? & ? & Hch).
  unfold keep_nomap. rewrite filter_cons. fold (keep_nomap l). cbn [attr].
  specialize (IH _ Hch). change (memblock_is_nomap r) with (nomap_flags (rg_flags r)).
  destruct (in_region r a) eqn:Hin; cbn [keep_attr].
  - destruct (nomap_flags (rg_flags r)).
    + rewrite decide_True by done. cbn [attr]. by rewrite Hin.
    + rewrite decide_False by done. rewrite IH. apply in_region_spec in Hin.
      rewrite (chain_attr_lo _ _ _ Hch) by lia. done.
  - case_decide; cbn [attr]; rewrite ?Hin; apply IH.
Qed.

(** A chain, or the sentinel when nothing is left. *)
Lemma wf_of_repr t l mx :
  (l ≠ [] → repr t l mx) → (l = [] → repr t [zero_region] mx) → chain 0 l →
  wf_type t ∧ mt_max t = mx ∧ ∀ a, attrs t a = attr l a.
Proof.
  intros H1 H2 Hch. destruct (decide (l = [])) as [HE|HE].
  - specialize (H2 HE). assert (Hm : mt_max t = mx) by by destruct H2. subst mx.
    split_and!; [exists [zero_region]; auto|done|].
    intros a. unfold attrs. by rewrite (repr_live _ _ _ H2), attr_zero, HE.
  - specialize (H1 HE). split_and!; [by eapply wf_type_intro|by destruct H1|].
    intros a. unfold attrs. by rewrite (repr_live _ _ _ H1).
Qed.

(** The two removal loops of [memblock_cap_memory_range]. *)
Lemma cap_loops t1 A B C s e mx :
  repr t1 (A ++ B ++ C) mx → A ++ B ++ C ≠ [] → chain 0 (A ++ B ++ C) →
  recorded 0 0 (length A) B s e →
  ∃ t3, (t2 ← remove_map_down (mt_cnt t1 - e) t1 e; remove_map_down s t2 0) = Some t3 ∧
    wf_type t3 ∧ mt_max t3 = mx ∧
    ∀ a, attrs t3 a = attr (keep_nomap A ++ B ++ keep_nomap C) a.
Proof.
  intros Hrep Hne Hch [H1 H2]. assert (Hcnt : mt_cnt t1 = length (A ++ B ++ C)) by by destruct Hrep as (_ & ? & _).
  destruct (decide (B = [])) as [->|HB].
  - destruct (H1 eq_refl) as [-> ->]. rewrite Hcnt, Nat.sub_0_r. simpl in *.
    destruct (remove_map_down_spec (A ++ C) t1 [] [] mx) as (t3 & Ht3 & Hn & He);
      [by rewrite app_nil_r|by rewrite app_nil_r|].
    simpl in Ht3. rewrite Ht3. cbn [mbind option_bind remove_map_down]. exists t3.
    simpl in Hn, He. rewrite app_nil_r in Hn, He.
    unfold keep_nomap in *. rewrite <-filter_app. split; [done|].
    apply wf_of_repr; [done|done|]. by apply chain_filter.
  - destruct (H2 HB) as [Hs He]. simpl in Hs. subst s e. rewrite Hcnt, !length_app.
    replace (length A + (length B + length C) - (length A + length B))%nat with (length C) by lia.
    destruct (remove_map_down_spec C t1 (A ++ B) [] mx) as (t2 & Ht2 & Hn & _);
      [by rewrite app_nil_r, <-app_assoc|by rewrite app_nil_r, <-app_assoc|].
    rewrite length_app in Ht2. rewrite Ht2. cbn [mbind option_bind].
    rewrite app_nil_r, <-app_assoc in Hn.
    assert (Hne2 : A ++ B ++ keep_nomap C ≠ []) by (by intros [_ [? _]%app_eq_nil]%app_eq_nil).
    destruct (remove_map_down_spec A t2 [] (B ++ keep_nomap C) mx) as (t3 & Ht3 & Hn3 & He3);
      [by apply Hn|done|].
    simpl in Ht3, Hn3, He3. rewrite Ht3. exists t3. split; [done|].
    apply wf_of_repr; [done|done|]. by apply chain_keep.
Qed.

Lemma isolated_cap_attr base e A B C old a :
  base < e → isolated base e 0 old A B C →
  attr (keep_nomap A ++ B ++ keep_nomap C) a =
  if in_range base e a then attr old a else keep_attr (attr old a).
Proof.
  intros Hlt Hiso. pose proof (isolated_where _ _ _ _ _ _ _ a Hlt Hiso) as Hw.
  destruct Hiso as (Hc & <- & _).
  rewrite !attr_app, (attr_keep 0 A), (attr_keep 0 C)
    by eauto using chain_app_l, chain_app_r. unfold in_range.
  destruct (attr A a) as [g|], (attr B a), (attr C a) as [g'|]; bool_prop; simpl; try done; try lia;
    by destruct (nomap_flags g) || by destruct (nomap_flags g').
Qed.

Lemma set_memory_id mb : set_memory (mb_memory mb) mb = mb.
Proof. by destruct mb. Qed.

(** Replacing a type by a well-formed one of the same capacity. *)
Lemma mb_inv_set_memory mb t :
  mb_inv mb → wf_type t → mt_max t = mt_max (mb_memory mb) → mb_inv (set_memory t mb).
Proof. intros [(? & ? & ? & ?) ?] ? Hm. split; [|done]. split_and!; try done. simpl. by rewrite Hm. Qed.

Lemma mb_inv_set_reserved mb t :
  mb_inv mb → wf_type t → mt_max t = mt_max (mb_reserved mb) → mb_inv (set_reserved t mb).
Proof. intros [(? & ? & ? & ?) ?] ? Hm. split; [|done]. split_and!; try done. simpl. by rewrite Hm. Qed.

(** Isolation and the two loops, on the memory type. *)
Lemma cap_type_result t base size :
  wf_type t → addr_ok base → 0 < size → base + size ≤ PHYS_ADDR_MAX →
  (memblock_isolate_range t base size = Some (- ENOMEM, t, 0%nat, 0%nat) ∧
   (mt_max t < mt_cnt t + 2)%nat) ∨
  ∃ t1 s e t3, memblock_isolate_range t base size = Some (0, t1, s, e) ∧
    (t2 ← remove_map_down (mt_cnt t1 - e) t1 e; remove_map_down s t2 0) = Some t3 ∧
    wf_type t3 ∧ mt_max t3 = mt_max t ∧
    ∀ a, attrs t3 a = if in_range base (base + size) a then attrs t a
                      else keep_attr (attrs t a).
Proof.
  intros Hw Hb Hs He. unfold addr_ok in *.
  assert (Hcap : cap_end base size = base + size) by (unfold cap_end; lia).
  destruct (isolate_range_result t base size Hw Hb ltac:(lia))
    as [[-> Hfull]|[[-> Hnop]|(t1 & A & B & C & s & e & -> & Hlt & Hrep & Hiso & Hne & Hrec)]];
    [by left|right..].
  - rewrite Hcap in Hnop. destruct Hnop as [|Hz]; [lia|]. destruct Hw as (l & Hrep & _).
    pose proof (repr_live _ _ _ Hrep) as Hl. rewrite Hz in Hl. subst l.
    destruct (remove_map_down_spec [zero_region] t [] [] _ Hrep) as (t3 & Ht3 & _ & Hz3); [done|].
    specialize (Hz3 eq_refl). exists t, 0%nat, 0%nat, t3. split; [done|].
    assert (mt_cnt t = 1%nat) as -> by by destruct Hrep as (_ & ? & _).
    change (1 - 0)%nat with (length [zero_region]). simpl in Ht3 |- *. rewrite Ht3.
    assert (Hm3 : mt_max t3 = mt_max t) by by destruct Hz3.
    split_and!; [done| |done|].
    + exists [zero_region]. split; [by rewrite Hm3|by left].
    + intros a. unfold attrs. rewrite Hz, (repr_live _ _ _ Hz3), attr_zero.
      by destruct (in_range _ _ _).
  - destruct (cap_loops t1 A B C s e _ Hrep Hne (proj1 Hiso) Hrec) as (t3 & Ht3 & Hw3 & Hm3 & Ha).
    exists t1, s, e, t3. split_and!; try done. intros a. rewrite Ha, <-Hcap.
    by apply isolated_cap_attr.
Qed.

(** Everything [memblock_cap_memory_range] does. *)
Lemma cap_memory_result mb base size :
  mb_inv mb → addr_ok base → 0 < size → base + size ≤ PHYS_ADDR_MAX →
  ∃ mb', memblock_cap_memory_range mb base size = Some mb' ∧ mb_inv mb' ∧
    (mb' = mb ∧ (mt_max (mb_memory mb) < mt_cnt (mb_memory mb) + 2)%nat ∨
     ∀ a, attrs (mb_memory mb') a =
       if in_range base (base + size) a then attrs (mb_memory mb) a
       else keep_attr (attrs (mb_memory mb) a)).
Proof.
  intros Hinv Hb Hs He. pose proof Hinv as [(Hwm & Hwr & Hmm & Hmr) Hlim].
  unfold memblock_cap_memory_range. destruct (Z.eqb_spec size 0); [lia|].
  destruct (cap_type_result _ _ _ Hwm Hb Hs He)
    as [[-> Hfull]|(t1 & s & e & t3 & -> & Hl & Hw3 & Hm3 & Ha)]; cbn [mbind option_bind].
  { exists mb. change (negb (- ENOMEM =? 0)) with true. cbn iota. rewrite set_memory_id.
    split_and!; try done. by left. }
  change (negb (0 =? 0)) with false. cbn iota.
  destruct (remove_map_down _ t1 e) as [t2|]; [|done]. cbn [mbind option_bind] in Hl |- *.
  rewrite Hl. cbn [mbind option_bind]. unfold addr_ok in *.
  destruct (remove_range_result (mb_reserved mb) 0 base Hwr)
    as (ret1 & r1 & -> & Hw1 & Hm1 & _); [unfold PHYS_ADDR_MAX; lia|done|].
  cbn [mbind option_bind].
  destruct (remove_range_result r1 (u64 (base + size)) PHYS_ADDR_MAX Hw1)
    as (ret2 & r2 & -> & Hw2 & Hm2 & _);
    [rewrite u64_small by (unfold PHYS_ADDR_MAX in *; lia); lia|unfold PHYS_ADDR_MAX; lia|].
  cbn [mbind option_bind]. eexists. split; [done|]. split; [|by right].
  apply mb_inv_set_reserved; [by apply mb_inv_set_memory|done|]. simpl. by rewrite Hm2.
Qed.


Lemma alloc_internal_result mb size k mn mx :
  mb_inv mb → 0 < size → 0 ≤ k < 64 → addr_ok mn → addr_ok mx →
  let mx' := Z.min mx (mb_current_limit mb) in
  ∃ c mb', memblock_alloc_try_raw mb size (2 ^ k) mn mx = Some (c, mb') ∧
    (c ≠ 0 → allocated mb mb' size c ∧
       (good_window mb MEMBLOCK_NONE (find_lo mn) (find_hi mb mn mx') size (2 ^ k) c ∨
        good_window mb MEMBLOCK_NONE PAGE_SIZE (find_hi mb 0 mx') size (2 ^ k) c)) ∧
    (c = 0 → mb' = mb).
Proof.
  intros [Hmb Hlim] Hsz Hk Hmn Hmx mx'. unfold memblock_alloc_try_raw, memblock_alloc_internal.
  unfold addr_ok in *. destruct (Z.eqb_spec (2 ^ k) 0) as [H0|_].
  { pose proof (Z.pow_pos_nonneg 2 k). lia. }
  assert ((if mb_current_limit mb <? mx then mb_current_limit mb else mx) = mx') as ->.
  { subst mx'. destruct (Z.ltb_spec (mb_current_limit mb) mx); lia. }
  destruct (alloc_attempt_result mb choose_memblock_flags size k mn mx')
    as (c & mb1 & -> & Hs & Hf); try done; [subst mx'; lia|].
  cbn [mbind option_bind]. destruct (Z.eqb_spec c 0) as [->|Hc]; cbn [negb].
  - rewrite (Hf eq_refl). destruct (Z.eqb_spec mn 0); cbn [negb]; [by exists 0, mb|].
    destruct (alloc_attempt_result mb choose_memblock_flags size k 0 mx')
      as (c & mb2 & -> & Hs2 & Hf2); try done; [subst mx'; lia|].
    exists c, mb2. split_and!; [done| |done]. intros Hne. destruct (Hs2 Hne). auto.
  - exists c, mb1. split_and!; [done| |done]. intros _. destruct (Hs Hc). auto.
Qed.



(** ** Concrete blocks for the instances *)

Definition demo_type (l : list memblock_region) : memblock_type :=
  mk_type (length l) INIT_MEMBLOCK_REGIONS (sum_sizes l)
    (l ++ replicate (INIT_MEMBLOCK_REGIONS - length l) zero_region) "memory".

Definition demo_memory : memblock_type :=
  demo_type [mk_region 0x40000000 0x1000000 0; mk_region 0x48000000 0x2000000 MEMBLOCK_NOMAP;
             mk_region 0x50000000 0x4000000 0].
Definition demo_reserved : memblock_type :=
  demo_type [mk_region 0x40080000 0x80000 0; mk_region 0x53000000 0x1000000 0].
Definition demo_memblock : memblock :=
  mk_memblock false MEMBLOCK_ALLOC_ANYWHERE demo_memory demo_reserved.

Lemma demo_type_wf l :
  l ≠ [] → chain 0 l → (length l ≤ INIT_MEMBLOCK_REGIONS)%nat → wf_type (demo_type l).
Proof.
  intros Hne Hch Hl. exists l. split; [|by right]. unfold repr, demo_type. simpl.
  pose proof (chain_sum _ _ Hch). split_and!; [done|done| |].
  - rewrite u64_small; [done|]. unfold PHYS_ADDR_MAX in *. lia.
  - eexists; split; [done|]. rewrite length_replicate. lia.
Qed.

Lemma demo_inv : mb_inv demo_memblock.
Proof.
  split; [|unfold addr_ok; simpl; unfold MEMBLOCK_ALLOC_ANYWHERE, ULLONG_MAX, PHYS_ADDR_MAX; lia].
  split_and!; try done; apply demo_type_wf; try done;
    unfold INIT_MEMBLOCK_REGIONS; simpl; unfold PHYS_ADDR_MAX; lia.
Qed.

(** ** The properties *)





(** C3. [memblock_remove_range] removes exactly the addresses of
    [base, base + size) from the map and keeps the rest with its flags.  Its
    only failure is [-ENOMEM], with the type unchanged, when there is no room
    for the two regions a split may create. *)
Theorem memblock_remove_range_spec (t : memblock_type) (base size : Z) :
  wf_type t → addr_ok base → addr_ok size →
  ∃ ret t', memblock_remove_range t base size = Some (ret, t') ∧ wf_type t' ∧
    ((ret = 0 ∧ ∀ a, attrs t' a =
        if in_range base (cap_end base size) a then None else attrs t a) ∨
     (ret = - ENOMEM ∧ t' = t ∧ (mt_max t < mt_cnt t + 2)%nat)).
Proof.
  intros Hw Hb Hs. destruct (remove_range_result t base size Hw Hb Hs)
    as (ret & t' & Hr & Hw' & _ & Hres). by exists ret, t'.
Qed.

Lemma memblock_remove_range_spec_witness :
  ∃ ret t', memblock_remove_range demo_memory 0x40800000 0x8000000 = Some (ret, t') ∧ wf_type t' ∧
    ((ret = 0 ∧ ∀ a, attrs t' a =
        if in_range 0x40800000 (cap_end 0x40800000 0x8000000) a then None
        else attrs demo_memory a) ∨
     (ret = - ENOMEM ∧ t' = demo_memory ∧ (mt_max demo_memory < mt_cnt demo_memory + 2)%nat)).
Proof.
  apply (memblock_remove_range_spec demo_memory 0x40800000 0x8000000);
    [apply demo_inv|unfold addr_ok, PHYS_ADDR_MAX; lia..].
Defined.

(** [memblock_setclr_flag] (and so the mark and clear functions) changes
    the flag of exactly the memory addresses of [base, base + size), and no
    region appears or disappears. *)
Theorem memblock_setclr_flag_spec (mb : memblock) (base size : Z) (set : bool) (flag : Z) :
  wf_type (mb_memory mb) → addr_ok base → addr_ok size →
  ∃ ret t', memblock_setclr_flag mb base size set flag = Some (ret, set_memory t' mb) ∧
    wf_type t' ∧
    ((ret = 0 ∧ ∀ a, attrs t' a =
        if in_range base (cap_end base size) a
        then setclr_flags set flag <$> attrs (mb_memory mb) a
        else attrs (mb_memory mb) a) ∨
     (ret = - ENOMEM ∧ t' = mb_memory mb)).
Proof.
  intros Hw Hb Hs. destruct (setclr_flag_result mb base size set flag Hw Hb Hs)
    as (ret & t' & Hr & Hw' & _ & Hres). exists ret, t'. tauto.
Qed.

Lemma memblock_setclr_flag_spec_witness :
  ∃ ret t', memblock_setclr_flag demo_memblock 0x40800000 0x8000000 true MEMBLOCK_NOMAP
              = Some (ret, set_memory t' demo_memblock) ∧
    wf_type t' ∧
    ((ret = 0 ∧ ∀ a, attrs t' a =
        if in_range 0x40800000 (cap_end 0x40800000 0x8000000) a
        then setclr_flags true MEMBLOCK_NOMAP <$> attrs demo_memory a
        else attrs demo_memory a) ∨
     (ret = - ENOMEM ∧ t' = demo_memory)).
Proof.
  apply (memblock_setclr_flag_spec demo_memblock 0x40800000 0x8000000 true MEMBLOCK_NOMAP);
    [apply demo_inv|unfold addr_ok, PHYS_ADDR_MAX; lia..].
Defined.

(** The binary search answers membership: [memblock_is_memory] holds
    exactly of the addresses of memory regions and [memblock_is_map_memory] of
    those whose region is not marked NOMAP. *)
Theorem memblock_search_correct (mb : memblock) (addr : Z) :
  mb_inv mb →
  memblock_is_memory mb addr = Some (bool_decide (is_Some (attrs (mb_memory mb) addr))) ∧
  memblock_is_reserved mb addr = Some (bool_decide (is_Some (attrs (mb_reserved mb) addr))) ∧
  memblock_is_map_memory mb addr =
    Some (match attrs (mb_memory mb) addr with Some g => negb (nomap_flags g) | None => false end).
Proof.
  intros [(Hm & Hr & Hmm & Hmr) _].
  assert (Hsz : Z.of_nat INIT_MEMBLOCK_REGIONS < 2 ^ 31) by (unfold INIT_MEMBLOCK_REGIONS; lia).
  destruct (search_result _ addr Hm) as (i & Hi & Hres); [by rewrite Hmm|].
  destruct (search_result _ addr Hr) as (j & Hj & Hres'); [by rewrite Hmr|].
  unfold memblock_is_memory, memblock_is_reserved, memblock_is_map_memory. rewrite Hi, Hj.
  cbn [mbind option_bind]. split_and!.
  - destruct Hres as [[-> ->]|(r & ? & _ & _ & ->)]; [done|].
    destruct (Z.eqb_spec i (-1)); [lia|done].
  - destruct Hres' as [[-> ->]|(r & ? & _ & _ & ->)]; [done|].
    destruct (Z.eqb_spec j (-1)); [lia|done].
  - destruct Hres as [[-> ->]|(r & ? & -> & _ & ->)]; [done|].
    destruct (Z.eqb_spec i (-1)); [lia|done].
Qed.

Lemma memblock_search_correct_witness :
  memblock_is_memory demo_memblock 0x48000010
    = Some (bool_decide (is_Some (attrs demo_memory 0x48000010))) ∧
  memblock_is_reserved demo_memblock 0x48000010
    = Some (bool_decide (is_Some (attrs demo_reserved 0x48000010))) ∧
  memblock_is_map_memory demo_memblock 0x48000010 =
    Some (match attrs demo_memory 0x48000010 with
          | Some g => negb (nomap_flags g) | None => false end).
Proof. apply (memblock_search_correct demo_memblock 0x48000010), demo_inv. Defined.

(** C4. [__memblock_find_in_range], bottom-up or top-down, is sound and
    complete: a non-zero result is an aligned window within the bounds, every
    address of which is memory with the wanted flags and not reserved; a zero
    result means that no memory region holds such a window. *)
Theorem memblock_find_in_range_spec (mb : memblock) (size k start end_ flags : Z) :
  mb_inv mb → addr_ok start → addr_ok end_ → 0 < size → 0 ≤ k < 64 →
  ∃ c, __memblock_find_in_range mb size (2 ^ k) start end_ flags = Some c ∧
    (c ≠ 0 → good_window mb flags (find_lo start) (find_hi mb start end_) size (2 ^ k) c) ∧
    (c = 0 → ¬ has_window mb flags (find_lo start) (find_hi mb start end_) size (2 ^ k)).
Proof. intros [Hmb Hlim] Hst He Hs Hk. by apply find_in_range_result. Qed.

Lemma memblock_find_in_range_spec_witness :
  ∃ c, __memblock_find_in_range demo_memblock 0x200000 (2 ^ 21) 0 0 0 = Some c ∧
    (c ≠ 0 → good_window demo_memblock 0 (find_lo 0) (find_hi demo_memblock 0 0) 0x200000 (2 ^ 21) c) ∧
    (c = 0 → ¬ has_window demo_memblock 0 (find_lo 0) (find_hi demo_memblock 0 0) 0x200000 (2 ^ 21)).
Proof.
  apply (memblock_find_in_range_spec demo_memblock 0x200000 21 0 0 0);
    [apply demo_inv|unfold addr_ok, PHYS_ADDR_MAX; lia..|lia|lia].
Defined.


Definition demo_alloc1 : option (Z * memblock) := memblock_alloc demo_memblock 0x3000 (2 ^ 12).


(** Freeing what was allocated gives the addresses back: when
    [memblock_free] succeeds on the window returned by [memblock_alloc], the
    reserved addresses are those from before the allocation. *)
Theorem memblock_alloc_free_roundtrip (mb mb1 : memblock) (size k c : Z) :
  mb_inv mb → 0 < size ≤ PHYS_ADDR_MAX → 0 ≤ k < 64 →
  memblock_alloc mb size (2 ^ k) = Some (c, mb1) → c ≠ 0 →
  ∃ ret mb2, memblock_free mb1 c size = Some (ret, mb2) ∧ mb_inv mb2 ∧
    mb_memory mb2 = mb_memory mb ∧
    (ret = 0 ∧ (∀ a, attrs (mb_reserved mb2) a = attrs (mb_reserved mb) a) ∨
     ret = - ENOMEM ∧ mb2 = mb1).
Proof.
  intros Hinv Hs Hk H1 Hc.
  assert (H0 : addr_ok 0) by (unfold addr_ok, PHYS_ADDR_MAX; lia).
  destruct (alloc_internal_result mb size k 0 0 Hinv ltac:(lia) Hk H0 H0) as (c' & m & E & Hs1 & _).
  unfold memblock_alloc in H1. unfold MEMBLOCK_ALLOC_ACCESSIBLE in *.
  rewrite H1 in E. injection E as <- <-. destruct (Hs1 Hc) as [(Hsm & Hme & Hli & _ & Hat) Hw].
  assert (Hinv1 : mb_inv mb1) by (split; [done|rewrite Hli; apply Hinv]).
  assert (Hg : ∃ hi, good_window mb MEMBLOCK_NONE PAGE_SIZE hi size (2 ^ k) c ∧ hi ≤ PHYS_ADDR_MAX).
  { destruct Hinv as [_ Hlim]. unfold addr_ok in Hlim. rewrite Z.min_l in Hw by lia.
    assert (find_hi mb 0 0 ≤ PHYS_ADDR_MAX).
    { unfold find_hi, find_lo, PAGE_SIZE, PHYS_ADDR_MAX in *. simpl. lia. }
    destruct Hw; eauto. }
  destruct Hg as (hi & (Hlo & Hhi & _ & Hfree) & Hmax). unfold memblock_free.
  destruct (remove_range_result (mb_reserved mb1) c size) as (ret & t & -> & Hwt & Hmt & Hres).
  { by destruct Hsm as (_ & ? & _). }
  { unfold PAGE_SIZE in *. lia. }
  { lia. }
  cbn [mbind option_bind]. exists ret, (set_reserved t mb1).
  split_and!; [done|by apply mb_inv_set_reserved|done|].
  destruct Hres as [[-> Ha]|(-> & -> & _)]; [left|right; by rewrite set_reserved_id].
  split; [done|]. intros a. simpl. rewrite Ha, Hat. unfold cap_end. rewrite Z.min_l by lia.
  destruct (in_range c (c + size) a) eqn:Hin; [|done]. symmetry.
  apply Hfree. unfold in_range in Hin. bool_prop; simpl in Hin; try done; lia.
Qed.

Lemma memblock_alloc_free_roundtrip_witness :
  ∃ c mb1 ret mb2, demo_alloc1 = Some (c, mb1) ∧ memblock_free mb1 c 0x3000 = Some (ret, mb2) ∧
    mb_inv mb2 ∧ mb_memory mb2 = demo_memory ∧
    (ret = 0 ∧ (∀ a, attrs (mb_reserved mb2) a = attrs demo_reserved a) ∨
     ret = - ENOMEM ∧ mb2 = mb1).
Proof.
  destruct demo_alloc1 as [[c1 mb1]|] eqn:E1; [|by vm_compute in E1].
  assert (E1' := E1). vm_compute in E1'. injection E1' as Hc1 Hm1.
  assert (N1 : c1 ≠ 0) by (rewrite <-Hc1; discriminate). clear Hc1 Hm1.
  destruct (memblock_alloc_free_roundtrip demo_memblock mb1 0x3000 12 c1 demo_inv
    ltac:(unfold PHYS_ADDR_MAX; lia) ltac:(lia) E1 N1) as (ret & mb2 & H).
  exists c1, mb1, ret, mb2. split; [reflexivity|exact H].
Defined.

(** [memblock_cap_memory_range] keeps the memory of [base, base + size)
    and, outside it, exactly the regions marked NOMAP; it never crashes, and on
    a full array it does nothing. *)
Theorem memblock_cap_memory_range_spec (mb : memblock) (base size : Z) :
  mb_inv mb → addr_ok base → 0 < size → base + size ≤ PHYS_ADDR_MAX →
  ∃ mb', memblock_cap_memory_range mb base size = Some mb' ∧ mb_inv mb' ∧
    (mb' = mb ∧ (mt_max (mb_memory mb) < mt_cnt (mb_memory mb) + 2)%nat ∨
     ∀ a, attrs (mb_memory mb') a =
       if in_range base (base + size) a then attrs (mb_memory mb) a
       else keep_attr (attrs (mb_memory mb) a)).
Proof. apply cap_memory_result. Qed.

Lemma memblock_cap_memory_range_spec_witness :
  ∃ mb', memblock_cap_memory_range demo_memblock 0x40000000 0x800000 = Some mb' ∧ mb_inv mb' ∧
    (mb' = demo_memblock ∧ (mt_max demo_memory < mt_cnt demo_memory + 2)%nat ∨
     ∀ a, attrs (mb_memory mb') a =
       if in_range 0x40000000 (0x40000000 + 0x800000) a then attrs demo_memory a
       else keep_attr (attrs demo_memory a)).
Proof.
  apply (memblock_cap_memory_range_spec demo_memblock 0x40000000 0x800000);
    [apply demo_inv|unfold addr_ok, PHYS_ADDR_MAX; lia|lia|unfold PHYS_ADDR_MAX; lia].
Defined.
