(* ===== verification/Ipc.v ===== *)
(** * Inter-process communication ([kernel/core/ipc.c], [kernel/libminix-rt/src/ipc.c])

    Servers own endpoints.  A client calls [__ipc_send]: its message is copied
    to a heap node, the node is queued on the endpoint, and the client sleeps
    until the server has answered with [__ipc_reply].  The code runs on several
    processors, so it is modelled as a small-step machine: each task has a
    program point ([pc]) inside the IPC code, one step executes the code up to
    the next point where another processor can be observed (a lock region, a
    wait, one shared read or write), and a run interleaves the steps of all
    tasks freely.

    Heap nodes are addresses that are never handed out twice, so that every use
    of a node after [kfree] is visible as a lookup that fails; such a use, and
    an index outside [ipc_ep_info], is the outcome [Crash]. *)
From stdpp Require Import gmap functions.
From S2P Require Import Prelude.

(** ** Data *)

Definition tid := nat.
Definition addr := nat.

(** [message_t]: the union is its 56 bytes of payload. *)
Record message := mk_message { m_source : Z; m_type : Z; m_size : list Z }.

Definition IPC_MAX_MESSAGE_BYPE : nat := 56.
Definition IPC_M_TYPE_MASK : Z := 0x7fffffff.
Definition IPC_M_TYPE_NOTIFIER : Z := 0x80000000.

(** [m.m_type & IPC_M_TYPE_NOTIFIER] as a C condition. *)
Definition is_notifier (m : message) : bool :=
  negb (Z.land (u32 (m_type m)) IPC_M_TYPE_NOTIFIER =? 0).

Definition ENDPOINT_SYSTEM : Z := 0.
Definition ENDPOINT_I2C : Z := 1.
Definition ENDPOINT_PM : Z := 2.
Definition ENDPOINT_VFS : Z := 3.
Definition ENDPOINT_END : Z := 4.

Definition EP_STATE_NONE : Z := 0.
Definition EP_STATE_WAITTING : Z := 1.
Definition EP_STATE_RUNNING : Z := 2.

(** [struct endpoint_info]; [ep_list] is the queue of node addresses.  The
    locks and the wait queue are in the step granularity and the program
    points. *)
Record endpoint_info := mk_ep {
  ipc_req_count : Z;
  ep_state : Z;
  endpoint : Z;
  ep_name : string;
  ep_tsk : option tid;
  ep_list : list addr }.

(** [struct ipc_mess_node]; its wait queue is [QNode] of its address. *)
Record ipc_mess_node := mk_node { is_finish : Z; n_m : message }.

(** Where a task is inside [wait_event(wq, condition)]: before the first test
    of the condition, at the head of the loop, queued by [prepare_to_wait]
    (and woken since, or not), or switched out by [schedule]. *)
Inductive wait_phase := WTest | WLoop | WQueued (woken : bool) | WBlocked.

Inductive wait_queue := QEp (i : nat) | QNode (a : addr).

(** Program points.  A [nat] is an index into [ipc_ep_info] that was checked
    by the access itself. *)
Inductive pc :=
  | Idle
  (* __ipc_send *)
  | SendReady (i : nat) (m : message) (w : wait_phase)
  | SendAlloc (i : nat) (m : message)
  | SendQueue (i : nat) (m : message) (a : addr)
  | SendWake (i : nat) (m : message) (a : addr)
  | SendDone (i : nat) (m : message) (a : addr) (w : wait_phase)
  | SendCopy (i : nat) (a : addr)
  (* __ipc_receive *)
  | RecvList (i : nat)
  | RecvWait (i : nat) (w : wait_phase)
  | RecvTake (i : nat)
  | RecvCopy (i : nat) (a : addr)
  | RecvCount (i : nat) (a : addr) (m : message)
  (* __ipc_reply *)
  | RepTake (i : nat) (m : message)
  | RepFin (i : nat) (m : message) (a : addr)
  | RepCopy (i : nat) (m : message) (a : addr)
  | RepWake (i : nat) (a : addr)
  | RepCount (i : nat)
  (* returned, with the value and the caller's message *)
  | Ret (r : Z) (m : option message).

(** What has happened, for the statements about runs (most recent first). *)
Inductive event :=
  | ESend (t : tid) (i : nat) (a : addr) (m : message)
  | EReceive (i : nat) (a : addr) (m : message)
  | EReply (i : nat) (a : addr) (m : message)
  | EReturn (t : tid) (a : addr) (m : message).

Record ipc := mk_ipc {
  ipc_ep_info : list endpoint_info;
  nodes : gmap addr ipc_mess_node;
  next : addr;
  thr : tid → pc;
  pid : tid → Z;
  log : list event }.

Inductive outcome := Stuck | Crash | Next (s : ipc).

#[global] Instance pc_inhabited : Inhabited pc := populate Idle.
#[global] Instance wait_queue_eq_dec : EqDecision wait_queue.
Proof. solve_decision. Defined.
#[global] Instance wait_phase_eq_dec : EqDecision wait_phase.
Proof. solve_decision. Defined.
#[global] Instance message_eq_dec : EqDecision message.
Proof. solve_decision. Defined.

(** ** Updates *)

Definition goto (t : tid) (p : pc) (s : ipc) : ipc :=
  mk_ipc (ipc_ep_info s) (nodes s) (next s) (<[t:=p]> (thr s)) (pid s) (log s).
Definition set_ep (i : nat) (e : endpoint_info) (s : ipc) : ipc :=
  mk_ipc (<[i:=e]> (ipc_ep_info s)) (nodes s) (next s) (thr s) (pid s) (log s).
Definition set_nodes (h : gmap addr ipc_mess_node) (s : ipc) : ipc :=
  mk_ipc (ipc_ep_info s) h (next s) (thr s) (pid s) (log s).
Definition emit (e : event) (s : ipc) : ipc :=
  mk_ipc (ipc_ep_info s) (nodes s) (next s) (thr s) (pid s) (e :: log s).

Definition ep_set_state (st : Z) (e : endpoint_info) : endpoint_info :=
  mk_ep (ipc_req_count e) st (endpoint e) (ep_name e) (ep_tsk e) (ep_list e).
Definition ep_set_list (l : list addr) (e : endpoint_info) : endpoint_info :=
  mk_ep (ipc_req_count e) (ep_state e) (endpoint e) (ep_name e) (ep_tsk e) l.
Definition ep_set_count (c : Z) (e : endpoint_info) : endpoint_info :=
  mk_ep c (ep_state e) (endpoint e) (ep_name e) (ep_tsk e) (ep_list e).
Definition ep_set_tsk (o : option tid) (e : endpoint_info) : endpoint_info :=
  mk_ep (ipc_req_count e) (ep_state e) (endpoint e) (ep_name e) o (ep_list e).

(** [&ipc_ep_info[z]] for a C [int] index. *)
Definition ep_at (s : ipc) (z : Z) : option (nat * endpoint_info) :=
  if 0 <=? z then e ← ipc_ep_info s !! Z.to_nat z; Some (Z.to_nat z, e) else None.

Definition set_m_source (src : Z) (m : message) : message := mk_message src (m_type m) (m_size m).
Definition set_m_type (ty : Z) (m : message) : message := mk_message (m_source m) ty (m_size m).

(** ** Wait queues ([kernel/core/sched/wait.c], [kernel/include/minix_rt/wait.h]) *)

(** One step of [wait_event]: leave the wait, move to another phase, or
    nothing to do (the task is switched out). *)
Inductive wait_next := WLeave | WGo (w : wait_phase) | WSleeping.

Definition wait_event (w : wait_phase) (condition : bool) : wait_next :=
  match w with
  | WTest => if condition then WLeave else WGo WLoop
  | WLoop => WGo (WQueued false)
  | WQueued woken =>
      if condition then WLeave else if woken then WGo WLoop else WGo WBlocked
  | WBlocked => WSleeping
  end.

(** The queue a task sleeps on, and its phase. *)
Definition waiting (p : pc) : option (wait_queue * wait_phase) :=
  match p with
  | SendReady i _ w => Some (QEp i, w)
  | SendDone _ _ a w => Some (QNode a, w)
  | RecvWait i w => Some (QEp i, w)
  | _ => None
  end.

Definition set_phase (p : pc) (w : wait_phase) : pc :=
  match p with
  | SendReady i m _ => SendReady i m w
  | SendDone i m a _ => SendDone i m a w
  | RecvWait i _ => RecvWait i w
  | p => p
  end.

(** [wake_up(q)] makes every task queued on [q] runnable: the waiters are not
    exclusive ([prepare_to_wait]), so the scan does not stop at the first. *)
Definition wake_pc (q : wait_queue) (p : pc) : pc :=
  match waiting p with
  | Some (q', WQueued _) => if decide (q' = q) then set_phase p (WQueued true) else p
  | Some (q', WBlocked) => if decide (q' = q) then set_phase p WLoop else p
  | _ => p
  end.

Definition wake_up (q : wait_queue) (s : ipc) : ipc :=
  mk_ipc (ipc_ep_info s) (nodes s) (next s) (λ t, wake_pc q (thr s t)) (pid s) (log s).

(** ** Initialisation and registration *)

Definition ipc_ep_info_init : list endpoint_info :=
  [mk_ep 0 EP_STATE_NONE ENDPOINT_SYSTEM "rootService" None [];
   mk_ep 0 EP_STATE_NONE ENDPOINT_I2C "i2c" None [];
   mk_ep 0 EP_STATE_NONE ENDPOINT_PM "pm" None [];
   mk_ep 0 EP_STATE_NONE ENDPOINT_VFS "vfs" None []].

Definition ipc_init (eps : list endpoint_info) : list endpoint_info :=
  (λ e, ep_set_list [] (ep_set_count 0 (ep_set_tsk None (ep_set_state EP_STATE_NONE e)))) <$> eps.

(** The loop of [ipc_register_endpoint_by_tsk] over the table: the index that
    matched, or the error. *)
Fixpoint register_scan (eps : list endpoint_info) (i : nat) (comm : string) : Z + nat :=
  match eps with
  | [] => inl (- ENODEV)
  | e :: eps =>
      if Nat.eqb (String.length comm) (String.length (ep_name e)) && String.eqb (ep_name e) comm
      then if ep_tsk e is Some _ then inl (- EBUSY) else inr i
      else register_scan eps (S i) comm
  end.

(** [tsk] is the registered task and its name; [None] is a null pointer. *)
Definition ipc_register_endpoint_by_tsk (tsk : option (tid * string)) (s : ipc) : Z * ipc :=
  match tsk with
  | None => (- EINVAL, s)
  | Some (t, comm) =>
      match register_scan (ipc_ep_info s) 0 comm with
      | inl e => (e, s)
      | inr i =>
          match ipc_ep_info s !! i with
          | Some e =>
              (0, wake_up (QEp i)
                    (set_ep i (ep_set_state EP_STATE_RUNNING (ep_set_tsk (Some t) e)) s))
          | None => (- ENODEV, s)
          end
      end
  end.

(** ** Entering the operations *)

(** [__ipc_send] up to the first wait. *)
Definition __ipc_send (t : tid) (dest : Z) (m_ptr : option message) (s : ipc) : outcome :=
  match m_ptr with
  | Some m =>
      if dest >? ENDPOINT_END then Next (goto t (Ret (- EINVAL) m_ptr) s) else
      match ep_at s dest with
      | None => Crash
      | Some (i, e) =>
          Next (goto t (if ep_tsk e is Some _ then SendAlloc i m else SendReady i m WTest) s)
      end
  | None => Next (goto t (Ret (- EINVAL) None) s)
  end.

(** The checks [__ipc_receive] and [__ipc_reply] share. *)
Definition server_checks (t : tid) (src : Z) (m_ptr : option message) (s : ipc)
    (k : nat → endpoint_info → message → outcome) : outcome :=
  let ret r := Next (goto t (Ret r m_ptr) s) in
  match m_ptr with
  | Some m =>
      if src >? ENDPOINT_END then ret (- EINVAL) else
      match ep_at s src with
      | None => Crash
      | Some (i, e) =>
          match ep_tsk e with
          | None => ret (- ENODEV)
          | Some t' => if decide (t' = t) then k i e m else ret (- EACCES)
          end
      end
  | None => ret (- EINVAL)
  end.

Definition __ipc_receive (t : tid) (src : Z) (m_ptr : option message) (s : ipc) : outcome :=
  server_checks t src m_ptr s (λ i e _,
    if ipc_req_count e =? 0 then Next (goto t (RecvList i) s)
    else Next (goto t (Ret (- EBUSY) m_ptr) s)).

Definition __ipc_reply (t : tid) (src : Z) (m_ptr : option message) (s : ipc) : outcome :=
  server_checks t src m_ptr s (λ i e m,
    if ipc_req_count e =? 0 then Next (goto t (Ret (- EINVAL) m_ptr) s)
    else Next (goto t (RepTake i m) s)).

Definition __ipc_notify (t : tid) (dest : Z) (m_ptr : option message) (s : ipc) : outcome :=
  match m_ptr with
  | None => Next (goto t (Ret (- EINVAL) None) s)
  | Some m =>
      __ipc_send t dest
        (Some (set_m_type (s32 (Z.lor (u32 (m_type m)) IPC_M_TYPE_NOTIFIER)) m)) s
  end.

(** ** The steps inside the operations *)

(** The test after the message is queued: a notification does not wait. *)
Definition send_posted (i : nat) (m : message) (a : addr) : pc :=
  if is_notifier m then Ret 0 (Some m) else SendDone i m a WTest.

(** [expired]: the timer of [wait_event_timeout] runs out. *)
Definition send_ready (t : tid) i m w (expired : bool) (e : endpoint_info) (s : ipc) : outcome :=
  match wait_event w (ep_state e =? EP_STATE_RUNNING) with
  | WLeave => Next (goto t (SendAlloc i m) s)
  | WGo w => Next (goto t (SendReady i m w) s)
  | WSleeping => if expired then Next (goto t (Ret (- ENODEV) (Some m)) s) else Stuck
  end.

(** [ok]: the allocation succeeds. *)
Definition send_alloc (t : tid) i m (ok : bool) (s : ipc) : outcome :=
  if ok then
    let m := set_m_source (pid s t) m in
    let a := next s in
    Next (goto t (SendQueue i m a)
            (mk_ipc (ipc_ep_info s) (<[a:=mk_node 0 m]> (nodes s)) (S a)
                    (thr s) (pid s) (log s)))
  else Next (goto t (Ret (- ENOMEM) (Some m)) s).

Definition send_queue (t : tid) i m (a : addr) (e : endpoint_info) (s : ipc) : outcome :=
  let e := ep_set_list (ep_list e ++ [a]) e in
  let s := emit (ESend t i a m) s in
  if ep_state e =? EP_STATE_WAITTING
  then Next (goto t (SendWake i m a) (set_ep i (ep_set_state EP_STATE_RUNNING e) s))
  else Next (goto t (send_posted i m a) (set_ep i e s)).

Definition send_done (t : tid) i m (a : addr) w (s : ipc) : outcome :=
  match nodes s !! a with
  | None => Crash
  | Some n =>
      match wait_event w (negb (is_finish n =? 0)) with
      | WLeave => Next (goto t (SendCopy i a) s)
      | WGo w => Next (goto t (SendDone i m a w) s)
      | WSleeping => Stuck
      end
  end.

Definition send_copy (t : tid) (a : addr) (s : ipc) : outcome :=
  match nodes s !! a with
  | None => Crash
  | Some n => Next (goto t (Ret 0 (Some (n_m n)))
                      (emit (EReturn t a (n_m n)) (set_nodes (delete a (nodes s)) s)))
  end.

Definition recv_list (t : tid) i (e : endpoint_info) (s : ipc) : outcome :=
  match ep_list e with
  | [] => Next (goto t (RecvWait i WTest) (set_ep i (ep_set_state EP_STATE_WAITTING e) s))
  | _ :: _ => Next (goto t (RecvTake i) s)
  end.

Definition recv_wait (t : tid) i w (e : endpoint_info) (s : ipc) : outcome :=
  match wait_event w (ep_state e =? EP_STATE_RUNNING) with
  | WLeave => Next (goto t (RecvTake i) s)
  | WGo w => Next (goto t (RecvWait i w) s)
  | WSleeping => Stuck
  end.

(** [list_first_entry] of an empty list is the list head taken for a node. *)
Definition recv_take (t : tid) i (e : endpoint_info) (s : ipc) : outcome :=
  match ep_list e with
  | [] => Crash
  | a :: _ => Next (goto t (RecvCopy i a) s)
  end.

Definition recv_copy (t : tid) i (a : addr) (s : ipc) : outcome :=
  match nodes s !! a with
  | None => Crash
  | Some n => Next (goto t (RecvCount i a (n_m n)) s)
  end.

Definition recv_count (t : tid) i (a : addr) m (e : endpoint_info) (s : ipc) : outcome :=
  Next (goto t (Ret 0 (Some m))
          (emit (EReceive i a m) (set_ep i (ep_set_count (u32 (ipc_req_count e + 1)) e) s))).

Definition rep_take (t : tid) i m (e : endpoint_info) (s : ipc) : outcome :=
  match ep_list e with
  | [] => Crash
  | a :: l => Next (goto t (RepFin i m a) (emit (EReply i a m) (set_ep i (ep_set_list l e) s)))
  end.

Definition node_finish (n : ipc_mess_node) : ipc_mess_node :=
  mk_node 1 (n_m n).
Definition node_answer (m : message) (n : ipc_mess_node) : ipc_mess_node :=
  mk_node (is_finish n) m.

Definition rep_fin (t : tid) i m (a : addr) (s : ipc) : outcome :=
  match nodes s !! a with
  | None => Crash
  | Some n =>
      if is_notifier (n_m n)
      then Next (goto t (RepCount i) (set_nodes (delete a (nodes s)) s))
      else Next (goto t (RepCopy i m a) (set_nodes (<[a:=node_finish n]> (nodes s)) s))
  end.

Definition rep_copy (t : tid) i m (a : addr) (s : ipc) : outcome :=
  match nodes s !! a with
  | None => Crash
  | Some n => Next (goto t (RepWake i a) (set_nodes (<[a:=node_answer m n]> (nodes s)) s))
  end.

Definition rep_wake (t : tid) i (a : addr) (s : ipc) : outcome :=
  match nodes s !! a with
  | None => Crash
  | Some _ => Next (goto t (RepCount i) (wake_up (QNode a) s))
  end.

Definition rep_count (t : tid) i (e : endpoint_info) (s : ipc) : outcome :=
  Next (goto t (Ret 0 None) (set_ep i (ep_set_count (u32 (ipc_req_count e - 1)) e) s)).

(** ** The machine *)

Inductive call :=
  | CSend (dest : Z) (m : option message)
  | CNotify (dest : Z) (m : option message)
  | CReceive (src : Z) (m : option message)
  | CReply (src : Z) (m : option message).

(** A task calls an operation, takes a step inside it ([b] resolves the timer
    and the allocator), or goes on after it; a task is registered as a server. *)
Inductive action :=
  | ACall (t : tid) (c : call)
  | AStep (t : tid) (b : bool)
  | ALeave (t : tid)
  | ARegister (tsk : option (tid * string)).

Definition with_ep (s : ipc) (i : nat) (k : endpoint_info → outcome) : outcome :=
  match ipc_ep_info s !! i with Some e => k e | None => Crash end.

Definition step_inside (t : tid) (b : bool) (s : ipc) : outcome :=
  match thr s t with
  | Idle | Ret _ _ => Stuck
  | SendReady i m w => with_ep s i (λ e, send_ready t i m w b e s)
  | SendAlloc i m => send_alloc t i m b s
  | SendQueue i m a => with_ep s i (λ e, send_queue t i m a e s)
  | SendWake i m a => Next (goto t (send_posted i m a) (wake_up (QEp i) s))
  | SendDone i m a w => send_done t i m a w s
  | SendCopy _ a => send_copy t a s
  | RecvList i => with_ep s i (λ e, recv_list t i e s)
  | RecvWait i w => with_ep s i (λ e, recv_wait t i w e s)
  | RecvTake i => with_ep s i (λ e, recv_take t i e s)
  | RecvCopy i a => recv_copy t i a s
  | RecvCount i a m => with_ep s i (λ e, recv_count t i a m e s)
  | RepTake i m => with_ep s i (λ e, rep_take t i m e s)
  | RepFin i m a => rep_fin t i m a s
  | RepCopy i m a => rep_copy t i m a s
  | RepWake i a => rep_wake t i a s
  | RepCount i => with_ep s i (λ e, rep_count t i e s)
  end.

Definition ipc_call (t : tid) (c : call) (s : ipc) : outcome :=
  match thr s t with
  | Idle =>
      match c with
      | CSend dest m => __ipc_send t dest m s
      | CNotify dest m => __ipc_notify t dest m s
      | CReceive src m => __ipc_receive t src m s
      | CReply src m => __ipc_reply t src m s
      end
  | _ => Stuck
  end.

Definition ipc_step (a : action) (s : ipc) : outcome :=
  match a with
  | ACall t c => ipc_call t c s
  | AStep t b => step_inside t b s
  | ALeave t => match thr s t with Ret _ _ => Next (goto t Idle s) | _ => Stuck end
  | ARegister tsk => Next (snd (ipc_register_endpoint_by_tsk tsk s))
  end.

Definition ipc_boot (pids : tid → Z) : ipc :=
  mk_ipc (ipc_init ipc_ep_info_init) ∅ 0%nat (λ _, Idle) pids [].

(** A schedule is run to its end; a stuck or crashed step is reported. *)
Fixpoint ipc_run (acts : list action) (s : ipc) : outcome :=
  match acts with
  | [] => Next s
  | a :: acts => match ipc_step a s with Next s => ipc_run acts s | o => o end
  end.

(** ** The system service ([kernel/core/system.c]) *)

Inductive system_handler := On_brk | On_string | On_mmap | On_exec | On_mprotect | On_misc.

Definition IPC_M_TYPE_SYSTEM_MPROTECT : Z := 1.
Definition IPC_M_TYPE_SYSTEM_SBRK : Z := 2.
Definition IPC_M_TYPE_SYSTEM_BRK : Z := 3.
Definition IPC_M_TYPE_SYSTEM_STRING : Z := 4.
Definition IPC_M_TYPE_SYSTEM_MMAP : Z := 5.
Definition IPC_M_TYPE_SYSTEM_EXEC : Z := 6.
Definition IPC_M_TYPE_SYSTEM_TASK_SIZE : Z := 7.
Definition IPC_M_TYPE_SYSTEM_SEED : Z := 8.
Definition IPC_M_TYPE_SYSTEM_AUXVEC_CNT : Z := 9.
Definition IPC_M_TYPE_SYSTEM_AUXVEC : Z := 10.
Definition IPC_M_TYPE_SYSTEM_ELF_HWCAP : Z := 11.

(** The switch of [system_handle_ipc_message]. *)
Definition system_handle_ipc_message (m : message) : system_handler :=
  let ty := Z.land (u32 (m_type m)) IPC_M_TYPE_MASK in
  if (ty =? IPC_M_TYPE_SYSTEM_BRK) || (ty =? IPC_M_TYPE_SYSTEM_SBRK) then On_brk
  else if ty =? IPC_M_TYPE_SYSTEM_STRING then On_string
  else if ty =? IPC_M_TYPE_SYSTEM_MMAP then On_mmap
  else if ty =? IPC_M_TYPE_SYSTEM_EXEC then On_exec
  else if ty =? IPC_M_TYPE_SYSTEM_MPROTECT then On_mprotect
  else On_misc.

(** Eight payload bytes as [m_u64.data[k]] (little endian). *)
Fixpoint le_word (l : list Z) : Z :=
  match l with [] => 0 | b :: l => b + 256 * le_word l end.
Fixpoint le_bytes (n : nat) (z : Z) : list Z :=
  match n with O => [] | S n => z mod 256 :: le_bytes n (z / 256) end.

Definition m_u64 (m : message) (k : nat) : Z := le_word (take 8 (drop (8 * k) (m_size m))).
Definition set_m_u64 (k : nat) (z : Z) (m : message) : message :=
  mk_message (m_source m) (m_type m)
    (take (8 * k) (m_size m) ++ le_bytes 8 z ++ drop (8 * k + 8) (m_size m)).

(** [system_misc] with the values of the architecture. *)
Section system_misc.
Context (TASK_SIZE ELF_HWCAP cycles arch_auxvec_cnt : Z).
Context (arch_auxvec : Z → message → message).

Definition system_misc (m : message) : message :=
  let ty := Z.land (u32 (m_type m)) IPC_M_TYPE_MASK in
  if ty =? IPC_M_TYPE_SYSTEM_TASK_SIZE then set_m_u64 0 TASK_SIZE m
  else if ty =? IPC_M_TYPE_SYSTEM_SEED then set_m_u64 0 cycles m
  else if ty =? IPC_M_TYPE_SYSTEM_AUXVEC_CNT then set_m_u64 0 arch_auxvec_cnt m
  else if ty =? IPC_M_TYPE_SYSTEM_AUXVEC then arch_auxvec (s32 (m_u64 m 0)) m
  else if ty =? IPC_M_TYPE_SYSTEM_ELF_HWCAP then set_m_u64 0 ELF_HWCAP m
  else m.
End system_misc.

(** Where [system_thread] is in its loop; [handle] runs a handler on the
    message in place. *)
Inductive system_phase := SysReceive | SysReceiving | SysHandle (m : message) | SysReplying.

Section system_thread.
Context (handle : system_handler → message → message).

Definition zero_message : message := mk_message 0 0 (replicate IPC_MAX_MESSAGE_BYPE 0).

(** What the thread does next when it is not inside an IPC call: the action
    and the next phase; [None] is a [BUG_ON] that fires. *)
Definition system_thread (ph : system_phase) (t : tid) (s : ipc) : option (action * system_phase) :=
  match ph, thr s t with
  | SysReceive, _ => Some (ACall t (CReceive ENDPOINT_SYSTEM (Some zero_message)), SysReceiving)
  | SysReceiving, Ret r m =>
      if r =? 0 then Some (ALeave t, SysHandle (default zero_message m)) else None
  | SysHandle m, _ =>
      Some (ACall t (CReply ENDPOINT_SYSTEM (Some (handle (system_handle_ipc_message m) m))), SysReplying)
  | SysReplying, Ret r _ => if r =? 0 then Some (ALeave t, SysReceive) else None
  | _, _ => Some (AStep t true, ph)
  end.
End system_thread.

(** ** System calls and the user library ([kernel/libminix-rt/src/ipc.c]) *)

Section syscalls.
(** [copy_from_user] and [copy_to_user] at the user's pointer: the bytes, and
    the number of bytes left uncopied; the result of the kernel operation. *)
Context (copy_from_user : option message) (copy_to_user : message → Z).
Context (kernel_op : Z → message → Z * message).

Definition sys_ipc_send (dest : Z) : Z :=
  match copy_from_user with
  | None => - EFAULT
  | Some m => let '(ret, m) := kernel_op dest m in
              if negb (ret =? 0) then ret else copy_to_user m
  end.
Definition sys_ipc_receive (src : Z) : Z :=
  let '(ret, m) := kernel_op src (mk_message 0 0 (replicate IPC_MAX_MESSAGE_BYPE 0)) in
  if negb (ret =? 0) then ret else copy_to_user m.
Definition sys_ipc_reply (src : Z) : Z :=
  match copy_from_user with None => - EFAULT | Some m => (kernel_op src m).1 end.
Definition sys_ipc_notify (dest : Z) : Z :=
  match copy_from_user with None => - EFAULT | Some m => (kernel_op dest m).1 end.
End syscalls.

Section user_library.
(** [__syscall(nr, endpoint, m_ptr)]: the result and the user's message. *)
Context (__syscall : Z → Z → message → Z * message).

Definition __NR_ipc_send : Z := 297.
Definition __NR_ipc_receive : Z := 298.
Definition __NR_ipc_reply : Z := 299.
Definition __NR_ipc_notify : Z := 300.

Definition user_call (nr dest : Z) (m : message) : Z * message :=
  if dest >? ENDPOINT_END then (- EINVAL, m) else __syscall nr dest m.
Definition ipc_send := user_call __NR_ipc_send.
Definition ipc_receive := user_call __NR_ipc_receive.
Definition ipc_reply := user_call __NR_ipc_reply.
Definition ipc_notify := user_call __NR_ipc_notify.

Definition ask_system (ty : Z) : Z :=
  let m := set_m_type ty zero_message in
  let '(ret, m) := ipc_send ENDPOINT_SYSTEM m in
  if negb (ret =? 0) then 0 else m_u64 m 0.
Definition get_task_size : Z := ask_system IPC_M_TYPE_SYSTEM_TASK_SIZE.
Definition get_arch_auxvec_cnt : Z := ask_system IPC_M_TYPE_SYSTEM_AUXVEC_CNT.
Definition get_arch_elf_hwcap : Z := ask_system IPC_M_TYPE_SYSTEM_ELF_HWCAP.

Definition get_arch_auxvec (auxvec : list Z) (cnt : Z) : Z * list Z :=
  let m := set_m_u64 0 (u64 cnt) (set_m_type IPC_M_TYPE_SYSTEM_AUXVEC zero_message) in
  let '(ret, m) := ipc_send ENDPOINT_SYSTEM m in
  if negb (ret =? 0) then (ret, auxvec)
  else (0, <[0%nat:=m_u64 m 0]> (<[1%nat:=m_u64 m 1]> auxvec)).
End user_library.
