(* ===== verification/IpcFacts.v ===== *)
(** * The invariant of the IPC machine

    A ghost map records, for every live node, its sender, its endpoint, the
    request and the stage of its life.  The invariant ties the stage to the
    program points of the two tasks involved; it is kept by every step of a run
    in which no sender looks at its node inside the window of the reply that
    answers it (see [reply_window]). *)
From stdpp Require Import gmap functions.
From S2P Require Import Prelude Ipc.

(** ** Vocabulary *)

Inductive stage :=
  | SPosting | SQueued | SHeld (m : message) | SFinishing (m : message)
  | SCopied (m : message) | SAnswered (m : message).

Record ghost := mk_ghost { g_owner : tid; g_dest : nat; g_req : message; g_stage : stage }.

Definition server (s : ipc) (i : nat) : option tid := e ← ipc_ep_info s !! i; ep_tsk e.

(** The window between [is_finish = 1] and the end of the wake-up. *)
Definition reply_window (s : ipc) (a : addr) : Prop :=
  ∃ t i m, thr s t = RepCopy i m a ∨ thr s t = RepWake i a.

Definition endpoint_arg (c : call) : Z :=
  match c with CSend d _ | CNotify d _ | CReceive d _ | CReply d _ => d end.

(** The runs the guarantees are about: endpoint arguments that the bound test
    treats correctly, and no sender at its wait during the window. *)
Definition admissible (s : ipc) (act : action) : Prop :=
  match act with
  | ACall _ c => 0 ≤ endpoint_arg c ∧ endpoint_arg c ≠ ENDPOINT_END
  | AStep t _ => match thr s t with SendDone _ _ a _ => ¬ reply_window s a | _ => True end
  | _ => True
  end.

Inductive reachable (pids : tid → Z) : ipc → Prop :=
  | reach_boot : reachable pids (ipc_boot pids)
  | reach_step s act s' :
      reachable pids s → admissible s act → ipc_step act s = Next s' → reachable pids s'.

(** Projections of the log, oldest first. *)
Definition sent (i : nat) (l : list event) : list addr :=
  reverse (omap (λ ev, match ev with ESend _ j a _ => if decide (j = i) then Some a else None
                                | _ => None end) l).
Definition received (i : nat) (l : list event) : list addr :=
  reverse (omap (λ ev, match ev with EReceive j a _ => if decide (j = i) then Some a else None
                                | _ => None end) l).
Definition replied (i : nat) (l : list event) : list addr :=
  reverse (omap (λ ev, match ev with EReply j a _ => if decide (j = i) then Some a else None
                                | _ => None end) l).

(** ** The invariant *)

Definition sender_waits (s : ipc) (g : ghost) (a : addr) : Prop :=
  is_notifier (g_req g) = true ∨
  thr s (g_owner g) = SendWake (g_dest g) (g_req g) a ∨
  ∃ w, thr s (g_owner g) = SendDone (g_dest g) (g_req g) a w.

(** What the stage of a node says about it. *)
Definition node_ok (s : ipc) (a : addr) (g : ghost) (n : ipc_mess_node) : Prop :=
  let i := g_dest g in
  match g_stage g with
  | SPosting => n = mk_node 0 (g_req g) ∧ thr s (g_owner g) = SendQueue i (g_req g) a
  | SQueued => n = mk_node 0 (g_req g) ∧ sender_waits s g a
  | SHeld m => n = mk_node 0 (g_req g) ∧ sender_waits s g a ∧
      ∃ t, server s i = Some t ∧ thr s t = RepFin i m a
  | SFinishing m => n = mk_node 1 (g_req g) ∧ is_notifier (g_req g) = false ∧ sender_waits s g a ∧
      ∃ t, server s i = Some t ∧ thr s t = RepCopy i m a
  | SCopied m => n = mk_node 1 m ∧ is_notifier (g_req g) = false ∧ sender_waits s g a ∧
      ∃ t, server s i = Some t ∧ thr s t = RepWake i a
  | SAnswered m => n = mk_node 1 m ∧ is_notifier (g_req g) = false ∧
      (sender_waits s g a ∨ thr s (g_owner g) = SendCopy i a)
  end.

(** What the log says about a node; its endpoint is in the table. *)
Definition node_log_ok (l : list event) (a : addr) (g : ghost) : Prop :=
  (g_dest g < 4)%nat ∧
  match g_stage g with
  | SPosting => True
  | SQueued => ESend (g_owner g) (g_dest g) a (g_req g) ∈ l
  | SHeld m | SFinishing m | SCopied m | SAnswered m =>
      ESend (g_owner g) (g_dest g) a (g_req g) ∈ l ∧ EReply (g_dest g) a m ∈ l
  end.

(** What a program point says about the nodes and the endpoints. *)
Definition thread_ok (s : ipc) (G : gmap addr ghost) (t : tid) : Prop :=
  match thr s t with
  | Idle | Ret _ _ => True
  | SendReady i _ _ => (i < 4)%nat
  | SendAlloc i _ => is_Some (server s i)
  | SendQueue i m a => is_Some (server s i) ∧ G !! a = Some (mk_ghost t i m SPosting)
  | SendWake i m a => is_Some (server s i) ∧
      (is_notifier m = false → ∃ st, G !! a = Some (mk_ghost t i m st) ∧ st ≠ SPosting)
  | SendDone i m a w => is_notifier m = false ∧
      ∃ st, G !! a = Some (mk_ghost t i m st) ∧ st ≠ SPosting ∧
            (w = WBlocked → ∀ m', st ≠ SAnswered m')
  | SendCopy i a => ∃ m m', G !! a = Some (mk_ghost t i m (SAnswered m'))
  | RecvList i | RecvTake i | RecvCopy i _ | RepTake i _ | RepCount i => server s i = Some t
  | RecvWait i w => server s i = Some t ∧
      (w = WBlocked → (ep_state <$> ipc_ep_info s !! i) = Some EP_STATE_RUNNING →
       ∃ t' m a, thr s t' = SendWake i m a)
  | RecvCount i a m => server s i = Some t ∧ ∃ g, G !! a = Some g ∧ g_req g = m
  | RepFin i m a => server s i = Some t ∧ ∃ o r, G !! a = Some (mk_ghost o i r (SHeld m))
  | RepCopy i m a => server s i = Some t ∧ ∃ o r, G !! a = Some (mk_ghost o i r (SFinishing m))
  | RepWake i a => server s i = Some t ∧ ∃ o r m, G !! a = Some (mk_ghost o i r (SCopied m))
  end.

(** The endpoint seen from its server's program point: how many requests are
    being handled, and whether the queue has an entry. *)
Inductive serving := Outside | Entering | Emptied | Taking | Took (a : addr) | Answering | Leaving.

#[global] Instance serving_eq_dec : EqDecision serving.
Proof. solve_decision. Defined.

Definition serving_of (i : nat) (p : pc) : serving :=
  match p with
  | RecvList j => if decide (j = i) then Entering else Outside
  | RecvWait j _ => if decide (j = i) then Emptied else Outside
  | RecvTake j => if decide (j = i) then Taking else Outside
  | RecvCopy j a | RecvCount j a _ => if decide (j = i) then Took a else Outside
  | RepTake j _ => if decide (j = i) then Answering else Outside
  | RepFin j _ _ | RepCopy j _ _ | RepWake j _ | RepCount j => if decide (j = i) then Leaving else Outside
  | _ => Outside
  end.

(** [rc] are the nodes received and [rp] the nodes replied to so far. *)
Definition server_ok (v : serving) (e : endpoint_info) (rc rp : list addr) : Prop :=
  (ep_state e = EP_STATE_RUNNING ∨ ep_state e = EP_STATE_WAITTING ∧ v = Emptied) ∧
  match v with
  | Outside => ipc_req_count e = 0 ∧ rc = rp ∨
               ipc_req_count e = 1 ∧ ∃ a l, ep_list e = a :: l ∧ rc = rp ++ [a]
  | Entering => ipc_req_count e = 0 ∧ rc = rp
  | Emptied => ipc_req_count e = 0 ∧ rc = rp ∧
               (ep_state e = EP_STATE_RUNNING ↔ ep_list e ≠ [])
  | Taking => ipc_req_count e = 0 ∧ rc = rp ∧ ep_list e ≠ []
  | Took a => ipc_req_count e = 0 ∧ rc = rp ∧ ∃ l, ep_list e = a :: l
  | Answering => ipc_req_count e = 1 ∧ ∃ a l, ep_list e = a :: l ∧ rc = rp ++ [a]
  | Leaving => ipc_req_count e = 1 ∧ rc = rp
  end.

Definition ep_ok (s : ipc) (G : gmap addr ghost) (i : nat) (e : endpoint_info) : Prop :=
  sent i (log s) = replied i (log s) ++ ep_list e ∧
  NoDup (ep_list e) ∧
  (∀ a, a ∈ ep_list e ↔ ∃ o r, G !! a = Some (mk_ghost o i r SQueued)) ∧
  match ep_tsk e with
  | None => ipc_req_count e = 0 ∧ ep_state e = EP_STATE_NONE ∧ ep_list e = [] ∧
            received i (log s) = [] ∧ replied i (log s) = []
  | Some t => server_ok (serving_of i (thr s t)) e (received i (log s)) (replied i (log s))
  end.

Definition event_ok (l : list event) (ev : event) : Prop :=
  match ev with
  | EReceive i a m => ∃ t, ESend t i a m ∈ l
  | EReturn t a m => ∃ i m0, ESend t i a m0 ∈ l ∧ EReply i a m ∈ l
  | _ => True
  end.

Record inv (s : ipc) (G : gmap addr ghost) : Prop := {
  inv_len : length (ipc_ep_info s) = 4%nat;
  inv_next : ∀ a, is_Some (G !! a) → (a < next s)%nat;
  inv_dom : ∀ a, is_Some (nodes s !! a) ↔ is_Some (G !! a);
  inv_node : ∀ a g n, G !! a = Some g → nodes s !! a = Some n → node_ok s a g n;
  inv_nlog : ∀ a g, G !! a = Some g → node_log_ok (log s) a g;
  inv_thread : ∀ t, thread_ok s G t;
  inv_ep : ∀ i e, ipc_ep_info s !! i = Some e → ep_ok s G i e;
  inv_event : ∀ ev, ev ∈ log s → event_ok (log s) ev }.

(** ** Frames: what a step leaves alone *)

(** A task that did not step is where it was, or was woken. *)
Definition moved (p p' : pc) : Prop :=
  p' = p ∨ ∃ w, p' = set_phase p w ∧ w ≠ WBlocked.

Lemma wake_moved q p : moved p (wake_pc q p).
Proof.
  unfold moved, wake_pc. destruct p; simpl; auto;
    destruct w; auto; case_decide; auto; right; eexists; split; auto.
Qed.

Lemma wake_not_blocked q p : waiting (wake_pc q p) ≠ Some (q, WBlocked).
Proof.
  unfold wake_pc. destruct p; simpl; try done;
    destruct w; simpl; try (intros ?; congruence); case_decide; simpl; congruence.
Qed.

(** The node a program point refers to. *)
Definition node_ref (p : pc) : option addr :=
  match p with
  | SendWake _ m a => if is_notifier m then None else Some a
  | SendQueue _ _ a | SendDone _ _ a _ | SendCopy _ a
  | RecvCount _ a _ | RepFin _ _ a | RepCopy _ _ a | RepWake _ a => Some a
  | _ => None
  end.

Lemma node_ok_frame s s' a g n :
  node_ok s a g n →
  (∀ u, server s (g_dest g) = Some u → server s' (g_dest g) = Some u) →
  (∀ u, node_ref (thr s u) = Some a → (∀ i m, thr s u ≠ RecvCount i a m) → moved (thr s u) (thr s' u)) →
  node_ok s' a g n.
Proof.
  intros Hok Hsrv Hthr.
  assert (Hsnd : sender_waits s g a → sender_waits s' g a).
  { intros Hw. destruct (is_notifier (g_req g)) eqn:Hnt; [by left|].
    destruct Hw as [H|[H|[w H]]]; [by left|right..];
      (destruct (Hthr (g_owner g)) as [Hm|(w' & Hm & _)]; [by rewrite H; simpl; rewrite ?Hnt|by rewrite H|..]); rewrite H in Hm; eauto. }
  assert (Hkeep : ∀ u p, thr s u = p → node_ref p = Some a → (∀ i m, p ≠ RecvCount i a m) →
                  (∀ w, set_phase p w = p) → thr s' u = p).
  { intros u p Hu Hr Hc Hp. destruct (Hthr u) as [Hm|(w' & Hm & _)]; rewrite Hu in *; [done..|].
    by rewrite Hm, Hp. }
  unfold node_ok in *. destruct (g_stage g).
  - destruct Hok as [-> Hu]. eauto.
  - destruct Hok as [-> Hu]. eauto.
  - destruct Hok as (-> & Hu & t & ? & Ht). split_and!; [done|auto|]. exists t. eauto.
  - destruct Hok as (-> & ? & Hu & t & ? & Ht). split_and!; [done|done|auto|]. exists t. eauto.
  - destruct Hok as (-> & ? & Hu & t & ? & Ht). split_and!; [done|done|auto|]. exists t. eauto.
  - destruct Hok as (-> & ? & [Hu|Hu]); eauto 6.
Qed.

(** The allowed changes of a node under a task that refers to it. *)
Definition stage_step (p' : pc) (o o' : option ghost) : Prop :=
  o' = o ∨
  ((∃ i m a, p' = SendWake i m a) ∨ (∃ i m a w, p' = SendDone i m a w)) ∧
  ∃ w i r st st', o = Some (mk_ghost w i r st) ∧ o' = Some (mk_ghost w i r st') ∧ st' ≠ SPosting ∧
    ((∃ j m a, p' = SendDone j m a WBlocked) → ∀ m, st' ≠ SAnswered m).

Definition is_waiting_send (p : pc) : bool :=
  match p with SendWake _ _ _ | SendDone _ _ _ _ => true | _ => false end.

Lemma stage_step_same p' o o' : stage_step p' o o' → is_waiting_send p' = false → o' = o.
Proof. intros [?|[[(?&?&?&->)|(?&?&?&?&->)] _]] ?; done. Qed.

Lemma stage_step_waiting p' t i m st o' :
  stage_step p' (Some (mk_ghost t i m st)) o' → st ≠ SPosting →
  ∃ st', o' = Some (mk_ghost t i m st') ∧ st' ≠ SPosting ∧
    ((∃ j m a, p' = SendDone j m a WBlocked) →
     (∀ m', st ≠ SAnswered m') → ∀ m', st' ≠ SAnswered m').
Proof.
  intros [->|[_ (t' & i' & r & st1 & st2 & [= <- <- <- <-] & -> & Hne & Hb)]] Hst.
  - exists st. auto.
  - exists st2. auto.
Qed.

Lemma thread_frame s s' G G' u :
  thread_ok s G u →
  moved (thr s u) (thr s' u) →
  (∀ j v, server s j = Some v → server s' j = Some v) →
  (∀ a, node_ref (thr s u) = Some a → stage_step (thr s' u) (G !! a) (G' !! a)) →
  (∀ i, thr s' u = RecvWait i WBlocked → (ep_state <$> ipc_ep_info s' !! i) = Some EP_STATE_RUNNING →
        ∃ v m a, thr s' v = SendWake i m a) →
  thread_ok s' G' u.
Proof.
  unfold thread_ok. intros Hok Hmv Hsrv HG Hwk.
  assert (Hsome : ∀ j, is_Some (server s j) → is_Some (server s' j)) by (intros j [v ?]; eauto).
  destruct (thr s u) eqn:Hp;
    (destruct Hmv as [Heq|(w' & Heq & Hw)]; simpl in Heq; rewrite Heq in *; simpl in *; auto);
    try (match type of Hp with _ = SendWake _ _ _ => idtac end;
         destruct Hok as [? Hok]; split; [by eauto|]; intros Hnt; rewrite Hnt in HG; specialize (Hok Hnt));
    try (specialize (HG _ eq_refl); try rewrite (stage_step_same _ _ _ HG eq_refl));
    try exact Hok; try (destruct Hok; split; by eauto).
  - destruct Hok as (st & Hst & Hne). rewrite Hst in HG.
    destruct (stage_step_waiting _ _ _ _ _ _ HG Hne) as (st' & ? & ? & _); eauto.
  - destruct Hok as (st & Hst & Hne). rewrite Hst in HG.
    destruct (stage_step_waiting _ _ _ _ _ _ HG Hne) as (st' & ? & ? & _); eauto.
  - destruct Hok as [Hn (st & Hst & Hne & Hb)]. split; [done|]. rewrite Hst in HG.
    destruct (stage_step_waiting _ _ _ _ _ _ HG Hne) as (st' & ? & ? & Hb').
    exists st'. split_and!; [done..|]. intros ->. eauto 10.
  - destruct Hok as [Hn (st & Hst & Hne & Hb)]. split; [done|]. rewrite Hst in HG.
    destruct (stage_step_waiting _ _ _ _ _ _ HG Hne) as (st' & ? & ? & Hb').
    exists st'. split_and!; [done..|]. intros ->. done.
  - destruct Hok as [? _]. split; [by eauto|]. intros ->. eauto.
Qed.

Lemma ep_frame s s' G G' i e :
  ep_ok s G i e →
  sent i (log s') = sent i (log s) →
  received i (log s') = received i (log s) →
  replied i (log s') = replied i (log s) →
  (∀ a o r, G' !! a = Some (mk_ghost o i r SQueued) ↔ G !! a = Some (mk_ghost o i r SQueued)) →
  (∀ u, ep_tsk e = Some u → serving_of i (thr s' u) = serving_of i (thr s u)) →
  ep_ok s' G' i e.
Proof.
  intros (Hf & Hnd & Hq & Hs) Hls Hlr Hlp HG Hv. unfold ep_ok. rewrite Hls, Hlr, Hlp.
  split_and!; [done|done| |].
  - intros a. rewrite Hq. by setoid_rewrite HG.
  - destruct (ep_tsk e) as [u|]; [|done]. by rewrite Hv.
Qed.

Lemma serving_moved i p p' : moved p p' → serving_of i p' = serving_of i p.
Proof. intros [->|(w & -> & _)]; [done|]. by destruct p. Qed.

Lemma goto_same t p s : thr (goto t p s) t = p.
Proof. apply fn_lookup_insert. Qed.

Lemma goto_other t p s u : u ≠ t → thr (goto t p s) u = thr s u.
Proof. intros. by apply fn_lookup_insert_ne. Qed.

Lemma server_lookup s i e : ipc_ep_info s !! i = Some e → server s i = ep_tsk e.
Proof. intros H. unfold server. by rewrite H. Qed.

(** A step that only moves its own task, between points that refer to the same
    nodes and see the endpoint in the same way. *)
Lemma inv_goto s G t p :
  inv s G →
  (∀ a g n, G !! a = Some g → nodes s !! a = Some n → node_ok s a g n →
            node_ref (thr s t) = Some a → node_ok (goto t p s) a g n) →
  (∀ i m a, thr s t ≠ SendWake i m a) →
  thread_ok (goto t p s) G t →
  (∀ i e, ipc_ep_info s !! i = Some e → ep_tsk e = Some t →
     server_ok (serving_of i (thr s t)) e (received i (log s)) (replied i (log s)) →
     server_ok (serving_of i p) e (received i (log s)) (replied i (log s))) →
  inv (goto t p s) G.
Proof.
  intros I Hnode Hnw Hth Hep. split; try apply I.
  - intros a g n Hg Hn. pose proof (inv_node _ _ I _ _ _ Hg Hn) as Hok.
    destruct (decide (node_ref (thr s t) = Some a)); [by eauto|].
    eapply node_ok_frame; [done|done|]. intros u Hu _. left. apply goto_other. congruence.
  - intros u. destruct (decide (u = t)) as [->|Hu]; [done|].
    eapply thread_frame; [apply (inv_thread _ _ I)| |done|by left|].
    + left. by apply goto_other.
    + intros i Hw Hst. rewrite goto_other in Hw by done.
      pose proof (inv_thread _ _ I u) as Hok. unfold thread_ok in Hok. rewrite Hw in Hok.
      destruct Hok as [_ Hok]. destruct (Hok eq_refl Hst) as (v & m & a & Hv).
      exists v, m, a. rewrite goto_other; [done|]. intros ->. by eapply Hnw.
  - intros i e He. pose proof (inv_ep _ _ I _ _ He) as Hok.
    destruct (decide (ep_tsk e = Some t)) as [Ht|Hne].
    + destruct Hok as (? & ? & ? & Hs). split_and!; [done..|]. rewrite Ht in *. rewrite goto_same. eauto.
    + eapply ep_frame; [done..|]. intros u Hu. rewrite goto_other by congruence. done.
Qed.

Lemma node_log_mono l l' a g : l ⊆ l' → node_log_ok l a g → node_log_ok l' a g.
Proof. unfold node_log_ok. intros ? [? H]. split; [done|]. destruct (g_stage g); set_solver. Qed.

Lemma event_mono l l' ev : l ⊆ l' → event_ok l ev → event_ok l' ev.
Proof. unfold event_ok. destruct ev; set_solver. Qed.

Definition ep_running (s : ipc) (i : nat) : Prop :=
  (ep_state <$> ipc_ep_info s !! i) = Some EP_STATE_RUNNING.

(** A step that also changes a node ([a0]), endpoints, or the log: what is left
    to show is about the node, the stepping task and the endpoints. *)
Section step.
Context (s s' : ipc) (G G' : gmap addr ghost) (t : tid) (a0 : option addr).
Context (I : inv s G).
Context (Hlen : length (ipc_ep_info s') = 4%nat).
Context (Hsrv : ∀ j v, server s j = Some v → server s' j = Some v).
Context (Hnext : ∀ a, is_Some (G' !! a) → (a < next s')%nat).
Context (Hrest : ∀ a, a0 ≠ Some a → G' !! a = G !! a ∧ nodes s' !! a = nodes s !! a).
Context (Hdom : ∀ a, a0 = Some a → is_Some (nodes s' !! a) ↔ is_Some (G' !! a)).
Context (Hmoved : ∀ u, u ≠ t → moved (thr s u) (thr s' u)).
Context (Href : ∀ a, node_ref (thr s t) = Some a → a0 = Some a).
Context (Hothers : ∀ a u, a0 = Some a → u ≠ t → node_ref (thr s u) = Some a →
                    stage_step (thr s' u) (G !! a) (G' !! a)).
Context (Hrun : ∀ i, ep_running s' i → ep_running s i ∨ ∃ m a, thr s' t = SendWake i m a).
Context (Hwake : ∀ i m a, thr s t = SendWake i m a → ∀ u, u ≠ t → thr s' u ≠ RecvWait i WBlocked).
Context (Hthread : thread_ok s' G' t).
Context (Hnode : ∀ a g n, a0 = Some a → G' !! a = Some g → nodes s' !! a = Some n →
                  node_ok s' a g n ∧ node_log_ok (log s') a g).
Context (Hlog : log s ⊆ log s').
Context (Hevent : ∀ ev, ev ∈ log s' → ev ∈ log s ∨ event_ok (log s') ev).
Context (Hep : ∀ i e, ipc_ep_info s' !! i = Some e → ep_ok s' G' i e).

Lemma moved_recv_blocked u i :
  u ≠ t → thr s' u = RecvWait i WBlocked → thr s u = RecvWait i WBlocked.
Proof using Hmoved.
  intros Hu Hw. destruct (Hmoved u Hu) as [<-|(w & Hm & Hne)]; [done|].
  destruct (thr s u); simpl in *; congruence.
Qed.

Lemma inv_update : inv s' G'.
Proof using All.
  split; [done|done| | | | |done|].
  - intros a. destruct (decide (a0 = Some a)); [eauto|].
    destruct (Hrest a) as [-> ->]; [done|]. apply I.
  - intros a g n Hg Hn. destruct (decide (a0 = Some a)) as [Ha|Ha]; [by edestruct Hnode|].
    destruct (Hrest a Ha) as [HG HN]. rewrite HG in Hg. rewrite HN in Hn.
    eapply node_ok_frame; [by apply (inv_node _ _ I)|auto|].
    intros u Hu _. destruct (decide (u = t)) as [->|]; [|auto]. exfalso. auto.
  - intros a g Hg. destruct (decide (a0 = Some a)) as [Ha|Ha].
    + destruct (proj2 (Hdom a Ha)) as [n Hn]; [by eexists|]. by eapply Hnode.
    + destruct (Hrest a Ha) as [HG _]. rewrite HG in Hg. eapply node_log_mono; [done|]. by apply I.
  - intros u. destruct (decide (u = t)) as [->|Hu]; [done|].
    eapply thread_frame; [apply (inv_thread _ _ I)|auto|auto| |].
    + intros a Ha. destruct (decide (a0 = Some a)); [eauto|]. left. by apply Hrest.
    + intros i Hw Hr. destruct (Hrun i Hr) as [Hold|(m & a & ?)]; [|eauto].
      pose proof (inv_thread _ _ I u) as Hok. unfold thread_ok in Hok.
      rewrite (moved_recv_blocked _ _ Hu Hw) in Hok. destruct Hok as [_ Hok].
      destruct (Hok eq_refl Hold) as (v & m & a & Hv).
      destruct (decide (v = t)) as [->|Hv']; [by destruct (Hwake i m a Hv u)|].
      exists v, m, a. destruct (Hmoved v Hv') as [->|(w & -> & _)]; by rewrite Hv.
  - intros ev Hev. destruct (Hevent ev Hev) as [Hin|]; [|done].
    eapply event_mono; [done|]. by apply I.
Qed.
End step.

(** ** The steps that only move their task *)

Lemma ep_at_lookup s z i e : ep_at s z = Some (i, e) → ipc_ep_info s !! i = Some e.
Proof.
  unfold ep_at. destruct (0 <=? z); [|done]. destruct (ipc_ep_info s !! Z.to_nat z) eqn:E; [|done].
  cbn. congruence.
Qed.

Lemma ep_at_in_range s G z :
  inv s G → 0 ≤ z → z ≠ ENDPOINT_END → (z >? ENDPOINT_END) = false → is_Some (ep_at s z).
Proof.
  intros I Hz Hne Hgt. unfold ep_at. rewrite (proj2 (Z.leb_le 0 z) Hz).
  rewrite Z.gtb_ltb in Hgt. apply Z.ltb_ge in Hgt. unfold ENDPOINT_END in *.
  destruct (lookup_lt_is_Some_2 (ipc_ep_info s) (Z.to_nat z)) as [e ->]; [rewrite (inv_len _ _ I); lia|].
  by eexists.
Qed.

Lemma inv_thread_at s G t p : inv s G → thr s t = p → thread_ok s G t.
Proof. intros I _. apply I. Qed.

(** The server of an endpoint sees it as its program point says. *)
Lemma inv_server s G i e t :
  inv s G → ipc_ep_info s !! i = Some e → ep_tsk e = Some t →
  server_ok (serving_of i (thr s t)) e (received i (log s)) (replied i (log s)).
Proof. intros I He Ht. destruct (inv_ep _ _ I _ _ He) as (_ & _ & _ & H). by rewrite Ht in H. Qed.

Ltac at_point I t H :=
  let Ht := fresh "Ht" in
  pose proof (inv_thread _ _ I t) as Ht; unfold thread_ok in Ht; rewrite H in Ht; cbn in Ht.

(** Close the goals of [inv_goto] for a task that refers to no node. *)
Ltac plain_goto H :=
  apply inv_goto; [done|by rewrite H|by rewrite H| |];
  [unfold thread_ok; rewrite goto_same; cbn|rewrite H; cbn].

Definition keeps (o : outcome) : Prop :=
  match o with Stuck => True | Crash => False | Next s => ∃ G, inv s G end.

Lemma keeps_goto s G t p : inv (goto t p s) G → keeps (Next (goto t p s)).
Proof. intros. by exists G. Qed.

Lemma keeps_ret s G t r m : inv s G → thr s t = Idle → keeps (Next (goto t (Ret r m) s)).
Proof. intros I H. exists G. plain_goto H; done. Qed.

Lemma keeps_send s G t dest m :
  inv s G → thr s t = Idle → 0 ≤ dest → dest ≠ ENDPOINT_END → keeps (__ipc_send t dest m s).
Proof.
  intros I H Hd Hne. unfold __ipc_send. destruct m as [m|]; [|by eapply keeps_ret].
  destruct (dest >? ENDPOINT_END) eqn:Hgt; [by eapply keeps_ret|].
  destruct (ep_at_in_range s G dest) as [[i e] He]; [done..|]. rewrite He.
  apply ep_at_lookup in He. exists G. destruct (ep_tsk e) as [u|] eqn:Hu; plain_goto H; try done.
  - change (server (goto t _ s) i) with (server s i). rewrite (server_lookup _ _ _ He), Hu. by eexists.
  - rewrite <-(inv_len _ _ I). by eapply lookup_lt_Some.
Qed.

Lemma keeps_server_checks s G t src m k :
  inv s G → thr s t = Idle → 0 ≤ src → src ≠ ENDPOINT_END →
  (∀ i e m', ipc_ep_info s !! i = Some e → ep_tsk e = Some t → keeps (k i e m')) →
  keeps (server_checks t src m s k).
Proof.
  intros I H Hd Hne Hk. unfold server_checks. destruct m as [m|]; [|by eapply keeps_ret].
  destruct (src >? ENDPOINT_END) eqn:Hgt; [by eapply keeps_ret|].
  destruct (ep_at_in_range s G src) as [[i e] He]; [done..|]. rewrite He.
  apply ep_at_lookup in He. destruct (ep_tsk e) as [u|] eqn:Hu; [|by eapply keeps_ret].
  case_decide; [subst; by apply Hk|by eapply keeps_ret].
Qed.

Lemma server_outside_entering e rc rp :
  server_ok Outside e rc rp → ipc_req_count e = 0 → server_ok Entering e rc rp.
Proof.
  intros [Hst [?|[? _]]] H0; [|lia]. split; [|done]. destruct Hst as [?|[_ ?]]; [by left|done].
Qed.

Lemma server_outside_answering e rc rp :
  server_ok Outside e rc rp → ipc_req_count e ≠ 0 → server_ok Answering e rc rp.
Proof.
  intros [Hst [[? _]|H1]] H0; [lia|]. split; [|done]. destruct Hst as [?|[_ ?]]; [by left|done].
Qed.

(** Entering the server side of endpoint [i] at point [p], seen as [v]. *)
Lemma keeps_enter s G t i e p v :
  inv s G → thr s t = Idle → ipc_ep_info s !! i = Some e → ep_tsk e = Some t →
  (p = RecvList i ∨ ∃ m, p = RepTake i m) →
  (∀ j, serving_of j p = if decide (j = i) then v else Outside) →
  (∀ rc rp, server_ok Outside e rc rp → server_ok v e rc rp) →
  keeps (Next (goto t p s)).
Proof.
  intros I H He Hu Hp Hv Hok. exists G. plain_goto H.
  - assert (server s i = Some t) by by rewrite (server_lookup _ _ _ He).
    destruct Hp as [->|[m ->]]; done.
  - intros j e' He' _ Hs. rewrite Hv. case_decide; [|done]. subst j. simplify_eq. auto.
Qed.

Lemma keeps_call s G t c :
  inv s G → 0 ≤ endpoint_arg c → endpoint_arg c ≠ ENDPOINT_END → keeps (ipc_call t c s).
Proof.
  intros I Hd Hne. unfold ipc_call. destruct (thr s t) eqn:H; try done.
  destruct c as [d m|d m|d m|d m]; cbn in *.
  - by eapply keeps_send.
  - destruct m as [m|]; [|by eapply keeps_ret]. by eapply keeps_send.
  - eapply keeps_server_checks; [done..|]. intros i e m' He Hu. cbn.
    destruct (Z.eqb_spec (ipc_req_count e) 0); [|by eapply keeps_ret].
    eapply (keeps_enter s G t i e _ Entering); try done; [by left| |].
    + intros j. cbn. case_decide; case_decide; congruence.
    + intros. by apply server_outside_entering.
  - eapply keeps_server_checks; [done..|]. intros i e m' He Hu. cbn.
    destruct (Z.eqb_spec (ipc_req_count e) 0); [by eapply keeps_ret|].
    eapply (keeps_enter s G t i e _ Answering); try done; [by right; eexists| |].
    + intros j. cbn. case_decide; case_decide; congruence.
    + intros. by apply server_outside_answering.
Qed.

Lemma with_ep_keeps s G i k :
  inv s G → (i < 4)%nat → (∀ e, ipc_ep_info s !! i = Some e → keeps (k e)) → keeps (with_ep s i k).
Proof.
  intros I Hi Hk. unfold with_ep.
  destruct (lookup_lt_is_Some_2 (ipc_ep_info s) i) as [e He]; [rewrite (inv_len _ _ I); lia|].
  rewrite He. auto.
Qed.

Lemma server_lt s G i u : inv s G → server s i = Some u → (i < 4)%nat.
Proof.
  intros I. unfold server. destruct (ipc_ep_info s !! i) eqn:E; [|done]. intros _.
  rewrite <-(inv_len _ _ I). by eapply lookup_lt_Some.
Qed.

Lemma is_server_lt s G i : inv s G → is_Some (server s i) → (i < 4)%nat.
Proof. intros I [u ?]. by eapply server_lt. Qed.

Lemma server_inv s i u : server s i = Some u → ∃ e, ipc_ep_info s !! i = Some e ∧ ep_tsk e = Some u.
Proof. unfold server. destruct (ipc_ep_info s !! i); cbn; [eauto|done]. Qed.

Lemma keeps_leave s G t : inv s G → keeps (ipc_step (ALeave t) s).
Proof.
  intros I. cbn. destruct (thr s t) eqn:H; try done. exists G. plain_goto H; done.
Qed.

(** An endpoint with no server is in its initial state. *)
Lemma running_has_server s G i e :
  inv s G → ipc_ep_info s !! i = Some e → ep_state e = EP_STATE_RUNNING → is_Some (ep_tsk e).
Proof.
  intros I He Hr. destruct (inv_ep _ _ I _ _ He) as (_ & _ & _ & Hs).
  destruct (ep_tsk e); [by eexists|]. destruct Hs as (_ & Hn & _). rewrite Hr in Hn. discriminate.
Qed.

Lemma keeps_send_ready s G t b i m w :
  inv s G → thr s t = SendReady i m w → keeps (with_ep s i (λ e, send_ready t i m w b e s)).
Proof.
  intros I H. at_point I t H. apply (with_ep_keeps s G); [done..|]. intros e He. unfold send_ready.
  assert (Hgo : ∀ w', keeps (Next (goto t (SendReady i m w') s))).
  { intros w'. exists G. plain_goto H; done. }
  assert (Hleave : ep_state e = EP_STATE_RUNNING → keeps (Next (goto t (SendAlloc i m) s))).
  { intros Hr. exists G. plain_goto H; [|done].
    change (server (goto t _ s) i) with (server s i). rewrite (server_lookup _ _ _ He).
    by eapply running_has_server. }
  unfold wait_event. destruct w as [| |woken|]; case_tests; auto.
  - destruct woken; auto.
  - destruct b; [|done]. exists G. plain_goto H; done.
Qed.

(** The server moves between two points of endpoint [i]. *)
Lemma keeps_server_move s G t i e p :
  inv s G → ipc_ep_info s !! i = Some e → ep_tsk e = Some t →
  node_ref (thr s t) = None →
  (∀ j m a, thr s t ≠ SendWake j m a) →
  thread_ok (goto t p s) G t →
  (∀ j, j ≠ i → serving_of j p = Outside ∧ serving_of j (thr s t) = Outside) →
  (∀ rc rp, server_ok (serving_of i (thr s t)) e rc rp → server_ok (serving_of i p) e rc rp) →
  keeps (Next (goto t p s)).
Proof.
  intros I He Hu Hr Hnw Hth Hj Hi. exists G. apply inv_goto; try done.
  - intros. congruence.
  - intros j e' He' _. destruct (decide (j = i)) as [->|Hne]; [simplify_eq; auto|].
    destruct (Hj j Hne) as [-> ->]. done.
Qed.

Ltac other_endpoint H := intros j Hj; rewrite H; cbn; rewrite ?decide_False by done; done.

Lemma keeps_recv_wait s G t i w :
  inv s G → thr s t = RecvWait i w → keeps (with_ep s i (λ e, recv_wait t i w e s)).
Proof.
  intros I H. at_point I t H. destruct Ht as [Hsv Hpend].
  apply (with_ep_keeps s G); [done|by eapply server_lt|]. intros e He.
  rewrite (server_lookup _ _ _ He) in Hsv. unfold recv_wait.
  assert (Hgo : ∀ w', (w' = WBlocked → ep_state e ≠ EP_STATE_RUNNING) →
                keeps (Next (goto t (RecvWait i w') s))).
  { intros w' Hw. eapply keeps_server_move; try done; [by rewrite H|by rewrite H| | |].
    - unfold thread_ok. rewrite goto_same. change (server (goto t _ s) i) with (server s i).
      rewrite (server_lookup _ _ _ He). split; [done|]. intros Hb Hst. cbn in Hst. rewrite He in Hst.
      injection Hst as Hst. by destruct (Hw Hb).
    - other_endpoint H.
    - by rewrite H. }
  assert (Hleave : ep_state e = EP_STATE_RUNNING → keeps (Next (goto t (RecvTake i) s))).
  { intros Hr. eapply keeps_server_move; try done; [by rewrite H|by rewrite H| | |].
    - unfold thread_ok. rewrite goto_same. change (server (goto t _ s) i) with (server s i).
      by rewrite (server_lookup _ _ _ He).
    - other_endpoint H.
    - rewrite H. cbn. rewrite !decide_True by done. intros rc rp [_ (? & ? & Hl)].
      split; [by left|]. tauto. }
  unfold wait_event. destruct w; case_tests; try done; auto; try (by apply Hgo).
  destruct woken; by apply Hgo.
Qed.

Lemma keeps_recv_take s G t i :
  inv s G → thr s t = RecvTake i → keeps (with_ep s i (λ e, recv_take t i e s)).
Proof.
  intros I H. at_point I t H. apply (with_ep_keeps s G); [done|by eapply server_lt|]. intros e He.
  rewrite (server_lookup _ _ _ He) in Ht. unfold recv_take.
  pose proof (inv_server _ _ _ _ _ I He Ht) as Hs. rewrite H in Hs. cbn in Hs.
  rewrite decide_True in Hs by done. destruct (ep_list e) as [|a l] eqn:Hl.
  { by destruct Hs as (_ & _ & _ & []). }
  eapply keeps_server_move; try done; [by rewrite H|by rewrite H| | |].
  - unfold thread_ok. rewrite goto_same. change (server (goto t _ s) i) with (server s i).
    by rewrite (server_lookup _ _ _ He).
  - other_endpoint H.
  - rewrite H. cbn. rewrite !decide_True by done. intros rc rp ([?|[_ ?]] & ? & ? & _); [|done].
    split; [by left|]. eauto.
Qed.

(** The node at the head of a queue is live and still holds the request. *)
Lemma queued_node s G i e a :
  inv s G → ipc_ep_info s !! i = Some e → a ∈ ep_list e →
  ∃ o r, G !! a = Some (mk_ghost o i r SQueued) ∧ nodes s !! a = Some (mk_node 0 r).
Proof.
  intros I He Ha. destruct (inv_ep _ _ I _ _ He) as (_ & _ & Hq & _).
  apply Hq in Ha as (o & r & Hg). exists o, r. split; [done|].
  destruct (proj2 (inv_dom _ _ I a)) as [n Hn]; [by eexists|].
  pose proof (inv_node _ _ I _ _ _ Hg Hn) as [-> _]. done.
Qed.

Lemma keeps_recv_copy s G t i a :
  inv s G → thr s t = RecvCopy i a → keeps (recv_copy t i a s).
Proof.
  intros I H. at_point I t H. destruct (server_inv _ _ _ Ht) as (e & He & Hu).
  pose proof (inv_server _ _ _ _ _ I He Hu) as Hs. rewrite H in Hs. cbn in Hs.
  rewrite decide_True in Hs by done. destruct Hs as (_ & _ & _ & l & Hl).
  destruct (queued_node s G i e a) as (o & r & Hg & Hn); [done..|rewrite Hl; left|].
  unfold recv_copy. rewrite Hn. eapply keeps_server_move; try done; [by rewrite H|by rewrite H| | |].
  - unfold thread_ok. rewrite goto_same. split; [done|]. eauto.
  - other_endpoint H.
  - rewrite H. done.
Qed.

Ltac gcbn := cbn [g_owner g_dest g_req g_stage] in *.

(** A node whose [is_finish] is set outside the window is answered. *)
Lemma node_finished s G a g n :
  inv s G → G !! a = Some g → nodes s !! a = Some n → ¬ reply_window s a → g_stage g ≠ SPosting →
  (is_finish n = 0 ∧ ∀ m, g_stage g ≠ SAnswered m) ∨ (is_finish n = 1 ∧ g_stage g = SAnswered (n_m n)).
Proof.
  intros I Hg Hn Hw Hp. pose proof (inv_node _ _ I _ _ _ Hg Hn) as Hok. unfold node_ok in Hok.
  destruct (g_stage g); try done.
  - left. by destruct Hok as [-> _].
  - left. by destruct Hok as [-> _].
  - destruct Hw. destruct Hok as (_ & _ & _ & u & _ & Hu). exists u. eauto.
  - destruct Hw. destruct Hok as (_ & _ & _ & u & _ & Hu). exists u, (g_dest g), m. auto.
  - right. by destruct Hok as [-> _].
Qed.

Lemma keeps_send_done s G t i m a w :
  inv s G → thr s t = SendDone i m a w → ¬ reply_window s a → keeps (send_done t i m a w s).
Proof.
  intros I H Hwin. at_point I t H. destruct Ht as (Hnn & st & Hg & Hst & Hb).
  destruct (proj2 (inv_dom _ _ I a)) as [n Hn]; [by eexists|]. unfold send_done. rewrite Hn.
  pose proof (node_finished _ _ _ _ _ I Hg Hn Hwin Hst) as Hfin.
  assert (Hgo : ∀ w', (w' = WBlocked → ∀ m', st ≠ SAnswered m') → keeps (Next (goto t (SendDone i m a w') s))).
  { intros w' Hw'. exists G. apply inv_goto; [done| |by rewrite H| |].
    - rewrite H. intros a' g' n' Hg' _ Hok [= <-]. simplify_eq.
      assert (Hsnd : sender_waits (goto t (SendDone i m a w') s) (mk_ghost t i m st) a).
      { right; right. exists w'. gcbn. by rewrite goto_same. }
      assert (Hsrv : ∀ u p, thr s u = p → (∀ j m a w, p ≠ SendDone j m a w) →
                     thr (goto t (SendDone i m a w') s) u = p).
      { intros u p Hu Hp. rewrite goto_other; [done|]. intros ->. by eapply Hp; rewrite <-Hu. }
      unfold node_ok in *. gcbn. destruct st; try done.
      + by destruct Hok as [-> _].
      + destruct Hok as (-> & _ & u & ? & Hu). split_and!; [done..|]. exists u. eauto.
      + destruct Hok as (-> & ? & _ & u & ? & Hu). split_and!; [done..|]. exists u. eauto.
      + destruct Hok as (-> & ? & _ & u & ? & Hu). split_and!; [done..|]. exists u. eauto.
      + destruct Hok as (-> & ? & _). auto.
    - unfold thread_ok. rewrite goto_same. eauto 6.
    - rewrite H. done. }
  cbn in Hfin. destruct Hfin as [[Hf Hna]|[Hf ->]]; rewrite Hf; cbn.
  - unfold wait_event. destruct w as [| |[]|]; cbn; auto; try done; by apply Hgo.
  - assert (Hleave : keeps (Next (goto t (SendCopy i a) s))).
    { exists G. apply inv_goto; [done| |by rewrite H| |].
      - rewrite H. intros a' g' n' Hg' _ Hok [= <-]. simplify_eq. unfold node_ok in *. gcbn.
        destruct Hok as (-> & ? & _). split_and!; [done..|]. right. by rewrite goto_same.
      - unfold thread_ok. rewrite goto_same. eauto.
      - rewrite H. done. }
    unfold wait_event. destruct w as [| |?|]; cbn; auto; try done. by apply Hgo.
Qed.

(** ** The steps that change nodes, endpoints or the log *)

Lemma sent_cons i ev l :
  sent i (ev :: l) =
  sent i l ++ match ev with ESend _ j a _ => if decide (j = i) then [a] else [] | _ => [] end.
Proof.
  unfold sent. destruct ev; simpl; rewrite ?app_nil_r; try done.
  case_decide; simpl; by rewrite ?reverse_cons, ?app_nil_r.
Qed.

Lemma received_cons i ev l :
  received i (ev :: l) =
  received i l ++ match ev with EReceive j a _ => if decide (j = i) then [a] else [] | _ => [] end.
Proof.
  unfold received. destruct ev; simpl; rewrite ?app_nil_r; try done.
  case_decide; simpl; by rewrite ?reverse_cons, ?app_nil_r.
Qed.

Lemma replied_cons i ev l :
  replied i (ev :: l) =
  replied i l ++ match ev with EReply j a _ => if decide (j = i) then [a] else [] | _ => [] end.
Proof.
  unfold replied. destruct ev; simpl; rewrite ?app_nil_r; try done.
  case_decide; simpl; by rewrite ?reverse_cons, ?app_nil_r.
Qed.

Lemma fresh_node s G : inv s G → G !! next s = None.
Proof.
  intros I. destruct (G !! next s) eqn:E; [|done].
  pose proof (inv_next _ _ I (next s) (mk_is_Some _ _ E)). lia.
Qed.

(** A program point that refers to a node refers to a live one. *)
Lemma ref_live s G u a : inv s G → node_ref (thr s u) = Some a → is_Some (G !! a).
Proof.
  intros I Hr. pose proof (inv_thread _ _ I u) as Ht. unfold thread_ok in Ht.
  destruct (thr s u); simplify_eq/=; try (destruct (is_notifier m) eqn:?; simplify_eq/=);
    destruct_and?; try naive_solver.
Qed.

Lemma keeps_send_alloc s G t b i m :
  inv s G → thr s t = SendAlloc i m → keeps (send_alloc t i m b s).
Proof.
  intros I H. at_point I t H. destruct b; cbn; [|exists G; plain_goto H; done].
  pose proof (fresh_node _ _ I) as Hf. set (m' := set_m_source (pid s t) m). set (a := next s) in *.
  exists (<[a:=mk_ghost t i m' SPosting]> G).
  eapply (inv_update s _ G _ t (Some a)); try done; cbn [ipc_ep_info next log nodes goto set_ep].
  - apply I.
  - intros a' Ha'. destruct (decide (a' = a)) as [->|]; [lia|]. rewrite lookup_insert_ne in Ha' by done.
    pose proof (inv_next _ _ I a' Ha'). lia.
  - intros a' Hne. rewrite !lookup_insert_ne by congruence. done.
  - intros a' [= <-]. rewrite !lookup_insert_eq. split; by eexists.
  - intros u Hu. left. by apply fn_lookup_insert_ne.
  - by rewrite H.
  - intros a' u [= <-] Hu Hr. destruct (ref_live _ _ _ _ I Hr) as [? ?]. congruence.
  - intros j Hr. by left.
  - by rewrite H.
  - unfold thread_ok. cbn. rewrite fn_lookup_insert. split; [done|]. by rewrite lookup_insert_eq.
  - intros a' g n [= <-]. rewrite !lookup_insert_eq. intros [= <-] [= <-].
    split; [|split; [by eapply is_server_lt|done]].
    unfold node_ok. gcbn. split; [done|]. cbn. by rewrite fn_lookup_insert.
  - intros ev Hev. by left.
  - intros j e He. eapply ep_frame; [by apply (inv_ep _ _ I)|done..| |].
    + intros a' o r. destruct (decide (a' = a)) as [->|]; [|by rewrite lookup_insert_ne].
      rewrite lookup_insert_eq, Hf. split; [intros [=]|done].
    + intros u Hu. cbn. destruct (decide (u = t)) as [->|]; [|by rewrite fn_lookup_insert_ne].
      rewrite fn_lookup_insert, H. done.
Qed.

Lemma recv_count_queued s G u i a m :
  inv s G → thr s u = RecvCount i a m → ∃ o r, G !! a = Some (mk_ghost o i r SQueued).
Proof.
  intros I H. at_point I u H. destruct Ht as [Ht _]. destruct (server_inv _ _ _ Ht) as (e & He & Hu).
  pose proof (inv_server _ _ _ _ _ I He Hu) as Hs. rewrite H in Hs. cbn in Hs.
  rewrite decide_True in Hs by done. destruct Hs as (_ & _ & _ & l & Hl).
  destruct (queued_node s G i e a) as (o & r & Hg & _); [done..|rewrite Hl; left|]. eauto.
Qed.

(** Who can refer to a node, by its stage. *)
Lemma ref_posting s G u a t i m :
  inv s G → node_ref (thr s u) = Some a → G !! a = Some (mk_ghost t i m SPosting) → u = t.
Proof.
  intros I Hr Hg. pose proof (inv_thread _ _ I u) as Ht. unfold thread_ok in Ht.
  destruct (thr s u) eqn:H; simplify_eq/=; try (destruct (is_notifier m0) eqn:?; simplify_eq/=);
    destruct_and?; destruct_ex; simplify_eq; try done; try naive_solver.
  all: destruct (recv_count_queued _ _ _ _ _ _ I H) as (? & ? & ?); simplify_eq.
Qed.

Lemma server_ok_append v e rc rp a :
  server_ok v e rc rp →
  server_ok v (ep_set_state EP_STATE_RUNNING (ep_set_list (ep_list e ++ [a]) e)) rc rp.
Proof.
  intros [_ Hv]. split; [by left|]. destruct v; cbn in *; try done.
  - destruct Hv as [?|(? & b & l & -> & ?)]; [by left|right]. split; [done|].
    exists b, (l ++ [a]). done.
  - destruct Hv as (? & ? & ?). split_and!; [done..|]. split; [|done]. intros _.
    by destruct (ep_list e).
  - destruct Hv as (? & ? & ?). split_and!; [done..|]. by destruct (ep_list e).
  - destruct Hv as (? & ? & l & ->). split_and!; [done..|]. by exists (l ++ [a]).
  - destruct Hv as (? & b & l & -> & ?). split; [done|]. by exists b, (l ++ [a]).
Qed.

Lemma server_set_ep s i e e' j v :
  ipc_ep_info s !! i = Some e → ep_tsk e' = ep_tsk e → server (set_ep i e' s) j = Some v ↔ server s j = Some v.
Proof.
  intros He Ht. unfold server, set_ep. cbn. destruct (decide (j = i)) as [->|].
  - rewrite He, list_lookup_insert_eq by (by eapply lookup_lt_Some). cbn. by rewrite Ht.
  - by rewrite list_lookup_insert_ne.
Qed.

Lemma set_ep_lookup s i e e' j f :
  ipc_ep_info s !! i = Some e → <[i:=e']> (ipc_ep_info s) !! j = Some f →
  (j = i ∧ f = e') ∨ (j ≠ i ∧ ipc_ep_info s !! j = Some f).
Proof.
  intros He. destruct (decide (j = i)) as [->|].
  - rewrite list_lookup_insert_eq by (by eapply lookup_lt_Some). intros [= ->]. by left.
  - rewrite list_lookup_insert_ne by done. by right.
Qed.

(** The step changes one endpoint, whose queue holds all nodes it moves. *)
Section ep_step.
Context (s s' : ipc) (G G' : gmap addr ghost) (t : tid) (a0 : option addr).
Context (i : nat) (e e' : endpoint_info).
Context (I : inv s G).
Context (He : ipc_ep_info s !! i = Some e).
Context (He' : ipc_ep_info s' = <[i:=e']> (ipc_ep_info s)).
Context (Htsk : ep_tsk e' = ep_tsk e).
Context (Hstate : ep_state e' = EP_STATE_RUNNING →
                  ep_state e = EP_STATE_RUNNING ∨ ∃ m a, thr s' t = SendWake i m a).
Context (Hnext : ∀ a, is_Some (G' !! a) → (a < next s')%nat).
Context (Hrest : ∀ a, a0 ≠ Some a → G' !! a = G !! a ∧ nodes s' !! a = nodes s !! a).
Context (Hdom : ∀ a, a0 = Some a → is_Some (nodes s' !! a) ↔ is_Some (G' !! a)).
Context (Hmoved : ∀ u, u ≠ t → moved (thr s u) (thr s' u)).
Context (Href : ∀ a, node_ref (thr s t) = Some a → a0 = Some a).
Context (Hothers : ∀ a u, a0 = Some a → u ≠ t → node_ref (thr s u) = Some a →
                    stage_step (thr s' u) (G !! a) (G' !! a)).
Context (Hwake : ∀ i m a, thr s t = SendWake i m a → ∀ u, u ≠ t → thr s' u ≠ RecvWait i WBlocked).
Context (Hthread : (∀ j v, server s' j = Some v ↔ server s j = Some v) → thread_ok s' G' t).
Context (Hnode : ∀ a g n, a0 = Some a → G' !! a = Some g → nodes s' !! a = Some n →
                  (∀ j v, server s' j = Some v ↔ server s j = Some v) →
                  node_ok s' a g n ∧ node_log_ok (log s') a g).
Context (Hlog : log s ⊆ log s').
Context (Hevent : ∀ ev, ev ∈ log s' → ev ∈ log s ∨ event_ok (log s') ev).
Context (Hqueue : ∀ j a o r, j ≠ i →
          G' !! a = Some (mk_ghost o j r SQueued) ↔ G !! a = Some (mk_ghost o j r SQueued)).
Context (Hlogs : ∀ j, j ≠ i → sent j (log s') = sent j (log s) ∧
          received j (log s') = received j (log s) ∧ replied j (log s') = replied j (log s)).
Context (Hserve : ∀ j, j ≠ i → serving_of j (thr s' t) = serving_of j (thr s t)).
Context (Hmine : ep_ok s' G' i e').

Lemma inv_ep_update : inv s' G'.
Proof using All.
  assert (Hsrv : ∀ j v, server s' j = Some v ↔ server s j = Some v).
  { intros j v. rewrite <-(server_set_ep s i e e' j v He Htsk). unfold server. by rewrite He'. }
  eapply (inv_update s s' G G' t a0); try done; auto.
  - rewrite He', length_insert. apply I.
  - intros j v. by rewrite Hsrv.
  - unfold ep_running. intros j. rewrite He'. intros Hr. destruct (decide (j = i)) as [->|].
    + rewrite list_lookup_insert_eq in Hr by (by eapply lookup_lt_Some). injection Hr as Hr.
      destruct (Hstate Hr) as [Hst|]; [left|by right]. rewrite He. cbn. by rewrite Hst.
    + left. by rewrite list_lookup_insert_ne in Hr.
  - intros j f. rewrite He'. intros Hf. apply (set_ep_lookup s i e) in Hf as [[-> ->]|[Hj Hf]]; try done.
    destruct (Hlogs j Hj) as (? & ? & ?). eapply ep_frame; [by apply (inv_ep _ _ I)|done..| |].
    + intros. by apply Hqueue.
    + intros v Hv. destruct (decide (v = t)) as [->|]; [by apply Hserve|].
      apply serving_moved. by apply Hmoved.
Qed.
End ep_step.

Definition is_held (st : stage) : bool :=
  match st with SHeld _ | SFinishing _ | SCopied _ => true | _ => false end.

(** A node taken off the queue is known to its server and its waiting sender. *)
Lemma ref_held s G t u a o i r st :
  inv s G → server s i = Some t → G !! a = Some (mk_ghost o i r st) → is_held st = true →
  u ≠ t → node_ref (thr s u) = Some a → is_waiting_send (thr s u) = true ∧ is_notifier r = false.
Proof.
  intros I Hsv Hg Hh Hu Hr. pose proof (inv_thread _ _ I u) as Ht. unfold thread_ok in Ht.
  destruct (thr s u) eqn:H; simplify_eq/=; try done.
  - destruct Ht as [_ Hg']. by simplify_eq.
  - destruct (is_notifier m) eqn:Hm; [done|]. simplify_eq. destruct Ht as [_ Ht].
    destruct (Ht eq_refl) as (? & ? & ?). simplify_eq. done.
  - destruct Ht as (? & ? & ? & ?). by simplify_eq.
  - destruct Ht as (? & ? & ?). by simplify_eq.
  - destruct (recv_count_queued _ _ _ _ _ _ I H) as (? & ? & ?). by simplify_eq.
  - destruct Ht as (? & ? & ? & ?). by simplify_eq.
  - destruct Ht as (? & ? & ? & ?). by simplify_eq.
  - destruct Ht as (? & ? & ? & ? & ?). by simplify_eq.
Qed.

(** A waiting sender may see any of the later stages, unless it is switched out. *)
Lemma stage_step_later p p' o i r st st' :
  moved p p' → is_waiting_send p = true → st' ≠ SPosting →
  ((∃ j m a, p' = SendDone j m a WBlocked) → ∀ m, st' ≠ SAnswered m) →
  stage_step p' (Some (mk_ghost o i r st)) (Some (mk_ghost o i r st')).
Proof.
  intros Hm Hp Hst Hb. right. split.
  - destruct Hm as [->|(w & -> & _)]; destruct p; try done; cbn; eauto 8.
  - exists o, i, r, st, st'. done.
Qed.

Lemma goto_thr t p s s1 u : thr s1 = thr s → u ≠ t → thr (goto t p s1) u = thr s u.
Proof. intros <- ?. by apply goto_other. Qed.

Lemma moved_goto t p s s1 u : thr s1 = thr s → u ≠ t → moved (thr s u) (thr (goto t p s1) u).
Proof. intros <- ?. left. by apply goto_other. Qed.

Section stage_change.
Context (s s' : ipc) (G : gmap addr ghost) (t : tid) (a : addr).
Context (o : tid) (i : nat) (r : message) (st st' : stage) (n' : ipc_mess_node).
#[local] Abbreviation G' := (<[a:=mk_ghost o i r st']> G).
Context (I : inv s G).
Context (Hg : G !! a = Some (mk_ghost o i r st)).
Context (Hheld : is_held st = true) (Hst' : st' ≠ SPosting ∧ st' ≠ SQueued).
Context (Heps : ipc_ep_info s' = ipc_ep_info s) (Hnx : next s' = next s).
Context (Hlg : log s' = log s) (Hnd : nodes s' = <[a:=n']> (nodes s)).
Context (Hsv : server s i = Some t).
Context (Hmv : ∀ u, u ≠ t → moved (thr s u) (thr s' u)).
Context (Hrf : node_ref (thr s t) = Some a) (Hnw : is_waiting_send (thr s t) = false).
Context (Hblk : ∀ m u, st' = SAnswered m → u ≠ t →
                 node_ref (thr s u) = Some a → ∀ j m a, thr s' u ≠ SendDone j m a WBlocked).
Context (Hsrv : ∀ j, serving_of j (thr s' t) = serving_of j (thr s t)).
Context (Hth : thread_ok s' G' t).
Context (Hno : node_ok s' a (mk_ghost o i r st') n').
Context (Hnl : node_log_ok (log s) a (mk_ghost o i r st')).

Lemma inv_stage : inv s' G'.
Proof using All.
  destruct (server_inv _ _ _ Hsv) as (e & He & Htk).
  assert (Hq : ∀ j a' w q, G' !! a' = Some (mk_ghost w j q SQueued) ↔ G !! a' = Some (mk_ghost w j q SQueued)).
  { intros j a' w q. destruct (decide (a' = a)) as [->|]; [|by rewrite lookup_insert_ne].
    rewrite lookup_insert_eq, Hg. split; intros [= -> -> -> ->]; [by destruct Hst'|done]. }
  assert (Hsame : ∀ j, serving_of j (thr s' t) = serving_of j (thr s t)) by done.
  eapply (inv_ep_update s s' G G' t (Some a) i e e); try done; auto.
  - by rewrite Heps, list_insert_id.
  - rewrite Hnx. intros a' Ha'. apply (inv_next _ _ I). destruct (decide (a' = a)) as [->|]; [by eexists|].
    by rewrite lookup_insert_ne in Ha'.
  - intros a' Hne. rewrite Hnd, !lookup_insert_ne by congruence. done.
  - intros a' [= <-]. rewrite Hnd, !lookup_insert_eq. split; by eexists.
  - intros a' [= <-]%(eq_trans (eq_sym Hrf)). done.
  - intros a' u [= <-] Hu Hr. rewrite Hg, lookup_insert_eq.
    destruct (ref_held s G t u a o i r st) as [Hw _]; [done..|].
    apply (stage_step_later (thr s u)); [auto|done|by destruct Hst'|].
    intros (j & m & b & Hb) m' ->. by eapply Hblk.
  - intros j m b Hw. rewrite Hw in Hnw. done.
  - intros a' g n [= <-]. rewrite Hnd, !lookup_insert_eq. intros [= <-] [= <-] _.
    by rewrite Hlg.
  - by rewrite Hlg.
  - rewrite Hlg. auto.
  - intros j _. by rewrite Hlg.
  - eapply ep_frame; [by apply (inv_ep _ _ I)|by rewrite Hlg..| |].
    + intros. apply Hq.
    + intros u Hu. simplify_eq. auto.
Qed.
End stage_change.

(** The node a server holds. *)
Lemma held_node s G a g :
  inv s G → G !! a = Some g → ∃ n, nodes s !! a = Some n ∧ node_ok s a g n ∧ node_log_ok (log s) a g.
Proof.
  intros I Hg. destruct (proj2 (inv_dom _ _ I a)) as [n Hn]; [by eexists|]. exists n.
  split_and!; [done|by apply I|by apply I].
Qed.

Lemma sender_waits_mono s s' g a t :
  sender_waits s g a → is_waiting_send (thr s t) = false →
  (∀ u, u ≠ t → moved (thr s u) (thr s' u)) → sender_waits s' g a.
Proof.
  intros [?|[Hw|[w Hw]]] Ht Hm; [by left|right..];
    (destruct (decide (g_owner g = t)) as [<-|Hne]; [by rewrite Hw in Ht|]);
    destruct (Hm _ Hne) as [->|(w' & -> & _)]; rewrite Hw; cbn; eauto.
Qed.

Lemma keeps_rep_copy s G t i m a :
  inv s G → thr s t = RepCopy i m a → keeps (rep_copy t i m a s).
Proof.
  intros I H. at_point I t H. destruct Ht as (Hsv & o & r & Hg).
  destruct (held_node _ _ _ _ I Hg) as (n & Hn & Hok & Hlg). unfold rep_copy. rewrite Hn.
  unfold node_ok in Hok. gcbn. destruct Hok as (-> & Hnr & Hsw & _).
  eexists. eapply (inv_stage s _ G t a o i r _ (SCopied m)); try done; try (by rewrite H).
  - intros u Hu. by apply moved_goto.
  - intros j. rewrite goto_same, H. done.
  - unfold thread_ok. rewrite goto_same. split; [done|]. exists o, r, m. by rewrite lookup_insert_eq.
  - unfold node_ok. gcbn. split_and!; [done|done| |].
    + eapply (sender_waits_mono s); [done|by rewrite H|]. intros. by apply moved_goto.
    + exists t. rewrite goto_same. done.
Qed.

Lemma keeps_rep_wake s G t i a :
  inv s G → thr s t = RepWake i a → keeps (rep_wake t i a s).
Proof.
  intros I H. at_point I t H. destruct Ht as (Hsv & o & r & m & Hg).
  destruct (held_node _ _ _ _ I Hg) as (n & Hn & Hok & Hlg). unfold rep_wake. rewrite Hn.
  unfold node_ok in Hok. gcbn. destruct Hok as (-> & Hnr & Hsw & _).
  assert (Hmv : ∀ u, u ≠ t → moved (thr s u) (thr (goto t (RepCount i) (wake_up (QNode a) s)) u)).
  { intros u Hu. rewrite goto_other by done. apply wake_moved. }
  eexists. eapply (inv_stage s _ G t a o i r _ (SAnswered m)); try done; try (by rewrite H).
  - cbn. by rewrite insert_id.
  - intros m' u _ Hu Hr j q b. rewrite goto_other by done. cbn. intros Hw.
    destruct (ref_held s G t u a o i r (SCopied m)) as [Hwt _]; try done.
    pose proof (wake_not_blocked (QNode a) (thr s u)) as Hb. rewrite Hw in Hb. cbn in Hb. destruct Hb.
    destruct (wake_moved (QNode a) (thr s u)) as [Heq|(w & Heq & Hwb)]; rewrite Heq in Hw.
    + rewrite Hw in Hr. cbn in Hr. congruence.
    + destruct (thr s u); cbn in *; congruence.
  - intros j. rewrite goto_same, H. done.
  - unfold thread_ok. by rewrite goto_same.
  - unfold node_ok. gcbn. split_and!; [done|done|]. left.
    eapply (sender_waits_mono s); [done|by rewrite H|done].
Qed.

(** A node leaves the heap. *)
Lemma inv_delete s s' G t a o i r st :
  inv s G → G !! a = Some (mk_ghost o i r st) → st ≠ SQueued →
  ipc_ep_info s' = ipc_ep_info s → next s' = next s → nodes s' = delete a (nodes s) →
  (log s' = log s ∨ ∃ u m, log s' = EReturn u a m :: log s ∧ event_ok (log s) (EReturn u a m)) →
  (∀ u, u ≠ t → thr s' u = thr s u) →
  node_ref (thr s t) = Some a → is_waiting_send (thr s t) = false →
  (∀ u, u ≠ t → node_ref (thr s u) ≠ Some a) →
  (∀ j, serving_of j (thr s' t) = serving_of j (thr s t)) →
  (∀ G', thread_ok s' G' t) →
  inv s' (delete a G).
Proof.
  intros I Hg Hst Heps Hnx Hnd Hlg Hmv Hrf Hnw Hnone Hserve Hth.
  destruct (lookup_lt_is_Some_2 (ipc_ep_info s) 0) as [e He]; [rewrite (inv_len _ _ I); lia|].
  assert (Hlogs : ∀ j, sent j (log s') = sent j (log s) ∧
     received j (log s') = received j (log s) ∧ replied j (log s') = replied j (log s)).
  { intros j. destruct Hlg as [->|(u & m & -> & _)]; [done|].
    by rewrite sent_cons, received_cons, replied_cons, !app_nil_r. }
  assert (Hq : ∀ j a' w q, delete a G !! a' = Some (mk_ghost w j q SQueued) ↔ G !! a' = Some (mk_ghost w j q SQueued)).
  { intros j a' w q. destruct (decide (a' = a)) as [->|]; [|by rewrite lookup_delete_ne].
    rewrite lookup_delete_eq, Hg. split; [done|]. intros [= -> -> -> ->]. done. }
  eapply (inv_ep_update s s' G _ t (Some a) 0%nat e e); try done; auto.
  - by rewrite Heps, list_insert_id.
  - rewrite Hnx. intros a' Ha'. apply (inv_next _ _ I).
    destruct (decide (a' = a)) as [->|]; [by eexists|]. by rewrite lookup_delete_ne in Ha'.
  - intros a' Hne. rewrite Hnd, !lookup_delete_ne by congruence. done.
  - intros a' [= <-]. rewrite Hnd, !lookup_delete_eq. split; intros []; done.
  - intros u Hu. left. auto.
  - intros a' [= <-]%(eq_trans (eq_sym Hrf)). done.
  - intros a' u [= <-] Hu Hr. by destruct (Hnone u Hu).
  - intros j m b Hw. by rewrite Hw in Hnw.
  - intros a' g n [= <-]. by rewrite lookup_delete_eq.
  - destruct Hlg as [->|(u & m & -> & _)]; set_solver.
  - destruct Hlg as [->|(u & m & -> & Hev)]; [auto|]. intros ev [->|]%elem_of_cons; [right|by left].
    eapply event_mono; [|done]. set_solver.
  - destruct (Hlogs 0%nat) as (? & ? & ?). eapply ep_frame; [by apply (inv_ep _ _ I)|done..| |].
    + intros. apply Hq.
    + intros u Hu. destruct (decide (u = t)) as [->|]; [auto|]. by rewrite Hmv.
Qed.

Lemma keeps_rep_fin s G t i m a :
  inv s G → thr s t = RepFin i m a → keeps (rep_fin t i m a s).
Proof.
  intros I H. at_point I t H. destruct Ht as (Hsv & o & r & Hg).
  destruct (held_node _ _ _ _ I Hg) as (n & Hn & Hok & Hlg). unfold rep_fin. rewrite Hn.
  unfold node_ok in Hok. gcbn. destruct Hok as (-> & Hsw & _). cbn [n_m].
  destruct (is_notifier r) eqn:Hr.
  - exists (delete a G). eapply (inv_delete s _ G t a o i r (SHeld m)); try done; try (by rewrite H).
    + by left.
    + intros u Hu. by apply goto_thr.
    + intros u Hu Href. destruct (ref_held s G t u a o i r (SHeld m)) as [_ ?]; [done..|congruence].
    + intros j. rewrite goto_same, H. done.
    + intros G'. unfold thread_ok. by rewrite goto_same.
  - eexists. eapply (inv_stage s _ G t a o i r _ (SFinishing m)); try done; try (by rewrite H).
    + intros u Hu. by apply moved_goto.
    + intros j. rewrite goto_same, H. done.
    + unfold thread_ok. rewrite goto_same. split; [done|]. exists o, r. by rewrite lookup_insert_eq.
    + unfold node_ok. gcbn. split_and!; [done|done| |].
      * eapply (sender_waits_mono s); [done|by rewrite H|]. intros. by apply moved_goto.
      * exists t. rewrite goto_same. done.
Qed.

Lemma ref_answered s G u a o i r m :
  inv s G → node_ref (thr s u) = Some a → G !! a = Some (mk_ghost o i r (SAnswered m)) → u = o.
Proof.
  intros I Hr Hg. pose proof (inv_thread _ _ I u) as Ht. unfold thread_ok in Ht.
  destruct (thr s u) eqn:H; simplify_eq/=; try done.
  - destruct Ht as [_ Hg']. by simplify_eq.
  - destruct (is_notifier m0) eqn:Hm; [done|]. simplify_eq. destruct Ht as [_ Ht].
    destruct (Ht eq_refl) as (? & ? & ?). by simplify_eq.
  - destruct Ht as (? & ? & ? & ?). by simplify_eq.
  - destruct Ht as (? & ? & ?). by simplify_eq.
  - destruct (recv_count_queued _ _ _ _ _ _ I H) as (? & ? & ?). by simplify_eq.
  - destruct Ht as (? & ? & ? & ?). by simplify_eq.
  - destruct Ht as (? & ? & ? & ?). by simplify_eq.
  - destruct Ht as (? & ? & ? & ? & ?). by simplify_eq.
Qed.

Lemma keeps_send_copy s G t i a : inv s G → thr s t = SendCopy i a → keeps (send_copy t a s).
Proof.
  intros I H. at_point I t H. destruct Ht as (r & m & Hg).
  destruct (held_node _ _ _ _ I Hg) as (n & Hn & Hok & Hlg). unfold send_copy. rewrite Hn.
  unfold node_ok in Hok. unfold node_log_ok in Hlg. gcbn. destruct Hok as (-> & _). cbn [n_m].
  exists (delete a G). eapply (inv_delete s _ G t a t i r (SAnswered m)); try done; try (by rewrite H).
  - right. exists t, m. split; [done|]. exists i, r. apply Hlg.
  - intros u Hu. by apply goto_thr.
  - intros u Hu Hr. by destruct Hu; eapply ref_answered.
  - intros j. rewrite goto_same, H. done.
  - intros G'. unfold thread_ok. by rewrite goto_same.
Qed.

Lemma send_posted_outside i m a j : serving_of j (send_posted i m a) = Outside.
Proof. unfold send_posted. by destruct (is_notifier m). Qed.

Lemma ghost_insert_next s G a g :
  inv s G → is_Some (G !! a) → ∀ b, is_Some (<[a:=g]> G !! b) → (b < next s)%nat.
Proof.
  intros I Ha b Hb. apply (inv_next _ _ I). destruct (decide (b = a)) as [->|]; [done|].
  by rewrite lookup_insert_ne in Hb.
Qed.

(** Changing the stage of one node of endpoint [i] leaves the other queues. *)
Lemma queue_other (G : gmap addr ghost) a o i r st st' j b w q :
  G !! a = Some (mk_ghost o i r st) → j ≠ i →
  <[a:=mk_ghost o i r st']> G !! b = Some (mk_ghost w j q SQueued) ↔
  G !! b = Some (mk_ghost w j q SQueued).
Proof.
  intros Hg Hj. destruct (decide (b = a)) as [->|]; [|by rewrite lookup_insert_ne].
  rewrite lookup_insert_eq, Hg. split; intros [=]; congruence.
Qed.

Lemma inv_send_queue s G t i m a e p :
  inv s G → thr s t = SendQueue i m a → ipc_ep_info s !! i = Some e →
  (p = SendWake i m a ∨ p = send_posted i m a ∧ ep_state e = EP_STATE_RUNNING) →
  inv (goto t p (set_ep i (ep_set_state EP_STATE_RUNNING (ep_set_list (ep_list e ++ [a]) e))
                   (emit (ESend t i a m) s)))
      (<[a:=mk_ghost t i m SQueued]> G).
Proof.
  intros I H He Hp. at_point I t H. destruct Ht as [[u Hu] Hg].
  set (e' := ep_set_state _ _). set (s' := goto _ _ _).
  assert (Hpt : thr s' t = p) by apply goto_same.
  assert (Hpv : ∀ j, serving_of j p = Outside).
  { intros j. destruct Hp as [->|[-> _]]; [done|]. apply send_posted_outside. }
  destruct (inv_ep _ _ I _ _ He) as (Hsent & Hnd & Hq & Hs).
  assert (Hna : a ∉ ep_list e) by (rewrite Hq; intros (? & ? & ?); simplify_eq).
  assert (Hthr : ∀ v, v ≠ t → thr s' v = thr s v) by (intros; by apply goto_thr).
  eapply (inv_ep_update s s' G _ t (Some a) i e e'); try done.
  - intros _. rewrite Hpt. destruct Hp as [->|[_ ?]]; eauto.
  - apply (ghost_insert_next s G a _ I). by eexists.
  - intros b Hne. rewrite lookup_insert_ne by congruence. done.
  - intros b [= <-]. rewrite lookup_insert_eq. cbn. rewrite (inv_dom _ _ I), Hg. split; by eexists.
  - intros v Hv. left. auto.
  - rewrite H. cbn. congruence.
  - intros b v [= <-] Hv Hr. by destruct Hv; eapply ref_posting.
  - by rewrite H.
  - intros Hsrv. unfold thread_ok. rewrite Hpt.
    assert (is_Some (server s' i)) by (exists u; by apply Hsrv).
    destruct Hp as [->|[-> _]]; [|unfold send_posted; destruct (is_notifier m) eqn:Hnm; [done|]].
    + split; [done|]. intros _. exists SQueued. by rewrite lookup_insert_eq.
    + split; [done|]. exists SQueued. by rewrite lookup_insert_eq.
  - intros b g n [= <-]. rewrite lookup_insert_eq. intros [= <-] Hn _.
    pose proof (inv_node _ _ I _ _ _ Hg Hn) as [-> _]. gcbn.
    split; [|split; [apply (inv_nlog _ _ I _ _ Hg)|gcbn; left]]. unfold node_ok. gcbn. split; [done|].
    unfold sender_waits. gcbn. rewrite Hpt. destruct Hp as [->|[-> _]]; [auto|].
    unfold send_posted. destruct (is_notifier m); eauto.
  - cbn. set_solver.
  - cbn. intros ev. rewrite elem_of_cons. intros [->|]; [right; done|by left].
  - intros j b o r Hj. by eapply queue_other.
  - intros j Hj. change (log s') with (ESend t i a m :: log s). rewrite sent_cons, received_cons, replied_cons, decide_False, !app_nil_r by done. done.
  - intros j _. by rewrite Hpt, Hpv, H.
  - unfold ep_ok. change (log s') with (ESend t i a m :: log s). rewrite sent_cons, received_cons, replied_cons, !app_nil_r.
    rewrite decide_True by done. split_and!.
    + by rewrite Hsent, <-app_assoc.
    + cbn. apply NoDup_app. split_and!; [done|set_solver|apply NoDup_singleton].
    + intros b. cbn. rewrite elem_of_app, list_elem_of_singleton, Hq.
      destruct (decide (b = a)) as [->|Hne]; [rewrite lookup_insert_eq|rewrite lookup_insert_ne by done].
      * split; [eauto|auto].
      * split; [intros [?|?]; [done|done]|auto].
    + cbn. rewrite (server_lookup _ _ _ He) in Hu. rewrite Hu in *. destruct (decide (u = t)) as [->|].
      * rewrite fn_lookup_insert, Hpv. rewrite H in Hs. by apply server_ok_append.
      * rewrite fn_lookup_insert_ne by done. by apply server_ok_append.
Qed.

Lemma keeps_send_queue s G t i m a :
  inv s G → thr s t = SendQueue i m a → keeps (with_ep s i (λ e, send_queue t i m a e s)).
Proof.
  intros I H. at_point I t H. destruct Ht as [Hsv Hg].
  apply (with_ep_keeps s G); [done|by eapply is_server_lt|]. intros e He. unfold send_queue. cbn [ep_state ep_set_list].
  destruct (Z.eqb_spec (ep_state e) EP_STATE_WAITTING) as [Hw|Hw]; eexists.
  - apply (inv_send_queue s G); auto.
  - assert (Hr : ep_state e = EP_STATE_RUNNING).
    { destruct (inv_ep _ _ I _ _ He) as (_ & _ & _ & Hs). destruct Hsv as [u Hu].
      rewrite (server_lookup _ _ _ He) in Hu. rewrite Hu in Hs. destruct Hs as [[?|[? _]] _]; done. }
    assert (ep_set_list (ep_list e ++ [a]) e =
            ep_set_state EP_STATE_RUNNING (ep_set_list (ep_list e ++ [a]) e)) as ->.
    { unfold ep_set_state, ep_set_list. by rewrite Hr. }
    apply (inv_send_queue s G); auto.
Qed.

(** The server of [i] changes its endpoint and touches no node. *)
Lemma inv_server_ep s s' G t i e e' p :
  inv s G → ipc_ep_info s !! i = Some e → ep_tsk e = Some t →
  ipc_ep_info s' = <[i:=e']> (ipc_ep_info s) → ep_tsk e' = Some t → ep_list e' = ep_list e →
  (ep_state e' = EP_STATE_RUNNING → ep_state e = EP_STATE_RUNNING) →
  nodes s' = nodes s → next s' = next s →
  (log s' = log s ∨ ∃ a m, log s' = EReceive i a m :: log s ∧ event_ok (log s) (EReceive i a m)) →
  (∀ u, u ≠ t → thr s' u = thr s u) → thr s' t = p →
  (∀ a, node_ref (thr s t) = Some a → ∃ j m, thr s t = RecvCount j a m) →
  (∀ j m a, thr s t ≠ SendWake j m a) →
  ((∀ j v, server s' j = Some v ↔ server s j = Some v) → thread_ok s' G t) →
  (∀ j, j ≠ i → serving_of j p = serving_of j (thr s t)) →
  server_ok (serving_of i p) e' (received i (log s')) (replied i (log s)) →
  inv s' G.
Proof.
  intros I He Ht Heps Ht' Hl Hst Hnd Hnx Hlg Hmv Hp Hrf Hnw Hth Hj Hs.
  assert (Hlogs : ∀ j, sent j (log s') = sent j (log s) ∧ replied j (log s') = replied j (log s) ∧
     (j ≠ i → received j (log s') = received j (log s))).
  { intros j. destruct Hlg as [->|(a & m & -> & _)]; [done|].
    rewrite sent_cons, received_cons, replied_cons, !app_nil_r. split_and!; [done..|].
    intros. by rewrite decide_False, app_nil_r. }
  eapply (inv_ep_update s s' G G t (node_ref (thr s t)) i e e'); try done; auto.
  - congruence.
  - rewrite Hnx. apply I.
  - by rewrite Hnd.
  - intros a _. rewrite Hnd. apply I.
  - intros u Hu. left. auto.
  - intros a u _ Hu Hr. by left.
  - intros j m a Hw. by destruct (Hnw j m a).
  - intros a g n Ha Hg Hn Hsrv. rewrite Hnd in Hn. split.
    + eapply (node_ok_frame s); [by apply (inv_node _ _ I)|by intros; apply Hsrv|].
      intros u Hu Hnc. destruct (decide (u = t)) as [->|]; [|left; auto].
      destruct (Hrf a Hu) as (j & m & Hc). by destruct (Hnc j m).
    + eapply node_log_mono; [|by apply I]. destruct Hlg as [->|(? & ? & -> & _)]; set_solver.
  - destruct Hlg as [->|(? & ? & -> & _)]; set_solver.
  - destruct Hlg as [->|(? & ? & -> & Hev)]; [auto|]. intros ev [->|]%elem_of_cons; [right|by left].
    eapply event_mono; [|done]. set_solver.
  - intros j Hne. destruct (Hlogs j) as (? & ? & ?). auto.
  - rewrite Hp. auto.
  - destruct (inv_ep _ _ I _ _ He) as (Hsent & Hn & Hq & _). unfold ep_ok.
    destruct (Hlogs i) as (-> & -> & _). rewrite Hl, Ht', Hp. done.
Qed.

Lemma keeps_recv_list s G t i :
  inv s G → thr s t = RecvList i → keeps (with_ep s i (λ e, recv_list t i e s)).
Proof.
  intros I H. at_point I t H. apply (with_ep_keeps s G); [done|by eapply server_lt|]. intros e He.
  pose proof Ht as Hsv. rewrite (server_lookup _ _ _ He) in Ht. unfold recv_list.
  pose proof (inv_server _ _ _ _ _ I He Ht) as Hs. rewrite H in Hs. cbn in Hs.
  rewrite decide_True in Hs by done. destruct Hs as [Hst (Hc & Hrc)].
  destruct (ep_list e) as [|a l] eqn:Hl.
  - exists G. eapply (inv_server_ep s _ G t i e (ep_set_state EP_STATE_WAITTING e)); try done.
    + by left.
    + intros u Hu. by apply goto_thr.
    + by rewrite H.
    + by rewrite H.
    + intros Hsrv. unfold thread_ok. rewrite goto_same. split; [by apply Hsrv|done].
    + intros j Hj. rewrite goto_same, H. cbn. rewrite !decide_False by done. done.
    + rewrite goto_same. cbn. rewrite decide_True by done. split; [by right|]. cbn.
      split_and!; [done..|]. split; [done|]. by rewrite Hl.
  - eapply keeps_server_move; try done; [by rewrite H|by rewrite H| | |].
    + unfold thread_ok. by rewrite goto_same.
    + other_endpoint H.
    + rewrite H. cbn. rewrite !decide_True by done. intros rc rp [[?|[_ ?]] (? & ?)]; [|done].
      split; [by left|]. by rewrite Hl.
Qed.

Lemma keeps_recv_count s G t i a m :
  inv s G → thr s t = RecvCount i a m → keeps (with_ep s i (λ e, recv_count t i a m e s)).
Proof.
  intros I H. at_point I t H. destruct Ht as (Ht & g & Hg & <-).
  apply (with_ep_keeps s G); [done|by eapply server_lt|]. intros e He.
  rewrite (server_lookup _ _ _ He) in Ht. unfold recv_count.
  pose proof (inv_server _ _ _ _ _ I He Ht) as Hs. rewrite H in Hs. cbn in Hs.
  rewrite decide_True in Hs by done. destruct Hs as [Hst (Hc & Hrc & l & Hl)].
  destruct (recv_count_queued _ _ _ _ _ _ I H) as (o & r & Hq). simplify_eq. gcbn.
  exists G. eapply (inv_server_ep s _ G t i e (ep_set_count (u32 (ipc_req_count e + 1)) e)); try done.
  - right. exists a, r. split; [done|]. exists o. apply (proj2 (inv_nlog _ _ I _ _ Hg)).
  - intros u Hu. by apply goto_thr.
  - rewrite H. cbn. intros b [= <-]. eauto.
  - by rewrite H.
  - intros Hsrv. unfold thread_ok. by rewrite goto_same.
  - intros j Hj. rewrite goto_same, H. cbn. rewrite decide_False by done. done.
  - rewrite goto_same. cbn [log goto emit set_ep]. rewrite received_cons, decide_True, Hc by done.
    split; [destruct Hst as [?|[_ ?]]; [by left|done]|]. right. split; [done|]. exists a, l.
    split; [done|]. by rewrite Hrc.
Qed.

Lemma keeps_rep_count s G t i :
  inv s G → thr s t = RepCount i → keeps (with_ep s i (λ e, rep_count t i e s)).
Proof.
  intros I H. at_point I t H. apply (with_ep_keeps s G); [done|by eapply server_lt|]. intros e He.
  rewrite (server_lookup _ _ _ He) in Ht. unfold rep_count.
  pose proof (inv_server _ _ _ _ _ I He Ht) as Hs. rewrite H in Hs. cbn in Hs.
  rewrite decide_True in Hs by done. destruct Hs as [Hst (Hc & Hrc)].
  exists G. eapply (inv_server_ep s _ G t i e (ep_set_count (u32 (ipc_req_count e - 1)) e)); try done.
  - by left.
  - intros u Hu. by apply goto_thr.
  - by rewrite H.
  - by rewrite H.
  - intros Hsrv. unfold thread_ok. by rewrite goto_same.
  - intros j Hj. rewrite goto_same, H. cbn. rewrite decide_False by done. done.
  - rewrite goto_same. cbn. rewrite Hc. split; [destruct Hst as [?|[_ ?]]; [by left|done]|]. by left.
Qed.

Lemma ref_queued s G t u a o i r :
  inv s G → server s i = Some t → G !! a = Some (mk_ghost o i r SQueued) →
  u ≠ t → node_ref (thr s u) = Some a → is_waiting_send (thr s u) = true.
Proof.
  intros I Hsv Hg Hu Hr. pose proof (inv_thread _ _ I u) as Ht. unfold thread_ok in Ht.
  destruct (thr s u) eqn:H; simplify_eq/=; try done.
  - destruct Ht as [_ Hg']. by simplify_eq.
  - destruct Ht as (? & ? & ?). by simplify_eq.
  - destruct (recv_count_queued _ _ _ _ _ _ I H) as (? & ? & ?). simplify_eq.
    destruct Ht as [Ht _]. by simplify_eq.
  - destruct Ht as (? & ? & ? & ?). by simplify_eq.
  - destruct Ht as (? & ? & ? & ?). by simplify_eq.
  - destruct Ht as (? & ? & ? & ? & ?). by simplify_eq.
Qed.

Lemma keeps_rep_take s G t i m :
  inv s G → thr s t = RepTake i m → keeps (with_ep s i (λ e, rep_take t i m e s)).
Proof.
  intros I H. at_point I t H. apply (with_ep_keeps s G); [done|by eapply server_lt|]. intros e He.
  pose proof Ht as Hsv. rewrite (server_lookup _ _ _ He) in Ht. unfold rep_take.
  pose proof (inv_server _ _ _ _ _ I He Ht) as Hs. rewrite H in Hs. cbn in Hs.
  rewrite decide_True in Hs by done. destruct Hs as [Hst (Hc & a & l & Hl & Hrc)]. rewrite Hl.
  destruct (queued_node s G i e a) as (o & r & Hg & Hn); [done..|rewrite Hl; left|].
  destruct (inv_ep _ _ I _ _ He) as (Hsent & Hnd & Hq & _). rewrite Hl in Hsent, Hnd.
  apply NoDup_cons in Hnd as [Hal Hnd].
  pose proof (inv_node _ _ I _ _ _ Hg Hn) as [_ Hsw]. gcbn.
  exists (<[a:=mk_ghost o i r (SHeld m)]> G). set (s' := goto _ _ _).
  assert (Hpt : thr s' t = RepFin i m a) by apply goto_same.
  assert (Hthr : ∀ v, v ≠ t → thr s' v = thr s v) by (intros; by apply goto_thr).
  eapply (inv_ep_update s s' G _ t (Some a) i e (ep_set_list l e)); try done; auto.
  - apply (ghost_insert_next s G a _ I). by eexists.
  - intros b Hne. rewrite lookup_insert_ne by congruence. done.
  - intros b [= <-]. rewrite lookup_insert_eq. cbn. rewrite (inv_dom _ _ I), Hg. split; by eexists.
  - intros v Hv. left. auto.
  - by rewrite H.
  - intros b u [= <-] Hu Hr. rewrite Hg, lookup_insert_eq.
    apply (stage_step_later (thr s u)); [left; auto| |done|done]. by eapply ref_queued.
  - by rewrite H.
  - intros Hsrv. unfold thread_ok. rewrite Hpt. split; [by apply Hsrv|].
    exists o, r. by rewrite lookup_insert_eq.
  - intros b g n [= <-]. rewrite lookup_insert_eq. intros [= <-] Hn' Hsrv. cbn in Hn'.
    rewrite Hn in Hn'. injection Hn' as <-. split.
    + unfold node_ok. gcbn. split_and!; [done| |].
      * eapply (sender_waits_mono s); [exact Hsw|by rewrite H|]. intros. left. auto.
      * exists t. split; [by apply Hsrv|done].
    + pose proof (inv_nlog _ _ I _ _ Hg) as [Hd Hlg]. split; [done|]. gcbn. split; [by right|left].
  - cbn. set_solver.
  - cbn. intros ev. rewrite elem_of_cons. intros [->|]; [right; done|by left].
  - intros j b w q Hj. by eapply queue_other.
  - intros j Hj. change (log s') with (EReply i a m :: log s).
    rewrite sent_cons, received_cons, replied_cons, decide_False, !app_nil_r by done. done.
  - intros j Hj. rewrite Hpt, H. cbn. by rewrite !decide_False.
  - unfold ep_ok. change (log s') with (EReply i a m :: log s).
    rewrite sent_cons, received_cons, replied_cons, !app_nil_r. rewrite decide_True by done. split_and!.
    + by rewrite Hsent, <-app_assoc.
    + done.
    + intros b. cbn. destruct (decide (b = a)) as [->|Hne].
      * rewrite lookup_insert_eq. split; [done|]. intros (? & ? & ?). simplify_eq.
      * rewrite lookup_insert_ne, <-Hq, Hl by done. rewrite elem_of_cons. naive_solver.
    + cbn [ep_tsk ep_set_list]. rewrite Ht, Hpt. cbn. rewrite decide_True by done.
      split; [destruct Hst as [?|[_ ?]]; [by left|done]|]. done.
Qed.

Lemma keeps_send_wake s G t i m a :
  inv s G → thr s t = SendWake i m a → keeps (Next (goto t (send_posted i m a) (wake_up (QEp i) s))).
Proof.
  intros I H. at_point I t H. destruct Ht as [[u Hu] Hg]. set (s' := goto _ _ _).
  assert (Hpt : thr s' t = send_posted i m a) by apply goto_same.
  assert (Hmv : ∀ v, v ≠ t → moved (thr s v) (thr s' v)).
  { intros v Hv. unfold s'. rewrite goto_other by done. apply wake_moved. }
  destruct (server_inv _ _ _ Hu) as (e & He & Htk).
  exists G. eapply (inv_ep_update s s' G G t (node_ref (thr s t)) i e e); try done; auto.
  - by rewrite list_insert_id.
  - apply I.
  - intros b _. apply I.
  - intros b v _ Hv Hr. by left.
  - intros j m' b Hw v Hv Hr. rewrite H in Hw. injection Hw as -> -> ->.
    unfold s' in Hr. rewrite goto_other in Hr by done. cbn in Hr.
    pose proof (wake_not_blocked (QEp j) (thr s v)) as Hb. rewrite Hr in Hb. done.
  - intros _. unfold thread_ok. rewrite Hpt. unfold send_posted.
    destruct (is_notifier m) eqn:Hm; [done|].
    destruct (Hg eq_refl) as (st & Hst & Hne). split; [done|]. exists st. done.
  - rewrite H. cbn. intros b g n. destruct (is_notifier m) eqn:Hm; [done|].
    intros [= <-] Hg' Hn _. destruct (Hg eq_refl) as (st & Hst & Hne). simplify_eq.
    split; [|by apply I]. pose proof (inv_node _ _ I _ _ _ Hg' Hn) as Hok.
    assert (Hsw : sender_waits s' (mk_ghost t i m st) a).
    { right; right. gcbn. rewrite Hpt. unfold send_posted. rewrite Hm. eauto. }
    assert (Hkeep : ∀ v p, thr s v = p → (∀ w, set_phase p w = p) → p ≠ SendWake i m a → thr s' v = p).
    { intros v p Hv Hp Hp'. destruct (Hmv v) as [->|(w & -> & _)]; [congruence|done|].
      by rewrite Hv, Hp. }
    unfold node_ok in *. gcbn. destruct st; try done.
    + by destruct Hok as [-> _].
    + destruct Hok as (-> & _ & v & ? & Hv). split_and!; [done..|]. exists v. eauto.
    + destruct Hok as (-> & ? & _ & v & ? & Hv). split_and!; [done..|]. exists v. eauto.
    + destruct Hok as (-> & ? & _ & v & ? & Hv). split_and!; [done..|]. exists v. eauto.
    + destruct Hok as (-> & ? & _). auto.
  - intros j _. rewrite Hpt, send_posted_outside, H. done.
  - eapply ep_frame; [by apply (inv_ep _ _ I)|done..|]. intros v Hv.
    destruct (decide (v = t)) as [->|]; [by rewrite Hpt, send_posted_outside, H|].
    by apply serving_moved, Hmv.
Qed.

Lemma serving_server s G t i : inv s G → serving_of i (thr s t) ≠ Outside → server s i = Some t.
Proof.
  intros I Hv. pose proof (inv_thread _ _ I t) as Ht. unfold thread_ok in Ht.
  destruct (thr s t); cbn in *; try done; destruct (decide (i0 = i)) as [->|]; first [done|apply Ht].
Qed.

Lemma register_scan_inr eps k comm i :
  register_scan eps k comm = inr i →
  ∃ e, (k ≤ i)%nat ∧ eps !! (i - k)%nat = Some e ∧ ep_tsk e = None ∧ ep_name e = comm.
Proof.
  revert k. induction eps as [|e eps IH]; intros k; cbn; [done|].
  destruct (_ && _) eqn:Hm; [destruct (ep_tsk e) eqn:Ht; [done|]; intros [= <-]|].
  - exists e. rewrite Nat.sub_diag. apply andb_prop in Hm as [_ Hn%String.eqb_eq]. done.
  - intros (e' & Hk & He & ?)%IH. exists e'. split; [lia|].
    replace (i - k)%nat with (S (i - S k)) by lia. done.
Qed.

Lemma inv_register s G tsk : inv s G → inv (snd (ipc_register_endpoint_by_tsk tsk s)) G.
Proof.
  intros I. destruct tsk as [[t comm]|]; cbn; [|done].
  destruct (register_scan _ 0 comm) as [|i] eqn:Hscan; [done|].
  apply register_scan_inr in Hscan as (e & _ & He & Htk & _). rewrite Nat.sub_0_r in He.
  rewrite He. cbn. set (e' := ep_set_state _ _). set (s' := wake_up _ _).
  destruct (inv_ep _ _ I _ _ He) as (Hsent & Hnd & Hq & Hs). rewrite Htk in Hs.
  destruct Hs as (Hc & Hst & Hl & Hrc & Hrp).
  assert (Hlk : ∀ j, j ≠ i → ipc_ep_info s' !! j = ipc_ep_info s !! j).
  { intros j Hj. cbn. by rewrite list_lookup_insert_ne. }
  assert (Hsrv : ∀ j v, server s j = Some v → server s' j = Some v).
  { intros j v Hv. destruct (decide (j = i)) as [->|Hj].
    - rewrite (server_lookup _ _ _ He), Htk in Hv. done.
    - unfold server in *. by rewrite Hlk. }
  split; try apply I.
  - cbn. rewrite length_insert. apply I.
  - intros a g n Hg Hn. eapply node_ok_frame; [by apply (inv_node _ _ I)|auto|].
    intros u _ _. apply wake_moved.
  - intros u. eapply thread_frame; [apply (inv_thread _ _ I)|apply wake_moved|done|by left|].
    intros j Hw Hr. pose proof (wake_not_blocked (QEp i) (thr s u)) as Hb.
    change (thr s' u) with (wake_pc (QEp i) (thr s u)) in Hw. rewrite Hw in Hb. cbn in Hb.
    destruct (decide (j = i)) as [->|Hj]; [done|]. rewrite Hlk in Hr by done.
    assert (thr s u = RecvWait j WBlocked) as Hold.
    { destruct (wake_moved (QEp i) (thr s u)) as [Heq|(w & Heq & Hne)]; rewrite Heq in Hw; [done|].
      destruct (thr s u); cbn in Hw; congruence. }
    at_point I u Hold. destruct Ht as [_ Ht]. destruct (Ht eq_refl Hr) as (v & m & a & Hv).
    exists v, m, a. cbn. rewrite Hv. done.
  - intros j f Hf. destruct (decide (j = i)) as [->|Hj].
    + cbn in Hf. rewrite list_lookup_insert_eq in Hf by (by eapply lookup_lt_Some). injection Hf as <-.
      split_and!; [done..|]. cbn [ep_tsk e' ep_set_state ep_set_tsk].
      change (thr s' t) with (wake_pc (QEp i) (thr s t)). rewrite (serving_moved i _ _ (wake_moved _ _)).
      destruct (decide (serving_of i (thr s t) = Outside)) as [->|Hne].
      * change (log s') with (log s). rewrite Hrc, Hrp. split; [by left|]. by left.
      * apply (serving_server _ _ _ _ I) in Hne. rewrite (server_lookup _ _ _ He) in Hne. congruence.
    + rewrite Hlk in Hf by done. eapply ep_frame; [by apply (inv_ep _ _ I)|done..|].
      intros u Hu. apply serving_moved, wake_moved.
Qed.

Lemma keeps_inside s G t b :
  inv s G → admissible s (AStep t b) → keeps (step_inside t b s).
Proof.
  intros I Ha. unfold step_inside. cbn in Ha. destruct (thr s t) eqn:H; try done.
  - by eapply keeps_send_ready.
  - by eapply keeps_send_alloc.
  - by eapply keeps_send_queue.
  - by eapply keeps_send_wake.
  - by eapply keeps_send_done.
  - by eapply keeps_send_copy.
  - by eapply keeps_recv_list.
  - by eapply keeps_recv_wait.
  - by eapply keeps_recv_take.
  - by eapply keeps_recv_copy.
  - by eapply keeps_recv_count.
  - by eapply keeps_rep_take.
  - by eapply keeps_rep_fin.
  - by eapply keeps_rep_copy.
  - by eapply keeps_rep_wake.
  - by eapply keeps_rep_count.
Qed.

Lemma keeps_step s G act : inv s G → admissible s act → keeps (ipc_step act s).
Proof.
  intros I Ha. destruct act as [t c|t b|t|tsk].
  - destruct Ha. by eapply keeps_call.
  - by eapply keeps_inside.
  - by eapply keeps_leave.
  - exists G. by apply inv_register.
Qed.

Lemma inv_boot pids : inv (ipc_boot pids) ∅.
Proof.
  split; cbn.
  - done.
  - intros a [? H]. by rewrite lookup_empty in H.
  - intros a. by rewrite !lookup_empty.
  - intros a g n H. by rewrite lookup_empty in H.
  - intros a g H. by rewrite lookup_empty in H.
  - intros t. done.
  - intros i e He. do 4 (destruct i as [|i]; [injection He as <-; split_and!; try done; [constructor|];
      intros a; cbn; split; [by intros ?%elem_of_nil|intros (? & ? & H); by rewrite lookup_empty in H]|]).
    done.
  - intros ev ?%elem_of_nil. done.
Qed.

Lemma reachable_inv pids s : reachable pids s → ∃ G, inv s G.
Proof.
  induction 1 as [|s act s' _ [G I] Ha Hs]; [eexists; apply inv_boot|].
  pose proof (keeps_step _ _ _ I Ha) as Hk. by rewrite Hs in Hk.
Qed.
