(* ===== verification/IpcProps.v ===== *)
(** * What the IPC code guarantees

    Theorems about every run of the machine of [Ipc] (see [reachable] in
    [IpcFacts]), with concrete runs as witnesses, and the two ways the code can
    crash outside those runs. *)
From stdpp Require Import gmap functions.
From S2P Require Import Prelude Ipc IpcFacts.

(** ** The history of sends *)

(** Every node is queued once, under the identity of the task that sent it. *)
Record history (s : ipc) : Prop := {
  h_sent : ∀ i a, a ∈ sent i (log s) → (a < next s)%nat;
  h_posting : ∀ t i m a, thr s t = SendQueue i m a →
    (a < next s)%nat ∧ m_source m = pid s t ∧ ∀ j, a ∉ sent j (log s);
  h_nodup : ∀ i, NoDup (sent i (log s));
  h_source : ∀ t i a m, ESend t i a m ∈ log s → m_source m = pid s t }.

(** A step that neither queues nor allocates keeps the history. *)
Lemma history_frame s s' :
  history s → next s' = next s → pid s' = pid s →
  (∀ t i m a, thr s' t = SendQueue i m a → thr s t = SendQueue i m a) →
  (log s' = log s ∨ ∃ ev, log s' = ev :: log s ∧ ∀ t i a m, ev ≠ ESend t i a m) →
  history s'.
Proof.
  intros H Hnx Hpid Hq Hlg.
  assert (Hsent : ∀ i, sent i (log s') = sent i (log s)).
  { intros i. destruct Hlg as [->|(ev & -> & Hev)]; [done|]. rewrite sent_cons.
    destruct ev; rewrite ?app_nil_r; try done. by edestruct Hev. }
  split.
  - intros i a. rewrite Hsent, Hnx. apply H.
  - intros t i m a Ht%Hq. rewrite Hnx, Hpid. setoid_rewrite Hsent. by eapply H.
  - intros i. rewrite Hsent. apply H.
  - intros t i a m Hin. rewrite Hpid. destruct Hlg as [Hl|(ev & Hl & Hev)]; rewrite Hl in Hin.
    + by eapply (h_source _ H).
    + apply elem_of_cons in Hin as [Heq|Hin]; [by destruct (Hev t i a m)|by eapply (h_source _ H)].
Qed.

Lemma goto_queue t p s u i m a :
  (∀ i m a, p ≠ SendQueue i m a) → thr (goto t p s) u = SendQueue i m a → thr s u = SendQueue i m a.
Proof.
  intros Hp. destruct (decide (u = t)) as [->|]; [|by rewrite goto_other]. rewrite goto_same.
  intros ->. by destruct (Hp i m a).
Qed.

Lemma wake_queue q p i m a : wake_pc q p = SendQueue i m a → p = SendQueue i m a.
Proof. unfold wake_pc. destruct p; simpl; try done; destruct w; try done; by case_decide. Qed.

Lemma history_send_alloc s t b i m s' : history s → send_alloc t i m b s = Next s' → history s'.
Proof.
  intros H. destruct b; cbn; intros [= <-].
  - split; cbn [next log thr pid goto].
    + intros j a Ha%(h_sent _ H). lia.
    + intros u j m' a. destruct (decide (u = t)) as [->|].
      * rewrite fn_lookup_insert. intros [= <- <- <-]. split_and!; [lia|done|].
        intros j' Ha%(h_sent _ H). lia.
      * rewrite fn_lookup_insert_ne by done. intros (? & ? & ?)%(h_posting _ H). split_and!; [lia|done..].
    + apply (h_nodup _ H).
    + apply (h_source _ H).
  - apply (history_frame s); try done; [|by left]. intros ????. by apply goto_queue.
Qed.

Lemma history_send_queue s G t i m a p e' :
  inv s G → history s → thr s t = SendQueue i m a → (∀ i m a, p ≠ SendQueue i m a) →
  history (goto t p (set_ep i e' (emit (ESend t i a m) s))).
Proof.
  intros I H Ht Hp. destruct (h_posting _ H _ _ _ _ Ht) as (Hlt & Hsrc & Hnew).
  split; cbn [next log thr pid goto set_ep emit].
  - intros j b. rewrite sent_cons, elem_of_app. intros [Hb|Hb]; [by eapply (h_sent _ H)|].
    case_decide; [|by apply elem_of_nil in Hb]. apply list_elem_of_singleton in Hb as ->. done.
  - intros u j m' b. destruct (decide (u = t)) as [->|Hut].
    { rewrite fn_lookup_insert. intros ->. by edestruct Hp. }
    rewrite fn_lookup_insert_ne by done. intros Hu.
    destruct (h_posting _ H _ _ _ _ Hu) as (? & ? & Hn). split_and!; [done..|].
    intros j'. rewrite sent_cons, not_elem_of_app. split; [done|].
    case_decide; [|apply not_elem_of_nil]. rewrite list_elem_of_singleton. intros ->.
    at_point I u Hu. at_point I t Ht. destruct Ht0 as [_ Hg1], Ht1 as [_ Hg2]. simplify_eq.
  - intros j. rewrite sent_cons. apply NoDup_app.
    split_and!; [apply H| |case_decide; [apply NoDup_singleton|constructor]].
    intros b Hb. case_decide; [|apply not_elem_of_nil]. rewrite list_elem_of_singleton. intros ->.
    by eapply Hnew.
  - intros u j b m' [Heq|Hin]%elem_of_cons; [by simplify_eq|by eapply (h_source _ H)].
Qed.

Lemma server_checks_cases t src m s k s' :
  server_checks t src m s k = Next s' →
  (∃ r, s' = goto t (Ret r m) s) ∨ ∃ i e m', k i e m' = Next s'.
Proof.
  unfold server_checks. intros Hs.
  repeat (case_match; simplify_eq); eauto.
Qed.

(** The steps that leave the sends alone. *)
Lemma history_goto s t p : history s → (∀ i m a, p ≠ SendQueue i m a) → history (goto t p s).
Proof.
  intros H Hp. apply (history_frame s); try done; [|by left]. intros ????. by apply goto_queue.
Qed.

Lemma history_other s s' t p :
  history s → next s' = next s → pid s' = pid s →
  (∀ u i m a, thr s' u = SendQueue i m a → thr s u = SendQueue i m a) →
  (∀ i m a, p ≠ SendQueue i m a) →
  (log s' = log s ∨ ∃ ev, log s' = ev :: log s ∧ ∀ t i a m, ev ≠ ESend t i a m) →
  history (goto t p s').
Proof.
  intros H ? ? Hq Hp Hlg. apply (history_frame s); try done. intros u i m a Hu.
  apply goto_queue in Hu; auto.
Qed.

Lemma history_call s t c s' : history s → ipc_call t c s = Next s' → history s'.
Proof.
  intros H. unfold ipc_call. destruct (thr s t); try done.
  assert (Hsend : ∀ d m, __ipc_send t d m s = Next s' → history s').
  { unfold __ipc_send. intros d m Hs. repeat (case_match; simplify_eq); by apply history_goto. }
  destruct c as [d m|d m|d m|d m].
  - apply Hsend.
  - unfold __ipc_notify. destruct m; [apply Hsend|]. intros [= <-]. by apply history_goto.
  - intros [[r ->]|(i & e & m' & Hk)]%server_checks_cases; [by apply history_goto|].
    case_match; simplify_eq; by apply history_goto.
  - intros [[r ->]|(i & e & m' & Hk)]%server_checks_cases; [by apply history_goto|].
    case_match; simplify_eq; by apply history_goto.
Qed.

Lemma history_inside s G t b s' :
  inv s G → history s → step_inside t b s = Next s' → history s'.
Proof.
  intros I H. unfold step_inside, with_ep.
  destruct (thr s t) eqn:Ht; try done;
    try (destruct (ipc_ep_info s !! i) as [e|]; [|done]);
    try (by apply history_send_alloc);
    unfold send_ready, send_queue, send_done, send_copy, recv_list, recv_wait, recv_take, recv_copy,
      recv_count, rep_take, rep_fin, rep_copy, rep_wake, rep_count;
    intros Hs; simplify_eq; repeat (case_match; simplify_eq);
    try (by apply history_goto);
    try (eapply history_send_queue; try done; unfold send_posted; by destruct (is_notifier m));
    (apply (history_other s);
      first [done|by left|by intros ????; apply wake_queue
            |unfold send_posted; by destruct (is_notifier m)
            |right; eexists; split; [reflexivity|done]]).
Qed.

Lemma history_register s tsk : history s → history (snd (ipc_register_endpoint_by_tsk tsk s)).
Proof.
  intros H. unfold ipc_register_endpoint_by_tsk. repeat case_match; try done.
  apply (history_frame s); try done; [|by left]. intros ????. apply wake_queue.
Qed.

Lemma pid_step act s s' : ipc_step act s = Next s' → pid s' = pid s.
Proof.
  destruct act as [t c|t b|t|tsk]; cbn;
    unfold ipc_call, __ipc_notify, __ipc_receive, __ipc_reply, server_checks, __ipc_send, step_inside, with_ep,
      send_ready, send_alloc, send_queue, send_done, send_copy, recv_list, recv_wait, recv_take, recv_copy,
      recv_count, rep_take, rep_fin, rep_copy, rep_wake, rep_count, ipc_register_endpoint_by_tsk;
    intros Hs; repeat (case_match; simplify_eq; try done); simplify_eq; done.
Qed.

Lemma reachable_history pids s : reachable pids s → history s ∧ pid s = pids.
Proof.
  induction 1 as [|s act s' Hr [H Hp] Ha Hs].
  { split; [|done]. split; cbn; try done.
    - intros i a Ha. by apply elem_of_nil in Ha.
    - intros i. constructor.
    - intros t i a m Ha. by apply elem_of_nil in Ha. }
  destruct (reachable_inv _ _ Hr) as [G I]. split; [|by rewrite (pid_step _ _ _ Hs)].
  destruct act as [t c|t b|t|tsk]; cbn in Hs.
  - by eapply history_call.
  - by eapply history_inside.
  - case_match; simplify_eq. by apply history_goto.
  - injection Hs as <-. by apply history_register.
Qed.

(** ** A concrete run *)

Definition demo_pids (t : tid) : Z := 100 + Z.of_nat t.
Definition demo_msg (ty : Z) : message := mk_message 0 ty (replicate 56 0).

(** Task 1 serves "vfs"; task 2 sends it a request and falls asleep; task 1
    receives it and answers; task 2 wakes up and is about to copy the answer. *)
Definition demo_send : list action :=
  [ARegister (Some (1%nat, "vfs"%string)); ACall 2%nat (CSend ENDPOINT_VFS (Some (demo_msg 7)));
   AStep 2%nat true; AStep 2%nat true].
Definition demo_sleep : list action := [AStep 2%nat true; AStep 2%nat true; AStep 2%nat true].
Definition demo_receive : list action :=
  [ACall 1%nat (CReceive ENDPOINT_VFS (Some (demo_msg 0))); AStep 1%nat true; AStep 1%nat true; AStep 1%nat true;
   AStep 1%nat true; ALeave 1%nat].
Definition demo_reply : list action :=
  [ACall 1%nat (CReply ENDPOINT_VFS (Some (demo_msg 8))); AStep 1%nat true; AStep 1%nat true; AStep 1%nat true;
   AStep 1%nat true; AStep 1%nat true].
Definition demo_wake : list action := [AStep 2%nat true; AStep 2%nat true].

(** [admissible] as a test, for runs of tasks below [n]. *)
Definition in_window (a : addr) (p : pc) : bool :=
  match p with RepCopy _ _ b | RepWake _ b => Nat.eqb b a | _ => false end.

Definition admissible_test (n : nat) (s : ipc) (act : action) : bool :=
  match act with
  | ACall t c => (t <? n)%nat && (0 <=? endpoint_arg c) && negb (endpoint_arg c =? ENDPOINT_END)
  | AStep t _ => (t <? n)%nat &&
      match thr s t with
      | SendDone _ _ a _ => negb (existsb (λ u, in_window a (thr s u)) (seq 0 n))
      | _ => true
      end
  | ALeave t => (t <? n)%nat
  | ARegister _ => true
  end.

Fixpoint admissible_run (n : nat) (s : ipc) (acts : list action) : bool :=
  match acts with
  | [] => true
  | a :: acts => admissible_test n s a &&
      match ipc_step a s with Next s => admissible_run n s acts | _ => false end
  end.

Definition quiet (n : nat) (s : ipc) : Prop := ∀ u, (n ≤ u)%nat → thr s u = Idle.

Lemma quiet_step n act s s' :
  quiet n s → admissible_test n s act = true → ipc_step act s = Next s' → quiet n s'.
Proof.
  intros Hq Ha Hs u Hu. specialize (Hq u Hu).
  assert (Hw : ∀ q, wake_pc q (thr s u) = Idle) by (intros q; by rewrite Hq).
  destruct act as [t c|t b|t|tsk]; cbn [admissible_test ipc_step] in Ha, Hs;
    try (assert (u ≠ t) as Hne by (destruct (Nat.ltb_spec t n); [lia|by cbn in Ha]));
    revert Hs;
    unfold ipc_call, __ipc_notify, __ipc_receive, __ipc_reply, server_checks, __ipc_send, step_inside, with_ep,
      send_ready, send_alloc, send_queue, send_done, send_copy, recv_list, recv_wait, recv_take, recv_copy,
      recv_count, rep_take, rep_fin, rep_copy, rep_wake, rep_count, ipc_register_endpoint_by_tsk;
    clear Ha; intros Hs; repeat (case_match; simplify_eq; try done); simplify_eq; try done;
    first [exact (Hw _)|rewrite goto_other by done; first [exact Hq|exact (Hw _)]].
Qed.

Lemma admissible_sound n s act : quiet n s → admissible_test n s act = true → admissible s act.
Proof.
  intros Hq. destruct act as [t c|t b|t|tsk]; cbn; try done.
  - rewrite !andb_true_iff, negb_true_iff, Z.leb_le, Z.eqb_neq. tauto.
  - rewrite andb_true_iff. intros [_ Hw]. destruct (thr s t); try done.
    apply negb_true_iff in Hw. intros (u & j & m' & Hu).
    assert (existsb (λ u, in_window a (thr s u)) (seq 0 n) = true); [|congruence].
    apply existsb_exists. exists u. split.
    + apply in_seq. destruct (Nat.lt_ge_cases u n) as [|Hge]; [lia|].
      rewrite (Hq u Hge) in Hu. by destruct Hu.
    + destruct Hu as [-> | ->]; cbn; apply Nat.eqb_refl.
Qed.

Lemma run_reachable n pids s acts s' :
  reachable pids s → quiet n s → admissible_run n s acts = true → ipc_run acts s = Next s' →
  reachable pids s'.
Proof.
  revert s. induction acts as [|a acts IH]; intros s Hr Hq; cbn; [by intros _ [= <-]|].
  rewrite andb_true_iff. intros [Ha Hrun]. destruct (ipc_step a s) eqn:Hs; try done.
  apply IH; [|by eapply quiet_step|done].
  eapply reach_step; [done|by eapply admissible_sound|done].
Qed.

Definition run_from_boot (acts : list action) : ipc :=
  match ipc_run acts (ipc_boot demo_pids) with Next s => s | _ => ipc_boot demo_pids end.

Lemma demo_reachable acts :
  admissible_run 3 (ipc_boot demo_pids) acts = true → reachable demo_pids (run_from_boot acts).
Proof.
  intros Ha. unfold run_from_boot. destruct (ipc_run acts (ipc_boot demo_pids)) eqn:Hs; try constructor.
  eapply (run_reachable 3); [constructor|done|done|done].
Qed.

Lemma run_quiet n s acts s' :
  quiet n s → admissible_run n s acts = true → ipc_run acts s = Next s' → quiet n s'.
Proof.
  revert s. induction acts as [|a acts IH]; intros s Hq; cbn; [by intros _ [= <-]|].
  rewrite andb_true_iff. intros [Ha Hrun]. destruct (ipc_step a s) eqn:Hs; try done.
  intros Hend. refine (IH _ _ Hrun Hend). by eapply quiet_step.
Qed.

Lemma demo_quiet acts : admissible_run 3 (ipc_boot demo_pids) acts = true → quiet 3 (run_from_boot acts).
Proof.
  intros Ha. unfold run_from_boot. destruct (ipc_run acts (ipc_boot demo_pids)) eqn:Hs; try done.
  exact (run_quiet 3 (ipc_boot demo_pids) acts _ (λ _ _, eq_refl) Ha Hs).
Qed.

Definition demo_answered : ipc :=
  run_from_boot (demo_send ++ demo_sleep ++ demo_receive ++ demo_reply ++ demo_wake).

Lemma demo_answered_reachable : reachable demo_pids demo_answered.
Proof. apply demo_reachable. vm_compute. reflexivity. Qed.

Definition demo_served : ipc := run_from_boot (demo_send ++ demo_sleep ++ demo_receive).


Lemma demo_served_reachable : reachable demo_pids demo_served.
Proof. apply demo_reachable. vm_compute. reflexivity. Qed.

(** ** The guarantees *)

(** C15. No interleaving of admissible calls and steps of any number of tasks
    makes the IPC code touch a freed node, read the head of an empty queue or
    leave the endpoint table. *)
Theorem ipc_no_crash pids s act :
  reachable pids s → admissible s act → ipc_step act s ≠ Crash.
Proof.
  intros [G I]%reachable_inv Ha Hc. pose proof (keeps_step _ _ _ I Ha) as Hk. by rewrite Hc in Hk.
Qed.

Lemma ipc_no_crash_witness :
  admissible demo_answered (AStep 2%nat true) ∧ ipc_step (AStep 2%nat true) demo_answered ≠ Crash.
Proof.
  assert (Ha : admissible demo_answered (AStep 2%nat true)) by (vm_compute; exact Logic.I).
  split; [exact Ha|].
  exact (ipc_no_crash demo_pids demo_answered _ demo_answered_reachable Ha).
Defined.

(** C16. Requests are served first-in first-out, each exactly once: the nodes
    queued on an endpoint, in order and without repetition, are those already
    answered followed by the current queue; the nodes the server has received
    are the answered ones, and while one request is open also the queue's
    head; the open-request counter says which. *)
Theorem ipc_fifo pids s i e t :
  reachable pids s → ipc_ep_info s !! i = Some e → ep_tsk e = Some t → thr s t = Idle →
  NoDup (sent i (log s)) ∧
  sent i (log s) = replied i (log s) ++ ep_list e ∧
  (ipc_req_count e = 0 ∧ received i (log s) = replied i (log s) ∨
   ipc_req_count e = 1 ∧ ∃ a l, ep_list e = a :: l ∧ received i (log s) = replied i (log s) ++ [a]).
Proof.
  intros Hr He Ht Hi. destruct (reachable_history _ _ Hr) as [H _].
  destruct (reachable_inv _ _ Hr) as [G I]. split_and!; [apply H|by apply (inv_ep _ _ I)|].
  pose proof (inv_server _ _ _ _ _ I He Ht) as [_ Hs]. by rewrite Hi in Hs.
Qed.

Lemma ipc_fifo_witness :
  NoDup (sent 3 (log demo_served)) ∧ sent 3 (log demo_served) = [0%nat].
Proof.
  split; [|vm_compute; reflexivity].
  destruct (ipc_ep_info demo_served !! 3%nat) as [e|] eqn:He; [|vm_compute in He; discriminate He].
  refine (proj1 (ipc_fifo demo_pids demo_served 3%nat e 1%nat demo_served_reachable He _ _));
    [vm_compute in He; injection He as <-; reflexivity|vm_compute; reflexivity].
Defined.



(** A received message is one that was sent to this endpoint, unchanged,
    and its [m_source] is the pid of the task that sent it. *)
Theorem ipc_receive_authentic pids s i a m :
  reachable pids s → EReceive i a m ∈ log s →
  ∃ t, ESend t i a m ∈ log s ∧ m_source m = pids t.
Proof.
  intros Hr Hin. destruct (reachable_history _ _ Hr) as [H <-].
  destruct (reachable_inv _ _ Hr) as [G I]. destruct (inv_event _ _ I _ Hin) as [t Ht].
  exists t. split; [done|]. by eapply (h_source _ H).
Qed.

Lemma ipc_receive_authentic_witness :
  ∃ t, ESend t 3%nat 0%nat (set_m_source 102 (demo_msg 7)) ∈ log demo_served ∧ 102 = demo_pids t.
Proof.
  apply (ipc_receive_authentic demo_pids demo_served 3%nat 0%nat (set_m_source 102 (demo_msg 7)));
    [exact demo_served_reachable|vm_compute; left].
Defined.



Lemma server_protocol pids s t z i e m :
  reachable pids s → thr s t = Idle → 0 ≤ z < ENDPOINT_END → ep_at s z = Some (i, e) →
  ep_tsk e = Some t →
  (received i (log s) = replied i (log s) →
     ipc_call t (CReceive z (Some m)) s = Next (goto t (RecvList i) s) ∧
     ipc_call t (CReply z (Some m)) s = Next (goto t (Ret (- EINVAL) (Some m)) s)) ∧
  (received i (log s) ≠ replied i (log s) →
     ipc_call t (CReceive z (Some m)) s = Next (goto t (Ret (- EBUSY) (Some m)) s) ∧
     ipc_call t (CReply z (Some m)) s = Next (goto t (RepTake i m) s)).
Proof.
  intros Hr Ht Hz Hat Htk. destruct (reachable_inv _ _ Hr) as [G I].
  pose proof (ep_at_lookup _ _ _ _ Hat) as He.
  pose proof (inv_server _ _ _ _ _ I He Htk) as [_ Hs]. rewrite Ht in Hs. cbn in Hs.
  unfold ipc_call, __ipc_receive, __ipc_reply, server_checks. rewrite Ht, Hat, Htk.
  assert ((z >? ENDPOINT_END) = false) as -> by (rewrite Z.gtb_ltb; apply Z.ltb_ge; lia).
  rewrite !decide_True by done. destruct Hs as [[-> Heq]|(-> & a & l & _ & Hne)]; cbn.
  - split; [done|]. intros []. done.
  - split; [|done]. rewrite Hne. intros Hbad.
    apply (f_equal length) in Hbad. rewrite length_app in Hbad. simpl in Hbad. lia.
Qed.

(** The server protocol: [__ipc_receive] refuses its server with [-EBUSY]
    exactly when a received request is still unanswered, and [__ipc_reply]
    refuses it with [-EINVAL] exactly when there is none; otherwise both go on. *)
Theorem ipc_server_protocol pids s t z i e m :
  reachable pids s → thr s t = Idle → 0 ≤ z < ENDPOINT_END → ep_at s z = Some (i, e) →
  ep_tsk e = Some t →
  (received i (log s) = replied i (log s) →
     ipc_call t (CReceive z (Some m)) s = Next (goto t (RecvList i) s) ∧
     ipc_call t (CReply z (Some m)) s = Next (goto t (Ret (- EINVAL) (Some m)) s)) ∧
  (received i (log s) ≠ replied i (log s) →
     ipc_call t (CReceive z (Some m)) s = Next (goto t (Ret (- EBUSY) (Some m)) s) ∧
     ipc_call t (CReply z (Some m)) s = Next (goto t (RepTake i m) s)).
Proof. apply server_protocol. Qed.

Lemma ipc_server_protocol_witness : ∃ e,
  ep_at demo_served ENDPOINT_VFS = Some (3%nat, e) ∧
  (received 3 (log demo_served) ≠ replied 3 (log demo_served) →
   ipc_call 1%nat (CReceive ENDPOINT_VFS (Some (demo_msg 0))) demo_served =
   Next (goto 1%nat (Ret (- EBUSY) (Some (demo_msg 0))) demo_served)).
Proof.
  destruct (ep_at demo_served ENDPOINT_VFS) as [[i e]|] eqn:Hat; [|vm_compute in Hat; discriminate Hat].
  exists e. assert (i = 3%nat) as -> by (vm_compute in Hat; injection Hat; intros; subst; reflexivity).
  split; [reflexivity|]. intros Hne.
  refine (proj1 (proj2 (ipc_server_protocol demo_pids demo_served 1%nat ENDPOINT_VFS 3%nat e (demo_msg 0)
    demo_served_reachable _ _ Hat _) Hne)); [vm_compute; reflexivity|vm_compute; split; congruence|].
  vm_compute in Hat. injection Hat as <-. reflexivity.
Defined.

(** C19. No node leaks: when no task is inside the IPC code and every queue is
    empty, the heap holds no node. *)
Theorem ipc_no_leak pids s :
  reachable pids s → (∀ t, thr s t = Idle) → (∀ i e, ipc_ep_info s !! i = Some e → ep_list e = []) →
  nodes s = ∅.
Proof.
  intros [G I]%reachable_inv Hidle Hempty. apply map_empty. intros a.
  destruct (nodes s !! a) as [n|] eqn:Hn; [|done]. exfalso.
  destruct (proj1 (inv_dom _ _ I a)) as [g Hg]; [by eexists|].
  pose proof (inv_node _ _ I _ _ _ Hg Hn) as Hok. unfold node_ok, sender_waits in Hok.
  destruct g as [o i r st]. gcbn. rewrite !Hidle in Hok. destruct st; destruct_ex; rewrite ?Hidle in *; try done.
  - destruct (inv_nlog _ _ I _ _ Hg) as [Hi _]. gcbn.
    destruct (lookup_lt_is_Some_2 (ipc_ep_info s) i) as [e He]; [by rewrite (inv_len _ _ I)|].
    destruct (inv_ep _ _ I _ _ He) as (_ & _ & Hq & _).
    assert (a ∈ ep_list e) as Ha by (apply Hq; eauto). rewrite (Hempty _ _ He) in Ha.
    by apply elem_of_nil in Ha.
  - destruct H1 as [[?|[?|[? ?]]]|?]; congruence.
Qed.

Definition demo_done : list action :=
  demo_send ++ demo_sleep ++ demo_receive ++ demo_reply ++ demo_wake ++
  [AStep 2%nat true; ALeave 2%nat; ALeave 1%nat].

Lemma ipc_no_leak_witness :
  log (run_from_boot demo_done) ≠ [] ∧ nodes (run_from_boot demo_done) = ∅.
Proof.
  split; [vm_compute; discriminate|].
  assert (Ha : admissible_run 3 (ipc_boot demo_pids) demo_done = true) by (vm_compute; reflexivity).
  apply (ipc_no_leak demo_pids); [exact (demo_reachable _ Ha)| |].
  - intros t. destruct (Nat.lt_ge_cases t 3) as [Hlt|Hge]; [|exact (demo_quiet _ Ha t Hge)].
    destruct t as [|[|[|t]]]; [vm_compute; reflexivity..|lia].
  - intros i e He. do 4 (destruct i as [|i]; [vm_compute in He; injection He as <-; reflexivity|]).
    vm_compute in He. destruct i; discriminate He.
Defined.

(** ** The system thread *)



Section system_service.
Context (handle : system_handler → message → message) (pids : tid → Z) (t : tid).



End system_service.

















(** ** Outside the admissible runs *)

(** Task 2 tests its condition after [is_finish = 1] and before the reply is
    copied: it takes the stale message, frees the node, and the server then
    writes to it. *)
Definition demo_race : list action :=
  demo_send ++ demo_receive ++
  [ACall 1%nat (CReply ENDPOINT_VFS (Some (demo_msg 8))); AStep 1%nat true; AStep 1%nat true;
   AStep 2%nat true; AStep 2%nat true; AStep 1%nat true].

(** [__ipc_reply] sets [is_finish] before it copies the answer and wakes
    the sender, so a sender on another processor that tests the condition in
    between returns its own request as the answer and frees the node, which
    the server then writes to. *)
Theorem ipc_reply_race :
  ipc_run demo_race (ipc_boot demo_pids) = Crash ∧
  EReturn 2%nat 0%nat (set_m_source 102 (demo_msg 7)) ∈
    log (run_from_boot (take (length demo_race - 1) demo_race)).
Proof. split; vm_compute; [reflexivity|left]. Qed.

(** The endpoint test lets [ENDPOINT_END] and every negative endpoint
    through: for those the code indexes outside [ipc_ep_info]. *)
Theorem ipc_endpoint_out_of_bounds t z m s :
  length (ipc_ep_info s) = 4%nat → thr s t = Idle → z = ENDPOINT_END ∨ z < 0 →
  ipc_call t (CSend z (Some m)) s = Crash ∧ ipc_call t (CReceive z (Some m)) s = Crash ∧
  ipc_call t (CReply z (Some m)) s = Crash ∧ ipc_call t (CNotify z (Some m)) s = Crash.
Proof.
  intros Hlen Ht Hz.
  assert (Hat : ep_at s z = None).
  { unfold ep_at. destruct Hz as [->|Hz]; [|by rewrite (proj2 (Z.leb_gt 0 z) Hz)].
    cbn. rewrite lookup_ge_None_2; [done|]. rewrite Hlen. reflexivity. }
  assert ((z >? ENDPOINT_END) = false) as Hgt.
  { rewrite Z.gtb_ltb. apply Z.ltb_ge. unfold ENDPOINT_END in *. lia. }
  unfold ipc_call, __ipc_notify, __ipc_receive, __ipc_reply, server_checks, __ipc_send.
  rewrite Ht, Hgt, Hat. done.
Qed.

Lemma ipc_endpoint_out_of_bounds_witness :
  ipc_call 5%nat (CSend (-1) (Some (demo_msg 7))) (ipc_boot demo_pids) = Crash.
Proof.
  refine (proj1 (ipc_endpoint_out_of_bounds 5%nat (-1) (demo_msg 7) (ipc_boot demo_pids) _ _ _));
    [reflexivity|reflexivity|right; lia].
Defined.

(** ** The user library *)

Lemma le_word_bytes n z : 0 ≤ z < 256 ^ Z.of_nat n → le_word (le_bytes n z) = z.
Proof.
  revert z. induction n as [|n IH]; intros z Hz.
  { change (256 ^ Z.of_nat 0) with 1 in Hz. cbn. lia. }
  rewrite Nat2Z.inj_succ, Z.pow_succ_r in Hz by lia. cbn. rewrite IH.
  - pose proof (Z.div_mod z 256). lia.
  - split; [apply Z.div_pos; lia|]. apply Z.div_lt_upper_bound; lia.
Qed.

Lemma le_bytes_length n z : length (le_bytes n z) = n.
Proof. revert z. induction n; intros z; cbn; [done|by rewrite IHn]. Qed.

(** Payload words round-trip and do not disturb each other. *)
Lemma m_u64_set_same k z m :
  (8 * k + 8 ≤ length (m_size m))%nat → 0 ≤ z < 2 ^ 64 → m_u64 (set_m_u64 k z m) k = z.
Proof.
  intros Hk Hz. unfold m_u64, set_m_u64. cbn [m_size].
  rewrite drop_app_length' by (rewrite length_take; lia).
  rewrite take_app_length' by (by rewrite le_bytes_length). by apply le_word_bytes.
Qed.

(** The queries of the user library return what the system service
    computes: when the request reaches the service and its answer comes back
    (the system call returns 0 with the handled message), [get_task_size],
    [get_arch_auxvec_cnt] and [get_arch_elf_hwcap] are the architecture's
    values. *)
Theorem user_queries_answered TASK_SIZE ELF_HWCAP cycles cnt auxvec (sc : Z → Z → message → Z * message) :
  0 ≤ TASK_SIZE < 2 ^ 64 → 0 ≤ ELF_HWCAP < 2 ^ 64 → 0 ≤ cnt < 2 ^ 64 →
  (∀ m, sc __NR_ipc_send ENDPOINT_SYSTEM m =
        (0, match system_handle_ipc_message m with
            | On_misc => system_misc TASK_SIZE ELF_HWCAP cycles cnt auxvec m
            | _ => m
            end)) →
  get_task_size sc = TASK_SIZE ∧ get_arch_auxvec_cnt sc = cnt ∧ get_arch_elf_hwcap sc = ELF_HWCAP.
Proof.
  intros Ht He Hc Hsc.
  unfold get_task_size, get_arch_auxvec_cnt, get_arch_elf_hwcap, ask_system, ipc_send, user_call.
  change (ENDPOINT_SYSTEM >? ENDPOINT_END) with false. cbn match. rewrite !Hsc.
  split_and!; apply m_u64_set_same; try done; cbn; lia.
Qed.

Definition demo_syscall (nr ep : Z) (m : message) : Z * message :=
  (0, match system_handle_ipc_message m with
      | On_misc => system_misc (2 ^ 39) 7 0 2 (λ _ m, m) m
      | _ => m
      end).

Lemma user_queries_answered_witness :
  get_task_size demo_syscall = 2 ^ 39 ∧ get_arch_auxvec_cnt demo_syscall = 2 ∧
  get_arch_elf_hwcap demo_syscall = 7.
Proof.
  apply (user_queries_answered (2 ^ 39) 7 0 2 (λ _ m, m) demo_syscall); [lia|lia|lia|reflexivity].
Defined.
