(* ===== verification/Rbtree.v ===== *)
(** * Red-black trees ([lib/base/src/rbtree.c], [base/rbtree.h], [base/rbree_augmented.h])

    The pointer code as it is written: a heap of [struct rb_node]s, parent
    pointers and colours updated in place, [NULL] dereferences as crashes.  The
    mirror branches of the balancing loops are one definition over the side
    [d] on which the parent (or the node) hangs: [child DL] is [rb_left] and
    [child DR] is [rb_right]; the branch tests are the code's.  The augmented
    callbacks are the dummies of the non-augmented interface. *)
From stdpp Require Import gmap.
From S2P Require Import Prelude.

(** ** Data *)

Definition loc := nat.
Definition ptr := option loc.

Inductive color := Red | Black.
Inductive dir := DL | DR.
Definition opp (d : dir) : dir := match d with DL => DR | DR => DL end.

#[global] Instance color_eq_dec : EqDecision color.
Proof. solve_decision. Defined.
#[global] Instance dir_eq_dec : EqDecision dir.
Proof. solve_decision. Defined.

(** [struct rb_node]: [__rb_parent_color] packs the parent's address with the
    colour in its lowest bit (nodes are 8-byte aligned). *)
Record rb_node := mk_rb { rb_parent : ptr; rb_color : color; rb_right : ptr; rb_left : ptr }.

(** A cell of memory: a node, or a pointer variable ([root->rb_node],
    [root->rb_leftmost]). *)
Inductive cell := CNode (n : rb_node) | CPtr (p : ptr).

Notation heap := (gmap loc cell).

Definition child (d : dir) (n : rb_node) : ptr := match d with DL => rb_left n | DR => rb_right n end.

(** ** Commands: state passing with crashes *)

Definition cmd (A : Type) : Type := heap → option (A * heap).

Definition ret {A} (a : A) : cmd A := λ h, Some (a, h).
Definition crash {A} : cmd A := λ _, None.
Definition bind {A B} (m : cmd A) (k : A → cmd B) : cmd B :=
  λ h, '(a, h) ← m h; k a h.

Declare Scope cmd_scope.
Delimit Scope cmd_scope with cmd.
Notation "x <- m ;; k" := (bind m (λ x, k))
  (at level 100, m at next level, right associativity) : cmd_scope.
Notation "m ;;; k" := (bind m (λ _, k)) (at level 100, right associativity) : cmd_scope.
Open Scope cmd_scope.

Definition load (a : loc) : cmd rb_node :=
  λ h, match h !! a with Some (CNode n) => Some (n, h) | _ => None end.
Definition store (a : loc) (n : rb_node) : cmd unit :=
  λ h, match h !! a with Some (CNode _) => Some (tt, <[a:=CNode n]> h) | _ => None end.
Definition load_ptr (a : loc) : cmd ptr :=
  λ h, match h !! a with Some (CPtr p) => Some (p, h) | _ => None end.
Definition store_ptr (a : loc) (p : ptr) : cmd unit :=
  λ h, match h !! a with Some (CPtr _) => Some (tt, <[a:=CPtr p]> h) | _ => None end.

(** The address in a pointer that is dereferenced. *)
Definition deref (p : ptr) : cmd loc := match p with Some a => ret a | None => crash end.

Definition upd_child (d : dir) (p : ptr) (n : rb_node) : rb_node :=
  match d with
  | DL => mk_rb (rb_parent n) (rb_color n) (rb_right n) p
  | DR => mk_rb (rb_parent n) (rb_color n) p (rb_left n)
  end.
Definition upd_parent (p : ptr) (n : rb_node) : rb_node :=
  mk_rb p (rb_color n) (rb_right n) (rb_left n).
Definition upd_pc (p : ptr) (c : color) (n : rb_node) : rb_node :=
  mk_rb p c (rb_right n) (rb_left n).
Definition upd_black (n : rb_node) : rb_node :=
  mk_rb (rb_parent n) Black (rb_right n) (rb_left n).

Definition modify (a : loc) (f : rb_node → rb_node) : cmd unit := n <- load a;; store a (f n).

Definition set_child (d : dir) (a : loc) (p : ptr) : cmd unit := modify a (upd_child d p).
Definition rb_set_parent (a : loc) (p : ptr) : cmd unit := modify a (upd_parent p).
Definition rb_set_parent_color (a : loc) (p : ptr) (c : color) : cmd unit := modify a (upd_pc p c).
Definition rb_set_black (a : loc) : cmd unit := modify a upd_black.

Definition is_red (p : ptr) : cmd bool :=
  match p with
  | None => ret false
  | Some a => n <- load a;; ret (bool_decide (rb_color n = Red))
  end.

(** [if (p) f(p)] *)
Definition if_ptr (p : ptr) (f : loc → cmd unit) : cmd unit :=
  match p with Some a => f a | None => ret tt end.

(** ** Shared helpers *)

Definition __rb_change_child (old : loc) (new : ptr) (parent : ptr) (root : loc) : cmd unit :=
  match parent with
  | Some p =>
      n <- load p;;
      if decide (rb_left n = Some old) then set_child DL p new else set_child DR p new
  | None => store_ptr root new
  end.

Definition __rb_rotate_set_parents (old new root : loc) (c : color) : cmd unit :=
  o <- load old;;
  modify new (upd_pc (rb_parent o) (rb_color o));;;
  rb_set_parent_color old (Some new) c;;;
  __rb_change_child old (Some new) (rb_parent o) root.

(** ** Insertion *)

Definition rb_link_node (node : loc) (parent : ptr) (link : dir) (root : loc) : cmd unit :=
  store node (mk_rb parent Red None None);;;
  match parent with
  | Some p => set_child link p (Some node)
  | None => store_ptr root (Some node)
  end.

(** Case 2 (rotation at the parent): the new [parent] and [tmp]. *)
Definition insert_case2 (d : dir) (node parent : loc) : cmd (loc * ptr) :=
  pn <- load parent;;
  let tmp := child (opp d) pn in
  if decide (tmp = Some node) then
    n <- load node;;
    let tmp := child d n in
    set_child (opp d) parent tmp;;;
    set_child d node (Some parent);;;
    if_ptr tmp (λ a, rb_set_parent_color a (Some parent) Black);;;
    rb_set_parent_color parent (Some node) Red;;;
    n <- load node;;
    ret (node, child (opp d) n)
  else ret (parent, tmp).

(** Case 3 (rotation at the grandparent). *)
Definition insert_case3 (d : dir) (parent gparent root : loc) (tmp : ptr) : cmd unit :=
  set_child d gparent tmp;;;
  set_child (opp d) parent (Some gparent);;;
  if_ptr tmp (λ a, rb_set_parent_color a (Some gparent) Black);;;
  __rb_rotate_set_parents gparent parent root Red.

(** The loop; [fuel] bounds the walk to the root (running out is a crash). *)
Fixpoint __rb_insert_loop (fuel : nat) (node : loc) (parent : ptr) (root : loc) : cmd unit :=
  match fuel with
  | O => crash
  | S fuel =>
      match parent with
      | None => rb_set_parent_color node None Black
      | Some parent =>
          pn <- load parent;;
          if decide (rb_color pn = Black) then ret tt else
          gparent <- deref (rb_parent pn);;
          gn <- load gparent;;
          let d := if decide (rb_right gn ≠ Some parent) then DL else DR in
          let tmp := child (opp d) gn in
          red <- is_red tmp;;
          if red : bool then
            uncle <- deref tmp;;
            rb_set_parent_color uncle (Some gparent) Black;;;
            rb_set_parent_color parent (Some gparent) Black;;;
            gn <- load gparent;;
            rb_set_parent_color gparent (rb_parent gn) Red;;;
            __rb_insert_loop fuel gparent (rb_parent gn) root
          else
            pt <- insert_case2 d node parent;;
            insert_case3 d pt.1 gparent root pt.2
      end
  end.

(** [leftmost]: the cell of [rb_leftmost] when the tree caches it. *)
Definition __rb_insert (fuel : nat) (node root : loc) (newleft : bool) (leftmost : ptr) : cmd unit :=
  n <- load node;;
  (if newleft then l <- deref leftmost;; store_ptr l (Some node) else ret tt);;;
  __rb_insert_loop fuel node (rb_parent n) root.

Definition rb_insert_color (fuel : nat) (node root : loc) : cmd unit :=
  __rb_insert fuel node root false None.
Definition rb_insert_color_cached (fuel : nat) (node root leftmost : loc) (newleft : bool) : cmd unit :=
  __rb_insert fuel node root newleft (Some leftmost).

(** ** Navigation *)

Fixpoint rb_extreme (fuel : nat) (d : dir) (node : loc) : cmd loc :=
  match fuel with
  | O => crash
  | S fuel =>
      n <- load node;;
      match child d n with
      | None => ret node
      | Some c => rb_extreme fuel d c
      end
  end.

Definition rb_end (fuel : nat) (d : dir) (root : loc) : cmd ptr :=
  r <- load_ptr root;;
  match r with
  | None => ret None
  | Some n => a <- rb_extreme fuel d n;; ret (Some a)
  end.
Definition rb_first (fuel : nat) (root : loc) : cmd ptr := rb_end fuel DL root.
Definition rb_last (fuel : nat) (root : loc) : cmd ptr := rb_end fuel DR root.

(** [RB_EMPTY_NODE]: a node that is its own red parent is in no tree.
    The walk up of [rb_next] ([d] = right) and [rb_prev] ([d] = left). *)
Fixpoint rb_climb (fuel : nat) (d : dir) (node : loc) : cmd ptr :=
  match fuel with
  | O => crash
  | S fuel =>
      n <- load node;;
      match rb_parent n with
      | None => ret None
      | Some p =>
          pn <- load p;;
          if decide (child d pn = Some node) then rb_climb fuel d p else ret (Some p)
      end
  end.

Definition rb_step (fuel : nat) (d : dir) (node : loc) : cmd ptr :=
  n <- load node;;
  if decide (rb_parent n = Some node ∧ rb_color n = Red) then ret None else
  match child d n with
  | Some c => a <- rb_extreme fuel (opp d) c;; ret (Some a)
  | None => rb_climb fuel d node
  end.
Definition rb_next (fuel : nat) (node : loc) : cmd ptr := rb_step fuel DR node.
Definition rb_prev (fuel : nat) (node : loc) : cmd ptr := rb_step fuel DL node.

(** ** Erasure *)

(** Case 1: a red sibling is rotated away; the new sibling. *)
Definition erase_case1 (d : dir) (parent sibling root : loc) : cmd loc :=
  s <- load sibling;;
  if decide (rb_color s = Red) then
    let tmp1 := child d s in
    set_child (opp d) parent tmp1;;;
    set_child d sibling (Some parent);;;
    t1 <- deref tmp1;;
    rb_set_parent_color t1 (Some parent) Black;;;
    __rb_rotate_set_parents parent sibling root Red;;;
    ret t1
  else ret sibling.

(** Case 3: rotation at the sibling; the new sibling. *)
Definition erase_case3 (d : dir) (parent sibling tmp2 : loc) : cmd unit :=
  t2 <- load tmp2;;
  let tmp1 := child (opp d) t2 in
  set_child d sibling tmp1;;;
  set_child (opp d) tmp2 (Some sibling);;;
  set_child (opp d) parent (Some tmp2);;;
  if_ptr tmp1 (λ a, rb_set_parent_color a (Some sibling) Black).

(** Case 4: rotation at the parent and colour flips. *)
Definition erase_case4 (d : dir) (parent sibling tmp1 root : loc) : cmd unit :=
  s <- load sibling;;
  let tmp2 := child d s in
  set_child (opp d) parent tmp2;;;
  set_child d sibling (Some parent);;;
  rb_set_parent_color tmp1 (Some sibling) Black;;;
  if_ptr tmp2 (λ a, rb_set_parent a (Some parent));;;
  __rb_rotate_set_parents parent sibling root Black.

Fixpoint ____rb_erase_color (fuel : nat) (node : ptr) (parent root : loc) : cmd unit :=
  match fuel with
  | O => crash
  | S fuel =>
      pn <- load parent;;
      let d := if decide (rb_right pn ≠ node) then DL else DR in
      sibling <- deref (child (opp d) pn);;
      sibling <- erase_case1 d parent sibling root;;
      s <- load sibling;;
      far <- is_red (child (opp d) s);;
      if far : bool then
        tmp1 <- deref (child (opp d) s);;
        erase_case4 d parent sibling tmp1 root
      else
        near <- is_red (child d s);;
        if near : bool then
          tmp2 <- deref (child d s);;
          erase_case3 d parent sibling tmp2;;;
          erase_case4 d parent tmp2 sibling root
        else
          (* Case 2 *)
          rb_set_parent_color sibling (Some parent) Red;;;
          pn <- load parent;;
          if decide (rb_color pn = Red) then rb_set_black parent
          else
            match rb_parent pn with
            | Some g => ____rb_erase_color fuel (Some parent) g root
            | None => ret tt
            end
  end.

(** The walk to the successor: [parent] and [successor] when [tmp] is null. *)
Fixpoint erase_successor (fuel : nat) (parent successor : loc) : cmd (loc * loc) :=
  match fuel with
  | O => crash
  | S fuel =>
      n <- load successor;;
      match rb_left n with
      | None => ret (parent, successor)
      | Some tmp => erase_successor fuel successor tmp
      end
  end.

(** The cached first node moves on when it is the one erased. *)
Definition update_leftmost (fuel : nat) (node : loc) (leftmost : ptr) : cmd unit :=
  match leftmost with
  | None => ret tt
  | Some l =>
      p <- load_ptr l;;
      if decide (p = Some node) then p' <- rb_next fuel node;; store_ptr l p' else ret tt
  end.

(** Cases 2 and 3 of the erasure: the successor is detached from the right
    subtree; the results are [parent], [successor] and [child2]. *)
Definition detach_successor (fuel : nat) (child : loc) : cmd (loc * loc * ptr) :=
  cn <- load child;;
  match rb_left cn with
  | None => ret (child, child, rb_right cn)
  | Some tmp =>
      ps <- erase_successor fuel child tmp;;
      sn <- load ps.2;;
      set_child DL ps.1 (rb_right sn);;;
      set_child DR ps.2 (Some child);;;
      rb_set_parent child (Some ps.2);;;
      ret (ps.1, ps.2, rb_right sn)
  end.

(** The successor takes the place of the node. *)
Definition place_successor (node root parent successor : loc) (child2 : ptr) : cmd ptr :=
  n <- load node;;
  tmp <- deref (rb_left n);;
  set_child DL successor (Some tmp);;;
  rb_set_parent tmp (Some successor);;;
  __rb_change_child node (Some successor) (rb_parent n) root;;;
  match child2 with
  | Some c2 =>
      modify successor (upd_pc (rb_parent n) (rb_color n));;;
      rb_set_parent_color c2 (Some parent) Black;;;
      ret None
  | None =>
      sn <- load successor;;
      modify successor (upd_pc (rb_parent n) (rb_color n));;;
      ret (if decide (rb_color sn = Black) then Some parent else None)
  end.

(** [__rb_erase_augmented]: the node from which to rebalance, or null. *)
Definition __rb_erase_augmented (fuel : nat) (node root : loc) (leftmost : ptr) : cmd ptr :=
  n <- load node;;
  update_leftmost fuel node leftmost;;;
  match rb_left n, rb_right n with
  | None, child =>
      __rb_change_child node child (rb_parent n) root;;;
      match child with
      | Some c => modify c (upd_pc (rb_parent n) (rb_color n));;; ret None
      | None => ret (if decide (rb_color n = Black) then rb_parent n else None)
      end
  | Some tmp, None =>
      modify tmp (upd_pc (rb_parent n) (rb_color n));;;
      __rb_change_child node (Some tmp) (rb_parent n) root;;;
      ret None
  | Some _, Some child =>
      psc <- detach_successor fuel child;;
      place_successor node root psc.1.1 psc.1.2 psc.2
  end.

Definition rb_erase_gen (fuel : nat) (node root : loc) (leftmost : ptr) : cmd unit :=
  rebalance <- __rb_erase_augmented fuel node root leftmost;;
  match rebalance with
  | Some p => ____rb_erase_color fuel None p root
  | None => ret tt
  end.
Definition rb_erase (fuel : nat) (node root : loc) : cmd unit := rb_erase_gen fuel node root None.
Definition rb_erase_cached (fuel : nat) (node root leftmost : loc) : cmd unit :=
  rb_erase_gen fuel node root (Some leftmost).

(** ** Replacement and post-order *)

Definition rb_replace_node (victim new root : loc) : cmd unit :=
  v <- load victim;;
  store new v;;;
  if_ptr (rb_left v) (λ a, rb_set_parent a (Some new));;;
  if_ptr (rb_right v) (λ a, rb_set_parent a (Some new));;;
  __rb_change_child victim (Some new) (rb_parent v) root.

Definition rb_replace_node_cached (victim new root leftmost : loc) : cmd unit :=
  rb_replace_node victim new root;;;
  l <- load_ptr leftmost;;
  if decide (l = Some victim) then store_ptr leftmost (Some new) else ret tt.

Fixpoint rb_left_deepest_node (fuel : nat) (node : loc) : cmd loc :=
  match fuel with
  | O => crash
  | S fuel =>
      n <- load node;;
      match rb_left n, rb_right n with
      | Some l, _ => rb_left_deepest_node fuel l
      | None, Some r => rb_left_deepest_node fuel r
      | None, None => ret node
      end
  end.

Definition rb_next_postorder (fuel : nat) (node : ptr) : cmd ptr :=
  match node with None => ret None | Some node =>
  n <- load node;;
  match rb_parent n with
  | None => ret None
  | Some p =>
      pn <- load p;;
      match rb_right pn with
      | Some r =>
          if decide (rb_left pn = Some node)
          then a <- rb_left_deepest_node fuel r;; ret (Some a)
          else ret (Some p)
      | None => ret (Some p)
      end
  end end.

Definition rb_first_postorder (fuel : nat) (root : loc) : cmd ptr :=
  r <- load_ptr root;;
  match r with
  | None => ret None
  | Some n => a <- rb_left_deepest_node fuel n;; ret (Some a)
  end.
