(* ===== verification/RbtreeLogic.v ===== *)
(** * Ownership of trees

    A small program logic for the commands of [Rbtree], over Iris: [wp m Φ] says
    that [m] runs without a crash from any heap that contains what is owned, and
    ends with [Φ].  A tree owns its nodes, so the rotations are verified on the
    nodes they touch and every other node is framed. *)
From stdpp Require Import gmap.
From iris.proofmode Require Import proofmode.
From iris.base_logic.lib Require Import gen_heap.
From S2P Require Import Prelude Rbtree.

Notation "l ↦ v" := (pointsto l (DfracOwn 1) v%stdpp) (at level 20, format "l  ↦  v") : bi_scope.

(** ** Weakest preconditions *)

Section logic.
Context `{!gen_heapGS loc cell Σ}.

Definition wp {A} (m : cmd A) (Φ : A → iProp Σ) : iProp Σ :=
  ∀ h, gen_heap_interp h ==∗ ∃ a h', ⌜m h = Some (a, h')⌝ ∗ gen_heap_interp h' ∗ Φ a.

Lemma wp_ret {A} (a : A) Φ : Φ a ⊢ wp (ret a) Φ.
Proof. iIntros "H" (h) "Hh". iModIntro. iExists a, h. by iFrame. Qed.

Lemma wp_bind {A B} (m : cmd A) (k : A → cmd B) Φ :
  wp m (λ a, wp (k a) Φ) ⊢ wp (bind m k) Φ.
Proof.
  iIntros "H" (h) "Hh". iMod ("H" with "Hh") as (a h1 Hm) "[Hh H]".
  iMod ("H" with "Hh") as (b h2 Hk) "[Hh H]". iModIntro. iExists b, h2. iFrame. iPureIntro.
  unfold bind. rewrite Hm. exact Hk.
Qed.

Lemma wp_mono {A} (m : cmd A) Φ Ψ : wp m Φ -∗ (∀ a, Φ a -∗ Ψ a) -∗ wp m Ψ.
Proof.
  iIntros "H HΦ" (h) "Hh". iMod ("H" with "Hh") as (a h1 Hm) "[Hh H]". iModIntro.
  iExists a, h1. iFrame. iSplit; [done|]. by iApply "HΦ".
Qed.

Lemma wp_load a n Φ : a ↦ CNode n -∗ (a ↦ CNode n -∗ Φ n) -∗ wp (load a) Φ.
Proof.
  iIntros "Ha HΦ" (h) "Hh". iDestruct (gen_heap_valid with "Hh Ha") as %Hl.
  iModIntro. iExists n, h. iFrame. iSplit; [|by iApply "HΦ"]. iPureIntro. unfold load. by rewrite Hl.
Qed.

Lemma wp_store a n n' Φ : a ↦ CNode n -∗ (a ↦ CNode n' -∗ Φ tt) -∗ wp (store a n') Φ.
Proof.
  iIntros "Ha HΦ" (h) "Hh". iDestruct (gen_heap_valid with "Hh Ha") as %Hl.
  iMod (gen_heap_update _ _ _ (CNode n') with "Hh Ha") as "[Hh Ha]". iModIntro.
  iExists tt, _. iFrame. iSplit; [|by iApply "HΦ"]. iPureIntro. unfold store. by rewrite Hl.
Qed.

Lemma wp_load_ptr a p Φ : a ↦ CPtr p -∗ (a ↦ CPtr p -∗ Φ p) -∗ wp (load_ptr a) Φ.
Proof.
  iIntros "Ha HΦ" (h) "Hh". iDestruct (gen_heap_valid with "Hh Ha") as %Hl.
  iModIntro. iExists p, h. iFrame. iSplit; [|by iApply "HΦ"]. iPureIntro. unfold load_ptr. by rewrite Hl.
Qed.

Lemma wp_store_ptr a p p' Φ : a ↦ CPtr p -∗ (a ↦ CPtr p' -∗ Φ tt) -∗ wp (store_ptr a p') Φ.
Proof.
  iIntros "Ha HΦ" (h) "Hh". iDestruct (gen_heap_valid with "Hh Ha") as %Hl.
  iMod (gen_heap_update _ _ _ (CPtr p') with "Hh Ha") as "[Hh Ha]". iModIntro.
  iExists tt, _. iFrame. iSplit; [|by iApply "HΦ"]. iPureIntro. unfold store_ptr. by rewrite Hl.
Qed.

Lemma wp_modify a n f Φ : a ↦ CNode n -∗ (a ↦ CNode (f n) -∗ Φ tt) -∗ wp (modify a f) Φ.
Proof.
  iIntros "Ha HΦ". iApply wp_bind. iApply (wp_load with "Ha"). iIntros "Ha".
  iApply (wp_store with "Ha"). done.
Qed.

Lemma wp_deref a Φ : Φ a ⊢ wp (deref (Some a)) Φ.
Proof. apply wp_ret. Qed.

(** Two cells that are owned together are different. *)
Lemma own_ne a b c1 c2 : a ↦ c1 -∗ b ↦ c2 -∗ ⌜a ≠ b⌝.
Proof.
  iIntros "Ha Hb". destruct (decide (a = b)) as [->|]; [|done].
  iDestruct (pointsto_valid_2 with "Ha Hb") as %[Hv _]. done.
Qed.

End logic.

(** ** Trees and paths *)

Inductive tree := E | T (c : color) (l : tree) (x : loc) (r : tree).

Definition tptr (t : tree) : ptr := match t with E => None | T _ _ x _ => Some x end.

(** The node and the tree with [a] on side [d] and [b] on the other. *)
Definition mkT (d : dir) (c : color) (a : tree) (x : loc) (b : tree) : tree :=
  match d with DL => T c a x b | DR => T c b x a end.
Definition mkN (d : dir) (par : ptr) (c : color) (pa pb : ptr) : rb_node :=
  match d with DL => mk_rb par c pb pa | DR => mk_rb par c pa pb end.

Fixpoint inorder (t : tree) : list loc :=
  match t with E => [] | T _ l x r => inorder l ++ x :: inorder r end.

(** A path to a subtree, nearest ancestor first: the side the subtree hangs
    on, the ancestor's colour and address, and the subtree on the other side. *)
Definition frame : Type := dir * color * loc * tree.
Definition path := list frame.

Definition ppar (π : path) : ptr := match π with [] => None | (_, _, x, _) :: _ => Some x end.

Fixpoint plug (π : path) (t : tree) : tree :=
  match π with
  | [] => t
  | (d, c, x, sib) :: π => plug π (mkT d c t x sib)
  end.

Lemma child_mkN d par c pa pb : child d (mkN d par c pa pb) = pa.
Proof. by destruct d. Qed.
Lemma child_opp_mkN d par c pa pb : child (opp d) (mkN d par c pa pb) = pb.
Proof. by destruct d. Qed.
Lemma rb_parent_mkN d par c pa pb : rb_parent (mkN d par c pa pb) = par.
Proof. by destruct d. Qed.
Lemma rb_color_mkN d par c pa pb : rb_color (mkN d par c pa pb) = c.
Proof. by destruct d. Qed.
Lemma upd_child_mkN d par c pa pb p : upd_child d p (mkN d par c pa pb) = mkN d par c p pb.
Proof. by destruct d. Qed.
Lemma upd_child_opp_mkN d par c pa pb p : upd_child (opp d) p (mkN d par c pa pb) = mkN d par c pa p.
Proof. by destruct d. Qed.
Lemma upd_parent_mkN d par c pa pb p : upd_parent p (mkN d par c pa pb) = mkN d p c pa pb.
Proof. by destruct d. Qed.
Lemma upd_pc_mkN d par c pa pb p c' : upd_pc p c' (mkN d par c pa pb) = mkN d p c' pa pb.
Proof. by destruct d. Qed.
Lemma upd_black_mkN d par c pa pb : upd_black (mkN d par c pa pb) = mkN d par Black pa pb.
Proof. by destruct d. Qed.
Lemma mkN_opp d par c pa pb : mkN (opp d) par c pa pb = mkN d par c pb pa.
Proof. by destruct d. Qed.
Lemma mkT_opp d c a x b : mkT (opp d) c a x b = mkT d c b x a.
Proof. by destruct d. Qed.
Lemma tptr_mkT d c a x b : tptr (mkT d c a x b) = Some x.
Proof. by destruct d. Qed.
Lemma opp_opp d : opp (opp d) = d.
Proof. by destruct d. Qed.

(** Evaluate the node operations of the code on the nodes of a tree. *)
Ltac node_simpl :=
  cbv beta; rewrite ?child_mkN ?child_opp_mkN ?rb_parent_mkN ?rb_color_mkN ?upd_child_mkN ?upd_child_opp_mkN
    ?upd_parent_mkN ?upd_pc_mkN ?upd_black_mkN ?tptr_mkT.

Definition is_black (t : tree) : Prop := match t with T Red _ _ _ => False | _ => True end.

#[global] Instance is_black_dec t : Decision (is_black t).
Proof. destruct t as [|[]]; simpl; apply _. Defined.

Section own.
Context `{!gen_heapGS loc cell Σ}.

Fixpoint tree_own (par : ptr) (t : tree) : iProp Σ :=
  match t with
  | E => emp
  | T c l x r => x ↦ CNode (mk_rb par c (tptr r) (tptr l)) ∗ tree_own (Some x) l ∗ tree_own (Some x) r
  end.

(** The path down to the pointer [f]; [root] holds the pointer to the top. *)
Fixpoint path_own (root : loc) (π : path) (f : ptr) : iProp Σ :=
  match π with
  | [] => root ↦ CPtr f
  | (d, c, x, sib) :: π =>
      x ↦ CNode (mkN d (ppar π) c f (tptr sib)) ∗ tree_own (Some x) sib ∗ path_own root π (Some x)
  end.

Lemma tree_own_mkT par d c a x b :
  tree_own par (mkT d c a x b) ⊣⊢
  x ↦ CNode (mkN d par c (tptr a) (tptr b)) ∗ tree_own (Some x) a ∗ tree_own (Some x) b.
Proof.
  destruct d; simpl; [done|]. iSplit; iIntros "($ & $ & $)".
Qed.

(** A path closed over its subtree is the whole tree. *)
Lemma plug_own root π t :
  path_own root π (tptr t) -∗ tree_own (ppar π) t -∗
  tree_own None (plug π t) ∗ root ↦ CPtr (tptr (plug π t)).
Proof.
  iInduction π as [|[[[d c] x] sib] π] "IH" forall (t); simpl.
  - iIntros "$ $".
  - iIntros "(Hx & Hs & Hπ) Ht". iApply ("IH" with "[Hπ]").
    + by rewrite tptr_mkT.
    + rewrite tree_own_mkT. iFrame.
Qed.

Lemma unplug_own root π t :
  tree_own None (plug π t) ∗ root ↦ CPtr (tptr (plug π t)) -∗
  path_own root π (tptr t) ∗ tree_own (ppar π) t.
Proof.
  iInduction π as [|[[[d c] x] sib] π] "IH" forall (t); simpl.
  - iIntros "[$ $]".
  - iIntros "H". iDestruct ("IH" with "H") as "[Hπ Ht]".
    rewrite tree_own_mkT tptr_mkT. iDestruct "Ht" as "(Hx & Ht & Hs)". iFrame.
Qed.

(** The root of a tree is not a cell owned elsewhere. *)
Lemma tree_own_ne par t a c : tree_own par t -∗ a ↦ c -∗ ⌜tptr t ≠ Some a⌝.
Proof.
  destruct t as [|c' l x r]; simpl; [by iIntros|]. iIntros "(Hx & _) Ha".
  iDestruct (own_ne with "Hx Ha") as %Hne. iPureIntro. congruence.
Qed.

(** [__rb_change_child] redirects the link of the path from [old] to [new]. *)
Lemma wp_change_child root π old new c Φ :
  path_own root π (Some old) -∗ old ↦ c -∗
  (path_own root π new -∗ old ↦ c -∗ Φ tt) -∗
  wp (__rb_change_child old new (ppar π) root) Φ.
Proof.
  iIntros "Hπ Hold HΦ". destruct π as [|[[[d k] x] sib] π]; simpl.
  { iApply (wp_store_ptr with "Hπ"). iIntros "Hπ". iApply ("HΦ" with "Hπ Hold"). }
  iDestruct "Hπ" as "(Hx & Hs & Hπ)". iApply wp_bind. iApply (wp_load with "Hx"). iIntros "Hx".
  iDestruct (tree_own_ne with "Hs Hold") as %Hne.
  destruct d; simpl.
  - rewrite decide_True; [|done]. iApply (wp_modify with "Hx"). iIntros "Hx". simpl.
    iApply ("HΦ" with "[$] Hold").
  - rewrite decide_False; [|done]. iApply (wp_modify with "Hx"). iIntros "Hx". simpl.
    iApply ("HΦ" with "[$] Hold").
Qed.

(** The colour test on a pointer that may be null. *)
Lemma wp_is_red par t Φ :
  tree_own par t -∗ (tree_own par t -∗ Φ (bool_decide (¬ is_black t))) -∗ wp (is_red (tptr t)) Φ.
Proof.
  iIntros "Ht HΦ". destruct t as [|c l x r]; simpl; [by iApply wp_ret; iApply "HΦ"|].
  iDestruct "Ht" as "(Hx & Hl & Hr)". iApply wp_bind. iApply (wp_load with "Hx"). iIntros "Hx".
  iApply wp_ret. simpl. iSpecialize ("HΦ" with "[$]"). destruct c.
  - rewrite !bool_decide_true; auto.
  - rewrite !bool_decide_false; auto.
Qed.

(** Changing the parent of a subtree; its colour is kept when it is black. *)

Lemma wp_reparent t par par' Φ :
  tree_own par t -∗ (tree_own par' t -∗ Φ tt) -∗
  wp (if_ptr (tptr t) (λ a, rb_set_parent a par')) Φ.
Proof.
  iIntros "Ht HΦ". destruct t as [|c l x r]; simpl; [by iApply wp_ret; iApply "HΦ"|].
  iDestruct "Ht" as "(Hx & Hl & Hr)". iApply (wp_modify with "Hx"). iIntros "Hx". iApply "HΦ". iFrame.
Qed.

Lemma wp_reparent_black t par par' Φ :
  is_black t →
  tree_own par t -∗ (tree_own par' t -∗ Φ tt) -∗
  wp (if_ptr (tptr t) (λ a, rb_set_parent_color a par' Black)) Φ.
Proof.
  iIntros (Hb) "Ht HΦ". destruct t as [|c l x r]; simpl; [by iApply wp_ret; iApply "HΦ"|].
  iDestruct "Ht" as "(Hx & Hl & Hr)". iApply (wp_modify with "Hx"). iIntros "Hx". iApply "HΦ".
  destruct c; [done|]. iFrame.
Qed.

End own.

(** Expand the ownership of a tree into that of its nodes. *)
Ltac own_simpl := repeat first [rewrite tree_own_mkT | rewrite tptr_mkT].
