(* ===== verification/RbtreeInsert.v ===== *)
(** * Insertion into a red-black tree

    The balancing loop of [__rb_insert] keeps the in-order sequence of the nodes
    and re-establishes the red-black rules, from any tree in which only the new
    red node may have a red parent. *)
From stdpp Require Import gmap.
From iris.proofmode Require Import proofmode.
From iris.base_logic.lib Require Import gen_heap.
From S2P Require Import Prelude Rbtree RbtreeLogic.

(** ** The rules *)

(** Rules 4) and 5): no red node has a red child, and every path to a leaf has
    [n] black nodes. *)
Fixpoint rb (n : nat) (t : tree) : Prop :=
  match t with
  | E => n = 0%nat
  | T Red l _ r => is_black l ∧ is_black r ∧ rb n l ∧ rb n r
  | T Black l _ r => match n with O => False | S n => rb n l ∧ rb n r end
  end.

Definition head_black (π : path) : Prop :=
  match π with (_, Black, _, _) :: _ => True | _ => False end.

(** A path that obeys the rules around a subtree of black height [n]. *)
Fixpoint path_ok (n : nat) (π : path) : Prop :=
  match π with
  | [] => True
  | (_, Red, _, sib) :: π => rb n sib ∧ is_black sib ∧ head_black π ∧ path_ok n π
  | (_, Black, _, sib) :: π => rb n sib ∧ path_ok (S n) π
  end.

Lemma rb_mkT_red d n a x b :
  rb n (mkT d Red a x b) ↔ is_black a ∧ is_black b ∧ rb n a ∧ rb n b.
Proof. destruct d; simpl; tauto. Qed.
Lemma rb_mkT_black d n a x b : rb (S n) (mkT d Black a x b) ↔ rb n a ∧ rb n b.
Proof. destruct d; simpl; tauto. Qed.
Lemma is_black_mkT d c a x b : is_black (mkT d c a x b) ↔ c = Black.
Proof. by destruct d, c. Qed.

(** A tree is valid: the root is black and the rules hold. *)
Definition valid (t : tree) : Prop := is_black t ∧ ∃ n, rb n t.

Lemma plug_valid π t n :
  path_ok n π → rb n t → (is_black t ∨ head_black π) → valid (plug π t).
Proof.
  revert t n. induction π as [|[[[d c] x] sib] π IH]; intros t n; simpl.
  - intros _ Hrb [Hb|[]]. split; [done|by exists n].
  - destruct c.
    + intros (Hs & Hbs & Hh & Hπ) Ht [Hb|[]]. apply (IH _ n); [done| |by right].
      apply rb_mkT_red. done.
    + intros (Hs & Hπ) Ht _. apply (IH _ (S n)); [done|by apply rb_mkT_black|].
      left. by apply is_black_mkT.
Qed.

Lemma inorder_mkT_eq d c c' a a' x b b' :
  inorder a = inorder a' → inorder b = inorder b' →
  inorder (mkT d c a x b) = inorder (mkT d c' a' x b').
Proof. intros Ha Hb. destruct d; simpl; by rewrite Ha Hb. Qed.

Lemma plug_inorder π t t' : inorder t = inorder t' → inorder (plug π t) = inorder (plug π t').
Proof.
  revert t t'. induction π as [|[[[d c] x] sib] π IH]; intros t t' Ht; simpl; [done|].
  apply IH. by apply inorder_mkT_eq.
Qed.

(** Rotations keep the order. *)
Lemma inorder_rotate d c1 c2 c3 c4 a x b y e :
  inorder (mkT d c1 (mkT d c2 a x b) y e) = inorder (mkT d c3 a x (mkT d c4 b y e)).
Proof. destruct d; simpl; by repeat (rewrite -app_assoc /=). Qed.

Section insert.
Context `{!gen_heapGS loc cell Σ}.

(** The end of an operation on the tree at [root]: a valid tree with the
    nodes [l] in order. *)
Definition tree_done (root : loc) (l : list loc) : iProp Σ :=
  ∃ t, ⌜inorder t = l ∧ valid t⌝ ∗ tree_own None t ∗ root ↦ CPtr (tptr t).

Lemma tree_done_plug root π t n l :
  path_ok n π → rb n t → (is_black t ∨ head_black π) → inorder (plug π t) = l →
  path_own root π (tptr t) -∗ tree_own (ppar π) t -∗ tree_done root l.
Proof.
  iIntros (Hπ Ht Hb Hl) "Hπ Ht". iExists (plug π t).
  iDestruct (plug_own with "Hπ Ht") as "[$ $]". iPureIntro. split; [done|]. by eapply plug_valid.
Qed.

(** [__rb_rotate_set_parents(old, new)]: [new] takes the place of [old]. *)
Lemma wp_rotate root π old new d c po pa pb n' Φ :
  path_own root π (Some old) -∗
  old ↦ CNode (mkN d (ppar π) po pa pb) -∗ new ↦ CNode n' -∗
  (path_own root π (Some new) -∗ old ↦ CNode (mkN d (Some new) c pa pb) -∗
   new ↦ CNode (upd_pc (ppar π) po n') -∗ Φ tt) -∗
  wp (__rb_rotate_set_parents old new root c) Φ.
Proof.
  iIntros "Hπ Ho Hn HΦ". iApply wp_bind. iApply (wp_load with "Ho"). iIntros "Ho". node_simpl.
  iApply wp_bind. iApply (wp_modify with "Hn"). iIntros "Hn".
  iApply wp_bind. iApply (wp_modify with "Ho"). iIntros "Ho". node_simpl.
  iApply (wp_change_child with "Hπ Ho"). iIntros "Hπ Ho". iApply ("HΦ" with "Hπ Ho Hn").
Qed.

(** Case 2 does nothing when the node is on the side of its parent. *)
Lemma wp_insert_case2_outer d node parent par sp nn Φ :
  parent ↦ CNode (mkN d par Red (Some node) (tptr sp)) -∗ tree_own (Some parent) sp -∗ node ↦ CNode nn -∗
  (parent ↦ CNode (mkN d par Red (Some node) (tptr sp)) -∗ tree_own (Some parent) sp -∗
   node ↦ CNode nn -∗ Φ (parent, tptr sp)) -∗
  wp (insert_case2 d node parent) Φ.
Proof.
  iIntros "Hp Hs Hn HΦ". iApply wp_bind. iApply (wp_load with "Hp"). iIntros "Hp". node_simpl.
  iDestruct (tree_own_ne with "Hs Hn") as %Hne. rewrite decide_False; [|done].
  iApply wp_ret. iApply ("HΦ" with "Hp Hs Hn").
Qed.

(** Otherwise it rotates the node above its parent. *)
Lemma wp_insert_case2_inner d node parent par sp a b Φ :
  is_black a →
  parent ↦ CNode (mkN d par Red (tptr sp) (Some node)) -∗
  node ↦ CNode (mkN d (Some parent) Red (tptr a) (tptr b)) -∗ tree_own (Some node) a -∗
  (parent ↦ CNode (mkN d (Some node) Red (tptr sp) (tptr a)) -∗
   node ↦ CNode (mkN d (Some parent) Red (Some parent) (tptr b)) -∗
   tree_own (Some parent) a -∗ Φ (node, tptr b)) -∗
  wp (insert_case2 d node parent) Φ.
Proof.
  iIntros (Ha) "Hp Hn Ha HΦ". iApply wp_bind. iApply (wp_load with "Hp"). iIntros "Hp". node_simpl.
  rewrite decide_True; [|done]. iApply wp_bind. iApply (wp_load with "Hn"). iIntros "Hn". node_simpl.
  iApply wp_bind. iApply (wp_modify with "Hp"). iIntros "Hp". node_simpl.
  iApply wp_bind. iApply (wp_modify with "Hn"). iIntros "Hn". node_simpl.
  iApply wp_bind. iApply (wp_reparent_black with "Ha"); [done|]. iIntros "Ha".
  iApply wp_bind. iApply (wp_modify with "Hp"). iIntros "Hp". node_simpl.
  iApply wp_bind. iApply (wp_load with "Hn"). iIntros "Hn". node_simpl.
  iApply wp_ret. iApply ("HΦ" with "Hp Hn Ha").
Qed.

(** Case 3: [parent], with its subtree [t] outside and [tmp] inside, rises
    above the grandparent. *)
Lemma wp_insert_case3 d parent gparent root π po t tmp u Φ :
  is_black tmp →
  path_own root π (Some gparent) -∗
  gparent ↦ CNode (mkN d (ppar π) Black (Some po) (tptr u)) -∗
  (∃ par c, parent ↦ CNode (mkN d par c (tptr t) (tptr tmp))) -∗
  tree_own (Some parent) tmp -∗
  (path_own root π (Some parent) -∗
   parent ↦ CNode (mkN d (ppar π) Black (tptr t) (Some gparent)) -∗
   gparent ↦ CNode (mkN d (Some parent) Red (tptr tmp) (tptr u)) -∗
   tree_own (Some gparent) tmp -∗ Φ tt) -∗
  wp (insert_case3 d parent gparent root (tptr tmp)) Φ.
Proof.
  iIntros (Hb) "Hπ Hg (%par & %c & Hp) Ht HΦ".
  iApply wp_bind. iApply (wp_modify with "Hg"). iIntros "Hg". node_simpl.
  iApply wp_bind. iApply (wp_modify with "Hp"). iIntros "Hp". node_simpl.
  iApply wp_bind. iApply (wp_reparent_black with "Ht"); [done|]. iIntros "Ht".
  iApply (wp_rotate with "Hπ Hg Hp"). iIntros "Hπ Hg Hp". node_simpl.
  iApply ("HΦ" with "Hπ Hp Hg Ht").
Qed.

(** Cases 2 and 3 together, for a node [x] under the red parent [p]: the
    subtree of the grandparent [g] after the rotations. *)
Lemma wp_insert_rotate d d1 root π a x b sp p u g n Φ :
  rb n a → rb n b → rb n sp → rb n u → is_black a → is_black b → is_black sp → is_black u →
  path_own root π (Some g) -∗
  tree_own (ppar π) (mkT d Black (mkT d1 Red (T Red a x b) p sp) g u) -∗
  (∀ t, ⌜inorder t = inorder (mkT d Black (mkT d1 Red (T Red a x b) p sp) g u) ∧ rb (S n) t ∧ is_black t⌝ -∗
        path_own root π (tptr t) -∗ tree_own (ppar π) t -∗ Φ tt) -∗
  wp (pt <- insert_case2 d x p;; insert_case3 d pt.1 g root pt.2) Φ.
Proof.
  iIntros (Ha Hb Hs Hu Hba Hbb Hbs Hbu) "Hπ Ht HΦ". rewrite !tree_own_mkT !tptr_mkT.
  iDestruct "Ht" as "(Hg & (Hp & Hx & Hs) & Hu)". iApply wp_bind.
  destruct (decide (d1 = d)) as [->|Hd].
  - iDestruct "Hx" as "(Hx & Ha & Hb)". simpl.
    iApply (wp_insert_case2_outer with "Hp Hs Hx"). iIntros "Hp Hs Hx". simpl.
    iApply (wp_insert_case3 _ _ _ _ _ _ (T Red a x b) sp u with "Hπ Hg [Hp] Hs"); [done|by iExists _, _|].
    iIntros "Hπ Hp Hg Hs".
    iApply ("HΦ" $! (mkT d Black (T Red a x b) p (mkT d Red sp g u)) with "[%] [Hπ] [-]"); rewrite ?tptr_mkT.
    + split_and!; [symmetry; apply inorder_rotate| |by apply is_black_mkT].
      apply rb_mkT_black. split; [done|]. by apply rb_mkT_red.
    + done.
    + rewrite tree_own_mkT tptr_mkT tree_own_mkT. simpl. iFrame.
  - (* the node hangs on the inner side: rotate it above its parent first *)
    assert (d1 = opp d) as -> by (by destruct d, d1). rewrite mkN_opp.
    assert (∃ a' b', T Red a x b = mkT d Red a' x b' ∧ rb n a' ∧ rb n b' ∧ is_black a' ∧ is_black b')
      as (a' & b' & -> & Ha' & Hb' & Hba' & Hbb').
    { destruct d; [by exists a, b|by exists b, a]. }
    rewrite tree_own_mkT. iDestruct "Hx" as "(Hx & Ha & Hb)". rewrite tptr_mkT.
    iApply (wp_insert_case2_inner with "Hp Hx Ha"); [done|]. iIntros "Hp Hx Ha". simpl.
    iApply (wp_insert_case3 _ _ _ _ _ _ (mkT d Red sp p a') b' u with "Hπ Hg [Hx] Hb"); [done| |].
    { rewrite tptr_mkT. by iExists _, _. }
    iIntros "Hπ Hx Hg Hb".
    iApply ("HΦ" $! (mkT d Black (mkT d Red sp p a') x (mkT d Red b' g u)) with "[%] [Hπ] [-]"); rewrite ?tptr_mkT.
    + split_and!; [|by rewrite rb_mkT_black !rb_mkT_red|by apply is_black_mkT].
      rewrite mkT_opp. destruct d; simpl; by repeat (rewrite -app_assoc /=).
    + done.
    + rewrite !tree_own_mkT !tptr_mkT. iFrame.
Qed.

(** The loop terminates (the fuel is the length of the path) with a valid tree
    that has the same nodes in the same order. *)
Lemma wp_insert_loop fuel root π a x b n Φ :
  (length π < fuel)%nat → rb n a → rb n b → is_black a → is_black b → path_ok n π →
  path_own root π (Some x) -∗ tree_own (ppar π) (T Red a x b) -∗
  (tree_done root (inorder (plug π (T Red a x b))) -∗ Φ tt) -∗
  wp (__rb_insert_loop fuel x (ppar π) root) Φ.
Proof.
  iInduction fuel as [|fuel] "IH" forall (π a x b n); iIntros (Hf Ha Hb Hba Hbb Hπ) "Hπ Ht HΦ"; [lia|].
  destruct π as [|[[[d1 [|]] p] sp] π]; cbn [__rb_insert_loop ppar].
  - (* the node is the root *)
    iDestruct "Ht" as "(Hx & Ha & Hb)". iApply (wp_modify with "Hx"). iIntros "Hx". iApply "HΦ".
    iExists (T Black a x b). iFrame. iPureIntro. split; [done|]. split; [done|]. by exists (S n).
  - destruct π as [|[[[d [|]] g] u] π]; [destruct Hπ as (_ & _ & [] & _)
      |destruct Hπ as (_ & _ & [] & _)|].
    destruct Hπ as (Hs & Hbs & _ & Hu & Hπ). cbn [path_own ppar] in *.
    iDestruct "Hπ" as "(Hp & Hs & Hg & Hu & Hπ)".
    iApply wp_bind. iApply (wp_load with "Hp"). iIntros "Hp". node_simpl.
    case_decide as Hc; [done|clear Hc]. iApply wp_bind. iApply wp_deref.
    iApply wp_bind. iApply (wp_load with "Hg"). iIntros "Hg".
    iDestruct (tree_own_ne with "Hu Hp") as %Hne.
    assert ((if decide (rb_right (mkN d (ppar π) Black (Some p) (tptr u)) ≠ Some p) then DL else DR) = d) as ->.
    { destruct d; simpl; case_decide; done. }
    node_simpl. iApply wp_bind.
    destruct (decide (is_black u)) as [Hbu|Hru].
    + iApply (wp_is_red with "Hu"). iIntros "Hu". rewrite bool_decide_false; [|tauto].
      iApply (wp_insert_rotate d d1 root π a x b sp p u g n with "Hπ [-HΦ]"); try done.
      { rewrite !tree_own_mkT !tptr_mkT. iFrame. }
      iIntros (t (Hin & Hrb & Hbt)) "Hπ Ht". iApply "HΦ".
      iApply (tree_done_plug with "Hπ Ht"); [done|done|by left|]. simpl. by apply plug_inorder.
    + iApply (wp_is_red with "Hu"). iIntros "Hu". rewrite bool_decide_true; [|done].
      destruct u as [|[] ul ux ur]; [by destruct Hru| |by destruct Hru]. iDestruct "Hu" as "(Hux & Hul & Hur)".
      iApply wp_bind. iApply wp_deref.
      iApply wp_bind. iApply (wp_modify with "Hux"). iIntros "Hux".
      iApply wp_bind. iApply (wp_modify with "Hp"). iIntros "Hp". node_simpl.
      iApply wp_bind. iApply (wp_load with "Hg"). iIntros "Hg". node_simpl.
      iApply wp_bind. iApply (wp_modify with "Hg"). iIntros "Hg". node_simpl.
      assert (∃ a' b', mkT d Red (mkT d1 Black (T Red a x b) p sp) g (T Black ul ux ur) = T Red a' g b' ∧
               rb (S n) a' ∧ rb (S n) b' ∧ is_black a' ∧ is_black b')
        as (a' & b' & Heq & Ha' & Hb' & Hba' & Hbb').
      { assert (rb (S n) (mkT d1 Black (T Red a x b) p sp)) by by apply rb_mkT_black.
        assert (rb (S n) (T Black ul ux ur)) by (simpl in Hu |- *; tauto).
        assert (is_black (mkT d1 Black (T Red a x b) p sp)) by by apply is_black_mkT.
        destruct d; [by eexists _, _|by eexists _, _]. }
      iApply ("IH" $! π a' g b' (S n) with "[%] [//] [//] [//] [//] [//] Hπ [-HΦ]"); [simpl in Hf; lia| |].
      { rewrite -Heq tree_own_mkT tptr_mkT tree_own_mkT. simpl. iFrame. }
      iIntros "Hd". iApply "HΦ". simpl. rewrite -Heq.
      erewrite plug_inorder; [done|]. by apply inorder_mkT_eq; [apply inorder_mkT_eq|].
  - (* a black parent: nothing to do *)
    destruct Hπ as [Hs Hπ]. iDestruct "Hπ" as "(Hp & Hs & Hπ)".
    iApply wp_bind. iApply (wp_load with "Hp"). iIntros "Hp". node_simpl.
    case_decide as Hc; [clear Hc|done]. iApply wp_ret. iApply "HΦ".
    iApply (tree_done_plug _ ((d1, Black, p, sp) :: π) (T Red a x b) n with "[Hp Hs Hπ] Ht");
      [done|done|by right|done|]. simpl. iFrame.
Qed.

End insert.
