(* ===== verification/RbtreeWalk.v ===== *)
(** * Walking a red-black tree

    [rb_first], [rb_last], [rb_next] and [rb_prev] enumerate the nodes in order;
    the height of a valid tree, which bounds every loop of the component, is
    logarithmic in the number of nodes. *)
From stdpp Require Import gmap.
From iris.proofmode Require Import proofmode.
From iris.base_logic.lib Require Import gen_heap.
From S2P Require Import Prelude Rbtree RbtreeLogic RbtreeInsert.

(** ** The nodes of a tree, in the direction of a walk *)

Fixpoint walk (d : dir) (t : tree) : list loc :=
  match t with
  | E => []
  | T _ l x r => match d with DR => walk d l ++ x :: walk d r | DL => walk d r ++ x :: walk d l end
  end.

(** The nodes after the focus of a path, in direction [d], nearest first. *)
Fixpoint beyond (d : dir) (π : path) : list loc :=
  match π with
  | [] => []
  | (d', _, x, sib) :: π =>
      if decide (d' = opp d) then x :: walk d sib ++ beyond d π else beyond d π
  end.

Fixpoint height (t : tree) : nat :=
  match t with E => 0 | T _ l _ r => S (Nat.max (height l) (height r)) end.

Lemma walk_mkT d c a x b : walk d (mkT d c a x b) = walk d b ++ x :: walk d a.
Proof. by destruct d. Qed.
Lemma walk_mkT_opp d c a x b : walk d (mkT (opp d) c a x b) = walk d a ++ x :: walk d b.
Proof. by destruct d. Qed.

Lemma walk_right t : walk DR t = inorder t.
Proof. induction t as [|c l IHl x r IHr]; simpl; [done|]. by rewrite IHl IHr. Qed.

Lemma walk_opp d t : walk (opp d) t = rev (walk d t).
Proof.
  induction t as [|c l IHl x r IHr]; [by destruct d|].
  destruct d; simpl in *; rewrite rev_app_distr /= IHl IHr -app_assoc //.
Qed.

Lemma elem_of_rev {A} (x : A) l : x ∈ rev l ↔ x ∈ l.
Proof. rewrite rev_alt. apply elem_of_reverse. Qed.

(** The walk over a whole tree, split at the focus of a path. *)
Lemma walk_plug d π t : walk d (plug π t) = rev (beyond (opp d) π) ++ walk d t ++ beyond d π.
Proof.
  revert t. induction π as [|[[[d' c] x] sib] π IH]; intros t; simpl; [by rewrite app_nil_r|].
  rewrite IH. destruct (decide (d' = opp d)) as [->|Hd].
  - rewrite decide_False; [|by destruct d]. by rewrite walk_mkT_opp -app_assoc.
  - assert (d' = d) as -> by by destruct d, d'. rewrite opp_opp decide_True; [|done].
    rewrite walk_mkT walk_opp /= rev_app_distr rev_involutive. by rewrite -!app_assoc.
Qed.

Lemma inorder_plug π t :
  inorder (plug π t) = rev (beyond DL π) ++ inorder t ++ beyond DR π.
Proof. by rewrite -!walk_right walk_plug. Qed.

(** The nodes on either side of the focus, in order. *)
Definition before (π : path) (t : tree) : list loc := rev (beyond DL π) ++ inorder t.
Definition after (t : tree) (π : path) : list loc := inorder t ++ beyond DR π.

Lemma inorder_plug_T π c l x r : inorder (plug π (T c l x r)) = before π l ++ x :: after r π.
Proof. rewrite inorder_plug /before /after /=. by rewrite -!app_assoc. Qed.

(** Every node of a tree is the focus of some path. *)
Lemma focus t x : x ∈ inorder t → ∃ π c l r, t = plug π (T c l x r).
Proof.
  intros Hx. enough (∀ π, ∃ π' c l r, plug π t = plug π' (T c l x r)) as He by apply (He []).
  induction t as [|c l IHl y r IHr]; intros π; simpl in Hx; [set_solver|].
  rewrite elem_of_app elem_of_cons in Hx. destruct Hx as [Hx|[->|Hx]].
  - apply (IHl Hx ((DL, c, y, r) :: π)).
  - by eexists _, _, _, _.
  - apply (IHr Hx ((DR, c, y, l) :: π)).
Qed.

(** ** Heights *)

Lemma height_mkT d c a x b : height (mkT d c a x b) = S (Nat.max (height a) (height b)).
Proof. destruct d; simpl; lia. Qed.

Lemma height_plug π t : (length π + height t ≤ height (plug π t))%nat.
Proof.
  revert t. induction π as [|[[[d c] x] sib] π IH]; intros t; simpl; [lia|].
  specialize (IH (mkT d c t x sib)). rewrite height_mkT in IH. lia.
Qed.

(** A tree of black height [n] has at least [2 ^ n - 1] nodes, and is at most
    twice as high (once more when its root is red). *)
Lemma rb_size n t : rb n t → (2 ^ n ≤ S (length (inorder t)))%nat.
Proof.
  revert n. induction t as [|[] l IHl x r IHr]; intros n; simpl; [by intros ->| |].
  - intros (_ & _ & Hl & Hr). specialize (IHl _ Hl). rewrite length_app /=. lia.
  - destruct n as [|n]; [done|]. intros [Hl Hr]. specialize (IHl _ Hl). specialize (IHr _ Hr).
    rewrite length_app /=. lia.
Qed.

Lemma rb_height n t : rb n t → (height t ≤ 2 * n + if decide (is_black t) then 0 else 1)%nat.
Proof.
  revert n. induction t as [|[] l IHl x r IHr]; intros n; simpl; [by intros ->| |].
  - intros (Hbl & Hbr & Hl & Hr). specialize (IHl _ Hl). specialize (IHr _ Hr).
    rewrite decide_True in IHl; [|done]. rewrite decide_True in IHr; [|done]. lia.
  - destruct n as [|n]; [done|]. intros [Hl Hr]. specialize (IHl _ Hl). specialize (IHr _ Hr).
    repeat case_decide; try done; lia.
Qed.

(** The loops make at most [2 * log2 (n + 1)] steps in a tree of [n] nodes. *)
Lemma valid_height t : valid t → (height t ≤ 2 * Nat.log2 (S (length (inorder t))))%nat.
Proof.
  intros [Hb [n Hn]]. pose proof (rb_height n t Hn) as Hh. rewrite decide_True in Hh; [|done].
  pose proof (rb_size n t Hn) as Hs. apply Nat.log2_le_mono in Hs. rewrite Nat.log2_pow2 in Hs; lia.
Qed.

(** ** Validity around a focus *)

Lemma unplug_valid π t : valid (plug π t) → ∃ n, path_ok n π ∧ rb n t ∧ (is_black t ∨ head_black π).
Proof.
  revert t. induction π as [|[[[d c] x] sib] π IH]; intros t; simpl.
  - intros [Hb [n Hn]]. exists n. auto.
  - intros Hv. destruct (IH _ Hv) as (n & Hπ & Hn & Hb). destruct c.
    + apply rb_mkT_red in Hn as (Ht & Hs & Hnt & Hns). exists n. rewrite is_black_mkT in Hb.
      destruct Hb as [|Hb]; [done|]. auto.
    + destruct n as [|n]; [by destruct d|]. apply rb_mkT_black in Hn as [Ht Hs]. exists n. auto.
Qed.

Section walk.
Context `{!gen_heapGS loc cell Σ}.

(** ** Nodes are distinct *)

Lemma tree_own_in par t a :
  a ∈ inorder t → tree_own par t -∗ ∃ n, a ↦ CNode n ∗ (a ↦ CNode n -∗ tree_own par t).
Proof.
  iIntros (Ha) "Ht". iInduction t as [|c l IHl x r IHr] forall (par); simpl in Ha; [set_solver|].
  rewrite elem_of_app elem_of_cons in Ha. iDestruct "Ht" as "(Hx & Hl & Hr)".
  destruct Ha as [Ha|[->|Ha]].
  - iDestruct ("IHl" with "[//] Hl") as (n) "[Ha Hl]". iExists n. iFrame. iIntros "Ha". simpl. iFrame.
    by iApply "Hl".
  - iExists _. iFrame. iIntros "Hx". simpl. iFrame.
  - iDestruct ("IHr" with "[//] Hr") as (n) "[Ha Hr]". iExists n. iFrame. iIntros "Ha". simpl. iFrame.
    by iApply "Hr".
Qed.

Lemma tree_own_fresh par t a c : tree_own par t -∗ a ↦ c -∗ ⌜a ∉ inorder t⌝.
Proof.
  iIntros "Ht Ha" (Hin). iDestruct (tree_own_in with "Ht") as (n) "[Hn _]"; [done|].
  by iDestruct (own_ne with "Ha Hn") as %Hne.
Qed.

Lemma tree_own_NoDup par t : tree_own par t -∗ ⌜NoDup (inorder t)⌝.
Proof.
  iInduction t as [|c l IHl x r IHr] forall (par); simpl; [iIntros "_ !%"; constructor|].
  iIntros "(Hx & Hl & Hr)".
  iDestruct (tree_own_fresh with "Hl Hx") as %Hxl. iDestruct (tree_own_fresh with "Hr Hx") as %Hxr.
  iAssert ⌜∀ a, a ∈ inorder l → a ∉ inorder r⌝%I as %Hlr.
  { iIntros (a Hl). iDestruct (tree_own_in with "Hl") as (n) "[Ha _]"; [done|].
    iApply (tree_own_fresh with "Hr Ha"). }
  iDestruct ("IHl" with "Hl") as %Hl. iDestruct ("IHr" with "Hr") as %Hr. iPureIntro.
  apply NoDup_app. split_and!; [done|set_solver|]. by constructor.
Qed.

(** ** The walks *)

Lemma wp_extreme fuel d par c l x r Φ :
  (height (T c l x r) ≤ fuel)%nat →
  tree_own par (T c l x r) -∗
  (∀ a, ⌜head (walk (opp d) (T c l x r)) = Some a⌝ -∗ tree_own par (T c l x r) -∗ Φ a) -∗
  wp (rb_extreme fuel d x) Φ.
Proof.
  iIntros (Hf) "Ht HΦ". iInduction fuel as [|fuel] "IH" forall (par c l x r Hf Φ); [simpl in Hf; lia|].
  cbn [rb_extreme].
  assert (∃ a b, T c l x r = mkT d c a x b ∧ (height a ≤ fuel)%nat) as (a & b & Heq & Ha).
  { simpl in Hf. destruct d; [exists l, r|exists r, l]; (split; [done|lia]). }
  rewrite Heq. iDestruct (tree_own_mkT with "Ht") as "(Hx & Ha & Hb)".
  iApply wp_bind. iApply (wp_load with "Hx"). iIntros "Hx". node_simpl.
  destruct a as [|ca la xa ra]; cbn [tptr].
  - iApply wp_ret. iApply ("HΦ" with "[%]"); [|iApply tree_own_mkT; iFrame].
    rewrite -{2}(opp_opp d) walk_mkT_opp. by destruct d.
  - iApply ("IH" with "[//] Ha"). iIntros (z Hz) "Ha". iApply ("HΦ" with "[%]"); [|iApply tree_own_mkT; iFrame].
    rewrite -{2}(opp_opp d) walk_mkT_opp. destruct (walk (opp d) (T ca la xa ra)); done.
Qed.

Lemma wp_climb fuel d root π x n Φ :
  (length π < fuel)%nat → rb_parent n = ppar π →
  path_own root π (Some x) -∗ x ↦ CNode n -∗
  (path_own root π (Some x) -∗ x ↦ CNode n -∗ Φ (head (beyond d π))) -∗
  wp (rb_climb fuel d x) Φ.
Proof.
  iIntros (Hf Hn) "Hπ Hx HΦ". iInduction fuel as [|fuel] "IH" forall (π x n Hf Hn Φ); [lia|].
  cbn [rb_climb]. iApply wp_bind. iApply (wp_load with "Hx"). iIntros "Hx". rewrite Hn.
  destruct π as [|[[[d' c] p] sib] π]; cbn [ppar path_own beyond].
  { iApply wp_ret. iApply ("HΦ" with "Hπ Hx"). }
  iDestruct "Hπ" as "(Hp & Hs & Hπ)". iApply wp_bind. iApply (wp_load with "Hp"). iIntros "Hp".
  iDestruct (tree_own_ne with "Hs Hx") as %Hne. destruct (decide (d' = opp d)) as [->|Hd].
  - rewrite mkN_opp. node_simpl. case_decide as Hc; [done|]. iApply wp_ret. iApply ("HΦ" with "[-Hx] Hx").
    iFrame.
  - assert (d' = d) as -> by by destruct d, d'. node_simpl. case_decide as Hc; [clear Hc|done].
    iApply ("IH" with "[%] [%] Hπ Hp"); [simpl in Hf; lia|by rewrite rb_parent_mkN|].
    iIntros "Hπ Hp". iApply ("HΦ" with "[-Hx] Hx"). iFrame.
Qed.

(** [rb_next] ([d] = right) and [rb_prev] ([d] = left). *)
Lemma wp_step fuel d root π c a x b Φ :
  (height (plug π (mkT d c a x b)) ≤ fuel)%nat →
  path_own root π (Some x) -∗ tree_own (ppar π) (mkT d c a x b) -∗
  (path_own root π (Some x) -∗ tree_own (ppar π) (mkT d c a x b) -∗
   Φ (head (walk d a ++ beyond d π))) -∗
  wp (rb_step fuel d x) Φ.
Proof.
  iIntros (Hf) "Hπ Ht HΦ". pose proof (height_plug π (mkT d c a x b)) as Hh. rewrite height_mkT in Hh.
  own_simpl. iDestruct "Ht" as "(Hx & Ha & Hb)".
  iApply wp_bind. iApply (wp_load with "Hx"). iIntros "Hx". node_simpl.
  iAssert ⌜ppar π ≠ Some x⌝%I as %Hne.
  { destruct π as [|[[[d' c'] p] sib] π]; [done|]. iDestruct "Hπ" as "(Hp & _)".
    iDestruct (own_ne with "Hp Hx") as %Hne. iPureIntro. simpl. congruence. }
  case_decide as Hc; [tauto|clear Hc]. destruct a as [|ca la xa ra]; cbn [tptr].
  - iApply (wp_climb with "Hπ Hx"); [lia|by rewrite rb_parent_mkN|]. iIntros "Hπ Hx".
    iApply ("HΦ" with "Hπ"). iFrame.
  - iApply wp_bind. iApply (wp_extreme with "Ha"); [lia|]. iIntros (z Hz) "Ha". iApply wp_ret.
    rewrite opp_opp in Hz. rewrite head_app Hz. cbn [default]. iApply ("HΦ" with "Hπ"). iFrame.
Qed.

Lemma wp_end fuel d root t Φ :
  (height t ≤ fuel)%nat →
  tree_own None t -∗ root ↦ CPtr (tptr t) -∗
  (tree_own None t -∗ root ↦ CPtr (tptr t) -∗ Φ (head (walk (opp d) t))) -∗
  wp (rb_end fuel d root) Φ.
Proof.
  iIntros (Hf) "Ht Hr HΦ". iApply wp_bind. iApply (wp_load_ptr with "Hr"). iIntros "Hr".
  destruct t as [|c l x r]; cbn [tptr]; [iApply wp_ret; iApply ("HΦ" with "Ht Hr")|].
  iApply wp_bind. iApply (wp_extreme with "Ht"); [done|]. iIntros (a Ha) "Ht". iApply wp_ret.
  rewrite Ha. iApply ("HΦ" with "Ht Hr").
Qed.

End walk.
