(* ===== verification/RbtreeErase.v ===== *)
(** * Erasure from a red-black tree

    The balancing loop [____rb_erase_color] restores the black height, and
    [__rb_erase_augmented] unlinks a node: together they remove exactly that
    node and leave a valid tree. *)
From stdpp Require Import gmap.
From iris.proofmode Require Import proofmode.
From iris.base_logic.lib Require Import gen_heap.
From S2P Require Import Prelude Rbtree RbtreeLogic RbtreeInsert RbtreeWalk.

(** A tree of positive black height, seen from side [d]. *)
Lemma rb_nonempty d n t : rb (S n) t → ∃ c a x b, t = mkT d c a x b.
Proof. destruct t as [|c l x r]; [done|]. intros _. destruct d; [by exists c, l, x, r|by exists c, r, x, l]. Qed.

Lemma red_nonempty d t : ¬ is_black t → ∃ a x b, t = mkT d Red a x b.
Proof. destruct t as [|[] l x r]; simpl; [tauto| |tauto]. intros _. destruct d; [by exists l, x, r|by exists r, x, l]. Qed.

(** The ways a node [x] with at most one child [b] can sit in a valid tree. *)
Lemma single_child n d c x b :
  rb n (mkT d c E x b) →
  (b = E ∧ c = Red ∧ n = 0%nat) ∨ (b = E ∧ c = Black ∧ n = 1%nat) ∨
  (∃ y, b = T Red E y E ∧ c = Black ∧ n = 1%nat).
Proof.
  intros Hrb. destruct c.
  - apply rb_mkT_red in Hrb as (_ & Hb & Hn & Hbn). simpl in Hn. subst n.
    destruct b as [|[] l y r]; [auto|done|by destruct Hbn].
  - destruct n as [|n]; [by destruct d|]. apply rb_mkT_black in Hrb as [Hn Hbn]. simpl in Hn. subst n.
    destruct b as [|[] l y r]; [auto| |by destruct Hbn].
    destruct Hbn as (Hl & Hr & Hnl & Hnr). right; right. exists y.
    destruct l as [|[]]; [|done|by destruct Hnl]. destruct r as [|[]]; [done|done|by destruct Hnr].
Qed.

(** The address of the last node of a path does not matter to the rules. *)
Lemma path_ok_rename n ρ d c x y sib π :
  path_ok n (ρ ++ (d, c, x, sib) :: π) → path_ok n (ρ ++ (d, c, y, sib) :: π).
Proof.
  revert n. induction ρ as [|[[[d' c'] z] sib'] ρ IH]; intros n; [done|]. simpl. destruct c'.
  - intros (? & ? & ? & ?). split_and!; auto. destruct ρ as [|[[[? ?] ?] ?] ?]; done.
  - intros (? & ?). auto.
Qed.

(** A path segment: the pointer at its top, and the parent of its focus. *)
Definition spar (par : ptr) (ρ : path) : ptr := match ρ with [] => par | (_, _, x, _) :: _ => Some x end.
Fixpoint ptop (ρ : path) (f : ptr) : ptr :=
  match ρ with [] => f | (_, _, x, _) :: ρ => ptop ρ (Some x) end.

Lemma plug_app ρ π t : plug (ρ ++ π) t = plug π (plug ρ t).
Proof. revert t. induction ρ as [|[[[d c] x] sib] ρ IH]; intros t; simpl; [done|]. apply IH. Qed.

Lemma tptr_plug ρ t : tptr (plug ρ t) = ptop ρ (tptr t).
Proof.
  revert t. induction ρ as [|[[[d c] x] sib] ρ IH]; intros t; simpl; [done|]. by rewrite IH tptr_mkT.
Qed.

Section erase.
Context `{!gen_heapGS loc cell Σ}.

(** Case 1: afterwards the sibling is black, and the tree around the node is the
    same up to a rotation. *)
Lemma wp_erase_case1 root d c p sib s π f n Φ :
  tptr sib = Some s → path_ok (S n) ((d, c, p, sib) :: π) →
  path_own root ((d, c, p, sib) :: π) f -∗
  (∀ c' sib' s' π', ⌜tptr sib' = Some s' ∧ is_black sib' ∧ path_ok (S n) ((d, c', p, sib') :: π') ∧
      (c' = Black → π' = π) ∧
      ∀ t, inorder (plug ((d, c', p, sib') :: π') t) = inorder (plug ((d, c, p, sib) :: π) t)⌝ -∗
     path_own root ((d, c', p, sib') :: π') f -∗ Φ s') -∗
  wp (erase_case1 d p s root) Φ.
Proof.
  iIntros (Hs Hok) "Hπ HΦ".
  assert (Hrb : rb (S n) sib) by (destruct c; simpl in Hok; tauto).
  destruct (rb_nonempty d n sib Hrb) as (cs & sl & s0 & sr & ->). rewrite tptr_mkT in Hs. injection Hs as ->.
  iDestruct "Hπ" as "(Hp & Hs & Hπ)". rewrite tptr_mkT tree_own_mkT. iDestruct "Hs" as "(Hs & Hsl & Hsr)".
  iApply wp_bind. iApply (wp_load with "Hs"). iIntros "Hs". node_simpl.
  case_decide as Hc; subst.
  - assert (c = Black) as -> by (destruct c; [|done]; destruct Hok as (_ & Hb & _); by apply is_black_mkT in Hb).
    destruct Hok as [_ Hπok]. apply rb_mkT_red in Hrb as (Hbl & Hbr & Hl & Hr).
    destruct (rb_nonempty d n sl Hl) as (cl & a & x & b & ->). rewrite tptr_mkT.
    assert (cl = Black) as -> by by apply is_black_mkT in Hbl.
    rewrite tree_own_mkT. iDestruct "Hsl" as "(Hx & Ha & Hb)".
    iApply wp_bind. iApply (wp_modify with "Hp"). iIntros "Hp". node_simpl.
    iApply wp_bind. iApply (wp_modify with "Hs"). iIntros "Hs". node_simpl.
    iApply wp_bind. iApply wp_deref.
    iApply wp_bind. iApply (wp_modify with "Hx"). iIntros "Hx". node_simpl.
    iApply wp_bind. iApply (wp_rotate with "Hπ Hp Hs"). iIntros "Hπ Hp Hs". node_simpl.
    iApply wp_ret.
    iApply ("HΦ" $! Red (mkT d Black a x b) x ((d, Black, s, sr) :: π) with "[%]").
    + rewrite tptr_mkT. split_and!; [done|done|by simpl|done|]. intros t. simpl. apply plug_inorder.
      rewrite (inorder_rotate d Black Red Black Red t p (mkT d Black a x b) s sr).
      by apply inorder_mkT_eq; [|apply inorder_mkT_eq].
    + simpl. rewrite tree_own_mkT tptr_mkT. iFrame.
  - assert (cs = Black) as -> by by destruct cs.
    iApply wp_ret. iApply ("HΦ" $! c (mkT d Black sl s sr) s π with "[%]").
    + rewrite tptr_mkT. split_and!; try done. by apply is_black_mkT.
    + simpl. rewrite tree_own_mkT tptr_mkT. iFrame.
Qed.

(** Case 4: the sibling [s] takes the place and the colour of the parent; its
    far child [x] and the parent become black. *)
Lemma wp_erase_case4 root d p s x π c t sl m pb ps cs xn Φ :
  path_own root π (Some p) -∗
  p ↦ CNode (mkN d (ppar π) c (tptr t) pb) -∗
  s ↦ CNode (mkN d ps cs (tptr sl) m) -∗ tree_own (Some s) sl -∗
  x ↦ CNode xn -∗
  (path_own root π (Some s) -∗
   s ↦ CNode (mkN d (ppar π) c (Some p) m) -∗
   p ↦ CNode (mkN d (Some s) Black (tptr t) (tptr sl)) -∗ tree_own (Some p) sl -∗
   x ↦ CNode (upd_pc (Some s) Black xn) -∗ Φ tt) -∗
  wp (erase_case4 d p s x root) Φ.
Proof.
  iIntros "Hπ Hp Hs Hsl Hx HΦ". iApply wp_bind. iApply (wp_load with "Hs"). iIntros "Hs". node_simpl.
  iApply wp_bind. iApply (wp_modify with "Hp"). iIntros "Hp". node_simpl.
  iApply wp_bind. iApply (wp_modify with "Hs"). iIntros "Hs". node_simpl.
  iApply wp_bind. iApply (wp_modify with "Hx"). iIntros "Hx".
  iApply wp_bind. iApply (wp_reparent with "Hsl"). iIntros "Hsl".
  iApply (wp_rotate with "Hπ Hp Hs"). iIntros "Hπ Hp Hs". node_simpl.
  iApply ("HΦ" with "Hπ Hs Hp Hsl Hx").
Qed.

(** Case 3: the near red child [x] of the sibling rises above it. *)
Lemma wp_erase_case3 d p s x par c f a b sr ps Φ :
  is_black b →
  p ↦ CNode (mkN d par c f (Some s)) -∗
  s ↦ CNode (mkN d ps Black (Some x) (tptr sr)) -∗
  x ↦ CNode (mkN d (Some s) Red (tptr a) (tptr b)) -∗ tree_own (Some x) b -∗
  (p ↦ CNode (mkN d par c f (Some x)) -∗
   s ↦ CNode (mkN d ps Black (tptr b) (tptr sr)) -∗
   x ↦ CNode (mkN d (Some s) Red (tptr a) (Some s)) -∗ tree_own (Some s) b -∗ Φ tt) -∗
  wp (erase_case3 d p s x) Φ.
Proof.
  iIntros (Hb) "Hp Hs Hx Hb HΦ". iApply wp_bind. iApply (wp_load with "Hx"). iIntros "Hx". node_simpl.
  iApply wp_bind. iApply (wp_modify with "Hs"). iIntros "Hs". node_simpl.
  iApply wp_bind. iApply (wp_modify with "Hx"). iIntros "Hx". node_simpl.
  iApply wp_bind. iApply (wp_modify with "Hp"). iIntros "Hp". node_simpl.
  iApply (wp_reparent_black with "Hb"); [done|]. iIntros "Hb". iApply ("HΦ" with "Hp Hs Hx Hb").
Qed.

(** The side the code computes is the side of the path. *)
Lemma erase_side d c sib π f :
  tptr sib ≠ f →
  (if decide (rb_right (mkN d (ppar π) c f (tptr sib)) ≠ f) then DL else DR) = d.
Proof. intros Hne. destruct d; simpl; case_decide; done. Qed.

Lemma tree_own_roots par par' t t' s :
  tptr t' = Some s → tree_own par t -∗ tree_own par' t' -∗ ⌜tptr t' ≠ tptr t⌝.
Proof.
  iIntros (Hs) "Ht Ht'". destruct t' as [|c' l' x' r']; [done|]. iDestruct "Ht'" as "(Hx & _)".
  iDestruct (tree_own_ne with "Ht Hx") as %Hne. iPureIntro. simpl. congruence.
Qed.

(** A subtree with two black children in the place of the parent closes the
    path. *)
Lemma path_ok_close n d c p sib π a x b :
  path_ok (S n) ((d, c, p, sib) :: π) → rb (S n) a → rb (S n) b → is_black a → is_black b →
  ∃ m, path_ok m π ∧ rb m (mkT d c a x b) ∧ (is_black (mkT d c a x b) ∨ head_black π).
Proof.
  intros Hok Ha Hb Hba Hbb. destruct c; simpl in Hok.
  - exists (S n). split_and!; [tauto|by apply rb_mkT_red|tauto].
  - exists (S (S n)). split_and!; [tauto|by apply rb_mkT_black|left; by apply is_black_mkT].
Qed.

(** Case 4 on the whole: the far nephew is red. *)
Lemma wp_erase_far root d c p s x π t sl a b n Φ :
  rb n t → rb n sl → rb n (mkT d Red a x b) →
  path_ok (S n) ((d, c, p, mkT d Black sl s (mkT d Red a x b)) :: π) →
  path_own root π (Some p) -∗
  tree_own (ppar π) (mkT d c t p (mkT d Black sl s (mkT d Red a x b))) -∗
  (tree_done root (inorder (plug π (mkT d c t p (mkT d Black sl s (mkT d Red a x b))))) -∗ Φ tt) -∗
  wp (erase_case4 d p s x root) Φ.
Proof.
  iIntros (Ht Hl Hr Hok) "Hπ Ht HΦ". apply rb_mkT_red in Hr as (Hba & Hbb & Ha & Hb).
  own_simpl.
  iDestruct "Ht" as "(Hp & Ht & Hs & Hsl & Hx & Ha & Hb)".
  iApply (wp_erase_case4 with "Hπ Hp Hs Hsl Hx"). iIntros "Hπ Hs Hp Hsl Hx". node_simpl. iApply "HΦ".
  destruct (path_ok_close n d c p _ π (mkT d Black t p sl) s (mkT d Black a x b) Hok) as (m & Hm & Hrb & Hbl);
    [by apply rb_mkT_black|by apply rb_mkT_black|by apply is_black_mkT|by apply is_black_mkT|].
  iApply (tree_done_plug with "[Hπ]"); [done|done|done| |by rewrite tptr_mkT|].
  - apply plug_inorder. rewrite (inorder_rotate d c Black c Black). by do 3 (apply inorder_mkT_eq; [done|]).
  - own_simpl. iFrame.
Qed.

(** Case 3, then Case 4: only the near nephew is red. *)
Lemma wp_erase_near root d c p s x π t sr a b n Φ :
  rb n t → rb n sr → is_black sr → rb n (mkT d Red a x b) →
  path_ok (S n) ((d, c, p, mkT d Black (mkT d Red a x b) s sr) :: π) →
  path_own root π (Some p) -∗
  tree_own (ppar π) (mkT d c t p (mkT d Black (mkT d Red a x b) s sr)) -∗
  (tree_done root (inorder (plug π (mkT d c t p (mkT d Black (mkT d Red a x b) s sr)))) -∗ Φ tt) -∗
  wp (erase_case3 d p s x;;; erase_case4 d p x s root) Φ.
Proof.
  iIntros (Ht Hr Hbr Hl Hok) "Hπ Ht HΦ". apply rb_mkT_red in Hl as (Hba & Hbb & Ha & Hb).
  own_simpl.
  iDestruct "Ht" as "(Hp & Ht & Hs & (Hx & Ha & Hb) & Hsr)".
  iApply wp_bind. iApply (wp_erase_case3 with "Hp Hs Hx Hb"); [done|]. iIntros "Hp Hs Hx Hb".
  iApply (wp_erase_case4 with "Hπ Hp Hx Ha Hs"). iIntros "Hπ Hx Hp Ha Hs". node_simpl. iApply "HΦ".
  destruct (path_ok_close n d c p _ π (mkT d Black t p a) x (mkT d Black b s sr) Hok) as (m & Hm & Hrb & Hbl);
    [by apply rb_mkT_black|by apply rb_mkT_black|by apply is_black_mkT|by apply is_black_mkT|].
  iApply (tree_done_plug with "[Hπ]"); [done|done|done| |by rewrite tptr_mkT|].
  - apply plug_inorder. rewrite (inorder_rotate d c Black c Red). apply inorder_mkT_eq; [done|].
    symmetry. apply inorder_rotate.
  - own_simpl. iFrame.
Qed.

(** The loop: a subtree [t] that lacks one black node is repaired. *)
Lemma wp_erase_color fuel root d c p sib π t n Φ :
  (length π < fuel)%nat → rb n t → is_black t → path_ok (S n) ((d, c, p, sib) :: π) →
  path_own root ((d, c, p, sib) :: π) (tptr t) -∗ tree_own (Some p) t -∗
  (tree_done root (inorder (plug ((d, c, p, sib) :: π) t)) -∗ Φ tt) -∗
  wp (____rb_erase_color fuel (tptr t) p root) Φ.
Proof.
  iInduction fuel as [|fuel] "IH" forall (d c p sib π t n); iIntros (Hf Ht Hbt Hok) "Hπ Ht HΦ"; [lia|].
  cbn [____rb_erase_color].
  assert (Hrb : rb (S n) sib) by (destruct c; simpl in Hok; tauto).
  destruct (rb_nonempty d n sib Hrb) as (c0 & sl0 & s0 & sr0 & Hsib).
  assert (Hs0 : tptr sib = Some s0) by (by rewrite Hsib tptr_mkT).
  iDestruct "Hπ" as "(Hp & Hs & Hπ)".
  iDestruct (tree_own_roots with "Ht Hs") as %Hne; [done|].
  iApply wp_bind. iApply (wp_load with "Hp"). iIntros "Hp". rewrite erase_side; [|done]. node_simpl.
  rewrite Hs0. iApply wp_bind. iApply wp_deref.
  iApply wp_bind. iApply (wp_erase_case1 root d c p sib s0 π (tptr t) n with "[Hp Hs Hπ]"); [done|done| |].
  { simpl. rewrite Hs0. iFrame. }
  iIntros (c' sib' s' π' (Hs' & Hb' & Hok' & Hfix & Hin)) "Hπ". clear Hrb Hsib Hs0 Hne sl0 sr0 c0.
  assert (Hrb : rb (S n) sib') by (destruct c'; simpl in Hok'; tauto).
  destruct (rb_nonempty d n sib' Hrb) as (cs & sl & s & sr & ->). rewrite tptr_mkT in Hs'. injection Hs' as <-.
  apply is_black_mkT in Hb' as ->. apply rb_mkT_black in Hrb as [Hl Hr].
  setoid_rewrite <-Hin. simpl. rewrite tptr_mkT tree_own_mkT.
  iDestruct "Hπ" as "(Hp & (Hs & Hsl & Hsr) & Hπ)".
  iApply wp_bind. iApply (wp_load with "Hs"). iIntros "Hs". node_simpl.
  iApply wp_bind. iApply (wp_is_red with "Hsr"). iIntros "Hsr".
  case_bool_decide as Hfar.
  - (* Case 4 *)
    destruct (red_nonempty d sr Hfar) as (a & x & b & ->). rewrite tptr_mkT. iApply wp_bind. iApply wp_deref.
    iApply (wp_erase_far with "Hπ [-HΦ] HΦ"); [done..|]. own_simpl. iFrame.
  - iApply wp_bind. iApply (wp_is_red with "Hsl"). iIntros "Hsl".
    case_bool_decide as Hnear.
    + (* Case 3 *)
      destruct (red_nonempty d sl Hnear) as (a & x & b & ->). rewrite tptr_mkT. iApply wp_bind. iApply wp_deref.
      iApply (wp_erase_near with "Hπ [-HΦ] HΦ"); [done..|]. own_simpl. iFrame.
    + (* Case 2 *)
      iApply wp_bind. iApply (wp_modify with "Hs"). iIntros "Hs". node_simpl.
      iApply wp_bind. iApply (wp_load with "Hp"). iIntros "Hp". node_simpl.
      assert (Hrb' : rb (S n) (mkT d Black t p (mkT d Red sl s sr))) by (by rewrite rb_mkT_black rb_mkT_red).
      assert (Hin' : inorder (mkT d c' t p (mkT d Black sl s sr)) = inorder (mkT d Black t p (mkT d Red sl s sr))).
      { by do 2 (apply inorder_mkT_eq; [done|]). }
      apply (plug_inorder π') in Hin'. rewrite Hin'.
      case_decide as Hc; [subst c'|assert (c' = Black) as -> by by destruct c'].
      * iApply (wp_modify with "Hp"). iIntros "Hp". node_simpl. iApply "HΦ".
        destruct Hok' as (_ & _ & Hh & Hok').
        iApply (tree_done_plug with "[Hπ]"); [done|done|by right|done|by rewrite tptr_mkT|].
        own_simpl. iFrame.
      * assert (π' = π) as -> by auto. destruct Hok' as (_ & Hok').
        iAssert (tree_own (ppar π) (mkT d Black t p (mkT d Red sl s sr))) with "[-HΦ Hπ]" as "Ht".
        { own_simpl. iFrame. }
        destruct π as [|[[[d2 c2] g] sib2] π]; cbn [ppar].
        -- iApply wp_ret. iApply "HΦ". iApply (tree_done_plug _ [] with "[Hπ] Ht"); [exact I|exact Hrb'| |done|by rewrite tptr_mkT].
           left. by apply is_black_mkT.
        -- replace (Some p) with (tptr (mkT d Black t p (mkT d Red sl s sr))) by apply tptr_mkT.
           iApply ("IH" with "[%] [//] [%] [//] Hπ Ht HΦ"); [simpl in Hf; lia|by apply is_black_mkT].
Qed.

(** ** Unlinking a node *)

Fixpoint seg_own (par : ptr) (ρ : path) (f : ptr) : iProp Σ :=
  match ρ with
  | [] => emp
  | (d, c, x, sib) :: ρ =>
      x ↦ CNode (mkN d (spar par ρ) c f (tptr sib)) ∗ tree_own (Some x) sib ∗ seg_own par ρ (Some x)
  end.

Lemma seg_path root ρ π f :
  path_own root (ρ ++ π) f ⊣⊢ seg_own (ppar π) ρ f ∗ path_own root π (ptop ρ f).
Proof.
  revert f. induction ρ as [|[[[d c] x] sib] ρ IH]; intros f; simpl; [by rewrite left_id|].
  rewrite IH -!assoc. assert (ppar (ρ ++ π) = spar (ppar π) ρ) as ->; [|done].
  by destruct ρ as [|[[[? ?] ?] ?] ?].
Qed.

Lemma seg_tree par ρ t : tree_own par (plug ρ t) ⊣⊢ seg_own par ρ (tptr t) ∗ tree_own (spar par ρ) t.
Proof.
  revert t. induction ρ as [|[[[d c] x] sib] ρ IH]; intros t; simpl; [by rewrite left_id|].
  rewrite IH. own_simpl. iSplit; iIntros "H"; iDestruct "H" as "[? ?]"; iFrame.
  - iDestruct select (_ ∗ _)%I as "($ & $ & $)".
  - iDestruct select (_ ∗ _)%I as "($ & $ & $)".
Qed.

Lemma seg_snoc par d c x sib ρ f :
  seg_own (Some x) ρ f -∗ x ↦ CNode (mkN d par c (ptop ρ f) (tptr sib)) ∗ tree_own (Some x) sib -∗
  seg_own par (ρ ++ [(d, c, x, sib)]) f.
Proof.
  revert f. induction ρ as [|[[[d' c'] x'] sib'] ρ IH]; intros f; simpl.
  - iIntros "_ [$ $]".
  - iIntros "(Hx & $ & Hρ) H". iSplitL "Hx".
    + by destruct ρ as [|[[[? ?] ?] ?] ?].
    + by iApply (IH with "Hρ").
Qed.

(** Hanging a segment under another parent. *)
Lemma wp_seg_reparent par par' ρ f ch Φ :
  ρ ≠ [] → ptop ρ f = Some ch →
  seg_own par ρ f -∗ (seg_own par' ρ f -∗ Φ tt) -∗ wp (rb_set_parent ch par') Φ.
Proof.
  revert f Φ. induction ρ as [|[[[d c] x] sib] ρ IH]; intros f Φ; [done|]. simpl. intros _ Htop.
  iIntros "(Hx & Hs & Hρ) HΦ". destruct ρ as [|fr ρ].
  - simpl in Htop. injection Htop as ->. iApply (wp_modify with "Hx"). iIntros "Hx". node_simpl.
    iApply "HΦ". iFrame.
  - iApply (IH with "Hρ"); [done..|]. iIntros "Hρ". iApply "HΦ". destruct fr as [[[? ?] ?] ?]. iFrame.
Qed.

(** The walk to the successor ends at the first node of the right subtree. *)
Lemma wp_erase_successor fuel par p c l s r Φ :
  (height (T c l s r) ≤ fuel)%nat →
  tree_own par (T c l s r) -∗
  (∀ ρ c' s' b, ⌜T c l s r = plug ρ (T c' E s' b) ∧ beyond DL ρ = []⌝ -∗
     tree_own par (T c l s r) -∗ Φ (default p (ppar ρ), s')) -∗
  wp (erase_successor fuel p s) Φ.
Proof.
  iIntros (Hf) "Ht HΦ". iInduction fuel as [|fuel] "IH" forall (par p c l s r Hf Φ); [simpl in Hf; lia|].
  cbn [erase_successor]. iDestruct "Ht" as "(Hs & Hl & Hr)".
  iApply wp_bind. iApply (wp_load with "Hs"). iIntros "Hs". cbn [rb_left].
  destruct l as [|cl ll xl rl]; cbn [tptr].
  - iApply wp_ret. iApply ("HΦ" $! [] with "[//]"). iFrame.
  - iApply ("IH" with "[%] Hl"); [simpl in Hf |- *; lia|]. iIntros (ρ c' s' b (Heq & Hρ)) "Hl".
    iSpecialize ("HΦ" $! (ρ ++ [(DL, c, s, r)]) c' s' b with "[%]").
    { rewrite plug_app -Heq. split; [done|]. clear -Hρ.
      induction ρ as [|[[[d0 c0] x0] sib0] ρ IH]; [done|]. simpl in *. case_decide; [done|auto]. }
    iSpecialize ("HΦ" with "[$]"). destruct ρ as [|[[[? ?] ?] ?] ?]; done.
Qed.

(** What [__rb_erase_augmented] leaves: a finished tree, or a path whose focus
    lacks one black node, at the parent it returns. *)
Definition erase_post (root : loc) (l : list loc) (m : nat) (r : ptr) : iProp Σ :=
  match r with
  | None => tree_done root l
  | Some p => ∃ d c sib π, ⌜path_ok 1 ((d, c, p, sib) :: π) ∧ (length π < m)%nat ∧
                           inorder (plug ((d, c, p, sib) :: π) E) = l⌝ ∗
                           path_own root ((d, c, p, sib) :: π) None
  end.

(** A focus emptied of a red node needs nothing; of a black node, the
    rebalancing from its parent. *)
Lemma erase_post_red root π l m :
  path_ok 0 π → inorder (plug π E) = l → path_own root π None -∗ erase_post root l m None.
Proof. iIntros (Hπ Hl) "Hπ". iApply (tree_done_plug _ _ E with "Hπ"); [done|done|by left|done|done]. Qed.

Lemma erase_post_black root π l m :
  path_ok 1 π → (length π ≤ m)%nat → inorder (plug π E) = l →
  path_own root π None -∗ erase_post root l m (ppar π).
Proof.
  iIntros (Hπ Hm Hl) "Hπ". destruct π as [|[[[d c] p] sib] π]; cbn [ppar].
  - iApply (tree_done_plug _ [] E 0 with "Hπ"); [done|done|by left|done|done].
  - iExists d, c, sib, π. iFrame. iPureIntro. split; [done|]. split; [exact Hm|done].
Qed.

(** A focus filled by the red child of a black node, made black. *)
Lemma erase_post_child root π y l m :
  path_ok 1 π → inorder (plug π (T Black E y E)) = l →
  path_own root π (Some y) -∗ tree_own (ppar π) (T Black E y E) -∗ erase_post root l m None.
Proof. iIntros (Hπ Hl) "Hπ Ht". by iApply (tree_done_plug _ π (T Black E y E) with "Hπ Ht"); [| |left|]. Qed.

(** The cached pointer to the first node. *)
Definition leftmost_own (leftmost : ptr) (l : list loc) : iProp Σ :=
  match leftmost with None => emp | Some a => a ↦ CPtr (head l) end.

Lemma path_own_fresh root π f a c : path_own root π f -∗ a ↦ c -∗ ⌜a ∉ beyond DL π⌝.
Proof.
  iIntros "Hπ Ha". iInduction π as [|[[[d k] x] sib] π] "IH" forall (f); simpl; [iPureIntro; set_solver|].
  iDestruct "Hπ" as "(Hx & Hs & Hπ)". iDestruct (own_ne with "Ha Hx") as %Hne.
  iDestruct (tree_own_fresh with "Hs Ha") as %Hs. iDestruct ("IH" with "Hπ Ha") as %Hπ. iPureIntro.
  case_decide; [|done]. change DL with (opp DR). rewrite walk_opp walk_right.
  rewrite not_elem_of_cons not_elem_of_app. split_and!; [done| |done].
  by rewrite elem_of_rev.
Qed.

Lemma wp_update_leftmost fuel root π c l x r leftmost Φ :
  (height (plug π (T c l x r)) ≤ fuel)%nat →
  path_own root π (Some x) -∗ tree_own (ppar π) (T c l x r) -∗
  leftmost_own leftmost (before π l ++ x :: after r π) -∗
  (path_own root π (Some x) -∗ tree_own (ppar π) (T c l x r) -∗
   leftmost_own leftmost (before π l ++ after r π) -∗ Φ tt) -∗
  wp (update_leftmost fuel x leftmost) Φ.
Proof.
  iIntros (Hf) "Hπ Ht Hl HΦ". destruct leftmost as [a|]; simpl; [|iApply wp_ret; iApply ("HΦ" with "Hπ Ht Hl")].
  iApply wp_bind. iApply (wp_load_ptr with "Hl"). iIntros "Hl".
  iDestruct "Ht" as "(Hx & Hl' & Hr)". iDestruct (tree_own_fresh with "Hl' Hx") as %Hfl.
  iDestruct (path_own_fresh with "Hπ Hx") as %Hfπ.
  iAssert (tree_own (ppar π) (T c l x r)) with "[Hx Hl' Hr]" as "Ht"; [iFrame|].
  destruct (before π l) as [|y ys] eqn:Hb; simpl.
  - case_decide as Hc; [clear Hc|done]. iApply wp_bind.
    iApply (wp_step fuel DR root π c r x l with "Hπ Ht"); [done|]. iIntros "Hπ Ht".
    iApply (wp_store_ptr with "Hl"). iIntros "Hl". rewrite walk_right. iApply ("HΦ" with "Hπ Ht Hl").
  - case_decide as Hc; [|iApply wp_ret; iApply ("HΦ" with "Hπ Ht Hl")]. injection Hc as ->. exfalso.
    assert (x ∈ before π l) as Hin by (rewrite Hb; set_solver). unfold before in Hin.
    rewrite elem_of_app elem_of_rev in Hin. tauto.
Qed.

Lemma wp_detach_successor fuel par c l ch r Φ :
  (height (T c l ch r) ≤ S fuel)%nat →
  tree_own par (T c l ch r) -∗
  (∀ ρ cs s b p, ⌜T c l ch r = plug ρ (T cs E s b) ∧ beyond DL ρ = []⌝ -∗
     s ↦ CNode (mk_rb p cs (ptop ρ (tptr b)) None) -∗ seg_own (Some s) ρ (tptr b) -∗
     tree_own (Some s) b -∗ Φ (default s (ppar ρ), s, tptr b)) -∗
  wp (detach_successor fuel ch) Φ.
Proof.
  iIntros (Hf) "(Hc & Hl & Hr) HΦ". iApply wp_bind. iApply (wp_load with "Hc"). iIntros "Hc".
  cbn [rb_left rb_right]. destruct l as [|cl ll tmp rl]; cbn [tptr].
  { iApply wp_ret. iApply ("HΦ" $! [] with "[//] Hc [//] Hr"). }
  iApply wp_bind. iApply (wp_erase_successor with "Hl"); [simpl in Hf |- *; lia|].
  iIntros (ρ cs s b (Heq & Hρ)) "Hl". iEval (rewrite Heq seg_tree) in "Hl". iDestruct "Hl" as "(Hρ & Hs & _ & Hb)".
  cbn [fst snd]. iApply wp_bind. iApply (wp_load with "Hs"). iIntros "Hs". cbn [rb_right].
  assert (Hpl : T c (T cl ll tmp rl) ch r = plug (ρ ++ [(DL, c, ch, r)]) (T cs E s b)) by (by rewrite plug_app -Heq).
  assert (Hbey : beyond DL (ρ ++ [(DL, c, ch, r)]) = []).
  { clear -Hρ. induction ρ as [|[[[d0 c0] x0] sib0] ρ IH]; [done|]. simpl in *. case_decide; [done|auto]. }
  assert (Htmp : ptop ρ (Some s) = Some tmp) by (by rewrite -(tptr_plug ρ (T cs E s b)) -Heq).
  iAssert (seg_own par (ρ ++ [(DL, c, ch, r)]) (Some s)) with "[Hρ Hc Hr]" as "Hρ".
  { iApply (seg_snoc with "Hρ"). rewrite Htmp. iFrame. }
  assert (ρ ++ [(DL, c, ch, r)] ≠ []) by (by destruct ρ).
  assert (Htop : ∀ f, ptop (ρ ++ [(DL, c, ch, r)]) f = Some ch).
  { intros f. clear. revert f. induction ρ as [|[[[d0 c0] x0] sib0] ρ IH]; intros f; [done|apply IH]. }
  assert (Hp : default ch (ppar ρ) = default s (ppar (ρ ++ [(DL, c, ch, r)]))) by (by destruct ρ as [|[[[? ?] ?] ?] ?]).
  rewrite Hp. clear Heq Hp Htmp Hρ. generalize (spar (Some ch) ρ) as ps. generalize dependent (ρ ++ [(DL, c, ch, r)]). clear ρ. intros ρ Hpl Hbey Hne Htop ps.
  destruct ρ as [|[[[d0 c0] p0] sib0] ρ]; [done|]. cbn [ppar default from_option].
  assert (d0 = DL) as -> by (destruct d0; [done|]; by simpl in Hbey).
  iDestruct "Hρ" as "(Hp0 & Hs0 & Hρ)". iApply wp_bind. iApply (wp_modify with "Hp0"). iIntros "Hp0". node_simpl.
  iApply wp_bind. iApply (wp_modify with "Hs"). iIntros "Hs". cbn [upd_child rb_parent rb_color rb_left].
  iApply wp_bind. iApply (wp_seg_reparent par (Some s) ((DL, c0, p0, sib0) :: ρ) (tptr b) with "[Hp0 Hs0 Hρ]");
    [done|apply Htop|simpl; iFrame|].
  iIntros "Hρ". iApply wp_ret. rewrite Hpl.
  iApply ("HΦ" $! ((DL, c0, p0, sib0) :: ρ) with "[//] [Hs] Hρ Hb"). by rewrite Htop.
Qed.

Lemma wp_place_successor root π c x pr cl ll xl rl ρ cs s b p n m Φ :
  path_ok n (ρ ++ (DR, c, s, T cl ll xl rl) :: π) → rb n (T cs E s b) →
  (length (ρ ++ (DR, c, s, T cl ll xl rl) :: π) ≤ m)%nat →
  path_own root π (Some x) -∗ x ↦ CNode (mk_rb (ppar π) c pr (Some xl)) -∗
  tree_own (Some x) (T cl ll xl rl) -∗
  s ↦ CNode (mk_rb p cs (ptop ρ (tptr b)) None) -∗ seg_own (Some s) ρ (tptr b) -∗ tree_own (Some s) b -∗
  (∀ r, x ↦ CNode (mk_rb (ppar π) c pr (Some xl)) -∗
     erase_post root (inorder (plug (ρ ++ (DR, c, s, T cl ll xl rl) :: π) b)) m r -∗ Φ r) -∗
  wp (place_successor x root (default s (ppar ρ)) s (tptr b)) Φ.
Proof.
  iIntros (Hok Hrb Hm) "Hπ Hx (Hxl & Hll & Hrl) Hs Hρ Hb HΦ".
  iApply wp_bind. iApply (wp_load with "Hx"). iIntros "Hx". cbn [rb_left rb_parent rb_color].
  iApply wp_bind. iApply wp_deref.
  iApply wp_bind. iApply (wp_modify with "Hs"). iIntros "Hs". cbn [upd_child rb_right rb_parent rb_color].
  iApply wp_bind. iApply (wp_modify with "Hxl"). iIntros "Hxl". cbn [upd_parent rb_left rb_right rb_color].
  iApply wp_bind. iApply (wp_change_child with "Hπ Hx"). iIntros "Hπ Hx".
  assert (Hpar : ppar (ρ ++ (DR, c, s, T cl ll xl rl) :: π) = Some (default s (ppar ρ))) by
    (by destruct ρ as [|[[[? ?] ?] ?] ?]).
  iAssert (∀ f, s ↦ CNode (mk_rb (ppar π) c (ptop ρ f) (Some xl)) -∗ seg_own (Some s) ρ f -∗
    path_own root (ρ ++ (DR, c, s, T cl ll xl rl) :: π) f)%I with "[Hπ Hxl Hll Hrl]" as "Hclose".
  { iIntros (f) "Hs Hρ". rewrite seg_path. simpl. iFrame. }
  destruct (single_child n DL cs s b Hrb) as [(-> & -> & ->)|[(-> & -> & ->)|(y & -> & -> & ->)]]; cbn [tptr].
  1,2: rewrite -Hpar; iApply wp_bind; iApply (wp_load with "Hs"); iIntros "Hs"; cbn [rb_color];
    iApply wp_bind; iApply (wp_modify with "Hs"); iIntros "Hs"; cbn [upd_pc rb_left rb_right];
    iApply wp_ret; iApply ("HΦ" with "Hx"); iDestruct ("Hclose" with "Hs Hρ") as "Hπ".
  { by iApply erase_post_red. }
  { by iApply erase_post_black. }
  iApply wp_bind. iApply (wp_modify with "Hs"). iIntros "Hs". cbn [upd_pc rb_left rb_right].
  iDestruct "Hb" as "(Hy & _)". iApply wp_bind. iApply (wp_modify with "Hy"). iIntros "Hy".
  iApply wp_ret. iApply ("HΦ" with "Hx"). iApply (erase_post_child with "[Hs Hρ Hclose]"); [done|by apply plug_inorder| |].
  - iApply ("Hclose" with "Hs Hρ").
  - rewrite Hpar. simpl. by iFrame.
Qed.

(** The whole of [__rb_erase_augmented]. *)
Lemma wp_erase_augmented fuel root π c l x r leftmost Φ :
  valid (plug π (T c l x r)) → (height (plug π (T c l x r)) ≤ fuel)%nat →
  path_own root π (Some x) -∗ tree_own (ppar π) (T c l x r) -∗
  leftmost_own leftmost (before π l ++ x :: after r π) -∗
  (∀ q n, x ↦ CNode n -∗ leftmost_own leftmost (before π l ++ after r π) -∗
     erase_post root (before π l ++ after r π) fuel q -∗ Φ q) -∗
  wp (__rb_erase_augmented fuel x root leftmost) Φ.
Proof.
  iIntros (Hv Hf) "Hπ Ht Hl HΦ". destruct (unplug_valid _ _ Hv) as (n & Hπ & Hn & _).
  pose proof (height_plug π (T c l x r)) as Hh. cbn [height] in Hh.
  iDestruct "Ht" as "(Hx & Hlt & Hrt)". iApply wp_bind. iApply (wp_load with "Hx"). iIntros "Hx".
  cbn [rb_left rb_right rb_parent rb_color].
  iApply wp_bind. iApply (wp_update_leftmost fuel root π c l x r with "Hπ [Hx Hlt Hrt] Hl"); [done|iFrame|].
  iIntros "Hπ (Hx & Hlt & Hrt) Hl". unfold before, after. rewrite -!app_assoc.
  destruct l as [|cl ll xl rl]; cbn [tptr]; [|destruct r as [|cr lr xr rr]; cbn [tptr]].
  - (* no left child *)
    iApply wp_bind. iApply (wp_change_child with "Hπ Hx"). iIntros "Hπ Hx".
    destruct (single_child n DL c x r Hn) as [(-> & -> & ->)|[(-> & -> & ->)|(y & -> & -> & ->)]]; cbn [tptr].
    1,2: iApply wp_ret; iApply ("HΦ" with "Hx Hl").
    { iApply (erase_post_red with "Hπ"); [done|by rewrite inorder_plug]. }
    { iApply (erase_post_black with "Hπ"); [done|lia|by rewrite inorder_plug]. }
    iDestruct "Hrt" as "(Hy & _)". iApply wp_bind. iApply (wp_modify with "Hy"). iIntros "Hy".
    iApply wp_ret. iApply ("HΦ" with "Hx Hl"). iApply (erase_post_child with "Hπ"); [done|by rewrite inorder_plug|].
    simpl. by iFrame.
  - (* no right child *)
    destruct (single_child n DR c x (T cl ll xl rl) Hn) as [(? & _)|[(? & _)|(y & [= -> -> -> ->] & -> & ->)]]; [done..|].
    iDestruct "Hlt" as "(Hy & _)". iApply wp_bind. iApply (wp_modify with "Hy"). iIntros "Hy".
    iApply wp_bind. iApply (wp_change_child with "Hπ Hx"). iIntros "Hπ Hx".
    iApply wp_ret. iApply ("HΦ" with "Hx Hl"). iApply (erase_post_child with "Hπ"); [done|by rewrite inorder_plug|].
    simpl. by iFrame.
  - (* two children *)
    iApply wp_bind. iApply (wp_detach_successor with "Hrt"); [cbn [height] in *; lia|].
    iIntros (ρ cs s b p (Heq & Hρ)) "Hs Hρ Hb". cbn [fst snd].
    assert (Hpl : plug π (T c (T cl ll xl rl) x (T cr lr xr rr)) =
      plug (ρ ++ (DR, c, x, T cl ll xl rl) :: π) (T cs E s b)) by by rewrite plug_app -Heq.
    rewrite Hpl in Hv, Hf. destruct (unplug_valid _ _ Hv) as (m & Hok & Hrb & _).
    pose proof (height_plug (ρ ++ (DR, c, x, T cl ll xl rl) :: π) (T cs E s b)) as Hh'.
    iApply (wp_place_successor with "Hπ Hx Hlt Hs Hρ Hb"); [by eapply path_ok_rename|done| |].
    { etrans; [|exact Hf]. etrans; [|exact Hh']. rewrite !length_app. simpl. apply Nat.le_add_r. }
    iIntros (q) "Hx Hq". iApply ("HΦ" with "Hx Hl").
    assert (Hin : rev (beyond DL π) ++ inorder (T cl ll xl rl) ++ inorder (T cr lr xr rr) ++ beyond DR π =
      inorder (plug (ρ ++ (DR, c, s, T cl ll xl rl) :: π) b)).
    { rewrite Heq plug_app. cbn [plug mkT]. rewrite !inorder_plug. simpl. rewrite !inorder_plug Hρ. simpl.
      by rewrite -!app_assoc /= -?app_assoc. }
    rewrite Hin. iExact "Hq".
Qed.

End erase.
