(* ===== verification/RbtreeSpec.v ===== *)
(** * The operations of the tree on a concrete heap

    The specifications of the public operations in terms of ownership, and the
    adequacy theorem that turns them into statements about running the code on
    a heap: [rep h root t] says that [root] holds the tree [t] in [h]. *)
From stdpp Require Import gmap.
From iris.proofmode Require Import proofmode.
From iris.base_logic.lib Require Import gen_heap.
From S2P Require Import Prelude Rbtree RbtreeLogic RbtreeInsert RbtreeWalk RbtreeErase.

(** ** Trees in a heap *)

Fixpoint nodes_at (h : heap) (par : ptr) (t : tree) : Prop :=
  match t with
  | E => True
  | T c l x r => h !! x = Some (CNode (mk_rb par c (tptr r) (tptr l))) ∧
                 nodes_at h (Some x) l ∧ nodes_at h (Some x) r
  end.

Definition rep (h : heap) (root : loc) (t : tree) : Prop :=
  h !! root = Some (CPtr (tptr t)) ∧ nodes_at h None t ∧ NoDup (inorder t).

(** [rb_leftmost], when there is one, points to the first node. *)
Definition leftmost_at (h : heap) (root : loc) (leftmost : ptr) (t : tree) : Prop :=
  match leftmost with
  | None => True
  | Some a => h !! a = Some (CPtr (head (inorder t))) ∧ a ≠ root
  end.

(** The cells that are neither the tree's nor among [ls] are kept. *)
Definition frame_of (h h' : heap) (ls : list loc) : Prop :=
  ∀ a c, a ∉ ls → h !! a = Some c → h' !! a = Some c.

(** The side of its parent on which the focus of a path hangs. *)
Definition pside (π : path) : dir := match π with [] => DL | (d, _, _, _) :: _ => d end.

(** Post-order, and what follows the focus of a path in it. *)
Fixpoint postorder (t : tree) : list loc :=
  match t with E => [] | T _ l x r => postorder l ++ postorder r ++ [x] end.
Fixpoint post_beyond (π : path) : list loc :=
  match π with
  | [] => []
  | (DL, _, p, sib) :: π => postorder sib ++ p :: post_beyond π
  | (DR, _, p, _) :: π => p :: post_beyond π
  end.

Lemma nodes_at_frame h h' par t :
  (∀ a, a ∈ inorder t → h' !! a = h !! a) → nodes_at h par t → nodes_at h' par t.
Proof.
  revert par. induction t as [|c l IHl x r IHr]; intros par Heq; simpl; [done|].
  intros (Hx & Hl & Hr). simpl in Heq. split_and!.
  - rewrite Heq; [done|set_solver].
  - apply IHl; [|done]. intros a Ha. apply Heq. set_solver.
  - apply IHr; [|done]. intros a Ha. apply Heq. set_solver.
Qed.

Lemma nodes_at_in h par t a : nodes_at h par t → a ∈ inorder t → ∃ n, h !! a = Some (CNode n).
Proof.
  revert par. induction t as [|c l IHl x r IHr]; intros par; simpl; [set_solver|].
  intros (Hx & Hl & Hr). rewrite elem_of_app elem_of_cons. intros [Ha|[->|Ha]]; eauto.
Qed.

Section spec.
Context `{!gen_heapGS loc cell Σ}.

(** ** Public operations *)

Lemma wp_rb_erase fuel root π c l x r leftmost Φ :
  valid (plug π (T c l x r)) → (height (plug π (T c l x r)) ≤ fuel)%nat →
  path_own root π (Some x) -∗ tree_own (ppar π) (T c l x r) -∗
  leftmost_own leftmost (before π l ++ x :: after r π) -∗
  (∀ n, x ↦ CNode n -∗ leftmost_own leftmost (before π l ++ after r π) -∗
     tree_done root (before π l ++ after r π) -∗ Φ tt) -∗
  wp (rb_erase_gen fuel x root leftmost) Φ.
Proof.
  iIntros (Hv Hf) "Hπ Ht Hl HΦ". iApply wp_bind. iApply (wp_erase_augmented with "Hπ Ht Hl"); [done..|].
  iIntros (q n) "Hx Hl Hq". destruct q as [p|]; cbn [erase_post].
  - iDestruct "Hq" as (d c' sib π' (Hok & Hlen & <-)) "Hπ".
    iApply (wp_erase_color fuel root d c' p sib π' E 0 with "Hπ"); [done|done|done|done|done|].
    iIntros "Hd". iApply ("HΦ" with "Hx Hl Hd").
  - iApply wp_ret. iApply ("HΦ" with "Hx Hl Hq").
Qed.

Lemma wp_link_node root π x n Φ :
  path_own root π None -∗ x ↦ CNode n -∗
  (path_own root π (Some x) -∗ tree_own (ppar π) (T Red E x E) -∗ Φ tt) -∗
  wp (rb_link_node x (ppar π) (pside π) root) Φ.
Proof.
  iIntros "Hπ Hx HΦ". iApply wp_bind. iApply (wp_store with "Hx"). iIntros "Hx".
  destruct π as [|[[[d c] p] sib] π]; cbn [ppar pside].
  - iApply (wp_store_ptr with "Hπ"). iIntros "Hπ". iApply ("HΦ" with "Hπ"). by iFrame.
  - iDestruct "Hπ" as "(Hp & Hs & Hπ)". iApply (wp_modify with "Hp"). iIntros "Hp". node_simpl.
    iApply ("HΦ" with "[$]"). by iFrame.
Qed.

(** [rb_link_node] followed by [rb_insert_color] (or [rb_insert_color_cached]). *)
Lemma wp_rb_insert fuel root π x n leftmost newleft Φ :
  valid (plug π E) → (height (plug π E) < fuel)%nat →
  newleft = match leftmost with None => false | Some _ => bool_decide (beyond DL π = []) end →
  path_own root π None -∗ x ↦ CNode n -∗
  leftmost_own leftmost (rev (beyond DL π) ++ beyond DR π) -∗
  (leftmost_own leftmost (rev (beyond DL π) ++ x :: beyond DR π) -∗
   tree_done root (rev (beyond DL π) ++ x :: beyond DR π) -∗ Φ tt) -∗
  wp (rb_link_node x (ppar π) (pside π) root;;; __rb_insert fuel x root newleft leftmost) Φ.
Proof.
  iIntros (Hv Hf Hnew) "Hπ Hx Hl HΦ". destruct (unplug_valid _ _ Hv) as (m & Hok & Hm & _).
  simpl in Hm. subst m. pose proof (height_plug π E) as Hh. simpl in Hh.
  iApply wp_bind. iApply (wp_link_node with "Hπ Hx"). iIntros "Hπ Ht". unfold __rb_insert.
  iDestruct "Ht" as "(Hx & _)". iApply wp_bind. iApply (wp_load with "Hx"). iIntros "Hx".
  iAssert (tree_own (ppar π) (T Red E x E)) with "[Hx]" as "Ht"; [by iFrame|]. cbn [rb_parent].
  iAssert (leftmost_own leftmost (rev (beyond DL π) ++ x :: beyond DR π) -∗
    wp (__rb_insert_loop fuel x (ppar π) root) Φ)%I with "[Hπ Ht HΦ]" as "Hloop".
  { iIntros "Hl". iApply (wp_insert_loop with "Hπ Ht"); [lia|done|done|done|done|done|].
    rewrite inorder_plug /=. iIntros "Hd". iApply ("HΦ" with "Hl Hd"). }
  iApply wp_bind. destruct leftmost as [a|]; simpl in Hnew; subst newleft.
  - case_bool_decide as Hb.
    + iApply wp_bind. iApply wp_deref. iApply (wp_store_ptr with "Hl"). iIntros "Hl". iApply "Hloop". by rewrite Hb.
    + iApply wp_ret. iApply "Hloop". cbn [leftmost_own]. destruct (rev (beyond DL π)) as [|y ys] eqn:Hr; [|done].
      exfalso. apply Hb. apply (f_equal (@rev _)) in Hr. by rewrite rev_involutive in Hr.
  - iApply wp_ret. by iApply "Hloop".
Qed.

(** [rb_replace_node]: the new node takes the place of the victim. *)
Lemma wp_replace root π c l v r x n Φ :
  path_own root π (Some v) -∗ tree_own (ppar π) (T c l v r) -∗ x ↦ CNode n -∗
  (∀ m, v ↦ CNode m -∗ path_own root π (Some x) -∗ tree_own (ppar π) (T c l x r) -∗ Φ tt) -∗
  wp (rb_replace_node v x root) Φ.
Proof.
  iIntros "Hπ (Hv & Hl & Hr) Hx HΦ". iApply wp_bind. iApply (wp_load with "Hv"). iIntros "Hv".
  iApply wp_bind. iApply (wp_store with "Hx"). iIntros "Hx". cbn [rb_left rb_right rb_parent].
  iApply wp_bind. iApply (wp_reparent with "Hl"). iIntros "Hl".
  iApply wp_bind. iApply (wp_reparent with "Hr"). iIntros "Hr".
  iApply (wp_change_child with "Hπ Hv"). iIntros "Hπ Hv". iApply ("HΦ" with "Hv Hπ"). iFrame.
Qed.

(** ** Post-order *)

Lemma wp_left_deepest fuel par c l x r Φ :
  (height (T c l x r) ≤ fuel)%nat →
  tree_own par (T c l x r) -∗
  (∀ a, ⌜head (postorder (T c l x r)) = Some a⌝ -∗ tree_own par (T c l x r) -∗ Φ a) -∗
  wp (rb_left_deepest_node fuel x) Φ.
Proof.
  iIntros (Hf) "Ht HΦ". iInduction fuel as [|fuel] "IH" forall (par c l x r Hf Φ); [simpl in Hf; lia|].
  cbn [rb_left_deepest_node]. cbn [height] in Hf. iDestruct "Ht" as "(Hx & Hl & Hr)".
  iApply wp_bind. iApply (wp_load with "Hx"). iIntros "Hx". cbn [rb_left rb_right].
  destruct l as [|cl ll xl rl]; cbn [tptr]; [destruct r as [|cr lr xr rr]; cbn [tptr]|].
  - iApply wp_ret. iApply ("HΦ" with "[//]"). iFrame.
  - iApply ("IH" with "[%] Hr"); [lia|]. iIntros (a Ha) "Hr". iApply ("HΦ" with "[%]"); [|iFrame].
    cbn [postorder app] in *. by rewrite head_app Ha.
  - iApply ("IH" with "[%] Hl"); [lia|]. iIntros (a Ha) "Hl". iApply ("HΦ" with "[%]"); [|iFrame].
    change (postorder (T c ?l x r)) with (postorder l ++ postorder r ++ [x]). by rewrite head_app Ha.
Qed.

Lemma wp_next_postorder fuel root π c l x r Φ :
  (height (plug π (T c l x r)) ≤ fuel)%nat →
  path_own root π (Some x) -∗ tree_own (ppar π) (T c l x r) -∗
  (path_own root π (Some x) -∗ tree_own (ppar π) (T c l x r) -∗ Φ (head (post_beyond π))) -∗
  wp (rb_next_postorder fuel (Some x)) Φ.
Proof.
  iIntros (Hf) "Hπ (Hx & Hl & Hr) HΦ". iApply wp_bind. iApply (wp_load with "Hx"). iIntros "Hx". cbn [rb_parent].
  destruct π as [|[[[d k] p] sib] π]; cbn [ppar].
  { iApply wp_ret. iApply ("HΦ" with "Hπ"). iFrame. }
  pose proof (height_plug π (mkT d k (T c l x r) p sib)) as Hh. rewrite height_mkT in Hh. cbn [plug] in Hf.
  iDestruct "Hπ" as "(Hp & Hs & Hπ)". iApply wp_bind. iApply (wp_load with "Hp"). iIntros "Hp".
  iDestruct (tree_own_ne with "Hs Hx") as %Hne. destruct d; cbn [mkN rb_left rb_right post_beyond].
  - destruct sib as [|cs ls s rs]; cbn [tptr].
    + iApply wp_ret. iApply ("HΦ" with "[Hp Hs Hπ]"); [|iFrame]. simpl. iFrame.
    + case_decide as Hc; [clear Hc|done]. iApply wp_bind. iApply (wp_left_deepest with "Hs"); [lia|].
      iIntros (a Ha) "Hs". iApply wp_ret. rewrite head_app Ha. cbn [default].
      iApply ("HΦ" with "[Hp Hs Hπ]"); [|iFrame]. simpl. iFrame.
  - case_decide as Hc; [done|]. iApply wp_ret. iApply ("HΦ" with "[Hp Hs Hπ]"); [|iFrame]. simpl. iFrame.
Qed.

Lemma wp_first_postorder fuel root t Φ :
  (height t ≤ fuel)%nat →
  tree_own None t -∗ root ↦ CPtr (tptr t) -∗
  (tree_own None t -∗ root ↦ CPtr (tptr t) -∗ Φ (head (postorder t))) -∗
  wp (rb_first_postorder fuel root) Φ.
Proof.
  iIntros (Hf) "Ht Hr HΦ". iApply wp_bind. iApply (wp_load_ptr with "Hr"). iIntros "Hr".
  destruct t as [|c l x r]; cbn [tptr]; [iApply wp_ret; iApply ("HΦ" with "Ht Hr")|].
  iApply wp_bind. iApply (wp_left_deepest with "Ht"); [done|]. iIntros (a Ha) "Ht". iApply wp_ret.
  rewrite Ha. iApply ("HΦ" with "Ht Hr").
Qed.

End spec.

(** ** From ownership to the heap *)

Section adequacy.
Context `{!gen_heapGS loc cell Σ}.

Definition heap_own (h : heap) : iProp Σ := [∗ map] a ↦ c ∈ h, a ↦ c.

(** Take one cell, or a tree, out of a heap. *)
Lemma heap_take h a c : h !! a = Some c → heap_own h -∗ a ↦ c ∗ heap_own (delete a h).
Proof. iIntros (Ha) "H". by iApply (big_sepM_delete with "H"). Qed.

Lemma heap_take_tree h par t :
  nodes_at h par t → NoDup (inorder t) →
  heap_own h -∗ tree_own par t ∗ ∃ h2, ⌜∀ a, a ∉ inorder t → h2 !! a = h !! a⌝ ∗ heap_own h2.
Proof.
  revert h par. induction t as [|c l IHl x r IHr]; intros h par; simpl.
  - iIntros (_ _) "H". iSplitR; [done|]. iExists h. by iFrame.
  - iIntros ((Hx & Hl & Hr) Hnd) "H". apply NoDup_app in Hnd as (Hndl & Hlr & Hnd).
    apply NoDup_cons in Hnd as [Hxr Hndr].
    assert (Hxl : x ∉ inorder l) by (intros Hin; apply (Hlr _ Hin); set_solver).
    iDestruct (heap_take with "H") as "[Hx H]"; [done|]. iFrame "Hx".
    iDestruct (IHl with "H") as "[$ (%h2 & %Hh2 & H)]"; [|done|].
    { eapply nodes_at_frame; [|done]. intros a Ha. rewrite lookup_delete_ne; [done|]. by intros ->. }
    iDestruct (IHr h2 with "H") as "[$ (%h3 & %Hh3 & H)]"; [|done|].
    { eapply nodes_at_frame; [|done]. intros a Ha. rewrite Hh2.
      - rewrite lookup_delete_ne; [done|]. by intros ->.
      - intros Hin. apply (Hlr _ Hin). set_solver. }
    iExists h3. iFrame. iPureIntro. intros a Ha. rewrite not_elem_of_app not_elem_of_cons in Ha.
    destruct Ha as (? & ? & ?). rewrite Hh3; [|done]. rewrite Hh2; [|done]. by rewrite lookup_delete_ne.
Qed.

Lemma heap_take_rep h root t :
  rep h root t →
  heap_own h -∗ root ↦ CPtr (tptr t) ∗ tree_own None t ∗
    ∃ h2, ⌜∀ a, a ∉ root :: inorder t → h2 !! a = h !! a⌝ ∗ heap_own h2.
Proof.
  iIntros ((Hr & Ht & Hnd)) "H".
  assert (Hfr : root ∉ inorder t).
  { intros Hin. destruct (nodes_at_in _ _ _ _ Ht Hin) as [n Hn]. congruence. }
  iDestruct (heap_take with "H") as "[$ H]"; [done|].
  iDestruct (heap_take_tree with "H") as "[$ (%h2 & %Hh2 & H)]"; [|done|].
  { eapply nodes_at_frame; [|done]. intros a Ha. rewrite lookup_delete_ne; [done|]. by intros ->. }
  iExists h2. iFrame. iPureIntro. intros a Ha. rewrite not_elem_of_cons in Ha. destruct Ha.
  rewrite Hh2; [|done]. by rewrite lookup_delete_ne.
Qed.

(** What is owned is in the heap. *)
Lemma tree_own_at h par t : gen_heap_interp h -∗ tree_own par t -∗ ⌜nodes_at h par t⌝.
Proof.
  iIntros "Hh Ht". iInduction t as [|c l IHl x r IHr] forall (par); simpl; [done|].
  iDestruct "Ht" as "(Hx & Hl & Hr)". iDestruct (gen_heap_valid with "Hh Hx") as %Hx.
  iDestruct ("IHl" with "Hh Hl") as %Hl. iDestruct ("IHr" with "Hh Hr") as %Hr. done.
Qed.

Lemma own_rep h root t :
  gen_heap_interp h -∗ root ↦ CPtr (tptr t) -∗ tree_own None t -∗ ⌜rep h root t⌝.
Proof.
  iIntros "Hh Hr Ht". iDestruct (gen_heap_valid with "Hh Hr") as %Hr.
  iDestruct (tree_own_at with "Hh Ht") as %Hat. iDestruct (tree_own_NoDup with "Ht") as %Hnd. done.
Qed.

Lemma own_frame h h' h2 ls :
  (∀ a, a ∉ ls → h2 !! a = h !! a) → gen_heap_interp h' -∗ heap_own h2 -∗ ⌜frame_of h h' ls⌝.
Proof.
  iIntros (Heq) "Hh H". iIntros (a c Ha Hc). rewrite -Heq in Hc; [|done].
  iDestruct (heap_take with "H") as "[Ha _]"; [done|]. by iDestruct (gen_heap_valid with "Hh Ha") as %?.
Qed.

End adequacy.

(** A command that is verified from the ownership of a heap runs on that heap
    without a crash, and its result and final heap satisfy the specification. *)
Lemma adequacy {A} (m : cmd A) (h : heap) (φ : A → heap → Prop) :
  (∀ Σ (HG : gen_heapGS loc cell Σ),
     heap_own h ⊢ wp m (λ a, ∀ h', gen_heap_interp h' -∗ ⌜φ a h'⌝)) →
  ∃ a h', m h = Some (a, h') ∧ φ a h'.
Proof.
  intros Hwp. apply (pure_soundness (PROP := iProp #[gen_heapΣ loc cell])).
  apply uPred.bupd_soundness; [apply _|]. iStartProof.
  iMod (gen_heap_init (Σ := #[gen_heapΣ loc cell]) h) as (HG) "(Hh & H & _)".
  iDestruct (Hwp _ HG with "H") as "Hwp". iMod ("Hwp" with "Hh") as (a h' Hm) "[Hh HΦ]".
  iDestruct ("HΦ" with "Hh") as %Hφ. iModIntro. iPureIntro. by exists a, h'.
Qed.
