(* ===== verification/RbtreeRun.v ===== *)
(** * Running the operations of the tree

    The public operations on a heap that holds a valid tree: they return (the
    fuel is twice the logarithm of the number of nodes, so that no loop makes
    more steps), the tree is valid again, its nodes are the expected ones in the
    expected order, the cached first node is right, and every other cell of the
    heap is untouched. *)
From stdpp Require Import gmap.
From iris.proofmode Require Import proofmode.
From iris.base_logic.lib Require Import gen_heap.
From S2P Require Import Prelude Rbtree RbtreeLogic RbtreeInsert RbtreeWalk RbtreeErase RbtreeSpec.

(** The bound on the height of a valid tree of [n] nodes. *)
Definition rb_depth (n : nat) : nat := 2 * Nat.log2 (S n).

Lemma rb_depth_mono n m : (n ≤ m)%nat → (rb_depth n ≤ rb_depth m)%nat.
Proof. intros H. unfold rb_depth. pose proof (Nat.log2_le_mono (S n) (S m)). lia. Qed.

(** ** Commands that only read *)

Definition read_only {A} (m : cmd A) : Prop := ∀ h a h', m h = Some (a, h') → h' = h.

Create HintDb read_only.

Lemma read_only_ret {A} (a : A) : read_only (ret a).
Proof. by intros h b h' [= _ <-]. Qed.
Lemma read_only_crash {A} : read_only (@crash A).
Proof. by intros h b h'. Qed.
Lemma read_only_load a : read_only (load a).
Proof. intros h n h'. unfold load. destruct (h !! a) as [[]|]; [|done..]. by intros [= _ <-]. Qed.
Lemma read_only_load_ptr a : read_only (load_ptr a).
Proof. intros h n h'. unfold load_ptr. destruct (h !! a) as [[]|]; [done| |done]. by intros [= _ <-]. Qed.
Lemma read_only_bind {A B} (m : cmd A) (k : A → cmd B) :
  read_only m → (∀ a, read_only (k a)) → read_only (bind m k).
Proof.
  intros Hm Hk h b h'. unfold bind. destruct (m h) as [[a h1]|] eqn:Heq; [|done].
  apply Hm in Heq as ->. apply Hk.
Qed.
#[export] Hint Resolve read_only_ret read_only_crash read_only_load read_only_load_ptr : read_only.

Ltac read_only_tac :=
  repeat first
    [ solve [auto with read_only]
    | apply read_only_bind; [|intros ?]
    | match goal with |- read_only (match ?x with _ => _ end) => destruct x end ].

Lemma read_only_extreme fuel d x : read_only (rb_extreme fuel d x).
Proof. revert x. induction fuel as [|fuel IH]; intros x; simpl; read_only_tac. Qed.
Lemma read_only_climb fuel d x : read_only (rb_climb fuel d x).
Proof. revert x. induction fuel as [|fuel IH]; intros x; simpl; read_only_tac. Qed.
Lemma read_only_deepest fuel x : read_only (rb_left_deepest_node fuel x).
Proof. revert x. induction fuel as [|fuel IH]; intros x; simpl; read_only_tac. Qed.
#[export] Hint Resolve read_only_extreme read_only_climb read_only_deepest : read_only.
Lemma read_only_step fuel d x : read_only (rb_step fuel d x).
Proof. unfold rb_step. read_only_tac. Qed.
Lemma read_only_end fuel d root : read_only (rb_end fuel d root).
Proof. unfold rb_end. read_only_tac. Qed.
Lemma read_only_first_postorder fuel root : read_only (rb_first_postorder fuel root).
Proof. unfold rb_first_postorder. read_only_tac. Qed.
Lemma read_only_next_postorder fuel p : read_only (rb_next_postorder fuel p).
Proof. unfold rb_next_postorder. read_only_tac. Qed.
#[export] Hint Resolve read_only_step read_only_end read_only_first_postorder read_only_next_postorder : read_only.

(** ** Specifications on the heap *)

Lemma height_fuel t fuel : valid t → (rb_depth (length (inorder t)) ≤ fuel)%nat → (height t ≤ fuel)%nat.
Proof. intros Hv Hf. pose proof (valid_height t Hv). unfold rb_depth in Hf. lia. Qed.

(** A reading command verified on the tree at [root] returns what it should. *)
Lemma run_read {A} (m : cmd A) h root t (r : A) :
  read_only m → rep h root t →
  (∀ Σ (HG : gen_heapGS loc cell Σ),
     root ↦ CPtr (tptr t) ∗ tree_own None t ⊢ wp m (λ a, ⌜a = r⌝)) →
  m h = Some (r, h).
Proof.
  intros Hro Hrep Hwp. destruct (adequacy m h (λ a _, a = r)) as (a & h' & Hm & ->).
  - intros Σ HG. iIntros "H". iDestruct (heap_take_rep with "H") as "(Hr & Ht & _)"; [done|].
    iApply (wp_mono with "[Hr Ht]"); [iApply (Hwp with "[$]")|]. iIntros (a ->) "%h' _". done.
  - by pose proof (Hro _ _ _ Hm) as ->.
Qed.

(** The leftmost cell, taken out of the heap after the tree. *)
Lemma take_leftmost `{!gen_heapGS loc cell Σ} h root t leftmost h2 :
  rep h root t → leftmost_at h root leftmost t →
  (∀ a, a ∉ root :: inorder t → h2 !! a = h !! a) →
  heap_own h2 -∗ leftmost_own leftmost (inorder t) ∗
    ∃ h3, ⌜∀ a, a ∉ root :: inorder t ++ option_list leftmost → h3 !! a = h !! a⌝ ∗ heap_own h3.
Proof.
  iIntros (Hrep Hl Heq) "H". destruct leftmost as [a|]; simpl.
  - destruct Hl as [Ha Hne].
    assert (Hfa : a ∉ root :: inorder t).
    { rewrite not_elem_of_cons. split; [done|]. intros Hin. destruct Hrep as (_ & Hat & _).
      destruct (nodes_at_in _ _ _ _ Hat Hin) as [n Hn]. congruence. }
    iDestruct (heap_take _ a with "H") as "[$ H]"; [by rewrite Heq|]. iExists _. iFrame. iPureIntro.
    intros b Hb. rewrite lookup_delete_ne; [|set_solver]. apply Heq. set_solver.
  - iSplitR; [done|]. iExists h2. iFrame. iPureIntro. intros b Hb. apply Heq. set_solver.
Qed.

Lemma own_leftmost_at `{!gen_heapGS loc cell Σ} h root leftmost t :
  gen_heap_interp h -∗ root ↦ CPtr (tptr t) -∗ leftmost_own leftmost (inorder t) -∗
  ⌜leftmost_at h root leftmost t⌝.
Proof.
  iIntros "Hh Hr Hl". destruct leftmost as [a|]; simpl; [|done].
  iDestruct (gen_heap_valid with "Hh Hl") as %Ha. by iDestruct (own_ne with "Hl Hr") as %Hne.
Qed.

(** The facts about the final heap of an operation that ends with [tree_done]. *)
Lemma done_facts `{!gen_heapGS loc cell Σ} h h' h2 root leftmost l ls :
  (∀ a, a ∉ ls → h2 !! a = h !! a) →
  tree_done root l -∗ leftmost_own leftmost l -∗ heap_own h2 -∗ gen_heap_interp h' -∗
  ⌜∃ t', rep h' root t' ∧ valid t' ∧ leftmost_at h' root leftmost t' ∧ inorder t' = l ∧ frame_of h h' ls⌝.
Proof.
  iIntros (Heq) "(%t' & (%Hl & %Hv) & Ht & Hr) Hl H Hh". rewrite -Hl.
  iDestruct (own_rep with "Hh Hr Ht") as %Hrep. iDestruct (own_leftmost_at with "Hh Hr Hl") as %Hlm.
  iDestruct (own_frame with "Hh H") as %Hfr; [done|]. iPureIntro. exists t'. auto.
Qed.

(** A command verified to end with the nodes [l] in the tree runs on the heap. *)
Lemma run_done (m : cmd unit) h root leftmost l ls :
  (∀ Σ (HG : gen_heapGS loc cell Σ), heap_own h ⊢ wp m (λ _, tree_done root l ∗ leftmost_own leftmost l ∗
     ∃ h2, ⌜∀ a, a ∉ ls → h2 !! a = h !! a⌝ ∗ heap_own h2)) →
  ∃ h' t', m h = Some (tt, h') ∧ rep h' root t' ∧ valid t' ∧ leftmost_at h' root leftmost t' ∧
    inorder t' = l ∧ frame_of h h' ls.
Proof.
  intros Hwp. destruct (adequacy m h (λ _ h', ∃ t', rep h' root t' ∧ valid t' ∧
    leftmost_at h' root leftmost t' ∧ inorder t' = l ∧ frame_of h h' ls)) as ([] & h' & Hm & t' & Ht').
  - intros Σ HG. iIntros "H". iApply (wp_mono with "[H]"); [by iApply Hwp|].
    iIntros (?) "(Hd & Hl & %h2 & %Hh2 & H) %h' Hh". by iApply (done_facts with "Hd Hl H Hh").
  - by exists h', t'.
Qed.

Lemma filter_removed (l1 l2 : list loc) (x : loc) :
  NoDup (l1 ++ x :: l2) → filter (.≠ x) (l1 ++ x :: l2) = l1 ++ l2.
Proof.
  intros Hnd. apply NoDup_app in Hnd as (_ & H1 & Hnd). apply NoDup_cons in Hnd as [H2 _].
  assert (Hid : ∀ l : list loc, x ∉ l → filter (λ y, y ≠ x) l = l).
  { induction l as [|y l IH]; intros Hx; [done|]. rewrite not_elem_of_cons in Hx. destruct Hx as [Hne Hx].
    rewrite filter_cons_True; [|done]. by rewrite IH. }
  rewrite filter_app filter_cons_False; [|tauto]. rewrite !Hid; [done|done|]. intros Hx. apply (H1 _ Hx). set_solver.
Qed.

Lemma app_cons_NoDup (l1 l2 k1 k2 : list loc) x :
  l1 ++ x :: l2 = k1 ++ x :: k2 → NoDup (l1 ++ x :: l2) → l1 = k1 ∧ l2 = k2.
Proof.
  revert k1. induction l1 as [|y l1 IH]; intros [|z k1]; simpl.
  - by intros [= ->].
  - intros [= <- ->] Hnd. apply NoDup_cons in Hnd as [Hnd _]. set_solver.
  - intros [= -> <-] Hnd. apply NoDup_cons in Hnd as [Hnd _]. set_solver.
  - intros [= <- Heq] Hnd. apply NoDup_cons in Hnd as [_ Hnd]. destruct (IH _ Heq Hnd) as [<- <-]. done.
Qed.

(** Post-order around a focus. *)
Fixpoint post_before (π : path) : list loc :=
  match π with
  | [] => []
  | (DL, _, _, _) :: π => post_before π
  | (DR, _, _, sib) :: π => post_before π ++ postorder sib
  end.

Lemma postorder_plug π t : postorder (plug π t) = post_before π ++ postorder t ++ post_beyond π.
Proof.
  revert t. induction π as [|[[[[] c] x] sib] π IH]; intros t; simpl; [by rewrite app_nil_r|..];
    rewrite IH /= -!app_assoc //=.
Qed.

Lemma postorder_inorder t : postorder t ≡ₚ inorder t.
Proof.
  induction t as [|c l IHl x r IHr]; simpl; [done|]. rewrite IHl IHr. by rewrite -Permutation_cons_append.
Qed.

(** ** Insertion and erasure *)

(** Linking a node that is in no tree into an empty slot of a valid tree and
    calling [rb_insert_color] ([rb_insert_color_cached] when there is a cached
    first node) returns, after at most [2 log2 (n + 1)] turns of the loop, with
    a valid red-black tree that has the new node exactly at that place in the
    order; [rb_leftmost] is the first node again; no other cell changes. *)
Lemma rb_insert_run h root π x n leftmost fuel :
  rep h root (plug π E) → valid (plug π E) → leftmost_at h root leftmost (plug π E) →
  h !! x = Some (CNode n) → x ∉ inorder (plug π E) →
  (rb_depth (length (inorder (plug π E))) < fuel)%nat →
  ∃ h' t',
    (rb_link_node x (ppar π) (pside π) root;;;
     __rb_insert fuel x root (bool_decide (leftmost ≠ None ∧ beyond DL π = [])) leftmost) h = Some (tt, h') ∧
    rep h' root t' ∧ valid t' ∧ leftmost_at h' root leftmost t' ∧
    inorder t' = rev (beyond DL π) ++ x :: beyond DR π ∧
    inorder (plug π E) = rev (beyond DL π) ++ beyond DR π ∧
    frame_of h h' (x :: root :: inorder (plug π E) ++ option_list leftmost).
Proof.
  intros Hrep Hv Hlm Hx Hfx Hf.
  pose proof (height_fuel (plug π E) (pred fuel) Hv ltac:(lia)) as Hh.
  edestruct (run_done (rb_link_node x (ppar π) (pside π) root;;;
     __rb_insert fuel x root (bool_decide (leftmost ≠ None ∧ beyond DL π = [])) leftmost) h root leftmost)
    as (h' & t' & Hm & Hr' & Hv' & Hl' & Hin & Hfr); [|exists h', t'; split_and!; [exact Hm|done..| |exact Hfr]];
    [|by rewrite inorder_plug].
  intros Σ HG. iIntros "H". iDestruct (heap_take_rep with "H") as "(Hr & Ht & %h2 & %Hh2 & H)"; [done|].
  iDestruct (take_leftmost with "H") as "(Hl & %h3 & %Hh3 & H)"; [done..|].
  iDestruct (unplug_own root π E with "[$]") as "[Hπ _]".
  assert (Hxr : x ≠ root) by (intros ->; destruct Hrep as [Hr _]; congruence).
  assert (Hxl : x ∉ option_list leftmost).
  { destruct leftmost as [a|]; [|set_solver]. destruct Hlm as [Ha _]. simpl.
    rewrite list_elem_of_singleton. intros ->. congruence. }
  iDestruct (heap_take _ x with "H") as "[Hx H]"; [rewrite Hh3; [done|set_solver]|].
  iEval (rewrite inorder_plug /=) in "Hl". iApply (wp_rb_insert with "Hπ Hx Hl"); [done|lia| |].
  { destruct leftmost; simpl; [apply bool_decide_ext|done]. naive_solver. }
  iIntros "$ $". iExists _. iFrame "H". iPureIntro. intros a Ha. rewrite not_elem_of_cons in Ha. destruct Ha as [Hne Ha]. rewrite lookup_delete_ne; [|done].
  by apply Hh3.
Qed.

(** [rb_erase] ([rb_erase_cached] when there is a cached first node) of a
    node of a valid tree returns, after at most [2 log2 (n + 1)] turns of each
    loop, with a valid red-black tree that has the other nodes in the same
    order; [rb_leftmost] is the first of them; no other cell changes. *)
Lemma rb_erase_run h root t x leftmost fuel :
  rep h root t → valid t → leftmost_at h root leftmost t → x ∈ inorder t →
  (rb_depth (length (inorder t)) ≤ fuel)%nat →
  ∃ h' t',
    rb_erase_gen fuel x root leftmost h = Some (tt, h') ∧
    rep h' root t' ∧ valid t' ∧ leftmost_at h' root leftmost t' ∧
    inorder t' = filter (.≠ x) (inorder t) ∧
    frame_of h h' (root :: inorder t ++ option_list leftmost) ∧ ∃ n, h' !! x = Some (CNode n).
Proof.
  intros Hrep Hv Hlm Hx Hf. pose proof (height_fuel t fuel Hv Hf) as Hh.
  destruct (adequacy (rb_erase_gen fuel x root leftmost) h (λ _ h', (∃ t', rep h' root t' ∧ valid t' ∧
    leftmost_at h' root leftmost t' ∧ inorder t' = filter (.≠ x) (inorder t) ∧
    frame_of h h' (root :: inorder t ++ option_list leftmost)) ∧ ∃ n, h' !! x = Some (CNode n)))
    as ([] & h' & Hm & (t' & ? & ? & ? & ? & ?) & ?); [|by exists h', t'].
  intros Σ HG. iIntros "H". iDestruct (heap_take_rep with "H") as "(Hr & Ht & %h2 & %Hh2 & H)"; [done|].
  iDestruct (take_leftmost with "H") as "(Hl & %h3 & %Hh3 & H)"; [done..|].
  destruct Hrep as (_ & _ & Hnd). destruct (focus _ _ Hx) as (π & c & l & r & ->).
  rewrite inorder_plug_T in Hnd Hh3 |- *. rewrite filter_removed; [|done].
  iDestruct (unplug_own root π with "[$]") as "[Hπ Ht]".
  iApply (wp_rb_erase with "Hπ Ht Hl"); [done|done|]. iIntros (n) "Hx Hl Hd %h' Hh".
  iDestruct (gen_heap_valid with "Hh Hx") as %Hxn. iDestruct (done_facts with "Hd Hl H Hh") as %Hd; [done|].
  iPureIntro. eauto.
Qed.

(** ** Walking *)

(** [rb_first] and [rb_last] return the first and the last node of the
    order, or null on an empty tree, and change nothing. *)
Lemma rb_first_last_run h root t fuel :
  rep h root t → valid t → (rb_depth (length (inorder t)) ≤ fuel)%nat →
  rb_first fuel root h = Some (head (inorder t), h) ∧ rb_last fuel root h = Some (last (inorder t), h).
Proof.
  intros Hrep Hv Hf. pose proof (height_fuel t fuel Hv Hf) as Hh.
  assert (Hend : ∀ d, rb_end fuel d root h = Some (head (walk (opp d) t), h)).
  { intros d. apply (run_read _ h root t); [auto with read_only|done|].
    intros Σ HG. iIntros "[Hr Ht]". iApply (wp_end with "Ht Hr"); [done|]. by iIntros. }
  split; [rewrite /rb_first Hend walk_right //|]. rewrite /rb_last Hend. do 2 f_equal.
  rewrite walk_opp walk_right rev_alt. apply head_reverse.
Qed.

(** [rb_next] returns the node that follows in the order (null after the
    last one) and [rb_prev] the one that precedes (null before the first); they
    change nothing. *)
Lemma rb_next_prev_run h root t fuel l1 x l2 :
  rep h root t → valid t → (rb_depth (length (inorder t)) ≤ fuel)%nat → inorder t = l1 ++ x :: l2 →
  rb_next fuel x h = Some (head l2, h) ∧ rb_prev fuel x h = Some (last l1, h).
Proof.
  intros Hrep Hv Hf Hl. pose proof (height_fuel t fuel Hv Hf) as Hh.
  destruct (focus t x) as (π & c & l & r & ->); [rewrite Hl; set_solver|].
  assert (Hstep : ∀ d a b, T c l x r = mkT d c a x b →
    rb_step fuel d x h = Some (head (walk d a ++ beyond d π), h)).
  { intros d a b Heq. apply (run_read _ h root _ _ (read_only_step _ _ _) Hrep).
    intros Σ HG. iIntros "[Hr Ht]". iDestruct (unplug_own root π with "[$]") as "[Hπ Ht]". rewrite Heq tptr_mkT.
    iApply (wp_step with "Hπ Ht"); [by rewrite -Heq|]. by iIntros. }
  pose proof Hrep as (_ & _ & Hnd). rewrite inorder_plug_T in Hl Hnd. destruct (app_cons_NoDup _ _ _ _ _ Hl Hnd) as [<- <-].
  split.
  - rewrite /rb_next (Hstep DR r l eq_refl) walk_right. done.
  - rewrite /rb_prev (Hstep DL l r eq_refl). do 2 f_equal. unfold before.
    change DL with (opp DR). rewrite walk_opp walk_right -head_reverse reverse_app /reverse -!rev_alt.
    by rewrite rev_involutive.
Qed.

(** [rb_first_postorder] and [rb_next_postorder] enumerate the nodes
    children first: the first node, and the node after each one (null after the
    last). *)
Lemma rb_postorder_run h root t fuel :
  rep h root t → valid t → (rb_depth (length (inorder t)) ≤ fuel)%nat →
  rb_first_postorder fuel root h = Some (head (postorder t), h) ∧
  ∀ l1 x l2, postorder t = l1 ++ x :: l2 → rb_next_postorder fuel (Some x) h = Some (head l2, h).
Proof.
  intros Hrep Hv Hf. pose proof (height_fuel t fuel Hv Hf) as Hh. split.
  - apply (run_read _ h root t); [auto with read_only|done|].
    intros Σ HG. iIntros "[Hr Ht]". iApply (wp_first_postorder with "Ht Hr"); [done|]. by iIntros.
  - intros l1 x l2 Hl. destruct (focus t x) as (π & c & l & r & ->).
    { rewrite -postorder_inorder Hl. set_solver. }
    pose proof Hrep as (_ & _ & Hnd). rewrite -postorder_inorder in Hnd.
    assert (Hp : postorder (plug π (T c l x r)) = (post_before π ++ postorder l ++ postorder r) ++ x :: post_beyond π)
      by rewrite postorder_plug /= -!app_assoc //.
    rewrite Hp in Hl Hnd.
    destruct (app_cons_NoDup _ _ _ _ _ Hl Hnd) as [_ <-].
    apply (run_read _ h root _ _ (read_only_next_postorder _ _) Hrep).
    intros Σ HG. iIntros "[Hr Ht]". iDestruct (unplug_own root π with "[$]") as "[Hπ Ht]".
    iApply (wp_next_postorder with "Hπ Ht"); [done|]. by iIntros.
Qed.

(** [rb_replace_node] puts the new node in the place of the victim, with
    its colour and children, without rebalancing; with
    [rb_replace_node_cached] the cached first node follows. *)
Lemma rb_replace_run h root π c l v r x n a :
  rep h root (plug π (T c l v r)) → leftmost_at h root (Some a) (plug π (T c l v r)) →
  h !! x = Some (CNode n) → x ∉ inorder (plug π (T c l v r)) →
  ∃ h', rb_replace_node_cached v x root a h = Some (tt, h') ∧
    rep h' root (plug π (T c l x r)) ∧ leftmost_at h' root (Some a) (plug π (T c l x r)) ∧
    frame_of h h' (x :: root :: inorder (plug π (T c l v r)) ++ [a]).
Proof.
  intros Hrep Hlm Hx Hfx.
  destruct (adequacy (rb_replace_node_cached v x root a) h (λ _ h', rep h' root (plug π (T c l x r)) ∧
    leftmost_at h' root (Some a) (plug π (T c l x r)) ∧
    frame_of h h' (x :: root :: inorder (plug π (T c l v r)) ++ [a]))) as ([] & h' & Hm & Hpost); [|by exists h'].
  intros Σ HG. iIntros "H". iDestruct (heap_take_rep with "H") as "(Hr & Ht & %h2 & %Hh2 & H)"; [done|].
  iDestruct (take_leftmost with "H") as "(Hl & %h3 & %Hh3 & H)"; [done..|].
  assert (Hxr : x ≠ root) by (intros ->; destruct Hrep as [Hr _]; congruence).
  assert (Hxa : x ≠ a) by (intros ->; destruct Hlm as [Ha _]; congruence).
  iDestruct (heap_take _ x with "H") as "[Hx H]"; [rewrite Hh3; [done|set_solver]|].
  iDestruct (unplug_own root π with "[$]") as "[Hπ Ht]".
  iDestruct "Ht" as "(Hv & Hlt & Hrt)". iDestruct (path_own_fresh with "Hπ Hv") as %Hfπ.
  iDestruct (tree_own_fresh with "Hlt Hv") as %Hfl.
  iApply wp_bind. iApply (wp_replace root π c l v r with "Hπ [Hv Hlt Hrt] Hx"); [iFrame|]. iIntros (m) "Hv Hπ Ht".
  iApply wp_bind. iApply (wp_load_ptr with "Hl"). iIntros "Hl".
  iAssert (∀ h', a ↦ CPtr (head (inorder (plug π (T c l x r)))) -∗ gen_heap_interp h' -∗
    ⌜rep h' root (plug π (T c l x r)) ∧ leftmost_at h' root (Some a) (plug π (T c l x r)) ∧
     frame_of h h' (x :: root :: inorder (plug π (T c l v r)) ++ [a])⌝)%I with "[Hπ Ht H]" as "Hend".
  { iIntros (h') "Hl Hh". iDestruct (plug_own root π (T c l x r) with "Hπ Ht") as "[Ht Hr]".
    iDestruct (own_leftmost_at _ root (Some a) with "Hh Hr Hl") as %?. iDestruct (own_rep with "Hh Hr Ht") as %?.
    iDestruct (own_frame with "Hh H") as %?; [|done]. intros b Hb. rewrite not_elem_of_cons in Hb.
    destruct Hb. rewrite lookup_delete_ne; [|done]. by apply Hh3. }
  rewrite !inorder_plug_T. destruct (before π l) as [|y ys] eqn:Hb; cbn [app head].
  - case_decide as Hc; [|done]. iApply (wp_store_ptr with "Hl"). iIntros "Hl" (h'). iApply ("Hend" with "Hl").
  - case_decide as Hc; [|iApply wp_ret; iIntros (h'); iApply ("Hend" with "Hl")].
    injection Hc as ->. exfalso. assert (v ∈ before π l) as Hin by (rewrite Hb; set_solver).
    unfold before in Hin. rewrite elem_of_app elem_of_rev in Hin. tauto.
Qed.

