(* ===== verification/RbtreeProps.v ===== *)
(** * Correctness of the red-black tree

    The theorems about the public operations of [lib/base/src/rbtree.c]. *)
From stdpp Require Import gmap.
From S2P Require Import Prelude Rbtree RbtreeLogic RbtreeInsert RbtreeWalk RbtreeSpec RbtreeRun.

(** C21. Linking a node that is in no tree into an empty slot of a valid tree and
    calling [rb_insert_color] returns, after at most [2 log2 (n + 1)] turns of
    the loop, with a valid red-black tree that has the new node exactly at that
    place in the order, and no other cell changes. *)
Theorem rb_insert_correct h root π x n fuel :
  rep h root (plug π E) → valid (plug π E) →
  h !! x = Some (CNode n) → x ∉ inorder (plug π E) →
  (rb_depth (length (inorder (plug π E))) < fuel)%nat →
  ∃ h' t',
    (rb_link_node x (ppar π) (pside π) root;;; rb_insert_color fuel x root) h = Some (tt, h') ∧
    rep h' root t' ∧ valid t' ∧
    inorder t' = rev (beyond DL π) ++ x :: beyond DR π ∧
    inorder (plug π E) = rev (beyond DL π) ++ beyond DR π ∧
    frame_of h h' (x :: root :: inorder (plug π E)).
Proof.
  intros Hrep Hv Hx Hfx Hf. destruct (rb_insert_run h root π x n None fuel) as (h' & t' & Hrun & H); try done.
  simpl in H. rewrite app_nil_r in H. naive_solver.
Qed.

(** C22. [rb_erase] of a node of a valid tree returns, after at most
    [2 log2 (n + 1)] turns of each loop, with a valid red-black tree that has
    exactly the other nodes, in the same order; no other cell changes. *)
Theorem rb_erase_correct h root t x fuel :
  rep h root t → valid t → x ∈ inorder t → (rb_depth (length (inorder t)) ≤ fuel)%nat →
  ∃ h' t',
    rb_erase fuel x root h = Some (tt, h') ∧ rep h' root t' ∧ valid t' ∧
    inorder t' = filter (.≠ x) (inorder t) ∧ frame_of h h' (root :: inorder t).
Proof.
  intros Hrep Hv Hx Hf. destruct (rb_erase_run h root t x None fuel) as (h' & t' & Hrun & H); try done.
  simpl in H. rewrite app_nil_r in H. naive_solver.
Qed.

(** With a cached first node, insertion and erasure keep [rb_leftmost] the
    first node of the tree (null when it is empty), provided that the caller of
    [rb_insert_color_cached] says truthfully whether the new node is first. *)
Theorem rb_cached_correct h root leftmost t fuel :
  rep h root t → valid t → leftmost_at h root (Some leftmost) t →
  (rb_depth (length (inorder t)) < fuel)%nat →
  (∀ π x n newleft, t = plug π E → h !! x = Some (CNode n) → x ∉ inorder t →
     newleft = bool_decide (beyond DL π = []) →
     ∃ h' t', (rb_link_node x (ppar π) (pside π) root;;; rb_insert_color_cached fuel x root leftmost newleft) h =
                Some (tt, h') ∧ rep h' root t' ∧ valid t' ∧
              inorder t' = rev (beyond DL π) ++ x :: beyond DR π ∧ leftmost_at h' root (Some leftmost) t') ∧
  (∀ x, x ∈ inorder t →
     ∃ h' t', rb_erase_cached fuel x root leftmost h = Some (tt, h') ∧ rep h' root t' ∧ valid t' ∧
              inorder t' = filter (.≠ x) (inorder t) ∧ leftmost_at h' root (Some leftmost) t').
Proof.
  intros Hrep Hv Hlm Hf. split.
  - intros π x n newleft -> Hx Hfx ->.
    destruct (rb_insert_run h root π x n (Some leftmost) fuel) as (h' & t' & Hrun & Hpost); try done.
    exists h', t'. split; [|naive_solver]. rewrite <-Hrun. unfold rb_insert_color_cached.
    by rewrite (bool_decide_ext (Some leftmost ≠ None ∧ beyond DL π = []) (beyond DL π = [])) by naive_solver.
  - intros x Hx. destruct (rb_erase_run h root t x (Some leftmost) fuel) as (h' & t' & Hrun & Hpost); try done; [lia|].
    exists h', t'. naive_solver.
Qed.

(** [rb_first] and [rb_last] return the ends of the order (null on an empty
    tree); from any node [rb_next] and [rb_prev] return its neighbours in the
    order (null at the ends); none of them changes the heap. *)
Theorem rb_walk_correct h root t fuel :
  rep h root t → valid t → (rb_depth (length (inorder t)) ≤ fuel)%nat →
  rb_first fuel root h = Some (head (inorder t), h) ∧
  rb_last fuel root h = Some (last (inorder t), h) ∧
  ∀ l1 x l2, inorder t = l1 ++ x :: l2 →
    rb_next fuel x h = Some (head l2, h) ∧ rb_prev fuel x h = Some (last l1, h).
Proof.
  intros Hrep Hv Hf. destruct (rb_first_last_run h root t fuel Hrep Hv Hf). split_and!; [done..|].
  intros l1 x l2. by apply (rb_next_prev_run h root t).
Qed.

(** [rb_first_postorder] and [rb_next_postorder] enumerate the nodes
    children first: the first node, and the node after each one (null after the
    last). *)
Theorem rb_postorder_correct h root t fuel :
  rep h root t → valid t → (rb_depth (length (inorder t)) ≤ fuel)%nat →
  rb_first_postorder fuel root h = Some (head (postorder t), h) ∧
  ∀ l1 x l2, postorder t = l1 ++ x :: l2 → rb_next_postorder fuel (Some x) h = Some (head l2, h).
Proof. apply rb_postorder_run. Qed.

(** [rb_replace_node] puts the new node in the place of the victim, with
    its colour and children, without rebalancing; with
    [rb_replace_node_cached] the cached first node follows. *)
Theorem rb_replace_correct h root π c l v r x n a :
  rep h root (plug π (T c l v r)) → leftmost_at h root (Some a) (plug π (T c l v r)) →
  h !! x = Some (CNode n) → x ∉ inorder (plug π (T c l v r)) →
  ∃ h', rb_replace_node_cached v x root a h = Some (tt, h') ∧
    rep h' root (plug π (T c l x r)) ∧ leftmost_at h' root (Some a) (plug π (T c l x r)) ∧
    frame_of h h' (x :: root :: inorder (plug π (T c l v r)) ++ [a]).
Proof. apply rb_replace_run. Qed.

(** ** Examples *)

Module RbtreeExample.

Local Open Scope nat_scope.

(** A root at address 0, a cached first node at address 1, three nodes in the
    tree, a node (40) and a pointer (50) outside of it. *)
Definition t0 : tree := T Black (T Red E 10 E) 20 (T Red E 30 E).
Definition node0 : rb_node := mk_rb None Black None None.
Definition h0 : heap :=
  {[ 0 := CPtr (Some 20); 1 := CPtr (Some 10);
     20 := CNode (mk_rb None Black (Some 30) (Some 10));
     10 := CNode (mk_rb (Some 20) Red None None);
     30 := CNode (mk_rb (Some 20) Red None None);
     40 := CNode node0; 50 := CPtr None ]}.
(** The empty slot to the right of node 30. *)
Definition slot : path := [(DR, Red, 30, E); (DR, Black, 20, T Red E 10 E)].

Lemma rep0 : rep h0 0 t0.
Proof. split_and!; [done|done|apply (bool_decide_unpack _); vm_compute; exact I]. Qed.
Lemma valid0 : valid t0.
Proof. split; [done|]. by exists 1. Qed.
Lemma leftmost0 : leftmost_at h0 0 (Some 1) t0.
Proof. done. Qed.

Ltac concrete :=
  first [ done | exact rep0 | exact valid0 | exact leftmost0 | (apply (bool_decide_unpack _); vm_compute; exact I)
        | vm_compute; lia ].

Lemma rb_insert_correct_witness :
  ∃ h' t', (rb_link_node 40 (Some 30) DR 0;;; rb_insert_color 5 40 0) h0 = Some (tt, h') ∧
    rep h' 0 t' ∧ valid t' ∧ inorder t' = [10; 20; 30; 40] ∧ h' !! 50 = Some (CPtr None).
Proof.
  destruct (rb_insert_correct h0 0 slot 40 node0 5) as (h' & t' & Hrun & Hrep & Hv & Hin & _ & Hfr);
    [concrete..|]. exists h', t'. split_and!; [exact Hrun|done..|]. apply Hfr; concrete.
Defined.

Lemma rb_erase_correct_witness :
  ∃ h' t', rb_erase 4 20 0 h0 = Some (tt, h') ∧
    rep h' 0 t' ∧ valid t' ∧ inorder t' = [10; 30] ∧ h' !! 50 = Some (CPtr None).
Proof.
  destruct (rb_erase_correct h0 0 t0 20 4) as (h' & t' & Hrun & Hrep & Hv & Hin & Hfr);
    [concrete..|]. exists h', t'. split_and!; [done..|]. apply Hfr; concrete.
Defined.

Lemma rb_cached_correct_witness :
  ∃ h' t', rb_erase_cached 5 10 0 1 h0 = Some (tt, h') ∧
    rep h' 0 t' ∧ valid t' ∧ inorder t' = [20; 30] ∧ h' !! 1 = Some (CPtr (Some 20)).
Proof.
  destruct (rb_cached_correct h0 0 1 t0 5) as [_ Herase]; [concrete..|].
  destruct (Herase 10) as (h' & t' & Hrun & Hrep & Hv & Hin & Hl & _); [concrete|].
  rewrite Hin in Hl. exists h', t'. by repeat split; try apply Hrep; try apply Hv.
Defined.

Lemma rb_walk_correct_witness :
  rb_first 4 0 h0 = Some (Some 10, h0) ∧ rb_last 4 0 h0 = Some (Some 30, h0) ∧
  rb_next 4 10 h0 = Some (Some 20, h0) ∧ rb_prev 4 10 h0 = Some (None, h0).
Proof.
  destruct (rb_walk_correct h0 0 t0 4) as (Hf & Hl & Hn); [concrete..|].
  split; [exact Hf|]. split; [exact Hl|]. by apply (Hn [] 10 [20; 30]).
Defined.

Lemma rb_postorder_correct_witness :
  rb_first_postorder 4 0 h0 = Some (Some 10, h0) ∧ rb_next_postorder 4 (Some 10) h0 = Some (Some 30, h0).
Proof.
  destruct (rb_postorder_correct h0 0 t0 4) as [Hfirst Hnext]; [concrete..|].
  split; [exact Hfirst|]. by apply (Hnext [] 10 [30; 20]).
Defined.

Lemma rb_replace_correct_witness :
  ∃ h', rb_replace_node_cached 10 40 0 1 h0 = Some (tt, h') ∧
    rep h' 0 (T Black (T Red E 40 E) 20 (T Red E 30 E)) ∧ h' !! 1 = Some (CPtr (Some 40)).
Proof.
  destruct (rb_replace_correct h0 0 [(DL, Black, 20, T Red E 30 E)] Red E 10 E 40 node0 1)
    as (h' & Hrun & Hrep & Hl & _); [concrete..|]. exists h'. split_and!; [done|done|]. apply Hl.
Defined.

End RbtreeExample.
