(* ===== verification/RbtreeKeyed.v ===== *)
(** * Trees ordered by a key

    What the users of the red-black tree rely on: the descent from the root to
    the empty slot for a key, the search for a key, and how insertion and
    erasure act on the sorted sequence of the nodes.  The key of a node is in
    the structure around it ([container_of]), so it is a function of the node's
    address here. *)
From stdpp Require Import gmap sorting.
From S2P Require Import Prelude Rbtree RbtreeLogic RbtreeInsert RbtreeWalk RbtreeErase RbtreeSpec RbtreeRun.

(** Orders that agree on the members of a sequence sort it alike. *)
Lemma sorted_ext (R R' : loc → loc → Prop) l :
  (∀ x y, x ∈ l → y ∈ l → R x y → R' x y) → StronglySorted R l → StronglySorted R' l.
Proof.
  intros Himpl Hs. induction Hs as [|x l Hs IH Hall]; [constructor|]. constructor.
  - apply IH. intros y z Hy Hz. apply Himpl; by right.
  - rewrite Forall_forall in *. intros y Hy. apply Himpl; [by left|by right|by apply Hall].
Qed.

(** ** The descent

    The loop that figures out where to put a new node, in [pid_insert] and
    [timerqueue_add]: [go this] is the side to take at [this], or [None] to give
    up.  [cur] is the content of the slot [new], which is on side [link] of
    [parent]. *)
Fixpoint rb_descend (fuel : nat) (go : loc → option dir) (parent : ptr) (link : dir) (cur : ptr) :
    cmd (option (ptr * dir)) :=
  match cur with
  | None => ret (Some (parent, link))
  | Some this =>
      match fuel with
      | O => crash
      | S fuel =>
          match go this with
          | None => ret None
          | Some d => n <- load this;; rb_descend fuel go (Some this) d (child d n)
          end
      end
  end.

(** The descent followed by the linking and the rebalancing; [false] when the
    descent gave up. *)
Definition rb_insert_at (fuel : nat) (go : loc → option dir) (node root : loc) : cmd bool :=
  new <- load_ptr root;;
  slot <- rb_descend fuel go None DL new;;
  match slot with
  | None => ret false
  | Some (parent, link) =>
      rb_link_node node parent link root;;;
      rb_insert_color fuel node root;;;
      ret true
  end.

(** ** The nodes of a tree in the heap *)

Lemma nodes_at_plug h par π t : nodes_at h par (plug π t) → nodes_at h (spar par π) t.
Proof.
  revert t. induction π as [|[[[d c] x] sib] π IH]; intros t; simpl; [done|].
  intros Ht. apply IH in Ht. destruct d; simpl in Ht; tauto.
Qed.

Lemma load_at h par c l x r :
  nodes_at h par (T c l x r) → load x h = Some (mk_rb par c (tptr r) (tptr l), h).
Proof. intros [Hx _]. unfold load. by rewrite Hx. Qed.

Section keyed.
Context (go : loc → option dir) (before_ok after_ok : loc → Prop).

(** [go] is consistent with the order around the slot: what is passed on the
    left may precede the new node, what is passed on the right may follow. *)
Hypothesis go_left : ∀ x, go x = Some DL → after_ok x.
Hypothesis go_right : ∀ x, go x = Some DR → before_ok x.

(** A slot at which the new node is in order. *)
Definition slot_ok (π : path) : Prop :=
  Forall before_ok (beyond DL π) ∧ Forall after_ok (beyond DR π).

Lemma descend_run h par t π fuel :
  nodes_at h par (plug π t) → (height t ≤ fuel)%nat → slot_ok π →
  (∀ c l x r ρ, plug π t = plug ρ (T c l x r) → go x = Some DL → Forall after_ok (inorder r)) →
  (∀ c l x r ρ, plug π t = plug ρ (T c l x r) → go x = Some DR → Forall before_ok (inorder l)) →
  ∃ res, rb_descend fuel go (ppar π) (pside π) (tptr t) h = Some (res, h) ∧
    match res with
    | None => ∃ x, x ∈ inorder t ∧ go x = None
    | Some (p, d) => ∃ π', plug π' E = plug π t ∧ p = ppar π' ∧ d = pside π' ∧ slot_ok π'
    end.
Proof.
  revert t π. induction fuel as [|fuel IH]; intros t π Hat Hf Hok HL HR;
    (destruct t as [|c l x r]; [exists (Some (ppar π, pside π)); split; [done|]; by exists π|]); [simpl in Hf; lia|].
  cbn [tptr rb_descend]. simpl in Hf.
  pose proof (load_at _ _ _ _ _ _ (nodes_at_plug _ _ _ _ Hat)) as Hload.
  destruct (go x) as [d|] eqn:Hgo; cycle 1.
  { exists None. split; [done|]. exists x. split; [|done]. simpl. set_solver. }
  unfold bind. rewrite Hload. cbn [mbind option_bind].
  destruct d; cbn [child rb_left rb_right].
  - destruct (IH l ((DL, c, x, r) :: π)) as (res & Hrun & Hres); [done|lia| |done|done|].
    { destruct Hok. split; simpl; [done|]. constructor; [by apply go_left|].
      apply Forall_app. split; [|done]. rewrite walk_right. eapply (HL _ _ _ _ π); done. }
    exists res. split; [exact Hrun|]. destruct res as [[p d]|]; [exact Hres|].
    destruct Hres as (y & Hy & Hgy). exists y. split; [|done]. simpl. set_solver.
  - destruct (IH r ((DR, c, x, l) :: π)) as (res & Hrun & Hres); [done|lia| |done|done|].
    { destruct Hok. split; simpl; [|done]. constructor; [by apply go_right|].
      apply Forall_app. split; [|done]. change DL with (opp DR). rewrite walk_opp, walk_right.
      apply Forall_rev. eapply (HR _ _ _ _ π); done. }
    exists res. split; [exact Hrun|]. destruct res as [[p d]|]; [exact Hres|].
    destruct Hres as (y & Hy & Hgy). exists y. split; [|done]. simpl. set_solver.
Qed.

End keyed.

(** ** Sorted sequences *)

Section sorted.
Context (R : loc → loc → Prop).

Lemma sorted_app l1 x l2 :
  StronglySorted R (l1 ++ x :: l2) →
  (∀ a, a ∈ l1 → R a x) ∧ (∀ a, a ∈ l2 → R x a) ∧ (∀ a b, a ∈ l1 → b ∈ l2 → R a b).
Proof.
  induction l1 as [|y l1 IH]; simpl; intros Hs; apply StronglySorted_inv in Hs as [Hs Hall];
    rewrite Forall_forall in Hall.
  - split_and!; [set_solver|done|set_solver].
  - destruct (IH Hs) as (H1 & H2 & H3). split_and!; [|done|].
    + intros a [->|Ha]%elem_of_cons; [apply Hall; set_solver|auto].
    + intros a b [->|Ha]%elem_of_cons Hb; [apply Hall; set_solver|auto].
Qed.

Lemma sorted_insert l1 x l2 :
  StronglySorted R (l1 ++ l2) → Forall (λ a, R a x) l1 → Forall (R x) l2 → StronglySorted R (l1 ++ x :: l2).
Proof.
  induction l1 as [|y l1 IH]; simpl; intros Hs H1 H2; [by constructor|].
  apply StronglySorted_inv in Hs as [Hs Hall]. apply Forall_cons in H1 as [Hy H1]. constructor; [auto|].
  apply Forall_app in Hall as [Ha Hb]. apply Forall_app. split; [done|]. by constructor.
Qed.

Lemma sorted_filter (P : loc → Prop) `{∀ x, Decision (P x)} l :
  StronglySorted R l → StronglySorted R (filter P l).
Proof.
  induction 1 as [|x l Hs IH Hall]; [constructor|]. rewrite filter_cons. case_decide; [|done].
  constructor; [done|]. rewrite Forall_forall in *. intros y Hy. apply Hall.
  by apply list_elem_of_filter in Hy as [_ Hy].
Qed.

End sorted.

Lemma sorted_focus R t ρ c l x r :
  StronglySorted R (inorder t) → t = plug ρ (T c l x r) →
  Forall (λ a, R a x) (inorder l) ∧ Forall (R x) (inorder r).
Proof.
  intros Hs ->. rewrite inorder_plug_T in Hs. apply sorted_app in Hs as (H1 & H2 & _).
  unfold before, after in *. split; apply Forall_forall; intros a Ha; [apply H1|apply H2]; set_solver.
Qed.

Lemma bind_run {A B} (m : cmd A) (k : A → cmd B) h a h' : m h = Some (a, h') → bind m k h = k a h'.
Proof. intros Hm. unfold bind. by rewrite Hm. Qed.

Lemma bind_assoc {A B C} (m : cmd A) (k : A → cmd B) (j : B → cmd C) h :
  bind (bind m k) j h = bind m (λ a, bind (k a) j) h.
Proof. unfold bind. by destruct (m h) as [[]|]. Qed.

Lemma load_root h root t : rep h root t → load_ptr root h = Some (tptr t, h).
Proof. intros [Hr _]. unfold load_ptr. by rewrite Hr. Qed.

(** ** Insertion by key *)

Section insert_at.
Context (go : loc → option dir) (before_ok after_ok : loc → Prop) (R : loc → loc → Prop).
Hypothesis go_left : ∀ y, go y = Some DL → after_ok y.
Hypothesis go_right : ∀ y, go y = Some DR → before_ok y.
Hypothesis after_up : ∀ y z, after_ok y → R y z → after_ok z.
Hypothesis before_down : ∀ y z, before_ok y → R z y → before_ok z.

Lemma insert_at_run h root t x n fuel :
  rep h root t → valid t → StronglySorted R (inorder t) →
  h !! x = Some (CNode n) → x ∉ inorder t → (rb_depth (length (inorder t)) < fuel)%nat →
  (rb_insert_at fuel go x root h = Some (false, h) ∧ ∃ y, y ∈ inorder t ∧ go y = None) ∨
  ∃ h' t' l1 l2, rb_insert_at fuel go x root h = Some (true, h') ∧ rep h' root t' ∧ valid t' ∧
    inorder t = l1 ++ l2 ∧ inorder t' = l1 ++ x :: l2 ∧ Forall before_ok l1 ∧ Forall after_ok l2 ∧
    frame_of h h' (x :: root :: inorder t).
Proof.
  intros Hrep Hv Hs Hx Hfx Hf. pose proof (height_fuel t fuel Hv ltac:(lia)) as Hh.
  destruct (descend_run go before_ok after_ok go_left go_right h None t [] fuel) as (res & Hrun & Hres).
  { apply Hrep. } { done. } { by split. }
  { intros c l y r ρ Heq Hy. destruct (sorted_focus _ _ _ _ _ _ _ Hs Heq) as [_ Hr].
    eapply Forall_impl; [exact Hr|]. intros z Hz. by eapply after_up; [apply go_left|]. }
  { intros c l y r ρ Heq Hy. destruct (sorted_focus _ _ _ _ _ _ _ Hs Heq) as [Hl _].
    eapply Forall_impl; [exact Hl|]. intros z Hz. by eapply before_down; [apply go_right|]. }
  unfold rb_insert_at. rewrite (bind_run _ _ _ _ _ (load_root _ _ _ Hrep)).
  rewrite (bind_run _ _ _ _ _ Hrun). destruct res as [[p d]|]; [right|by left].
  destruct Hres as (π & Hπ & -> & -> & Hbefore & Hafter). simpl in Hπ. subst t.
  destruct (rb_insert_run h root π x n None fuel) as (h' & t' & Hm & Hr' & Hv' & _ & Hin & Hin0 & Hfr);
    [done..|]. exists h', t', (rev (beyond DL π)), (beyond DR π).
  split_and!; try done; [|by apply Forall_rev|by rewrite app_nil_r in Hfr].
  rewrite <-bind_assoc. erewrite bind_run; [reflexivity|exact Hm].
Qed.

End insert_at.
