(* ===== verification/Pid.v ===== *)
(** * Process identifiers ([kernel/core/pid.c], [kernel/libminix-rt/src/pid.c])

    The tree of the used pids and the list of the freed ones.  A task is named by
    the address of the [rb_node] inside its [struct pid_struct]; [pid_of] is the
    [pid] field beside it, so that [container_of] is the identity. *)
From stdpp Require Import functions gmap sorting.
From S2P Require Import Prelude Rbtree RbtreeKeyed.

Definition INT_MAX : Z := 2 ^ 31 - 1.

Section pid.
(** The address of [pid_root.rb_node]. *)
Variable pid_root : loc.

(** ** The tree *)

Fixpoint pid_find_loop (pid_of : loc → Z) (fuel : nat) (pid : Z) (node : ptr) : cmd ptr :=
  match node with
  | None => ret None
  | Some data =>
      match fuel with
      | O => crash
      | S fuel =>
          if pid <? pid_of data then n <- load data;; pid_find_loop pid_of fuel pid (rb_left n)
          else if pid >? pid_of data then n <- load data;; pid_find_loop pid_of fuel pid (rb_right n)
          else ret (Some data)
      end
  end.

Definition pid_find (pid_of : loc → Z) (fuel : nat) (pid : Z) : cmd ptr :=
  node <- load_ptr pid_root;; pid_find_loop pid_of fuel pid node.

Definition pid_find_process_by_pid (pid_of : loc → Z) (fuel : nat) (pid : Z) : cmd ptr :=
  pids <- pid_find pid_of fuel pid;;
  match pids with
  | None => ret None
  | Some pids => ret (Some pids)
  end.

(** The three-way comparison of [pid_insert]. *)
Definition pid_go (pid_of : loc → Z) (pid : Z) (this : loc) : option dir :=
  if pid <? pid_of this then Some DL
  else if pid >? pid_of this then Some DR
  else None.

Definition pid_insert (pid_of : loc → Z) (fuel : nat) (data : loc) : cmd bool :=
  rb_insert_at fuel (pid_go pid_of (pid_of data)) data pid_root.

Definition pid_insert_process_by_pid (pid_of : loc → Z) (fuel : nat) (tsk : ptr) : cmd bool :=
  match tsk with
  | None => ret false
  | Some tsk => pid_insert pid_of fuel tsk
  end.

Definition pid_first (pid_of : loc → Z) (fuel : nat) : cmd Z :=
  node <- rb_first fuel pid_root;;
  match node with
  | None => ret INT_MAX
  | Some pids => ret (pid_of pids)
  end.

Definition pid_next (pid_of : loc → Z) (fuel : nat) (pid : Z) : cmd Z :=
  pids <- pid_find pid_of fuel pid;;
  match pids with
  | None => ret INT_MAX
  | Some pids =>
      node <- rb_next fuel pids;;
      match node with
      | None => ret INT_MAX
      | Some pids => ret (pid_of pids)
      end
  end.

(** [pid_for_each_pid(pid)]: the values the body of the loop sees. *)
Fixpoint pid_for_each_loop (pid_of : loc → Z) (fuel n : nat) (pid : Z) : cmd (list Z) :=
  if pid =? INT_MAX then ret [] else
  match n with
  | O => crash
  | S n => pid' <- pid_next pid_of fuel pid;; l <- pid_for_each_loop pid_of fuel n pid';; ret (pid :: l)
  end.
Definition pid_for_each_pid (pid_of : loc → Z) (fuel n : nat) : cmd (list Z) :=
  pid <- pid_first pid_of fuel;; pid_for_each_loop pid_of fuel n pid.

(** [pid_remove] of the user library, whose other functions are the ones above. *)
Definition pid_remove (pid_of : loc → Z) (fuel : nat) (pid : Z) : cmd bool :=
  pids <- pid_find pid_of fuel pid;;
  match pids with
  | None => ret false
  | Some pids => rb_erase fuel pids pid_root;;; ret true
  end.

(** ** Allocation: the memory, the [pid] fields and the list of freed pids *)

Record pids := mk_pids { pid_heap : heap; pid_field : loc → Z; pid_root_cache : list Z }.

(** A failed [BUG_ON] is [None]. *)
Definition lift {A} (m : cmd A) (s : pids) : option (A * pids) :=
  '(a, h) ← m (pid_heap s); Some (a, mk_pids h (pid_field s) (pid_root_cache s)).

(** [tsk->pid.pid = pid; BUG_ON(!pid_insert_process_by_pid(tsk)); return 0;] *)
Definition pid_assign (fuel : nat) (tsk : loc) (pid : Z) (cache : list Z) (s : pids) : option (Z * pids) :=
  let field := <[tsk := pid]> (pid_field s) in
  '(ok, s) ← lift (pid_insert_process_by_pid field fuel (Some tsk)) (mk_pids (pid_heap s) field cache);
  if ok : bool then Some (0, s) else None.

Definition pid_alloc_pid (fuel : nat) (tsk : ptr) (s : pids) : option (Z * pids) :=
  match tsk with
  | None => Some (- EINVAL, s)
  | Some tsk =>
      match pid_root_cache s with
      | pid :: cache => pid_assign fuel tsk pid cache s
      | [] =>
          '(node, s) ← lift (rb_last fuel pid_root) s;
          match node with
          | None => None
          | Some pids => pid_assign fuel tsk (s32 (pid_field s pids + 1)) [] s
          end
      end
  end.

(** [kmalloc_ok]: whether [kmalloc] gives memory for the cache entry. *)
Definition pid_remove_pid_by_process (fuel : nat) (kmalloc_ok : bool) (tsk : ptr) (s : pids) :
    option (bool * pids) :=
  match tsk with
  | None => Some (false, s)
  | Some tsk =>
      let pid := pid_field s tsk in
      '(found, s) ← lift (pid_find (pid_field s) fuel pid) s;
      match found with
      | None => Some (false, s)
      | Some pids =>
          '(last, s) ← lift (rb_last fuel pid_root) s;
          let erase s := '(_, s) ← lift (rb_erase fuel pids pid_root) s; Some (true, s) in
          if decide (Some pids ≠ last) then
            if kmalloc_ok then erase (mk_pids (pid_heap s) (pid_field s) (pid :: pid_root_cache s))
            else Some (false, s)
          else erase s
      end
  end.

(** The loop of [process_pid_init] over the possible processors. *)
Fixpoint process_pid_init (fuel : nat) (idle_threads : Z → loc) (cpus : list Z) (s : pids) : option pids :=
  match cpus with
  | [] => Some s
  | cpu :: cpus =>
      let field := <[idle_threads cpu := - cpu]> (pid_field s) in
      '(ok, s) ← lift (pid_insert_process_by_pid field fuel (Some (idle_threads cpu)))
                   (mk_pids (pid_heap s) field (pid_root_cache s));
      if ok : bool then process_pid_init fuel idle_threads cpus s else None
  end.

End pid.
