(* ===== verification/PidProps.v ===== *)
(** * Correctness of the process identifiers

    The tree is sorted by pid without duplicates, the freed pids are not in use,
    and under that invariant no [BUG_ON] of [kernel/core/pid.c] fires. *)
From stdpp Require Import functions gmap sorting.
From S2P Require Import Prelude Rbtree RbtreeLogic RbtreeInsert RbtreeWalk RbtreeSpec RbtreeRun RbtreeKeyed Pid.

Section pid.
Variable pid_root : loc.

(** The tree in the heap, sorted by strictly increasing pid. *)
Definition pid_tree (h : heap) (pid_of : loc → Z) (t : tree) : Prop :=
  rep h pid_root t ∧ valid t ∧ StronglySorted (λ a b, pid_of a < pid_of b) (inorder t).

Definition pid_inv (s : pids) (t : tree) : Prop :=
  pid_tree (pid_heap s) (pid_field s) t ∧ NoDup (pid_root_cache s) ∧
  ∀ x, x ∈ inorder t → pid_field s x ∉ pid_root_cache s.

(** ** Searching *)

Lemma find_loop_run h par pid_of fuel k t :
  nodes_at h par t → StronglySorted (λ a b, pid_of a < pid_of b) (inorder t) → (height t ≤ fuel)%nat →
  ∃ r, pid_find_loop pid_of fuel k (tptr t) h = Some (r, h) ∧
    match r with
    | Some x => x ∈ inorder t ∧ pid_of x = k
    | None => ∀ x, x ∈ inorder t → pid_of x ≠ k
    end.
Proof.
  revert par t. induction fuel as [|fuel IH]; intros par t Hat Hs Hf;
    (destruct t as [|c l x r]; [exists None; split; [done|set_solver]|]); [simpl in Hf; lia|].
  pose proof (load_at _ _ _ _ _ _ Hat) as Hload. destruct Hat as (_ & Hl & Hr). simpl in Hf, Hs.
  pose proof (sorted_app _ _ _ _ Hs) as (H1 & H2 & _).
  apply StronglySorted_app in Hs as (_ & Hsl & Hsr). apply StronglySorted_inv in Hsr as [Hsr _].
  cbn [pid_find_loop tptr inorder]. rewrite Z.gtb_ltb. destruct (Z.ltb_spec k (pid_of x)) as [Hlt|Hge].
  - rewrite (bind_run _ _ _ _ _ Hload). cbn [rb_left].
    destruct (IH _ l Hl Hsl ltac:(lia)) as ([y|] & Hrun & Hy); eexists; (split; [exact Hrun|]); [set_solver|].
    intros y [Hin|[->|Hin]%elem_of_cons]%elem_of_app; [auto|lia|]. specialize (H2 _ Hin). simpl in H2. lia.
  - destruct (Z.ltb_spec (pid_of x) k) as [Hgt|Hle]; [|exists (Some x); split; [done|]; split; [set_solver|lia]].
    rewrite (bind_run _ _ _ _ _ Hload). cbn [rb_right].
    destruct (IH _ r Hr Hsr ltac:(lia)) as ([y|] & Hrun & Hy); eexists; (split; [exact Hrun|]); [set_solver|].
    intros y [Hin|[->|Hin]%elem_of_cons]%elem_of_app; [|lia|auto]. specialize (H1 _ Hin). simpl in H1. lia.
Qed.

Lemma find_run h pid_of fuel k t :
  pid_tree h pid_of t → (rb_depth (length (inorder t)) ≤ fuel)%nat →
  ∃ r, pid_find pid_root pid_of fuel k h = Some (r, h) ∧
    match r with
    | Some x => x ∈ inorder t ∧ pid_of x = k
    | None => ∀ x, x ∈ inorder t → pid_of x ≠ k
    end.
Proof.
  intros (Hrep & Hv & Hs) Hf. unfold pid_find. rewrite (bind_run _ _ _ _ _ (load_root _ _ _ Hrep)).
  apply (find_loop_run h None); [apply Hrep|done|by apply height_fuel].
Qed.

(** Pids identify tasks. *)
Lemma pid_tree_inj h pid_of t x y :
  pid_tree h pid_of t → x ∈ inorder t → y ∈ inorder t → pid_of x = pid_of y → x = y.
Proof.
  intros (_ & _ & Hs) Hx Hy Heq. apply list_elem_of_split in Hx as (l1 & l2 & Hl). rewrite Hl in Hs, Hy.
  apply sorted_app in Hs as (H1 & H2 & _). apply elem_of_app in Hy as [Hy|[->|Hy]%elem_of_cons]; [|done|].
  - specialize (H1 _ Hy). simpl in H1. lia.
  - specialize (H2 _ Hy). simpl in H2. lia.
Qed.

Lemma find_member h pid_of fuel t x :
  pid_tree h pid_of t → (rb_depth (length (inorder t)) ≤ fuel)%nat → x ∈ inorder t →
  pid_find pid_root pid_of fuel (pid_of x) h = Some (Some x, h).
Proof.
  intros Ht Hf Hx. destruct (find_run h pid_of fuel (pid_of x) t Ht Hf) as ([y|] & Hrun & Hy).
  - destruct Hy as [Hy Heq]. by assert (x = y) as <- by by eapply pid_tree_inj.
  - by destruct (Hy _ Hx).
Qed.

(** ** Insertion *)

Lemma pid_go_left pid_of k y : pid_go pid_of k y = Some DL → k < pid_of y.
Proof. unfold pid_go. rewrite Z.gtb_ltb. case_tests; [done|done|done]. Qed.
Lemma pid_go_right pid_of k y : pid_go pid_of k y = Some DR → pid_of y < k.
Proof. unfold pid_go. rewrite Z.gtb_ltb. case_tests; [done|done|done]. Qed.
Lemma pid_go_stop pid_of k y : pid_go pid_of k y = None → pid_of y = k.
Proof. unfold pid_go. rewrite Z.gtb_ltb. case_tests; [done|done|lia]. Qed.

Lemma insert_run h pid_of fuel t x n :
  pid_tree h pid_of t → h !! x = Some (CNode n) → x ∉ inorder t → (rb_depth (length (inorder t)) < fuel)%nat →
  (pid_insert pid_root pid_of fuel x h = Some (false, h) ∧ ∃ y, y ∈ inorder t ∧ pid_of y = pid_of x) ∨
  (∃ h' t', pid_insert pid_root pid_of fuel x h = Some (true, h') ∧ pid_tree h' pid_of t' ∧
     inorder t' ≡ₚ x :: inorder t ∧ (∀ y, y ∈ inorder t → pid_of y ≠ pid_of x) ∧
     frame_of h h' (x :: pid_root :: inorder t)).
Proof.
  intros (Hrep & Hv & Hs) Hx Hfx Hf.
  destruct (insert_at_run (pid_go pid_of (pid_of x)) (λ y, pid_of y < pid_of x) (λ y, pid_of x < pid_of y)
    (λ a b, pid_of a < pid_of b) ltac:(intros ?; apply pid_go_left) ltac:(intros ?; apply pid_go_right)
    ltac:(simpl; intros; lia) ltac:(simpl; intros; lia) h pid_root t x n fuel Hrep Hv Hs Hx Hfx Hf)
    as [(Hrun & y & Hy & Hgo)|(h' & t' & l1 & l2 & Hrun & Hr' & Hv' & Hl & Hl' & H1 & H2 & Hfr)].
  - left. split; [done|]. exists y. split; [done|]. by apply pid_go_stop in Hgo.
  - right. exists h', t'. split_and!; [done| | | |done].
    + split_and!; [done..|]. rewrite Hl'. rewrite Hl in Hs. by apply sorted_insert.
    + rewrite Hl', Hl. by rewrite <-Permutation_middle.
    + rewrite Hl. rewrite Forall_forall in H1, H2.
      intros y [Hy|Hy]%elem_of_app; [specialize (H1 _ Hy)|specialize (H2 _ Hy)]; lia.
Qed.

(** Changing the [pid] field of a task that is not in the tree. *)
Lemma pid_tree_field h pid_of t x k : x ∉ inorder t → pid_tree h pid_of t → pid_tree h (<[x:=k]> pid_of) t.
Proof.
  intros Hx (Hrep & Hv & Hs). split_and!; [done..|]. clear Hrep Hv. revert Hx Hs.
  induction (inorder t) as [|y l IH]; intros Hx Hs; [constructor|]. rewrite not_elem_of_cons in Hx. destruct Hx.
  apply StronglySorted_inv in Hs as [Hs Hall]. constructor; [by apply IH|].
  rewrite Forall_forall in *. intros z Hz. rewrite !fn_lookup_insert_ne; [by apply Hall|set_solver|done].
Qed.

Lemma assign_run fuel tsk k cache s t n :
  pid_tree (pid_heap s) (pid_field s) t → NoDup (k :: cache) →
  (∀ x, x ∈ inorder t → pid_field s x ∉ k :: cache) →
  pid_heap s !! tsk = Some (CNode n) → tsk ∉ inorder t → (rb_depth (length (inorder t)) < fuel)%nat →
  ∃ s' t', pid_assign pid_root fuel tsk k cache s = Some (0, s') ∧ pid_inv s' t' ∧
    pid_field s' = <[tsk := k]> (pid_field s) ∧ pid_root_cache s' = cache ∧
    inorder t' ≡ₚ tsk :: inorder t ∧ frame_of (pid_heap s) (pid_heap s') (tsk :: pid_root :: inorder t).
Proof.
  intros Ht Hnd Hfresh Hn Htsk Hf. apply NoDup_cons in Hnd as [Hk Hnd].
  pose proof (pid_tree_field _ _ _ tsk k Htsk Ht) as Ht'.
  destruct (insert_run _ _ fuel t tsk n Ht' Hn Htsk Hf) as [(_ & y & Hy & Heq)|(h' & t' & Hrun & Hinv & Hp & _ & Hfr)].
  - exfalso. rewrite fn_lookup_insert, fn_lookup_insert_ne in Heq by set_solver.
    apply (Hfresh _ Hy). rewrite Heq. set_solver.
  - exists (mk_pids h' (<[tsk := k]> (pid_field s)) cache), t'. split; [|split; [|done]].
    + unfold pid_assign, lift, pid_insert_process_by_pid. simpl. rewrite Hrun. done.
    + split; [done|]. split; [done|]. intros x Hx. rewrite Hp in Hx. simpl. apply elem_of_cons in Hx as [->|Hx].
      * by rewrite fn_lookup_insert.
      * rewrite fn_lookup_insert_ne by set_solver. specialize (Hfresh _ Hx). set_solver.
Qed.


Lemma erase_run h pid_of fuel t x :
  pid_tree h pid_of t → x ∈ inorder t → (rb_depth (length (inorder t)) ≤ fuel)%nat →
  ∃ h' t', rb_erase fuel x pid_root h = Some (tt, h') ∧ pid_tree h' pid_of t' ∧
    inorder t' = filter (.≠ x) (inorder t) ∧ frame_of h h' (pid_root :: inorder t) ∧
    ∃ n, h' !! x = Some (CNode n).
Proof.
  intros (Hrep & Hv & Hs) Hx Hf.
  destruct (rb_erase_run h pid_root t x None fuel) as (h' & t' & Hrun & Hr' & Hv' & _ & Hin & Hfr & Hn); [done..|].
  rewrite app_nil_r in Hfr. exists h', t'. split; [done|]. split; [|done]. split_and!; [done..|].
  rewrite Hin. by apply sorted_filter.
Qed.

(** ** The theorems *)

(** [pid_find_process_by_pid] returns the task with that pid when there is
    one, null when there is none, and changes nothing. *)
Theorem pid_find_correct h pid_of t fuel pid :
  pid_tree h pid_of t → (rb_depth (length (inorder t)) ≤ fuel)%nat →
  ∃ r, pid_find_process_by_pid pid_root pid_of fuel pid h = Some (r, h) ∧
    ∀ tsk, r = Some tsk ↔ tsk ∈ inorder t ∧ pid_of tsk = pid.
Proof.
  intros Ht Hf. destruct (find_run h pid_of fuel pid t Ht Hf) as (r & Hrun & Hr). exists r. split.
  - unfold pid_find_process_by_pid. rewrite (bind_run _ _ _ _ _ Hrun). by destruct r.
  - intros tsk. destruct r as [x|]; [|naive_solver]. destruct Hr as [Hx Hk]. split; [by intros [= ->]|].
    intros [Htsk Hpid]. f_equal. eapply pid_tree_inj; [done..|congruence].
Qed.


(** [pid_remove_pid_by_process] on a task of the tree takes exactly that
    task out and returns true; its pid goes to the cache unless it was the
    greatest one.  When the entry of the cache cannot be allocated it returns
    false and changes nothing.  The invariant holds again. *)
Theorem pid_remove_correct s t fuel tsk kmalloc_ok :
  pid_inv s t → tsk ∈ inorder t → (rb_depth (length (inorder t)) ≤ fuel)%nat →
  let cached := bool_decide (last (inorder t) ≠ Some tsk) in
  if cached && negb kmalloc_ok
  then pid_remove_pid_by_process pid_root fuel kmalloc_ok (Some tsk) s = Some (false, s)
  else ∃ s' t', pid_remove_pid_by_process pid_root fuel kmalloc_ok (Some tsk) s = Some (true, s') ∧
         pid_inv s' t' ∧ inorder t' = filter (.≠ tsk) (inorder t) ∧ pid_field s' = pid_field s ∧
         pid_root_cache s' = (if cached then [pid_field s tsk] else []) ++ pid_root_cache s.
Proof.
  intros (Ht & Hnd & Hfresh) Htsk Hf cached. pose proof Ht as (Hrep & Hv & _).
  destruct (rb_first_last_run _ _ _ fuel Hrep Hv Hf) as [_ Hl].
  destruct (erase_run _ _ fuel t tsk Ht Htsk Hf) as (h' & t' & Hrun & Ht' & Hin & _ & _).
  assert (Hsub : ∀ x, x ∈ inorder t' → x ∈ inorder t ∧ x ≠ tsk).
  { intros x. rewrite Hin. rewrite list_elem_of_filter. tauto. }
  unfold pid_remove_pid_by_process, lift. rewrite (find_member _ _ _ _ _ Ht Hf Htsk). simpl. rewrite Hl. simpl.
  assert (Hdec : bool_decide (Some tsk ≠ last (inorder t)) = cached) by (apply bool_decide_ext; split; auto).
  destruct (decide (Some tsk ≠ last (inorder t))) as [Hne|Heq].
  - rewrite bool_decide_true in Hdec by done. rewrite <-Hdec. destruct kmalloc_ok; simpl; [|by destruct s].
    rewrite Hrun. exists (mk_pids h' (pid_field s) (pid_field s tsk :: pid_root_cache s)), t'. simpl.
    split; [done|]. split; [|done]. split; [done|]. split; [by constructor; [apply Hfresh|]|].
    intros x Hx. simpl. apply Hsub in Hx as [Hx Hxt]. rewrite not_elem_of_cons. split; [|by apply Hfresh].
    intros Hpid. apply Hxt. exact (pid_tree_inj _ _ _ _ _ Ht Hx Htsk Hpid).
  - rewrite bool_decide_false in Hdec by done. rewrite <-Hdec. simpl. rewrite Hrun.
    exists (mk_pids h' (pid_field s) (pid_root_cache s)), t'. simpl.
    split; [done|]. split; [|done]. split; [done|]. split; [done|].
    intros x Hx. apply Hfresh. by apply Hsub.
Qed.

(** [pid_next] from a used pid. *)
Lemma next_run h pid_of t fuel l1 x l2 :
  pid_tree h pid_of t → (rb_depth (length (inorder t)) ≤ fuel)%nat → inorder t = l1 ++ x :: l2 →
  pid_next pid_root pid_of fuel (pid_of x) h = Some (match l2 with y :: _ => pid_of y | [] => INT_MAX end, h).
Proof.
  intros Ht Hf Hl. pose proof Ht as (Hrep & Hv & _). unfold pid_next.
  rewrite (bind_run _ _ _ _ _ (find_member _ _ _ _ x Ht Hf ltac:(rewrite Hl; set_solver))).
  destruct (rb_next_prev_run _ _ _ fuel l1 x l2 Hrep Hv Hf Hl) as [Hn _].
  rewrite (bind_run _ _ _ _ _ Hn). by destruct l2.
Qed.

(** [pid_for_each_pid] visits every used pid exactly once, in increasing
    order, and ends: [pid_first] and [pid_next] return [INT_MAX] after the last
    (no task may have that pid). *)
Theorem pid_for_each_correct h pid_of t fuel n :
  pid_tree h pid_of t → (rb_depth (length (inorder t)) ≤ fuel)%nat → (length (inorder t) ≤ n)%nat →
  (∀ x, x ∈ inorder t → pid_of x ≠ INT_MAX) →
  pid_for_each_pid pid_root pid_of fuel n h = Some (pid_of <$> inorder t, h).
Proof.
  intros Ht Hf Hn Hmax. pose proof Ht as (Hrep & Hv & _). unfold pid_for_each_pid, pid_first.
  rewrite !bind_assoc. destruct (rb_first_last_run _ _ _ fuel Hrep Hv Hf) as [Hfirst _].
  rewrite (bind_run _ _ _ _ _ Hfirst).
  assert (Hloop : ∀ l1 l2 m, inorder t = l1 ++ l2 → (length l2 ≤ m)%nat →
    pid_for_each_loop pid_root pid_of fuel m (match l2 with y :: _ => pid_of y | [] => INT_MAX end) h =
    Some (pid_of <$> l2, h)).
  { intros l1 l2. revert l1. induction l2 as [|x l2 IH]; intros l1 m Hl Hm; [by destruct m|].
    destruct m as [|m]; [simpl in Hm; lia|]. cbn [pid_for_each_loop].
    rewrite (proj2 (Z.eqb_neq _ _)) by (apply Hmax; rewrite Hl; set_solver).
    rewrite (bind_run _ _ _ _ _ (next_run _ _ _ _ _ _ _ Ht Hf Hl)).
    erewrite bind_run; [reflexivity|]. apply (IH (l1 ++ [x])); [by rewrite <-app_assoc|simpl in Hm; lia]. }
  specialize (Hloop [] (inorder t) n eq_refl Hn). by destruct (inorder t).
Qed.

(** The loop after the processors [dn]. *)
Lemma init_loop fuel idle_threads cpus dn s t :
  pid_inv s t → pid_root_cache s = [] → inorder t ≡ₚ idle_threads <$> dn →
  (∀ i, i ∈ dn → pid_field s (idle_threads i) = - i) → NoDup (dn ++ cpus) →
  (∀ i j, i ∈ dn ++ cpus → j ∈ dn ++ cpus → idle_threads i = idle_threads j → i = j) →
  (∀ i, i ∈ cpus → ∃ n, pid_heap s !! idle_threads i = Some (CNode n)) →
  (rb_depth (length (dn ++ cpus)) < fuel)%nat →
  ∃ s' t', process_pid_init pid_root fuel idle_threads cpus s = Some s' ∧ pid_inv s' t' ∧
    inorder t' ≡ₚ idle_threads <$> dn ++ cpus ∧ pid_root_cache s' = [] ∧
    ∀ i, i ∈ dn ++ cpus → pid_field s' (idle_threads i) = - i.
Proof.
  revert dn s t. induction cpus as [|cpu cpus IH]; intros dn s t Hinv Hc Hp Hpid Hnd Hinj Hn Hf.
  { exists s, t. rewrite app_nil_r. done. }
  destruct (Hn cpu) as [n Hcpu]; [set_solver|]. destruct Hinv as (Ht & _ & _).
  assert (Hdn : cpu ∉ dn) by (apply NoDup_app in Hnd as (_ & Hd & _); intros Hin; apply (Hd _ Hin); set_solver).
  assert (Hneq : ∀ i, i ∈ dn ++ cpus → idle_threads i ≠ idle_threads cpu).
  { intros i Hi Heq. assert (i = cpu) as ->; [apply Hinj; set_solver|].
    apply NoDup_app in Hnd as (_ & _ & Hnd). apply NoDup_cons in Hnd. set_solver. }
  assert (Hfresh : idle_threads cpu ∉ inorder t).
  { rewrite Hp. intros (i & Heq & Hi)%list_elem_of_fmap. apply (Hneq i); [set_solver|done]. }
  assert (Hdisj : ∀ x, x ∈ inorder t → pid_field s x ∉ [- cpu]).
  { intros x. rewrite Hp. intros (i & -> & Hi)%list_elem_of_fmap. rewrite list_elem_of_singleton, Hpid by done.
    intros ?. assert (i = cpu) as -> by lia. done. }
  assert (Hlen : length (inorder t) = length dn) by (rewrite Hp; apply length_fmap).
  destruct (assign_run fuel (idle_threads cpu) (- cpu) [] s t n) as (s' & t' & Hrun & Hinv' & Hfield & Hc' & Hp' & Hfr);
    [done|apply NoDup_singleton|done|done|done| |].
  { rewrite Hlen. eapply Nat.le_lt_trans; [|exact Hf]. apply rb_depth_mono. rewrite length_app. lia. }
  destruct (IH (dn ++ [cpu]) s' t') as (s'' & t'' & Hrun' & Hrest); rewrite <-?app_assoc; try done.
  - rewrite Hp', Hp. rewrite fmap_app. simpl. by rewrite <-Permutation_cons_append.
  - intros i Hi. rewrite Hfield. rewrite elem_of_app, list_elem_of_singleton in Hi.
    destruct Hi as [Hi| ->]; [|by rewrite fn_lookup_insert].
    rewrite fn_lookup_insert_ne; [by apply Hpid|]. intros Heq. apply (Hneq i); [set_solver|done].
  - intros i Hi. destruct (Hn i) as [m Hm]; [set_solver|]. exists m. apply Hfr; [|done].
    rewrite !not_elem_of_cons. split_and!.
    + apply Hneq. set_solver.
    + destruct Ht as ((Hr & _) & _). intros Heq. congruence.
    + rewrite Hp. intros (j & Heq & Hj)%list_elem_of_fmap.
      assert (i = j) as ->; [apply Hinj; set_solver|]. apply NoDup_app in Hnd as (_ & Hd & _).
      apply (Hd j); set_solver.
  - exists s'', t''. rewrite <-app_assoc in Hrest. split; [|exact Hrest]. simpl. rewrite Hc.
    unfold pid_assign in Hrun. destruct (lift _ _) as [[[] s1]|] eqn:Hl; simpl in Hrun |- *; [|done|done].
    injection Hrun as ->. done.
Qed.

(** [process_pid_init] enters the idle thread of every possible processor
    under the pid [- cpu] without reaching its [BUG]. *)
Theorem pid_init_correct h field fuel idle_threads cpus :
  h !! pid_root = Some (CPtr None) → NoDup cpus →
  (∀ i j, i ∈ cpus → j ∈ cpus → idle_threads i = idle_threads j → i = j) →
  (∀ i, i ∈ cpus → ∃ n, h !! idle_threads i = Some (CNode n)) →
  (rb_depth (length cpus) < fuel)%nat →
  ∃ s t, process_pid_init pid_root fuel idle_threads cpus (mk_pids h field []) = Some s ∧ pid_inv s t ∧
    inorder t ≡ₚ idle_threads <$> cpus ∧ pid_root_cache s = [] ∧
    ∀ i, i ∈ cpus → pid_field s (idle_threads i) = - i.
Proof.
  intros Hroot Hnd Hinj Hn Hf.
  apply (init_loop fuel idle_threads cpus [] (mk_pids h field []) E); simpl; try done; [|set_solver].
  split; [|split; [constructor|set_solver]]. split; [split_and!; [done|done|constructor]|].
  split; [split; [done|by exists 0%nat]|constructor].
Qed.

End pid.

(** ** Examples *)

Module PidExample.

(** Three tasks with the pids 0, 1 and 5, the freed pid 3, a new task (40). *)
Definition h0 : heap :=
  {[ 0%nat := CPtr (Some 20%nat);
     20%nat := CNode (mk_rb None Black (Some 30%nat) (Some 10%nat));
     10%nat := CNode (mk_rb (Some 20%nat) Red None None);
     30%nat := CNode (mk_rb (Some 20%nat) Red None None);
     40%nat := CNode (mk_rb None Red None None) ]}.
Definition t0 : tree := T Black (T Red E 10%nat E) 20%nat (T Red E 30%nat E).
Definition pid_of0 (x : loc) : Z :=
  if decide (x = 20)%nat then 1 else if decide (x = 30)%nat then 5 else 0.
Definition s0 : pids := mk_pids h0 pid_of0 [3].

Lemma tree0 : pid_tree 0%nat h0 pid_of0 t0.
Proof.
  split; [split_and!; [done|done|apply (bool_decide_unpack _); vm_compute; exact I]|].
  split; [split; [done|by exists 1%nat]|]. repeat constructor.
Qed.
Lemma inv0 : pid_inv 0%nat s0 t0.
Proof.
  split; [exact tree0|]. split; [apply NoDup_singleton|].
  apply Forall_forall, (bool_decide_unpack _). vm_compute. exact I.
Qed.

Ltac concrete :=
  first [ done | exact tree0 | exact inv0 | (apply (bool_decide_unpack _); vm_compute; exact I) | vm_compute; lia
        | (apply Forall_forall, (bool_decide_unpack _); vm_compute; exact I) ].

Lemma pid_find_correct_witness :
  pid_find_process_by_pid 0%nat pid_of0 4 5 h0 = Some (Some 30%nat, h0).
Proof.
  destruct (pid_find_correct 0%nat h0 pid_of0 t0 4 5) as (r & -> & Hr); [concrete..|].
  do 2 f_equal. apply Hr. split; concrete.
Defined.


Lemma pid_remove_correct_witness :
  ∃ s' t', pid_remove_pid_by_process 0%nat 4 true (Some 20%nat) s0 = Some (true, s') ∧ pid_inv 0%nat s' t' ∧
    inorder t' = [10%nat; 30%nat] ∧ pid_root_cache s' = [1; 3].
Proof.
  destruct (pid_remove_correct 0%nat s0 t0 4 20%nat true) as (s' & t' & Hrun & Hinv & Hin & _ & Hc); [concrete..|].
  exists s', t'. split; [exact Hrun|]. split; [exact Hinv|]. split; [exact Hin|exact Hc].
Defined.

Lemma pid_for_each_correct_witness : pid_for_each_pid 0%nat pid_of0 4 3 h0 = Some ([0; 1; 5], h0).
Proof. apply (pid_for_each_correct 0%nat h0 pid_of0 t0 4 3); concrete. Defined.

Lemma pid_init_correct_witness :
  ∃ s t, process_pid_init 0%nat 6 (λ cpu, if cpu =? 0 then 10%nat else 30%nat) [0; 1]
           (mk_pids (<[0%nat := CPtr None]> h0) (λ _, 0) []) = Some s ∧ pid_inv 0%nat s t ∧
    pid_field s 10%nat = 0 ∧ pid_field s 30%nat = -1.
Proof.
  destruct (pid_init_correct 0%nat (<[0%nat := CPtr None]> h0) (λ _, 0) 6
    (λ cpu, if cpu =? 0 then 10%nat else 30%nat) [0; 1]) as (s & t & Hrun & Hinv & _ & _ & Hfield).
  - done.
  - concrete.
  - intros i j. rewrite !elem_of_cons, !elem_of_nil. naive_solver.
  - intros i. rewrite !elem_of_cons, !elem_of_nil. intros [->|[->|[]]]; by eexists.
  - concrete.
  - exists s, t. split; [exact Hrun|]. split; [exact Hinv|].
    split; [apply (Hfield 0)|apply (Hfield 1)]; concrete.
Defined.

End PidExample.
