(* ===== verification/Timerqueue.v ===== *)
(** * Timer queues ([kernel/lib/timerqueue.c])

    A red-black tree of timers ordered by expiry, with a pointer to the earliest.
    A timer is named by the address of its [rb_node]; [expires] is the field
    beside it. *)
From stdpp Require Import gmap sorting.
From S2P Require Import Prelude Rbtree RbtreeLogic RbtreeInsert RbtreeWalk RbtreeSpec RbtreeRun RbtreeKeyed.

(** The addresses of [head->head.rb_node] and [head->next]. *)
Record timerqueue_head := mk_tq { tq_root : loc; tq_next : loc }.

Definition timerqueue_init_head (head : timerqueue_head) : cmd unit :=
  store_ptr (tq_root head) None;;; store_ptr (tq_next head) None.

(** [RB_CLEAR_NODE]: the node is its own parent (and red: the word is its
    address). *)
Definition RB_CLEAR_NODE (node : loc) : cmd unit := modify node (upd_pc (Some node) Red).

Definition timerqueue_getnext (head : timerqueue_head) : cmd ptr := load_ptr (tq_next head).

(** The comparison of the descent: equal expiries go right. *)
Definition timer_go (expires : loc → Z) (e : Z) (ptr : loc) : option dir :=
  if e <? expires ptr then Some DL else Some DR.

(** The [WARN_ON_ONCE]s only print. *)
Definition timerqueue_add (expires : loc → Z) (fuel : nat) (head : timerqueue_head) (node : loc) : cmd bool :=
  _ <- rb_insert_at fuel (timer_go expires (expires node)) node (tq_root head);;
  next <- load_ptr (tq_next head);;
  match next with
  | None => store_ptr (tq_next head) (Some node);;; ret true
  | Some next =>
      if expires node <? expires next then store_ptr (tq_next head) (Some node);;; ret true
      else ret false
  end.

Definition timerqueue_del (fuel : nat) (head : timerqueue_head) (node : loc) : cmd bool :=
  next <- load_ptr (tq_next head);;
  (if decide (next = Some node) then rbn <- rb_next fuel node;; store_ptr (tq_next head) rbn else ret tt);;;
  rb_erase fuel node (tq_root head);;;
  RB_CLEAR_NODE node;;;
  next <- load_ptr (tq_next head);;
  ret (bool_decide (next ≠ None)).

Definition timerqueue_iterate_next (fuel : nat) (node : ptr) : cmd ptr :=
  match node with
  | None => ret None
  | Some node =>
      next <- rb_next fuel node;;
      match next with
      | None => ret None
      | Some next => ret (Some next)
      end
  end.

(** ** Correctness of the timer queues

    The queue is sorted by expiry, equal expiries in the order of their
    addition, and [head->next] is its first timer. *)

Definition tq_inv (expires : loc → Z) (hd : timerqueue_head) (h : heap) (t : tree) : Prop :=
  rep h (tq_root hd) t ∧ valid t ∧ StronglySorted (λ a b, expires a ≤ expires b) (inorder t) ∧
  h !! tq_next hd = Some (CPtr (head (inorder t))) ∧ tq_next hd ≠ tq_root hd.

(** Writing to a cell outside the tree. *)
Lemma rep_insert h root t a c : a ∉ root :: inorder t → rep h root t → rep (<[a:=c]> h) root t.
Proof.
  rewrite not_elem_of_cons. intros [Hr Ha] (Hroot & Hat & Hnd). split_and!; [| |done].
  - by rewrite lookup_insert_ne.
  - eapply nodes_at_frame; [|exact Hat]. intros b Hb. apply lookup_insert_ne. by intros ->.
Qed.

Lemma load_ptr_run h a p : h !! a = Some (CPtr p) → load_ptr a h = Some (p, h).
Proof. intros Ha. unfold load_ptr. by rewrite Ha. Qed.
Lemma store_ptr_run h a p q : h !! a = Some (CPtr p) → store_ptr a q h = Some (tt, <[a := CPtr q]> h).
Proof. intros Ha. unfold store_ptr. by rewrite Ha. Qed.
Lemma modify_run h a n f : h !! a = Some (CNode n) → modify a f h = Some (tt, <[a := CNode (f n)]> h).
Proof. intros Ha. unfold modify, bind, load, store. rewrite Ha. simpl. by rewrite Ha. Qed.

(** A pointer cell is not a node of the tree. *)
Lemma rep_ptr_fresh h root t a p : rep h root t → h !! a = Some (CPtr p) → a ∉ inorder t.
Proof. intros (_ & Hat & _) Ha Hin. destruct (nodes_at_in _ _ _ _ Hat Hin). congruence. Qed.

Lemma timer_go_left expires e y : timer_go expires e y = Some DL → e < expires y.
Proof. unfold timer_go. by case_tests. Qed.
Lemma timer_go_right expires e y : timer_go expires e y = Some DR → expires y ≤ e.
Proof. unfold timer_go. by case_tests. Qed.
Lemma timer_go_total expires e y : timer_go expires e y ≠ None.
Proof. unfold timer_go. by case_tests. Qed.

(** [timerqueue_add] of a timer that is in no queue puts it after the timers
    that expire no later and before those that expire later, sets [head->next]
    to the earliest timer and returns whether that is the new one; no other
    cell changes. *)
Theorem timerqueue_add_correct expires hd h t x n fuel :
  tq_inv expires hd h t → h !! x = Some (CNode n) → x ∉ inorder t →
  (rb_depth (length (inorder t)) < fuel)%nat →
  ∃ h' t' l1 l2, timerqueue_add expires fuel hd x h = Some (bool_decide (l1 = []), h') ∧
    tq_inv expires hd h' t' ∧ inorder t = l1 ++ l2 ∧ inorder t' = l1 ++ x :: l2 ∧
    Forall (λ y, expires y ≤ expires x) l1 ∧ Forall (λ y, expires x < expires y) l2 ∧
    frame_of h h' (x :: tq_next hd :: tq_root hd :: inorder t).
Proof.
  intros (Hrep & Hv & Hs & Hnext & Hne) Hx Hfx Hf.
  destruct (insert_at_run (timer_go expires (expires x)) (λ y, expires y ≤ expires x) (λ y, expires x < expires y)
    (λ a b, expires a ≤ expires b)
    (timer_go_left _ _) (timer_go_right _ _)
    ltac:(simpl; intros; lia) ltac:(simpl; intros; lia) h (tq_root hd) t x n fuel Hrep Hv Hs Hx Hfx Hf)
    as [(_ & y & _ & Hgo)|(h1 & t' & l1 & l2 & Hrun & Hr' & Hv' & Hl & Hl' & H1 & H2 & Hfr)];
    [by apply timer_go_total in Hgo|].
  pose proof (rep_ptr_fresh _ _ _ _ _ Hrep Hnext) as Hfn.
  assert (Hxn : tq_next hd ≠ x) by (intros Heq; congruence).
  assert (Hn1 : h1 !! tq_next hd = Some (CPtr (head (l1 ++ l2)))).
  { rewrite <-Hl. apply Hfr; [|done]. by rewrite !not_elem_of_cons. }
  assert (Hs' : StronglySorted (λ a b, expires a ≤ expires b) (inorder t')).
  { rewrite Hl'. rewrite Hl in Hs. apply sorted_insert; [done|done|].
    eapply Forall_impl; [exact H2|]. simpl. intros; lia. }
  unfold timerqueue_add. rewrite (bind_run _ _ _ _ _ Hrun), (bind_run _ _ _ _ _ (load_ptr_run _ _ _ Hn1)).
  destruct l1 as [|y l1]; simpl.
  - (* the new timer is the earliest *)
    assert (Hstore : (match head l2 with
      | None => store_ptr (tq_next hd) (Some x);;; ret true
      | Some next => if expires x <? expires next then store_ptr (tq_next hd) (Some x);;; ret true else ret false
      end) h1 = Some (true, <[tq_next hd := CPtr (Some x)]> h1)).
    { destruct l2 as [|z l2]; simpl; [by rewrite (bind_run _ _ _ _ _ (store_ptr_run _ _ _ _ Hn1))|].
      apply Forall_cons in H2 as [Hz _]. rewrite (proj2 (Z.ltb_lt _ _) Hz).
      by rewrite (bind_run _ _ _ _ _ (store_ptr_run _ _ _ _ Hn1)). }
    exists (<[tq_next hd := CPtr (Some x)]> h1), t', [], l2. split; [exact Hstore|]. split; [|split_and!; try done].
    + split; [|split; [done|split; [done|]]].
      * apply rep_insert; [|done]. rewrite Hl'. simpl. rewrite !not_elem_of_cons. split_and!; [done|done|].
        rewrite Hl in Hfn. done.
      * rewrite Hl'. simpl. by rewrite lookup_insert_eq.
    + intros a c Ha Hc. rewrite !not_elem_of_cons in Ha. destruct Ha as (? & ? & ? & ?).
      rewrite lookup_insert_ne by done. apply Hfr; [|done]. by rewrite !not_elem_of_cons.
  - apply Forall_cons in H1 as [Hy H1]. rewrite (proj2 (Z.ltb_ge _ _) Hy).
    exists h1, t', (y :: l1), l2. split; [done|]. split; [|split_and!; try done].
    + split; [done|]. split; [done|]. split; [done|]. by rewrite Hl'.
    + by constructor.
    + intros a c Ha Hc. apply Hfr; [|done]. set_solver.
Qed.

(** [timerqueue_del] of a timer of the queue takes exactly it out, sets
    [head->next] to the earliest of the others, marks the timer as being in no
    queue, and returns whether the queue is not empty. *)
Theorem timerqueue_del_correct expires hd h t x fuel :
  tq_inv expires hd h t → x ∈ inorder t → (rb_depth (length (inorder t)) ≤ fuel)%nat →
  ∃ h' t' n, timerqueue_del fuel hd x h = Some (bool_decide (filter (.≠ x) (inorder t) ≠ []), h') ∧
    tq_inv expires hd h' t' ∧ inorder t' = filter (.≠ x) (inorder t) ∧
    h' !! x = Some (CNode n) ∧ rb_parent n = Some x ∧ rb_color n = Red ∧
    frame_of h h' (tq_next hd :: tq_root hd :: inorder t).
Proof.
  intros (Hrep & Hv & Hs & Hnext & Hne) Hx Hf.
  pose proof (rep_ptr_fresh _ _ _ _ _ Hrep Hnext) as Hfn.
  assert (Hhead : ∃ h1, (if decide (head (inorder t) = Some x)
      then rbn <- rb_next fuel x;; store_ptr (tq_next hd) rbn else ret tt) h = Some (tt, h1) ∧
    rep h1 (tq_root hd) t ∧ h1 !! tq_next hd = Some (CPtr (head (filter (.≠ x) (inorder t)))) ∧
    frame_of h h1 [tq_next hd]).
  { destruct (inorder t) as [|y l] eqn:Hl; [set_solver|]. simpl. case_decide as Hc.
    - injection Hc as ->. destruct (rb_next_prev_run _ _ _ fuel [] x l Hrep Hv ltac:(by rewrite Hl) Hl) as [Hn _].
      exists (<[tq_next hd := CPtr (head l)]> h). rewrite (bind_run _ _ _ _ _ Hn).
      split; [by eapply store_ptr_run|]. split; [apply rep_insert; [|done]; rewrite Hl; set_solver|].
      pose proof Hrep as (_ & _ & Hnd). rewrite Hl in Hnd. pose proof (filter_removed [] l x Hnd) as Hfilter; simpl in Hfilter; rewrite Hfilter.
      split; [by rewrite lookup_insert_eq|]. intros a c Ha Hc. rewrite lookup_insert_ne; [done|set_solver].
    - exists h. split; [done|]. split; [done|]. rewrite filter_cons_True by congruence. split; [done|]. by intros a c _. }
  destruct Hhead as (h1 & Hrun1 & Hrep1 & Hnext1 & Hfr1).
  destruct (rb_erase_run h1 (tq_root hd) t x None fuel) as (h2 & t' & Hrun2 & Hrep2 & Hv2 & _ & Hin & Hfr2 & n & Hn);
    [done..|]. rewrite app_nil_r in Hfr2.
  assert (Hnext2 : h2 !! tq_next hd = Some (CPtr (head (filter (.≠ x) (inorder t))))).
  { apply Hfr2; [|done]. by rewrite not_elem_of_cons. }
  assert (Hxn : x ≠ tq_next hd) by (intros ->; congruence).
  assert (Hxr : x ≠ tq_root hd) by (intros ->; destruct Hrep2; congruence).
  exists (<[x := CNode (upd_pc (Some x) Red n)]> h2), t', (upd_pc (Some x) Red n). split; [|split].
  - unfold timerqueue_del. rewrite (bind_run _ _ _ _ _ (load_ptr_run _ _ _ Hnext)), (bind_run _ _ _ _ _ Hrun1).
    rewrite (bind_run _ _ _ _ _ Hrun2). unfold RB_CLEAR_NODE. rewrite (bind_run _ _ _ _ _ (modify_run _ _ _ _ Hn)).
    erewrite bind_run; [|apply load_ptr_run; by rewrite lookup_insert_ne].
    unfold ret. do 2 f_equal. apply bool_decide_ext. by destruct (filter _ _).
  - split; [|split; [done|split; [rewrite Hin; by apply sorted_filter|]]].
    + apply rep_insert; [|done]. rewrite Hin, not_elem_of_cons, list_elem_of_filter. naive_solver.
    + rewrite Hin, lookup_insert_ne by done. done.
  - split_and!; [done|by rewrite lookup_insert_eq|done|done|].
    intros a c Ha Hc. rewrite !not_elem_of_cons in Ha. destruct Ha as (? & ? & ?).
    rewrite lookup_insert_ne by set_solver. apply Hfr2; [by rewrite not_elem_of_cons|]. apply Hfr1; [set_solver|done].
Qed.

(** [timerqueue_getnext] and repeated [timerqueue_iterate_next] enumerate
    the timers in the order of their expiry, and end with null. *)
Theorem timerqueue_iterate_correct expires hd h t fuel :
  tq_inv expires hd h t → (rb_depth (length (inorder t)) ≤ fuel)%nat →
  timerqueue_getnext hd h = Some (head (inorder t), h) ∧
  ∀ l1 x l2, inorder t = l1 ++ x :: l2 → timerqueue_iterate_next fuel (Some x) h = Some (head l2, h).
Proof.
  intros (Hrep & Hv & Hs & Hnext & Hne) Hf. split; [by apply load_ptr_run|]. intros l1 x l2 Hl.
  destruct (rb_next_prev_run _ _ _ fuel l1 x l2 Hrep Hv Hf Hl) as [Hn _].
  unfold timerqueue_iterate_next. rewrite (bind_run _ _ _ _ _ Hn). by destruct l2.
Qed.

Module TimerExample.

Definition h0 : heap :=
  {[ 0%nat := CPtr (Some 20%nat); 1%nat := CPtr (Some 10%nat);
     20%nat := CNode (mk_rb None Black (Some 30%nat) (Some 10%nat));
     10%nat := CNode (mk_rb (Some 20%nat) Red None None);
     30%nat := CNode (mk_rb (Some 20%nat) Red None None);
     40%nat := CNode (mk_rb None Red None None) ]}.
Definition t0 : tree := T Black (T Red E 10%nat E) 20%nat (T Red E 30%nat E).
Definition hd0 : timerqueue_head := mk_tq 0%nat 1%nat.
(** The expiries: the new timer ties with timer 20. *)
Definition expires0 (x : loc) : Z :=
  if decide (x = 10)%nat then 100 else if decide (x = 30)%nat then 300 else 200.

Lemma timer_inv0 : tq_inv expires0 hd0 h0 t0.
Proof.
  split; [split_and!; [done|done|apply (bool_decide_unpack _); vm_compute; exact I]|].
  split; [split; [done|by exists 1%nat]|]. split; [|done]. repeat constructor; vm_compute; congruence.
Qed.

Ltac concrete :=
  first [ done | exact timer_inv0 | (apply (bool_decide_unpack _); vm_compute; exact I) | vm_compute; lia ].

Lemma timerqueue_add_correct_witness :
  ∃ h' t', timerqueue_add expires0 5 hd0 40%nat h0 = Some (false, h') ∧ tq_inv expires0 hd0 h' t' ∧
    length (inorder t') = 4%nat.
Proof.
  destruct (timerqueue_add_correct expires0 hd0 h0 t0 40%nat (mk_rb None Red None None) 5)
    as (h' & t' & l1 & l2 & Hrun & Hinv & Hl & Hl' & H1 & H2 & _); [concrete..|].
  exists h', t'. destruct l1 as [|y l1]; [|split; [exact Hrun|]; split; [exact Hinv|]].
  - exfalso. simpl in Hl. subst l2. apply Forall_cons in H2 as [H2 _]. vm_compute in H2. congruence.
  - rewrite Hl', length_app. simpl. rewrite Nat.add_succ_r, <-length_app.
    change (S (length (y :: l1 ++ l2)) = 4%nat). by rewrite app_comm_cons, <-Hl.
Defined.

Lemma timerqueue_del_correct_witness :
  ∃ h' t', timerqueue_del 4 hd0 10%nat h0 = Some (true, h') ∧ tq_inv expires0 hd0 h' t' ∧
    inorder t' = [20%nat; 30%nat] ∧ h' !! 1%nat = Some (CPtr (Some 20%nat)).
Proof.
  destruct (timerqueue_del_correct expires0 hd0 h0 t0 10%nat 4) as (h' & t' & n & Hrun & Hinv & Hin & _); [concrete..|].
  exists h', t'. split; [exact Hrun|]. split; [exact Hinv|]. split; [exact Hin|].
  destruct Hinv as (_ & _ & _ & Hnext & _). by rewrite Hin in Hnext.
Defined.

Lemma timerqueue_iterate_correct_witness :
  timerqueue_getnext hd0 h0 = Some (Some 10%nat, h0) ∧ timerqueue_iterate_next 4 (Some 20%nat) h0 = Some (Some 30%nat, h0).
Proof.
  destruct (timerqueue_iterate_correct expires0 hd0 h0 t0 4) as [Hfirst Hnext]; [concrete..|].
  split; [exact Hfirst|]. by apply (Hnext [10%nat] 20%nat [30%nat]).
Defined.

End TimerExample.
