(* ===== verification/Cpio.v ===== *)
(** * CPIO archives ([lib/cpio/src/cpio.c])

    The reader of the archive that holds the services and drivers.  Addresses
    are [Z]; memory is a run of bytes from a base address, and a read outside of
    it is [None], as is running out of fuel in a loop that does not end.  [char]
    is unsigned (AArch64). *)
From Stdlib Require Import Ascii.
From S2P Require Import Prelude.

(** ** Memory and strings *)

Record mem := mk_mem { m_base : Z; m_bytes : list Z }.

Definition rd (m : mem) (a : Z) : option Z :=
  if decide (m_base m ≤ a) then m_bytes m !! Z.to_nat (a - m_base m) else None.

(** The bytes of a C string with the given contents. *)
Definition cstr (s : list Z) (i : Z) : option Z := (s ++ [0]) !! Z.to_nat i.

Definition chr (c : Ascii.ascii) : Z := Z.of_nat (Ascii.nat_of_ascii c).
Definition bytes_of (s : string) : list Z := chr <$> String.list_ascii_of_string s.

(** ** [cpio.h] *)

Definition CPIO_HEADER_MAGIC : list Z := bytes_of "070701".
Definition CPIO_FOOTER_MAGIC : list Z := bytes_of "TRAILER!!!".
Definition CPIO_ALIGNMENT : Z := 4.

(** Offsets in [struct cpio_header] and its size. *)
Definition off_c_filesize : Z := 54.
Definition off_c_namesize : Z := 94.
Definition sizeof_cpio_header : Z := 110.
(** [sizeof(CPIO_FOOTER_MAGIC)], with its terminator. *)
Definition sizeof_footer : Z := 11.

Record cpio_header_info := mk_info { filename : Z; filesize : Z; data : Z; next : Z }.
Record cpio_info_t := mk_cpio_info { file_count : Z; max_path_sz : Z }.

(** ** Helpers *)

Definition align_up (n align : Z) : Z := Z.land (u64 (n + align - 1)) (u64 (Z.lnot (align - 1))).

Definition hex_digit (c : Z) : option Z :=
  if (chr "0"%char <=? c) && (c <=? chr "9"%char) then Some (c - chr "0"%char)
  else if (chr "a"%char <=? c) && (c <=? chr "f"%char) then Some (c - chr "a"%char + 10)
  else if (chr "A"%char <=? c) && (c <=? chr "F"%char) then Some (c - chr "A"%char + 10)
  else None.

(** The loop from [s] with [max_len] characters left; the result so far is [r]. *)
Fixpoint parse_hex_loop (m : mem) (s : Z) (max_len : nat) (r : Z) : option Z :=
  match max_len with
  | O => Some r
  | S max_len =>
      let r := u64 (r * 16) in
      c ← rd m s;
      match hex_digit c with
      | Some d => parse_hex_loop m (s + 1) max_len (u64 (r + d))
      | None => Some r
      end
  end.
Definition parse_hex_str (m : mem) (s : Z) (max_len : nat) : option Z := parse_hex_loop m s max_len 0.

Fixpoint cpio_strncmp_loop (fuel : nat) (a b : Z → option Z) (n i : Z) : option Z :=
  match fuel with
  | O => None
  | S fuel =>
      if i <? n then
        x ← a i; y ← b i;
        if negb (x =? y) then Some (x - y)
        else if x =? 0 then Some 0
        else cpio_strncmp_loop fuel a b n (i + 1)
      else Some 0
  end.
Definition cpio_strncmp (fuel : nat) (a b : Z → option Z) (n : Z) : option Z :=
  cpio_strncmp_loop fuel a b n 0.

Fixpoint cpio_strlen (fuel : nat) (m : mem) (s : Z) : option Z :=
  match fuel with
  | O => None
  | S fuel => c ← rd m s; if c =? 0 then Some 0 else l ← cpio_strlen fuel m (s + 1); Some (u32 (1 + l))
  end.

(** [cpio_strcpy(to, from)] into a buffer: the bytes of [buf] from [i] on. *)
Fixpoint cpio_strcpy (fuel : nat) (buf : list Z) (i : nat) (m : mem) (from : Z) : option (list Z) :=
  match fuel with
  | O => None
  | S fuel =>
      c ← rd m from;
      if c =? 0 then Some buf
      else if decide (i < length buf)%nat then cpio_strcpy fuel (<[i:=c]> buf) (S i) m (from + 1) else None
  end.

Definition cpio_len_next (len prev next : Z) : Z :=
  let diff := u64 (next - prev) in
  if len <? diff then 0 else len.

(** ** Parsing a header: [-1] (bad), [1] (end) or the entry *)

Definition cpio_parse_header (fuel : nat) (m : mem) (archive len : Z) : option (Z + cpio_header_info) :=
  if len <? sizeof_cpio_header then Some (inl (-1)) else
  c ← cpio_strncmp fuel (λ i, rd m (archive + i)) (cstr CPIO_HEADER_MAGIC) 6;
  if negb (c =? 0) then Some (inl (-1)) else
  filesize ← parse_hex_str m (archive + off_c_filesize) 8;
  filename_length ← parse_hex_str m (archive + off_c_namesize) 8;
  if len <? u64 (sizeof_cpio_header + filename_length + filesize) then Some (inl (-1)) else
  let filename := archive + sizeof_cpio_header in
  last ← rd m (filename + s64 (u64 (filename_length - 1)));
  if negb (last =? 0) then Some (inl (-1)) else
  trailer ← (if sizeof_footer <=? filename_length
             then cpio_strncmp fuel (λ i, rd m (filename + i)) (cstr CPIO_FOOTER_MAGIC) sizeof_footer
             else Some 1);
  if trailer =? 0 then Some (inl 1) else
  let data := align_up (u64 (archive + sizeof_cpio_header + filename_length)) CPIO_ALIGNMENT in
  let next := align_up (u64 (data + filesize)) CPIO_ALIGNMENT in
  Some (inr (mk_info filename filesize data next)).

(** ** The operations *)

(** The loop of [cpio_get_entry] from the header of the current entry, with [n]
    entries still to be passed; a null result is [inl tt]. *)
Fixpoint cpio_get_entry_loop (fuel : nat) (m : mem) (header len : Z) (n : nat) : option (unit + cpio_header_info) :=
  r ← cpio_parse_header fuel m header len;
  match r with
  | inl _ => Some (inl tt)
  | inr info =>
      match n with
      | O => Some (inr info)
      | S n => cpio_get_entry_loop fuel m (next info) (cpio_len_next len header (next info)) n
      end
  end.

(** A negative index uses [header_info] uninitialised. *)
Definition cpio_get_entry (fuel : nat) (m : mem) (archive len n : Z) : option (unit + cpio_header_info) :=
  if n <? 0 then None else cpio_get_entry_loop fuel m archive len (Z.to_nat n).

(** [turns] bounds the entries that are visited, [fuel] the string loops. *)
Fixpoint cpio_get_file (turns fuel : nat) (m : mem) (header len : Z) (name : list Z) : option (unit + cpio_header_info) :=
  match turns with
  | O => None
  | S turns =>
      r ← cpio_parse_header fuel m header len;
      match r with
      | inl _ => Some (inl tt)
      | inr info =>
          c ← cpio_strncmp fuel (λ i, rd m (filename info + i)) (cstr name) (2 ^ 64 - 1);
          if c =? 0 then Some (inr info)
          else cpio_get_file turns fuel m (next info) (cpio_len_next len header (next info)) name
      end
  end.

Fixpoint cpio_info_loop (turns fuel : nat) (m : mem) (header len : Z) (info : cpio_info_t) : option (Z * cpio_info_t) :=
  match turns with
  | O => None
  | S turns =>
      r ← cpio_parse_header fuel m header len;
      match r with
      | inl e => if e =? -1 then Some (e, info) else Some (0, info)
      | inr hi =>
          let len := cpio_len_next len header (next hi) in
          current_path_sz ← cpio_strlen fuel m (filename hi);
          let max := if current_path_sz >? max_path_sz info then current_path_sz else max_path_sz info in
          cpio_info_loop turns fuel m (next hi) len (mk_cpio_info (u32 (file_count info + 1)) max)
      end
  end.
Definition cpio_info (turns fuel : nat) (m : mem) (archive len : Z) : option (Z * cpio_info_t) :=
  cpio_info_loop turns fuel m archive len (mk_cpio_info 0 0).

(** [buf] is the array of buffers; each gets the name of one entry. *)
Fixpoint cpio_ls (fuel : nat) (m : mem) (header len : Z) (buf : list (list Z)) : option (list (list Z)) :=
  match buf with
  | [] => Some []
  | b :: buf =>
      r ← cpio_parse_header fuel m header len;
      match r with
      | inl _ => Some (b :: buf)
      | inr hi =>
          b ← cpio_strcpy fuel b 0 m (filename hi);
          rest ← cpio_ls fuel m (next hi) (cpio_len_next len header (next hi)) buf;
          Some (b :: rest)
      end
  end.
