(* ===== verification/CpioProps.v ===== *)
(** * Correctness of the archive reader

    The format is given by an encoder of lists of files; on an encoded archive
    the operations find exactly those files.  On any bytes the header parser
    stays inside the archive it was given. *)
From Stdlib Require Import Ascii.
From S2P Require Import Prelude Cpio.

Definition zlen {A} (l : list A) : Z := Z.of_nat (length l).

(** ** The format *)

Definition hex_char (d : Z) : Z := if d <? 10 then chr "0"%char + d else chr "a"%char + (d - 10).
Fixpoint hex_digits (n : nat) (z : Z) : list Z :=
  match n with O => [] | S n => hex_digits n (z / 16) ++ [z mod 16] end.
Definition hex8 (z : Z) : list Z := hex_char <$> hex_digits 8 z.

(** A file: its name, its contents, and the header fields that are not read. *)
Record entry := mk_entry { e_name : list Z; e_data : list Z; e_f1 : list Z; e_f2 : list Z; e_f3 : list Z }.

Definition pad4 (n : Z) : list Z := replicate (Z.to_nat ((- n) mod 4)) 0.

Definition e_head (e : entry) : list Z :=
  CPIO_HEADER_MAGIC ++ e_f1 e ++ hex8 (zlen (e_data e)) ++ e_f2 e ++ hex8 (zlen (e_name e) + 1) ++ e_f3 e.
Definition e_named (e : entry) : list Z :=
  e_head e ++ (e_name e ++ [0]) ++ pad4 (110 + (zlen (e_name e) + 1)).
Definition encode_entry (e : entry) : list Z := e_named e ++ e_data e ++ pad4 (zlen (e_data e)).

Definition entry_ok (e : entry) : Prop :=
  Forall (λ c, c ≠ 0) (e_name e) ∧ zlen (e_name e) + 1 < 2 ^ 32 ∧ zlen (e_data e) < 2 ^ 32 ∧
  length (e_f1 e) = 48%nat ∧ length (e_f2 e) = 32%nat ∧ length (e_f3 e) = 8%nat.

Definition is_trailer (e : entry) : Prop := e_name e = CPIO_FOOTER_MAGIC ∧ e_data e = [].

Definition encode (es : list entry) (trailer : entry) : list Z := concat (encode_entry <$> es) ++ encode_entry trailer.

(** ** Bytes at an address *)

Definition bytes_at (m : mem) (a : Z) (l : list Z) : Prop :=
  ∀ i b, l !! i = Some b → rd m (a + Z.of_nat i) = Some b.

Lemma bytes_at_app m a l k : bytes_at m a (l ++ k) ↔ bytes_at m a l ∧ bytes_at m (a + zlen l) k.
Proof.
  unfold bytes_at, zlen. split.
  - intros H. split; intros i b Hi.
    + apply H. by apply lookup_app_l_Some.
    + replace (a + Z.of_nat (length l) + Z.of_nat i) with (a + Z.of_nat (length l + i)) by lia. apply H.
      by rewrite lookup_app_r, Nat.add_comm, Nat.add_sub by lia.
  - intros [Hl Hk] i b [Hi|[Hlen Hi]]%lookup_app_Some; [by apply Hl|].
    replace (a + Z.of_nat i) with (a + Z.of_nat (length l) + Z.of_nat (i - length l)) by lia. by apply Hk.
Qed.

Lemma bytes_at_whole base l : bytes_at (mk_mem base l) base l.
Proof.
  intros i b Hi. unfold rd. simpl. rewrite decide_True by lia.
  by replace (Z.to_nat (base + Z.of_nat i - base)) with i by lia.
Qed.

Lemma bytes_at_cons m a b l : bytes_at m a (b :: l) → rd m a = Some b ∧ bytes_at m (a + 1) l.
Proof. rewrite (bytes_at_app m a [b] l). intros [H1 H2]. split; [|done]. rewrite <-(H1 0%nat b); [f_equal; lia|done]. Qed.

(** ** Helpers on well-formed input *)

Lemma hex_digit_char d : 0 ≤ d < 16 → hex_digit (hex_char d) = Some d.
Proof.
  intros Hd. unfold hex_char, hex_digit, chr.
  assert (∀ n, (n < 16)%nat → d = Z.of_nat n → hex_digit (hex_char d) = Some d) as Hall.
  { intros n Hn ->. do 16 (destruct n as [|n]; [reflexivity|]). lia. }
  apply (Hall (Z.to_nat d)); lia.
Qed.

Lemma parse_hex_run m s ds r :
  bytes_at m s (hex_char <$> ds) → Forall (λ d, 0 ≤ d < 16) ds → 0 ≤ r → (r + 1) * 16 ^ zlen ds ≤ 2 ^ 64 →
  parse_hex_loop m s (length ds) r = Some (foldl (λ r d, r * 16 + d) r ds).
Proof.
  unfold zlen. revert s r. induction ds as [|d ds IH]; intros s r Hs Hds Hr Hb; [done|].
  apply Forall_cons in Hds as [Hd Hds]. apply bytes_at_cons in Hs as [H0 Hs].
  cbn [length] in Hb. rewrite Nat2Z.inj_succ, Z.pow_succ_r in Hb by lia.
  assert (0 < 16 ^ Z.of_nat (length ds)) by (apply Z.pow_pos_nonneg; lia).
  cbn [length parse_hex_loop foldl]. rewrite H0. simpl. rewrite hex_digit_char by done.
  rewrite (u64_small (r * 16)) by nia. rewrite u64_small by nia. apply IH; [done|done|lia|nia].
Qed.

Lemma hex_digits_spec n z :
  0 ≤ z < 16 ^ Z.of_nat n →
  Forall (λ d, 0 ≤ d < 16) (hex_digits n z) ∧ length (hex_digits n z) = n ∧
  foldl (λ r d, r * 16 + d) 0 (hex_digits n z) = z.
Proof.
  revert z. induction n as [|n IH]; intros z Hz; cbn [hex_digits].
  { simpl in Hz. split_and!; [constructor|done|simpl; lia]. }
  rewrite Nat2Z.inj_succ, Z.pow_succ_r in Hz by lia.
  destruct (IH (z / 16)) as (Hd & Hl & Hf); [split; [apply Z.div_pos; lia|apply Z.div_lt_upper_bound; lia]|].
  pose proof (Z.mod_pos_bound z 16). split_and!.
  - apply Forall_app. split; [done|]. constructor; [lia|constructor].
  - rewrite length_app, Hl. simpl. lia.
  - rewrite foldl_app, Hf. simpl. pose proof (Z.div_mod z 16). lia.
Qed.

Lemma parse_hex8 m s z : 0 ≤ z < 2 ^ 32 → bytes_at m s (hex8 z) → parse_hex_str m s 8 = Some z.
Proof.
  intros Hz Hs. destruct (hex_digits_spec 8 z) as (Hd & Hl & Hf); [simpl; lia|]. unfold parse_hex_str.
  rewrite <-Hl at 1. rewrite parse_hex_run; [by rewrite Hf|done|done|lia|]. unfold zlen. rewrite Hl. simpl. lia.
Qed.

Lemma length_hex8 z : length (hex8 z) = 8%nat.
Proof. done. Qed.

(** Comparing two terminated strings. *)
Lemma strncmp_run fuel (a b : Z → option Z) n i s t :
  (∀ k x, (s ++ [0]) !! k = Some x → a (i + Z.of_nat k) = Some x) →
  (∀ k x, (t ++ [0]) !! k = Some x → b (i + Z.of_nat k) = Some x) →
  Forall (λ c, c ≠ 0) s → Forall (λ c, c ≠ 0) t → i + zlen t < n → (length s < fuel)%nat →
  ∃ c, cpio_strncmp_loop fuel a b n i = Some c ∧ (c = 0 ↔ s = t).
Proof.
  unfold zlen. revert fuel i t. induction s as [|x s IH]; intros fuel i t Ha Hb Hs Ht Hn Hf;
    (destruct fuel as [|fuel]; [lia|]); cbn [cpio_strncmp_loop]; rewrite (proj2 (Z.ltb_lt i n)) by lia;
    pose proof (Ha 0%nat) as Ha0; pose proof (Hb 0%nat) as Hb0; rewrite Z.add_0_r in Ha0, Hb0; simpl in Ha0, Hb0.
  - rewrite (Ha0 0 eq_refl). destruct t as [|y t]; simpl in Hb0; [rewrite (Hb0 0 eq_refl); by exists 0|].
    apply Forall_cons in Ht as [Hy Ht]. rewrite (Hb0 y eq_refl). cbn [mbind option_bind].
    rewrite (proj2 (Z.eqb_neq 0 y)) by done.
    exists (0 - y). split; [done|]. split; [lia|done].
  - apply Forall_cons in Hs as [Hx Hs]. rewrite (Ha0 x eq_refl). destruct t as [|y t]; simpl in Hb0.
    + rewrite (Hb0 0 eq_refl). cbn [mbind option_bind]. rewrite (proj2 (Z.eqb_neq x 0)) by done. exists (x - 0).
      split; [done|]. split; [lia|done].
    + apply Forall_cons in Ht as [Hy Ht]. rewrite (Hb0 y eq_refl). simpl. destruct (Z.eqb_spec x y) as [->|Hxy]; simpl.
      * rewrite (proj2 (Z.eqb_neq y 0)) by done.
        destruct (IH fuel (i + 1) t) as (c & Hrun & Hc); [| |done|done|cbn [length] in Hn; lia|simpl in Hf; lia|].
        { intros k z Hk. replace (i + 1 + Z.of_nat k) with (i + Z.of_nat (S k)) by lia. by apply Ha. }
        { intros k z Hk. replace (i + 1 + Z.of_nat k) with (i + Z.of_nat (S k)) by lia. by apply Hb. }
        exists c. split; [done|]. rewrite Hc. naive_solver.
      * exists (x - y). split; [done|]. split; [lia|]. by intros [=].
Qed.

(** Equal bytes, none of them a terminator, up to the bound. *)
Lemma strncmp_prefix fuel (a b : Z → option Z) i s :
  (∀ k x, s !! k = Some x → a (i + Z.of_nat k) = Some x) →
  (∀ k x, s !! k = Some x → b (i + Z.of_nat k) = Some x) →
  Forall (λ c, c ≠ 0) s → (length s < fuel)%nat →
  cpio_strncmp_loop fuel a b (i + zlen s) i = Some 0.
Proof.
  unfold zlen. revert fuel i. induction s as [|x s IH]; intros fuel i Ha Hb Hs Hf; (destruct fuel as [|fuel]; [lia|]);
    cbn [cpio_strncmp_loop].
  - rewrite (proj2 (Z.ltb_ge _ _)) by (simpl; lia). done.
  - apply Forall_cons in Hs as [Hx Hs]. cbn [length] in *. rewrite (proj2 (Z.ltb_lt _ _)) by lia.
    pose proof (Ha 0%nat x eq_refl) as Ha0. pose proof (Hb 0%nat x eq_refl) as Hb0. rewrite Z.add_0_r in Ha0, Hb0.
    rewrite Ha0, Hb0. cbn [mbind option_bind]. rewrite Z.eqb_refl. cbn [negb]. rewrite (proj2 (Z.eqb_neq x 0)) by done.
    replace (i + Z.of_nat (S (length s))) with (i + 1 + Z.of_nat (length s)) by lia. apply IH; [| |done|lia].
    + intros k y Hk. replace (i + 1 + Z.of_nat k) with (i + Z.of_nat (S k)) by lia. by apply Ha.
    + intros k y Hk. replace (i + 1 + Z.of_nat k) with (i + Z.of_nat (S k)) by lia. by apply Hb.
Qed.

Lemma align_up_4 n : 0 ≤ n < 2 ^ 64 - 4 → align_up n CPIO_ALIGNMENT = n + (- n) mod 4.
Proof.
  intros Hn. change (align_up n CPIO_ALIGNMENT) with (round_down (u64 (n + 4 - 1)) (2 ^ 2)).
  rewrite u64_small by lia. rewrite round_down_pow2 by lia.
  pose proof (Z.div_mod (n + 4 - 1) 4). pose proof (Z.mod_pos_bound (n + 4 - 1) 4).
  pose proof (Z.div_mod (- n) 4). pose proof (Z.mod_pos_bound (- n) 4). change (2 ^ 2) with 4. lia.
Qed.

(** ** The layout of an entry *)

Lemma zlen_app {A} (l k : list A) : zlen (l ++ k) = zlen l + zlen k.
Proof. unfold zlen. rewrite length_app. lia. Qed.

Lemma zlen_pad4 n : zlen (pad4 n) = (- n) mod 4.
Proof. unfold zlen, pad4. rewrite length_replicate. pose proof (Z.mod_pos_bound (- n) 4). lia. Qed.

Lemma zlen_head e : entry_ok e → zlen (e_head e) = 110.
Proof. intros (_ & _ & _ & H1 & H2 & H3). unfold e_head. rewrite !zlen_app. unfold zlen. rewrite H1, H2, H3. done. Qed.

Lemma zlen_named e :
  entry_ok e → zlen (e_named e) = 110 + (zlen (e_name e) + 1) + (- (110 + (zlen (e_name e) + 1))) mod 4.
Proof. intros He. unfold e_named. rewrite !zlen_app, zlen_pad4, zlen_head by done. change (zlen [0]) with 1. lia. Qed.

Lemma zlen_entry e :
  entry_ok e → zlen (encode_entry e) = zlen (e_named e) + (zlen (e_data e) + (- zlen (e_data e)) mod 4).
Proof. intros He. unfold encode_entry. by rewrite !zlen_app, zlen_pad4. Qed.

Lemma zlen_nonneg {A} (l : list A) : 0 ≤ zlen l.
Proof. unfold zlen. lia. Qed.

Lemma entry_layout m a e :
  entry_ok e → bytes_at m a (encode_entry e) →
  bytes_at m a CPIO_HEADER_MAGIC ∧ bytes_at m (a + 54) (hex8 (zlen (e_data e))) ∧
  bytes_at m (a + 94) (hex8 (zlen (e_name e) + 1)) ∧ bytes_at m (a + 110) (e_name e ++ [0]) ∧
  bytes_at m (a + zlen (e_named e)) (e_data e).
Proof.
  intros He H. pose proof (zlen_head e He) as Hh. destruct He as (_ & _ & _ & H1 & H2 & H3).
  unfold encode_entry in H. rewrite bytes_at_app in H. destruct H as [Hn Hd]. apply bytes_at_app in Hd as [Hd _].
  unfold e_named in Hn. rewrite bytes_at_app, Hh in Hn. destruct Hn as [Hhead Hname].
  apply bytes_at_app in Hname as [Hname _]. unfold e_head in Hhead. rewrite !bytes_at_app in Hhead.
  change (zlen CPIO_HEADER_MAGIC) with 6 in Hhead. unfold zlen in Hhead at 1 3 4 5 6 7 8 9.
  destruct Hhead as (Hmagic & _ & Hsz & _ & Hns & _).
  split_and!; try done.
  - unfold zlen in Hsz. rewrite H1 in Hsz. by rewrite <-Z.add_assoc in Hsz.
  - unfold zlen in Hns. rewrite H1, H2, length_hex8 in Hns. by rewrite <-!Z.add_assoc in Hns.
Qed.

(** The entry that the parser reports for [e] at [a]. *)
Definition info_at (a : Z) (e : entry) : cpio_header_info :=
  mk_info (a + 110) (zlen (e_data e)) (a + zlen (e_named e)) (a + zlen (encode_entry e)).

(** The two alignments of the parser give the offsets of the layout. *)
Lemma info_align a e :
  entry_ok e → 0 ≤ a → a mod 4 = 0 → a + zlen (encode_entry e) < 2 ^ 64 - 4 →
  mk_info (a + 110) (zlen (e_data e))
    (align_up (u64 (a + 110 + (zlen (e_name e) + 1))) CPIO_ALIGNMENT)
    (align_up (u64 (align_up (u64 (a + 110 + (zlen (e_name e) + 1))) CPIO_ALIGNMENT + zlen (e_data e))) CPIO_ALIGNMENT) =
    info_at a e.
Proof.
  intros He Ha Ha4 Hmax. pose proof (zlen_entry e He) as Hze. pose proof (zlen_named e He) as Hzn.
  pose proof (zlen_nonneg (e_name e)). pose proof (zlen_nonneg (e_data e)).
  pose proof (Z.mod_pos_bound (- (110 + (zlen (e_name e) + 1))) 4). pose proof (Z.mod_pos_bound (- zlen (e_data e)) 4).
  unfold info_at.
  assert (Hal : ∀ n, (- (a + n)) mod 4 = (- n) mod 4).
  { intros n. pose proof (Z.div_mod a 4). replace (- (a + n)) with (- n + (- (a / 4)) * 4) by lia. apply Z_mod_plus_full. }
  assert (Hd : align_up (u64 (a + 110 + (zlen (e_name e) + 1))) CPIO_ALIGNMENT = a + zlen (e_named e)).
  { rewrite u64_small by lia. rewrite align_up_4 by lia.
    replace (a + 110 + (zlen (e_name e) + 1)) with (a + (110 + (zlen (e_name e) + 1))) by lia. rewrite Hal. lia. }
  rewrite Hd. f_equal. rewrite u64_small by lia. rewrite align_up_4 by lia. rewrite <-(Z.add_assoc a), Hal, Hze.
  assert (Hn4 : zlen (e_named e) mod 4 = 0).
  { rewrite Hzn. pose proof (Z.div_mod (- (110 + (zlen (e_name e) + 1))) 4).
    replace (110 + (zlen (e_name e) + 1) + - (110 + (zlen (e_name e) + 1)) mod 4)
      with ((- (- (110 + (zlen (e_name e) + 1)) / 4)) * 4) by lia. apply Z_mod_mult. }
  pose proof (Z.div_mod (zlen (e_named e)) 4).
  replace (- (zlen (e_named e) + zlen (e_data e))) with (- zlen (e_data e) + (- (zlen (e_named e) / 4)) * 4) by lia.
  rewrite Z_mod_plus_full. lia.
Qed.

Lemma parse_entry fuel m a len e :
  entry_ok e → bytes_at m a (encode_entry e) → 0 ≤ a → a mod 4 = 0 → a + zlen (encode_entry e) < 2 ^ 64 - 4 →
  zlen (encode_entry e) ≤ len → (length (e_name e) < fuel)%nat → (11 < fuel)%nat →
  cpio_parse_header fuel m a len =
    Some (if decide (e_name e = CPIO_FOOTER_MAGIC) then inl 1 else inr (info_at a e)).
Proof.
  intros He Hat Ha Ha4 Hmax Hlen Hf Hf'. destruct (entry_layout m a e He Hat) as (Hmagic & Hsz & Hns & Hname & _).
  pose proof (zlen_entry e He) as Hze. pose proof (zlen_named e He) as Hzn. pose proof He as (Hnz & Hnl & Hdl & _).
  pose proof (zlen_nonneg (e_name e)). pose proof (zlen_nonneg (e_data e)).
  pose proof (Z.mod_pos_bound (- (110 + (zlen (e_name e) + 1))) 4). pose proof (Z.mod_pos_bound (- zlen (e_data e)) 4).
  unfold cpio_parse_header. rewrite (proj2 (Z.ltb_ge _ _)) by (unfold sizeof_cpio_header; lia).
  assert (Hm : cpio_strncmp fuel (λ i, rd m (a + i)) (cstr CPIO_HEADER_MAGIC) 6 = Some 0).
  { apply (strncmp_prefix fuel _ _ 0 CPIO_HEADER_MAGIC).
    - intros k x Hk. by apply Hmagic.
    - intros k x Hk. unfold cstr. rewrite Z.add_0_l, Nat2Z.id. by apply lookup_app_l_Some.
    - repeat constructor; done.
    - simpl. lia. }
  rewrite Hm. cbn [mbind option_bind]. change (negb (0 =? 0)) with false. cbv iota.
  unfold off_c_filesize, off_c_namesize. rewrite (parse_hex8 m (a + 54) (zlen (e_data e))) by (done || lia).
  cbn [mbind option_bind]. rewrite (parse_hex8 m (a + 94) (zlen (e_name e) + 1)) by (done || lia).
  cbn [mbind option_bind]. unfold sizeof_cpio_header, sizeof_footer.
  rewrite (u64_small (110 + (zlen (e_name e) + 1) + zlen (e_data e))) by lia.
  rewrite (proj2 (Z.ltb_ge len _)) by lia.
  rewrite (u64_small (zlen (e_name e) + 1 - 1)) by lia.
  assert (Hs64 : s64 (zlen (e_name e) + 1 - 1) = zlen (e_name e)) by (unfold s64; rewrite Z.mod_small; lia).
  assert (Hlast : rd m (a + 110 + zlen (e_name e)) = Some 0).
  { apply Hname. rewrite lookup_app_r, Nat.sub_diag by lia. done. }
  rewrite Hs64, Hlast. cbn [mbind option_bind]. change (negb (0 =? 0)) with false. cbv iota.
  destruct (strncmp_run fuel (λ i, rd m (a + 110 + i)) (cstr CPIO_FOOTER_MAGIC) 11 0 (e_name e) CPIO_FOOTER_MAGIC)
    as (c & Hrun & Hc).
  { intros k x Hk. by apply Hname. }
  { intros k x Hk. unfold cstr. by rewrite Z.add_0_l, Nat2Z.id. }
  { done. } { repeat constructor; done. } { done. } { done. }
  pose proof (info_align a e He Ha Ha4 Hmax) as Hinfo.
  destruct (Z.leb_spec 11 (zlen (e_name e) + 1)) as [Hge|Hlt].
  - unfold cpio_strncmp. rewrite Hrun. cbn [mbind option_bind]. destruct (Z.eqb_spec c 0) as [Hc0|Hc0].
    + rewrite decide_True by tauto. done.
    + rewrite decide_False by tauto. cbv zeta. by rewrite Hinfo.
  - cbn [mbind option_bind]. rewrite decide_False.
    + change (1 =? 0) with false. cbv zeta iota. by rewrite Hinfo.
    + intros Heq. rewrite Heq in Hlt. by vm_compute in Hlt.
Qed.

(** ** Archives *)

(** The addresses of the entries of an archive at [a]. *)
Fixpoint entry_infos (a : Z) (es : list entry) : list cpio_header_info :=
  match es with [] => [] | e :: es => info_at a e :: entry_infos (a + zlen (encode_entry e)) es end.

(** The archive at [a], with the space that the operations need: the entries
    are well formed and the last one is the trailer. *)
Definition archive_at (m : mem) (a : Z) (es : list entry) (trailer : entry) (len : Z) (fuel : nat) : Prop :=
  Forall (λ e, entry_ok e ∧ e_name e ≠ CPIO_FOOTER_MAGIC ∧ zlen (encode_entry e) ≤ len ∧ (length (e_name e) < fuel)%nat) es ∧
  entry_ok trailer ∧ is_trailer trailer ∧ zlen (encode_entry trailer) ≤ len ∧ (11 < fuel)%nat ∧
  bytes_at m a (encode es trailer) ∧ 0 ≤ a ∧ a mod 4 = 0 ∧ a + zlen (encode es trailer) < 2 ^ 64 - 4 ∧ len < 2 ^ 64.

Lemma zlen_entry_mod4 e : entry_ok e → zlen (encode_entry e) mod 4 = 0.
Proof.
  intros He. rewrite zlen_entry, zlen_named by done. set (n := 110 + (zlen (e_name e) + 1)).
  pose proof (Z.div_mod (- n) 4). pose proof (Z.div_mod (- zlen (e_data e)) 4).
  replace (n + - n mod 4 + (zlen (e_data e) + - zlen (e_data e) mod 4))
    with ((- (- n / 4) - (- zlen (e_data e) / 4)) * 4) by lia. apply Z_mod_mult.
Qed.

(** The first header of an archive, and the archive after it. *)
Lemma archive_cons m a e es trailer len fuel :
  archive_at m a (e :: es) trailer len fuel →
  cpio_parse_header fuel m a len = Some (inr (info_at a e)) ∧
  cpio_len_next len a (next (info_at a e)) = len ∧
  bytes_at m (a + 110) (e_name e ++ [0]) ∧ bytes_at m (a + zlen (e_named e)) (e_data e) ∧
  Forall (λ c, c ≠ 0) (e_name e) ∧ zlen (e_name e) + 1 < 2 ^ 32 ∧
  archive_at m (a + zlen (encode_entry e)) es trailer len fuel.
Proof.
  intros (Hes & Ht & Htr & Htl & Hf & Hat & Ha & Ha4 & Hmax & Hlen).
  apply Forall_cons in Hes as [(He & Hne & Hel & Hef) Hes].
  assert (Henc : encode (e :: es) trailer = encode_entry e ++ encode es trailer).
  { unfold encode. rewrite fmap_cons. cbn [concat]. by rewrite <-app_assoc. }
  rewrite Henc, bytes_at_app in Hat. destruct Hat as [Hat Hrest]. rewrite Henc, zlen_app in Hmax.
  pose proof (zlen_nonneg (encode es trailer)). pose proof (zlen_nonneg (encode_entry e)).
  destruct (entry_layout m a e He Hat) as (_ & _ & _ & Hname & Hdata). pose proof He as (Hnz & Hnl & _).
  split; [rewrite (parse_entry fuel m a len e) by (done || lia); by rewrite decide_False|].
  split.
  { unfold cpio_len_next, info_at. cbn [next]. rewrite u64_small by lia. by rewrite (proj2 (Z.ltb_ge _ _)) by lia. }
  do 4 (split; [done|]). split; [done|]. do 4 (split; [done|]). split; [done|]. split; [lia|]. split; [|lia].
  - rewrite Z.add_mod, Ha4, zlen_entry_mod4 by (done || lia). done.
Qed.

Lemma archive_nil m a trailer len fuel :
  archive_at m a [] trailer len fuel → cpio_parse_header fuel m a len = Some (inl 1).
Proof.
  intros (_ & Ht & [Hn Hd] & Htl & Hf & Hat & Ha & Ha4 & Hmax & Hlen). unfold encode in *. simpl in *.
  rewrite (parse_entry fuel m a len trailer); [by rewrite decide_True|done|done|done|done|done|done|rewrite Hn; simpl; lia|done].
Qed.

(** The data that an entry points to is that of the file. *)
Definition shows (m : mem) (info : cpio_header_info) (e : entry) : Prop :=
  bytes_at m (filename info) (e_name e ++ [0]) ∧ filesize info = zlen (e_data e) ∧ bytes_at m (data info) (e_data e).

Lemma get_entry_run m a es trailer len fuel n :
  archive_at m a es trailer len fuel →
  match es !! n with
  | Some e => ∃ info, cpio_get_entry_loop fuel m a len n = Some (inr info) ∧ shows m info e
  | None => cpio_get_entry_loop fuel m a len n = Some (inl tt)
  end.
Proof.
  revert a n. induction es as [|e es IH]; intros a n Hat.
  - pose proof (archive_nil _ _ _ _ _ Hat) as Hp. destruct n; cbn [cpio_get_entry_loop lookup list_lookup]; by rewrite Hp.
  - destruct (archive_cons _ _ _ _ _ _ _ Hat) as (Hp & Hl & Hname & Hdata & _ & _ & Hrest).
    destruct n as [|n]; cbn [cpio_get_entry_loop lookup list_lookup]; rewrite Hp; cbn [mbind option_bind].
    + exists (info_at a e). done.
    + rewrite Hl. exact (IH _ n Hrest).
Qed.

Lemma get_file_run m a es trailer len turns fuel name :
  archive_at m a es trailer len fuel → (length es < turns)%nat →
  Forall (λ c, c ≠ 0) name → zlen name < 2 ^ 64 - 1 →
  match list_find (λ e, e_name e = name) es with
  | Some (_, e) => ∃ info, cpio_get_file turns fuel m a len name = Some (inr info) ∧ shows m info e
  | None => cpio_get_file turns fuel m a len name = Some (inl tt)
  end.
Proof.
  intros Hat Hn Hnz Hnl. revert a turns Hat Hn. induction es as [|e es IH]; intros a turns Hat Hn;
    (destruct turns as [|turns]; [lia|]); cbn [cpio_get_file].
  - by rewrite (archive_nil _ _ _ _ _ Hat).
  - destruct (archive_cons _ _ _ _ _ _ _ Hat) as (Hp & Hl & Hname & Hdata & Hez & Hel & Hrest).
    rewrite Hp. cbn [mbind option_bind]. cbn [list_find].
    destruct (strncmp_run fuel (λ i, rd m (filename (info_at a e) + i)) (cstr name) (2 ^ 64 - 1) 0 (e_name e) name)
      as (c & Hrun & Hc); [|intros k x Hk; unfold cstr; by rewrite Z.add_0_l, Nat2Z.id|done|done|lia| |].
    { intros k x Hk. by apply Hname. }
    { destruct Hat as (Hes & _). apply Forall_cons in Hes. tauto. }
    unfold cpio_strncmp. rewrite Hrun. cbn [mbind option_bind]. destruct (Z.eqb_spec c 0) as [Hc0|Hc0].
    + rewrite decide_True by tauto. exists (info_at a e). done.
    + rewrite decide_False by tauto. rewrite Hl.
      assert (Hlen' : (length es < turns)%nat) by (simpl in Hn; lia). specialize (IH _ turns Hrest Hlen').
      destruct (list_find _ es) as [[j e']|]; simpl; exact IH.
Qed.

Lemma strlen_run fuel m s l :
  bytes_at m s (l ++ [0]) → Forall (λ c, c ≠ 0) l → (length l < fuel)%nat → zlen l < 2 ^ 32 →
  cpio_strlen fuel m s = Some (zlen l).
Proof.
  unfold zlen. revert fuel s. induction l as [|c l IH]; intros fuel s Hs Hl Hf Hb; (destruct fuel as [|fuel]; [lia|]);
    cbn [cpio_strlen app] in *; apply bytes_at_cons in Hs as [H0 Hs]; rewrite H0; cbn [mbind option_bind]; [done|].
  apply Forall_cons in Hl as [Hc Hl]. rewrite (proj2 (Z.eqb_neq c 0)) by done. cbn [length] in *.
  rewrite IH by (done || lia). cbn [mbind option_bind]. rewrite u32_small by lia. f_equal. lia.
Qed.

(** The longest name. *)
Definition max_name (es : list entry) : Z := foldr (λ e r, Z.max (zlen (e_name e)) r) 0 es.

Lemma info_run m a es trailer len turns fuel i :
  archive_at m a es trailer len fuel → (length es < turns)%nat →
  0 ≤ file_count i → file_count i + zlen es < 2 ^ 32 → 0 ≤ max_path_sz i →
  cpio_info_loop turns fuel m a len i =
    Some (0, mk_cpio_info (file_count i + zlen es) (Z.max (max_path_sz i) (max_name es))).
Proof.
  unfold zlen at 1 2. revert a turns i. induction es as [|e es IH]; intros a turns i Hat Hn H0 Hc Hpos;
    (destruct turns as [|turns]; [lia|]); cbn [cpio_info_loop].
  - rewrite (archive_nil _ _ _ _ _ Hat). cbn [mbind option_bind]. change (1 =? -1) with false. cbv iota.
    destruct i as [fc mp]. simpl in *. do 3 f_equal; lia.
  - destruct (archive_cons _ _ _ _ _ _ _ Hat) as (Hp & Hl & Hname & _ & Hez & Hel & Hrest).
    assert (Hfuel : (length (e_name e) < fuel)%nat) by (destruct Hat as (Hes & _); apply Forall_cons in Hes; tauto).
    rewrite Hp. cbn [mbind option_bind]. rewrite Hl.
    rewrite (strlen_run fuel m _ (e_name e)) by (done || lia). cbn [mbind option_bind]. cbn [length] in *.
    rewrite Z.gtb_ltb, u32_small by lia. pose proof (zlen_nonneg (e_name e)).
    change (next (info_at a e)) with (a + zlen (encode_entry e)).
    destruct (Z.ltb_spec (max_path_sz i) (zlen (e_name e))); rewrite IH by (done || simpl; lia);
      do 3 f_equal; simpl; lia.
Qed.

(** What [cpio_ls] leaves in the buffers: each name over the start of its
    buffer, without a terminator. *)
Fixpoint ls_result (es : list entry) (buf : list (list Z)) : list (list Z) :=
  match es, buf with
  | e :: es, b :: buf => (e_name e ++ drop (length (e_name e)) b) :: ls_result es buf
  | _, _ => buf
  end.

Lemma strcpy_run fuel m s l pre b :
  bytes_at m s (l ++ [0]) → Forall (λ c, c ≠ 0) l → (length l < fuel)%nat → (length l ≤ length b)%nat →
  cpio_strcpy fuel (pre ++ b) (length pre) m s = Some (pre ++ l ++ drop (length l) b).
Proof.
  revert fuel s pre b. induction l as [|c l IH]; intros fuel s pre b Hs Hl Hf Hb; (destruct fuel as [|fuel]; [lia|]);
    cbn [cpio_strcpy app] in *; apply bytes_at_cons in Hs as [H0 Hs]; rewrite H0; cbn [mbind option_bind]; [done|].
  apply Forall_cons in Hl as [Hc Hl]. rewrite (proj2 (Z.eqb_neq c 0)) by done.
  destruct b as [|y b]; [simpl in Hb; lia|]. rewrite decide_True by (rewrite length_app; simpl; lia).
  replace (<[length pre:=c]> (pre ++ y :: b)) with ((pre ++ [c]) ++ b)
    by (rewrite insert_app_r_alt, Nat.sub_diag by lia; simpl; by rewrite <-app_assoc).
  replace (S (length pre)) with (length (pre ++ [c])) by (rewrite length_app; simpl; lia).
  cbn [length] in *. rewrite IH by (done || lia). simpl. by rewrite <-app_assoc.
Qed.

Lemma ls_run m a es trailer len fuel buf :
  archive_at m a es trailer len fuel →
  Forall2 (λ e b, (length (e_name e) ≤ length b)%nat) (take (length buf) es) (take (length es) buf) →
  cpio_ls fuel m a len buf = Some (ls_result es buf).
Proof.
  revert a buf. induction es as [|e es IH]; intros a [|b buf] Hat Hb; cbn [cpio_ls]; try done.
  - by rewrite (archive_nil _ _ _ _ _ Hat).
  - destruct (archive_cons _ _ _ _ _ _ _ Hat) as (Hp & Hl & Hname & _ & Hez & Hel & Hrest).
    assert (Hfuel : (length (e_name e) < fuel)%nat) by (destruct Hat as (Hes & _); apply Forall_cons in Hes; tauto).
    simpl in Hb. apply Forall2_cons in Hb as [Hb0 Hb]. rewrite Hp. cbn [mbind option_bind]. rewrite Hl.
    rewrite (strcpy_run fuel m _ (e_name e) [] b) by done. cbn [mbind option_bind].
    change (next (info_at a e)) with (a + zlen (encode_entry e)). rewrite IH by done. done.
Qed.

(** An archive in memory: [es] and the trailer, at an aligned address. *)
Definition archive (base : Z) (es : list entry) (trailer : entry) : Prop :=
  Forall (λ e, entry_ok e ∧ e_name e ≠ CPIO_FOOTER_MAGIC) es ∧ entry_ok trailer ∧ is_trailer trailer ∧
  0 ≤ base ∧ base mod 4 = 0 ∧ base + zlen (encode es trailer) < 2 ^ 64 - 4 ∧ zlen es < 2 ^ 32.

Lemma max_name_le e es : e ∈ es → zlen (e_name e) ≤ max_name es.
Proof. induction 1; simpl; lia. Qed.

Lemma zlen_member e es trailer : e ∈ es → zlen (encode_entry e) ≤ zlen (encode es trailer).
Proof.
  unfold encode. induction 1 as [e es|e e' es _ IH]; rewrite fmap_cons; cbn [concat]; rewrite !zlen_app in *.
  - pose proof (zlen_nonneg (concat (encode_entry <$> es))). pose proof (zlen_nonneg (encode_entry trailer)). lia.
  - pose proof (zlen_nonneg (encode_entry e')). lia.
Qed.

Lemma archive_start base es trailer fuel :
  archive base es trailer → (11 < fuel)%nat → max_name es < Z.of_nat fuel →
  archive_at (mk_mem base (encode es trailer)) base es trailer (zlen (encode es trailer)) fuel.
Proof.
  intros (Hes & Ht & Htr & Hb & Hb4 & Hmax & _) Hf Hm. split.
  - rewrite Forall_forall in *. intros e He. destruct (Hes _ He). split_and!; [done|done| |].
    + by apply zlen_member.
    + pose proof (max_name_le _ _ He). unfold zlen in *. lia.
  - split; [done|]. split; [done|]. split.
    { unfold encode. rewrite zlen_app. pose proof (zlen_nonneg (concat (encode_entry <$> es))). lia. }
    split; [done|]. split; [apply bytes_at_whole|]. split_and!; try done. lia.
Qed.

(** C24. On the image of an archive the operations find exactly its files:
    [cpio_get_file] the first file of the given name, with its size and the
    address of its contents, and null when there is none; [cpio_get_entry] the
    [n]-th file; [cpio_info] the number of files and the length of the longest
    name; [cpio_ls] the names.  They return after one turn per file. *)
Theorem cpio_roundtrip base es trailer turns fuel :
  archive base es trailer → (11 < fuel)%nat → max_name es < Z.of_nat fuel → (length es < turns)%nat →
  let m := mk_mem base (encode es trailer) in
  let len := zlen (encode es trailer) in
  (∀ name, Forall (λ c, c ≠ 0) name → zlen name < 2 ^ 64 - 1 →
     match list_find (λ e, e_name e = name) es with
     | Some (_, e) => ∃ info, cpio_get_file turns fuel m base len name = Some (inr info) ∧ shows m info e
     | None => cpio_get_file turns fuel m base len name = Some (inl tt)
     end) ∧
  (∀ n, 0 ≤ n →
     match es !! Z.to_nat n with
     | Some e => ∃ info, cpio_get_entry fuel m base len n = Some (inr info) ∧ shows m info e
     | None => cpio_get_entry fuel m base len n = Some (inl tt)
     end) ∧
  cpio_info turns fuel m base len = Some (0, mk_cpio_info (zlen es) (max_name es)) ∧
  (∀ buf, Forall2 (λ e b, (length (e_name e) ≤ length b)%nat) (take (length buf) es) (take (length es) buf) →
     cpio_ls fuel m base len buf = Some (ls_result es buf)).
Proof.
  intros Ha Hf Hm Ht m len. pose proof (archive_start _ _ _ _ Ha Hf Hm) as Hat. split_and!.
  - intros name Hnz Hnl. by apply (get_file_run _ _ _ _ _ _ _ _ Hat).
  - intros n Hn. unfold cpio_get_entry. rewrite (proj2 (Z.ltb_ge _ _)) by lia. apply (get_entry_run _ _ _ _ _ _ _ Hat).
  - unfold cpio_info. destruct Ha as (_ & _ & _ & _ & _ & _ & Hes).
    rewrite (info_run _ _ _ _ _ _ _ _ Hat); [|done|simpl; lia|simpl; lia|simpl; lia].
    simpl. do 3 f_equal. rewrite Z.max_r; [done|]. clear. induction es as [|e es IH]; simpl; [done|].
    pose proof (zlen_nonneg (e_name e)). lia.
  - intros buf Hbuf. by eapply ls_run.
Qed.

(** ** Arbitrary bytes *)

Definition readable (m : mem) (a len : Z) : Prop := ∀ i, a ≤ i < a + len → is_Some (rd m i).

Lemma hex_digit_bound c d : hex_digit c = Some d → 0 ≤ d < 16.
Proof.
  unfold hex_digit. change (chr "0"%char) with 48. change (chr "9"%char) with 57. change (chr "a"%char) with 97.
  change (chr "f"%char) with 102. change (chr "A"%char) with 65. change (chr "F"%char) with 70.
  intros H. repeat case_match; simplify_eq; rewrite ?andb_true_iff, ?Z.leb_le in *; lia.
Qed.

Lemma parse_hex_safe m s n r :
  readable m s (Z.of_nat n) → 0 ≤ r → (r + 1) * 16 ^ Z.of_nat n ≤ 2 ^ 64 →
  ∃ r', parse_hex_loop m s n r = Some r' ∧ 0 ≤ r' < (r + 1) * 16 ^ Z.of_nat n.
Proof.
  revert s r. induction n as [|n IH]; intros s r Hs Hr Hb; [exists r; simpl; split; [done|lia]|].
  rewrite Nat2Z.inj_succ, Z.pow_succ_r in * by lia.
  assert (0 < 16 ^ Z.of_nat n) by (apply Z.pow_pos_nonneg; lia).
  cbn [parse_hex_loop]. destruct (Hs s) as [c Hc]; [lia|]. rewrite Hc. cbn [mbind option_bind].
  rewrite (u64_small (r * 16)) by nia. destruct (hex_digit c) as [d|] eqn:Hd.
  - apply hex_digit_bound in Hd. rewrite u64_small by nia.
    destruct (IH (s + 1) (r * 16 + d)) as (r' & Hrun & Hr'); [intros i Hi; apply Hs; lia|lia|nia|].
    exists r'. split; [done|nia].
  - exists (r * 16). split; [done|nia].
Qed.

Lemma strncmp_safe fuel (a b : Z → option Z) n i :
  (∀ j, i ≤ j < n → is_Some (a j)) → (∀ j, i ≤ j < n → is_Some (b j)) → i ≤ n → n - i < Z.of_nat fuel →
  is_Some (cpio_strncmp_loop fuel a b n i).
Proof.
  revert i. induction fuel as [|fuel IH]; intros i Ha Hb Hi Hf; cbn [cpio_strncmp_loop].
  - lia.
  - destruct (Z.ltb_spec i n); [|by eexists]. destruct (Ha i) as [x ->]; [lia|]. destruct (Hb i) as [y ->]; [lia|].
    cbn [mbind option_bind]. destruct (negb _); [by eexists|]. destruct (x =? 0); [by eexists|].
    apply IH; [intros j Hj; apply Ha; lia|intros j Hj; apply Hb; lia|lia|lia].
Qed.

(** Parsing a header, whatever the bytes are, reads only the [len] bytes
    that it was given, and an entry that it accepts is aligned, lies after the
    header, makes progress, and ends at most 3 bytes after them (the padding
    between the name and the contents is not counted by the test). *)
Theorem cpio_parse_header_safe fuel m a len :
  0 ≤ a → 0 ≤ len → a + len < 2 ^ 64 - 8 → readable m a len → (12 ≤ fuel)%nat →
  ∃ r, cpio_parse_header fuel m a len = Some r ∧
    match r with
    | inl e => e = -1 ∨ e = 1
    | inr info => filename info = a + 110 ∧ data info mod 4 = 0 ∧ next info mod 4 = 0 ∧ a + 110 ≤ data info ∧
        data info + filesize info ≤ a + len + 3 ∧ data info + filesize info ≤ next info ≤ a + len + 6
    end.
Proof.
  intros Ha Hl0 Hmax Hm Hf. unfold cpio_parse_header, sizeof_cpio_header, sizeof_footer, off_c_filesize, off_c_namesize.
  destruct (Z.ltb_spec len 110) as [Hlt|Hlen]; [eexists; split; [done|]; by left|].
  destruct (strncmp_safe fuel (λ i, rd m (a + i)) (cstr CPIO_HEADER_MAGIC) 6 0) as [c Hc].
  { intros j Hj. apply Hm. lia. }
  { intros j Hj. apply lookup_lt_is_Some. simpl. lia. }
  { lia. } { lia. }
  change (cpio_strncmp fuel (λ i, rd m (a + i)) (cstr CPIO_HEADER_MAGIC) 6 = Some c) in Hc.
  rewrite Hc. cbn [mbind option_bind].
  destruct (negb (c =? 0)); [eexists; split; [done|]; by left|].
  destruct (parse_hex_safe m (a + 54) 8 0) as (sz & Hsz & Hszb); [intros i Hi; apply Hm; lia|lia|simpl; lia|].
  destruct (parse_hex_safe m (a + 94) 8 0) as (nl & Hnl & Hnlb); [intros i Hi; apply Hm; lia|lia|simpl; lia|].
  change ((0 + 1) * 16 ^ Z.of_nat 8) with (2 ^ 32) in *.
  unfold parse_hex_str. rewrite Hsz, Hnl. cbn [mbind option_bind]. rewrite (u64_small (110 + nl + sz)) by lia.
  destruct (Z.ltb_spec len (110 + nl + sz)) as [Hlt|Hfit]; [eexists; split; [done|]; by left|].
  assert (Hidx : - 1 ≤ s64 (u64 (nl - 1)) ≤ nl - 1 ∨ (nl = 0 ∧ s64 (u64 (nl - 1)) = -1)).
  { destruct (Z.eq_dec nl 0) as [->|Hne]; [right; split; reflexivity|left].
    rewrite u64_small by lia. unfold s64. rewrite Z.mod_small by lia. lia. }
  destruct (Hm (a + 110 + s64 (u64 (nl - 1)))) as [lst Hlst]; [lia|]. rewrite Hlst. cbn [mbind option_bind].
  destruct (negb (lst =? 0)); [eexists; split; [done|]; by left|].
  assert (Htr : ∃ t, (if 11 <=? nl then cpio_strncmp fuel (λ i, rd m (a + 110 + i)) (cstr CPIO_FOOTER_MAGIC) 11
    else Some 1) = Some t).
  { destruct (Z.leb_spec 11 nl); [|by eexists]. apply strncmp_safe.
    - intros j Hj. apply Hm. lia.
    - intros j Hj. apply lookup_lt_is_Some. simpl. lia.
    - lia.
    - lia. }
  destruct Htr as [t ->]. cbn [mbind option_bind]. destruct (t =? 0); [eexists; split; [done|]; by right|].
  eexists. split; [done|]. cbn [filename data next filesize]. rewrite (u64_small (a + 110 + nl)) by lia.
  assert (Hal : ∀ n, (n + (- n) mod 4) mod 4 = 0).
  { intros n. pose proof (Z.div_mod (- n) 4). replace (n + (- n) mod 4) with ((- (- n / 4)) * 4) by lia. apply Z_mod_mult. }
  rewrite (align_up_4 (a + 110 + nl)) by lia. pose proof (Z.mod_pos_bound (- (a + 110 + nl)) 4).
  set (d := a + 110 + nl + (- (a + 110 + nl)) mod 4) in *.
  rewrite (u64_small (d + sz)) by lia. rewrite (align_up_4 (d + sz)) by lia.
  pose proof (Z.mod_pos_bound (- (d + sz)) 4). split_and!; try apply Hal; lia.
Qed.

(** [cpio_len_next] does not subtract the entry from the remaining length,
    so in an archive without a trailer the search goes on past its end: after
    the only entry it reads outside of the archive. *)
Theorem cpio_overread base e fuel :
  entry_ok e → e_name e ≠ CPIO_FOOTER_MAGIC → 0 ≤ base → base mod 4 = 0 →
  base + zlen (encode_entry e) < 2 ^ 64 - 4 → (11 < fuel)%nat → (length (e_name e) < fuel)%nat →
  let m := mk_mem base (encode_entry e) in
  let len := zlen (encode_entry e) in
  cpio_len_next len base (base + len) = len ∧ rd m (base + len) = None ∧
  cpio_get_entry fuel m base len 1 = None.
Proof.
  intros He Hne Hb Hb4 Hmax Hf Hfn m len. pose proof (zlen_nonneg (encode_entry e)).
  assert (Hnext : cpio_len_next len base (base + len) = len).
  { unfold cpio_len_next, len. rewrite u64_small by lia. by rewrite (proj2 (Z.ltb_ge _ _)) by lia. }
  assert (Hend : rd m (base + len) = None).
  { unfold rd, m, len. cbn [m_base m_bytes]. rewrite decide_True by lia. apply lookup_ge_None_2. unfold zlen. lia. }
  split_and!; [done|done|]. unfold cpio_get_entry. change (1 <? 0) with false. cbv iota.
  change (Z.to_nat 1) with 1%nat. cbn [cpio_get_entry_loop].
  rewrite (parse_entry fuel m base len e); [|done|apply bytes_at_whole|done|done|done|unfold len; lia|done|done].
  rewrite decide_False by done. cbn [mbind option_bind]. change (next (info_at base e)) with (base + len). rewrite Hnext.
  assert (Hbad : cpio_parse_header fuel m (base + len) len = None); [|by rewrite Hbad].
  unfold cpio_parse_header. rewrite (proj2 (Z.ltb_ge _ _)).
  - assert (Hc : cpio_strncmp fuel (λ i, rd m (base + len + i)) (cstr CPIO_HEADER_MAGIC) 6 = None); [|by rewrite Hc].
    unfold cpio_strncmp. destruct fuel as [|fuel]; [done|]. cbn [cpio_strncmp_loop]. change (0 <? 6) with true. cbv iota.
    by rewrite (Z.add_0_r (base + len)), Hend.
  - unfold len, sizeof_cpio_header. rewrite zlen_entry, zlen_named by done.
    pose proof (zlen_nonneg (e_name e)). pose proof (zlen_nonneg (e_data e)).
    pose proof (Z.mod_pos_bound (- (110 + (zlen (e_name e) + 1))) 4). pose proof (Z.mod_pos_bound (- zlen (e_data e)) 4). lia.
Qed.

(** ** Examples *)

Module CpioExample.

Definition file (name : string) (contents : list Z) : entry :=
  mk_entry (bytes_of name) contents (replicate 48 (chr "0"%char)) (replicate 32 (chr "0"%char)) (replicate 8 (chr "0"%char)).
Definition files : list entry := [file "pm" [1; 2; 3]; file "vfs" [7]].
Definition trailer : entry := file "TRAILER!!!" [].

Ltac file_ok := split_and!; try done; repeat constructor; vm_compute; congruence.

Lemma archive_ok : archive 4096 files trailer.
Proof.
  split; [|split; [file_ok|split; [done|split_and!; done]]].
  constructor; [split; [file_ok|done]|]. constructor; [split; [file_ok|done]|constructor].
Qed.

Lemma cpio_roundtrip_witness :
  ∃ info, cpio_get_file 3 12 (mk_mem 4096 (encode files trailer)) 4096 (zlen (encode files trailer)) (bytes_of "vfs") =
    Some (inr info) ∧ filesize info = 1 ∧ rd (mk_mem 4096 (encode files trailer)) (data info) = Some 7.
Proof.
  destruct (cpio_roundtrip 4096 files trailer 3 12) as [Hfile _]; [exact archive_ok|lia|done|simpl; lia|].
  specialize (Hfile (bytes_of "vfs")). destruct Hfile as (info & Hrun & _ & Hsz & Hdata);
    [repeat constructor; vm_compute; congruence|done|].
  exists info. split; [exact Hrun|]. split; [exact Hsz|]. rewrite <-(Hdata 0%nat 7 eq_refl). f_equal. lia.
Defined.

Lemma cpio_parse_header_safe_witness :
  ∃ r, cpio_parse_header 12 (mk_mem 4096 (replicate 200 48)) 4096 200 = Some r.
Proof.
  destruct (cpio_parse_header_safe 12 (mk_mem 4096 (replicate 200 48)) 4096 200) as (r & Hr & _);
    [lia|lia|lia| |lia|by exists r].
  intros i Hi. unfold rd. cbn [m_base m_bytes]. rewrite decide_True by lia. apply lookup_lt_is_Some. rewrite length_replicate. lia.
Defined.

Lemma cpio_overread_witness :
  cpio_get_entry 12 (mk_mem 4096 (encode_entry (file "pm" [1; 2; 3]))) 4096 (zlen (encode_entry (file "pm" [1; 2; 3]))) 1 = None.
Proof. apply (cpio_overread 4096 (file "pm" [1; 2; 3]) 12); [file_ok|done|lia|done|done|lia|simpl; lia]. Defined.

End CpioExample.
