(* ===== verification/PageAlloc.v ===== *)
(** * The page allocator ([kernel/mm/page_alloc.c])

    The zoned buddy allocator with its per-processor lists.  A [struct page] is
    named by its page frame number, so that [page + n] is addition; [mem_map]
    holds the pages that exist ([pfn_valid]).  A [BUG_ON], the dereference of a
    page that does not exist and the removal of a page from a list that it is
    not on are [None].  The zone lock and the disabled interrupts make each
    operation atomic. *)
From stdpp Require Import functions gmap.
From S2P Require Import Prelude.

(** ** Data *)

Definition MAX_ORDER : nat := 11.

(** Bits of [page->flags] ([enum pageflags]). *)
Definition PG_locked : Z := 1.
Definition PG_reserved : Z := 2.
Definition PG_head : Z := 4.
Definition PG_slub : Z := 8.
Definition PG_active : Z := 16.
Definition PAGE_FLAGS_CHECK_AT_FREE : Z := Z.lor (Z.lor PG_slub PG_active) PG_locked.
(** [(1 << NR_PAGEFLAGS) - 1], with [__PG_HWPOISON] 0. *)
Definition PAGE_FLAGS_CHECK_AT_PREP : Z := 31.

Definition PAGE_TYPE_BASE : Z := 0xf0000000.
Definition PG_buddy : Z := 0x80.

(** [struct page].  The word [flags] is kept in two fields, its page flags and
    the zone in its upper bits; [pg_tail] is [compound_head] when its lowest bit
    is set (the word is shared with [lru.next], whose lowest bit is clear);
    [pg_type] is [page_type], the same word as [_mapcount]. *)
Record page := mk_page {
  pg_flags : Z; pg_zone : nat; pg_type : Z; pg_refcount : Z;
  pg_private : Z; pg_tail : option Z; pg_compound_order : Z }.

Record free_area := mk_area { free_list : list Z; nr_free : Z }.
Record per_cpu_pages := mk_pcp { pcp_count : Z; pcp_high : Z; pcp_batch : Z; pcp_lists : list Z }.
Record zone := mk_zone {
  zn_initialized : bool; zn_free_area : nat → free_area; zn_pageset : nat → per_cpu_pages; zn_managed : Z }.
Record node := mk_node { mem_map : gmap Z page; node_zones : nat → zone }.

(** ** Commands *)

Definition K (A : Type) : Type := node → option (A * node).
Definition kret {A} (a : A) : K A := λ nd, Some (a, nd).
Definition kbug {A} : K A := λ _, None.
Definition kbind {A B} (m : K A) (k : A → K B) : K B := λ nd, '(a, nd) ← m nd; k a nd.

Declare Scope K_scope.
Delimit Scope K_scope with K.
Notation "'let!' x := m 'in' k" := (kbind m (λ x, k)) (at level 200, x name, m at level 100, k at level 200) : K_scope.
Notation "'do!' m 'in' k" := (kbind m (λ _, k)) (at level 200, m at level 100, k at level 200) : K_scope.
Open Scope K_scope.

Definition BUG_ON (b : bool) : K unit := if b then kbug else kret tt.

Definition get_page (p : Z) : K page :=
  λ nd, pg ← mem_map nd !! p; Some (pg, nd).
Definition upd_page (p : Z) (f : page → page) : K unit :=
  λ nd, pg ← mem_map nd !! p; Some (tt, mk_node (<[p := f pg]> (mem_map nd)) (node_zones nd)).
Definition pfn_valid (p : Z) : K bool := λ nd, Some (bool_decide (is_Some (mem_map nd !! p)), nd).

Definition get_zone (zi : nat) : K zone := λ nd, Some (node_zones nd zi, nd).
Definition upd_zone (zi : nat) (f : zone → zone) : K unit :=
  λ nd, Some (tt, mk_node (mem_map nd) (<[zi := f (node_zones nd zi)]> (node_zones nd))).

(** [&zone->free_area[o]] *)
Definition get_area (zi o : nat) : K free_area :=
  if decide (o < MAX_ORDER)%nat then let! z := get_zone zi in kret (zn_free_area z o) else kbug.
Definition set_area (zi o : nat) (a : free_area) : K unit :=
  if decide (o < MAX_ORDER)%nat then
    upd_zone zi (λ z, mk_zone (zn_initialized z) (<[o := a]> (zn_free_area z)) (zn_pageset z) (zn_managed z))
  else kbug.
Definition get_pcp (zi cpu : nat) : K per_cpu_pages := let! z := get_zone zi in kret (zn_pageset z cpu).
Definition set_pcp (zi cpu : nat) (p : per_cpu_pages) : K unit :=
  upd_zone zi (λ z, mk_zone (zn_initialized z) (zn_free_area z) (<[cpu := p]> (zn_pageset z)) (zn_managed z)).

(** ** Page fields *)

Definition set_flags (fl : Z) (pg : page) : page :=
  mk_page fl (pg_zone pg) (pg_type pg) (pg_refcount pg) (pg_private pg) (pg_tail pg) (pg_compound_order pg).
Definition set_type (t : Z) (pg : page) : page :=
  mk_page (pg_flags pg) (pg_zone pg) t (pg_refcount pg) (pg_private pg) (pg_tail pg) (pg_compound_order pg).
Definition set_page_count (v : Z) (pg : page) : page :=
  mk_page (pg_flags pg) (pg_zone pg) (pg_type pg) v (pg_private pg) (pg_tail pg) (pg_compound_order pg).
Definition set_page_private (v : Z) (pg : page) : page :=
  mk_page (pg_flags pg) (pg_zone pg) (pg_type pg) (pg_refcount pg) v (pg_tail pg) (pg_compound_order pg).
Definition set_tail (t : option Z) (pg : page) : page :=
  mk_page (pg_flags pg) (pg_zone pg) (pg_type pg) (pg_refcount pg) (pg_private pg) t (pg_compound_order pg).
Definition set_corder (o : Z) (pg : page) : page :=
  mk_page (pg_flags pg) (pg_zone pg) (pg_type pg) (pg_refcount pg) (pg_private pg) (pg_tail pg) o.

Definition PageTail (pg : page) : bool := bool_decide (is_Some (pg_tail pg)).
Definition PageHead (pg : page) : bool := negb (Z.land (pg_flags pg) PG_head =? 0).
Definition PageCompound (pg : page) : bool := PageHead pg || PageTail pg.
Definition compound_head (p : Z) (pg : page) : Z := default p (pg_tail pg).

(** [PAGE_TYPE_OPS(Buddy, buddy)] *)
Definition PageType (pg : page) (flag : Z) : bool := Z.land (pg_type pg) (Z.lor PAGE_TYPE_BASE flag) =? PAGE_TYPE_BASE.
Definition PageBuddy (pg : page) : bool := PageType pg PG_buddy.
Definition __SetPageBuddy (p : Z) : K unit :=
  let! pg := get_page p in
  do! BUG_ON (negb (PageType pg 0)) in
  upd_page p (set_type (Z.land (pg_type pg) (u32 (Z.lnot PG_buddy)))).
Definition __ClearPageBuddy (p : Z) : K unit :=
  let! pg := get_page p in
  do! BUG_ON (negb (PageBuddy pg)) in
  upd_page p (set_type (Z.lor (pg_type pg) PG_buddy)).

(** [_mapcount] is [-1] *)
Definition page_mapcount_reset (pg : page) : page := set_type (2 ^ 32 - 1) pg.
Definition mapcount_none (pg : page) : bool := pg_type pg =? 2 ^ 32 - 1.

Definition set_page_order (p : Z) (order : nat) : K unit :=
  do! upd_page p (set_page_private (Z.of_nat order)) in __SetPageBuddy p.
Definition rmv_page_order (p : Z) : K unit :=
  do! __ClearPageBuddy p in upd_page p (set_page_private 0).

(** [page_count] reads the head of a compound page. *)
Definition page_count (p : Z) : K Z :=
  let! pg := get_page p in let! h := get_page (compound_head p pg) in kret (pg_refcount h).

(** ** Lists: linking a page writes [lru.next], which clears the tail bit *)

Definition list_add (zi o : nat) (p : Z) : K unit :=
  let! a := get_area zi o in
  do! upd_page p (set_tail None) in
  set_area zi o (mk_area (p :: free_list a) (nr_free a)).
Definition list_add_tail (zi o : nat) (p : Z) : K unit :=
  let! a := get_area zi o in
  do! upd_page p (set_tail None) in
  set_area zi o (mk_area (free_list a ++ [p]) (nr_free a)).
Definition list_del (zi o : nat) (p : Z) : K unit :=
  let! a := get_area zi o in
  if decide (p ∈ free_list a) then
    do! upd_page p (set_tail None) in
    set_area zi o (mk_area (filter (.≠ p) (free_list a)) (nr_free a))
  else kbug.
Definition nr_free_add (zi o : nat) (n : Z) : K unit :=
  let! a := get_area zi o in set_area zi o (mk_area (free_list a) (u64 (nr_free a + n))).

(** ** Freeing to the buddy lists *)

Definition bsz (o : nat) : Z := 2 ^ Z.of_nat o.

Definition __find_buddy_pfn (pfn : Z) (order : nat) : Z := Z.lxor pfn (bsz order).

Definition page_is_buddy (p buddy : Z) (order : nat) : K bool :=
  let! b := get_page buddy in
  if PageBuddy b && (u32 (pg_private b) =? Z.of_nat order) then
    let! pg := get_page p in
    if negb (pg_zone pg =? pg_zone b)%nat then kret false else
    let! c := page_count buddy in
    do! BUG_ON (negb (c =? 0)) in
    kret true
  else kret false.

(** The merging loop: the page, its order and the last [buddy_pfn] (unset when
    the loop made no turn); [n] counts the orders left. *)
Fixpoint merge_loop (n : nat) (zi : nat) (pfn : Z) (order : nat) (buddy : option Z) : K (Z * nat * option Z) :=
  match n with
  | O => kret (pfn, order, buddy)
  | S n =>
      let buddy_pfn := __find_buddy_pfn pfn order in
      let! valid := pfn_valid buddy_pfn in
      if negb valid then kret (pfn, order, Some buddy_pfn) else
      let! ok := page_is_buddy pfn buddy_pfn order in
      if negb ok then kret (pfn, order, Some buddy_pfn) else
      do! list_del zi order buddy_pfn in
      do! nr_free_add zi order (-1) in
      do! rmv_page_order buddy_pfn in
      merge_loop n zi (Z.land buddy_pfn pfn) (S order) (Some buddy_pfn)
  end.

(** Whether the page goes to the tail: the buddy of the next order is free. *)
Definition higher_is_free (pfn : Z) (order : nat) (buddy : option Z) : K bool :=
  if decide (order < MAX_ORDER - 2)%nat then
    match buddy with
    | None => kbug
    | Some buddy_pfn =>
        let! valid := pfn_valid buddy_pfn in
        if negb valid then kret false else
        let combined_pfn := Z.land buddy_pfn pfn in
        let buddy_pfn := __find_buddy_pfn combined_pfn (S order) in
        let! valid := pfn_valid buddy_pfn in
        if negb valid then kret false else page_is_buddy combined_pfn buddy_pfn (S order)
    end
  else kret false.

Definition __free_one_page (zi : nat) (pfn : Z) (order : nat) : K unit :=
  let! z := get_zone zi in
  do! BUG_ON (negb (zn_initialized z)) in
  let! pg := get_page pfn in
  do! BUG_ON (negb (Z.land (pg_flags pg) PAGE_FLAGS_CHECK_AT_PREP =? 0)) in
  do! BUG_ON (negb (Z.land pfn (bsz order - 1) =? 0)) in
  let! r := merge_loop (MAX_ORDER - 1 - order) zi pfn order None in
  let '(pfn, order, buddy) := r in
  do! set_page_order pfn order in
  let! tail := higher_is_free pfn order buddy in
  do! (if tail : bool then list_add_tail zi order pfn else list_add zi order pfn) in
  nr_free_add zi order 1.

(** ** Allocating from the buddy lists *)

(** [n] orders to go down from [high] to [low]. *)
Fixpoint expand (n : nat) (zi : nat) (p : Z) (high : nat) : K unit :=
  match n with
  | O => kret tt
  | S n =>
      let high := pred high in
      do! list_add zi high (p + bsz high) in
      do! nr_free_add zi high 1 in
      do! set_page_order (p + bsz high) high in
      expand n zi p high
  end.

(** [n] orders left to look at from [current_order]. *)
Fixpoint rmqueue_scan (n : nat) (zi order current_order : nat) : K (option Z) :=
  match n with
  | O => kret None
  | S n =>
      let! a := get_area zi current_order in
      match head (free_list a) with
      | None => rmqueue_scan n zi order (S current_order)
      | Some p =>
          do! list_del zi current_order p in
          do! rmv_page_order p in
          do! nr_free_add zi current_order (-1) in
          do! expand (current_order - order) zi p current_order in
          kret (Some p)
      end
  end.
Definition __rmqueue_smallest (zi order : nat) : K (option Z) := rmqueue_scan (MAX_ORDER - order) zi order order.
Definition __rmqueue (zi order : nat) : K (option Z) := __rmqueue_smallest zi order.

(** ** Checks *)

Definition page_expected_state (pg : page) (check_flags : Z) : bool :=
  mapcount_none pg && (Z.lor (pg_refcount pg) (Z.land (pg_flags pg) check_flags) =? 0).

(** [bad_page] prints and resets [_mapcount]. *)
Definition bad_page (p : Z) : K unit := upd_page p page_mapcount_reset.

Definition free_pages_check (p : Z) : K bool :=
  let! pg := get_page p in
  if page_expected_state pg PAGE_FLAGS_CHECK_AT_FREE then kret false else do! bad_page p in kret true.
Definition check_new_page (p : Z) : K bool :=
  let! pg := get_page p in
  if page_expected_state pg PAGE_FLAGS_CHECK_AT_PREP then kret false else do! bad_page p in kret true.

Fixpoint check_new_pages (n : nat) (p : Z) : K bool :=
  match n with
  | O => kret false
  | S n => let! bad := check_new_page p in if bad : bool then kret true else check_new_pages n (p + 1)
  end.

Definition free_tail_pages_check (head p : Z) : K bool :=
  let! pg := get_page p in
  let! bad := (if negb (PageTail pg) then do! bad_page p in kret true
               else if negb (compound_head p pg =? head) then do! bad_page p in kret true
               else kret false) in
  do! upd_page p (set_tail None) in
  kret bad.

(** The loop over the tail pages; the result is whether all were good. *)
Fixpoint free_tails (n : nat) (compound : bool) (head p : Z) : K bool :=
  match n with
  | O => kret true
  | S n =>
      let! bad1 := (if compound then free_tail_pages_check head p else kret false) in
      let! bad2 := free_pages_check p in
      do! (if bad2 : bool then kret tt
           else upd_page p (λ pg, set_flags (Z.land (pg_flags pg) (Z.lnot PAGE_FLAGS_CHECK_AT_PREP)) pg)) in
      let! rest := free_tails n compound head (p + 1) in
      kret (negb bad1 && negb bad2 && rest)
  end.

Definition compound_order (p : Z) : K Z :=
  let! pg := get_page p in
  if PageHead pg then let! t := get_page (p + 1) in kret (pg_compound_order t) else kret 0.

Definition free_pages_prepare (p : Z) (order : nat) (check_free : bool) : K bool :=
  let! pg := get_page p in
  do! BUG_ON (PageTail pg) in
  let! good := (if decide (order = 0)%nat then kret true else
                let compound := PageCompound pg in
                let! co := compound_order p in
                do! BUG_ON (compound && negb (co =? Z.of_nat order)) in
                free_tails (Z.to_nat (bsz order) - 1) compound p (p + 1)) in
  let! bad := (if check_free then free_pages_check p else kret false) in
  if good && negb bad then
    do! upd_page p (λ pg, set_flags (Z.land (pg_flags pg) (Z.lnot PAGE_FLAGS_CHECK_AT_PREP)) pg) in
    kret true
  else kret false.
Definition free_pcp_prepare (p : Z) : K bool := free_pages_prepare p 0 true.

(** ** Per-processor lists *)

Fixpoint free_list_pages (zi : nat) (l : list Z) : K unit :=
  match l with
  | [] => kret tt
  | p :: l => do! __free_one_page zi p 0 in free_list_pages zi l
  end.

(** The first loop moves [count] pages from the end of the list; each turn takes
    the last entry of the list, whose links an empty list does not have. *)
Fixpoint pcp_take (count : nat) (zi cpu : nat) (head : list Z) : K (list Z) :=
  match count with
  | O => kret head
  | S count =>
      let! pcp := get_pcp zi cpu in
      match last (pcp_lists pcp) with
      | None => kbug
      | Some p =>
          do! set_pcp zi cpu (mk_pcp (s32 (pcp_count pcp - 1)) (pcp_high pcp) (pcp_batch pcp) (removelast (pcp_lists pcp))) in
          pcp_take count zi cpu (head ++ [p])
      end
  end.
(** A negative count runs off the list. *)
Definition free_pcppages_bulk (zi cpu : nat) (count : Z) : K unit :=
  if count <? 0 then kbug else
  let! head := pcp_take (Z.to_nat count) zi cpu [] in
  free_list_pages zi head.

(** [page_zone(page)] *)
Definition page_zone (p : Z) : K nat := let! pg := get_page p in kret (pg_zone pg).

Definition free_one_page (zi : nat) (p : Z) (order : nat) : K unit := __free_one_page zi p order.

Definition __free_pages_ok (p : Z) (order : nat) : K unit :=
  let! ok := free_pages_prepare p order true in
  if negb ok then kret tt else
  let! zi := page_zone p in
  free_one_page zi p order.

Definition free_compound_page (p : Z) : K unit :=
  let! o := compound_order p in __free_pages_ok p (Z.to_nat o).

Definition free_unref_page_prepare (p : Z) : K bool := free_pcp_prepare p.

Definition free_unref_page_commit (cpu : nat) (p : Z) : K unit :=
  let! zi := page_zone p in
  let! pcp := get_pcp zi cpu in
  do! upd_page p (set_tail None) in
  let pcp := mk_pcp (s32 (pcp_count pcp + 1)) (pcp_high pcp) (pcp_batch pcp) (p :: pcp_lists pcp) in
  do! set_pcp zi cpu pcp in
  if pcp_count pcp >=? pcp_high pcp then free_pcppages_bulk zi cpu (pcp_batch pcp) else kret tt.

Definition free_unref_page (cpu : nat) (p : Z) : K unit :=
  let! ok := free_unref_page_prepare p in
  if negb ok then kret tt else free_unref_page_commit cpu p.

Definition drain_pages_zone (cpu zi : nat) : K bool :=
  let! pcp := get_pcp zi cpu in
  if pcp_count pcp =? 0 then kret false
  else do! free_pcppages_bulk zi cpu (pcp_count pcp) in kret true.

(** Up to [n] pages of the order to the end of the list. *)
Fixpoint rmqueue_bulk (n : nat) (zi order : nat) (l : list Z) : K (list Z) :=
  match n with
  | O => kret l
  | S n =>
      let! p := __rmqueue zi order in
      match p with
      | None => kret l
      | Some p => rmqueue_bulk n zi order (l ++ [p])
      end
  end.

(** The loop ends when a page passes the check or there is none; [n] bounds the
    bad pages that are dropped. *)
Fixpoint __rmqueue_pcplist (n : nat) (zi cpu : nat) : K (option Z) :=
  match n with
  | O => kbug
  | S n =>
      let! pcp := get_pcp zi cpu in
      do! (match pcp_lists pcp with
           | [] => let! l := rmqueue_bulk (Z.to_nat (pcp_batch pcp)) zi 0 [] in
                   set_pcp zi cpu (mk_pcp (s32 (pcp_count pcp + Z.of_nat (length l))) (pcp_high pcp) (pcp_batch pcp) l)
           | _ => kret tt
           end) in
      let! pcp := get_pcp zi cpu in
      match pcp_lists pcp with
      | [] => kret None
      | p :: l =>
          do! set_pcp zi cpu (mk_pcp (s32 (pcp_count pcp - 1)) (pcp_high pcp) (pcp_batch pcp) l) in
          let! bad := check_new_page p in
          if bad : bool then __rmqueue_pcplist n zi cpu else kret (Some p)
      end
  end.
Definition rmqueue_pcplist (n : nat) (zi cpu : nat) : K (option Z) := __rmqueue_pcplist n zi cpu.

Fixpoint rmqueue_loop (n : nat) (zi order : nat) : K (option Z) :=
  match n with
  | O => kbug
  | S n =>
      let! p := __rmqueue_smallest zi order in
      match p with
      | None => kret None
      | Some p =>
          let! bad := check_new_pages (Z.to_nat (bsz order)) p in
          if bad : bool then rmqueue_loop n zi order else kret (Some p)
      end
  end.
Definition rmqueue (n : nat) (zi cpu order : nat) : K (option Z) :=
  if decide (order = 0)%nat then rmqueue_pcplist n zi cpu else rmqueue_loop n zi order.

(** ** Handing out a block *)

Definition set_page_refcounted (p : Z) : K unit :=
  let! pg := get_page p in
  do! BUG_ON (PageTail pg) in
  do! BUG_ON (negb (pg_refcount pg =? 0)) in
  upd_page p (set_page_count 1).

Definition post_alloc_hook (p : Z) : K unit :=
  do! upd_page p (set_page_private 0) in set_page_refcounted p.

Fixpoint prep_tails (n : nat) (head p : Z) : K unit :=
  match n with
  | O => kret tt
  | S n =>
      do! upd_page p (set_page_count 0) in
      do! upd_page p (set_tail (Some head)) in
      prep_tails n head (p + 1)
  end.
Definition prep_compound_page (p : Z) (order : nat) : K unit :=
  do! upd_page (p + 1) (set_corder (Z.of_nat order)) in
  do! upd_page p (λ pg, set_flags (Z.lor (pg_flags pg) PG_head) pg) in
  prep_tails (Z.to_nat (bsz order) - 1) p (p + 1).

(** Clearing the contents of the pages for [__GFP_ZERO] is not modelled. *)
Definition prep_new_page (p : Z) (order : nat) : K unit :=
  do! post_alloc_hook p in
  if decide (order = 0)%nat then kret tt else prep_compound_page p order.

(** The loop over the other processors: the result of the last one drained. *)
Fixpoint drain_others (cpus : list nat) (me zi : nat) (train : bool) : K bool :=
  match cpus with
  | [] => kret train
  | cpu :: cpus =>
      if decide (cpu = me) then drain_others cpus me zi train
      else let! train := drain_pages_zone cpu zi in drain_others cpus me zi train
  end.

(** [n] bounds the retries and the bad pages. *)
Fixpoint get_page_from_freelist (n : nat) (cpus : list nat) (me zi order : nat) (train : bool) : K (option Z) :=
  match n with
  | O => kbug
  | S n' =>
      let! p := rmqueue n zi me order in
      match p with
      | Some p => do! prep_new_page p order in kret (Some p)
      | None =>
          let! train := drain_others cpus me zi train in
          if train : bool then get_page_from_freelist n' cpus me zi order train else kret None
      end
  end.

Definition __GFP_DMA : Z := 1.
Definition __GFP_MOVABLE : Z := 2.
Definition ZONE_DMA : nat := 0.
Definition ZONE_NORMAL : nat := 1.
Definition ZONE_MOVABLE : nat := 2.
Definition gfp_zone (flags : Z) : nat :=
  if negb (Z.land __GFP_DMA flags =? 0) then ZONE_DMA
  else if negb (Z.land __GFP_MOVABLE flags =? 0) then ZONE_MOVABLE
  else ZONE_NORMAL.

Definition __alloc_pages (n : nat) (cpus : list nat) (me : nat) (gfp_mask : Z) (order : nat) : K (option Z) :=
  if decide (MAX_ORDER ≤ order)%nat then kret None
  else get_page_from_freelist n cpus me (gfp_zone gfp_mask) order false.

(** ** Releasing *)

Definition put_page_testzero (p : Z) : K bool :=
  let! pg := get_page p in
  do! BUG_ON (pg_refcount pg =? 0) in
  do! upd_page p (set_page_count (s32 (pg_refcount pg - 1))) in
  kret (s32 (pg_refcount pg - 1) =? 0).

Definition free_the_page (cpu : nat) (p : Z) (order : nat) : K unit :=
  if decide (order = 0)%nat then free_unref_page cpu p else __free_pages_ok p order.

Definition __free_pages (cpu : nat) (p : Z) (order : nat) : K unit :=
  let! zero := put_page_testzero p in
  if zero : bool then free_the_page cpu p order else kret tt.

(** ** Counting and initialisation *)

Definition nr_zone_free_pages (z : zone) : Z :=
  foldl (λ r o, u64 (r + nr_free (zn_free_area z o) * bsz o)) 0 (seq 0 MAX_ORDER).

(** The three zones; the sums are of [unsigned long]. *)
Definition MAX_NR_ZONES : nat := 3.
Definition nr_free_pages (nd : node) : Z :=
  foldl (λ r zi, u64 (r + nr_zone_free_pages (node_zones nd zi))) 0 (seq 0 MAX_NR_ZONES).
Definition nr_managed_pages (nd : node) : Z :=
  foldl (λ r zi, u64 (r + zn_managed (node_zones nd zi))) 0 (seq 0 MAX_NR_ZONES).
Definition nr_zone_percpu_cache_pages (cpus : list nat) (z : zone) : Z :=
  foldl (λ r cpu, u64 (r + pcp_count (zn_pageset z cpu))) 0 cpus.
Definition nr_percpu_cache_pages (nd : node) (cpu : nat) : Z :=
  foldl (λ r zi, u64 (r + pcp_count (zn_pageset (node_zones nd zi) cpu))) 0 (seq 0 MAX_NR_ZONES).

Definition zone_init_free_lists (z : zone) : zone :=
  mk_zone (zn_initialized z) (λ _, mk_area [] 0) (zn_pageset z) (zn_managed z).

Definition pageset_init (p : per_cpu_pages) : per_cpu_pages := mk_pcp 0 0 0 [].
Definition pageset_update (p : per_cpu_pages) (high batch : Z) : per_cpu_pages :=
  mk_pcp (pcp_count p) (s32 high) (s32 batch) (pcp_lists p).
Definition pageset_set_batch (p : per_cpu_pages) (batch : Z) : per_cpu_pages :=
  pageset_update p (u64 (6 * batch)) (Z.max 1 (u64 (1 * batch))).
Definition zone_batchsize (z : zone) : Z :=
  let batch := s32 (zn_managed z / 1024) in
  let batch := if u64 (batch * PAGE_SIZE) >? 1024 * 1024 then 1024 * 1024 / PAGE_SIZE else batch in
  let batch := Z.quot batch 4 in
  let batch := if batch <? 1 then 1 else batch in
  2 ^ Z.log2 (batch + Z.quot batch 2) - 1.
Definition zone_pageset_init (z : zone) (cpu : nat) : zone :=
  mk_zone (zn_initialized z) (zn_free_area z)
    (<[cpu := pageset_set_batch (pageset_init (zn_pageset z cpu)) (zone_batchsize z)]> (zn_pageset z)) (zn_managed z).

(** ** Handing the boot memory over *)

(** [__init_single_page]: a zeroed page of the zone with one reference. *)
Definition __init_single_page (zi : nat) : page := page_mapcount_reset (set_page_count 1 (mk_page 0 zi 0 0 0 None 0)).

Fixpoint boot_pages (n : nat) (p : Z) : K unit :=
  match n with
  | O => kret tt
  | S n =>
      let! pg := get_page p in
      do! BUG_ON (PageCompound pg) in
      do! upd_page p (λ pg, set_page_count 0 (set_flags (Z.land (pg_flags pg) (Z.lnot PG_reserved)) pg)) in
      boot_pages n (p + 1)
  end.

Definition __free_pages_boot_core (cpu : nat) (p : Z) (order : nat) : K unit :=
  do! boot_pages (Z.to_nat (bsz order)) p in
  let! zi := page_zone p in
  do! upd_zone zi (λ z, mk_zone (zn_initialized z) (zn_free_area z) (zn_pageset z) (zn_managed z + bsz order)) in
  do! set_page_refcounted p in
  __free_pages cpu p order.
Definition memblock_free_pages (cpu : nat) (p : Z) (order : nat) : K unit := __free_pages_boot_core cpu p order.

(** The pages of a reserved region, from [start_pfn] on. *)
Fixpoint reserve_pages (n : nat) (p : Z) : K unit :=
  match n with
  | O => kret tt
  | S n =>
      let! valid := pfn_valid p in
      do! (if valid : bool then
             do! upd_page p (set_tail None) in
             let! pg := get_page p in
             do! BUG_ON (PageCompound pg) in
             upd_page p (λ pg, set_flags (Z.lor (pg_flags pg) PG_reserved) pg)
           else kret tt) in
      reserve_pages n (p + 1)
  end.
Definition reserve_bootmem_region (start_pfn end_pfn : Z) : K unit :=
  reserve_pages (Z.to_nat (end_pfn - start_pfn)) start_pfn.

Definition free_reserved_page (cpu : nat) (p : Z) : K unit :=
  let! pg := get_page p in
  do! BUG_ON (PageCompound pg) in
  do! upd_page p (λ pg, set_page_count 1 (set_flags (Z.land (pg_flags pg) (Z.lnot PG_reserved)) pg)) in
  let! zi := page_zone p in
  do! upd_zone zi (λ z, mk_zone (zn_initialized z) (zn_free_area z) (zn_pageset z) (zn_managed z + 1)) in
  __free_pages cpu p 0.

(** [__ffs(start)]: the lowest set bit ([start] is not 0). *)
Fixpoint ffs_loop (n : nat) (x : Z) (i : nat) : nat :=
  match n with
  | O => i
  | S n => if Z.testbit x (Z.of_nat i) then i else ffs_loop n x (S i)
  end.
Definition __ffs (x : Z) : nat := ffs_loop 64 x 0.

(** [while (start + (1UL << order) > end) order--;] *)
Fixpoint shrink_order (order : nat) (start end_ : Z) : option nat :=
  if start + bsz order >? end_ then
    match order with O => None | S order => shrink_order order start end_ end
  else Some order.

Fixpoint __free_pages_memory (n : nat) (cpu : nat) (start end_ : Z) : K unit :=
  match n with
  | O => if start <? end_ then kbug else kret tt
  | S n =>
      if start <? end_ then
        match shrink_order (Nat.min (MAX_ORDER - 1) (__ffs start)) start end_ with
        | None => kbug
        | Some order =>
            do! memblock_free_pages cpu start order in
            __free_pages_memory n cpu (start + bsz order) end_
        end
      else kret tt
  end.
