(* ===== verification/PageAllocFacts.v ===== *)
(** * The buddy lists: invariant and one-step lemmas

    Blocks are aligned ranges of [2 ^ order] page frames; the facts about
    buddies are about [xor] and [and] on aligned numbers.  The invariant of a
    zone says that the lists hold exactly the pages marked as buddies, that the
    blocks are made of clean pages, and that no two buddies are both free. *)
From stdpp Require Import functions gmap.
From S2P Require Import Prelude PageAlloc.

(** ** Blocks *)

Definition inb (p : Z) (o : nat) (q : Z) : Prop := p ≤ q < p + bsz o.
Definition aligned (p : Z) (o : nat) : Prop := (bsz o | p).

Lemma bsz_pos o : 0 < bsz o.
Proof. unfold bsz. apply Z.pow_pos_nonneg; lia. Qed.
Lemma bsz_S o : bsz (S o) = 2 * bsz o.
Proof. unfold bsz. rewrite Nat2Z.inj_succ, Z.pow_succ_r by lia. done. Qed.
Lemma bsz_add o d : bsz (o + d) = bsz o * bsz d.
Proof. unfold bsz. rewrite Nat2Z.inj_add, Z.pow_add_r by lia. done. Qed.
#[export] Hint Resolve bsz_pos : core.

Lemma inb_self p o : inb p o p.
Proof. pose proof (bsz_pos o). unfold inb. lia. Qed.

(** Aligned blocks that meet are nested. *)
Lemma nested p o p' o' q :
  aligned p o → aligned p' o' → (o ≤ o')%nat → inb p o q → inb p' o' q → p' ≤ p ∧ p + bsz o ≤ p' + bsz o'.
Proof.
  intros [k ->] [k' ->] Ho [H1 H2] [H3 H4]. replace o' with (o + (o' - o))%nat in * by lia.
  rewrite bsz_add in *. pose proof (bsz_pos o). pose proof (bsz_pos (o' - o)).
  assert (k < (k' + 1) * bsz (o' - o)) by nia. assert (k' * bsz (o' - o) < k + 1) by nia. nia.
Qed.

Lemma aligned_le p o o' : (o ≤ o')%nat → aligned p o' → aligned p o.
Proof. intros Ho [k ->]. exists (k * bsz (o' - o)). replace o' with (o + (o' - o))%nat at 1 by lia. rewrite bsz_add. lia. Qed.

Lemma aligned_add p o : aligned p o → aligned (p + bsz o) o.
Proof. intros [k ->]. exists (k + 1). lia. Qed.

(** ** Buddies *)

Lemma lxor_1 k : Z.lxor k 1 = if Z.even k then k + 1 else k - 1.
Proof.
  assert (Heven : ∀ m, Z.lxor (2 * m) 1 = 2 * m + 1).
  { intros m. symmetry. apply Z.add_nocarry_lxor. change 1 with (Z.ones 1) at 1. rewrite Z.land_ones by lia.
    rewrite Z.mul_comm. apply Z_mod_mult. }
  destruct (Z.even k) eqn:Hk.
  - apply Z.even_spec in Hk as [m ->]. apply Heven.
  - assert (Ho : Z.odd k = true) by (by rewrite <-Z.negb_even, Hk). apply Z.odd_spec in Ho as [m ->].
    replace (Z.lxor (2 * m + 1) 1) with (Z.lxor (Z.lxor (2 * m) 1) 1) by (by rewrite Heven).
    rewrite Z.lxor_assoc, Z.lxor_nilpotent, Z.lxor_0_r. lia.
Qed.

Lemma land_lxor_1 k : Z.land (Z.lxor k 1) k = 2 * (k / 2).
Proof.
  assert (Hm : ∀ m, Z.land (2 * m + 1) (2 * m) = 2 * m).
  { intros m. apply Z.bits_inj'. intros n Hn. rewrite Z.land_spec.
    destruct (Z.eq_dec n 0) as [->|]; [by rewrite Z.testbit_even_0, andb_false_r|].
    replace n with (Z.succ (n - 1)) by lia. rewrite Z.testbit_odd_succ, Z.testbit_even_succ by lia. apply andb_diag. }
  rewrite lxor_1. destruct (Z.even k) eqn:Hk.
  - apply Z.even_spec in Hk as [m ->]. rewrite Hm, (Z.mul_comm 2 m), Z.div_mul by lia. lia.
  - assert (Ho : Z.odd k = true) by (by rewrite <-Z.negb_even, Hk). apply Z.odd_spec in Ho as [m ->].
    replace (2 * m + 1 - 1) with (2 * m) by lia. rewrite Z.land_comm, Hm.
    replace (2 * m + 1) with (1 + m * 2) by lia. rewrite Z_div_plus by lia. change (1 / 2) with 0. lia.
Qed.

Lemma buddy_spec p o :
  aligned p o →
  let b := __find_buddy_pfn p o in
  let c := Z.land b p in
  aligned b o ∧ aligned c (S o) ∧ __find_buddy_pfn b o = p ∧
  ((p = c ∧ b = c + bsz o) ∨ (b = c ∧ p = c + bsz o)).
Proof.
  intros [k ->]. cbv zeta. unfold __find_buddy_pfn, bsz.
  assert (Hx : Z.lxor (k * 2 ^ Z.of_nat o) (2 ^ Z.of_nat o) = Z.lxor k 1 * 2 ^ Z.of_nat o).
  { rewrite <-(Z.mul_1_l (2 ^ Z.of_nat o)) at 2. rewrite <-!Z.shiftl_mul_pow2 by lia. symmetry. apply Z.shiftl_lxor. }
  assert (Hl : Z.land (Z.lxor k 1 * 2 ^ Z.of_nat o) (k * 2 ^ Z.of_nat o) = 2 * (k / 2) * 2 ^ Z.of_nat o).
  { rewrite <-!Z.shiftl_mul_pow2 by lia. rewrite <-Z.shiftl_land, land_lxor_1. done. }
  split_and!.
  - rewrite Hx. by exists (Z.lxor k 1).
  - rewrite Hx, Hl. unfold aligned. rewrite bsz_S. exists (k / 2). unfold bsz. lia.
  - by rewrite Z.lxor_assoc, Z.lxor_nilpotent, Z.lxor_0_r.
  - rewrite Hx, Hl, lxor_1. pose proof (Z.div_mod k 2). pose proof (Z.mod_pos_bound k 2).
    rewrite Zeven_mod in *. destruct (Z.eqb_spec (k mod 2) 0).
    + left. assert (k = 2 * (k / 2)) by lia. nia.
    + right. assert (k = 2 * (k / 2) + 1) by lia. nia.
Qed.

Lemma buddy_ne p o : aligned p o → __find_buddy_pfn p o ≠ p.
Proof. intros H. destruct (buddy_spec p o H) as (_ & _ & _ & [[? ->]|[? ?]]); pose proof (bsz_pos o); lia. Qed.

Lemma buddy_union p o q :
  aligned p o → inb (Z.land (__find_buddy_pfn p o) p) (S o) q ↔ inb p o q ∨ inb (__find_buddy_pfn p o) o q.
Proof.
  intros H. destruct (buddy_spec p o H) as (_ & _ & _ & Hc). unfold inb. rewrite bsz_S. destruct Hc as [[? ?]|[? ?]]; lia.
Qed.

(** The upper half of a block is the buddy of the lower one. *)
Lemma buddy_upper p o : aligned p (S o) → __find_buddy_pfn (p + bsz o) o = p ∧ __find_buddy_pfn p o = p + bsz o.
Proof.
  intros H. assert (Hp : aligned p o) by (apply (aligned_le p o (S o)); [lia|done]).
  assert (Hb : __find_buddy_pfn p o = p + bsz o).
  { destruct (buddy_spec p o Hp) as (_ & Hc & _ & Hcases). destruct Hcases as [[H1 H2]|[H1 H2]]; [by rewrite H2, <-H1|exfalso].
    destruct H as [k Hk]. destruct Hc as [k' Hk']. rewrite bsz_S in *. pose proof (bsz_pos o).
    assert (Hz : bsz o * (2 * (k - k') - 1) = 0) by lia. apply Z.mul_eq_0 in Hz. lia. }
  split; [|done]. destruct (buddy_spec p o Hp) as (_ & _ & Hi & _). by rewrite <-Hb.
Qed.

Lemma aligned_test p o : aligned p o → Z.land p (bsz o - 1) = 0.
Proof.
  intros [k ->]. unfold bsz. replace (2 ^ Z.of_nat o - 1) with (Z.ones (Z.of_nat o)) by (rewrite Z.ones_equiv; lia).
  rewrite Z.land_ones by lia. apply Z_mod_mult.
Qed.

(** ** Nodes as values *)

Definition nd_area (nd : node) (zi o : nat) : free_area := zn_free_area (node_zones nd zi) o.
Definition put_area (zi o : nat) (a : free_area) (nd : node) : node :=
  mk_node (mem_map nd)
    (<[zi := let z := node_zones nd zi in
             mk_zone (zn_initialized z) (<[o := a]> (zn_free_area z)) (zn_pageset z) (zn_managed z)]> (node_zones nd)).
Definition put_page (p : Z) (pg : page) (nd : node) : node := mk_node (<[p := pg]> (mem_map nd)) (node_zones nd).

Lemma kbind_run {A B} (m : K A) (k : A → K B) nd a nd' : m nd = Some (a, nd') → kbind m k nd = k a nd'.
Proof. intros H. unfold kbind. by rewrite H. Qed.
Lemma kbind_ret {A B} (a : A) (k : A → K B) nd : kbind (kret a) k nd = k a nd.
Proof. done. Qed.
Lemma kbind_assoc {A B C} (m : K A) (k : A → K B) (j : B → K C) nd :
  kbind (kbind m k) j nd = kbind m (λ a, kbind (k a) j) nd.
Proof. unfold kbind. by destruct (m nd) as [[]|]. Qed.
Lemma get_page_run p pg nd : mem_map nd !! p = Some pg → get_page p nd = Some (pg, nd).
Proof. intros H. unfold get_page. by rewrite H. Qed.
Lemma upd_page_run p pg f nd : mem_map nd !! p = Some pg → upd_page p f nd = Some (tt, put_page p (f pg) nd).
Proof. intros H. unfold upd_page. by rewrite H. Qed.
Lemma get_area_run zi o nd : (o < MAX_ORDER)%nat → get_area zi o nd = Some (nd_area nd zi o, nd).
Proof. intros H. unfold get_area. by rewrite decide_True. Qed.
Lemma set_area_run zi o a nd : (o < MAX_ORDER)%nat → set_area zi o a nd = Some (tt, put_area zi o a nd).
Proof. intros H. unfold set_area. by rewrite decide_True. Qed.
Lemma nr_free_add_run zi o n nd :
  (o < MAX_ORDER)%nat →
  nr_free_add zi o n nd =
    Some (tt, put_area zi o (mk_area (free_list (nd_area nd zi o)) (u64 (nr_free (nd_area nd zi o) + n))) nd).
Proof. intros H. unfold nr_free_add. rewrite (kbind_run _ _ _ _ _ (get_area_run zi o nd H)). by apply set_area_run. Qed.

Lemma area_put_eq nd zi o a : nd_area (put_area zi o a nd) zi o = a.
Proof. unfold nd_area, put_area. cbn [node_zones]. rewrite fn_lookup_insert. cbn [zn_free_area]. apply fn_lookup_insert. Qed.
Lemma area_put_ne nd zi o a o' : o ≠ o' → nd_area (put_area zi o a nd) zi o' = nd_area nd zi o'.
Proof. intros H. unfold nd_area, put_area. cbn [node_zones]. rewrite fn_lookup_insert. cbn [zn_free_area]. by apply fn_lookup_insert_ne. Qed.
Lemma area_put_page nd p pg zi o : nd_area (put_page p pg nd) zi o = nd_area nd zi o.
Proof. done. Qed.
Lemma put_page_id nd p pg : mem_map nd !! p = Some pg → put_page p pg nd = nd.
Proof. intros H. unfold put_page. destruct nd as [mm zs]. simpl in *. by rewrite insert_id. Qed.
Lemma put_page_twice nd p pg pg' : put_page p pg' (put_page p pg nd) = put_page p pg' nd.
Proof. unfold put_page. simpl. by rewrite insert_insert_eq. Qed.

(** ** The invariant of a zone *)

(** [page_type] of a page in no use, and of the first page of a free block. *)
Definition TYPE_NONE : Z := 2 ^ 32 - 1.
Definition TYPE_BUDDY : Z := 2 ^ 32 - 1 - 128.

(** A page that nobody uses. *)
Definition clean (zi : nat) (pg : page) : Prop :=
  pg_flags pg = 0 ∧ pg_zone pg = zi ∧ pg_type pg = TYPE_NONE ∧ pg_refcount pg = 0 ∧ pg_tail pg = None.
(** The first page of a free block. *)
Definition block_head (zi o : nat) (pg : page) : Prop :=
  pg_flags pg = 0 ∧ pg_zone pg = zi ∧ pg_type pg = TYPE_BUDDY ∧ pg_refcount pg = 0 ∧ pg_tail pg = None ∧
  pg_private pg = Z.of_nat o.

Definition free_block (nd : node) (zi o : nat) (p : Z) : Prop := p ∈ free_list (nd_area nd zi o).
(** The page [q] is in some free block. *)
Definition is_free (nd : node) (zi : nat) (q : Z) : Prop := ∃ o p, free_block nd zi o p ∧ inb p o q.

Record zone_inv (nd : node) (zi : nat) : Prop := {
  inv_size : (Z.of_nat (size (mem_map nd)) < 2 ^ 63)%Z;
  inv_order : ∀ o p, free_block nd zi o p → (o < MAX_ORDER)%nat;
  inv_count : ∀ o, NoDup (free_list (nd_area nd zi o)) ∧
                   nr_free (nd_area nd zi o) = Z.of_nat (length (free_list (nd_area nd zi o)));
  inv_align : ∀ o p, free_block nd zi o p → aligned p o;
  inv_head : ∀ o p, free_block nd zi o p → ∃ pg, mem_map nd !! p = Some pg ∧ block_head zi o pg;
  inv_rest : ∀ o p q, free_block nd zi o p → inb p o q → q ≠ p → ∃ pg, mem_map nd !! q = Some pg ∧ clean zi pg;
  inv_marked : ∀ p pg, mem_map nd !! p = Some pg → pg_zone pg = zi → PageBuddy pg = true →
                 ∃ o, pg_private pg = Z.of_nat o ∧ free_block nd zi o p;
  inv_merged : ∀ o p, free_block nd zi o p → (S o < MAX_ORDER)%nat → ¬ free_block nd zi o (__find_buddy_pfn p o) }.

(** A block outside the lists, made of clean pages. *)
Definition loose (nd : node) (zi o : nat) (p : Z) : Prop :=
  aligned p o ∧ ∀ q, inb p o q → (∃ pg, mem_map nd !! q = Some pg ∧ clean zi pg) ∧ ¬ is_free nd zi q.

(** What an operation on the pages [S] of the zone keeps. *)
Record zone_frame (zi : nat) (S : Z → Prop) (nd nd' : node) : Prop := {
  fr_zones : ∀ zj, zj ≠ zi → node_zones nd' zj = node_zones nd zj;
  fr_init : zn_initialized (node_zones nd' zi) = zn_initialized (node_zones nd zi);
  fr_pageset : zn_pageset (node_zones nd' zi) = zn_pageset (node_zones nd zi);
  fr_managed : zn_managed (node_zones nd' zi) = zn_managed (node_zones nd zi);
  fr_pages : ∀ q, ¬ S q → mem_map nd' !! q = mem_map nd !! q;
  fr_kept : ∀ q, pg_zone <$> mem_map nd' !! q = pg_zone <$> mem_map nd !! q }.

Lemma zone_frame_refl zi S nd : zone_frame zi S nd nd.
Proof. by split. Qed.
Lemma zone_frame_trans zi (S : Z → Prop) nd1 nd2 nd3 :
  zone_frame zi S nd1 nd2 → zone_frame zi S nd2 nd3 → zone_frame zi S nd1 nd3.
Proof.
  intros H1 H2. split.
  - intros zj Hz. rewrite (fr_zones _ _ _ _ H2), (fr_zones _ _ _ _ H1); done.
  - by rewrite (fr_init _ _ _ _ H2), (fr_init _ _ _ _ H1).
  - by rewrite (fr_pageset _ _ _ _ H2), (fr_pageset _ _ _ _ H1).
  - by rewrite (fr_managed _ _ _ _ H2), (fr_managed _ _ _ _ H1).
  - intros q Hq. rewrite (fr_pages _ _ _ _ H2), (fr_pages _ _ _ _ H1); done.
  - intros q. by rewrite (fr_kept _ _ _ _ H2), (fr_kept _ _ _ _ H1).
Qed.
Lemma zone_frame_weaken zi (S S' : Z → Prop) nd nd' : (∀ q, S q → S' q) → zone_frame zi S nd nd' → zone_frame zi S' nd nd'.
Proof. intros HS H. split; try apply H. intros q Hq. apply (fr_pages _ _ _ _ H). auto. Qed.

Section zone.
Variable zi : nat.

Lemma head_buddy o pg : block_head zi o pg → PageBuddy pg = true.
Proof. intros (_ & _ & Ht & _). unfold PageBuddy, PageType. by rewrite Ht. Qed.
Lemma clean_not_buddy pg : clean zi pg → PageBuddy pg = false.
Proof. intros (_ & _ & Ht & _). unfold PageBuddy, PageType. by rewrite Ht. Qed.

(** Free blocks do not meet. *)
Lemma free_disjoint nd o p o' p' q :
  zone_inv nd zi → free_block nd zi o p → free_block nd zi o' p' → inb p o q → inb p' o' q → o = o' ∧ p = p'.
Proof.
  intros Hi. assert (Hle : ∀ o p o' p', free_block nd zi o p → free_block nd zi o' p' → (o ≤ o')%nat →
    inb p o q → inb p' o' q → o = o' ∧ p = p').
  { clear o p o' p'. intros o p o' p' Hf Hf' Ho Hq Hq'.
    destruct (nested p o p' o' q (inv_align _ _ Hi _ _ Hf) (inv_align _ _ Hi _ _ Hf') Ho Hq Hq') as [H1 H2].
    destruct (inv_head _ _ Hi _ _ Hf) as (pg & Hpg & Hh). destruct (Z.eq_dec p p') as [->|Hne].
    - destruct (inv_head _ _ Hi _ _ Hf') as (pg' & Hpg' & Hh'). destruct Hh as (_ & _ & _ & _ & _ & Ho1).
      destruct Hh' as (_ & _ & _ & _ & _ & Ho2). simplify_eq. split; [lia|done].
    - destruct (inv_rest _ _ Hi _ _ p Hf') as (pg' & Hpg' & Hc); [unfold inb in *; pose proof (bsz_pos o); lia|done|].
      simplify_eq. apply clean_not_buddy in Hc. apply head_buddy in Hh. congruence. }
  intros Hf Hf' Hq Hq'. destruct (Nat.le_ge_cases o o').
  - by apply Hle.
  - destruct (Hle o' p' o p) as [-> ->]; done.
Qed.

(** *** Taking a block off its list *)

Lemma list_del_run nd o p pg :
  (o < MAX_ORDER)%nat → free_block nd zi o p → mem_map nd !! p = Some pg → pg_tail pg = None →
  list_del zi o p nd = Some (tt, put_area zi o
    (mk_area (filter (.≠ p) (free_list (nd_area nd zi o))) (nr_free (nd_area nd zi o))) nd).
Proof.
  intros Ho Hf Hp Ht. unfold list_del. rewrite (kbind_run _ _ _ _ _ (get_area_run zi o nd Ho)).
  rewrite decide_True by done. rewrite (kbind_run _ _ _ _ _ (upd_page_run p pg _ nd Hp)).
  assert (set_tail None pg = pg) as -> by (destruct pg; simpl in *; by subst).
  rewrite put_page_id by done. by apply set_area_run.
Qed.

Definition freed_head (pg : page) : page := set_page_private 0 (set_type TYPE_NONE pg).

Lemma rmv_page_order_run nd p o pg :
  mem_map nd !! p = Some pg → block_head zi o pg → rmv_page_order p nd = Some (tt, put_page p (freed_head pg) nd).
Proof.
  intros Hp Hh. pose proof (head_buddy _ _ Hh) as Hb. destruct Hh as (_ & _ & Ht & _).
  unfold rmv_page_order, __ClearPageBuddy. rewrite !kbind_assoc, (kbind_run _ _ _ _ _ (get_page_run p pg nd Hp)).
  rewrite Hb. cbn [negb BUG_ON]. rewrite kbind_assoc, kbind_ret.
  rewrite (kbind_run _ _ _ _ _ (upd_page_run p pg _ nd Hp)). rewrite (upd_page_run p (set_type (Z.lor (pg_type pg) PG_buddy) pg)).
  - rewrite put_page_twice. rewrite Ht. done.
  - unfold put_page. simpl. apply lookup_insert_eq.
Qed.

(** The node after a block has left its list. *)
Definition detached (o : nat) (p : Z) (pg : page) (nd : node) : node :=
  put_page p (freed_head pg) (put_area zi o
    (mk_area (filter (.≠ p) (free_list (nd_area nd zi o))) (nr_free (nd_area nd zi o) - 1)) nd).

Lemma freed_head_clean o pg : block_head zi o pg → clean zi (freed_head pg).
Proof. intros (H1 & H2 & H3 & H4 & H5 & H6). by split_and!. Qed.

Lemma detached_block nd o p pg o' q :
  free_block (detached o p pg nd) zi o' q ↔ free_block nd zi o' q ∧ (o', q) ≠ (o, p).
Proof.
  unfold free_block, detached. rewrite area_put_page. destruct (decide (o = o')) as [->|Hne].
  - rewrite area_put_eq. simpl. rewrite list_elem_of_filter. naive_solver.
  - rewrite area_put_ne by done. naive_solver.
Qed.

Lemma detached_page nd o p pg q :
  mem_map (detached o p pg nd) !! q = if decide (q = p) then Some (freed_head pg) else mem_map nd !! q.
Proof.
  unfold detached, put_page, put_area. simpl. case_decide as Hq; [subst; apply lookup_insert_eq|by rewrite lookup_insert_ne].
Qed.

Lemma length_filter_ne (l : list Z) p : NoDup l → p ∈ l → Z.of_nat (length (filter (.≠ p) l)) = Z.of_nat (length l) - 1.
Proof.
  induction l as [|x l IH]; intros Hnd Hp; [set_solver|]. apply NoDup_cons in Hnd as [Hx Hnd].
  rewrite filter_cons. case_decide as Hc.
  - apply elem_of_cons in Hp as [->|Hp]; [done|]. specialize (IH Hnd Hp). simpl. lia.
  - subst x. assert (filter (.≠ p) l = l) as ->; [|simpl; lia].
    clear -Hx. induction l as [|y l IH]; [done|]. rewrite not_elem_of_cons in Hx. destruct Hx.
    rewrite filter_cons_True by done. by rewrite IH.
Qed.

Lemma detach_inv nd o p pg :
  zone_inv nd zi → free_block nd zi o p → mem_map nd !! p = Some pg → block_head zi o pg →
  let nd' := detached o p pg nd in
  zone_inv nd' zi ∧ loose nd' zi o p ∧ (∀ q, is_free nd' zi q ↔ is_free nd zi q ∧ ¬ inb p o q) ∧
  zone_frame zi (inb p o) nd nd'.
Proof.
  intros Hi Hf Hp Hh nd'.
  assert (Hfree : ∀ q, is_free nd' zi q ↔ is_free nd zi q ∧ ¬ inb p o q).
  { intros q. unfold is_free. split.
    - intros (o' & p' & Hb & Hq). apply detached_block in Hb as [Hf' Hne]. split; [eauto|]. intros Hq'.
      destruct (free_disjoint _ _ _ _ _ _ Hi Hf Hf' Hq' Hq) as [-> ->]. done.
    - intros [(o' & p' & Hf' & Hq) Hn]. exists o', p'. split; [|done]. apply detached_block. split; [done|]. by intros [= -> ->]. }
  assert (Hkept : ∀ q, pg_zone <$> mem_map nd' !! q = pg_zone <$> mem_map nd !! q).
  { intros q. unfold nd'. rewrite detached_page. case_decide as Hq; [subst; by rewrite Hp|done]. }
  split; [split|split; [split|split]].
  - unfold nd', detached, put_page, put_area. simpl. rewrite map_size_insert_Some by eauto. apply Hi.
  - intros o' p' Hf'. apply detached_block in Hf' as [Hf' _]. by apply (inv_order _ _ Hi _ _ Hf').
  - intros o'. unfold nd', detached. rewrite area_put_page. destruct (decide (o = o')) as [<-|Hne].
    + rewrite area_put_eq. simpl. destruct (inv_count _ _ Hi o) as [Hnd Hlen].
      split; [by apply NoDup_filter|]. rewrite length_filter_ne by done. lia.
    + rewrite area_put_ne by done. apply (inv_count _ _ Hi).
  - intros o' p' Hf'. apply detached_block in Hf' as [Hf' _]. by apply (inv_align _ _ Hi _ _ Hf').
  - intros o' p' Hf'. apply detached_block in Hf' as [Hf' Hne]. unfold nd'. rewrite detached_page.
    case_decide as Hq; [subst p'|apply (inv_head _ _ Hi _ _ Hf')].
    destruct (free_disjoint _ _ _ _ _ p Hi Hf Hf') as [<- _]; [apply inb_self..|done].
  - intros o' p' q Hf' Hq Hne. apply detached_block in Hf' as [Hf' _]. unfold nd'. rewrite detached_page.
    case_decide as Hqp; [|by apply (inv_rest _ _ Hi _ _ _ Hf')]. exists (freed_head pg). split; [done|]. by eapply freed_head_clean.
  - intros p' pg' Hp' Hz Hb. unfold nd' in Hp'. rewrite detached_page in Hp'. case_decide as Hq.
    + injection Hp' as <-. pose proof (clean_not_buddy _ (freed_head_clean _ _ Hh)). congruence.
    + destruct (inv_marked _ _ Hi _ _ Hp' Hz Hb) as (o' & Ho' & Hf'). exists o'. split; [done|].
      apply detached_block. split; [done|]. by intros [= _ ->].
  - intros o' p' Hf' Ho' Hb. apply detached_block in Hf' as [Hf' _]. apply detached_block in Hb as [Hb _].
    by apply (inv_merged _ _ Hi _ _ Hf' Ho').
  - by apply (inv_align _ _ Hi).
  - intros q Hq. split; [|rewrite Hfree; tauto]. unfold nd'. rewrite detached_page.
    case_decide as Hqp; [exists (freed_head pg); split; [done|]; by eapply freed_head_clean|].
    by apply (inv_rest _ _ Hi _ _ _ Hf).
  - done.
  - split; try done; unfold nd'.
    + intros zj Hz. unfold detached, put_page, put_area. simpl. by rewrite fn_lookup_insert_ne.
    + unfold detached, put_page, put_area. simpl. by rewrite fn_lookup_insert.
    + unfold detached, put_page, put_area. simpl. by rewrite fn_lookup_insert.
    + unfold detached, put_page, put_area. simpl. by rewrite fn_lookup_insert.
    + intros q Hq. rewrite detached_page. case_decide as Hqp; [|done]. subst. destruct Hq. apply inb_self.
Qed.

End zone.
