(* ===== verification/PageAllocBuddy.v ===== *)
(** * The buddy allocator proper

    Putting a block on its list, the merging of buddies by [__free_one_page],
    the splitting by [expand] and the search of [__rmqueue_smallest], each as a
    lemma that runs the operation from a state that satisfies the invariant. *)
From Stdlib Require Import FunctionalExtensionality.
From stdpp Require Import functions gmap.
From S2P Require Import Prelude PageAlloc PageAllocFacts.

(** Every zone satisfies its invariant. *)
Definition node_inv (nd : node) : Prop := ∀ zi, zone_inv nd zi.

Lemma put_area_twice zi o a a' nd : put_area zi o a' (put_area zi o a nd) = put_area zi o a' nd.
Proof.
  unfold put_area. simpl. f_equal. apply functional_extensionality. intros zj. unfold insert, fn_insert.
  case_decide as Hz; [|done]. destruct Hz. case_decide; [|done]. simpl. f_equal. apply functional_extensionality. intros o'. by case_decide.
Qed.
Lemma put_area_page zi o a p pg nd : put_area zi o a (put_page p pg nd) = put_page p pg (put_area zi o a nd).
Proof. done. Qed.
Lemma page_put_area zi o a nd : mem_map (put_area zi o a nd) = mem_map nd.
Proof. done. Qed.
Lemma page_put_eq p pg nd : mem_map (put_page p pg nd) !! p = Some pg.
Proof. apply lookup_insert_eq. Qed.

Lemma get_zone_run zi nd : get_zone zi nd = Some (node_zones nd zi, nd).
Proof. done. Qed.
Lemma BUG_ON_run {A} (b : bool) (k : unit → K A) nd : b = false → kbind (BUG_ON b) k nd = k tt nd.
Proof. by intros ->. Qed.

Lemma frame_size zi S nd nd' : zone_frame zi S nd nd' → size (mem_map nd') = size (mem_map nd).
Proof.
  intros H. rewrite <-!size_dom. f_equal. apply set_eq. intros q. rewrite !elem_of_dom, <-!(fmap_is_Some pg_zone).
  by rewrite (fr_kept _ _ _ _ H).
Qed.

(** The other zones do not notice. *)
Lemma zone_inv_frame zi zj (S : Z → Prop) nd nd' :
  zj ≠ zi → zone_inv nd zj → zone_frame zi S nd nd' →
  (∀ q, S q → ∃ pg, mem_map nd !! q = Some pg ∧ pg_zone pg = zi) → zone_inv nd' zj.
Proof.
  intros Hz Hi Hfr HS.
  assert (Ha : ∀ o, nd_area nd' zj o = nd_area nd zj o) by (intros o; unfold nd_area; by rewrite (fr_zones _ _ _ _ Hfr)).
  assert (Hf : ∀ o p, free_block nd' zj o p ↔ free_block nd zj o p) by (intros o p; unfold free_block; by rewrite Ha).
  assert (Hpg : ∀ q pg, pg_zone pg = zj → mem_map nd !! q = Some pg → mem_map nd' !! q = Some pg).
  { intros q pg Hq Hm. rewrite (fr_pages _ _ _ _ Hfr); [done|]. intros Hs. destruct (HS q Hs) as (pg' & ? & ?). simplify_eq. }
  split.
  - rewrite (frame_size _ _ _ _ Hfr). apply Hi.
  - intros o p Hb. by eapply (inv_order _ _ Hi), Hf.
  - intros o. rewrite Ha. apply Hi.
  - intros o p Hb. by apply (inv_align _ _ Hi), Hf.
  - intros o p Hb. apply Hf in Hb. destruct (inv_head _ _ Hi _ _ Hb) as (pg & ? & Hh). exists pg. split; [apply Hpg; [apply Hh|done]|done].
  - intros o p q Hb Hq Hne. apply Hf in Hb. destruct (inv_rest _ _ Hi _ _ _ Hb Hq Hne) as (pg & ? & Hh).
    exists pg. split; [apply Hpg; [apply Hh|done]|done].
  - intros p pg Hp Hzp Hb. rewrite (fr_pages _ _ _ _ Hfr) in Hp.
    + setoid_rewrite Hf. by apply (inv_marked _ _ Hi _ _ Hp).
    + intros Hs. destruct (HS p Hs) as (pg' & Hp' & Hz'). pose proof (fr_kept _ _ _ _ Hfr p) as Hk.
      rewrite Hp, Hp' in Hk. simpl in Hk. injection Hk as Hk. congruence.
  - intros o p Hb Ho Hb'. apply Hf in Hb. apply Hf in Hb'. by apply (inv_merged _ _ Hi _ _ Hb Ho).
Qed.

Lemma node_inv_frame zi (S : Z → Prop) nd nd' :
  node_inv nd → zone_frame zi S nd nd' → (∀ q, S q → ∃ pg, mem_map nd !! q = Some pg ∧ pg_zone pg = zi) →
  zone_inv nd' zi → node_inv nd'.
Proof.
  intros Hi Hfr HS Hz zj. destruct (decide (zj = zi)) as [->|Hne]; [done|]. by eapply (zone_inv_frame zi zj S nd).
Qed.

Lemma loose_zone nd zi o p q : loose nd zi o p → inb p o q → ∃ pg, mem_map nd !! q = Some pg ∧ pg_zone pg = zi.
Proof. intros [_ Hl] Hq. destruct (Hl q Hq) as [(pg & ? & Hc) _]. exists pg. split; [done|apply Hc]. Qed.
Lemma free_zone nd zi q : zone_inv nd zi → is_free nd zi q → ∃ pg, mem_map nd !! q = Some pg ∧ pg_zone pg = zi.
Proof.
  intros Hi (o & p & Hf & Hq). destruct (Z.eq_dec q p) as [->|Hne].
  - destruct (inv_head _ _ Hi _ _ Hf) as (pg & ? & Hh). exists pg. split; [done|apply Hh].
  - destruct (inv_rest _ _ Hi _ _ _ Hf Hq Hne) as (pg & ? & Hh). exists pg. split; [done|apply Hh].
Qed.

(** A list of the zone is not longer than memory. *)
Lemma list_bound nd zi o : zone_inv nd zi → (length (free_list (nd_area nd zi o)) ≤ size (mem_map nd))%nat.
Proof.
  intros Hi. destruct (inv_count _ _ Hi o) as [Hnd _].
  rewrite <-(size_list_to_set (C := gset Z)) by done. rewrite <-(size_dom (D := gset Z)). apply subseteq_size. intros p Hp.
  apply elem_of_list_to_set in Hp. destruct (inv_head _ _ Hi _ _ Hp) as (pg & Hpg & _). apply elem_of_dom. eauto.
Qed.

Section zone.
Variable zi : nat.

(** ** Putting a block on its list *)

Definition taken_head (o : nat) (pg : page) : page := set_type TYPE_BUDDY (set_page_private (Z.of_nat o) pg).
Definition link (tail : bool) (p : Z) (l : list Z) : list Z := if tail then l ++ [p] else p :: l.
Definition attached (tail : bool) (o : nat) (p : Z) (pg : page) (nd : node) : node :=
  put_page p (taken_head o pg) (put_area zi o
    (mk_area (link tail p (free_list (nd_area nd zi o))) (nr_free (nd_area nd zi o) + 1)) nd).

Lemma taken_head_ok o pg : clean zi pg → block_head zi o (taken_head o pg).
Proof. intros (H1 & H2 & H3 & H4 & H5). by repeat split. Qed.

Lemma set_page_order_run nd p o pg :
  mem_map nd !! p = Some pg → clean zi pg → set_page_order p o nd = Some (tt, put_page p (taken_head o pg) nd).
Proof.
  intros Hp (_ & _ & Ht & _). unfold set_page_order, __SetPageBuddy.
  rewrite (kbind_run _ _ _ _ _ (upd_page_run p pg _ nd Hp)).
  rewrite (kbind_run _ _ _ _ _ (get_page_run p _ _ (page_put_eq p _ nd))).
  unfold PageType. change (pg_type (set_page_private (Z.of_nat o) pg)) with (pg_type pg). rewrite Ht.
  change (negb (Z.land TYPE_NONE (Z.lor PAGE_TYPE_BASE 0) =? PAGE_TYPE_BASE)) with false. cbn [BUG_ON]. rewrite kbind_ret.
  rewrite (upd_page_run p _ _ _ (page_put_eq p _ nd)). by rewrite put_page_twice.
Qed.

Lemma link_run (tail : bool) nd o p pg :
  (o < MAX_ORDER)%nat → mem_map nd !! p = Some pg → pg_tail pg = None →
  (if tail then list_add_tail zi o p else list_add zi o p) nd =
    Some (tt, put_area zi o (mk_area (link tail p (free_list (nd_area nd zi o))) (nr_free (nd_area nd zi o))) nd).
Proof.
  intros Ho Hp Ht. assert (Hid : set_tail None pg = pg) by (destruct pg; simpl in *; by subst).
  destruct tail; [unfold list_add_tail|unfold list_add];
    rewrite (kbind_run _ _ _ _ _ (get_area_run zi o nd Ho)), (kbind_run _ _ _ _ _ (upd_page_run p pg _ nd Hp)), Hid,
      put_page_id by done; by apply set_area_run.
Qed.

Lemma attached_block tail nd o p pg o' q :
  free_block (attached tail o p pg nd) zi o' q ↔ free_block nd zi o' q ∨ (o' = o ∧ q = p).
Proof.
  unfold free_block, attached. rewrite area_put_page. destruct (decide (o = o')) as [->|Hne].
  - rewrite area_put_eq. simpl. unfold link. destruct tail; set_solver.
  - rewrite area_put_ne by done. naive_solver.
Qed.
Lemma attached_page tail nd o p pg q :
  mem_map (attached tail o p pg nd) !! q = if decide (q = p) then Some (taken_head o pg) else mem_map nd !! q.
Proof.
  unfold attached, put_page, put_area. simpl. case_decide as Hq; [subst; apply lookup_insert_eq|by rewrite lookup_insert_ne].
Qed.

Lemma attached_free tail nd o p pg q : is_free (attached tail o p pg nd) zi q ↔ is_free nd zi q ∨ inb p o q.
Proof.
  unfold is_free. split.
  - intros (o' & p' & Hb & Hq). apply attached_block in Hb as [Hb|[-> ->]]; eauto.
  - intros [(o' & p' & Hb & Hq)|Hq]; [exists o', p'|exists o, p]; (split; [|done]); apply attached_block; eauto.
Qed.
Lemma attached_frame tail nd o p pg : mem_map nd !! p = Some pg → zone_frame zi (inb p o) nd (attached tail o p pg nd).
Proof.
  intros Hp. split.
  - intros zj Hz. unfold attached, put_page, put_area. simpl. by rewrite fn_lookup_insert_ne.
  - unfold attached, put_page, put_area. simpl. by rewrite fn_lookup_insert.
  - unfold attached, put_page, put_area. simpl. by rewrite fn_lookup_insert.
  - unfold attached, put_page, put_area. simpl. by rewrite fn_lookup_insert.
  - intros q Hq. rewrite attached_page. case_decide as Hqp; [|done]. subst. destruct Hq. apply inb_self.
  - intros q. rewrite attached_page. case_decide; [subst; by rewrite Hp|done].
Qed.

Lemma attached_count tail nd o p pg o' :
  zone_inv nd zi → ¬ free_block nd zi o p →
  NoDup (free_list (nd_area (attached tail o p pg nd) zi o')) ∧
  nr_free (nd_area (attached tail o p pg nd) zi o') = Z.of_nat (length (free_list (nd_area (attached tail o p pg nd) zi o'))).
Proof.
  intros Hi Hn. unfold attached. rewrite area_put_page. destruct (decide (o = o')) as [<-|Hne].
  - rewrite area_put_eq. simpl. destruct (inv_count _ _ Hi o) as [Hnd ->]. unfold link. destruct tail.
    + split; [apply NoDup_app; split; [done|]; split; [intros x Hx ->%list_elem_of_singleton; done|apply NoDup_singleton]|].
      rewrite length_app. simpl. lia.
    + split; [by apply NoDup_cons|]. simpl. lia.
  - rewrite area_put_ne by done. apply Hi.
Qed.

Lemma attach_inv tail nd o p pg :
  zone_inv nd zi → loose nd zi o p → (o < MAX_ORDER)%nat → mem_map nd !! p = Some pg →
  ((S o < MAX_ORDER)%nat → ¬ free_block nd zi o (__find_buddy_pfn p o)) → zone_inv (attached tail o p pg nd) zi.
Proof.
  intros Hi [Hal Hl] Ho Hp Hbud.
  assert (Hnf : ∀ q o', inb p o q → ¬ free_block nd zi o' q).
  { intros q o' Hq Hf. destruct (Hl q Hq) as [_ []]. exists o', q. split; [done|apply inb_self]. }
  assert (Hc : clean zi pg) by (destruct (Hl p (inb_self _ _)) as [(pg' & ? & ?) _]; by simplify_eq). split.
  - rewrite (frame_size _ _ _ _ (attached_frame _ _ _ _ _ Hp)). apply Hi.
  - intros o' p' [Hf|[-> ->]]%attached_block; [by apply (inv_order _ _ Hi _ _ Hf)|done].
  - intros o'. apply attached_count; [done|]. apply Hnf, inb_self.
  - intros o' p' [Hf|[-> ->]]%attached_block; [by apply (inv_align _ _ Hi _ _ Hf)|done].
  - intros o' p' Hb. rewrite attached_page. apply attached_block in Hb as [Hf|[-> ->]].
    + rewrite decide_False by (intros ->; by apply (Hnf p o' (inb_self _ _))). by apply (inv_head _ _ Hi).
    + rewrite decide_True by done. eexists. split; [done|]. by apply taken_head_ok.
  - intros o' p' q Hb Hq Hne. rewrite attached_page. apply attached_block in Hb as [Hf|[-> ->]].
    + rewrite decide_False by (intros ->; apply (Hl p (inb_self _ _)); by exists o', p'). by eapply (inv_rest _ _ Hi).
    + rewrite decide_False by done. by apply Hl.
  - intros p' pg' Hp' Hz Hb. setoid_rewrite attached_block. rewrite attached_page in Hp'. case_decide as Hq.
    + injection Hp' as <-. exists o. split; [done|]. by right.
    + destruct (inv_marked _ _ Hi _ _ Hp' Hz Hb) as (o' & ? & ?). eauto.
  - intros o' p' Hb Ho' Hb'. apply attached_block in Hb as [Hf|[-> ->]]; apply attached_block in Hb' as [Hf'|[He Hp']].
    + by apply (inv_merged _ _ Hi _ _ Hf Ho').
    + subst o'. apply Hbud; [done|]. rewrite <-Hp'. by destruct (buddy_spec p' o (inv_align _ _ Hi _ _ Hf)) as (_ & _ & -> & _).
    + by apply Hbud.
    + by apply (buddy_ne p o).
Qed.

(** ** Taking a block off its list *)

Lemma detach_run nd o p pg {A} (k : K A) :
  zone_inv nd zi → free_block nd zi o p → mem_map nd !! p = Some pg → block_head zi o pg →
  kbind (list_del zi o p) (λ _, kbind (nr_free_add zi o (-1)) (λ _, kbind (rmv_page_order p) (λ _, k))) nd
    = k (detached zi o p pg nd) ∧
  kbind (list_del zi o p) (λ _, kbind (rmv_page_order p) (λ _, kbind (nr_free_add zi o (-1)) (λ _, k))) nd
    = k (detached zi o p pg nd).
Proof.
  intros Hi Hf Hp Hh. pose proof (inv_order _ _ Hi _ _ Hf) as Ho.
  assert (Hn : u64 (nr_free (nd_area nd zi o) + -1) = nr_free (nd_area nd zi o) - 1).
  { destruct (inv_count _ _ Hi o) as [_ ->]. pose proof (list_bound nd zi o Hi). pose proof (inv_size _ _ Hi).
    apply list_elem_of_lookup in Hf as [i Hf]. apply lookup_lt_Some in Hf. apply u64_small. lia. }
  assert (Hl := list_del_run zi nd o p pg Ho Hf Hp). rewrite !(kbind_run _ _ _ _ _ (Hl ltac:(apply Hh))). split.
  - rewrite (kbind_run _ _ _ _ _ (nr_free_add_run zi o _ _ Ho)).
    erewrite kbind_run; [|eapply rmv_page_order_run; [exact Hp|exact Hh]].
    rewrite area_put_eq, put_area_twice. cbn [free_list nr_free]. by rewrite Hn.
  - erewrite kbind_run; [|eapply rmv_page_order_run; [exact Hp|exact Hh]].
    rewrite (kbind_run _ _ _ _ _ (nr_free_add_run zi o _ _ Ho)).
    rewrite area_put_page, area_put_eq, put_area_page, put_area_twice. cbn [free_list nr_free]. by rewrite Hn.
Qed.

(** ** [page_is_buddy] *)

(** The test agrees with the lists; [nd1] may differ from the state of the
    invariant elsewhere. *)
Lemma page_is_buddy_run nd nd1 o c b pgc pgb :
  node_inv nd → mem_map nd1 !! c = Some pgc → mem_map nd1 !! b = Some pgb → mem_map nd !! b = Some pgb →
  ∃ r : bool, page_is_buddy c b o nd1 = Some (r, nd1) ∧ (r = true ↔ free_block nd (pg_zone pgc) o b).
Proof.
  intros Hi Hc Hb Hb0. unfold page_is_buddy. rewrite (kbind_run _ _ _ _ _ (get_page_run b pgb nd1 Hb)).
  assert (Hno : ∀ P : Prop, (¬ P) → false = true ↔ P) by (intros P HP; split; [done|tauto]).
  destruct (PageBuddy pgb && (u32 (pg_private pgb) =? Z.of_nat o)) eqn:Ht.
  - apply andb_prop in Ht as [Hbd Hpo%Z.eqb_eq]. rewrite (kbind_run _ _ _ _ _ (get_page_run c pgc nd1 Hc)).
    destruct (Nat.eqb_spec (pg_zone pgc) (pg_zone pgb)) as [Hz|Hz]; cbn [negb].
    + destruct (inv_marked _ _ (Hi (pg_zone pgb)) b pgb Hb0 eq_refl Hbd) as (o' & Ho' & Hf).
      pose proof (inv_order _ _ (Hi _) _ _ Hf) as Hlt. unfold MAX_ORDER in Hlt. rewrite Ho', u32_small in Hpo by lia.
      assert (o' = o) as -> by lia. destruct (inv_head _ _ (Hi _) _ _ Hf) as (pg' & Hpg' & Hh). simplify_eq.
      destruct Hh as (_ & _ & _ & Hr & Htl & _). exists true. split; [|by rewrite Hz]. unfold page_count.
      rewrite !kbind_assoc, (kbind_run _ _ _ _ _ (get_page_run b _ nd1 Hb)), kbind_assoc. unfold compound_head. rewrite Htl.
      rewrite (kbind_run _ _ _ _ _ (get_page_run b _ nd1 Hb)), kbind_ret, Hr. done.
    + exists false. split; [done|]. apply Hno. intros Hf. destruct (inv_head _ _ (Hi _) _ _ Hf) as (pg' & Hpg' & Hh).
      simplify_eq. apply Hz. symmetry. apply Hh.
  - exists false. split; [done|]. apply Hno. intros Hf. destruct (inv_head _ _ (Hi _) _ _ Hf) as (pg' & Hpg' & Hh).
    simplify_eq. rewrite (head_buddy _ _ _ Hh) in Ht. destruct Hh as (_ & _ & _ & _ & _ & Hp).
    apply andb_false_iff in Ht as [Ht|Ht]; [done|]. apply Z.eqb_neq in Ht. pose proof (inv_order _ _ (Hi _) _ _ Hf) as Hlt.
    unfold MAX_ORDER in Hlt. rewrite Hp, u32_small in Ht by lia. done.
Qed.

(** ** Merging *)

Lemma pfn_valid_run p nd : pfn_valid p nd = Some (bool_decide (is_Some (mem_map nd !! p)), nd).
Proof. done. Qed.

Lemma loose_merge nd nd' o p b :
  loose nd zi o p → b = __find_buddy_pfn p o → loose nd' zi o b → zone_frame zi (inb b o) nd nd' →
  (∀ q, is_free nd' zi q → is_free nd zi q) → loose nd' zi (S o) (Z.land b p).
Proof.
  intros [Hal Hl] -> [_ Hl'] Hfr Hfree. split; [by apply (buddy_spec p o Hal)|].
  intros q Hq. apply (buddy_union p o q Hal) in Hq as [Hq|Hq]; [|by apply Hl'].
  destruct (Hl q Hq) as [Hc Hn]. rewrite (fr_pages _ _ _ _ Hfr); [by split; auto|].
  intros Hb. destruct (buddy_spec p o Hal) as (_ & _ & _ & Hcases). unfold inb in *. lia.
Qed.

Record merged (nd : node) (p : Z) (o : nat) (nd' : node) (p' : Z) (o' : nat) (b : option Z) : Prop := {
  mg_inv : node_inv nd';
  mg_loose : loose nd' zi o' p';
  mg_order : (o' < MAX_ORDER)%nat;
  mg_stop : (S o' < MAX_ORDER)%nat → ¬ free_block nd' zi o' (__find_buddy_pfn p' o') ∧ b = Some (__find_buddy_pfn p' o');
  mg_free : ∀ q, is_free nd' zi q ∨ inb p' o' q ↔ is_free nd zi q ∨ inb p o q;
  mg_frame : zone_frame zi (λ q, is_free nd zi q ∨ inb p o q) nd nd' }.

(** One turn: the buddy leaves its list and the union is loose. *)
Lemma merge_step nd p o pgb :
  node_inv nd → loose nd zi o p → free_block nd zi o (__find_buddy_pfn p o) →
  mem_map nd !! (__find_buddy_pfn p o) = Some pgb → block_head zi o pgb →
  let b := __find_buddy_pfn p o in let nd1 := detached zi o b pgb nd in
  node_inv nd1 ∧ loose nd1 zi (S o) (Z.land b p) ∧
  (∀ q, is_free nd1 zi q ∨ inb (Z.land b p) (S o) q ↔ is_free nd zi q ∨ inb p o q) ∧
  zone_frame zi (λ q, is_free nd zi q ∨ inb p o q) nd nd1.
Proof.
  intros Hi Hl Hf Hb Hh b nd1. destruct (detach_inv zi nd o b pgb (Hi zi) Hf Hb Hh) as (Hz & Hl1 & Hfree & Hfr).
  assert (Hsub : ∀ q, inb b o q → is_free nd zi q) by (intros q Hq; by exists o, b). split; [|split; [|split]].
  - eapply node_inv_frame; [done|exact Hfr| |done]. intros q Hq. by apply free_zone, Hsub.
  - eapply (loose_merge nd); [done|done|done|done|]. intros q Hq. by apply Hfree.
  - intros q. destruct Hl as [Hal Hl]. fold b. unfold nd1. rewrite Hfree. unfold b. rewrite (buddy_union p o q Hal). fold b.
    specialize (Hsub q). destruct (decide (b ≤ q < b + bsz o)) as [Hin|Hin]; fold (inb b o q) in Hin; tauto.
  - eapply zone_frame_weaken; [|exact Hfr]. intros q Hq. left. by apply Hsub.
Qed.

Lemma merge_loop_run n : ∀ nd p o b0,
  node_inv nd → loose nd zi o p → (o + n = MAX_ORDER - 1)%nat →
  ∃ p' o' b nd', merge_loop n zi p o b0 nd = Some ((p', o', b), nd') ∧ merged nd p o nd' p' o' b.
Proof.
  induction n as [|n IH]; intros nd p o b0 Hi Hl Hn.
  { exists p, o, b0, nd. split; [done|]. split; [done|done|unfold MAX_ORDER in *; lia|unfold MAX_ORDER in *; lia|done|apply zone_frame_refl]. }
  cbn [merge_loop]. set (b := __find_buddy_pfn p o).
  assert (Hdone : ¬ free_block nd zi o b → merged nd p o nd p o (Some b)).
  { intros Hnb. split; [done|done|unfold MAX_ORDER in *; lia|done|done|apply zone_frame_refl]. }
  rewrite (kbind_run _ _ _ _ _ (pfn_valid_run b nd)).
  destruct (mem_map nd !! b) as [pgb|] eqn:Hb.
  2: { rewrite bool_decide_false by (by intros []). cbn [negb]. exists p, o, (Some b), nd. split; [done|]. apply Hdone.
       intros Hf. destruct (inv_head _ _ (Hi zi) _ _ Hf) as (? & ? & _). congruence. }
  rewrite bool_decide_true by eauto. cbn [negb].
  destruct (loose_zone _ _ _ _ p Hl (inb_self _ _)) as (pg & Hp & Hz).
  destruct (page_is_buddy_run nd nd o p b pg pgb Hi Hp Hb Hb) as (r & Hr & Hiff). rewrite Hz in Hiff. rewrite (kbind_run _ _ _ _ _ Hr).
  destruct r; cbn [negb].
  2: { exists p, o, (Some b), nd. split; [done|]. apply Hdone. intros Hf. by apply Hiff in Hf. }
  assert (Hf : free_block nd zi o b) by (by apply Hiff).
  destruct (inv_head _ _ (Hi zi) _ _ Hf) as (pg' & Hpg' & Hh). assert (pg' = pgb) as -> by congruence.
  rewrite (proj1 (detach_run nd o b pgb _ (Hi zi) Hf Hb Hh)).
  apply (merge_step nd p o pgb Hi Hl) in Hf as (Hi1 & Hl1 & Hfree1 & Hfr1); [|done..].
  destruct (IH _ _ _ (Some b) Hi1 Hl1) as (p' & o' & b' & nd' & Hrun & Hm); [lia|].
  exists p', o', b', nd'. split; [exact Hrun|]. destruct Hm as [? ? ? ? Hmf Hmfr]. split; try done.
  - intros q. by rewrite Hmf, Hfree1.
  - eapply zone_frame_trans; [exact Hfr1|]. eapply zone_frame_weaken; [|exact Hmfr]. intros q. by rewrite Hfree1.
Qed.

(** ** Freeing a block *)

Lemma higher_is_free_run nd p o pg b :
  node_inv nd → loose nd zi o p → mem_map nd !! p = Some pg → ((S o < MAX_ORDER)%nat → b = Some (__find_buddy_pfn p o)) →
  let nd1 := put_page p (taken_head o pg) nd in ∃ r : bool, higher_is_free p o b nd1 = Some (r, nd1).
Proof.
  intros Hi [Hal Hl] Hp Hb nd1. unfold higher_is_free. case_decide as Ho; [|by exists false].
  rewrite Hb by (unfold MAX_ORDER in *; lia). set (b1 := __find_buddy_pfn p o).
  rewrite (kbind_run _ _ _ _ _ (pfn_valid_run b1 nd1)). case_bool_decide as Hv1; cbn [negb]; [|by exists false].
  destruct (buddy_spec p o Hal) as (_ & Hcal & _ & Hcases). fold b1 in Hcal, Hcases. set (c := Z.land b1 p) in *.
  set (b2 := __find_buddy_pfn c (S o)). rewrite (kbind_run _ _ _ _ _ (pfn_valid_run b2 nd1)).
  case_bool_decide as Hv2; cbn [negb]; [|by exists false]. destruct Hv2 as [pg2 Hv2].
  assert (Hc : is_Some (mem_map nd1 !! c)).
  { destruct Hcases as [[<- _]|[<- _]]; [unfold nd1; rewrite page_put_eq; eauto|done]. }
  destruct Hc as [pgc Hc].
  assert (Hne : b2 ≠ p).
  { destruct (buddy_spec c (S o) Hcal) as (_ & _ & _ & Hc2). fold b2 in Hc2. rewrite bsz_S in Hc2. pose proof (bsz_pos o). lia. }
  destruct (page_is_buddy_run nd nd1 (S o) c b2 pgc pg2 Hi Hc Hv2) as (r & Hr & _); [|eauto].
  unfold nd1, put_page in Hv2. simpl in Hv2. by rewrite lookup_insert_ne in Hv2.
Qed.

Record freed (nd : node) (p : Z) (o : nat) (nd' : node) : Prop := {
  fd_inv : node_inv nd';
  fd_free : ∀ q, is_free nd' zi q ↔ is_free nd zi q ∨ inb p o q;
  fd_frame : zone_frame zi (λ q, is_free nd zi q ∨ inb p o q) nd nd' }.

Lemma nr_free_succ nd o : zone_inv nd zi → u64 (nr_free (nd_area nd zi o) + 1) = nr_free (nd_area nd zi o) + 1.
Proof.
  intros Hi. destruct (inv_count _ _ Hi o) as [_ ->]. pose proof (list_bound nd zi o Hi). pose proof (inv_size _ _ Hi).
  apply u64_small. lia.
Qed.

Lemma attach_node nd tail o p pg :
  node_inv nd → loose nd zi o p → (o < MAX_ORDER)%nat → mem_map nd !! p = Some pg →
  ((S o < MAX_ORDER)%nat → ¬ free_block nd zi o (__find_buddy_pfn p o)) → node_inv (attached tail o p pg nd).
Proof.
  intros Hi Hl Ho Hp Hb. eapply node_inv_frame; [done|by apply attached_frame| |by apply attach_inv].
  intros q Hq. by eapply loose_zone.
Qed.

Lemma loose_clean nd o p pg : loose nd zi o p → mem_map nd !! p = Some pg → clean zi pg.
Proof. intros [_ Hl] Hp. destruct (Hl p (inb_self _ _)) as [(pg' & ? & ?) _]. by simplify_eq. Qed.

Lemma free_one_page_run nd p o :
  node_inv nd → zn_initialized (node_zones nd zi) = true → loose nd zi o p → (o < MAX_ORDER)%nat →
  ∃ nd', __free_one_page zi p o nd = Some (tt, nd') ∧ freed nd p o nd'.
Proof.
  intros Hi Hinit Hl Ho. unfold __free_one_page. destruct (loose_zone _ _ _ _ p Hl (inb_self _ _)) as (pg & Hp & _).
  pose proof (loose_clean _ _ _ _ Hl Hp) as (Hfl & _).
  rewrite (kbind_run _ _ _ _ _ (get_zone_run zi nd)), BUG_ON_run by (by rewrite Hinit).
  rewrite (kbind_run _ _ _ _ _ (get_page_run p pg nd Hp)), BUG_ON_run by (by rewrite Hfl).
  rewrite BUG_ON_run by (by rewrite aligned_test by apply Hl).
  destruct (merge_loop_run (MAX_ORDER - 1 - o) nd p o None Hi Hl) as (p' & o' & b & nd1 & Hrun & Hm); [lia|].
  rewrite (kbind_run _ _ _ _ _ Hrun). destruct Hm as [Hi1 Hl1 Ho1 Hst Hmf Hfr].
  destruct (loose_zone _ _ _ _ p' Hl1 (inb_self _ _)) as (pg1 & Hp1 & _). pose proof (loose_clean _ _ _ _ Hl1 Hp1) as Hc1.
  rewrite (kbind_run _ _ _ _ _ (set_page_order_run nd1 p' o' pg1 Hp1 Hc1)).
  destruct (higher_is_free_run nd1 p' o' pg1 b Hi1 Hl1 Hp1) as [tail Htail]; [naive_solver|].
  rewrite (kbind_run _ _ _ _ _ Htail). set (nd2 := put_page p' (taken_head o' pg1) nd1).
  rewrite (kbind_run _ _ _ _ _ (link_run tail nd2 o' p' (taken_head o' pg1) Ho1 (page_put_eq _ _ _) ltac:(apply Hc1))).
  rewrite (nr_free_add_run zi o' _ _ Ho1), area_put_eq, put_area_twice. cbn [free_list nr_free].
  assert (Hat : ∀ a, put_area zi o' a nd2 = put_page p' (taken_head o' pg1) (put_area zi o' a nd1)) by done.
  assert (Ha : nd_area nd2 zi o' = nd_area nd1 zi o') by done. rewrite !Ha, nr_free_succ by apply Hi1. rewrite Hat. fold (attached tail o' p' pg1 nd1).
  eexists. split; [done|]. split.
  - apply attach_node; try done. intros HS. by apply Hst.
  - intros q. by rewrite attached_free, Hmf.
  - eapply zone_frame_trans; [exact Hfr|]. eapply zone_frame_weaken; [|by apply attached_frame]. intros q Hq. apply Hmf. by right.
Qed.

(** ** Splitting *)

Record split_to (nd : node) (p : Z) (high low : nat) (nd' : node) : Prop := {
  sp_inv : node_inv nd';
  sp_loose : loose nd' zi low p;
  sp_free : ∀ q, is_free nd' zi q ↔ is_free nd zi q ∨ (inb p high q ∧ ¬ inb p low q);
  sp_frame : zone_frame zi (inb p high) nd nd' }.

(** The halves of a loose block. *)
Lemma loose_half nd o p : loose nd zi (S o) p → loose nd zi o p ∧ loose nd zi o (p + bsz o).
Proof.
  intros [Hal Hl]. assert (aligned p o) by (eapply aligned_le; [|done]; lia). split.
  - split; [done|]. intros q Hq. apply Hl. unfold inb in *. rewrite bsz_S. pose proof (bsz_pos o). lia.
  - split; [by apply aligned_add|]. intros q Hq. apply Hl. unfold inb in *. rewrite bsz_S. pose proof (bsz_pos o). lia.
Qed.

Lemma split_step nd o p pg :
  node_inv nd → loose nd zi (S o) p → (S o < MAX_ORDER)%nat → mem_map nd !! (p + bsz o) = Some pg →
  split_to nd p (S o) o (attached false o (p + bsz o) pg nd).
Proof.
  intros Hi Hl Ho Hpg. destruct (loose_half _ _ _ Hl) as [Hl1 Hl2].
  assert (Hq0 : ∀ q, inb (p + bsz o) o q ↔ inb p (S o) q ∧ ¬ inb p o q).
  { intros q. unfold inb. rewrite bsz_S. lia. }
  split.
  - apply attach_node; [done|done|lia|done|]. intros _ Hf. destruct (buddy_upper p o) as [He _]; [apply Hl|]. rewrite He in Hf.
    destruct Hl1 as [_ Hl1]. apply (Hl1 p (inb_self _ _)). exists o, p. split; [done|apply inb_self].
  - split; [apply Hl1|]. intros q Hq. assert (Hn : ¬ inb (p + bsz o) o q) by (rewrite Hq0; tauto).
    rewrite attached_free, attached_page. rewrite decide_False by (intros ->; apply Hn, inb_self).
    destruct (proj2 Hl1 q Hq) as [? ?]. split; [done|tauto].
  - intros q. by rewrite attached_free, Hq0.
  - eapply zone_frame_weaken; [|by apply attached_frame]. intros q. rewrite Hq0. tauto.
Qed.

Lemma expand_run n : ∀ nd p high,
  node_inv nd → loose nd zi high p → (high < MAX_ORDER)%nat → (n ≤ high)%nat →
  ∃ nd', expand n zi p high nd = Some (tt, nd') ∧ split_to nd p high (high - n) nd'.
Proof.
  induction n as [|n IH]; intros nd p high Hi Hl Ho Hn.
  { exists nd. split; [done|]. rewrite Nat.sub_0_r. split; [done|done|tauto|apply zone_frame_refl]. }
  destruct high as [|h]; [lia|]. cbn [expand pred]. destruct (loose_half _ _ _ Hl) as [_ Hl2].
  destruct (loose_zone _ _ _ _ _ Hl2 (inb_self _ _)) as (pg & Hp & _). pose proof (loose_clean _ _ _ _ Hl2 Hp) as Hc.
  assert (Hh : (h < MAX_ORDER)%nat) by lia.
  rewrite (kbind_run _ _ _ _ _ (link_run false nd h _ pg Hh Hp ltac:(apply Hc))).
  rewrite (kbind_run _ _ _ _ _ (nr_free_add_run zi h _ _ Hh)), area_put_eq, put_area_twice. cbn [free_list nr_free].
  rewrite nr_free_succ by apply Hi. erewrite kbind_run; [|by eapply set_page_order_run; [exact Hp|]].
  fold (attached false h (p + bsz h) pg nd).
  destruct (split_step nd h p pg Hi Hl Ho Hp) as [Hi1 Hl1 Hf1 Hfr1].
  destruct (IH _ p h Hi1 Hl1 Hh) as (nd' & Hrun & [Hi2 Hl2' Hf2 Hfr2]); [lia|].
  exists nd'. split; [exact Hrun|]. cbn [Nat.sub]. assert (Hsub : ∀ q, inb p (h - n) q → inb p h q).
  { intros q. unfold inb. replace h with (h - n + n)%nat at 2 by lia. rewrite bsz_add. pose proof (bsz_pos n). pose proof (bsz_pos (h - n)). nia. }
  assert (Hsub' : ∀ q, inb p h q → inb p (S h) q) by (intros q; unfold inb; rewrite bsz_S; lia).
  split; [done|done| |].
  - intros q. rewrite Hf2, Hf1. specialize (Hsub q). specialize (Hsub' q).
    destruct (decide (p ≤ q < p + bsz h)) as [Hin|Hin]; fold (inb p h q) in Hin; tauto.
  - eapply zone_frame_trans; [exact Hfr1|]. by eapply zone_frame_weaken; [|exact Hfr2].
Qed.

(** ** Taking a block *)

Record took (nd : node) (o : nat) (p : Z) (nd' : node) : Prop := {
  tk_inv : node_inv nd';
  tk_loose : loose nd' zi o p;
  tk_was : ∀ q, inb p o q → is_free nd zi q;
  tk_free : ∀ q, is_free nd' zi q ↔ is_free nd zi q ∧ ¬ inb p o q;
  tk_frame : zone_frame zi (is_free nd zi) nd nd' }.

Lemma take_step nd o c p pg nd' :
  node_inv nd → free_block nd zi c p → mem_map nd !! p = Some pg → block_head zi c pg → (o ≤ c)%nat →
  split_to (detached zi c p pg nd) p c o nd' → took nd o p nd'.
Proof.
  intros Hi Hf Hp Hh Hoc [Hi' Hl' Hf' Hfr']. destruct (detach_inv zi nd c p pg (Hi zi) Hf Hp Hh) as (Hz & Hl1 & Hfree & Hfr).
  assert (Hsub : ∀ q, inb p o q → inb p c q).
  { intros q. unfold inb. replace c with (o + (c - o))%nat by lia. rewrite bsz_add. pose proof (bsz_pos (c - o)). pose proof (bsz_pos o). nia. }
  assert (Hwas : ∀ q, inb p c q → is_free nd zi q) by (intros q Hq; by exists c, p).
  split; [done|done|eauto| |].
  - intros q. rewrite Hf', Hfree. specialize (Hsub q). specialize (Hwas q).
    destruct (decide (p ≤ q < p + bsz c)) as [Hin|Hin]; fold (inb p c q) in Hin; tauto.
  - eapply zone_frame_trans; (eapply zone_frame_weaken; [|first [exact Hfr|exact Hfr']]); eauto.
Qed.

Lemma rmqueue_scan_run n : ∀ nd o c,
  node_inv nd → (c + n = MAX_ORDER)%nat → (o ≤ c)%nat →
  (∃ p nd', rmqueue_scan n zi o c nd = Some (Some p, nd') ∧ took nd o p nd') ∨
  (rmqueue_scan n zi o c nd = Some (None, nd) ∧ ∀ c' p, (c ≤ c')%nat → ¬ free_block nd zi c' p).
Proof.
  induction n as [|n IH]; intros nd o c Hi Hn Ho.
  { right. split; [done|]. intros c' p Hc Hf. pose proof (inv_order _ _ (Hi zi) _ _ Hf). lia. }
  cbn [rmqueue_scan]. rewrite (kbind_run _ _ _ _ _ (get_area_run zi c nd ltac:(lia))).
  destruct (head (free_list (nd_area nd zi c))) as [p|] eqn:Hhd.
  - left. assert (Hf : free_block nd zi c p).
    { unfold free_block. destruct (free_list (nd_area nd zi c)) as [|p' l]; simplify_eq/=. left. }
    destruct (inv_head _ _ (Hi zi) _ _ Hf) as (pg & Hp & Hh). rewrite (proj2 (detach_run nd c p pg _ (Hi zi) Hf Hp Hh)).
    destruct (detach_inv zi nd c p pg (Hi zi) Hf Hp Hh) as (Hz & Hl1 & Hfree & Hfr).
    assert (Hi1 : node_inv (detached zi c p pg nd)).
    { eapply node_inv_frame; [done|exact Hfr| |done]. intros q Hq. apply free_zone; [done|]. by exists c, p. }
    destruct (expand_run (c - o) _ p c Hi1 Hl1) as (nd' & Hrun & Hsp); [lia|lia|].
    rewrite (kbind_run _ _ _ _ _ Hrun). replace (c - (c - o))%nat with o in Hsp by lia.
    exists p, nd'. split; [done|]. by eapply take_step.
  - destruct (IH nd o (S c) Hi) as [(p & nd' & Hr & Ht)|[Hr Hnone]]; [lia|lia| |].
    + left. by exists p, nd'.
    + right. split; [done|]. intros c' p Hc Hf. destruct (decide (c' = c)) as [->|]; [|apply (Hnone c' p); [lia|done]].
      unfold free_block in Hf. destruct (free_list (nd_area nd zi c)); [set_solver|done].
Qed.

(** ** Nothing is lost to fragmentation of buddies *)

(** A block of free pages lies in one free block. *)
Lemma covered nd o : ∀ p,
  zone_inv nd zi → (o < MAX_ORDER)%nat → aligned p o → (∀ q, inb p o q → is_free nd zi q) →
  ∃ o' p', (o ≤ o')%nat ∧ free_block nd zi o' p' ∧ inb p' o' p.
Proof.
  induction o as [|o IH]; intros p Hi Ho Hal Hall.
  { destruct (Hall p (inb_self _ _)) as (o' & p' & Hf & Hq). exists o', p'. split; [lia|done]. }
  assert (Hal0 : aligned p o) by (eapply aligned_le; [|done]; lia).
  assert (Hhalf : ∀ r, (r = p ∨ r = p + bsz o) → ∃ o' p', (o ≤ o')%nat ∧ free_block nd zi o' p' ∧ inb p' o' r).
  { intros r Hr. apply IH; [done|lia|destruct Hr as [->| ->]; [done|by apply aligned_add]|].
    intros q Hq. apply Hall. unfold inb in *. rewrite bsz_S. pose proof (bsz_pos o). destruct Hr as [->| ->]; lia. }
  assert (Hbig : ∀ r o' p', (r = p ∨ r = p + bsz o) → (S o ≤ o')%nat → free_block nd zi o' p' → inb p' o' r →
            ∃ o' p', (S o ≤ o')%nat ∧ free_block nd zi o' p' ∧ inb p' o' p).
  { intros r o' p' Hr Ho' Hf Hin. exists o', p'. split; [done|]. split; [done|].
    destruct (nested p (S o) p' o' r Hal (inv_align _ _ Hi _ _ Hf) Ho') as [H1 H2]; [|done|].
    - unfold inb. rewrite bsz_S. pose proof (bsz_pos o). destruct Hr as [->| ->]; lia.
    - unfold inb. pose proof (bsz_pos (S o)). lia. }
  assert (Hsame : ∀ r p', aligned r o → free_block nd zi o p' → inb p' o r → p' = r).
  { intros r p' Hr Hf Hin. destruct (nested r o p' o r Hr (inv_align _ _ Hi _ _ Hf)) as [H1 H2]; [lia|apply inb_self|done|lia]. }
  destruct (Hhalf p) as (o1 & p1 & Ho1 & Hf1 & Hin1); [by left|].
  destruct (Hhalf (p + bsz o)) as (o2 & p2 & Ho2 & Hf2 & Hin2); [by right|].
  destruct (decide (o1 = o)) as [->|]; [|eapply (Hbig p o1 p1); [by left|lia|done..]].
  destruct (decide (o2 = o)) as [->|]; [|eapply (Hbig (p + bsz o) o2 p2); [by right|lia|done..]].
  apply Hsame in Hin1; [|done..]. apply Hsame in Hin2; [|by apply aligned_add|done]. subst p1 p2.
  exfalso. apply (inv_merged _ _ Hi _ _ Hf1); [done|]. by rewrite (proj2 (buddy_upper p o Hal)).
Qed.

(** [__rmqueue_smallest] takes a block of the order, and fails only when no
    block of that order is free. *)
Lemma rmqueue_smallest_run nd o :
  node_inv nd → (o < MAX_ORDER)%nat →
  (∃ p nd', __rmqueue_smallest zi o nd = Some (Some p, nd') ∧ took nd o p nd') ∨
  (__rmqueue_smallest zi o nd = Some (None, nd) ∧ ∀ p, aligned p o → ¬ ∀ q, inb p o q → is_free nd zi q).
Proof.
  intros Hi Ho. destruct (rmqueue_scan_run (MAX_ORDER - o) nd o o Hi) as [?|[Hr Hn]]; [lia|lia|by left|right].
  split; [done|]. intros p Hal Hall. destruct (covered nd o p (Hi zi) Ho Hal Hall) as (o' & p' & Ho' & Hf & _). by apply (Hn o' p').
Qed.

End zone.
