(* ===== verification/PageAllocPcp.v ===== *)
(** * Per-processor page lists

    The invariant of the page sets (the count is the length, the cached pages
    are clean, on one list only and not on the buddy lists) and the operations
    that move pages between them and the buddy lists. *)
From Stdlib Require Import FunctionalExtensionality.
From stdpp Require Import functions gmap.
From S2P Require Import Prelude PageAlloc PageAllocFacts PageAllocBuddy.

Definition pcp_of (nd : node) (zi cpu : nat) : per_cpu_pages := zn_pageset (node_zones nd zi) cpu.
Definition cached (nd : node) (zi cpu : nat) (q : Z) : Prop := q ∈ pcp_lists (pcp_of nd zi cpu).
(** The pages of the zone that nobody holds. *)
Definition avail (nd : node) (zi : nat) (q : Z) : Prop := is_free nd zi q ∨ ∃ cpu, cached nd zi cpu q.

(** [batch] pages can be taken whenever [count] has reached [high]. *)
Definition pcp_ok (p : per_cpu_pages) : Prop :=
  pcp_count p = Z.of_nat (length (pcp_lists p)) ∧ NoDup (pcp_lists p) ∧
  1 ≤ pcp_batch p ≤ Z.max 1 (pcp_high p) ∧ 0 ≤ pcp_high p < 2 ^ 31 ∧ pcp_count p < Z.max 1 (pcp_high p).

Record pcp_inv (nd : node) (zi : nat) : Prop := {
  pc_ok : ∀ cpu, pcp_ok (pcp_of nd zi cpu);
  pc_clean : ∀ cpu q, cached nd zi cpu q → ∃ pg, mem_map nd !! q = Some pg ∧ clean zi pg;
  pc_loose : ∀ cpu q, cached nd zi cpu q → ¬ is_free nd zi q;
  pc_one : ∀ cpu cpu' q, cached nd zi cpu q → cached nd zi cpu' q → cpu = cpu' }.

(** The invariant of the allocator. *)
Record alloc_inv (nd : node) : Prop := {
  al_node : node_inv nd;
  al_pcp : ∀ zi, pcp_inv nd zi }.

(** What an operation that also changes the page sets of the zone keeps. *)
Record node_frame (zi : nat) (S : Z → Prop) (nd nd' : node) : Prop := {
  nf_zones : ∀ zj, zj ≠ zi → node_zones nd' zj = node_zones nd zj;
  nf_init : zn_initialized (node_zones nd' zi) = zn_initialized (node_zones nd zi);
  nf_pages : ∀ q, ¬ S q → mem_map nd' !! q = mem_map nd !! q;
  nf_kept : ∀ q, pg_zone <$> mem_map nd' !! q = pg_zone <$> mem_map nd !! q }.

Lemma zone_node_frame zi S nd nd' : zone_frame zi S nd nd' → node_frame zi S nd nd'.
Proof. intros []. by split. Qed.
Lemma node_frame_refl zi S nd : node_frame zi S nd nd.
Proof. by split. Qed.
Lemma node_frame_trans zi (S : Z → Prop) nd1 nd2 nd3 :
  node_frame zi S nd1 nd2 → node_frame zi S nd2 nd3 → node_frame zi S nd1 nd3.
Proof.
  intros H1 H2. split.
  - intros zj Hz. rewrite (nf_zones _ _ _ _ H2), (nf_zones _ _ _ _ H1); done.
  - by rewrite (nf_init _ _ _ _ H2), (nf_init _ _ _ _ H1).
  - intros q Hq. rewrite (nf_pages _ _ _ _ H2), (nf_pages _ _ _ _ H1); done.
  - intros q. by rewrite (nf_kept _ _ _ _ H2), (nf_kept _ _ _ _ H1).
Qed.
Lemma node_frame_weaken zi (S S' : Z → Prop) nd nd' : (∀ q, S q → S' q) → node_frame zi S nd nd' → node_frame zi S' nd nd'.
Proof. intros HS H. split; try apply H. intros q Hq. apply (nf_pages _ _ _ _ H). auto. Qed.

(** ** Page sets as values *)

Definition put_pcp (zi cpu : nat) (p : per_cpu_pages) (nd : node) : node :=
  mk_node (mem_map nd)
    (<[zi := let z := node_zones nd zi in
             mk_zone (zn_initialized z) (zn_free_area z) (<[cpu := p]> (zn_pageset z)) (zn_managed z)]> (node_zones nd)).

Lemma get_pcp_run zi cpu nd : get_pcp zi cpu nd = Some (pcp_of nd zi cpu, nd).
Proof. done. Qed.
Lemma set_pcp_run zi cpu p nd : set_pcp zi cpu p nd = Some (tt, put_pcp zi cpu p nd).
Proof. done. Qed.

Lemma pcp_put zi cpu p nd zj cpu' :
  pcp_of (put_pcp zi cpu p nd) zj cpu' = if decide (zj = zi ∧ cpu' = cpu) then p else pcp_of nd zj cpu'.
Proof.
  unfold pcp_of, put_pcp. simpl. destruct (decide (zj = zi)) as [->|Hz].
  - rewrite fn_lookup_insert. simpl. destruct (decide (cpu' = cpu)) as [->|Hc].
    + by rewrite fn_lookup_insert, decide_True.
    + rewrite fn_lookup_insert_ne by done. rewrite decide_False by tauto. done.
  - rewrite fn_lookup_insert_ne by done. rewrite decide_False by tauto. done.
Qed.
Lemma pcp_put_eq zi cpu p nd : pcp_of (put_pcp zi cpu p nd) zi cpu = p.
Proof. by rewrite pcp_put, decide_True. Qed.
Lemma area_put_pcp zi cpu p nd zj o : nd_area (put_pcp zi cpu p nd) zj o = nd_area nd zj o.
Proof.
  unfold nd_area, put_pcp. simpl. destruct (decide (zj = zi)) as [->|Hz]; [by rewrite fn_lookup_insert|by rewrite fn_lookup_insert_ne].
Qed.
Lemma free_put_pcp zi cpu p nd zj q : is_free (put_pcp zi cpu p nd) zj q ↔ is_free nd zj q.
Proof. unfold is_free, free_block. by setoid_rewrite area_put_pcp. Qed.
Lemma init_put_pcp zi cpu p nd zj : zn_initialized (node_zones (put_pcp zi cpu p nd) zj) = zn_initialized (node_zones nd zj).
Proof.
  unfold put_pcp. simpl. destruct (decide (zj = zi)) as [->|Hz]; [by rewrite fn_lookup_insert|by rewrite fn_lookup_insert_ne].
Qed.
Lemma put_pcp_twice zi cpu p p' nd : put_pcp zi cpu p' (put_pcp zi cpu p nd) = put_pcp zi cpu p' nd.
Proof.
  unfold put_pcp. simpl. f_equal. apply functional_extensionality. intros zj. unfold insert, fn_insert.
  case_decide as Hz; [|done]. destruct Hz. case_decide; [|done]. simpl. f_equal. apply functional_extensionality. intros c'. by case_decide.
Qed.
Lemma put_pcp_id zi cpu nd : put_pcp zi cpu (pcp_of nd zi cpu) nd = nd.
Proof.
  destruct nd as [mm zs]. unfold put_pcp, pcp_of. simpl. f_equal. apply functional_extensionality. intros zj. unfold insert, fn_insert.
  case_decide as Hz; [|done]. destruct Hz. destruct (zs zi) as [i fa ps mg]. simpl. f_equal. apply functional_extensionality. intros c'.
  case_decide as Hc; [by destruct Hc|done].
Qed.

Lemma put_pcp_frame zi cpu p nd S : node_frame zi S nd (put_pcp zi cpu p nd).
Proof.
  split; try done.
  - intros zj Hz. unfold put_pcp. simpl. by rewrite fn_lookup_insert_ne.
  - apply init_put_pcp.
Qed.

(** The buddy lists do not depend on the page sets. *)
Lemma zone_inv_put_pcp zi cpu p nd zj : zone_inv nd zj → zone_inv (put_pcp zi cpu p nd) zj.
Proof.
  intros Hi. assert (Hf : ∀ o p', free_block (put_pcp zi cpu p nd) zj o p' ↔ free_block nd zj o p').
  { intros o p'. unfold free_block. by rewrite area_put_pcp. }
  destruct Hi as [H1 H2 H3 H4 H5 H6 H7 H8]. split.
  - done.
  - intros o p' Hb. by apply (H2 o p'), Hf.
  - intros o. rewrite area_put_pcp. apply H3.
  - intros o p' Hb. by apply H4, Hf.
  - intros o p' Hb. by apply H5, Hf.
  - intros o p' q Hb. by apply (H6 o p'), Hf.
  - intros p' pg Hp Hz Hb. setoid_rewrite Hf. by apply H7.
  - intros o p'. rewrite !Hf. apply H8.
Qed.
Lemma node_inv_put_pcp zi cpu p nd : node_inv nd → node_inv (put_pcp zi cpu p nd).
Proof. intros Hi zj. by apply zone_inv_put_pcp. Qed.

(** The new page set holds clean pages that no list holds. *)
Lemma alloc_put_pcp zi cpu p nd :
  alloc_inv nd → pcp_ok p →
  (∀ q, q ∈ pcp_lists p → (∃ pg, mem_map nd !! q = Some pg ∧ clean zi pg) ∧ ¬ is_free nd zi q ∧
                          ∀ cpu', cpu' ≠ cpu → ¬ cached nd zi cpu' q) →
  alloc_inv (put_pcp zi cpu p nd).
Proof.
  intros [Hn Hp] Hok Hl. split; [by apply node_inv_put_pcp|]. intros zj. destruct (Hp zj) as [H1 H2 H3 H4]. split.
  - intros c. rewrite pcp_put. case_decide; done.
  - intros c q. unfold cached. rewrite pcp_put. case_decide as Hd; [destruct Hd as [-> ->]; apply Hl|apply H2].
  - intros c q. rewrite free_put_pcp. unfold cached. rewrite pcp_put. case_decide as Hd; [destruct Hd as [-> ->]; apply Hl|apply H3].
  - intros c c' q. unfold cached. rewrite !pcp_put. case_decide as Hd; case_decide as Hd'.
    + naive_solver.
    + destruct Hd as [-> ->]. intros Hq Hq'. destruct (Hl q Hq) as (_ & _ & Hno). exfalso. apply (Hno c'); [naive_solver|done].
    + destruct Hd' as [-> ->]. intros Hq Hq'. destruct (Hl q Hq') as (_ & _ & Hno). exfalso. apply (Hno c); [naive_solver|done].
    + apply H4.
Qed.

(** The page sets do not notice what happens to pages that they do not hold. *)
Lemma pcp_inv_frame zi zj (S : Z → Prop) nd nd' :
  pcp_inv nd zj → zone_frame zi S nd nd' → (∀ q, S q → ∃ pg, mem_map nd !! q = Some pg ∧ pg_zone pg = zi) →
  (∀ cpu q, S q → ¬ cached nd zi cpu q) → (∀ q, is_free nd' zi q → is_free nd zi q ∨ S q) → pcp_inv nd' zj.
Proof.
  intros [H1 H2 H3 H4] Hfr HS Hnc Hfree.
  assert (Hps : ∀ cpu, pcp_of nd' zj cpu = pcp_of nd zj cpu).
  { intros cpu. unfold pcp_of. destruct (decide (zj = zi)) as [->|Hz]; [by rewrite (fr_pageset _ _ _ _ Hfr)|by rewrite (fr_zones _ _ _ _ Hfr)]. }
  assert (HnS : ∀ cpu q, cached nd zj cpu q → ¬ S q).
  { intros cpu q Hc Hs. destruct (HS q Hs) as (pg & Hpg & Hz). destruct (H2 _ _ Hc) as (pg' & Hpg' & Hcl). simplify_eq.
    apply (Hnc cpu q Hs). destruct Hcl as (_ & -> & _). done. }
  assert (Hf : ∀ cpu q, cached nd zj cpu q → is_free nd' zj q → is_free nd zj q).
  { intros cpu q Hc Hf. destruct (decide (zj = zi)) as [->|Hz].
    - destruct (Hfree q Hf) as [|Hs]; [done|]. by destruct (HnS cpu q).
    - revert Hf. unfold is_free, free_block, nd_area. by rewrite (fr_zones _ _ _ _ Hfr). }
  assert (Hch : ∀ cpu q, cached nd' zj cpu q ↔ cached nd zj cpu q) by (intros; unfold cached; by rewrite Hps).
  split; try setoid_rewrite Hch; [intros cpu; by rewrite Hps| | |done].
  - intros cpu q Hc. rewrite (fr_pages _ _ _ _ Hfr) by (by eapply HnS). by eapply H2.
  - intros cpu q Hc Hq. by apply (H3 cpu q), (Hf cpu q).
Qed.

(** Pages without a mark that no list holds may change at will. *)
Lemma alloc_inv_pages nd nd' :
  alloc_inv nd → node_zones nd' = node_zones nd → (∀ zi q, avail nd zi q → mem_map nd' !! q = mem_map nd !! q) →
  (∀ q, pg_zone <$> mem_map nd' !! q = pg_zone <$> mem_map nd !! q) →
  (∀ q pg, mem_map nd' !! q = Some pg → PageBuddy pg = true → mem_map nd !! q = Some pg) → alloc_inv nd'.
Proof.
  intros [Hn Hp] Hz Hsame Hk Hnb.
  assert (Hf : ∀ zi o p, free_block nd' zi o p ↔ free_block nd zi o p) by (intros; unfold free_block, nd_area; by rewrite Hz).
  assert (Hfr : ∀ zi q, is_free nd' zi q ↔ is_free nd zi q) by (intros; unfold is_free; by setoid_rewrite Hf).
  assert (Hc : ∀ zi cpu q, cached nd' zi cpu q ↔ cached nd zi cpu q) by (intros; unfold cached, pcp_of; by rewrite Hz).
  split; intros zi.
  - destruct (Hn zi) as [H1 H2 H3 H4 H5 H6 H7 H8]. split; try setoid_rewrite Hf; try done.
    + assert (Hd : dom (mem_map nd') =@{gset Z} dom (mem_map nd)).
      { apply set_eq. intros q. by rewrite !elem_of_dom, <-!(fmap_is_Some pg_zone), Hk. }
      by rewrite <-(size_dom (D := gset Z)), Hd, size_dom.
    + intros o. unfold nd_area. rewrite Hz. apply H3.
    + intros o p Hb. rewrite (Hsame zi); [by apply H5|]. left. exists o, p. split; [done|apply inb_self].
    + intros o p q Hb Hq. rewrite (Hsame zi); [by apply (H6 o p)|]. left. by exists o, p.
    + intros p pg Hpp Hzp Hb. apply H7; [by apply Hnb|done..].
  - destruct (Hp zi) as [H1 H2 H3 H4]. split; try setoid_rewrite Hc; try setoid_rewrite Hfr; try done.
    + intros cpu. unfold pcp_of. rewrite Hz. apply H1.
    + intros cpu q Hq. rewrite (Hsame zi); [by apply (H2 cpu)|]. right. by exists cpu.
Qed.

Section zone.
Variable zi : nat.

(** ** Freeing to the buddy lists *)

Lemma inb_0 p q : inb p 0 q ↔ q = p.
Proof. unfold inb. change (bsz 0) with 1. lia. Qed.
Lemma loose_page nd q pg : mem_map nd !! q = Some pg → clean zi pg → ¬ is_free nd zi q → loose nd zi 0 q.
Proof. intros Hq Hc Hn. split; [exists q; change (bsz 0) with 1; lia|]. intros q' ->%inb_0. eauto. Qed.

Lemma free_one_alloc nd p o :
  alloc_inv nd → zn_initialized (node_zones nd zi) = true → loose nd zi o p → (o < MAX_ORDER)%nat →
  (∀ cpu q, inb p o q → ¬ cached nd zi cpu q) →
  ∃ nd', __free_one_page zi p o nd = Some (tt, nd') ∧ alloc_inv nd' ∧ freed zi nd p o nd'.
Proof.
  intros [Hn Hp] Hinit Hl Ho Hnc. destruct (free_one_page_run zi nd p o Hn Hinit Hl Ho) as (nd' & Hrun & Hfd).
  exists nd'. split; [done|]. split; [|done]. destruct Hfd as [Hi' Hf' Hfr']. split; [done|]. intros zj.
  eapply pcp_inv_frame; [apply Hp|exact Hfr'| | |].
  - intros q [Hq|Hq]; [by apply free_zone|by eapply loose_zone].
  - intros cpu q [Hq|Hq] Hc; [by apply (pc_loose _ _ (Hp zi) _ _ Hc)|by apply (Hnc cpu q)].
  - intros q. rewrite Hf'. tauto.
Qed.

Lemma cached_frame S nd nd' cpu q : zone_frame zi S nd nd' → cached nd' zi cpu q ↔ cached nd zi cpu q.
Proof. intros Hfr. unfold cached, pcp_of. by rewrite (fr_pageset _ _ _ _ Hfr). Qed.

Lemma free_list_pages_run l : ∀ nd,
  alloc_inv nd → zn_initialized (node_zones nd zi) = true → NoDup l →
  (∀ q, q ∈ l → (∃ pg, mem_map nd !! q = Some pg ∧ clean zi pg) ∧ ¬ avail nd zi q) →
  ∃ nd', free_list_pages zi l nd = Some (tt, nd') ∧ alloc_inv nd' ∧ (∀ q, is_free nd' zi q ↔ is_free nd zi q ∨ q ∈ l) ∧
         zone_frame zi (λ q, is_free nd zi q ∨ q ∈ l) nd nd'.
Proof.
  induction l as [|p l IH]; intros nd Hi Hinit Hnd Hl.
  { exists nd. split; [done|]. split; [done|]. split; [set_solver|apply zone_frame_refl]. }
  apply NoDup_cons in Hnd as [Hpl Hnd]. cbn [free_list_pages].
  destruct (Hl p) as [(pg & Hp & Hc) Hna]; [left|]. unfold avail in Hna.
  destruct (free_one_alloc nd p 0) as (nd1 & Hrun & Hi1 & [_ Hf1 Hfr1]); [done|done|eapply loose_page; eauto|unfold MAX_ORDER; lia| |].
  { intros cpu q ->%inb_0 Hcq. apply Hna. eauto. }
  rewrite (kbind_run _ _ _ _ _ Hrun). setoid_rewrite inb_0 in Hf1.
  assert (Hkeep : ∀ q, q ∈ l → ¬ (is_free nd zi q ∨ inb p 0 q)).
  { intros q Hq. rewrite inb_0. destruct (Hl q) as [_ Hn]; [by right|]. unfold avail in Hn. intros [?| ->]; [tauto|done]. }
  destruct (IH nd1) as (nd' & Hrun' & Hi' & Hf' & Hfr'); [done|by rewrite (fr_init _ _ _ _ Hfr1)|done| |].
  { intros q Hq. rewrite (fr_pages _ _ _ _ Hfr1) by auto. destruct (Hl q) as [Hcq Hn]; [by right|]. split; [done|].
    specialize (Hkeep q Hq). rewrite inb_0 in Hkeep. unfold avail in *. rewrite Hf1. setoid_rewrite (cached_frame _ _ _ _ _ Hfr1). tauto. }
  exists nd'. split; [done|]. split; [done|]. split; [intros q; rewrite Hf', Hf1, elem_of_cons; tauto|].
  eapply zone_frame_trans; (eapply zone_frame_weaken; [|first [exact Hfr1|exact Hfr']]); intros q; cbv beta;
    rewrite ?Hf1, ?inb_0, elem_of_cons; tauto.
Qed.

(** ** Taking pages off a page set *)

Lemma pcp_take_run n : ∀ cpu nd h,
  let p := pcp_of nd zi cpu in
  pcp_count p = Z.of_nat (length (pcp_lists p)) → pcp_count p < 2 ^ 31 → (n ≤ length (pcp_lists p))%nat →
  pcp_take n zi cpu h nd =
    Some (h ++ take n (reverse (pcp_lists p)),
          put_pcp zi cpu (mk_pcp (pcp_count p - Z.of_nat n) (pcp_high p) (pcp_batch p)
                            (take (length (pcp_lists p) - n) (pcp_lists p))) nd).
Proof.
  induction n as [|n IH]; intros cpu nd h p Hc Hb Hn.
  { cbn [pcp_take]. unfold kret. rewrite take_0, app_nil_r, Nat.sub_0_r, take_ge, Z.sub_0_r by lia.
    destruct p as [c hi ba l] eqn:Hp. cbn [pcp_count pcp_high pcp_batch pcp_lists]. rewrite <-Hp. unfold p. by rewrite put_pcp_id. }
  cbn [pcp_take]. rewrite (kbind_run _ _ _ _ _ (get_pcp_run zi cpu nd)). fold p.
  destruct (exists_last (l := pcp_lists p)) as (l0 & x0 & Hl); [intros He; rewrite He in Hn; simpl in Hn; lia|]. rewrite Hl in *.
  rewrite last_snoc, removelast_last, (kbind_run _ _ _ _ _ (set_pcp_run _ _ _ _)). rewrite length_app in *. simpl in Hn, Hc.
  rewrite IH; rewrite pcp_put_eq; cbn [pcp_count pcp_high pcp_batch pcp_lists].
  - rewrite put_pcp_twice, reverse_snoc. cbn [take]. rewrite <-app_assoc. cbn [app].
    rewrite s32_small by lia. rewrite take_app_le by (simpl; lia). 
    replace (length l0 + length [x0] - S n)%nat with (length l0 - n)%nat by (simpl; lia).
    by replace (pcp_count p - 1 - Z.of_nat n) with (pcp_count p - Z.of_nat (S n)) by lia.
  - rewrite s32_small by lia. lia.
  - rewrite s32_small by lia. lia.
  - lia.
Qed.

Lemma take_reverse_drop {A} n (l : list A) : (n ≤ length l)%nat → take n (reverse l) = reverse (drop (length l - n) l).
Proof.
  intros Hn. rewrite <-(take_drop (length l - n) l) at 1. rewrite reverse_app. apply take_app_length'.
  rewrite length_reverse, length_drop. lia.
Qed.

(** The page set [p] may hold one page more than the invariant allows. *)
Lemma bulk_run nd cpu p n :
  alloc_inv nd → zn_initialized (node_zones nd zi) = true →
  pcp_count p = Z.of_nat (length (pcp_lists p)) → pcp_count p < 2 ^ 31 → NoDup (pcp_lists p) →
  1 ≤ pcp_batch p ≤ Z.max 1 (pcp_high p) → 0 ≤ pcp_high p < 2 ^ 31 →
  (∀ q, q ∈ pcp_lists p → (∃ pg, mem_map nd !! q = Some pg ∧ clean zi pg) ∧ ¬ is_free nd zi q ∧
                          ∀ cpu', cpu' ≠ cpu → ¬ cached nd zi cpu' q) →
  (n ≤ length (pcp_lists p))%nat → pcp_count p - Z.of_nat n < Z.max 1 (pcp_high p) →
  let keep := take (length (pcp_lists p) - n) (pcp_lists p) in
  let p' := mk_pcp (pcp_count p - Z.of_nat n) (pcp_high p) (pcp_batch p) keep in
  ∃ nd', free_pcppages_bulk zi cpu (Z.of_nat n) (put_pcp zi cpu p nd) = Some (tt, nd') ∧ alloc_inv nd' ∧
    (∀ q, is_free nd' zi q ↔ is_free nd zi q ∨ q ∈ drop (length (pcp_lists p) - n) (pcp_lists p)) ∧
    (∀ cpu', pcp_of nd' zi cpu' = if decide (cpu' = cpu) then p' else pcp_of nd zi cpu') ∧
    node_frame zi (λ q, is_free nd zi q ∨ q ∈ pcp_lists p) nd nd'.
Proof.
  intros Hi Hinit Hc Hb Hnd Hba Hhi Hl Hn Hlt keep p'. set (out := drop (length (pcp_lists p) - n) (pcp_lists p)).
  assert (Hko : pcp_lists p = keep ++ out) by (symmetry; apply take_drop).
  rewrite Hko in Hnd. apply NoDup_app in Hnd as (Hndk & Hdis & Hndo).
  assert (Hlk : length keep = (length (pcp_lists p) - n)%nat) by (apply length_take_le; lia).
  unfold free_pcppages_bulk. rewrite (proj2 (Z.ltb_ge _ _)) by lia. rewrite Nat2Z.id.
  erewrite kbind_run; [|apply pcp_take_run; rewrite pcp_put_eq; done]. rewrite pcp_put_eq, put_pcp_twice. cbn [app].
  fold keep. fold p'. rewrite take_reverse_drop by done. fold out.
  assert (Hi1 : alloc_inv (put_pcp zi cpu p' nd)).
  { apply alloc_put_pcp; [done| |].
    - unfold pcp_ok. simpl. split_and!; try done; lia.
    - intros q Hq. apply Hl. rewrite Hko. apply elem_of_app. by left. }
  destruct (free_list_pages_run (reverse out) (put_pcp zi cpu p' nd)) as (nd' & Hrun & Hi' & Hf' & Hfr').
  { done. } { by rewrite init_put_pcp. } { by rewrite reverse_Permutation. }
  { intros q Hq. rewrite elem_of_reverse in Hq. destruct (Hl q) as (Hcl & Hnf & Hnc); [rewrite Hko; apply elem_of_app; by right|].
    split; [done|]. intros [Hfq|[cpu' Hcq]]; [by apply free_put_pcp in Hfq|]. unfold cached in Hcq. rewrite pcp_put in Hcq.
    case_decide as Hd; [by apply (Hdis q)|]. apply (Hnc cpu'); [naive_solver|done]. }
  setoid_rewrite elem_of_reverse in Hf'. setoid_rewrite free_put_pcp in Hf'.
  exists nd'. split; [done|]. split; [done|]. split; [done|]. split.
  - intros cpu'. unfold pcp_of at 1. rewrite (fr_pageset _ _ _ _ Hfr'). fold (pcp_of (put_pcp zi cpu p' nd) zi cpu').
    rewrite pcp_put. repeat case_decide; naive_solver.
  - eapply node_frame_trans; [apply (put_pcp_frame zi cpu p')|]. eapply node_frame_weaken; [|apply zone_node_frame; exact Hfr'].
    intros q. cbv beta. rewrite free_put_pcp, elem_of_reverse, Hko, elem_of_app. tauto.
Qed.

(** ** Giving a page to a page set *)

Record given (nd : node) (S : Z → Prop) (nd' : node) : Prop := {
  gv_inv : alloc_inv nd';
  gv_avail : ∀ q, avail nd' zi q ↔ avail nd zi q ∨ S q;
  gv_frame : node_frame zi (λ q, avail nd zi q ∨ S q) nd nd' }.

Lemma avail_put_pcp cpu p nd q :
  avail (put_pcp zi cpu p nd) zi q ↔ is_free nd zi q ∨ q ∈ pcp_lists p ∨ ∃ cpu', cpu' ≠ cpu ∧ cached nd zi cpu' q.
Proof.
  unfold avail, cached. rewrite free_put_pcp. setoid_rewrite pcp_put. split.
  - intros [?|[c Hc]]; [by left|right]. case_decide as Hd; [by left|]. right. exists c. split; [naive_solver|done].
  - intros [?|[Hq|(c & Hne & Hc)]]; [by left|right; exists cpu|right; exists c]; [by rewrite decide_True|by rewrite decide_False by tauto].
Qed.

Lemma avail_bulk nd nd' cpu (p : per_cpu_pages) k q :
  (∀ q, is_free nd' zi q ↔ is_free nd zi q ∨ q ∈ drop k (pcp_lists p)) →
  (∀ cpu', pcp_lists (pcp_of nd' zi cpu') = if decide (cpu' = cpu) then take k (pcp_lists p) else pcp_lists (pcp_of nd zi cpu')) →
  avail nd' zi q ↔ avail (put_pcp zi cpu p nd) zi q.
Proof.
  intros Hf Hc. rewrite avail_put_pcp. unfold avail, cached. rewrite Hf. setoid_rewrite Hc.
  rewrite <-(take_drop k (pcp_lists p)) at 2. rewrite elem_of_app. split.
  - intros [[?|?]|[c Hq]]; [tauto..|]. case_decide; [tauto|]. right; right. eauto.
  - intros [?|[[Hq|?]|(c & Hne & Hq)]]; [tauto| |tauto|]; right; [exists cpu; by rewrite decide_True|exists c; by rewrite decide_False].
Qed.

Lemma free_unref_page_commit_run nd cpu p pg :
  alloc_inv nd → zn_initialized (node_zones nd zi) = true → mem_map nd !! p = Some pg → clean zi pg → ¬ avail nd zi p →
  ∃ nd', free_unref_page_commit cpu p nd = Some (tt, nd') ∧ given nd (.= p) nd'.
Proof.
  intros Hi Hinit Hp Hcl Hna. unfold free_unref_page_commit, page_zone.
  rewrite kbind_assoc, (kbind_run _ _ _ _ _ (get_page_run p pg nd Hp)), kbind_ret.
  assert (pg_zone pg = zi) as -> by apply Hcl. rewrite (kbind_run _ _ _ _ _ (get_pcp_run zi cpu nd)).
  rewrite (kbind_run _ _ _ _ _ (upd_page_run p pg _ nd Hp)).
  assert (set_tail None pg = pg) as -> by (destruct Hcl as (_ & _ & _ & _ & Ht); destruct pg; simpl in *; by subst).
  rewrite put_page_id by done. destruct (pc_ok _ _ (al_pcp _ Hi zi) cpu) as (Hc & Hnd & Hba & Hhi & Hlt).
  set (ps := pcp_of nd zi cpu) in *. rewrite s32_small by lia. cbv zeta. cbn [pcp_count pcp_high pcp_batch].
  set (ps' := mk_pcp (pcp_count ps + 1) (pcp_high ps) (pcp_batch ps) (p :: pcp_lists ps)).
  rewrite (kbind_run _ _ _ _ _ (set_pcp_run zi cpu ps' nd)). unfold avail in Hna.
  assert (Hnd' : NoDup (pcp_lists ps')) by (apply NoDup_cons; split; [intros Hin; apply Hna; right; by exists cpu|done]).
  assert (Hl : ∀ q, q ∈ pcp_lists ps' → (∃ pg, mem_map nd !! q = Some pg ∧ clean zi pg) ∧ ¬ is_free nd zi q ∧
                          ∀ cpu', cpu' ≠ cpu → ¬ cached nd zi cpu' q).
  { intros q [->|Hq]%elem_of_cons.
    - split; [eauto|]. split; [tauto|]. intros cpu' _ Hcq. apply Hna. eauto.
    - split; [by eapply (pc_clean _ _ (al_pcp _ Hi zi))|]. split; [by eapply (pc_loose _ _ (al_pcp _ Hi zi))|].
      intros cpu' Hne Hcq. apply Hne. by eapply (pc_one _ _ (al_pcp _ Hi zi)). }
  assert (Hav : ∀ q, avail (put_pcp zi cpu ps' nd) zi q ↔ avail nd zi q ∨ q = p).
  { intros q. rewrite avail_put_pcp. unfold avail, ps'. cbn [pcp_lists]. rewrite elem_of_cons. split.
    - intros [?|[[?|?]|(c & _ & ?)]]; eauto.
    - intros [[?|[c Hq]]| ->]; [by left| |tauto]. destruct (decide (c = cpu)) as [->|]; [tauto|]. right; right. eauto. }
  rewrite Z.geb_leb. destruct (Z.leb_spec (pcp_high ps) (pcp_count ps + 1)).
  - destruct (bulk_run nd cpu ps' (Z.to_nat (pcp_batch ps))) as (nd' & Hrun & Hi' & Hf' & Hps' & Hfr'); try done;
      try (unfold ps'; cbn [pcp_count pcp_high pcp_batch pcp_lists length]; lia).
    rewrite Z2Nat.id in Hrun by lia. exists nd'. split; [exact Hrun|]. split; [done| |].
    + intros q. rewrite (avail_bulk nd nd' cpu ps' (length (pcp_lists ps') - Z.to_nat (pcp_batch ps))%nat), Hav; [done|done|].
      intros cpu'. rewrite Hps'. by case_decide.
    + eapply node_frame_weaken; [|exact Hfr']. intros q. cbv beta. rewrite <-Hav, avail_put_pcp. tauto.
  - exists (put_pcp zi cpu ps' nd). split; [done|]. split; [|done|apply put_pcp_frame]. apply alloc_put_pcp; [done| |done].
    unfold pcp_ok, ps'. cbn [pcp_count pcp_high pcp_batch pcp_lists length]. split_and!; try done; lia.
Qed.

(** ** Draining a page set *)

Lemma drain_pages_zone_run nd cpu :
  alloc_inv nd → zn_initialized (node_zones nd zi) = true →
  ∃ nd', drain_pages_zone cpu zi nd = Some (bool_decide (pcp_lists (pcp_of nd zi cpu) ≠ []), nd') ∧
    given nd (λ _, False) nd' ∧ (∀ q, is_free nd' zi q ↔ is_free nd zi q ∨ cached nd zi cpu q) ∧
    (∀ cpu', pcp_lists (pcp_of nd' zi cpu') = if decide (cpu' = cpu) then [] else pcp_lists (pcp_of nd zi cpu')).
Proof.
  intros Hi Hinit. unfold drain_pages_zone. rewrite (kbind_run _ _ _ _ _ (get_pcp_run zi cpu nd)).
  destruct (pc_ok _ _ (al_pcp _ Hi zi) cpu) as (Hc & Hnd & Hba & Hhi & Hlt). set (ps := pcp_of nd zi cpu) in *. rewrite Hc.
  destruct (Z.eqb_spec (Z.of_nat (length (pcp_lists ps))) 0) as [H0|H0].
  - assert (Hl0 : pcp_lists ps = []) by (destruct (pcp_lists ps); [done|simpl in H0; lia]).
    rewrite bool_decide_false by (intros Hx; by apply Hx). exists nd. split; [done|]. split; [|split].
    + split; [done|tauto|apply node_frame_refl].
    + intros q. unfold cached. fold ps. rewrite Hl0. set_solver.
    + intros cpu'. case_decide as Hd; [by rewrite Hd|done].
  - assert (Hl0 : pcp_lists ps ≠ []) by (intros Hx; rewrite Hx in H0; done). rewrite bool_decide_true by done.
    destruct (bulk_run nd cpu ps (length (pcp_lists ps))) as (nd' & Hrun & Hi' & Hf' & Hps' & Hfr'); try done; try lia.
    { intros q Hq. split; [by eapply (pc_clean _ _ (al_pcp _ Hi zi))|]. split; [by eapply (pc_loose _ _ (al_pcp _ Hi zi))|].
      intros cpu' Hne Hcq. apply Hne. by eapply (pc_one _ _ (al_pcp _ Hi zi)). }
    unfold ps in Hrun at 2. rewrite put_pcp_id in Hrun. rewrite (kbind_run _ _ _ _ _ Hrun). exists nd'. split; [done|].
    rewrite Nat.sub_diag in *. assert (Hps'' : ∀ cpu', pcp_lists (pcp_of nd' zi cpu') = if decide (cpu' = cpu) then [] else pcp_lists (pcp_of nd zi cpu')).
    { intros cpu'. rewrite Hps'. by case_decide. }
    split; [split; [done| |]|split; done].
    + intros q. rewrite (avail_bulk nd nd' cpu ps 0); [|done|done]. unfold ps. rewrite put_pcp_id. tauto.
    + eapply node_frame_weaken; [|exact Hfr']. intros q [Hq|Hq]; left; [by left|right; by exists cpu].
Qed.

(** ** Taking pages from the buddy lists *)

Lemma took_alloc nd o p nd' : alloc_inv nd → took zi nd o p nd' → alloc_inv nd'.
Proof.
  intros [Hn Hp] [Hi' Hl' Hw' Hf' Hfr']. split; [done|]. intros zj. eapply pcp_inv_frame; [apply Hp|exact Hfr'| | |].
  - intros q Hq. by apply free_zone.
  - intros cpu q Hq Hc. by apply (pc_loose _ _ (Hp zi) _ _ Hc).
  - intros q. rewrite Hf'. tauto.
Qed.

Record bulked (nd : node) (l : list Z) (nd' : node) : Prop := {
  bk_inv : alloc_inv nd';
  bk_nodup : NoDup l;
  bk_was : ∀ q, q ∈ l → is_free nd zi q;
  bk_clean : ∀ q, q ∈ l → ∃ pg, mem_map nd' !! q = Some pg ∧ clean zi pg;
  bk_free : ∀ q, is_free nd' zi q ↔ is_free nd zi q ∧ q ∉ l;
  bk_frame : zone_frame zi (is_free nd zi) nd nd' }.

Lemma rmqueue_bulk_run n : ∀ nd l0,
  alloc_inv nd →
  ∃ l nd', rmqueue_bulk n zi 0 l0 nd = Some (l0 ++ l, nd') ∧ bulked nd l nd' ∧ (length l ≤ n)%nat ∧
           (l = [] → (0 < n)%nat → nd' = nd ∧ ∀ q, ¬ is_free nd zi q).
Proof.
  induction n as [|n IH]; intros nd l0 Hi.
  { exists [], nd. rewrite app_nil_r. split; [done|]. split; [|split; [done|lia]].
    split; [done|apply NoDup_nil_2|set_solver|set_solver|set_solver|apply zone_frame_refl]. }
  cbn [rmqueue_bulk]. unfold __rmqueue.
  destruct (rmqueue_smallest_run zi nd 0 (al_node _ Hi)) as [(p & nd1 & Hrun & Ht)|[Hrun Hnone]]; [unfold MAX_ORDER; lia| |];
    rewrite (kbind_run _ _ _ _ _ Hrun).
  - pose proof (took_alloc _ _ _ _ Hi Ht) as Hi1. destruct Ht as [_ Hl1 Hw1 Hf1 Hfr1]. setoid_rewrite inb_0 in Hf1.
    destruct (IH nd1 (l0 ++ [p]) Hi1) as (l & nd' & Hrun' & [Hi' Hnd Hw Hcl Hf Hfr] & Hlen & _).
    assert (Hpl : p ∉ l) by (intros Hin%Hw; apply Hf1 in Hin as [_ Hin]; done).
    exists (p :: l), nd'. rewrite <-app_assoc in Hrun'. split; [exact Hrun'|]. split; [|split; [simpl; lia|done]]. split; [done| | | | |].
    + by apply NoDup_cons.
    + intros q [->|Hq]%elem_of_cons; [apply Hw1, inb_self|]. by apply Hf1, Hw.
    + intros q [->|Hq]%elem_of_cons; [|by apply Hcl]. rewrite (fr_pages _ _ _ _ Hfr); [|rewrite Hf1; tauto].
      by apply (proj2 Hl1), inb_self.
    + intros q. rewrite Hf, Hf1, not_elem_of_cons. tauto.
    + eapply zone_frame_trans; [exact Hfr1|]. eapply zone_frame_weaken; [|exact Hfr]. intros q Hq. by apply Hf1.
  - exists [], nd. rewrite app_nil_r. split; [done|]. split; [|split; [simpl; lia|]].
    + split; [done|apply NoDup_nil_2|set_solver|set_solver|set_solver|apply zone_frame_refl].
    + intros _ _. split; [done|]. intros q Hq. apply (Hnone q); [exists q; change (bsz 0) with 1; lia|]. by intros q' ->%inb_0.
Qed.

(** ** Taking a page through a page set *)

Record granted (nd : node) (o : nat) (p : Z) (nd' : node) : Prop := {
  gr_inv : alloc_inv nd';
  gr_loose : loose nd' zi o p;
  gr_was : ∀ q, inb p o q → avail nd zi q;
  gr_avail : ∀ q, avail nd' zi q ↔ avail nd zi q ∧ ¬ inb p o q;
  gr_frame : node_frame zi (avail nd zi) nd nd' }.

(** The refill of an empty page set: afterwards it holds a page, or there is none. *)
Definition refill (cpu : nat) (pcp : per_cpu_pages) : K unit :=
  match pcp_lists pcp with
  | [] => let! l := rmqueue_bulk (Z.to_nat (pcp_batch pcp)) zi 0 [] in
          set_pcp zi cpu (mk_pcp (s32 (pcp_count pcp + Z.of_nat (length l))) (pcp_high pcp) (pcp_batch pcp) l)
  | _ => kret tt
  end.

(** The page set may hold as many pages as a batch until one is taken. *)
Record refilled (nd : node) (cpu : nat) (p : per_cpu_pages) (nd1 nd' : node) : Prop := {
  rf_node : nd' = put_pcp zi cpu p nd1;
  rf_inv : alloc_inv nd1;
  rf_ok : pcp_count p = Z.of_nat (length (pcp_lists p)) ∧ NoDup (pcp_lists p) ∧
          1 ≤ pcp_batch p ≤ Z.max 1 (pcp_high p) ∧ 0 ≤ pcp_high p < 2 ^ 31 ∧ pcp_count p ≤ Z.max 1 (pcp_high p);
  rf_pages : ∀ q, q ∈ pcp_lists p → (∃ pg, mem_map nd1 !! q = Some pg ∧ clean zi pg) ∧ ¬ is_free nd1 zi q ∧
                          ∀ cpu', cpu' ≠ cpu → ¬ cached nd1 zi cpu' q;
  rf_avail : ∀ q, avail nd' zi q ↔ avail nd zi q;
  rf_frame : node_frame zi (avail nd zi) nd nd';
  rf_none : pcp_lists p = [] → nd' = nd ∧ (∀ q, ¬ is_free nd zi q) ∧ ∀ q, ¬ cached nd zi cpu q }.

Lemma refill_run nd cpu :
  alloc_inv nd → ∃ p nd1 nd', refill cpu (pcp_of nd zi cpu) nd = Some (tt, nd') ∧ refilled nd cpu p nd1 nd'.
Proof.
  intros Hi. destruct (pc_ok _ _ (al_pcp _ Hi zi) cpu) as (Hc & Hnd & Hba & Hhi & Hlt). set (ps := pcp_of nd zi cpu) in *.
  unfold refill. destruct (pcp_lists ps) as [|x l] eqn:Hl.
  - destruct (rmqueue_bulk_run (Z.to_nat (pcp_batch ps)) nd [] Hi) as (l & nd1 & Hrun & [Hi1 Hndl Hw Hcl Hf Hfr] & Hlen & Hnone).
    rewrite (kbind_run _ _ _ _ _ Hrun). cbn [app]. rewrite set_pcp_run, Hc, s32_small by (simpl; lia). cbn [length Z.of_nat].
    rewrite Z.add_0_l. eexists _, nd1, _. split; [done|]. set (p := mk_pcp _ _ _ l).
    assert (Hav : ∀ q, avail (put_pcp zi cpu p nd1) zi q ↔ avail nd zi q).
    { intros q. rewrite avail_put_pcp. unfold avail. rewrite Hf. setoid_rewrite (cached_frame _ _ _ _ _ Hfr). simpl. split.
      - intros [?|[Hq|(c & _ & ?)]]; [tauto|left; by apply Hw|eauto].
      - intros [Hq|[c Hq]]; [destruct (decide (q ∈ l)); tauto|]. destruct (decide (c = cpu)) as [->|]; [|right; right; eauto].
        unfold cached in Hq. fold ps in Hq. rewrite Hl in Hq. set_solver. }
    split; [done|done| | |done| |].
    + unfold p. cbn [pcp_count pcp_high pcp_batch pcp_lists]. simpl in Hc, Hlt. split_and!; try done; lia.
    + intros q Hq. split; [by apply Hcl|]. split; [rewrite Hf; naive_solver|]. intros cpu' _ Hcq.
      apply (cached_frame _ _ _ _ _ Hfr) in Hcq. by apply (pc_loose _ _ (al_pcp _ Hi zi) cpu' q Hcq), Hw.
    + eapply node_frame_trans; [|apply put_pcp_frame]. eapply node_frame_weaken; [|apply zone_node_frame; exact Hfr]. intros q. by left.
    + cbn [pcp_lists p]. intros ->. destruct Hnone as [-> Hno]; [done|lia|]. split; [|split; [done|]].
      * assert (p = ps) as ->; [|apply put_pcp_id]. unfold p. destruct ps; simpl in *. by subst.
      * intros q. unfold cached. fold ps. rewrite Hl. set_solver.
  - exists ps, nd, nd. split; [done|]. split.
    + unfold ps. by rewrite put_pcp_id.
    + done.
    + rewrite Hl. split_and!; try done; lia.
    + intros q Hq. split; [by eapply (pc_clean _ _ (al_pcp _ Hi zi))|]. split; [by eapply (pc_loose _ _ (al_pcp _ Hi zi))|].
      intros cpu' Hne Hcq. apply Hne. by eapply (pc_one _ _ (al_pcp _ Hi zi)).
    + done.
    + apply node_frame_refl.
    + by rewrite Hl.
Qed.

Lemma check_new_page_run nd p pg : mem_map nd !! p = Some pg → clean zi pg → check_new_page p nd = Some (false, nd).
Proof.
  intros Hp (Hf & _ & Ht & Hr & _). unfold check_new_page. rewrite (kbind_run _ _ _ _ _ (get_page_run p pg nd Hp)).
  unfold page_expected_state, mapcount_none. by rewrite Ht, Hr, Hf.
Qed.
Lemma check_new_pages_run nd n : ∀ p,
  (∀ q, p ≤ q < p + Z.of_nat n → ∃ pg, mem_map nd !! q = Some pg ∧ clean zi pg) → check_new_pages n p nd = Some (false, nd).
Proof.
  induction n as [|n IH]; intros p Hq; [done|]. cbn [check_new_pages]. destruct (Hq p) as (pg & Hp & Hc); [lia|].
  rewrite (kbind_run _ _ _ _ _ (check_new_page_run nd p pg Hp Hc)). apply IH. intros q Hr. apply Hq. lia.
Qed.

(** The first page of the refilled set is handed out. *)
Lemma pcplist_take nd cpu ps nd1 nd2 p l :
  refilled nd cpu ps nd1 nd2 → pcp_lists ps = p :: l →
  let ps' := mk_pcp (pcp_count ps - 1) (pcp_high ps) (pcp_batch ps) l in
  granted nd 0 p (put_pcp zi cpu ps' nd1).
Proof.
  intros [Hnode Hi1 (Hc & Hnd & Hba & Hhi & Hle) Hpg Hav Hfr _] Hl ps'. rewrite Hl in *. apply NoDup_cons in Hnd as [Hpl Hnd].
  destruct (Hpg p) as (Hcl & Hnf & Hnc); [left|].
  assert (Hav' : ∀ q, avail (put_pcp zi cpu ps' nd1) zi q ↔ avail nd zi q ∧ ¬ inb p 0 q).
  { intros q. rewrite <-Hav, Hnode, !avail_put_pcp, inb_0, Hl, elem_of_cons. simpl. split.
    - intros [Hq|[Hq|(c & Hne & Hq)]].
      + split; [by left|]. by intros ->.
      + split; [tauto|]. by intros ->.
      + split; [right; right; eauto|]. intros ->. by apply (Hnc c).
    - intros [[Hq|[[->|Hq]|Hq]] Hne]; tauto. }
  split; [| | |exact Hav'|].
  - apply alloc_put_pcp; [done| |].
    + unfold pcp_ok, ps'. simpl in *. split_and!; try done; lia.
    + intros q Hq. apply Hpg. by right.
  - destruct Hcl as (pg & Hp & Hcl). eapply loose_page; [exact Hp|done|]. by rewrite free_put_pcp.
  - intros q ->%inb_0. rewrite <-Hav, Hnode, avail_put_pcp, Hl. right; left. left.
  - subst nd2. split.
    + intros zj Hz. rewrite <-(nf_zones _ _ _ _ Hfr) by done. unfold put_pcp. simpl. by rewrite !fn_lookup_insert_ne.
    + rewrite <-(nf_init _ _ _ _ Hfr). by rewrite !init_put_pcp.
    + intros q Hq. rewrite <-(nf_pages _ _ _ _ Hfr) by done. done.
    + intros q. rewrite <-(nf_kept _ _ _ _ Hfr). done.
Qed.

Lemma rmqueue_pcplist_run n nd cpu :
  alloc_inv nd →
  (∃ p nd', rmqueue_pcplist (S n) zi cpu nd = Some (Some p, nd') ∧ granted nd 0 p nd') ∨
  (rmqueue_pcplist (S n) zi cpu nd = Some (None, nd) ∧ (∀ q, ¬ is_free nd zi q) ∧ ∀ q, ¬ cached nd zi cpu q).
Proof.
  intros Hi. unfold rmqueue_pcplist. cbn [__rmqueue_pcplist]. rewrite (kbind_run _ _ _ _ _ (get_pcp_run zi cpu nd)).
  destruct (refill_run nd cpu Hi) as (ps & nd1 & nd2 & Hrun & Hrf). fold (refill cpu (pcp_of nd zi cpu)).
  rewrite (kbind_run _ _ _ _ _ Hrun), (kbind_run _ _ _ _ _ (get_pcp_run zi cpu nd2)).
  assert (pcp_of nd2 zi cpu = ps) as -> by (rewrite (rf_node _ _ _ _ _ Hrf); apply pcp_put_eq).
  destruct (pcp_lists ps) as [|p l] eqn:Hl.
  - right. destruct (rf_none _ _ _ _ _ Hrf Hl) as (-> & Hno). done.
  - left. pose proof (pcplist_take _ _ _ _ _ _ _ Hrf Hl) as Hgr. cbv zeta in Hgr.
    rewrite (kbind_run _ _ _ _ _ (set_pcp_run _ _ _ _)). rewrite (rf_node _ _ _ _ _ Hrf), put_pcp_twice.
    destruct (rf_ok _ _ _ _ _ Hrf) as (Hc & _ & _ & Hhi & Hle). rewrite Hl in Hc. simpl in Hc. rewrite s32_small by lia.
    destruct (proj2 (gr_loose _ _ _ _ Hgr) p (inb_self _ _)) as [(pg & Hp & Hcl) _].
    rewrite (kbind_run _ _ _ _ _ (check_new_page_run _ p pg Hp Hcl)). by eexists _, _.
Qed.

Lemma took_granted nd o p nd' : alloc_inv nd → took zi nd o p nd' → granted nd o p nd'.
Proof.
  intros Hi Ht. pose proof (took_alloc _ _ _ _ Hi Ht) as Hi'. destruct Ht as [_ Hl Hw Hf Hfr].
  split; [done|done|intros q Hq; left; by apply Hw| |].
  - intros q. unfold avail. rewrite Hf. setoid_rewrite (cached_frame _ _ _ _ _ Hfr). split.
    + intros [[? ?]|[c Hc]]; [tauto|]. split; [eauto|]. intros Hq. by apply (pc_loose _ _ (al_pcp _ Hi zi) c q), Hw.
    + intros [[?|?] ?]; tauto.
  - eapply node_frame_weaken; [|apply zone_node_frame; exact Hfr]. intros q. by left.
Qed.

(** What a failed [rmqueue] says. *)
Definition exhausted (nd : node) (cpu o : nat) : Prop :=
  (∀ p, aligned p o → ¬ ∀ q, inb p o q → is_free nd zi q) ∧ (o = O → ∀ q, ¬ cached nd zi cpu q).

Lemma rmqueue_run n nd cpu o :
  alloc_inv nd → (o < MAX_ORDER)%nat →
  (∃ p nd', rmqueue (S n) zi cpu o nd = Some (Some p, nd') ∧ granted nd o p nd') ∨
  (rmqueue (S n) zi cpu o nd = Some (None, nd) ∧ exhausted nd cpu o).
Proof.
  intros Hi Ho. unfold rmqueue. case_decide as H0.
  - subst o. destruct (rmqueue_pcplist_run n nd cpu Hi) as [?|(Hrun & Hnf & Hnc)]; [by left|right]. split; [done|].
    split; [|done]. intros p _ Hall. apply (Hnf p), Hall, inb_self.
  - cbn [rmqueue_loop]. destruct (rmqueue_smallest_run zi nd o (al_node _ Hi) Ho) as [(p & nd' & Hrun & Ht)|[Hrun Hno]];
      rewrite (kbind_run _ _ _ _ _ Hrun).
    + left. assert (Hck : check_new_pages (Z.to_nat (bsz o)) p nd' = Some (false, nd')).
      { apply check_new_pages_run. pose proof (bsz_pos o). rewrite Z2Nat.id by lia. intros q Hq. by apply (tk_loose _ _ _ _ _ Ht). }
      rewrite (kbind_run _ _ _ _ _ Hck). exists p, nd'. split; [done|]. by apply took_granted.
    + right. split; [done|]. by split.
Qed.

End zone.
