(* ===== verification/PageAllocOps.v ===== *)
(** * Allocating and releasing blocks

    [__alloc_pages] and [__free_pages] with the compound pages that they build
    and take apart, run from a state that satisfies the invariant of the
    allocator. *)
From stdpp Require Import functions gmap.
From S2P Require Import Prelude PageAlloc PageAllocFacts PageAllocBuddy PageAllocPcp.

(** ** Loops over the pages of a block *)

(** The pages of [S] changed by [f], and nothing else. *)
Definition mapped (S : Z → Prop) (f : Z → page → page) (nd nd' : node) : Prop :=
  node_zones nd' = node_zones nd ∧ (∀ q, S q → mem_map nd' !! q = f q <$> mem_map nd !! q) ∧
  (∀ q, ¬ S q → mem_map nd' !! q = mem_map nd !! q).

Lemma mapped_one p f nd pg : mem_map nd !! p = Some pg → mapped (.= p) f nd (put_page p (f p pg) nd).
Proof.
  intros Hp. split; [done|]. unfold put_page. simpl. split.
  - intros q ->. by rewrite lookup_insert_eq, Hp.
  - intros q Hq. by rewrite lookup_insert_ne.
Qed.

(** Changes to different pages add up. *)
Lemma mapped_seq (S1 S2 S : Z → Prop) f g h nd nd1 nd2 :
  mapped S1 f nd nd1 → mapped S2 g nd1 nd2 → (∀ q, S q → (S1 q ∨ ¬ S1 q) ∧ (S2 q ∨ ¬ S2 q)) → (∀ q, S1 q → S q) → (∀ q, S2 q → S q) →
  (∀ q pg, S1 q → ¬ S2 q → h q pg = f q pg) → (∀ q pg, S2 q → ¬ S1 q → h q pg = g q pg) →
  (∀ q pg, S1 q → S2 q → h q pg = g q (f q pg)) → (∀ q pg, S q → ¬ S1 q → ¬ S2 q → h q pg = pg) → mapped S h nd nd2.
Proof.
  intros (Hz1 & Hi1 & Ho1) (Hz2 & Hi2 & Ho2) Hd HS1 HS2 H1 H2 H12 H0. split; [congruence|]. split.
  - intros q Hq. destruct (Hd q Hq) as [[Ha|Ha] [Hb|Hb]].
    + rewrite Hi2, Hi1 by done. destruct (mem_map nd !! q); simpl; [by rewrite H12|done].
    + rewrite Ho2, Hi1 by done. destruct (mem_map nd !! q); simpl; [by rewrite H1|done].
    + rewrite Hi2, Ho1 by done. destruct (mem_map nd !! q); simpl; [by rewrite H2|done].
    + rewrite Ho2, Ho1 by done. destruct (mem_map nd !! q); simpl; [by rewrite H0|done].
  - intros q Hq. rewrite Ho2, Ho1; auto.
Qed.

Definition range (p : Z) (n : nat) (q : Z) : Prop := p ≤ q < p + Z.of_nat n.

Lemma mapped_cons p n f nd nd1 nd2 :
  mapped (.= p) f nd nd1 → mapped (range (p + 1) n) f nd1 nd2 → mapped (range p (S n)) f nd nd2.
Proof.
  intros H1 H2. eapply (mapped_seq _ _ _ f f f); [exact H1|exact H2|..]; unfold range; try done; try lia.
Qed.
Lemma mapped_nil p f nd : mapped (range p 0) f nd nd.
Proof. split; [done|]. split; [unfold range; lia|done]. Qed.

Lemma prep_tails_run n : ∀ head p nd,
  (∀ q, range p n q → is_Some (mem_map nd !! q)) →
  ∃ nd', prep_tails n head p nd = Some (tt, nd') ∧ mapped (range p n) (λ _ pg, set_tail (Some head) (set_page_count 0 pg)) nd nd'.
Proof.
  induction n as [|n IH]; intros head p nd Hq; [exists nd; split; [done|apply mapped_nil]|].
  destruct (Hq p) as [pg Hp]; [unfold range; lia|]. cbn [prep_tails].
  rewrite (kbind_run _ _ _ _ _ (upd_page_run p pg _ nd Hp)), (kbind_run _ _ _ _ _ (upd_page_run p _ _ _ (page_put_eq _ _ _))), put_page_twice.
  pose proof (mapped_one p (λ _ pg, set_tail (Some head) (set_page_count 0 pg)) nd pg Hp) as Hm. cbv beta in Hm.
  destruct (IH head (p + 1) (put_page p (set_tail (Some head) (set_page_count 0 pg)) nd)) as (nd' & Hrun & Hm').
  - intros q Hr. destruct Hm as (_ & _ & Ho). rewrite Ho by (unfold range in Hr; lia). apply Hq. unfold range in *. lia.
  - exists nd'. split; [exact Hrun|]. by eapply mapped_cons.
Qed.

(** A tail page of a compound page. *)
Definition tail_page (zi : nat) (head : Z) (pg : page) : Prop :=
  pg_flags pg = 0 ∧ pg_zone pg = zi ∧ pg_type pg = TYPE_NONE ∧ pg_refcount pg = 0 ∧ pg_tail pg = Some head.
Definition head_page (zi o : nat) (refs : Z) (pg : page) : Prop :=
  pg_flags pg = (if decide (o = 0)%nat then 0 else PG_head) ∧ pg_zone pg = zi ∧ pg_type pg = TYPE_NONE ∧
  pg_refcount pg = refs ∧ pg_tail pg = None.

(** A block in use, with its reference count. *)
Record held (nd : node) (zi o : nat) (refs : Z) (p : Z) : Prop := {
  hd_align : aligned p o;
  hd_order : (o < MAX_ORDER)%nat;
  hd_head : ∃ pg, mem_map nd !! p = Some pg ∧ head_page zi o refs pg;
  hd_tails : ∀ q, inb p o q → q ≠ p → ∃ pg, mem_map nd !! q = Some pg ∧ tail_page zi p pg;
  hd_compound : o ≠ O → ∃ pg, mem_map nd !! (p + 1) = Some pg ∧ pg_compound_order pg = Z.of_nat o }.

Definition clear_prep (pg : page) : page := set_flags (Z.land (pg_flags pg) (Z.lnot PAGE_FLAGS_CHECK_AT_PREP)) pg.

Lemma free_pages_check_run nd p pg :
  mem_map nd !! p = Some pg → page_expected_state pg PAGE_FLAGS_CHECK_AT_FREE = true → free_pages_check p nd = Some (false, nd).
Proof. intros Hp He. unfold free_pages_check. by rewrite (kbind_run _ _ _ _ _ (get_page_run p pg nd Hp)), He. Qed.

Lemma free_tails_run zi n : ∀ head p nd,
  (∀ q, range p n q → ∃ pg, mem_map nd !! q = Some pg ∧ tail_page zi head pg) →
  ∃ nd', free_tails n true head p nd = Some (true, nd') ∧ mapped (range p n) (λ _ pg, clear_prep (set_tail None pg)) nd nd'.
Proof.
  induction n as [|n IH]; intros head p nd Hq; [exists nd; split; [done|apply mapped_nil]|].
  destruct (Hq p) as (pg & Hp & Hfl & _ & Hty & Hrc & Htl); [unfold range; lia|]. cbn [free_tails].
  assert (Hck : free_tail_pages_check head p nd = Some (false, put_page p (set_tail None pg) nd)).
  { unfold free_tail_pages_check. rewrite (kbind_run _ _ _ _ _ (get_page_run p pg nd Hp)). unfold PageTail, compound_head. rewrite Htl.
    rewrite bool_decide_true by eauto. cbn [negb default]. rewrite Z.eqb_refl. cbn [negb]. rewrite kbind_ret.
    by rewrite (kbind_run _ _ _ _ _ (upd_page_run p pg _ nd Hp)). }
  rewrite (kbind_run _ _ _ _ _ Hck).
  erewrite kbind_run; [|eapply free_pages_check_run; [apply page_put_eq|unfold page_expected_state, mapcount_none; simpl; by rewrite Hty, Hrc, Hfl]].
  cbv iota. rewrite (kbind_run _ _ _ _ _ (upd_page_run p _ _ _ (page_put_eq _ _ _))), put_page_twice. fold (clear_prep (set_tail None pg)).
  pose proof (mapped_one p (λ _ pg, clear_prep (set_tail None pg)) nd pg Hp) as Hm. cbv beta in Hm.
  destruct (IH head (p + 1) (put_page p (clear_prep (set_tail None pg)) nd)) as (nd' & Hrun & Hm').
  - intros q Hr. destruct Hm as (_ & _ & Ho). rewrite Ho by (unfold range in Hr; lia). apply Hq. unfold range in *. lia.
  - rewrite (kbind_run _ _ _ _ _ Hrun). exists nd'. split; [done|]. by eapply mapped_cons.
Qed.

(** ** Handing out a block *)

(** The pages of [S] changed, kept their zones, and nothing else happened. *)
Record touched (S : Z → Prop) (nd nd' : node) : Prop := {
  tc_zones : node_zones nd' = node_zones nd;
  tc_kept : ∀ q, pg_zone <$> mem_map nd' !! q = pg_zone <$> mem_map nd !! q;
  tc_pages : ∀ q, ¬ S q → mem_map nd' !! q = mem_map nd !! q }.

Lemma touched_put (S : Z → Prop) p pg pg' nd : S p → mem_map nd !! p = Some pg → pg_zone pg' = pg_zone pg → touched S nd (put_page p pg' nd).
Proof.
  intros HS Hp Hz. unfold put_page. split; [done| |]; simpl; intros q.
  - destruct (decide (p = q)) as [<-|Hne]; [by rewrite lookup_insert_eq, Hp; simpl; rewrite Hz|by rewrite lookup_insert_ne].
  - intros Hq. rewrite lookup_insert_ne; [done|]. by intros ->.
Qed.
Lemma touched_trans S nd1 nd2 nd3 : touched S nd1 nd2 → touched S nd2 nd3 → touched S nd1 nd3.
Proof. intros [A B C] [A' B' C']. split; [congruence|intros q; by rewrite B'|intros q Hq; rewrite C'; auto]. Qed.
Lemma touched_mapped (S T : Z → Prop) f nd nd' :
  (∀ q, S q → T q) → (∀ q, S q ∨ ¬ S q) → (∀ q pg, pg_zone (f q pg) = pg_zone pg) → mapped S f nd nd' → touched T nd nd'.
Proof.
  intros HS Hd Hf (Hz & Hi & Ho). split; [done| |intros q Hq; apply Ho; auto]. intros q. destruct (Hd q).
  - rewrite Hi by done. destruct (mem_map nd !! q); simpl; [by rewrite Hf|done].
  - by rewrite Ho.
Qed.
Lemma range_dec p n q : range p n q ∨ ¬ range p n q.
Proof. unfold range. lia. Qed.
Lemma tails_range p o q : inb p o q → q ≠ p → range (p + 1) (Z.to_nat (bsz o) - 1) q.
Proof. unfold inb, range. lia. Qed.
Lemma range_tails p o q : range (p + 1) (Z.to_nat (bsz o) - 1) q → inb p o q ∧ q ≠ p.
Proof. unfold inb, range. pose proof (bsz_pos o). lia. Qed.

Lemma post_alloc_hook_run zi nd p pg :
  mem_map nd !! p = Some pg → clean zi pg → post_alloc_hook p nd = Some (tt, put_page p (set_page_count 1 (set_page_private 0 pg)) nd).
Proof.
  intros Hp (_ & _ & _ & Hr & Ht). unfold post_alloc_hook, set_page_refcounted.
  rewrite (kbind_run _ _ _ _ _ (upd_page_run p pg _ nd Hp)), (kbind_run _ _ _ _ _ (get_page_run p _ _ (page_put_eq _ _ _))).
  rewrite BUG_ON_run by (unfold PageTail; simpl; by rewrite Ht). rewrite BUG_ON_run by (simpl; by rewrite Hr).
  by rewrite (upd_page_run p _ _ _ (page_put_eq _ _ _)), put_page_twice.
Qed.

Lemma prep_compound_page_run zi nd p o pg :
  (o ≠ 0)%nat → mem_map nd !! p = Some pg → (∀ q, inb p o q → q ≠ p → ∃ pg, mem_map nd !! q = Some pg ∧ clean zi pg) →
  ∃ nd', prep_compound_page p o nd = Some (tt, nd') ∧ touched (inb p o) nd nd' ∧
    mem_map nd' !! p = Some (set_flags (Z.lor (pg_flags pg) PG_head) pg) ∧
    (∀ q, inb p o q → q ≠ p → ∃ pg, mem_map nd' !! q = Some pg ∧ tail_page zi p pg) ∧
    (∃ pg, mem_map nd' !! (p + 1) = Some pg ∧ pg_compound_order pg = Z.of_nat o).
Proof.
  intros Ho Hp Hq. assert (Hin1 : inb p o (p + 1)).
  { unfold inb. destruct o as [|o']; [done|]. rewrite bsz_S. pose proof (bsz_pos o'). lia. }
  destruct (Hq (p + 1) Hin1) as (pg1 & Hp1 & Hc1); [lia|]. unfold prep_compound_page.
  rewrite (kbind_run _ _ _ _ _ (upd_page_run _ pg1 _ nd Hp1)). set (nd1 := put_page (p + 1) _ nd).
  assert (Hp' : mem_map nd1 !! p = Some pg) by (unfold nd1, put_page; simpl; rewrite lookup_insert_ne by lia; done).
  rewrite (kbind_run _ _ _ _ _ (upd_page_run p pg _ nd1 Hp')). set (nd2 := put_page p _ nd1).
  assert (H2 : ∀ q, q ≠ p → mem_map nd2 !! q = if decide (q = p + 1) then Some (set_corder (Z.of_nat o) pg1) else mem_map nd !! q).
  { intros q Hne. unfold nd2, nd1, put_page. simpl. rewrite lookup_insert_ne by done.
    case_decide; [subst; apply lookup_insert_eq|by rewrite lookup_insert_ne]. }
  destruct (prep_tails_run (Z.to_nat (bsz o) - 1) p (p + 1) nd2) as (nd' & Hrun & Hm).
  { intros q Hr. apply range_tails in Hr as [Hr Hne]. rewrite H2 by done. case_decide; [eauto|].
    destruct (Hq q Hr Hne) as (? & ? & _). eauto. }
  exists nd'. split; [done|]. split; [|split; [|split]].
  - apply (touched_trans _ _ nd1); [unfold nd1; eapply touched_put; [done|exact Hp1|done]|].
    apply (touched_trans _ _ nd2); [unfold nd2; eapply touched_put; [apply inb_self|exact Hp'|done]|].
    eapply touched_mapped; [|intros q; apply range_dec| |exact Hm]; [intros q Hr; by apply range_tails|done].
  - destruct Hm as (_ & _ & Hm). rewrite Hm by (intros Hr%range_tails; tauto). apply page_put_eq.
  - intros q Hin Hne. destruct Hm as (_ & Hm & _). rewrite Hm by (by apply tails_range). rewrite H2 by done.
    case_decide as Hd; [subst q; eexists; split; [done|destruct Hc1 as (?&?&?&?&?); by split_and!]|].
    destruct (Hq q Hin Hne) as (pgq & -> & Hcq). eexists. split; [done|]. destruct Hcq as (?&?&?&?&?). by split_and!.
  - destruct Hm as (_ & Hm & _). rewrite Hm by (apply tails_range; [done|lia]). rewrite H2, decide_True by lia. by eexists.
Qed.

Lemma prep_new_page_run zi nd p o :
  loose nd zi o p → (o < MAX_ORDER)%nat →
  ∃ nd', prep_new_page p o nd = Some (tt, nd') ∧ touched (inb p o) nd nd' ∧ held nd' zi o 1 p.
Proof.
  intros Hl Ho. pose proof Hl as [Hal Hq]. destruct (Hq p (inb_self _ _)) as [(pg & Hp & Hc) _]. unfold prep_new_page.
  rewrite (kbind_run _ _ _ _ _ (post_alloc_hook_run zi nd p pg Hp Hc)). set (nd1 := put_page p _ nd).
  assert (Ht1 : touched (inb p o) nd nd1) by (unfold nd1; eapply touched_put; [apply inb_self|exact Hp|done]).
  destruct Hc as (Hf & Hz & Hty & Hr & Htl). case_decide as H0.
  - subst o. exists nd1. split; [done|]. split; [done|]. split; [done|done| | |done].
    + eexists. split; [apply page_put_eq|]. by split_and!.
    + intros q ->%inb_0 Hne. done.
  - destruct (prep_compound_page_run zi nd1 p o _ H0 (page_put_eq _ _ _)) as (nd' & Hrun & Ht2 & Hhd & Htails & Hco).
    { intros q Hin Hne. unfold nd1, put_page. simpl. rewrite lookup_insert_ne by done. by apply Hq. }
    exists nd'. split; [done|]. split; [by eapply touched_trans|]. split; [done|done| |done|done].
    eexists. split; [exact Hhd|]. unfold head_page. simpl. rewrite decide_False by done. rewrite Hf. by split_and!.
Qed.

Lemma avail_zone nd zi q : alloc_inv nd → avail nd zi q → ∃ pg, mem_map nd !! q = Some pg ∧ pg_zone pg = zi.
Proof.
  intros [Hn Hp] [Hf|[cpu Hc]]; [by apply free_zone|]. destruct (pc_clean _ _ (Hp zi) _ _ Hc) as (pg & ? & Hcl).
  exists pg. split; [done|apply Hcl].
Qed.
Lemma avail_unused nd zi q : alloc_inv nd → avail nd zi q → ∃ pg, mem_map nd !! q = Some pg ∧ pg_refcount pg = 0.
Proof.
  intros [Hn Hp] [(o & p & Hf & Hq)|[cpu Hc]].
  - destruct (Z.eq_dec q p) as [->|Hne].
    + destruct (inv_head _ _ (Hn zi) _ _ Hf) as (pg & ? & Hh). exists pg. split; [done|apply Hh].
    + destruct (inv_rest _ _ (Hn zi) _ _ _ Hf Hq Hne) as (pg & ? & Hh). exists pg. split; [done|apply Hh].
  - destruct (pc_clean _ _ (Hp zi) _ _ Hc) as (pg & ? & Hcl). exists pg. split; [done|apply Hcl].
Qed.
Lemma type_none_not_buddy pg : pg_type pg = TYPE_NONE → PageBuddy pg = false.
Proof. intros H. unfold PageBuddy, PageType. by rewrite H. Qed.

Lemma inb_dec p o q : inb p o q ∨ ¬ inb p o q.
Proof. unfold inb. lia. Qed.

(** Changing the pages of a block that is not available. *)
Lemma touched_alloc nd nd' zi o p :
  alloc_inv nd → touched (inb p o) nd nd' → (∀ q, inb p o q → ¬ avail nd zi q) →
  (∀ q, inb p o q → ∃ pg, mem_map nd' !! q = Some pg ∧ pg_zone pg = zi ∧ pg_type pg = TYPE_NONE) →
  alloc_inv nd' ∧ (∀ zj q, is_free nd' zj q ↔ is_free nd zj q) ∧ (∀ zj cpu q, cached nd' zj cpu q ↔ cached nd zj cpu q).
Proof.
  intros Hi [Hz Hk Hpg] Hna Hnew. split.
  - apply (alloc_inv_pages nd); [done|done| |done|].
    + intros zj q Hav. apply Hpg. intros Hin. destruct (Hnew q Hin) as (pg & Hq & Hzi & _). pose proof (Hk q) as Hkq.
      destruct (avail_zone nd zj q Hi Hav) as (pg' & Hq' & Hzj). rewrite Hq, Hq' in Hkq. simpl in Hkq. injection Hkq as Hkq.
      apply (Hna q Hin). assert (zi = zj) as -> by congruence. done.
    + intros q pg Hq Hb. destruct (inb_dec p o q) as [Hin|Hin]; [|by rewrite <-Hpg]. destruct (Hnew q Hin) as (pg' & Hq' & _ & Ht).
      assert (pg' = pg) as -> by congruence. rewrite type_none_not_buddy in Hb; done.
  - unfold is_free, free_block, cached, pcp_of, nd_area. by rewrite Hz.
Qed.

Lemma held_pages nd zi o r p q : held nd zi o r p → inb p o q → ∃ pg, mem_map nd !! q = Some pg ∧ pg_zone pg = zi ∧ pg_type pg = TYPE_NONE.
Proof.
  intros [_ _ Hh Ht _] Hq. destruct (Z.eq_dec q p) as [->|Hne].
  - destruct Hh as (pg & ? & (_ & ? & ? & _)). by exists pg.
  - destruct (Ht q Hq Hne) as (pg & ? & (_ & ? & ? & _)). by exists pg.
Qed.

Lemma touched_node_frame zi (S : Z → Prop) nd nd' : touched S nd nd' → node_frame zi S nd nd'.
Proof. intros [Hz Hk Hp]. split; [intros; by rewrite Hz|by rewrite Hz|done|done]. Qed.

Section zone.
Variable zi : nat.

(** A block has been handed out. *)
Record alloced (nd : node) (o : nat) (p : Z) (nd' : node) : Prop := {
  ac_inv : alloc_inv nd';
  ac_held : held nd' zi o 1 p;
  ac_was : ∀ q, inb p o q → avail nd zi q;
  ac_avail : ∀ q, avail nd' zi q ↔ avail nd zi q ∧ ¬ inb p o q;
  ac_frame : node_frame zi (avail nd zi) nd nd' }.

Lemma granted_prep nd o p nd1 :
  (o < MAX_ORDER)%nat → granted zi nd o p nd1 → ∃ nd', prep_new_page p o nd1 = Some (tt, nd') ∧ alloced nd o p nd'.
Proof.
  intros Ho [Hi Hl Hw Hav Hfr]. destruct (prep_new_page_run zi nd1 p o Hl Ho) as (nd' & Hrun & Ht & Hh).
  exists nd'. split; [done|]. destruct (touched_alloc nd1 nd' zi o p Hi Ht) as (Hi' & Hf' & Hc').
  - intros q Hq Ha. apply Hav in Ha as [_ Ha]. done.
  - intros q Hq. by eapply held_pages.
  - split; [done|done|done| |].
    + intros q. unfold avail. rewrite Hf'. setoid_rewrite Hc'. apply Hav.
    + eapply node_frame_trans; [exact Hfr|]. eapply node_frame_weaken; [|by apply touched_node_frame]. exact Hw.
Qed.

Lemma given_refl nd : alloc_inv nd → given zi nd (λ _, False) nd.
Proof. intros Hi. split; [done|tauto|apply node_frame_refl]. Qed.
Lemma given_trans nd1 nd2 nd3 : given zi nd1 (λ _, False) nd2 → given zi nd2 (λ _, False) nd3 → given zi nd1 (λ _, False) nd3.
Proof.
  intros [H1 H2 H3] [H4 H5 H6]. split; [done|intros q; rewrite H5, H2; tauto|].
  eapply node_frame_trans; [exact H3|]. eapply node_frame_weaken; [|exact H6]. intros q. cbv beta. rewrite H2. tauto.
Qed.
Lemma alloced_given nd1 nd2 o p nd3 : given zi nd1 (λ _, False) nd2 → alloced nd2 o p nd3 → alloced nd1 o p nd3.
Proof.
  intros [H1 H2 H3] [H4 H5 H6 H7 H8]. split; [done|done|intros q Hq; apply H6, H2 in Hq; tauto|intros q; rewrite H7, H2; tauto|].
  eapply node_frame_trans; (eapply node_frame_weaken; [|first [exact H3|exact H8]]); intros q; cbv beta; rewrite ?H2; tauto.
Qed.

(** ** The other processors *)

Lemma drain_others_run cpus : ∀ me nd train,
  alloc_inv nd → zn_initialized (node_zones nd zi) = true →
  ∃ r nd', drain_others cpus me zi train nd = Some (r, nd') ∧ given zi nd (λ _, False) nd' ∧
    (∀ cpu, pcp_lists (pcp_of nd' zi cpu) =
            if decide (cpu ∈ cpus ∧ cpu ≠ me) then [] else pcp_lists (pcp_of nd zi cpu)) ∧
    ((∀ cpu, cpu ∈ cpus → cpu = me) → r = train) ∧
    ((∃ cpu, cpu ∈ cpus ∧ cpu ≠ me) → (∀ cpu, cpu ∈ cpus → cpu ≠ me → pcp_lists (pcp_of nd zi cpu) = []) → r = false).
Proof.
  induction cpus as [|c cpus IH]; intros me nd train Hi Hinit.
  { exists train, nd. split; [done|]. split; [by apply given_refl|]. split; [intros cpu; rewrite decide_False by set_solver; done|].
    split; [done|]. intros (cpu & ? & _). set_solver. }
  cbn [drain_others]. case_decide as Hc.
  - subst c. destruct (IH me nd train Hi Hinit) as (r & nd' & Hrun & Hg & Hl & Hsame & Hf). exists r, nd'. split; [done|]. split; [done|].
    split; [|split].
    + intros cpu. rewrite Hl. repeat case_decide; set_solver.
    + intros Hall. apply Hsame. intros cpu Hin. apply Hall. by right.
    + intros (cpu & [->|Hin]%elem_of_cons & Hne) Hall; [done|]. apply Hf; [eauto|]. intros cpu' Hin'. apply Hall. by right.
  - destruct (drain_pages_zone_run zi nd c Hi Hinit) as (nd1 & Hrun1 & Hg1 & _ & Hl1). rewrite (kbind_run _ _ _ _ _ Hrun1).
    set (t1 := bool_decide _) in *.
    destruct (IH me nd1 t1 (gv_inv _ _ _ _ Hg1)) as (r & nd' & Hrun & Hg & Hl & Hsame & Hf).
    { by rewrite (nf_init _ _ _ _ (gv_frame _ _ _ _ Hg1)). }
    exists r, nd'. split; [done|]. split; [by eapply given_trans|]. split; [|split].
    + intros cpu. rewrite Hl, Hl1. repeat case_decide; set_solver.
    + intros Hall. destruct Hc. apply Hall. left.
    + intros _ Hall. assert (Ht1 : t1 = false).
      { unfold t1. apply bool_decide_eq_false. intros Hne. apply Hne, Hall; [left|done]. }
      destruct (decide (Forall (λ cpu, cpu = me) cpus)) as [Hme|Hme].
      * rewrite Hsame; [done|]. by apply Forall_forall.
      * apply not_Forall_Exists in Hme; [|apply _]. apply Exists_exists in Hme as (cpu & Hin & Hne). apply Hf; [by exists cpu|].
        intros cpu' Hin' Hne'. rewrite Hl1. case_decide; [done|]. apply Hall; [by right|done].
Qed.

(** Two rounds are enough: the second finds the other processors drained. *)
Lemma get_page_from_freelist_run n cpus me nd o :
  alloc_inv nd → zn_initialized (node_zones nd zi) = true → (o < MAX_ORDER)%nat →
  ∃ r nd', get_page_from_freelist (S (S n)) cpus me zi o false nd = Some (r, nd') ∧
    match r with
    | Some p => alloced nd o p nd'
    | None => given zi nd (λ _, False) nd' ∧ exhausted zi nd me o
    end.
Proof.
  intros Hi Hinit Ho. cbn [get_page_from_freelist].
  destruct (rmqueue_run zi (S n) nd me o Hi Ho) as [(p & nd1 & Hrun & Hg)|[Hrun Hex]]; rewrite (kbind_run _ _ _ _ _ Hrun).
  { destruct (granted_prep nd o p nd1 Ho Hg) as (nd' & Hprep & Ha). rewrite (kbind_run _ _ _ _ _ Hprep). by exists (Some p), nd'. }
  destruct (drain_others_run cpus me nd false Hi Hinit) as (r1 & nd1 & Hd1 & Hg1 & Hl1 & Hsame1 & _).
  rewrite (kbind_run _ _ _ _ _ Hd1). destruct r1; [|by exists None, nd1].
  pose proof (gv_inv _ _ _ _ Hg1) as Hi1.
  destruct (rmqueue_run zi n nd1 me o Hi1 Ho) as [(p & nd2 & Hrun2 & Hg2)|[Hrun2 Hex2]]; rewrite (kbind_run _ _ _ _ _ Hrun2).
  { destruct (granted_prep nd1 o p nd2 Ho Hg2) as (nd' & Hprep & Ha). rewrite (kbind_run _ _ _ _ _ Hprep). exists (Some p), nd'.
    split; [done|]. by eapply alloced_given. }
  destruct (drain_others_run cpus me nd1 true Hi1) as (r2 & nd2 & Hd2 & Hg2 & _ & _ & Hf2).
  { by rewrite (nf_init _ _ _ _ (gv_frame _ _ _ _ Hg1)). }
  rewrite (kbind_run _ _ _ _ _ Hd2). assert (r2 = false) as ->.
  { apply Hf2.
    - destruct (decide (Forall (λ cpu, cpu = me) cpus)) as [Hme|Hme].
      + rewrite Forall_forall in Hme. by specialize (Hsame1 Hme).
      + apply not_Forall_Exists in Hme; [|apply _]. apply Exists_exists in Hme as (cpu & Hin & Hne). by exists cpu.
    - intros cpu Hin Hne. rewrite Hl1. by rewrite decide_True. }
  exists None, nd2. split; [done|]. split; [by eapply given_trans|done].
Qed.

(** ** Releasing a block *)

Lemma put_page_testzero_run nd o r p :
  held nd zi o r p → 0 < r < 2 ^ 31 →
  ∃ nd', put_page_testzero p nd = Some (r =? 1, nd') ∧ touched (inb p o) nd nd' ∧ held nd' zi o (r - 1) p.
Proof.
  intros [Hal Ho (pg & Hp & Hf & Hz & Hty & Hr & Htl) Ht Hc] Hb. unfold put_page_testzero.
  rewrite (kbind_run _ _ _ _ _ (get_page_run p pg nd Hp)). rewrite Hr. rewrite BUG_ON_run by (apply Z.eqb_neq; lia).
  rewrite (kbind_run _ _ _ _ _ (upd_page_run p pg _ nd Hp)), s32_small by lia.
  replace (r - 1 =? 0) with (r =? 1) by (destruct (Z.eqb_spec r 1), (Z.eqb_spec (r - 1) 0); lia).
  eexists. split; [done|]. split; [eapply touched_put; [apply inb_self|exact Hp|done]|].
  assert (Hne : ∀ q, q ≠ p → mem_map (put_page p (set_page_count (r - 1) pg) nd) !! q = mem_map nd !! q).
  { intros q Hq. unfold put_page. simpl. by rewrite lookup_insert_ne. }
  split; [done|done| | |].
  - eexists. split; [apply page_put_eq|]. by split_and!.
  - intros q Hq Hqp. rewrite Hne by done. by apply Ht.
  - intros H0. rewrite Hne by lia. by apply Hc.
Qed.

(** The tails lose their marks. *)
Lemma prepare_tails nd o p :
  held nd zi o 0 p →
  ∃ nd', (if decide (o = 0)%nat then kret true else
          let! pg := get_page p in let compound := PageCompound pg in
          let! co := compound_order p in do! BUG_ON (compound && negb (co =? Z.of_nat o)) in
          free_tails (Z.to_nat (bsz o) - 1) compound p (p + 1)) nd = Some (true, nd') ∧
         mapped (λ q, inb p o q ∧ q ≠ p) (λ _ pg, clear_prep (set_tail None pg)) nd nd'.
Proof.
  intros [Hal Ho (pg & Hp & Hf & Hz & Hty & Hr & Htl) Ht Hc]. case_decide as H0.
  { subst o. exists nd. split; [done|]. split; [done|]. split; [|done]. by intros q [->%inb_0 ?]. }
  assert (HPH : PageHead pg = true) by (unfold PageHead; rewrite Hf; done).
  rewrite (kbind_run _ _ _ _ _ (get_page_run p pg nd Hp)). unfold PageCompound, compound_order. rewrite HPH. cbn [orb].
  rewrite kbind_assoc, (kbind_run _ _ _ _ _ (get_page_run p pg nd Hp)), HPH.
  destruct (Hc H0) as (pg1 & Hp1 & Hco). rewrite kbind_assoc, (kbind_run _ _ _ _ _ (get_page_run _ pg1 nd Hp1)), kbind_ret, Hco.
  rewrite BUG_ON_run by (by rewrite Z.eqb_refl).
  destruct (free_tails_run zi (Z.to_nat (bsz o) - 1) p (p + 1) nd) as (nd' & Hrun & Hm).
  { intros q Hq. apply range_tails in Hq as [? ?]. by apply Ht. }
  exists nd'. split; [done|]. destruct Hm as (Hz' & Hi & Ho'). split; [done|]. split.
  - intros q [? ?]. by apply Hi, tails_range.
  - intros q Hq. apply Ho'. by intros ?%range_tails.
Qed.

Lemma free_pages_prepare_run nd o p :
  held nd zi o 0 p →
  ∃ nd', free_pages_prepare p o true nd = Some (true, nd') ∧ touched (inb p o) nd nd' ∧
    ∀ q, inb p o q → ∃ pg, mem_map nd' !! q = Some pg ∧ clean zi pg.
Proof.
  intros Hh. destruct (prepare_tails nd o p Hh) as (nd1 & Hrun & Hm).
  destruct Hh as [Hal Ho (pg & Hp & Hf & Hz & Hty & Hr & Htl) Ht Hc]. unfold free_pages_prepare.
  rewrite (kbind_run _ _ _ _ _ (get_page_run p pg nd Hp)), BUG_ON_run by (unfold PageTail; by rewrite Htl).
  assert (Hgood : (if decide (o = 0)%nat then kret true else
     let compound := PageCompound pg in let! co := compound_order p in do! BUG_ON (compound && negb (co =? Z.of_nat o)) in
     free_tails (Z.to_nat (bsz o) - 1) compound p (p + 1)) nd = Some (true, nd1)).
  { rewrite <-Hrun. case_decide; [done|]. by rewrite (kbind_run _ _ _ _ _ (get_page_run p pg nd Hp)). }
  rewrite (kbind_run _ _ _ _ _ Hgood). clear Hgood. pose proof Hm as (_ & Hin & Hout).
  assert (Hp1 : mem_map nd1 !! p = Some pg) by (rewrite Hout; [done|tauto]).
  assert (He : page_expected_state pg PAGE_FLAGS_CHECK_AT_FREE = true).
  { unfold page_expected_state, mapcount_none. rewrite Hty, Hr, Hf. by case_decide. }
  rewrite (kbind_run _ _ _ _ _ (free_pages_check_run nd1 p pg Hp1 He)). cbn [andb negb].
  rewrite (kbind_run _ _ _ _ _ (upd_page_run p pg _ nd1 Hp1)). fold (clear_prep pg). eexists. split; [done|]. split.
  - apply (touched_trans _ _ nd1); [|eapply touched_put; [apply inb_self|exact Hp1|done]].
    eapply touched_mapped; [|  | |exact Hm]; [by intros q []| |done]. intros q. unfold inb. destruct (Z.eq_dec q p); lia.
  - intros q Hq. unfold put_page. simpl. destruct (Z.eq_dec p q) as [<-|Hne].
    + rewrite lookup_insert_eq. eexists. split; [done|]. split; [simpl; rewrite Hf; by case_decide|by split_and!].
    + rewrite lookup_insert_ne, Hin by done. destruct (Ht q Hq) as (pgq & -> & Hf' & ? & ? & ? & _); [done|].
      eexists. split; [done|]. split; [simpl; by rewrite Hf'|by split_and!].
Qed.

Lemma given_touched nd nd1 (S : Z → Prop) nd' :
  touched S nd nd1 → (∀ q, is_free nd1 zi q ↔ is_free nd zi q) → (∀ cpu q, cached nd1 zi cpu q ↔ cached nd zi cpu q) →
  given zi nd1 S nd' → given zi nd S nd'.
Proof.
  intros Ht Hf Hc [H1 H2 H3]. assert (Hav : ∀ q, avail nd1 zi q ↔ avail nd zi q) by (intros q; unfold avail; rewrite Hf; by setoid_rewrite Hc).
  split; [done|intros q; by rewrite H2, Hav|].
  eapply node_frame_trans; (eapply node_frame_weaken; [|first [exact H3|by apply touched_node_frame]]); intros q; cbv beta; rewrite ?Hav; tauto.
Qed.

(** A block of clean pages that no list holds goes back. *)
Lemma free_clean_run nd cpu o p :
  alloc_inv nd → zn_initialized (node_zones nd zi) = true → aligned p o → (o < MAX_ORDER)%nat →
  (∀ q, inb p o q → ∃ pg, mem_map nd !! q = Some pg ∧ clean zi pg) → (∀ q, inb p o q → ¬ avail nd zi q) →
  ∃ nd', (if decide (o = 0)%nat then free_unref_page_commit cpu p else let! zj := page_zone p in free_one_page zj p o) nd
           = Some (tt, nd') ∧ given zi nd (inb p o) nd'.
Proof.
  intros Hi Hinit Hal Ho Hcl Hna. destruct (Hcl p (inb_self _ _)) as (pg & Hp & Hc). case_decide as H0.
  - subst o. destruct (free_unref_page_commit_run zi nd cpu p pg Hi Hinit Hp Hc) as (nd' & Hrun & [H1 H2 H3]); [apply Hna, inb_self|].
    exists nd'. split; [done|]. split; [done|intros q; by rewrite H2, inb_0|]. eapply node_frame_weaken; [|exact H3].
    intros q. cbv beta. by rewrite inb_0.
  - unfold page_zone, free_one_page. rewrite kbind_assoc, (kbind_run _ _ _ _ _ (get_page_run p pg nd Hp)), kbind_ret.
    assert (pg_zone pg = zi) as -> by apply Hc.
    destruct (free_one_alloc zi nd p o) as (nd' & Hrun & Hi' & [_ Hf Hfr]); [done|done| |done| |].
    + split; [done|]. intros q Hq. split; [by apply Hcl|]. intros Hfq. apply (Hna q Hq). by left.
    + intros cpu' q Hq Hcq. apply (Hna q Hq). right. by exists cpu'.
    + exists nd'. split; [done|]. split; [done| |].
      * intros q. unfold avail. rewrite Hf. setoid_rewrite (cached_frame _ _ _ _ _ _ Hfr). tauto.
      * eapply node_frame_weaken; [|apply zone_node_frame; exact Hfr]. intros q [?|?]; [left; by left|by right].
Qed.

(** The block has been prepared. *)
Definition prepared (nd : node) (o : nat) (p : Z) : Prop :=
  ∃ nd', free_pages_prepare p o true nd = Some (true, nd') ∧ touched (inb p o) nd nd' ∧
    ∀ q, inb p o q → ∃ pg, mem_map nd' !! q = Some pg ∧ clean zi pg.

Lemma free_the_page_run nd cpu o p :
  alloc_inv nd → zn_initialized (node_zones nd zi) = true → aligned p o → (o < MAX_ORDER)%nat → prepared nd o p →
  (∀ q, inb p o q → ¬ avail nd zi q) → ∃ nd', free_the_page cpu p o nd = Some (tt, nd') ∧ given zi nd (inb p o) nd'.
Proof.
  intros Hi Hinit Hal Ho (nd1 & Hrun & Ht & Hcl) Hna. destruct (touched_alloc nd nd1 zi o p Hi Ht Hna) as (Hi1 & Hf1 & Hc1).
  { intros q Hq. destruct (Hcl q Hq) as (pg & ? & (_ & ? & ? & _)). by exists pg. }
  destruct (free_clean_run nd1 cpu o p Hi1) as (nd' & Hrun' & Hg); [by rewrite (tc_zones _ _ _ Ht)|done|done|done| |].
  { intros q Hq. unfold avail. rewrite Hf1. setoid_rewrite Hc1. by apply Hna. }
  exists nd'. split; [|eapply (given_touched nd nd1); [done|apply Hf1|apply Hc1|done]].
  rewrite <-Hrun'. unfold free_the_page. case_decide as H0.
  - subst o. unfold free_unref_page, free_unref_page_prepare, free_pcp_prepare. by rewrite (kbind_run _ _ _ _ _ Hrun).
  - unfold __free_pages_ok. by rewrite (kbind_run _ _ _ _ _ Hrun).
Qed.

Lemma free_pages_last nd cpu o p :
  alloc_inv nd → zn_initialized (node_zones nd zi) = true → held nd zi o 1 p → (∀ q, inb p o q → ¬ avail nd zi q) →
  ∃ nd', __free_pages cpu p o nd = Some (tt, nd') ∧ given zi nd (inb p o) nd'.
Proof.
  intros Hi Hinit Hh Hna. unfold __free_pages.
  destruct (put_page_testzero_run nd o 1 p Hh) as (nd1 & Hrun1 & Ht1 & Hh1); [lia|]. rewrite (kbind_run _ _ _ _ _ Hrun1).
  change (1 =? 1) with true. change (1 - 1) with 0 in Hh1. cbv iota.
  destruct (touched_alloc nd nd1 zi o p Hi Ht1 Hna) as (Hi1 & Hf1 & Hc1); [intros q Hq; by eapply held_pages|].
  destruct (free_the_page_run nd1 cpu o p Hi1) as (nd' & Hrun & Hg); [by rewrite (tc_zones _ _ _ Ht1)|apply Hh|apply Hh| | |].
  - by apply free_pages_prepare_run.
  - intros q Hq. unfold avail. rewrite Hf1. setoid_rewrite Hc1. by apply Hna.
  - exists nd'. split; [done|]. eapply (given_touched nd nd1); [done|apply Hf1|apply Hc1|done].
Qed.

(** With more references the block stays. *)
Lemma free_pages_shared nd cpu o r p :
  held nd zi o r p → 1 < r < 2 ^ 31 →
  ∃ nd', __free_pages cpu p o nd = Some (tt, nd') ∧ touched (inb p o) nd nd' ∧ held nd' zi o (r - 1) p.
Proof.
  intros Hh Hr. unfold __free_pages. destruct (put_page_testzero_run nd o r p Hh) as (nd1 & Hrun1 & Ht1 & Hh1); [lia|].
  rewrite (kbind_run _ _ _ _ _ Hrun1). rewrite (proj2 (Z.eqb_neq _ _)) by lia. by exists nd1.
Qed.

End zone.

Lemma alloc_pages_run n cpus me gfp_mask nd o :
  alloc_inv nd → zn_initialized (node_zones nd (gfp_zone gfp_mask)) = true → (o < MAX_ORDER)%nat →
  ∃ r nd', __alloc_pages (S (S n)) cpus me gfp_mask o nd = Some (r, nd') ∧
    match r with
    | Some p => alloced (gfp_zone gfp_mask) nd o p nd'
    | None => given (gfp_zone gfp_mask) nd (λ _, False) nd' ∧ exhausted (gfp_zone gfp_mask) nd me o
    end.
Proof. intros Hi Hinit Ho. unfold __alloc_pages. rewrite decide_False by lia. by apply get_page_from_freelist_run. Qed.
