(* ===== verification/PageAllocBoot.v ===== *)
(** * Handing the boot memory to the page allocator

    The initial state of a zone, and [__free_pages_memory]: a range of page
    frames that memblock does not use is cut into aligned blocks and released. *)
From stdpp Require Import functions gmap.
From S2P Require Import Prelude PageAlloc PageAllocFacts PageAllocBuddy PageAllocPcp PageAllocOps.

(** ** What the invariant looks at *)

Lemma alloc_inv_ext nd nd' :
  mem_map nd' = mem_map nd → (∀ zi o, nd_area nd' zi o = nd_area nd zi o) → (∀ zi cpu, pcp_of nd' zi cpu = pcp_of nd zi cpu) →
  alloc_inv nd → alloc_inv nd'.
Proof.
  intros Hm Ha Hp [Hn Hc].
  assert (Hf : ∀ zi o p, free_block nd' zi o p ↔ free_block nd zi o p) by (intros; unfold free_block; by rewrite Ha).
  assert (Hfr : ∀ zi q, is_free nd' zi q ↔ is_free nd zi q) by (intros; unfold is_free; by setoid_rewrite Hf).
  assert (Hca : ∀ zi cpu q, cached nd' zi cpu q ↔ cached nd zi cpu q) by (intros; unfold cached; by rewrite Hp).
  split; intros zi.
  - destruct (Hn zi) as [H1 H2 H3 H4 H5 H6 H7 H8]. split; rewrite ?Hm; try setoid_rewrite Hf; try done.
    intros o. rewrite Ha. apply H3.
  - destruct (Hc zi) as [H1 H2 H3 H4]. split; rewrite ?Hm; try setoid_rewrite Hca; try setoid_rewrite Hfr; try done.
    intros cpu. rewrite Hp. apply H1.
Qed.

(** Empty lists and page sets, and no page marked. *)
Lemma empty_alloc_inv nd :
  Z.of_nat (size (mem_map nd)) < 2 ^ 63 →
  (∀ p pg, mem_map nd !! p = Some pg → PageBuddy pg = false) →
  (∀ zi o, nd_area nd zi o = mk_area [] 0) → (∀ zi cpu, pcp_ok (pcp_of nd zi cpu) ∧ pcp_lists (pcp_of nd zi cpu) = []) →
  alloc_inv nd.
Proof.
  intros Hs Hb Ha Hp. assert (Hf : ∀ zi o p, ¬ free_block nd zi o p) by (intros; unfold free_block; rewrite Ha; simpl; set_solver).
  assert (Hc : ∀ zi cpu q, ¬ cached nd zi cpu q) by (intros; unfold cached; rewrite (proj2 (Hp _ _)); set_solver).
  split; intros zi; split; try (intros; exfalso; by eapply Hf); try (intros; exfalso; by eapply Hc).
  - done.
  - intros o. rewrite Ha. split; [apply NoDup_nil_2|done].
  - intros p pg Hpg _ Hbd. by rewrite (Hb _ _ Hpg) in Hbd.
  - intros cpu. apply Hp.
Qed.

(** ** The sizes of the page sets *)

Lemma zone_batchsize_bound z : 0 ≤ zone_batchsize z ≤ 63.
Proof.
  unfold zone_batchsize. cbv zeta. set (b0 := s32 (zn_managed z / 1024)).
  assert (Hb0 : - 2 ^ 31 ≤ b0 < 2 ^ 31) by (unfold b0, s32; pose proof (Z.mod_pos_bound (zn_managed z / 1024 + 2 ^ 31) (2 ^ 32)); lia).
  set (b1 := if u64 (b0 * PAGE_SIZE) >? 1024 * 1024 then 1024 * 1024 / PAGE_SIZE else b0).
  assert (Hb1 : b1 ≤ 256).
  { unfold b1. rewrite Z.gtb_ltb. destruct (Z.ltb_spec (1024 * 1024) (u64 (b0 * PAGE_SIZE))) as [|Hle]; [done|].
    destruct (Z.le_gt_cases b0 0); [lia|]. unfold PAGE_SIZE in *. rewrite u64_small in Hle by (simpl; lia). simpl in Hle. lia. }
  set (b2 := Z.quot b1 4). assert (Hb2 : b2 ≤ 64) by (unfold b2; change 64 with (Z.quot 256 4); by apply Z.quot_le_mono).
  set (b3 := if b2 <? 1 then 1 else b2). assert (Hb3 : 1 ≤ b3 ≤ 64) by (unfold b3; destruct (Z.ltb_spec b2 1); lia).
  assert (Hq : 1 ≤ b3 + Z.quot b3 2 ≤ 96) by (rewrite Z.quot_div_nonneg by lia; pose proof (Z.div_mod b3 2); pose proof (Z.mod_pos_bound b3 2); lia).
  assert (Hl : 0 ≤ Z.log2 (b3 + Z.quot b3 2) ≤ 6).
  { split; [apply Z.log2_nonneg|]. change 6 with (Z.log2 96). apply Z.log2_le_mono. lia. }
  assert (2 ^ 0 ≤ 2 ^ Z.log2 (b3 + Z.quot b3 2) ≤ 2 ^ 6) by (split; apply Z.pow_le_mono_r; lia). lia.
Qed.

Lemma pageset_ok z p : let p' := pageset_set_batch (pageset_init p) (zone_batchsize z) in pcp_ok p' ∧ pcp_lists p' = [].
Proof.
  pose proof (zone_batchsize_bound z) as Hb. set (b := zone_batchsize z) in *. cbv zeta. split; [|done].
  unfold pageset_set_batch, pageset_update, pageset_init, pcp_ok. cbn [pcp_count pcp_high pcp_batch pcp_lists length].
  rewrite !u64_small by lia. rewrite !s32_small by lia. split; [done|]. split; [apply NoDup_nil_2|]. lia.
Qed.

(** ** Releasing fresh pages *)

(** A page as [__init_single_page] leaves it, possibly reserved since. *)
Definition fresh (zi : nat) (pg : page) : Prop :=
  (pg_flags pg = 0 ∨ pg_flags pg = PG_reserved) ∧ pg_zone pg = zi ∧ pg_type pg = TYPE_NONE ∧ pg_tail pg = None.

Definition unreserve (pg : page) : page := set_page_count 0 (set_flags (Z.land (pg_flags pg) (Z.lnot PG_reserved)) pg).

Lemma fresh_clean zi pg : fresh zi pg → clean zi (unreserve pg).
Proof. intros (Hf & ? & ? & ?). split; [simpl; by destruct Hf as [-> | ->]|by split_and!]. Qed.

Lemma boot_pages_run zi n : ∀ p nd,
  (∀ q, range p n q → ∃ pg, mem_map nd !! q = Some pg ∧ fresh zi pg) →
  ∃ nd', boot_pages n p nd = Some (tt, nd') ∧ mapped (range p n) (λ _, unreserve) nd nd'.
Proof.
  induction n as [|n IH]; intros p nd Hq; [exists nd; split; [done|apply mapped_nil]|].
  destruct (Hq p) as (pg & Hp & Hfl & _ & _ & Htl); [unfold range; lia|]. cbn [boot_pages].
  rewrite (kbind_run _ _ _ _ _ (get_page_run p pg nd Hp)). rewrite BUG_ON_run.
  2: { unfold PageCompound, PageHead, PageTail. rewrite Htl. by destruct Hfl as [-> | ->]. }
  rewrite (kbind_run _ _ _ _ _ (upd_page_run p pg _ nd Hp)). fold (unreserve pg).
  pose proof (mapped_one p (λ _, unreserve) nd pg Hp) as Hm. cbv beta in Hm.
  destruct (IH (p + 1) (put_page p (unreserve pg) nd)) as (nd' & Hrun & Hm').
  - intros q Hr. destruct Hm as (_ & _ & Ho). rewrite Ho by (unfold range in Hr; lia). apply Hq. unfold range in *. lia.
  - exists nd'. split; [exact Hrun|]. by eapply mapped_cons.
Qed.

Section zone.
Variable zi : nat.

(** Tails that were never part of a compound page. *)
Lemma free_tails_plain n : ∀ head p nd,
  (∀ q, range p n q → ∃ pg, mem_map nd !! q = Some pg ∧ clean zi pg) → free_tails n false head p nd = Some (true, nd).
Proof.
  induction n as [|n IH]; intros head p nd Hq; [done|]. destruct (Hq p) as (pg & Hp & Hc); [unfold range; lia|]. cbn [free_tails].
  rewrite kbind_ret. destruct Hc as (Hfl & _ & Hty & Hrc & _).
  erewrite kbind_run; [|eapply free_pages_check_run; [exact Hp|unfold page_expected_state, mapcount_none; by rewrite Hty, Hrc, Hfl]].
  cbv iota. rewrite (kbind_run _ _ _ _ _ (upd_page_run p _ _ _ Hp)). rewrite put_page_id.
  - rewrite (kbind_run _ _ _ _ _ (IH head (p + 1) nd ltac:(intros q Hr; apply Hq; unfold range in *; lia))). done.
  - rewrite Hp. f_equal. rewrite Hfl. destruct pg; simpl in *. by subst.
Qed.

Lemma prepared_plain nd o p : (∀ q, inb p o q → ∃ pg, mem_map nd !! q = Some pg ∧ clean zi pg) → prepared zi nd o p.
Proof.
  intros Hcl. destruct (Hcl p (inb_self _ _)) as (pg & Hp & Hf & Hz & Hty & Hr & Htl). exists nd. unfold free_pages_prepare.
  assert (HPH : PageHead pg = false) by (unfold PageHead; by rewrite Hf).
  assert (HPT : PageTail pg = false) by (unfold PageTail; by rewrite Htl).
  rewrite (kbind_run _ _ _ _ _ (get_page_run p pg nd Hp)), BUG_ON_run by done.
  assert (Hgood : (if decide (o = 0)%nat then kret true else
     let compound := PageCompound pg in let! co := compound_order p in do! BUG_ON (compound && negb (co =? Z.of_nat o)) in
     free_tails (Z.to_nat (bsz o) - 1) compound p (p + 1)) nd = Some (true, nd)).
  { case_decide; [done|]. cbv zeta. unfold PageCompound, compound_order.
    rewrite kbind_assoc, (kbind_run _ _ _ _ _ (get_page_run p pg nd Hp)), HPH, HPT. cbn [orb]. rewrite kbind_ret, BUG_ON_run by done.
    apply free_tails_plain. intros q Hrg. by apply Hcl, range_tails. }
  rewrite (kbind_run _ _ _ _ _ Hgood).
  erewrite kbind_run; [|eapply free_pages_check_run; [exact Hp|unfold page_expected_state, mapcount_none; by rewrite Hty, Hr, Hf]].
  cbn [andb negb]. rewrite (kbind_run _ _ _ _ _ (upd_page_run p _ _ _ Hp)). rewrite put_page_id.
  - split; [done|]. split; [|done]. split; done.
  - rewrite Hp. f_equal. rewrite Hf. destruct pg; simpl in *. by subst.
Qed.

Definition add_managed (n : Z) (nd : node) : node :=
  mk_node (mem_map nd) (<[zi := let z := node_zones nd zi in mk_zone (zn_initialized z) (zn_free_area z) (zn_pageset z) (zn_managed z + n)]>
                          (node_zones nd)).
Lemma add_managed_zone n nd zj :
  (∀ o, nd_area (add_managed n nd) zj o = nd_area nd zj o) ∧ (∀ cpu, pcp_of (add_managed n nd) zj cpu = pcp_of nd zj cpu) ∧
  zn_initialized (node_zones (add_managed n nd) zj) = zn_initialized (node_zones nd zj) ∧
  (zj ≠ zi → node_zones (add_managed n nd) zj = node_zones nd zj).
Proof.
  unfold nd_area, pcp_of, add_managed. simpl. destruct (decide (zj = zi)) as [->|Hz].
  - rewrite fn_lookup_insert. done.
  - rewrite fn_lookup_insert_ne by done. done.
Qed.

Lemma add_managed_run n nd :
  upd_zone zi (λ z, mk_zone (zn_initialized z) (zn_free_area z) (zn_pageset z) (zn_managed z + n)) nd = Some (tt, add_managed n nd).
Proof. done. Qed.
Lemma add_managed_alloc n nd : alloc_inv nd → alloc_inv (add_managed n nd).
Proof. apply alloc_inv_ext; [done|intros zj; apply (add_managed_zone n nd zj)..]. Qed.
Lemma add_managed_avail n nd zj q : avail (add_managed n nd) zj q ↔ avail nd zj q.
Proof.
  destruct (add_managed_zone n nd zj) as (Ha & Hp & _). unfold avail, is_free, free_block, cached.
  setoid_rewrite Ha. by setoid_rewrite Hp.
Qed.
Lemma given_managed n nd S nd' : given zi (add_managed n nd) S nd' → given zi nd S nd'.
Proof.
  intros [G1 G2 G3]. split; [done|intros q; by rewrite G2, add_managed_avail|].
  eapply (node_frame_trans _ _ _ (add_managed n nd)).
  - destruct (add_managed_zone n nd zi) as (_ & _ & Hini & _). split; try done. intros zj Hz. by apply (add_managed_zone n nd zj).
  - eapply node_frame_weaken; [|exact G3]. intros q. cbv beta. by rewrite add_managed_avail.
Qed.

Lemma clean_refcounted nd p pg :
  mem_map nd !! p = Some pg → clean zi pg → set_page_refcounted p nd = Some (tt, put_page p (set_page_count 1 pg) nd).
Proof.
  intros Hp (_ & _ & _ & Hr & Ht). unfold set_page_refcounted. rewrite (kbind_run _ _ _ _ _ (get_page_run p pg nd Hp)).
  rewrite BUG_ON_run by (unfold PageTail; by rewrite Ht). rewrite BUG_ON_run by (by rewrite Hr). by apply upd_page_run.
Qed.

(** Taking the first reference and dropping it again. *)
Lemma refcount_drop nd p pg cpu o :
  mem_map nd !! p = Some pg → clean zi pg →
  kbind (set_page_refcounted p) (λ _, __free_pages cpu p o) nd = free_the_page cpu p o nd.
Proof.
  intros Hp Hc. rewrite (kbind_run _ _ _ _ _ (clean_refcounted nd p pg Hp Hc)). unfold __free_pages, put_page_testzero.
  rewrite kbind_assoc, (kbind_run _ _ _ _ _ (get_page_run p _ _ (page_put_eq _ _ _))). cbn [pg_refcount set_page_count].
  rewrite kbind_assoc, BUG_ON_run by done. rewrite kbind_assoc, (kbind_run _ _ _ _ _ (upd_page_run p _ _ _ (page_put_eq _ _ _))).
  rewrite kbind_ret, put_page_twice, put_page_id; [done|]. rewrite Hp. f_equal. destruct Hc as (_ & _ & _ & Hr & _). destruct pg; simpl in *. by subst.
Qed.

Lemma free_boot_core_run nd cpu o p :
  alloc_inv nd → zn_initialized (node_zones nd zi) = true → aligned p o → (o < MAX_ORDER)%nat →
  (∀ q, inb p o q → (∃ pg, mem_map nd !! q = Some pg ∧ fresh zi pg) ∧ ¬ avail nd zi q) →
  ∃ nd', memblock_free_pages cpu p o nd = Some (tt, nd') ∧ given zi nd (inb p o) nd'.
Proof.
  intros Hi Hinit Hal Ho Hq. unfold memblock_free_pages, __free_pages_boot_core.
  assert (Hrange : ∀ q, range p (Z.to_nat (bsz o)) q ↔ inb p o q) by (intros q; unfold range, inb; pose proof (bsz_pos o); lia).
  destruct (boot_pages_run zi (Z.to_nat (bsz o)) p nd) as (nd1 & Hrun1 & Hm1); [intros q Hr; by apply Hq, Hrange|].
  rewrite (kbind_run _ _ _ _ _ Hrun1).
  assert (Ht1 : touched (inb p o) nd nd1).
  { eapply touched_mapped; [|intros q; apply range_dec| |exact Hm1]; [intros q; apply Hrange|done]. }
  assert (Hcl : ∀ q, inb p o q → ∃ pg, mem_map nd1 !! q = Some pg ∧ clean zi pg).
  { intros q Hin. destruct Hm1 as (_ & Hm & _). rewrite Hm by (by apply Hrange). destruct (Hq q Hin) as [(pg & -> & Hf) _].
    eexists. split; [done|]. by apply fresh_clean. }
  destruct (touched_alloc nd nd1 zi o p Hi Ht1) as (Hi1 & Hf1 & Hc1); [intros q Hin; by apply Hq| |].
  { intros q Hin. destruct (Hcl q Hin) as (pg & ? & (_ & ? & ? & _)). by exists pg. }
  destruct (Hcl p (inb_self _ _)) as (pg & Hp & Hpc). unfold page_zone.
  rewrite kbind_assoc, (kbind_run _ _ _ _ _ (get_page_run p pg nd1 Hp)), kbind_ret. assert (pg_zone pg = zi) as -> by apply Hpc.
  rewrite (kbind_run _ _ _ _ _ (add_managed_run (bsz o) nd1)). set (nd2 := add_managed (bsz o) nd1).
  rewrite (refcount_drop nd2 p pg cpu o Hp Hpc).
  destruct (free_the_page_run zi nd2 cpu o p) as (nd' & Hrun & Hg).
  - by apply add_managed_alloc.
  - unfold nd2. destruct (add_managed_zone (bsz o) nd1 zi) as (_ & _ & -> & _). by rewrite (tc_zones _ _ _ Ht1).
  - done.
  - done.
  - by apply prepared_plain.
  - intros q Hin. unfold nd2. rewrite add_managed_avail. unfold avail. rewrite Hf1. setoid_rewrite Hc1. by apply Hq.
  - exists nd'. split; [done|]. eapply (given_touched zi nd nd1); [done|apply Hf1|apply Hc1|]. by eapply given_managed.
Qed.

(** ** Cutting a range into blocks *)

Lemma ffs_loop_low n x : ∀ i,
  (∀ j, 0 ≤ j < Z.of_nat i → Z.testbit x j = false) → ∀ j, 0 ≤ j < Z.of_nat (ffs_loop n x i) → Z.testbit x j = false.
Proof.
  induction n as [|n IH]; intros i Hi; [done|]. cbn [ffs_loop]. destruct (Z.testbit x (Z.of_nat i)) eqn:Hb; [done|].
  apply IH. intros j Hj. destruct (Z.eq_dec j (Z.of_nat i)) as [->|]; [done|]. apply Hi. lia.
Qed.
Lemma ffs_aligned x : aligned x (__ffs x).
Proof.
  unfold aligned, bsz. apply Z.mod_divide; [apply Z.pow_nonzero; lia|]. apply Z.bits_inj'. intros j Hj. rewrite Z.bits_0.
  destruct (Z.lt_ge_cases j (Z.of_nat (__ffs x))).
  - rewrite Z.mod_pow2_bits_low by done. unfold __ffs in *. by eapply (ffs_loop_low 64 x 0); [lia|].
  - by rewrite Z.mod_pow2_bits_high by lia.
Qed.

Lemma shrink_order_run start end_ : start < end_ → ∀ order,
  ∃ r, shrink_order order start end_ = Some r ∧ (r ≤ order)%nat ∧ start + bsz r ≤ end_.
Proof.
  intros Hlt. induction order as [|order (r & Hr & Hle & Hb)]; cbn [shrink_order]; rewrite Z.gtb_ltb.
  - change (bsz 0) with 1. rewrite (proj2 (Z.ltb_ge _ _)) by lia. exists O. split; [done|]. split; [done|]. change (bsz 0) with 1. lia.
  - destruct (Z.ltb_spec end_ (start + bsz (S order))); [exists r|exists (S order)]; (split; [done|]); (split; [lia|done]).
Qed.

Lemma free_pages_memory_run n cpu : ∀ start end_ nd,
  alloc_inv nd → zn_initialized (node_zones nd zi) = true → end_ - start ≤ Z.of_nat n →
  (∀ q, start ≤ q < end_ → (∃ pg, mem_map nd !! q = Some pg ∧ fresh zi pg) ∧ ¬ avail nd zi q) →
  ∃ nd', __free_pages_memory n cpu start end_ nd = Some (tt, nd') ∧ given zi nd (λ q, start ≤ q < end_) nd'.
Proof.
  induction n as [|n IH]; intros start end_ nd Hi Hinit Hn Hq; cbn [__free_pages_memory].
  { rewrite (proj2 (Z.ltb_ge _ _)) by lia. exists nd. split; [done|]. split; [done|intros q; split; [tauto|intros [?|?]; [done|lia]]|apply node_frame_refl]. }
  destruct (Z.ltb_spec start end_) as [Hlt|Hge].
  2: { exists nd. split; [done|]. split; [done|intros q; split; [tauto|intros [?|?]; [done|lia]]|apply node_frame_refl]. }
  destruct (shrink_order_run start end_ Hlt (Nat.min (MAX_ORDER - 1) (__ffs start))) as (o & Ho & Hle & Hb). rewrite Ho.
  assert (Hal : aligned start o) by (eapply aligned_le; [|apply ffs_aligned]; lia). pose proof (bsz_pos o).
  destruct (free_boot_core_run nd cpu o start Hi Hinit Hal) as (nd1 & Hrun1 & [G1 G2 G3]); [unfold MAX_ORDER in *; lia| |].
  { intros q Hin. apply Hq. unfold inb in Hin. lia. }
  rewrite (kbind_run _ _ _ _ _ Hrun1). destruct (IH (start + bsz o) end_ nd1 G1) as (nd' & Hrun & [F1 F2 F3]).
  - by rewrite (nf_init _ _ _ _ G3).
  - lia.
  - intros q Hr. destruct (Hq q) as [Hf Hna]; [lia|]. assert (Hni : ¬ inb start o q) by (unfold inb; lia).
    rewrite (nf_pages _ _ _ _ G3) by tauto. split; [done|]. rewrite G2. tauto.
  - exists nd'. split; [done|]. assert (Hu : ∀ q, start ≤ q < end_ ↔ inb start o q ∨ start + bsz o ≤ q < end_) by (intros q; unfold inb; lia).
    split; [done|intros q; rewrite F2, G2, Hu; tauto|].
    eapply node_frame_trans; (eapply node_frame_weaken; [|first [exact F3|exact G3]]); intros q; cbv beta; rewrite ?G2, Hu; tauto.
Qed.

End zone.
