(* ===== verification/PageAllocSpec.v ===== *)
(** * The page allocator against its abstract specification

    The specification knows which pages the allocator owns and which blocks are
    held; the free and cached pages of the implementation are the rest.  The
    counters of the zone are related to the pages here too. *)
From stdpp Require Import functions gmap.
From S2P Require Import Prelude PageAlloc PageAllocFacts PageAllocBuddy PageAllocPcp PageAllocOps.

(** ** Counting the free pages *)

Definition free_pages_list (nd : node) (zi : nat) : list Z :=
  seq 0 MAX_ORDER ≫= λ o, free_list (nd_area nd zi o) ≫= λ p, seqZ p (bsz o).

Lemma elem_of_free_pages_list nd zi q : zone_inv nd zi → q ∈ free_pages_list nd zi ↔ is_free nd zi q.
Proof.
  intros Hi. unfold free_pages_list. rewrite list_elem_of_bind. setoid_rewrite list_elem_of_bind. split.
  - intros (o & (p & Hq%elem_of_seqZ & Hp) & _). by exists o, p.
  - intros (o & p & Hf & Hq). exists o. pose proof (inv_order _ _ Hi _ _ Hf). split; [|apply elem_of_seq; lia].
    exists p. split; [by apply elem_of_seqZ|done].
Qed.

Lemma NoDup_free_pages_list nd zi : zone_inv nd zi → NoDup (free_pages_list nd zi).
Proof.
  intros Hi. apply NoDup_bind; [| |apply NoDup_seq].
  - intros o o' q _ _ (p & Hq%elem_of_seqZ & Hp)%list_elem_of_bind (p' & Hq'%elem_of_seqZ & Hp')%list_elem_of_bind.
    by eapply (free_disjoint zi nd o p o' p').
  - intros o _. apply NoDup_bind; [|intros p _; apply NoDup_seqZ|apply (inv_count _ _ Hi)].
    intros p p' q Hp Hp' Hq%elem_of_seqZ Hq'%elem_of_seqZ. by eapply (free_disjoint zi nd o p o p').
Qed.

Definition sumZ {A} (f : A → Z) (l : list A) : Z := foldr (λ x s, f x + s) 0 l.

Lemma length_bind {A B} (f : A → list B) l : Z.of_nat (length (l ≫= f)) = sumZ (λ x, Z.of_nat (length (f x))) l.
Proof. induction l as [|x l IH]; [done|]. rewrite bind_cons, length_app, Nat2Z.inj_add, IH. done. Qed.
Lemma sumZ_const {A} (f : A → Z) c l : (∀ x, f x = c) → sumZ f l = Z.of_nat (length l) * c.
Proof. intros Hf. induction l as [|x l IH]; [done|]. cbn [sumZ foldr length]. fold (sumZ f l). rewrite IH, Hf. lia. Qed.
Lemma sumZ_ext {A} (f g : A → Z) l : (∀ x, f x = g x) → sumZ f l = sumZ g l.
Proof. intros H. induction l as [|x l IH]; [done|]. cbn [sumZ foldr]. fold (sumZ f l) (sumZ g l). by rewrite H, IH. Qed.

Lemma foldl_u64 {A} (f : A → Z) l : ∀ r, 0 ≤ r < 2 ^ 64 → foldl (λ r x, u64 (r + f x)) r l = u64 (r + sumZ f l).
Proof.
  induction l as [|x l IH]; intros r Hr; cbn [foldl sumZ foldr].
  - by rewrite Z.add_0_r, u64_small.
  - rewrite IH by apply u64_bound. fold (sumZ f l). by rewrite u64_add_l, Z.add_assoc.
Qed.

Lemma nr_zone_free_pages_run nd zi :
  zone_inv nd zi → nr_zone_free_pages (node_zones nd zi) = Z.of_nat (length (free_pages_list nd zi)).
Proof.
  intros Hi. unfold nr_zone_free_pages. rewrite foldl_u64 by lia. rewrite Z.add_0_l.
  assert (Hlen : Z.of_nat (length (free_pages_list nd zi)) = sumZ (λ o, nr_free (zn_free_area (node_zones nd zi) o) * bsz o) (seq 0 MAX_ORDER)).
  { unfold free_pages_list. rewrite length_bind. apply sumZ_ext. intros o. rewrite length_bind, (sumZ_const _ (bsz o)).
    - fold (nd_area nd zi o). by rewrite (proj2 (inv_count _ _ Hi o)).
    - intros p. rewrite length_seqZ. pose proof (bsz_pos o). lia. }
  rewrite <-Hlen. apply u64_small. pose proof (inv_size _ _ Hi).
  assert (length (free_pages_list nd zi) ≤ size (mem_map nd))%nat; [|lia].
  rewrite <-(size_list_to_set (C := gset Z)) by (by apply NoDup_free_pages_list). rewrite <-(size_dom (D := gset Z)).
  apply subseteq_size. intros q Hq%elem_of_list_to_set. apply elem_of_free_pages_list in Hq; [|done].
  destruct (free_zone nd zi q Hi Hq) as (pg & ? & _). apply elem_of_dom. eauto.
Qed.

(** ** Clients *)

(** A client takes blocks and releases those that it holds. *)
Inductive request :=
  | ReqAlloc (me : nat) (gfp_mask : Z) (order : nat)
  | ReqFree (cpu : nat) (p : Z).

(** The blocks that the client holds, by their first page: zone and order. *)
Notation blocks := (gmap Z (nat * nat)).

Definition serve_one (cpus : list nat) (r : request) (nd : node) (live : blocks) : option (option Z * node * blocks) :=
  match r with
  | ReqAlloc me gfp_mask order =>
      '(res, nd) ← __alloc_pages 2 cpus me gfp_mask order nd;
      Some (res, nd, match res with Some p => <[p := (gfp_zone gfp_mask, order)]> live | None => live end)
  | ReqFree cpu p =>
      match live !! p with
      | Some (_, order) => '(_, nd) ← __free_pages cpu p order nd; Some (None, nd, delete p live)
      | None => Some (None, nd, live)
      end
  end.
Fixpoint serve (cpus : list nat) (rs : list request) (nd : node) (live : blocks) : option (node * blocks) :=
  match rs with
  | [] => Some (nd, live)
  | r :: rs => '(_, nd, live) ← serve_one cpus r nd live; serve cpus rs nd live
  end.

(** The specification: the pages that the allocator was given are either
    available or in exactly one block that is held. *)
Record refines (owned : nat → Z → Prop) (nd : node) (live : blocks) : Prop := {
  rf_inv : alloc_inv nd;
  rf_init : ∀ zi, zn_initialized (node_zones nd zi) = true;
  rf_held : ∀ p zi o, live !! p = Some (zi, o) → held nd zi o 1 p;
  rf_avail : ∀ zi q, avail nd zi q ↔ owned zi q ∧ ∀ p o, live !! p = Some (zi, o) → ¬ inb p o q;
  rf_owned : ∀ p zi o q, live !! p = Some (zi, o) → inb p o q → owned zi q;
  rf_apart : ∀ p zi o p' zi' o' q, live !! p = Some (zi, o) → live !! p' = Some (zi', o') → inb p o q → inb p' o' q → p = p' }.

(** What the specification allows a request to do. *)
Definition spec_step (owned : nat → Z → Prop) (r : request) (live : blocks) (res : option Z) (live' : blocks) : Prop :=
  match r, res with
  | ReqAlloc _ gfp_mask order, Some p =>
      let zi := gfp_zone gfp_mask in
      aligned p order ∧ (order < MAX_ORDER)%nat ∧ live' = <[p := (zi, order)]> live ∧
      ∀ q, inb p order q → owned zi q ∧ ∀ p' zi' o', live !! p' = Some (zi', o') → ¬ inb p' o' q
  | ReqAlloc _ _ _, None => live' = live
  | ReqFree _ p, _ => live' = delete p live
  end.

(** ** The implementation follows the specification *)

Lemma frame_init zi S nd nd' zj :
  node_frame zi S nd nd' → zn_initialized (node_zones nd' zj) = zn_initialized (node_zones nd zj).
Proof. intros Hfr. destruct (decide (zj = zi)) as [->|Hz]; [apply Hfr|by rewrite (nf_zones _ _ _ _ Hfr)]. Qed.
Lemma frame_avail zi S nd nd' zj q : node_frame zi S nd nd' → zj ≠ zi → avail nd' zj q ↔ avail nd zj q.
Proof.
  intros Hfr Hz. unfold avail, is_free, free_block, cached, pcp_of, nd_area. by rewrite (nf_zones _ _ _ _ Hfr).
Qed.
Lemma held_frame zi S nd nd' zj o r p :
  node_frame zi S nd nd' → (∀ q, inb p o q → ¬ S q) → held nd zj o r p → held nd' zj o r p.
Proof.
  intros Hfr Hn [Hal Ho Hh Ht Hc]. split; [done|done| | |].
  - rewrite (nf_pages _ _ _ _ Hfr); [done|]. apply Hn, inb_self.
  - intros q Hq. rewrite (nf_pages _ _ _ _ Hfr) by auto. by apply Ht.
  - intros H0. rewrite (nf_pages _ _ _ _ Hfr); [by apply Hc|]. apply Hn. unfold inb. destruct o as [|o']; [done|].
    rewrite bsz_S. pose proof (bsz_pos o'). lia.
Qed.

(** Pages that are held are not available in any zone. *)
Lemma held_not_avail owned nd live p zi o q zj : refines owned nd live → live !! p = Some (zi, o) → inb p o q → ¬ avail nd zj q.
Proof.
  intros HR Hl Hq Ha. destruct (held_pages nd zi o 1 p q) as (pg & Hp & Hz & _); [by apply (rf_held _ _ _ HR)|done|].
  destruct (avail_zone nd zj q (rf_inv _ _ _ HR) Ha) as (pg' & Hp' & Hz'). assert (zi = zj) as -> by congruence.
  apply (rf_avail _ _ _ HR) in Ha as [_ Ha]. by eapply Ha.
Qed.

Lemma refines_alloc owned nd live zi o p nd' :
  refines owned nd live → alloced zi nd o p nd' → refines owned nd' (<[p := (zi, o)]> live).
Proof.
  intros HR [Hi' Hh Hw Hav Hfr].
  assert (Hapart : ∀ p' zi' o' q, live !! p' = Some (zi', o') → inb p' o' q → ¬ inb p o q).
  { intros p' zi' o' q Hl Hq' Hq. by eapply (held_not_avail owned nd live p' zi' o' q zi), Hw. }
  assert (Hnew : live !! p = None).
  { destruct (live !! p) as [[zi' o']|] eqn:Hl; [|done]. exfalso. eapply (Hapart p zi' o' p); [done|apply inb_self..]. }
  assert (Hins : ∀ p' b, <[p := (zi, o)]> live !! p' = Some b ↔ (p' = p ∧ b = (zi, o)) ∨ live !! p' = Some b).
  { intros p' b. rewrite lookup_insert_Some. split; [naive_solver|]. intros [[-> ->]|Hl]; [by left|]. right. split; [by intros ->; congruence|done]. }
  split; [done| | | | |].
  - intros zj. rewrite (frame_init _ _ _ _ _ Hfr). apply HR.
  - intros p' zi' o' [[-> [= -> ->]]|Hl]%Hins; [done|]. eapply held_frame; [exact Hfr| |by apply (rf_held _ _ _ HR)].
    intros q Hq. by eapply held_not_avail.
  - intros zj q. setoid_rewrite Hins. destruct (decide (zj = zi)) as [->|Hz].
    + rewrite Hav, (rf_avail _ _ _ HR). split.
      * intros [[Ho Hn] Hq]. split; [done|]. intros p' o' [[-> [= ->]]|Hl]; eauto.
      * intros [Ho Hn]. split; [split; [done|]; eauto|]. apply Hn. by left.
    + rewrite (frame_avail _ _ _ _ _ _ Hfr Hz), (rf_avail _ _ _ HR). split.
      * intros [Ho Hn]. split; [done|]. intros p' o' [[-> [= ? ->]]|Hl]; eauto.
      * intros [Ho Hn]. split; eauto.
  - intros p' zi' o' q [[-> [= -> ->]]|Hl]%Hins Hq; [|by eapply (rf_owned _ _ _ HR)]. by apply (rf_avail _ _ _ HR), Hw.
  - intros p1 z1 o1 p2 z2 o2 q [[-> [= -> ->]]|Hl1]%Hins [[-> [= -> ->]]|Hl2]%Hins Hq1 Hq2; [done| | |].
    + exfalso. by eapply (Hapart p2).
    + exfalso. by eapply (Hapart p1).
    + by eapply (rf_apart _ _ _ HR).
Qed.

Lemma refines_free owned nd live zi o p nd' :
  refines owned nd live → live !! p = Some (zi, o) → given zi nd (inb p o) nd' → refines owned nd' (delete p live).
Proof.
  intros HR Hl [Hi' Hav Hfr].
  assert (Hdel : ∀ p' b, delete p live !! p' = Some b ↔ p' ≠ p ∧ live !! p' = Some b) by (intros; rewrite lookup_delete_Some; naive_solver).
  split; [done| | | | |].
  - intros zj. rewrite (frame_init _ _ _ _ _ Hfr). apply HR.
  - intros p' zi' o' [Hne Hl']%Hdel. eapply held_frame; [exact Hfr| |by apply (rf_held _ _ _ HR)].
    intros q Hq [Ha|Hin]; [by eapply held_not_avail|]. apply Hne. by eapply (rf_apart _ _ _ HR p' zi' o' p zi o q).
  - intros zj q. setoid_rewrite Hdel. destruct (decide (zj = zi)) as [->|Hz].
    + rewrite Hav, (rf_avail _ _ _ HR). split.
      * intros [[Ho Hn]|Hin]; [split; [done|]; intros p' o' [_ Hl']; eauto|]. split; [by eapply (rf_owned _ _ _ HR)|].
        intros p' o' [Hne Hl'] Hq. apply Hne. by eapply (rf_apart _ _ _ HR p' zi o' p zi o q).
      * intros [Ho Hn]. destruct (inb_dec p o q) as [|Hni]; [by right|left]. split; [done|]. intros p' o' Hl' Hq.
        destruct (decide (p' = p)) as [->|Hne]; [congruence|by eapply Hn].
    + rewrite (frame_avail _ _ _ _ _ _ Hfr Hz), (rf_avail _ _ _ HR). split; intros [Ho Hn]; (split; [done|]).
      * intros p' o' [_ Hl']. eauto.
      * intros p' o' Hl' Hq. eapply Hn; [split; [|exact Hl']|done]. intros ->. congruence.
  - intros p' zi' o' q [_ Hl']%Hdel. by apply (rf_owned _ _ _ HR).
  - intros p1 z1 o1 p2 z2 o2 q [_ Hl1]%Hdel [_ Hl2]%Hdel. by eapply (rf_apart _ _ _ HR).
Qed.

(** The available pages stay, whoever caches them. *)
Lemma refines_given owned nd live zi nd' :
  refines owned nd live → given zi nd (λ _, False) nd' → refines owned nd' live.
Proof.
  intros HR [Hi' Hav Hfr]. split; [done| | | |apply HR|apply HR].
  - intros zj. rewrite (frame_init _ _ _ _ _ Hfr). apply HR.
  - intros p' zi' o' Hl. eapply held_frame; [exact Hfr| |by apply (rf_held _ _ _ HR)]. intros q Hq [Ha|[]]. by eapply held_not_avail.
  - intros zj q. destruct (decide (zj = zi)) as [->|Hz]; [rewrite Hav|rewrite (frame_avail _ _ _ _ _ _ Hfr Hz)];
      rewrite (rf_avail _ _ _ HR); tauto.
Qed.

Lemma serve_one_run owned cpus r nd live :
  refines owned nd live →
  ∃ res nd' live', serve_one cpus r nd live = Some (res, nd', live') ∧ refines owned nd' live' ∧ spec_step owned r live res live'.
Proof.
  intros HR. destruct r as [me gfp o|cpu p]; cbn [serve_one].
  - unfold __alloc_pages. case_decide as Ho.
    { exists None, nd, live. done. }
    destruct (get_page_from_freelist_run (gfp_zone gfp) 0 cpus me nd o) as (res & nd' & Hrun & Hres); [apply HR|apply HR|lia|].
    rewrite Hrun. cbn [mbind option_bind]. destruct res as [p|].
    + exists (Some p), nd', (<[p := (gfp_zone gfp, o)]> live). split; [done|]. split; [by eapply refines_alloc|].
      split; [apply (hd_align _ _ _ _ _ (ac_held _ _ _ _ _ Hres))|]. split; [lia|]. split; [done|]. intros q Hq.
      pose proof (ac_was _ _ _ _ _ Hres q Hq) as Ha. split; [by apply (rf_avail _ _ _ HR)|].
      intros p' zi' o' Hl Hq'. by eapply held_not_avail.
    + exists None, nd', live. split; [done|]. split; [|done]. destruct Hres as [Hg _]. by eapply refines_given.
  - destruct (live !! p) as [[zi o]|] eqn:Hl.
    + destruct (free_pages_last zi nd cpu o p) as (nd' & Hrun & Hg); [apply HR|apply HR|by apply (rf_held _ _ _ HR)| |].
      { intros q Hq. by eapply held_not_avail. }
      rewrite Hrun. cbn [mbind option_bind]. exists None, nd', (delete p live). split; [done|]. split; [by eapply refines_free|done].
    + exists None, nd, live. split; [done|]. split; [done|]. simpl. by rewrite delete_id.
Qed.

(** Runs of the specification. *)
Inductive spec_run (owned : nat → Z → Prop) : list request → blocks → blocks → Prop :=
  | spec_nil live : spec_run owned [] live live
  | spec_cons r rs live res live1 live2 :
      spec_step owned r live res live1 → spec_run owned rs live1 live2 → spec_run owned (r :: rs) live live2.

Lemma serve_run owned cpus rs : ∀ nd live,
  refines owned nd live →
  ∃ nd' live', serve cpus rs nd live = Some (nd', live') ∧ refines owned nd' live' ∧ spec_run owned rs live live'.
Proof.
  induction rs as [|r rs IH]; intros nd live HR; [exists nd, live; split; [done|]; split; [done|constructor]|]. cbn [serve].
  destruct (serve_one_run owned cpus r nd live HR) as (res & nd1 & live1 & Hrun & HR1 & Hst). rewrite Hrun. cbn [mbind option_bind].
  destruct (IH nd1 live1 HR1) as (nd' & live' & Hrun' & HR' & Hsp). exists nd', live'. split; [done|]. split; [done|]. by econstructor.
Qed.
