(* ===== verification/PageAllocProps.v ===== *)
(** * What the page allocator promises *)
From stdpp Require Import functions gmap.
From S2P Require Import Prelude PageAlloc PageAllocFacts PageAllocBuddy PageAllocPcp PageAllocOps PageAllocBoot PageAllocSpec.

(** ** A node with seven pages *)
Module PageExample.

Definition raw_zone : zone :=
  zone_init_free_lists (mk_zone true (λ _, mk_area [] 0)
    (λ _, pageset_set_batch (pageset_init (mk_pcp 0 0 0 [])) (zone_batchsize (mk_zone true (λ _, mk_area [] 0) (λ _, mk_pcp 0 0 0 []) 65536))) 0).
(** The frames 17 to 23, before they are released. *)
Definition raw_node : node :=
  mk_node (list_to_map ((λ p, (p, __init_single_page ZONE_NORMAL)) <$> seqZ 17 7)) (λ _, raw_zone).

Lemma raw_pages p pg : mem_map raw_node !! p = Some pg → pg = __init_single_page ZONE_NORMAL ∧ 17 ≤ p < 24.
Proof.
  intros H. apply elem_of_list_to_map_2 in H. apply list_elem_of_fmap in H as (q & [= -> ->] & Hq). apply elem_of_seqZ in Hq. by split.
Qed.
Lemma raw_inv : alloc_inv raw_node.
Proof.
  apply empty_alloc_inv; [vm_compute; done| |done|intros zi cpu; apply pageset_ok].
  intros p pg [-> _]%raw_pages. done.
Qed.

Definition boot_node : node := match __free_pages_memory 7 1 17 24 raw_node with Some (_, nd) => nd | None => raw_node end.
Definition owned (zi : nat) (q : Z) : Prop := zi = ZONE_NORMAL ∧ 17 ≤ q < 24.

Lemma raw_empty zi q : ¬ avail raw_node zi q.
Proof. intros [(o & p & Hf & _)|[cpu Hc]]; [by apply elem_of_nil in Hf|by apply elem_of_nil in Hc]. Qed.

Lemma raw_fresh q : 17 ≤ q < 24 → (∃ pg, mem_map raw_node !! q = Some pg ∧ fresh ZONE_NORMAL pg) ∧ ¬ avail raw_node ZONE_NORMAL q.
Proof.
  intros Hq. split.
  - exists (__init_single_page ZONE_NORMAL). split; [|split; [by left|done]].
    apply elem_of_list_to_map_1.
    + rewrite <-list_fmap_compose. simpl. vm_compute. repeat (apply NoDup_cons; split; [set_solver|]). apply NoDup_nil_2.
    + apply list_elem_of_fmap. exists q. split; [done|]. apply elem_of_seqZ. lia.
  - apply raw_empty.
Qed.

Lemma boot_refines : refines owned boot_node ∅.
Proof.
  destruct (free_pages_memory_run ZONE_NORMAL 7 1 17 24 raw_node raw_inv) as (nd & Hrun & [Hi Hav Hfr]); [done|lia|apply raw_fresh|].
  assert (He : ∀ p (b : nat * nat), (∅ : blocks) !! p = Some b → False) by (intros p b; by rewrite lookup_empty).
  unfold boot_node. rewrite Hrun. clear Hrun. split.
  - exact Hi.
  - intros zi. rewrite (frame_init _ _ _ _ _ Hfr). reflexivity.
  - intros p zi o Hl. destruct (He _ _ Hl).
  - intros zi q. unfold owned. destruct (decide (zi = ZONE_NORMAL)) as [->|Hz].
    + rewrite Hav. split; [intros [Ha|Hq]; [destruct (raw_empty _ _ Ha)|]|intros [[_ Hq] _]; right; exact Hq].
      split; [split; [reflexivity|exact Hq]|]. intros p o Hl. destruct (He _ _ Hl).
    + rewrite (frame_avail _ _ _ _ _ _ Hfr Hz). split; [intros Ha; destruct (raw_empty _ _ Ha)|]. intros [[Hz' _] _]. contradiction.
  - intros p zi o q Hl. destruct (He _ _ Hl).
  - intros p zi o p' zi' o' q Hl. destruct (He _ _ Hl).
Qed.

(** Processor 0 holds everything but the page that processor 1 caches. *)
Definition low_reqs : list request := [ReqAlloc 0 0 2; ReqAlloc 0 0 1].
Definition low_node : node := match serve [0; 1; 2]%nat low_reqs boot_node ∅ with Some (nd, _) => nd | None => boot_node end.

Lemma low_refines : ∃ live, refines owned low_node live.
Proof.
  destruct (serve_run owned [0; 1; 2]%nat low_reqs boot_node ∅ boot_refines) as (nd & live & Hrun & HR & _).
  unfold low_node. rewrite Hrun. by exists live.
Qed.

Lemma mem_true (p : Z) (l : list Z) : bool_decide (p ∈ l) = true → p ∈ l.
Proof. apply bool_decide_eq_true. Qed.

(** The node after the request of processor 0 for one more page. *)
Definition failed_node : node :=
  match __alloc_pages 2 [0; 1; 2]%nat 0 0 0 low_node with Some (_, nd) => nd | None => low_node end.
Lemma failed_run :
  fst <$> __alloc_pages 2 [0; 1; 2]%nat 0 0 0 low_node = Some None → __alloc_pages 2 [0; 1; 2]%nat 0 0 0 low_node = Some (None, failed_node).
Proof. unfold failed_node. destruct (__alloc_pages _ _ _ _ _ _) as [[r nd]|]; [|done]. intros [= ->]. done. Qed.

(** The same frames in no use. *)
Definition clean_node : node :=
  mk_node (list_to_map ((λ p, (p, set_page_count 0 (__init_single_page ZONE_NORMAL))) <$> seqZ 17 7)) (λ _, raw_zone).
Lemma clean_node_inv : node_inv clean_node.
Proof.
  apply al_node, empty_alloc_inv; [vm_compute; done| |done|intros zi cpu; apply pageset_ok].
  intros p pg H. apply elem_of_list_to_map_2 in H. apply list_elem_of_fmap in H as (q & [= -> ->] & _). done.
Qed.
Lemma clean_loose : loose clean_node ZONE_NORMAL 2 20.
Proof.
  split; [exists 5; reflexivity|]. intros q Hq. split; [|intros (o & p & Hf & _); by apply elem_of_nil in Hf].
  assert (Hc : q = 20 ∨ q = 21 ∨ q = 22 ∨ q = 23) by (unfold inb in Hq; change (bsz 2) with 4 in Hq; lia).
  exists (set_page_count 0 (__init_single_page ZONE_NORMAL)). split; [|done].
  by destruct Hc as [->|[->|[->| ->]]]; vm_compute.
Qed.

End PageExample.

(** ** The allocator *)

(** C31. [__alloc_pages] in a good state returns: an order that is too large is
    refused and changes nothing; otherwise either an aligned block of the order
    is handed out whose pages were all available, which leave the available
    pages of the zone and nothing else does, with one reference on the head and
    the tails pointing to it, or the request fails with the available pages as
    they were, and then no block of the order was free in the zone at the call
    and, for a single page, the caller's own list was empty.  Two rounds of the
    retry loop are enough. *)
Theorem alloc_pages_correct n cpus me gfp_mask o nd :
  alloc_inv nd → zn_initialized (node_zones nd (gfp_zone gfp_mask)) = true →
  ((MAX_ORDER ≤ o)%nat → __alloc_pages (S (S n)) cpus me gfp_mask o nd = Some (None, nd)) ∧
  ((o < MAX_ORDER)%nat →
   ∃ r nd', __alloc_pages (S (S n)) cpus me gfp_mask o nd = Some (r, nd') ∧
     match r with
     | Some p => alloced (gfp_zone gfp_mask) nd o p nd'
     | None => given (gfp_zone gfp_mask) nd (λ _, False) nd' ∧ exhausted (gfp_zone gfp_mask) nd me o
     end).
Proof.
  intros Hi Hinit. split; intros Ho; [|by apply alloc_pages_run]. unfold __alloc_pages. by rewrite decide_True.
Qed.

(** C32. [__free_pages]: dropping the last reference of a held block makes
    exactly its pages available again and keeps the invariant; with more
    references only the count goes down; releasing a page that is already
    available is caught. *)
Theorem free_pages_correct zi nd cpu o p :
  alloc_inv nd → zn_initialized (node_zones nd zi) = true →
  (held nd zi o 1 p → (∀ q, inb p o q → ¬ avail nd zi q) →
   ∃ nd', __free_pages cpu p o nd = Some (tt, nd') ∧ given zi nd (inb p o) nd') ∧
  (∀ r, held nd zi o r p → 1 < r < 2 ^ 31 →
   ∃ nd', __free_pages cpu p o nd = Some (tt, nd') ∧ touched (inb p o) nd nd' ∧ held nd' zi o (r - 1) p) ∧
  (avail nd zi p → __free_pages cpu p o nd = None).
Proof.
  intros Hi Hinit. split; [by apply free_pages_last|]. split; [intros r; by apply free_pages_shared|].
  intros Ha. destruct (avail_unused nd zi p Hi Ha) as (pg & Hp & Hr). unfold __free_pages, put_page_testzero.
  rewrite kbind_assoc, (kbind_run _ _ _ _ _ (get_page_run p pg nd Hp)), Hr. done.
Qed.

(** C33. [__free_one_page] on a block of unused pages raises no [BUG_ON], finds
    every buddy on the list that it takes it from, and leaves lists that again
    hold exactly the marked blocks, with no two free buddies; the free pages
    are those from before and the block. *)
Theorem free_one_page_correct zi nd p o :
  node_inv nd → zn_initialized (node_zones nd zi) = true → loose nd zi o p → (o < MAX_ORDER)%nat →
  ∃ nd', __free_one_page zi p o nd = Some (tt, nd') ∧ freed zi nd p o nd'.
Proof. apply free_one_page_run. Qed.

(** [__rmqueue_smallest] takes an aligned block of the order out of the
    free pages of the zone, splitting a larger one when needed, and fails only
    when the free pages contain no aligned block of that order at all. *)
Theorem rmqueue_smallest_correct zi nd o :
  node_inv nd → (o < MAX_ORDER)%nat →
  (∃ p nd', __rmqueue_smallest zi o nd = Some (Some p, nd') ∧ took zi nd o p nd') ∨
  (__rmqueue_smallest zi o nd = Some (None, nd) ∧ ∀ p, aligned p o → ¬ ∀ q, inb p o q → is_free nd zi q).
Proof. apply rmqueue_smallest_run. Qed.

(** C34. Every sequence of requests of a client that releases only blocks it
    holds runs without a [BUG_ON] and is a run of the specification: the blocks
    handed out are aligned, consist of pages that the allocator owns and never
    overlap a block that is held; available pages and held blocks always make
    up exactly the owned pages. *)
Theorem pages_refine owned cpus rs nd live :
  refines owned nd live →
  ∃ nd' live', serve cpus rs nd live = Some (nd', live') ∧ refines owned nd' live' ∧ spec_run owned rs live live'.
Proof. apply serve_run. Qed.

(** C35. [__free_pages_memory] terminates, within as many turns as the range has
    pages, and makes exactly the pages of the range available: each turn
    releases an aligned block inside the range. *)
Theorem free_pages_memory_correct zi n cpu start end_ nd :
  alloc_inv nd → zn_initialized (node_zones nd zi) = true → 0 < start → end_ - start ≤ Z.of_nat n →
  (∀ q, start ≤ q < end_ → (∃ pg, mem_map nd !! q = Some pg ∧ fresh zi pg) ∧ ¬ avail nd zi q) →
  ∃ nd', __free_pages_memory n cpu start end_ nd = Some (tt, nd') ∧ given zi nd (λ q, start ≤ q < end_) nd'.
Proof. intros Hi Hinit _. by apply free_pages_memory_run. Qed.

(** [nr_zone_free_pages] adds up the counters of the lists without overflow
    to the number of pages on the buddy lists; the sizes computed for a page
    set keep [batch] within [high] (or 1), whatever the number of managed
    pages. *)
Theorem nr_zone_free_pages_correct nd zi :
  zone_inv nd zi →
  (nr_zone_free_pages (node_zones nd zi) = Z.of_nat (length (free_pages_list nd zi)) ∧
   NoDup (free_pages_list nd zi) ∧ ∀ q, q ∈ free_pages_list nd zi ↔ is_free nd zi q) ∧
  ∀ z p, 0 ≤ zone_batchsize z ≤ 63 ∧ pcp_ok (pageset_set_batch (pageset_init p) (zone_batchsize z)).
Proof.
  intros Hi. split; [split; [by apply nr_zone_free_pages_run|split; [by apply NoDup_free_pages_list|]]|].
  - intros q. by apply elem_of_free_pages_list.
  - intros z p. split; [apply zone_batchsize_bound|apply pageset_ok].
Qed.

(** [get_page_from_freelist] keeps only the result of the last processor it
    drains: with a page cached by processor 1 and nothing by processor 2, a
    request of processor 0 drains the page to the buddy lists and fails all the
    same; the same request repeated succeeds. *)
Theorem drain_lost :
  alloc_inv PageExample.low_node ∧ cached PageExample.low_node ZONE_NORMAL 1 17 ∧
  ∃ nd', __alloc_pages 2 [0; 1; 2]%nat 0 0 0 PageExample.low_node = Some (None, nd') ∧ is_free nd' ZONE_NORMAL 17 ∧
         fst <$> __alloc_pages 2 [0; 1; 2]%nat 0 0 0 nd' = Some (Some 17).
Proof.
  split; [destruct PageExample.low_refines as [live HR]; apply HR|]. split; [by apply PageExample.mem_true; vm_compute|].
  exists PageExample.failed_node. split; [apply PageExample.failed_run; by vm_compute|]. split; [|by vm_compute].
  exists O, 17. split; [by apply PageExample.mem_true; vm_compute|apply inb_self].
Qed.

(** ** Witnesses *)
Module PageWitness.
Import PageExample.

Lemma alloc_pages_correct_witness :
  alloc_inv boot_node ∧
  ∃ r nd', __alloc_pages 2 [0; 1; 2]%nat 0 0 1 boot_node = Some (r, nd') ∧
    match r with Some p => alloced ZONE_NORMAL boot_node 1 p nd' | None => given ZONE_NORMAL boot_node (λ _, False) nd' ∧ exhausted ZONE_NORMAL boot_node 0 1 end.
Proof.
  split; [apply boot_refines|]. apply (alloc_pages_correct 0 [0; 1; 2]%nat 0 0 1 boot_node); [apply boot_refines|apply boot_refines|].
  unfold MAX_ORDER. lia.
Defined.

Lemma free_pages_correct_witness :
  ∃ nd1 nd', __alloc_pages 2 [0; 1; 2]%nat 0 0 1 boot_node = Some (Some 18, nd1) ∧
    __free_pages 0 18 1 nd1 = Some (tt, nd') ∧ given ZONE_NORMAL nd1 (inb 18 1) nd' ∧ __free_pages 0 20 2 boot_node = None.
Proof.
  assert (Ha : avail boot_node ZONE_NORMAL 20).
  { apply (rf_avail _ _ _ boot_refines). split; [split; [reflexivity|lia]|]. intros p o. by rewrite lookup_empty. }
  assert (Hr : fst <$> __alloc_pages 2 [0; 1; 2]%nat 0 0 1 boot_node = Some (Some 18)) by (by vm_compute).
  destruct (alloc_pages_run 0 [0; 1; 2]%nat 0 0 boot_node 1) as (r & nd1 & Hrun & Hres);
    [apply boot_refines|apply boot_refines|unfold MAX_ORDER; lia|].
  rewrite Hrun in Hr. injection Hr as ->.
  change (gfp_zone 0) with ZONE_NORMAL in Hres. destruct Hres as [Hi Hh Hw Hav Hfr].
  destruct (free_pages_correct ZONE_NORMAL nd1 0 1 18) as (Hlast & _ & _); [exact Hi|rewrite (nf_init _ _ _ _ Hfr); apply boot_refines|].
  destruct Hlast as (nd' & Hrun' & Hg); [exact Hh|intros q Hq Hq'; exact (proj2 (proj1 (Hav q) Hq') Hq)|].
  exists nd1, nd'. split; [exact Hrun|]. split; [exact Hrun'|]. split; [exact Hg|].
  apply (free_pages_correct ZONE_NORMAL boot_node 0 2 20); [apply boot_refines|apply boot_refines|exact Ha].
Defined.

Lemma free_one_page_correct_witness :
  loose clean_node ZONE_NORMAL 2 20 ∧
  ∃ nd', __free_one_page ZONE_NORMAL 20 2 clean_node = Some (tt, nd') ∧ freed ZONE_NORMAL clean_node 20 2 nd'.
Proof.
  split; [exact clean_loose|]. apply (free_one_page_correct ZONE_NORMAL clean_node 20 2);
    [exact clean_node_inv|reflexivity|exact clean_loose|unfold MAX_ORDER; lia].
Defined.

Lemma rmqueue_smallest_correct_witness :
  node_inv boot_node ∧
  ((∃ p nd', __rmqueue_smallest ZONE_NORMAL 1 boot_node = Some (Some p, nd') ∧ took ZONE_NORMAL boot_node 1 p nd') ∨
   (__rmqueue_smallest ZONE_NORMAL 1 boot_node = Some (None, boot_node) ∧
    ∀ p, aligned p 1 → ¬ ∀ q, inb p 1 q → is_free boot_node ZONE_NORMAL q)).
Proof.
  split; [apply boot_refines|]. apply (rmqueue_smallest_correct ZONE_NORMAL boot_node 1); [apply boot_refines|unfold MAX_ORDER; lia].
Defined.

Lemma pages_refine_witness :
  refines owned boot_node ∅ ∧
  ∃ nd' live', serve [0; 1; 2]%nat low_reqs boot_node ∅ = Some (nd', live') ∧ refines owned nd' live' ∧ spec_run owned low_reqs ∅ live'.
Proof. split; [exact boot_refines|]. apply (pages_refine owned [0; 1; 2]%nat low_reqs boot_node ∅). exact boot_refines. Defined.

Lemma free_pages_memory_correct_witness :
  ∃ nd', __free_pages_memory 7 1 17 24 raw_node = Some (tt, nd') ∧ given ZONE_NORMAL raw_node (λ q, 17 ≤ q < 24) nd'.
Proof.
  apply (free_pages_memory_correct ZONE_NORMAL 7 1 17 24 raw_node); [exact raw_inv|reflexivity|lia|lia|exact raw_fresh].
Defined.

Lemma nr_zone_free_pages_correct_witness :
  nr_zone_free_pages (node_zones boot_node ZONE_NORMAL) = 6 ∧
  nr_zone_free_pages (node_zones boot_node ZONE_NORMAL) = Z.of_nat (length (free_pages_list boot_node ZONE_NORMAL)).
Proof.
  split; [by vm_compute|].
  exact (proj1 (proj1 (nr_zone_free_pages_correct boot_node ZONE_NORMAL (al_node _ (rf_inv _ _ _ boot_refines) ZONE_NORMAL)))).
Defined.

End PageWitness.
