(* ===== verification/Sort.v ===== *)
(** * Sorting and searching ([lib/base/src/sort.c], [bsearch.c], [list_sort.c])

    The heapsort and the binary search work on arrays through byte offsets that
    are scaled by the element size; the counters keep their C types ([int] and
    [size_t], mixed in the comparisons).  An access outside the array is [None].
    The list sort is a bottom-up merge sort on linked nodes. *)
From Stdlib Require Import Sorted.
From S2P Require Import Prelude.

(** A comparison callback returns an [int]; what it must satisfy for the result
    to be sorted. *)
Class Comparator {A} (cmp : A → A → Z) : Prop := {
  cmp_flip : ∀ a b, 0 ≤ cmp a b ↔ cmp b a ≤ 0;
  cmp_trans : ∀ a b c, cmp a b ≤ 0 → cmp b c ≤ 0 → cmp a c ≤ 0 }.

(** ** Swapping *)

(** [generic_swap]: the bytes at [a] and [b], [size] times (at least once). *)
Fixpoint generic_swap_loop (n : nat) (m : list Z) (a b : nat) : option (list Z) :=
  match n with
  | O => Some m
  | S n =>
      x ← m !! a; y ← m !! b;
      generic_swap_loop n (<[b := x]> (<[a := y]> m)) (S a) (S b)
  end.
Definition generic_swap (m : list Z) (a b : nat) (size : Z) : option (list Z) :=
  generic_swap_loop (Z.to_nat (Z.max 1 size)) m a b.

(** [u32_swap] and [u64_swap] exchange words: the bytes are read, then written. *)
Definition read_word (m : list Z) (a w : nat) : option (list Z) :=
  if decide (a + w ≤ length m)%nat then Some (take w (drop a m)) else None.
Definition write_word (m : list Z) (a : nat) (x : list Z) : option (list Z) :=
  if decide (a + length x ≤ length m)%nat then Some (list_inserts a x m) else None.
Definition word_swap (w : nat) (m : list Z) (a b : nat) : option (list Z) :=
  t ← read_word m a w;
  y ← read_word m b w;
  m ← write_word m a y;
  write_word m b t.
Definition u32_swap := word_swap 4.
Definition u64_swap := word_swap 8.

(** ** Heapsort *)

Section sort.
Context {A : Type} (cmp_func : A → A → Z) (size : Z).

(** The element at a byte offset from [base]. *)
Definition at_off (l : list A) (off : Z) : option A := l !! Z.to_nat (off / size).
Definition swap_func (l : list A) (a b : Z) : option (list A) :=
  x ← at_off l a; y ← at_off l b;
  Some (<[Z.to_nat (b / size) := x]> (<[Z.to_nat (a / size) := y]> l)).

(** The inner loop, from [r] in a heap that ends at [n]; [fuel] bounds the turns. *)
Fixpoint sift (fuel : nat) (l : list A) (r n : Z) : option (list A) :=
  match fuel with
  | O => None
  | S fuel =>
      if u64 (r * 2 + size) <? u64 n then
        let c := s32 (u64 (r * 2 + size)) in
        c ← (if u64 c <? u64 (n - size) then
               x ← at_off l c; y ← at_off l (c + size);
               Some (if cmp_func x y <? 0 then s32 (u64 (c + size)) else c)
             else Some c);
        x ← at_off l r; y ← at_off l c;
        if cmp_func x y >=? 0 then Some l else
        l ← swap_func l r c;
        sift fuel l c n
      else Some l
  end.

(** [for ( ; i >= 0; i -= size)] *)
Fixpoint heapify (fuel : nat) (l : list A) (i n : Z) : option (list A) :=
  match fuel with
  | O => None
  | S fuel =>
      if i >=? 0 then
        l ← sift (length l) l i n;
        heapify fuel l (s32 (u64 (i - size))) n
      else Some l
  end.

(** [for (i = n - size; i > 0; i -= size)] *)
Fixpoint sort_down (fuel : nat) (l : list A) (i : Z) : option (list A) :=
  match fuel with
  | O => None
  | S fuel =>
      if i >? 0 then
        l ← swap_func l 0 i;
        l ← sift (length l) l 0 i;
        sort_down fuel l (s32 (u64 (i - size)))
      else Some l
  end.

(** A loop of [n] turns tests its condition once more; there are at most
    [length l] turns. *)
Definition sort (l : list A) : option (list A) :=
  let num := Z.of_nat (length l) in
  let i := s32 (u64 (u64 (num / 2 - 1) * size)) in
  let n := s32 (u64 (num * size)) in
  l ← heapify (S (length l)) l i n;
  sort_down (S (length l)) l (s32 (u64 (n - size))).
End sort.

(** ** Binary search *)

(** The index of the pivot that matches; [base] is an index here. *)
Fixpoint bsearch_loop {A K} (fuel : nat) (cmp : K → A → Z) (key : K) (l : list A) (base num : nat) : option (option nat) :=
  match fuel with
  | O => None
  | S fuel =>
      if decide (0 < num)%nat then
        let pivot := (base + Nat.div2 num)%nat in
        x ← l !! pivot;
        let result := cmp key x in
        if result =? 0 then Some (Some pivot)
        else if result >? 0 then bsearch_loop fuel cmp key l (S pivot) (Nat.div2 (num - 1))
        else bsearch_loop fuel cmp key l base (Nat.div2 num)
      else Some None
  end.
Definition bsearch {A K} (cmp : K → A → Z) (key : K) (l : list A) : option (option nat) :=
  bsearch_loop (S (length l)) cmp key l 0 (length l).

(** ** List sort

    A null-terminated chain of nodes is a list, the empty one being the null
    pointer. *)

Section list_sort.
Context {A : Type} (cmp : A → A → Z).

Fixpoint merge (a : list A) : list A → list A :=
  fix merge_b (b : list A) : list A :=
    match a, b with
    | [], _ => b
    | _, [] => a
    | x :: a', y :: b' => if cmp x y <=? 0 then x :: merge a' b else y :: merge_b b'
    end.

(** The final merge also writes the back links: each node of the result with
    its [prev]; [head] is the list head. *)
Fixpoint back_links (tail : option A) (l : list A) : list (A * option A) :=
  match l with
  | [] => []
  | x :: l => (x, tail) :: back_links (Some x) l
  end.
(** The nodes with their [prev] ([None] is the head), and [head->prev]; two
    empty chains make the loop follow a null pointer. *)
Definition merge_and_restore_back_links (a b : list A) : option (list (A * option A) * option A) :=
  match merge a b with
  | [] => None
  | l => Some (back_links None l, last l)
  end.

Definition MAX_LIST_LENGTH_BITS : nat := 20.

(** [for (lev = 0; part[lev]; lev++)] from a level on: the merged chain and the
    level where it stopped. *)
Fixpoint merge_up (n : nat) (part : list (list A)) (lev : nat) (cur : list A) : option (list (list A) * nat * list A) :=
  match n with
  | O => None
  | S n =>
      p ← part !! lev;
      match p with
      | [] => Some (part, lev, cur)
      | _ => merge_up n (<[lev := []]> part) (S lev) (merge p cur)
      end
  end.

Fixpoint list_sort_loop (part : list (list A)) (max_lev : nat) (l : list A) : option (list (list A) * nat) :=
  match l with
  | [] => Some (part, max_lev)
  | x :: l =>
      '(part, lev, cur) ← merge_up (S (length part)) part 0 [x];
      let '(lev, max_lev) :=
        if decide (max_lev < lev)%nat then
          let lev := if decide (length part - 1 ≤ lev)%nat then (lev - 1)%nat else lev in (lev, lev)
        else (lev, max_lev) in
      list_sort_loop (<[lev := cur]> part) max_lev l
  end.

(** [for (lev = 0; lev < max_lev; lev++)] *)
Fixpoint merge_parts (n : nat) (part : list (list A)) (lev : nat) (l : list A) : option (list A) :=
  match n with
  | O => Some l
  | S n =>
      p ← part !! lev;
      merge_parts n part (S lev) (match p with [] => l | _ => merge p l end)
  end.

(** The sorted nodes with their [prev], and [head->prev]; [None] is a crash.
    An empty list is left alone. *)
Definition list_sort (l : list A) : option (list (A * option A) * option A) :=
  match l with
  | [] => Some ([], None)
  | _ =>
      '(part, max_lev) ← list_sort_loop (replicate (MAX_LIST_LENGTH_BITS + 1) []) 0 l;
      rest ← merge_parts max_lev part 0 [];
      top ← part !! max_lev;
      merge_and_restore_back_links top rest
  end.
End list_sort.

(** ** Heapsort: the loops on indices

    The offsets are multiples of the element size, so each loop is the loop on
    indices; the heap property is kept by sifting, and taking the root off the
    heap leaves a sorted tail. *)

Section heap.
Context {A : Type} (cmp : A → A → Z) `{!Comparator cmp} (size : Z).
Hypothesis size_pos : 0 < size.

Lemma cmp_total a b : cmp a b ≤ 0 ∨ cmp b a ≤ 0.
Proof. destruct (Z.le_gt_cases (cmp a b) 0); [by left|right]. apply cmp_flip. lia. Qed.
Lemma cmp_refl a : cmp a a ≤ 0.
Proof. destruct (cmp_total a a); done. Qed.

(** ** Offsets and indices *)

Definition off (k : nat) : Z := size * Z.of_nat k.

Lemma at_off_ix (l : list A) k : at_off size l (off k) = l !! k.
Proof. unfold at_off, off. by rewrite Z.mul_comm, Z.div_mul, Nat2Z.id by lia. Qed.

Definition swap (l : list A) (a b : nat) (x y : A) : list A := <[b := x]> (<[a := y]> l).
Lemma swap_off (l : list A) a b x y : l !! a = Some x → l !! b = Some y → swap_func size l (off a) (off b) = Some (swap l a b x y).
Proof.
  intros Ha Hb. unfold swap_func. rewrite !at_off_ix, Ha, Hb. cbn [mbind option_bind].
  unfold off. rewrite !(Z.mul_comm size), !Z.div_mul, !Nat2Z.id by lia. done.
Qed.

Lemma swap_lookup (l : list A) a b x y k :
  l !! a = Some x → l !! b = Some y → a ≠ b →
  swap l a b x y !! k = if decide (k = b) then Some x else if decide (k = a) then Some y else l !! k.
Proof.
  intros Ha Hb Hne. unfold swap. destruct (decide (k = b)) as [->|].
  - apply list_lookup_insert_eq. rewrite length_insert. by apply lookup_lt_Some in Hb.
  - rewrite list_lookup_insert_ne by done. case_decide as Hk; [|by rewrite list_lookup_insert_ne].
    subst k. apply list_lookup_insert_eq. by apply lookup_lt_Some in Ha.
Qed.
Lemma swap_perm (l : list A) a b x y : l !! a = Some x → l !! b = Some y → a ≠ b → swap l a b x y ≡ₚ l.
Proof.
  intros Ha Hb Hne. apply Permutation_inj. split; [unfold swap; by rewrite !length_insert|].
  exists (λ k, if decide (k = b) then a else if decide (k = a) then b else k). split.
  - intros k k'. repeat case_decide; congruence.
  - intros k. rewrite swap_lookup by done. repeat case_decide; congruence.
Qed.

(** ** Heaps *)

Definition heap_child (i c : nat) : Prop := c = (2 * i + 1)%nat ∨ c = (2 * i + 2)%nat.
(** The children of [i] below [n] are not greater than [x]. *)
Definition bounds (l : list A) (n i : nat) (x : A) : Prop := ∀ c y, heap_child i c → (c < n)%nat → l !! c = Some y → cmp y x ≤ 0.
Definition heap_at (l : list A) (n i : nat) : Prop := ∀ x, l !! i = Some x → bounds l n i x.
Definition heap (l : list A) (lo n : nat) : Prop := ∀ i, (lo ≤ i)%nat → heap_at l n i.

(** Everything but [r] is in order, and the parent of [r] bounds its children. *)
Definition almost_heap (l : list A) (lo n r : nat) : Prop :=
  (∀ i, (lo ≤ i)%nat → i ≠ r → heap_at l n i) ∧
  (∀ p x, (lo ≤ p)%nat → heap_child p r → l !! p = Some x → bounds l n r x).

(** The greater heap_child. *)
Lemma sift_child (l : list A) n r :
  (n ≤ length l)%nat → (2 * r + 1 < n)%nat → Z.of_nat n * size < 2 ^ 31 →
  ∃ c y, (let c := s32 (u64 (off r * 2 + size)) in
          if u64 c <? u64 (off n - size) then
            x ← at_off size l c; y ← at_off size l (c + size); Some (if cmp x y <? 0 then s32 (u64 (c + size)) else c)
          else Some c) = Some (off c) ∧
         heap_child r c ∧ (c < n)%nat ∧ l !! c = Some y ∧ bounds l n r y.
Proof.
  intros Hn Hr Hb. cbv zeta. assert (Hc : off r * 2 + size = off (2 * r + 1)) by (unfold off; lia).
  assert (Hs : ∀ k, (k ≤ n)%nat → u64 (off k) = off k ∧ s32 (off k) = off k).
  { intros k Hk. unfold off. split; [apply u64_small|apply s32_small]; nia. }
  destruct (Hs (2 * r + 1)%nat) as [Hu1 Hs1]; [lia|]. destruct (Hs (n - 1)%nat) as [Hu2 _]; [lia|]. rewrite Hc, Hu1, Hs1, Hu1.
  assert (Hm : off n - size = off (n - 1)) by (unfold off; lia). rewrite Hm, Hu2.
  assert (Hlt : (off (2 * r + 1) <? off (n - 1)) = bool_decide (2 * r + 1 < n - 1)%nat).
  { unfold off. case_bool_decide; [apply Z.ltb_lt|apply Z.ltb_ge]; nia. }
  rewrite Hlt. destruct (lookup_lt_is_Some_2 l (2 * r + 1)) as [y1 Hy1]; [lia|]. case_bool_decide as Htwo.
  - assert (Hc2 : off (2 * r + 1) + size = off (2 * r + 2)) by (unfold off; lia).
    destruct (Hs (2 * r + 2)%nat) as [Hu3 Hs3]; [lia|]. rewrite Hc2, !at_off_ix, Hu3, Hs3.
    destruct (lookup_lt_is_Some_2 l (2 * r + 2)) as [y2 Hy2]; [lia|]. rewrite Hy1, Hy2. cbn [mbind option_bind].
    destruct (Z.ltb_spec (cmp y1 y2) 0).
    + exists (2 * r + 2)%nat, y2. split; [done|]. split; [by right|]. split; [lia|]. split; [done|].
      intros c y [->| ->] _ Hy; simplify_eq; [lia|apply cmp_refl].
    + exists (2 * r + 1)%nat, y1. split; [done|]. split; [by left|]. split; [lia|]. split; [done|].
      intros c y [->| ->] _ Hy; simplify_eq; [apply cmp_refl|apply cmp_flip; lia].
  - exists (2 * r + 1)%nat, y1. split; [done|]. split; [by left|]. split; [lia|]. split; [done|].
    intros c y [->| ->] Hlt' Hy; [|lia]. simplify_eq. apply cmp_refl.
Qed.

(** Swapping with the greater heap_child moves the hole down. *)
Lemma almost_heap_step (l : list A) lo n r c x y :
  almost_heap l lo n r → (lo ≤ r)%nat → heap_child r c → (c < n)%nat → l !! r = Some x → l !! c = Some y →
  bounds l n r y → cmp x y ≤ 0 → almost_heap (swap l r c x y) lo n c.
Proof.
  intros [Hall Hpar] Hlo Hch Hcn Hx Hy Hb Hxy. assert (Hne : r ≠ c) by (destruct Hch; lia).
  assert (Hlk := swap_lookup l r c x y). split.
  - intros i Hi Hic z Hz d w Hd Hdn Hw. rewrite Hlk in Hz, Hw by done. rewrite decide_False in Hz by done.
    destruct (decide (i = r)) as [->|Hir].
    + simplify_eq. destruct (decide (d = c)) as [->|Hdc]; [by simplify_eq|].
      rewrite decide_False in Hw by (destruct Hd; lia). by apply (Hb d).
    + destruct (decide (d = c)) as [->|Hdc]; [destruct Hd, Hch; lia|]. destruct (decide (d = r)) as [->|Hdr].
      * simplify_eq. by eapply (Hpar i z Hi Hd Hz c).
      * by eapply (Hall i Hi Hir z Hz d).
  - intros p z Hp Hpc Hz. assert (p = r) as -> by (destruct Hpc, Hch; lia). rewrite Hlk in Hz by done.
    rewrite decide_False in Hz by done. rewrite decide_True in Hz by done. simplify_eq. intros d w Hd Hdn Hw.
    rewrite Hlk in Hw by done. rewrite !decide_False in Hw by (destruct Hd, Hch; lia).
    assert (Hca : heap_at l n c) by (apply Hall; [destruct Hch; lia|done]). by apply (Hca _ Hy d).
Qed.

Lemma sift_run fuel : ∀ (l : list A) lo n r,
  almost_heap l lo n r → (lo ≤ r < n)%nat → (n ≤ length l)%nat → Z.of_nat n * size < 2 ^ 31 → (n - r ≤ fuel)%nat →
  ∃ l', sift cmp size fuel l (off r) (off n) = Some l' ∧ l' ≡ₚ l ∧ heap l' lo n ∧
        ∀ k, (k < r ∨ n ≤ k)%nat → l' !! k = l !! k.
Proof.
  induction fuel as [|fuel IH]; intros l lo n r Hh Hr Hn Hb Hf; [lia|]. cbn [sift].
  assert (Hsm : ∀ z, 0 ≤ z < 2 ^ 33 → u64 z = z) by (intros; apply u64_small; lia).
  assert (Htest : (u64 (off r * 2 + size) <? u64 (off n)) = bool_decide (2 * r + 1 < n)%nat).
  { unfold off. rewrite !Hsm by nia. case_bool_decide; [apply Z.ltb_lt|apply Z.ltb_ge]; nia. }
  rewrite Htest. case_bool_decide as Hlt.
  2: { exists l. split; [done|]. split; [done|]. split; [|done]. intros i Hi. destruct (decide (i = r)) as [->|Hne]; [|by apply Hh].
       intros x Hx c y Hc Hcn. destruct Hc; lia. }
  destruct (sift_child l n r Hn Hlt Hb) as (c & y & Hrun & Hc & Hcn & Hy & Hby). cbv zeta in Hrun. rewrite Hrun. cbn [mbind option_bind].
  destruct (lookup_lt_is_Some_2 l r) as [x Hx]; [lia|]. rewrite !at_off_ix, Hx, Hy. cbn [mbind option_bind].
  rewrite Z.geb_leb. destruct (Z.leb_spec 0 (cmp x y)) as [Hge|Hl].
  - exists l. split; [done|]. split; [done|]. split; [|done]. intros i Hi. destruct (decide (i = r)) as [->|Hne]; [|by apply Hh].
    intros x' Hx' d w Hd Hdn Hw. simplify_eq. eapply cmp_trans; [by apply (Hby d w)|]. by apply cmp_flip.
  - assert (Hne : r ≠ c) by (destruct Hc; lia). rewrite (swap_off l r c x y Hx Hy). cbn [mbind option_bind].
    destruct (IH (swap l r c x y) lo n c) as (l' & Hrun' & Hperm & Hheap & Hsame).
    + eapply almost_heap_step; try done; lia.
    + destruct Hc; lia.
    + unfold swap. by rewrite !length_insert.
    + done.
    + destruct Hc; lia.
    + exists l'. split; [done|]. split; [by rewrite Hperm, swap_perm|]. split; [done|]. intros k Hk.
      rewrite Hsame by (destruct Hc; lia). rewrite swap_lookup by done. rewrite !decide_False by (destruct Hc; lia). done.
Qed.

(** ** Building the heap *)

Lemma u64_mod32 z : u64 z mod 2 ^ 32 = z mod 2 ^ 32.
Proof. unfold u64. rewrite <-Znumtheory.Zmod_div_mod; [done|lia|lia|]. exists (2 ^ 32). lia. Qed.
Lemma s32_mod z z' : z mod 2 ^ 32 = z' mod 2 ^ 32 → s32 z = s32 z'.
Proof. intros H. unfold s32. by rewrite <-(Zplus_mod_idemp_l z), H, Zplus_mod_idemp_l. Qed.
Lemma s32_u64 z : s32 (u64 z) = s32 z.
Proof. apply s32_mod, u64_mod32. Qed.
Lemma s32_mul_u64 a b : s32 (u64 a * b) = s32 (a * b).
Proof. apply s32_mod. by rewrite <-Zmult_mod_idemp_l, u64_mod32, Zmult_mod_idemp_l. Qed.

Lemma heapify_run k : ∀ fuel (l : list A) n,
  heap l k n → (k ≤ n)%nat → (n ≤ length l)%nat → Z.of_nat n * size < 2 ^ 31 → size < 2 ^ 31 → (k < fuel)%nat →
  ∃ l', heapify cmp size fuel l (off k - size) (off n) = Some l' ∧ l' ≡ₚ l ∧ heap l' 0 n.
Proof.
  induction k as [|k IH]; intros fuel l n Hh Hkn Hn Hb Hsz Hf; (destruct fuel as [|fuel]; [lia|]); cbn [heapify].
  - unfold off. rewrite Z.geb_leb, (proj2 (Z.leb_gt _ _)) by lia. by exists l.
  - assert (Hk : off (S k) - size = off k) by (unfold off; lia). rewrite Hk, Z.geb_leb, (proj2 (Z.leb_le _ _)) by (unfold off; nia).
    destruct (sift_run (length l) l k n k) as (l1 & Hrun & Hp1 & Hh1 & _); [|lia|done|done|lia|].
    { split; [intros i Hi Hne; apply Hh; lia|]. intros p x Hp Hc. destruct Hc; lia. }
    rewrite Hrun. cbn [mbind option_bind]. rewrite s32_u64, s32_small by (unfold off; nia).
    destruct (IH fuel l1 n) as (l' & Hrun' & Hp' & Hh'); [done|lia|by rewrite Hp1|done|done|lia|].
    exists l'. split; [done|]. split; [by rewrite Hp', Hp1|done].
Qed.

(** ** Taking the root off *)

Lemma root_max (l : list A) n i x y : heap l 0 n → (i < n)%nat → l !! i = Some x → l !! O = Some y → cmp x y ≤ 0.
Proof.
  intros Hh. revert x. induction i as [i IH] using lt_wf_ind. intros x Hi Hx Hy. destruct (decide (i = O)) as [->|Hne].
  { simplify_eq. apply cmp_refl. }
  pose proof (lookup_lt_Some _ _ _ Hx). set (p := ((i - 1) / 2)%nat).
  assert (Hp : heap_child p i) by (unfold heap_child, p; pose proof (Nat.div_mod_eq (i - 1) 2); pose proof (Nat.mod_upper_bound (i - 1) 2); lia).
  assert (Hpi : (p < i)%nat) by (destruct Hp; lia). destruct (lookup_lt_is_Some_2 l p) as [z Hz]; [lia|].
  eapply cmp_trans; [by apply (Hh p ltac:(lia) z Hz i x)|]. by apply (IH p Hpi); [lia|..].
Qed.

(** Everything from [k] on is in place. *)
Definition placed (l : list A) (k : nat) : Prop :=
  ∀ i j x y, (i < j)%nat → (k ≤ j)%nat → l !! i = Some x → l !! j = Some y → cmp x y ≤ 0.

Lemma perm_prefix (l1 l2 : list A) m : l2 ≡ₚ l1 → (∀ k, (m ≤ k)%nat → l2 !! k = l1 !! k) → take m l2 ≡ₚ take m l1.
Proof.
  intros Hp Hk. assert (Hd : drop m l2 = drop m l1) by (apply list_eq; intros i; rewrite !lookup_drop; apply Hk; lia).
  apply (Permutation_app_inv_r (drop m l1)). rewrite take_drop, <-Hd. by rewrite take_drop.
Qed.

Lemma placed_step (l l2 : list A) m x0 xm :
  placed l (S m) → heap l 0 (S m) → (0 < m)%nat → l !! O = Some x0 → l !! m = Some xm →
  let l1 := swap l 0 m x0 xm in l2 ≡ₚ l1 → (∀ k, (m ≤ k)%nat → l2 !! k = l1 !! k) → placed l2 m.
Proof.
  intros Hpl Hh Hm H0 Hxm l1 Hp Hk. assert (Hl1 := swap_lookup l 0 m x0 xm).
  assert (Hold : ∀ i x, (i ≤ m)%nat → l1 !! i = Some x → ∃ i', (i' ≤ m)%nat ∧ l !! i' = Some x).
  { intros i x Hi. unfold l1. rewrite Hl1 by (done || lia). repeat case_decide; intros ?; simplify_eq; [by exists O; split; [lia|]|by exists m|by exists i]. }
  assert (Hlow : ∀ i x, (i < m)%nat → l2 !! i = Some x → ∃ i', (i' ≤ m)%nat ∧ l !! i' = Some x).
  { intros i x Hi Hx. assert (Hin : x ∈ take m l2) by (apply list_elem_of_lookup; exists i; by rewrite lookup_take_lt).
    rewrite (perm_prefix l1 l2 m Hp Hk) in Hin. apply list_elem_of_lookup in Hin as [i' Hi'].
    apply lookup_take_Some in Hi' as [Hi' Hlt]. apply (Hold i' x); [lia|done]. }
  intros i j x y Hij Hj Hx Hy. rewrite Hk in Hy by lia.
  assert (Hx' : ∃ i', (i' ≤ m ∨ i' = i)%nat ∧ l !! i' = Some x).
  { destruct (Nat.lt_ge_cases i m) as [Hi|Hi]; [destruct (Hlow i x Hi Hx) as (i' & ? & ?); eauto|]. rewrite Hk in Hx by lia.
    destruct (decide (i = m)) as [->|]; [destruct (Hold m x) as (i' & ? & ?); eauto|].
    unfold l1 in Hx. rewrite Hl1 in Hx by (done || lia). rewrite !decide_False in Hx by lia. eauto. }
  destruct Hx' as (i' & Hi' & Hx'). unfold l1 in Hy. rewrite Hl1 in Hy by (done || lia). destruct (decide (j = m)) as [->|Hjm].
  - simplify_eq. apply (root_max l (S m) i'); [done|lia|done|done].
  - rewrite decide_False in Hy by lia. apply (Hpl i' j); [lia|lia|done|done].
Qed.

Lemma sort_down_run m : ∀ fuel (l : list A),
  heap l 0 (S m) → placed l (S m) → (S m ≤ length l)%nat → Z.of_nat (length l) * size < 2 ^ 31 → (m < fuel)%nat →
  ∃ l', sort_down cmp size fuel l (off m) = Some l' ∧ l' ≡ₚ l ∧ placed l' 1.
Proof.
  induction m as [|m IH]; intros fuel l Hh Hpl Hn Hb Hf; (destruct fuel as [|fuel]; [lia|]); cbn [sort_down].
  { unfold off. rewrite Z.gtb_ltb, (proj2 (Z.ltb_ge _ _)) by lia. by exists l. }
  rewrite Z.gtb_ltb, (proj2 (Z.ltb_lt _ _)) by (unfold off; nia).
  destruct (lookup_lt_is_Some_2 l 0) as [x0 H0]; [lia|]. destruct (lookup_lt_is_Some_2 l (S m)) as [xm Hxm]; [lia|].
  assert (Hsw : swap_func size l 0 (off (S m)) = Some (swap l 0 (S m) x0 xm)).
  { replace 0 with (off 0) by (unfold off; lia). by apply swap_off. }
  rewrite Hsw. cbn [mbind option_bind]. set (l1 := swap l 0 (S m) x0 xm).
  assert (Hp1 : l1 ≡ₚ l) by (by apply swap_perm). assert (Hlen : length l1 = length l) by (by apply Permutation_length).
  destruct (sift_run (length l1) l1 0 (S m) 0) as (l2 & Hrun & Hp2 & Hh2 & Hsame); [|lia|lia|nia|lia|].
  { split; [|intros p x _ Hc; destruct Hc; lia]. intros i _ Hi x Hx c y Hc Hcn Hy. unfold l1 in Hx, Hy.
    rewrite swap_lookup in Hx, Hy by done. rewrite !decide_False in Hy by (destruct Hc; lia).
    destruct (decide (i = S m)) as [->|Hne]; [destruct Hc; lia|]. rewrite !decide_False in Hx by lia.
    apply (Hh i ltac:(lia) x Hx c y Hc); [lia|done]. }
  replace (off 0) with 0 in Hrun by (unfold off; lia). rewrite Hrun. cbn [mbind option_bind].
  rewrite s32_u64. replace (off (S m) - size) with (off m) by (unfold off; lia). rewrite s32_small by (unfold off; nia).
  assert (Hpl2 : placed l2 (S m)).
  { eapply (placed_step l l2 (S m) x0 xm); [done|done|lia|done|done|done|]. intros k Hk. apply Hsame. by right. }
  destruct (IH fuel l2 Hh2 Hpl2) as (l' & Hrun' & Hp' & Hpl'); [rewrite Hp2; lia|rewrite Hp2, Hlen; done|lia|].
  exists l'. split; [done|]. split; [by rewrite Hp', Hp2, Hp1|done].
Qed.

Lemma placed_sorted (l : list A) : placed l 1 → StronglySorted (λ a b, cmp a b ≤ 0) l.
Proof.
  induction l as [|x l IH]; intros Hp; constructor.
  - apply IH. intros i j y z Hij Hj Hy Hz. apply (Hp (S i) (S j)); [lia|lia|done|done].
  - apply Forall_forall. intros y Hy. apply list_elem_of_lookup in Hy as [i Hi]. by apply (Hp 0%nat (S i)); [lia|lia|..].
Qed.

Lemma sort_run (l : list A) :
  Z.of_nat (length l) * size < 2 ^ 31 → size < 2 ^ 31 →
  ∃ l', sort cmp size l = Some l' ∧ l' ≡ₚ l ∧ StronglySorted (λ a b, cmp a b ≤ 0) l'.
Proof.
  intros Hb Hsz. unfold sort. cbv zeta. set (n := length l) in *.
  assert (Hi : s32 (u64 (u64 (Z.of_nat n / 2 - 1) * size)) = off (Nat.div2 n) - size).
  { rewrite s32_u64. assert (Hd : Z.of_nat n / 2 = Z.of_nat (Nat.div2 n)) by (rewrite Nat.div2_div, Nat2Z.inj_div; done).
    rewrite Hd. pose proof (Nat.div2_decr n n ltac:(lia)).
    assert (Hm : s32 (u64 (Z.of_nat (Nat.div2 n) - 1) * size) = s32 ((Z.of_nat (Nat.div2 n) - 1) * size)) by apply s32_mul_u64.
    rewrite Hm. clear Hd Hm. generalize dependent (Nat.div2 n). intros d Hd.
    assert (0 ≤ Z.of_nat d * size ≤ Z.of_nat n * size) by nia. rewrite s32_small by lia. unfold off. lia. }
  rewrite Hi. rewrite (s32_u64 (Z.of_nat n * size)), (s32_small (Z.of_nat n * size)) by nia.
  replace (Z.of_nat n * size) with (off n) by (unfold off; lia).
  destruct (heapify_run (Nat.div2 n) (S n) l n) as (l1 & Hrun & Hp & Hh).
  { intros i Hi' x _ c y Hc Hcn. exfalso. pose proof (Nat.div2_odd n). destruct Hc, (Nat.odd n); simpl in *; lia. }
  { pose proof (Nat.div2_decr n n ltac:(lia)). lia. } { done. } { done. } { done. } { pose proof (Nat.div2_decr n n ltac:(lia)). lia. }
  rewrite Hrun. cbn [mbind option_bind]. rewrite s32_u64. assert (Hlen : length l1 = n) by (by apply Permutation_length). rewrite Hlen.
  destruct n as [|m] eqn:Hn.
  - assert (l1 = []) as -> by (by apply nil_length_inv). exists []. split; [|split; [by rewrite <-Hp|constructor]].
    cbn [sort_down]. unfold off. rewrite s32_small by lia. rewrite Z.gtb_ltb, (proj2 (Z.ltb_ge _ _)) by lia. done.
  - replace (off (S m) - size) with (off m) by (unfold off; lia). rewrite s32_small by (unfold off; nia).
    destruct (sort_down_run m (S (S m)) l1) as (l' & Hrun' & Hp' & Hpl); [done| |lia|by rewrite Hlen|lia|].
    { intros i j x y _ Hj _ Hy. apply lookup_lt_Some in Hy. lia. }
    exists l'. split; [done|]. split; [by rewrite Hp'|]. by apply placed_sorted.
Qed.
End heap.
