(* ===== verification/SortLists.v ===== *)
(** * Swapping, binary search and the stable list sort

    The three swap routines exchange the same bytes, the binary search finds a
    match exactly when there is one, and the merge sort keeps equal elements in
    their order. *)
From Stdlib Require Import Sorted.
From S2P Require Import Prelude Sort.

(** ** Swapping *)

(** The [n] bytes at [a] and at [b] have changed places. *)
Definition exchanged (m : list Z) (a b n : nat) (m' : list Z) : Prop :=
  length m' = length m ∧
  ∀ k, m' !! k = if decide (a ≤ k < a + n)%nat then m !! (b + (k - a))%nat
                 else if decide (b ≤ k < b + n)%nat then m !! (a + (k - b))%nat else m !! k.

Lemma generic_swap_run n : ∀ m a b,
  (a + n ≤ length m)%nat → (b + n ≤ length m)%nat → (a + n ≤ b ∨ b + n ≤ a)%nat →
  ∃ m', generic_swap_loop n m a b = Some m' ∧ exchanged m a b n m'.
Proof.
  induction n as [|n IH]; intros m a b Ha Hb Hd; cbn [generic_swap_loop].
  { exists m. split; [done|]. split; [done|]. intros k. rewrite !decide_False by lia. done. }
  destruct (lookup_lt_is_Some_2 m a) as [x Hx]; [lia|]. destruct (lookup_lt_is_Some_2 m b) as [y Hy]; [lia|].
  rewrite Hx, Hy. cbn [mbind option_bind]. set (m1 := <[b := x]> (<[a := y]> m)).
  assert (Hl : length m1 = length m) by (unfold m1; by rewrite !length_insert).
  assert (Hm1 : ∀ k, m1 !! k = if decide (k = b) then Some x else if decide (k = a) then Some y else m !! k).
  { intros k. unfold m1. destruct (decide (k = b)) as [->|]; [apply list_lookup_insert_eq; rewrite length_insert; lia|].
    rewrite list_lookup_insert_ne by done. case_decide; [subst; apply list_lookup_insert_eq; lia|by rewrite list_lookup_insert_ne]. }
  destruct (IH m1 (S a) (S b)) as (m' & Hrun & Hlen & Hk); [lia..|]. exists m'. split; [done|]. split; [lia|].
  intros k. rewrite Hk. destruct (decide (k = a)) as [->|Hka].
  { rewrite !decide_False by lia. rewrite decide_True by lia. rewrite Hm1, decide_False, decide_True by lia. rewrite <-Hy. f_equal. lia. }
  destruct (decide (k = b)) as [->|Hkb].
  { rewrite !decide_False by lia. rewrite decide_True by lia. rewrite Hm1, decide_True by lia. rewrite <-Hx. f_equal. lia. }
  destruct (decide (a ≤ k < a + S n)%nat), (decide (S a ≤ k < S a + n)%nat); try lia.
  - rewrite Hm1, !decide_False by lia. f_equal. lia.
  - destruct (decide (b ≤ k < b + S n)%nat), (decide (S b ≤ k < S b + n)%nat); try lia; rewrite Hm1, !decide_False by lia; f_equal; lia.
Qed.

Lemma lookup_list_inserts {A} (l k : list A) i j :
  (i + length k ≤ length l)%nat →
  list_inserts i k l !! j = if decide (i ≤ j < i + length k)%nat then k !! (j - i)%nat else l !! j.
Proof.
  intros Hl. case_decide as Hd.
  - by apply list_lookup_inserts; lia.
  - destruct (Nat.lt_ge_cases j i); [by apply list_lookup_inserts_lt|apply list_lookup_inserts_ge; lia].
Qed.

Lemma word_swap_run w m a b :
  (a + w ≤ length m)%nat → (b + w ≤ length m)%nat → (a + w ≤ b ∨ b + w ≤ a)%nat →
  ∃ m', word_swap w m a b = Some m' ∧ exchanged m a b w m'.
Proof.
  intros Ha Hb Hd. unfold word_swap, read_word, write_word. rewrite !decide_True by lia. cbn [mbind option_bind].
  assert (Hl : ∀ i, (i + w ≤ length m)%nat → length (take w (drop i m)) = w) by (intros i Hi; rewrite length_take, length_drop; lia).
  rewrite !Hl by lia. rewrite decide_True by lia. cbn [mbind option_bind]. rewrite length_inserts, decide_True by lia.
  eexists. split; [done|]. split; [by rewrite !length_inserts|]. intros k.
  rewrite lookup_list_inserts by (rewrite length_inserts, Hl; lia). rewrite Hl by lia.
  destruct (decide (b ≤ k < b + w)%nat) as [Hkb|Hkb].
  - rewrite decide_False by lia. rewrite lookup_take_lt, lookup_drop by lia. done.
  - rewrite lookup_list_inserts by (rewrite Hl; lia). rewrite Hl by lia. case_decide; [|done]. by rewrite lookup_take_lt, lookup_drop by lia.
Qed.

Lemma exchanged_inj m a b n m1 m2 : exchanged m a b n m1 → exchanged m a b n m2 → m1 = m2.
Proof. intros [_ H1] [_ H2]. apply list_eq. intros k. by rewrite H1, H2. Qed.

(** ** Binary search *)

(** The elements that the key is above come first, those it is below last. *)
Definition ordered_for {A K} (cmp : K → A → Z) (key : K) (l : list A) : Prop :=
  ∀ i j x y, (i < j)%nat → l !! i = Some x → l !! j = Some y → (cmp key x ≤ 0 → cmp key y ≤ 0) ∧ (0 ≤ cmp key y → 0 ≤ cmp key x) ∧
             (cmp key x < 0 → cmp key y < 0) ∧ (0 < cmp key y → 0 < cmp key x).

(** The two halves around the pivot. *)
Lemma div2_split n : (0 < n)%nat → (Nat.div2 n + S (Nat.div2 (n - 1)) = n)%nat.
Proof.
  intros Hn. rewrite !Nat.div2_div. pose proof (Nat.div_mod_eq n 2). pose proof (Nat.mod_upper_bound n 2).
  pose proof (Nat.div_mod_eq (n - 1) 2). pose proof (Nat.mod_upper_bound (n - 1) 2). lia.
Qed.

Lemma bsearch_run {A K} (cmp : K → A → Z) (key : K) (l : list A) : ordered_for cmp key l → ∀ fuel base num,
  (num < fuel)%nat → (base + num ≤ length l)%nat →
  (∀ i x, l !! i = Some x → cmp key x = 0 → (base ≤ i < base + num)%nat) →
  ∃ r, bsearch_loop fuel cmp key l base num = Some r ∧
       match r with Some i => ∃ x, l !! i = Some x ∧ cmp key x = 0 | None => ∀ i x, l !! i = Some x → cmp key x ≠ 0 end.
Proof.
  intros Hord. induction fuel as [|fuel IH]; intros base num Hf Hb Hin; [lia|]. cbn [bsearch_loop]. case_decide as Hn.
  2: { exists None. split; [done|]. intros i x Hx H0. specialize (Hin i x Hx H0). lia. }
  pose proof (div2_split num Hn) as Hs. generalize dependent (Nat.div2 num). generalize dependent (Nat.div2 (num - 1)). intros d1 d2 Hs.
  destruct (lookup_lt_is_Some_2 l (base + d2)) as [x Hx]; [lia|]. rewrite Hx. cbn [mbind option_bind].
  destruct (Z.eqb_spec (cmp key x) 0) as [H0|H0]; [exists (Some (base + d2)%nat); eauto|].
  rewrite Z.gtb_ltb. destruct (Z.ltb_spec 0 (cmp key x)) as [Hgt|Hle].
  - apply IH; [lia|lia|]. intros i y Hy Hy0. specialize (Hin i y Hy Hy0) as Hr. split; [|lia].
    destruct (Nat.lt_total i (base + d2)) as [Hlt|[->|?]]; [|simplify_eq|lia].
    destruct (Hord i _ y x Hlt Hy Hx) as (_ & _ & _ & Hx'). specialize (Hx' Hgt). lia.
  - apply IH; [lia|lia|]. intros i y Hy Hy0. specialize (Hin i y Hy Hy0) as Hr. split; [lia|].
    destruct (Nat.lt_total i (base + d2)) as [Hlt|[->|Hgt]]; [lia|simplify_eq|].
    destruct (Hord _ i x y Hgt Hx Hy) as (_ & _ & Hx' & _). specialize (Hx' ltac:(lia)). lia.
Qed.

Lemma sorted_ordered {A} (cmp : A → A → Z) `{!Comparator cmp} key l :
  StronglySorted (λ a b, cmp a b ≤ 0) l → ordered_for cmp key l.
Proof.
  intros Hs i j x y Hij Hx Hy. assert (Hxy : cmp x y ≤ 0).
  { revert i j Hij Hx Hy. induction Hs as [|z l Hs IH HF]; intros i j Hij Hx Hy; [done|]. destruct j as [|j]; [lia|].
    destruct i as [|i]; [|apply (IH i j); [lia|done..]]. simplify_eq/=. rewrite Forall_forall in HF. apply HF. by eapply list_elem_of_lookup_2. }
  assert (H1 := cmp_trans key x y). assert (H2 := cmp_trans x y key).
  pose proof (cmp_flip key x). pose proof (cmp_flip key y). pose proof (cmp_flip x key). pose proof (cmp_flip y key).
  destruct (Z.le_gt_cases (cmp key x) 0), (Z.le_gt_cases (cmp key y) 0), (Z.le_gt_cases 0 (cmp key x)), (Z.le_gt_cases 0 (cmp key y)); lia.
Qed.

(** ** The stable merge sort *)

Section stable.
Context {A : Type} (cmp : A → A → Z) `{!Comparator cmp}.

Notation sorted := (StronglySorted (λ a b, cmp a b ≤ 0)).
(** Elements that compare equal to [k]. *)
Definition eqv (k x : A) : Prop := cmp k x ≤ 0 ∧ cmp x k ≤ 0.
#[local] Instance eqv_dec k x : Decision (eqv k x).
Proof. unfold eqv. apply _. Defined.

(** The same elements, equal ones in the same order. *)
Definition same (l1 l2 : list A) : Prop := l1 ≡ₚ l2 ∧ ∀ k, filter (eqv k) l1 = filter (eqv k) l2.

Lemma same_refl l : same l l.
Proof. by split. Qed.
Lemma same_trans l1 l2 l3 : same l1 l2 → same l2 l3 → same l1 l3.
Proof. intros [H1 H2] [H3 H4]. split; [by rewrite H1|]. intros k. by rewrite H2. Qed.
Lemma same_app l1 l1' l2 l2' : same l1 l1' → same l2 l2' → same (l1 ++ l2) (l1' ++ l2').
Proof. intros [H1 H2] [H3 H4]. split; [by rewrite H1, H3|]. intros k. by rewrite !filter_app, H2, H4. Qed.

Lemma merge_nil_r a : merge cmp a [] = a.
Proof. by destruct a. Qed.
Lemma merge_cons x a y b :
  merge cmp (x :: a) (y :: b) = if cmp x y <=? 0 then x :: merge cmp a (y :: b) else y :: merge cmp (x :: a) b.
Proof. done. Qed.

(** A sorted list above [y] has no element equal to [y]. *)
Lemma filter_above k y (l : list A) :
  eqv k y → (∀ z, z ∈ l → ¬ cmp z y ≤ 0) → filter (eqv k) l = [].
Proof.
  intros [H1 H2]. induction l as [|z l IH]; intros Hl; [done|].
  rewrite filter_cons_False; [apply IH; intros w Hw; apply Hl; by right|].
  intros [H3 H4]. apply (Hl z); [left|]. by eapply cmp_trans.
Qed.

Lemma merge_spec a : ∀ b, sorted a → sorted b → sorted (merge cmp a b) ∧ same (merge cmp a b) (a ++ b).
Proof.
  induction a as [|x a IHa]; [intros b Ha Hb; split; [by destruct b|destruct b; apply same_refl]|].
  intros b Ha. induction b as [|y b IHb]; intros Hb.
  { rewrite merge_nil_r, app_nil_r. split; [done|apply same_refl]. }
  rewrite merge_cons. pose proof Ha as Ha0. pose proof Hb as Hb0. inversion Ha as [|? ? Ha' HFa]; subst. inversion Hb as [|? ? Hb' HFb]; subst.
  rewrite Forall_forall in HFa, HFb. destruct (Z.leb_spec (cmp x y) 0) as [Hle|Hgt].
  - destruct (IHa (y :: b) Ha' Hb0) as [Hs [Hp Hf]]. split; [constructor; [done|]|split; [by rewrite Hp|]].
    + apply Forall_forall. intros z Hz. rewrite Hp in Hz. apply elem_of_app in Hz as [Hz|[->|Hz]%elem_of_cons]; [by apply HFa|done|].
      eapply cmp_trans; [exact Hle|by apply HFb].
    + intros k. rewrite <-app_comm_cons, !filter_cons. case_decide; by rewrite Hf.
  - destruct (IHb Hb') as [Hs [Hp Hf]]. assert (Hyx : cmp y x ≤ 0) by (apply cmp_flip; lia).
    split; [constructor; [done|]|split; [rewrite Hp; apply Permutation_middle|]].
    + apply Forall_forall. intros z Hz. rewrite Hp in Hz. apply elem_of_app in Hz as [[->|Hz]%elem_of_cons|Hz]; [done| |by apply HFb].
      eapply cmp_trans; [exact Hyx|by apply HFa].
    + intros k. rewrite filter_app, (filter_cons _ y b), (filter_cons _ y (merge _ _ _)), Hf, filter_app. case_decide as Hk; [|done].
      assert (Hn : filter (eqv k) (x :: a) = []); [|by rewrite Hn]. apply (filter_above k y); [done|].
      intros z [->|Hz]%elem_of_cons Hzy; [lia|]. specialize (HFa z Hz). pose proof (cmp_trans x z y HFa Hzy). lia.
Qed.

(** ** The partial lists *)

(** The elements of the partial lists, the oldest first. *)
Fixpoint flat (part : list (list A)) : list A :=
  match part with
  | [] => []
  | p :: ps => flat ps ++ p
  end.
Definition empty (l : list (list A)) : Prop := ∀ p, p ∈ l → p = [].

Lemma flat_app l1 l2 : flat (l1 ++ l2) = flat l2 ++ flat l1.
Proof. induction l1 as [|p l1 IH]; simpl; [by rewrite app_nil_r|]. by rewrite IH, app_assoc. Qed.
Lemma flat_empty l : empty l → flat l = [].
Proof.
  induction l as [|p l IH]; intros He; [done|]. simpl. rewrite IH by (intros q Hq; apply He; by right). by rewrite (He p) by left.
Qed.
Lemma empty_snoc l : empty l → empty (l ++ [[]]).
Proof. intros He p [Hp|Hp%list_elem_of_singleton]%elem_of_app; [by apply He|done]. Qed.

Lemma flat_replicate n l : flat (replicate n []) ++ l = l.
Proof. rewrite flat_empty; [done|]. intros p Hp. by apply elem_of_replicate in Hp as [-> _]. Qed.

Lemma merge_up_run R : ∀ n L cur,
  empty L → sorted cur → Forall sorted R → [] ∈ R → (length R < n)%nat →
  ∃ M R' cur', merge_up cmp n (L ++ R) (length L) cur = Some (L ++ replicate (length M) [] ++ [] :: R', (length L + length M)%nat, cur') ∧
    R = M ++ [] :: R' ∧ sorted cur' ∧ same cur' (flat M ++ cur).
Proof.
  induction R as [|p R IH]; intros n L cur He Hc HR Hin Hn; [by apply elem_of_nil in Hin|]. destruct n as [|n]; [lia|]. cbn [merge_up].
  rewrite list_lookup_middle by done. cbn [mbind option_bind]. apply Forall_cons in HR as [Hp HR]. destruct p as [|x p].
  - exists [], R, cur. rewrite Nat.add_0_r. split; [done|]. split; [done|]. split; [done|apply same_refl].
  - destruct (merge_spec (x :: p) cur Hp Hc) as [Hs Hm].
    destruct (IH n (L ++ [[]]) (merge cmp (x :: p) cur)) as (M & R' & cur' & Hrun & HRe & Hs' & Hm');
      [by apply empty_snoc|done|done|by apply elem_of_cons in Hin as [?|?]|simpl in Hn; lia|].
    exists ((x :: p) :: M), R', cur'. rewrite length_app in Hrun. cbn [length] in Hrun. rewrite <-app_assoc in Hrun.
    assert (Hins : <[length L := []]> (L ++ (x :: p) :: R) = L ++ [[]] ++ R).
    { rewrite insert_app_r_alt by lia. by rewrite Nat.sub_diag. }
    rewrite Hins. replace (S (length L)) with (length L + 1)%nat by lia. rewrite Hrun. cbn [length replicate]. rewrite <-app_assoc.
    split; [do 3 f_equal; lia|]. split; [by rewrite HRe|]. split; [done|]. simpl. rewrite <-app_assoc.
    eapply same_trans; [exact Hm'|]. apply same_app; [apply same_refl|done].
Qed.

(** 21 lists, the last one a sentinel; those above the highest level are empty. *)
Record parts_ok (part : list (list A)) (max_lev : nat) : Prop := {
  po_len : length part = S MAX_LIST_LENGTH_BITS;
  po_max : (max_lev < MAX_LIST_LENGTH_BITS)%nat;
  po_sorted : Forall sorted part;
  po_above : ∀ i p, (max_lev < i)%nat → part !! i = Some p → p = [] }.

Lemma parts_step part max_lev x :
  parts_ok part max_lev →
  ∃ part1 lev cur lev' max', merge_up cmp (S (length part)) part 0 [x] = Some (part1, lev, cur) ∧
    (if decide (max_lev < lev)%nat then
       let lev := if decide (length part1 - 1 ≤ lev)%nat then (lev - 1)%nat else lev in (lev, lev) else (lev, max_lev)) = (lev', max') ∧
    parts_ok (<[lev' := cur]> part1) max' ∧ same (flat (<[lev' := cur]> part1)) (flat part ++ [x]).
Proof.
  intros [Hlen Hmax Hsort Habove]. unfold MAX_LIST_LENGTH_BITS in *.
  assert (Hin : [] ∈ part).
  { destruct (lookup_lt_is_Some_2 part 20) as [p Hp]; [lia|]. apply list_elem_of_lookup. exists 20%nat. rewrite Hp. f_equal. by eapply Habove. }
  destruct (merge_up_run part (S (length part)) [] [x]) as (M & R' & cur & Hrun & Hpart & Hs & Hm);
    [intros p Hp; by apply elem_of_nil in Hp|repeat constructor|done|done|lia|]. cbn [app length Nat.add] in Hrun.
  assert (Hl1 : length (replicate (length M) [] ++ [] :: R') = 21%nat).
  { rewrite length_app, length_replicate. cbn [length]. rewrite <-Hlen, Hpart, length_app. done. }
  assert (HM : (length M < 21)%nat) by (rewrite length_app, length_replicate in Hl1; simpl in Hl1; lia).
  assert (Hat : ∀ lev', (lev' ≤ length M)%nat →
    <[lev' := cur]> (replicate (length M) [] ++ [] :: R') = replicate lev' [] ++ cur :: replicate (length M - lev') [] ++ R').
  { intros lev' Hle. change ([] :: R') with (replicate 1 [] ++ R'). rewrite app_assoc, <-replicate_add.
    replace (length M + 1)%nat with (lev' + S (length M - lev'))%nat by lia. rewrite replicate_add, <-app_assoc.
    rewrite insert_app_r_alt by (rewrite length_replicate; lia). by rewrite length_replicate, Nat.sub_diag. }
  assert (Hrep : ∀ n, empty (replicate n [])) by (intros n p Hp; by apply elem_of_replicate in Hp as [-> _]).
  assert (Hdone : ∀ lev' max', (lev' ≤ length M)%nat → (lev' ≤ max' < 20)%nat → (max_lev ≤ max' ∧ (length M ≤ max' ∨ length M = 20 ∧ max' = 19))%nat →
    parts_ok (<[lev' := cur]> (replicate (length M) [] ++ [] :: R')) max' ∧
    same (flat (<[lev' := cur]> (replicate (length M) [] ++ [] :: R'))) (flat part ++ [x])).
  { intros lev' max' Hle Hm' Hmm. rewrite (Hat lev' Hle). split.
    - rewrite <-(Hat lev' Hle). split; [by rewrite length_insert|unfold MAX_LIST_LENGTH_BITS; lia| |].
      + rewrite (Hat lev' Hle). rewrite Hpart in Hsort. apply Forall_app in Hsort as [_ [_ HR]%Forall_cons].
        apply Forall_app. split; [apply Forall_replicate; constructor|]. apply Forall_cons. split; [done|].
        apply Forall_app. split; [apply Forall_replicate; constructor|done].
      + intros i p Hi. rewrite list_lookup_insert_ne by lia. change ([] :: R') with (replicate 1 [] ++ R'). rewrite app_assoc, <-replicate_add.
        intros Hp. destruct (Nat.lt_ge_cases i (length M + 1)) as [Hlt|Hge].
        * rewrite lookup_app_l in Hp by (rewrite length_replicate; lia). by apply lookup_replicate in Hp as [-> _].
        * apply (Habove i); [lia|]. rewrite Hpart, lookup_app_r by lia. rewrite lookup_app_r, length_replicate in Hp by (rewrite length_replicate; lia).
          replace (i - length M)%nat with (S (i - (length M + 1))) by lia. done.
    - rewrite Hpart, !flat_app. simpl. rewrite !flat_app.
      rewrite (flat_empty (replicate lev' [])), (flat_empty (replicate (length M - lev') [])) by apply Hrep. rewrite !app_nil_r.
      rewrite <-app_assoc. apply same_app; [apply same_refl|done]. }
  exists (replicate (length M) [] ++ [] :: R'), (length M), cur. rewrite Hl1. cbn [Nat.sub].
  destruct (decide (max_lev < length M)%nat) as [Hlt|Hge].
  - cbv zeta. destruct (decide (20 ≤ length M)%nat) as [H20|H20].
    + exists (length M - 1)%nat, (length M - 1)%nat. split; [done|]. split; [done|]. apply Hdone; lia.
    + exists (length M), (length M). split; [done|]. split; [done|]. apply Hdone; lia.
  - exists (length M), max_lev. split; [done|]. split; [done|]. apply Hdone; lia.
Qed.

Lemma list_sort_loop_run l : ∀ part max_lev,
  parts_ok part max_lev →
  ∃ part' max', list_sort_loop cmp part max_lev l = Some (part', max') ∧ parts_ok part' max' ∧ same (flat part') (flat part ++ l).
Proof.
  induction l as [|x l IH]; intros part max_lev Hok; cbn [list_sort_loop].
  { exists part, max_lev. rewrite app_nil_r. split; [done|]. split; [done|apply same_refl]. }
  destruct (parts_step part max_lev x Hok) as (part1 & lev & cur & lev' & max' & Hrun & Hlev & Hok1 & Hs1).
  rewrite Hrun. cbn [mbind option_bind]. cbv zeta in Hlev. rewrite Hlev.
  destruct (IH _ _ Hok1) as (part' & max'' & Hrun' & Hok' & Hs'). exists part', max''. split; [done|]. split; [done|].
  eapply same_trans; [exact Hs'|]. change (x :: l) with ([x] ++ l). rewrite app_assoc. apply same_app; [done|apply same_refl].
Qed.

Lemma merge_parts_run n : ∀ (part : list (list A)) lev l,
  Forall sorted part → sorted l → (lev + n ≤ length part)%nat →
  ∃ l', merge_parts cmp n part lev l = Some l' ∧ sorted l' ∧ same l' (flat (take n (drop lev part)) ++ l).
Proof.
  induction n as [|n IH]; intros part lev l HF Hl Hn; cbn [merge_parts]; [exists l; split; [done|]; split; [done|apply same_refl]|].
  destruct (lookup_lt_is_Some_2 part lev) as [p Hp]; [lia|]. rewrite Hp. cbn [mbind option_bind].
  assert (Hps : sorted p) by (by eapply Forall_lookup_1). destruct (merge_spec p l Hps Hl) as [Hs Hm].
  assert (Hmp : match p with [] => l | _ :: _ => merge cmp p l end = merge cmp p l) by (destruct p; [by destruct l|done]). rewrite Hmp.
  destruct (IH part (S lev) (merge cmp p l) HF Hs) as (l' & Hrun & Hs' & Hm'); [lia|]. exists l'. split; [done|]. split; [done|].
  rewrite (drop_S _ _ _ Hp). cbn [take flat]. rewrite <-app_assoc. eapply same_trans; [exact Hm'|]. apply same_app; [apply same_refl|done].
Qed.

Lemma parts_init : parts_ok (replicate (MAX_LIST_LENGTH_BITS + 1) []) 0.
Proof.
  split; [done|unfold MAX_LIST_LENGTH_BITS; lia|apply Forall_replicate; constructor|].
  intros i p _ Hp. by apply lookup_replicate in Hp as [-> _].
Qed.

Lemma back_links_spec (l : list A) : ∀ t,
  fst <$> back_links t l = l ∧ ∀ i x q, back_links t l !! i = Some (x, q) → q = match i with O => t | S i => l !! i end.
Proof.
  induction l as [|y l IH]; intros t; cbn [back_links]; [done|]. destruct (IH (Some y)) as [Hf Hq]. split; [by rewrite fmap_cons, Hf|].
  intros [|i] x q H; [by injection H as -> ->|]. specialize (Hq i x q H). by destruct i.
Qed.

(** The sorted nodes, linked both ways. *)
Lemma list_sort_run l :
  ∃ r e, list_sort cmp l = Some (r, e) ∧ sorted (r.*1) ∧ same (r.*1) l ∧ e = last (r.*1) ∧
    ∀ i x q, r !! i = Some (x, q) → q = match i with O => None | S i => r.*1 !! i end.
Proof.
  unfold list_sort. destruct l as [|x l].
  { exists [], None. split; [done|]. split; [constructor|]. split; [apply same_refl|done]. }
  destruct (list_sort_loop_run (x :: l) _ _ parts_init) as (part & max_lev & Hrun & [Hlen Hmax Hsort Habove] & Hs).
  rewrite Hrun. cbn [mbind option_bind].
  destruct (merge_parts_run max_lev part 0 []) as (rest & Hrun2 & Hsr & Hm); [done|constructor|unfold MAX_LIST_LENGTH_BITS in *; lia|].
  rewrite Hrun2. cbn [mbind option_bind]. destruct (lookup_lt_is_Some_2 part max_lev) as [top Htop]; [unfold MAX_LIST_LENGTH_BITS in *; lia|].
  rewrite Htop. cbn [mbind option_bind]. assert (Hst : sorted top) by (by eapply Forall_lookup_1).
  destruct (merge_spec top rest Hst Hsr) as [Hs2 Hm2]. rewrite app_nil_r, drop_0 in Hm.
  assert (Hall : same (merge cmp top rest) (x :: l)).
  { eapply same_trans; [exact Hm2|]. rewrite flat_replicate in Hs. eapply same_trans; [|exact Hs].
    rewrite <-(take_drop max_lev part). rewrite flat_app, (drop_S _ _ _ Htop). cbn [flat].
    rewrite (flat_empty (drop (S max_lev) part)); [apply same_app; [apply same_refl|done]|].
    intros p Hp. apply list_elem_of_lookup in Hp as [i Hp]. rewrite lookup_drop in Hp. eapply Habove; [|exact Hp]. lia. }
  unfold merge_and_restore_back_links. destruct (merge cmp top rest) as [|z m] eqn:Hm3.
  { destruct Hall as [Hp _]. by apply Permutation_nil_cons in Hp. }
  destruct (back_links_spec (z :: m) None) as [Hf Hq]. eexists _, _. split; [done|]. rewrite Hf. by split_and!.
Qed.
End stable.
