(* ===== verification/SortProps.v ===== *)
(** * What the sorting and searching routines promise *)
From Stdlib Require Import Sorted.
From S2P Require Import Prelude Sort SortLists.

(** Integers under subtraction, the comparison most callers pass. *)
Definition cmp_sub (a b : Z) : Z := a - b.
#[export] Instance cmp_sub_comparator : Comparator cmp_sub.
Proof. split; unfold cmp_sub; lia. Qed.
(** Records compared by their key alone. *)
Definition cmp_key (a b : Z * Z) : Z := a.1 - b.1.
#[export] Instance cmp_key_comparator : Comparator cmp_key.
Proof. split; unfold cmp_key; lia. Qed.

(** C36. [sort] terminates without an access outside the array and leaves a
    sorted permutation of it, for every comparison that is a total preorder and
    every array whose size in bytes fits the [int] counters; the byte-wise and
    the word-wise swap routines exchange the same bytes. *)
Theorem sort_correct {A} (cmp : A → A → Z) `{!Comparator cmp} (size : Z) (l : list A) :
  0 < size < 2 ^ 31 → Z.of_nat (length l) * size < 2 ^ 31 →
  (∃ l', sort cmp size l = Some l' ∧ l' ≡ₚ l ∧ StronglySorted (λ a b, cmp a b ≤ 0) l') ∧
  (∀ m a b (w : nat), (a + w ≤ length m)%nat → (b + w ≤ length m)%nat → (a + w ≤ b ∨ b + w ≤ a)%nat → (0 < w)%nat →
   ∃ m', generic_swap m a b (Z.of_nat w) = Some m' ∧ word_swap w m a b = Some m' ∧ exchanged m a b w m').
Proof.
  intros Hs Hb. split; [apply (sort_run cmp size); [lia|exact Hb|lia]|]. intros m a b w Ha Hb' Hd Hw.
  destruct (generic_swap_run w m a b) as (m1 & Hr1 & He1); [done..|]. destruct (word_swap_run w m a b) as (m2 & Hr2 & He2); [done..|].
  exists m1. unfold generic_swap. rewrite Z.max_r, Nat2Z.id by lia. split; [done|]. split; [|done]. by rewrite (exchanged_inj _ _ _ _ _ _ He1 He2).
Qed.

(** [bsearch] on an array sorted by the comparison terminates, reads only
    inside the array, and returns an element that matches the key exactly when
    there is one. *)
Theorem bsearch_correct {A} (cmp : A → A → Z) `{!Comparator cmp} (key : A) (l : list A) :
  StronglySorted (λ a b, cmp a b ≤ 0) l →
  ∃ r, bsearch cmp key l = Some r ∧
    match r with
    | Some i => ∃ x, l !! i = Some x ∧ cmp key x = 0
    | None => ∀ i x, l !! i = Some x → cmp key x ≠ 0
    end.
Proof. intros Hs. apply bsearch_run; [by apply sorted_ordered|lia|lia|]. intros i x Hx _. apply lookup_lt_Some in Hx. lia. Qed.

(** [list_sort] terminates for a list of any length and leaves the nodes
    sorted, elements that compare equal in their original order, every [prev]
    pointing to the node before, the first to the head and the head to the
    last. *)
Theorem list_sort_correct {A} (cmp : A → A → Z) `{!Comparator cmp} (l : list A) :
  ∃ r e, list_sort cmp l = Some (r, e) ∧ StronglySorted (λ a b, cmp a b ≤ 0) (r.*1) ∧ same cmp (r.*1) l ∧ e = last (r.*1) ∧
    ∀ i x q, r !! i = Some (x, q) → q = match i with O => None | S i => r.*1 !! i end.
Proof. apply list_sort_run. apply _. Qed.

(** ** Witnesses *)
Module SortExample.

Lemma sort_correct_witness :
  sort cmp_sub 4 [3; 1; 2; 5; 4] = Some [1; 2; 3; 4; 5] ∧
  ∃ l', sort cmp_sub 4 [3; 1; 2; 5; 4] = Some l' ∧ l' ≡ₚ [3; 1; 2; 5; 4] ∧ StronglySorted (λ a b, cmp_sub a b ≤ 0) l'.
Proof. split; [reflexivity|]. apply (sort_correct cmp_sub 4 [3; 1; 2; 5; 4]); simpl; lia. Defined.

Lemma bsearch_correct_witness :
  bsearch cmp_sub 7 [1; 3; 5; 7; 9] = Some (Some 3%nat) ∧
  ∃ r, bsearch cmp_sub 7 [1; 3; 5; 7; 9] = Some r ∧
    match r with Some i => ∃ x, [1; 3; 5; 7; 9] !! i = Some x ∧ cmp_sub 7 x = 0 | None => ∀ i x, [1; 3; 5; 7; 9] !! i = Some x → cmp_sub 7 x ≠ 0 end.
Proof.
  split; [reflexivity|]. apply (bsearch_correct cmp_sub 7 [1; 3; 5; 7; 9]).
  repeat constructor; unfold cmp_sub; lia.
Defined.

Lemma list_sort_correct_witness :
  list_sort cmp_key [(2, 0); (1, 0); (2, 1); (1, 1)] =
    Some ([((1, 0), None); ((1, 1), Some (1, 0)); ((2, 0), Some (1, 1)); ((2, 1), Some (2, 0))], Some (2, 1)) ∧
  ∃ r e, list_sort cmp_key [(2, 0); (1, 0); (2, 1); (1, 1)] = Some (r, e) ∧ StronglySorted (λ a b, cmp_key a b ≤ 0) (r.*1) ∧
    same cmp_key (r.*1) [(2, 0); (1, 0); (2, 1); (1, 1)] ∧ e = last (r.*1) ∧
    ∀ i x q, r !! i = Some (x, q) → q = match i with O => None | S i => r.*1 !! i end.
Proof. split; [reflexivity|]. apply (list_sort_correct cmp_key). Defined.

End SortExample.
