(* ===== verification/Kstrtox.v ===== *)
(** * Characters and numbers ([lib/base/src/ctype.c], [kstrtox.c])

    A C string is a list of character codes that ends with 0; a read outside of
    it is [None].  The conversions return the C result and what they store
    through [res], if they store anything.  [char] is unsigned (AArch64). *)
From S2P Require Import Prelude.

(** ** Character classes *)

Definition _U : Z := 0x01.
Definition _L : Z := 0x02.
Definition _D : Z := 0x04.
Definition _C : Z := 0x08.
Definition _P : Z := 0x10.
Definition _S : Z := 0x20.
Definition _X : Z := 0x40.
Definition _SP : Z := 0x80.

Definition _ctype : list Z :=
  replicate 8 _C ++
  [_C] ++ replicate 5 (Z.lor _C _S) ++ replicate 2 _C ++
  replicate 16 _C ++
  [Z.lor _S _SP] ++ replicate 15 _P ++
  replicate 10 _D ++ replicate 6 _P ++
  [_P] ++ replicate 6 (Z.lor _U _X) ++ replicate 20 _U ++ replicate 5 _P ++
  [_P] ++ replicate 6 (Z.lor _L _X) ++ replicate 20 _L ++ replicate 4 _P ++ [_C] ++
  replicate 32 0 ++
  [Z.lor _S _SP] ++ replicate 31 _P ++
  replicate 23 _U ++ [_P] ++ replicate 7 _U ++ [_L] ++
  replicate 23 _L ++ [_P] ++ replicate 8 _L.

Definition __ismask (c : Z) : Z := default 0 (_ctype !! Z.to_nat (u8 c)).
Definition ismask (m c : Z) : bool := negb (Z.land (__ismask c) m =? 0).
Definition isalnum : Z → bool := ismask (Z.lor (Z.lor _U _L) _D).
Definition isalpha : Z → bool := ismask (Z.lor _U _L).
Definition iscntrl : Z → bool := ismask _C.
Definition isdigit (c : Z) : bool := (48 <=? c) && (c <=? 57).
Definition isgraph : Z → bool := ismask (Z.lor (Z.lor (Z.lor _P _U) _L) _D).
Definition islower : Z → bool := ismask _L.
Definition isprint : Z → bool := ismask (Z.lor (Z.lor (Z.lor (Z.lor _P _U) _L) _D) _SP).
Definition ispunct : Z → bool := ismask _P.
Definition isspace : Z → bool := ismask _S.
Definition isupper : Z → bool := ismask _U.
Definition isxdigit : Z → bool := ismask (Z.lor _D _X).
Definition __tolower (c : Z) : Z := if isupper c then u8 (c - (65 - 97)) else c.
Definition __toupper (c : Z) : Z := if islower c then u8 (c - (97 - 65)) else c.
Definition _tolower (c : Z) : Z := u8 (Z.lor c 0x20).
Definition isodigit (c : Z) : bool := (48 <=? c) && (c <=? 55).

(** ** Integers *)

Definition KSTRTOX_OVERFLOW : Z := 2 ^ 31.

(** [s[i]] *)
Definition rd (s : list Z) (i : nat) : option Z := s !! i.

(** The base and the number of characters skipped. *)
Definition _parse_integer_fixup_radix (s : list Z) (base : Z) : option (Z * nat) :=
  base ← (if base =? 0 then
            c0 ← rd s 0;
            if c0 =? 48 then
              c1 ← rd s 1;
              if _tolower c1 =? 120 then
                c2 ← rd s 2;
                Some (if isxdigit c2 then 16 else 8)
              else Some 8
            else Some 10
          else Some base);
  if base =? 16 then
    c0 ← rd s 0;
    if c0 =? 48 then
      c1 ← rd s 1;
      Some (base, if _tolower c1 =? 120 then 2%nat else O)
    else Some (base, O)
  else Some (base, O).

(** The loop: the result, the count with the overflow bit. *)
Fixpoint _parse_integer_loop (fuel : nat) (s : list Z) (base res rv : Z) : option (Z * Z) :=
  match fuel with
  | O => None
  | S fuel =>
      c ← rd s 0;
      let lc := Z.lor c 0x20 in
      match (if (48 <=? c) && (c <=? 57) then Some (c - 48)
             else if (97 <=? lc) && (lc <=? 102) then Some (lc - 97 + 10) else None) with
      | None => Some (res, rv)
      | Some val =>
          if val >=? base then Some (res, rv) else
          let rv := if negb (Z.land res (u64 (Z.shiftl ULLONG_MAX 60)) =? 0) then
                      if res >? (ULLONG_MAX - val) / base then Z.lor rv KSTRTOX_OVERFLOW else rv
                    else rv in
          _parse_integer_loop fuel (tail s) base (u64 (res * base + val)) (u32 (rv + 1))
      end
  end.
Definition _parse_integer (s : list Z) (base : Z) : option (Z * Z) := _parse_integer_loop (S (length s)) s base 0 0.

Definition _kstrtoull (s : list Z) (base : Z) : option (Z * option Z) :=
  '(base, k) ← _parse_integer_fixup_radix s base;
  let s := drop k s in
  '(_res, rv) ← _parse_integer s base;
  if negb (Z.land rv KSTRTOX_OVERFLOW =? 0) then Some (- ERANGE, None)
  else if rv =? 0 then Some (- EINVAL, None)
  else
    let s := drop (Z.to_nat rv) s in
    c ← rd s 0;
    let s := if c =? 10 then tail s else s in
    c ← rd s 0;
    Some (if negb (c =? 0) then (- EINVAL, None) else (0, Some _res)).

Definition kstrtoull (s : list Z) (base : Z) : option (Z * option Z) :=
  c ← rd s 0;
  _kstrtoull (if c =? 43 then tail s else s) base.

Definition kstrtoll (s : list Z) (base : Z) : option (Z * option Z) :=
  c ← rd s 0;
  if c =? 45 then
    '(rv, tmp) ← _kstrtoull (tail s) base;
    match tmp with
    | None => Some (rv, None)
    | Some tmp => Some (if s64 (- tmp) >? 0 then (- ERANGE, None) else (0, Some (s64 (- tmp))))
    end
  else
    '(rv, tmp) ← kstrtoull s base;
    match tmp with
    | None => Some (rv, None)
    | Some tmp => Some (if s64 tmp <? 0 then (- ERANGE, None) else (0, Some (s64 tmp)))
    end.

(** The narrower types convert and compare: [conv] is the cast. *)
Definition narrow (conv : Z → Z) (r : option (Z * option Z)) : option (Z * option Z) :=
  '(rv, tmp) ← r;
  match tmp with
  | None => Some (rv, None)
  | Some tmp => Some (if negb (tmp =? conv tmp) then (- ERANGE, None) else (0, Some (conv tmp)))
  end.
Definition _kstrtoul (s : list Z) (base : Z) := narrow u64 (kstrtoull s base).
Definition _kstrtol (s : list Z) (base : Z) := narrow s64 (kstrtoll s base).
Definition kstrtouint (s : list Z) (base : Z) := narrow u32 (kstrtoull s base).
Definition kstrtoint (s : list Z) (base : Z) := narrow s32 (kstrtoll s base).
Definition kstrtou16 (s : list Z) (base : Z) := narrow u16 (kstrtoull s base).
Definition kstrtos16 (s : list Z) (base : Z) := narrow s16 (kstrtoll s base).
Definition kstrtou8 (s : list Z) (base : Z) := narrow u8 (kstrtoull s base).
Definition kstrtos8 (s : list Z) (base : Z) := narrow s8 (kstrtoll s base).

(** A null pointer is [None]; a read outside the string crashes. *)
Definition kstrtobool (s : option (list Z)) : option (Z * option bool) :=
  match s with
  | None => Some (- EINVAL, None)
  | Some s =>
      c ← rd s 0;
      if (c =? 121) || (c =? 89) || (c =? 49) then Some (0, Some true)
      else if (c =? 110) || (c =? 78) || (c =? 48) then Some (0, Some false)
      else if (c =? 111) || (c =? 79) then
        d ← rd s 1;
        if (d =? 110) || (d =? 78) then Some (0, Some true)
        else if (d =? 102) || (d =? 70) then Some (0, Some false)
        else Some (- EINVAL, None)
      else Some (- EINVAL, None)
  end.
