(* ===== verification/KstrtoxProps.v ===== *)
(** * Correctness of the number conversions

    The loop computes the value of the digits and sets the overflow bit exactly
    when the value does not fit 64 bits; printed numbers are read back, and a
    number outside the range of the type is refused without storing it. *)
From S2P Require Import Prelude Kstrtox.

(** ** Digits *)

(** The value of a character as a digit. *)
Definition digit (c : Z) : option Z :=
  if (48 <=? c) && (c <=? 57) then Some (c - 48)
  else if (97 <=? c) && (c <=? 102) then Some (c - 87)
  else if (65 <=? c) && (c <=? 70) then Some (c - 55) else None.
Definition digit_of (base c : Z) : Prop := ∃ v, digit c = Some v ∧ v < base.
Definition is_char (c : Z) : Prop := 0 ≤ c < 256.

#[local] Instance digit_of_dec base c : Decision (digit_of base c).
Proof.
  refine (match digit c as d return digit c = d → _ with
          | Some v => λ E, if decide (v < base) then left _ else right _ | None => λ E, right _ end eq_refl);
    unfold digit_of; rewrite E; naive_solver.
Defined.

(** A statement about all characters. *)
Lemma all_chars (P : Z → bool) : forallb P (seqZ 0 256) = true → ∀ c, is_char c → P c = true.
Proof. intros H c Hc. rewrite forallb_forall in H. apply H, list_elem_of_In, elem_of_seqZ. unfold is_char in Hc. lia. Qed.

(** The test of the loop. *)
Definition loop_digit (c : Z) : option Z :=
  if (48 <=? c) && (c <=? 57) then Some (c - 48)
  else if (97 <=? Z.lor c 0x20) && (Z.lor c 0x20 <=? 102) then Some (Z.lor c 0x20 - 97 + 10) else None.
Definition loop_digit_eq (c : Z) : bool := bool_decide (loop_digit c = digit c).
Lemma loop_digit_ok c : is_char c → loop_digit c = digit c.
Proof. intros Hc. apply (bool_decide_eq_true_1 _). by apply (all_chars loop_digit_eq ltac:(vm_compute; reflexivity)). Qed.
Lemma digit_range c v : digit c = Some v → 0 ≤ v < 16 ∧ 48 ≤ c ≤ 102.
Proof. unfold digit. repeat (case_match; bool_prop); intros; simplify_eq; lia. Qed.

Definition has_digit (c : Z) : bool := match digit c with Some _ => true | None => false end.
Lemma isxdigit_ok c : is_char c → isxdigit c = has_digit c.
Proof. intros Hc. apply eqb_prop. by apply (all_chars (λ c, Bool.eqb (isxdigit c) (has_digit c)) ltac:(vm_compute; reflexivity)). Qed.

(** ** Values *)

Definition dval (c : Z) : Z := default 0 (digit c).
Definition value (base : Z) (t : list Z) : Z := foldl (λ r c, r * base + dval c) 0 t.
Definition value_from (base r : Z) (t : list Z) : Z := foldl (λ r c, r * base + dval c) r t.

Lemma value_from_le base r t : 1 ≤ base → 0 ≤ r → Forall (digit_of base) t → r ≤ value_from base r t.
Proof.
  intros Hb. revert r. induction t as [|c t IH]; intros r Hr Ht; [done|]. apply Forall_cons in Ht as [(v & Hv & Hlt) Ht].
  cbn [value_from foldl]. fold (value_from base (r * base + dval c) t). unfold dval. rewrite Hv. simpl. apply digit_range in Hv.
  etrans; [|apply IH; [nia|done]]. nia.
Qed.

Lemma overflow_bit_clear rv : 0 ≤ rv < 2 ^ 31 → Z.land rv KSTRTOX_OVERFLOW = 0.
Proof.
  intros H. apply Z.bits_inj'. intros n Hn. unfold KSTRTOX_OVERFLOW. rewrite Z.land_spec, Z.bits_0, Z.pow2_bits_eqb by lia.
  destruct (Z.eqb_spec 31 n) as [<-|]; [|apply andb_false_r].
  rewrite <-(Z.mod_small rv (2 ^ 31)) by lia. rewrite Z.mod_pow2_bits_high; [done|lia].
Qed.
Lemma overflow_bit_set rv : 2 ^ 31 ≤ rv < 2 ^ 32 → Z.land rv KSTRTOX_OVERFLOW = KSTRTOX_OVERFLOW ∧ Z.lor rv KSTRTOX_OVERFLOW = rv.
Proof.
  intros H. assert (Ht : Z.testbit rv 31 = true).
  { apply Z.testbit_true; [lia|]. assert (rv / 2 ^ 31 = 1) as ->; [|done]. symmetry. apply (Z.div_unique _ _ _ (rv - 2 ^ 31)); lia. }
  unfold KSTRTOX_OVERFLOW. split; apply Z.bits_inj'; intros n Hn; rewrite ?Z.land_spec, ?Z.lor_spec, Z.pow2_bits_eqb by lia;
    destruct (Z.eqb_spec 31 n) as [<-|]; rewrite ?Ht, ?andb_false_r, ?orb_false_r; done.
Qed.

(** Small results are not checked, and cannot overflow in a base up to 16. *)
Lemma unchecked_small res : 0 ≤ res < 2 ^ 64 → Z.land res (u64 (Z.shiftl ULLONG_MAX 60)) = 0 ↔ res < 2 ^ 60.
Proof.
  intros Hr. change (u64 (Z.shiftl ULLONG_MAX 60)) with (15 * 2 ^ 60).
  assert (Hl : Z.land res (15 * 2 ^ 60) = 2 ^ 60 * (res / 2 ^ 60)).
  { apply Z.bits_inj'. intros n Hn. rewrite Z.land_spec, (Z.mul_comm (2 ^ 60)).
    destruct (Z.lt_ge_cases n 60); [rewrite !Z.mul_pow2_bits_low by lia; apply andb_false_r|].
    rewrite !Z.mul_pow2_bits by lia. rewrite Z.div_pow2_bits by lia. replace (n - 60 + 60) with n by lia.
    change 15 with (Z.ones 4). destruct (Z.lt_ge_cases n 64); [rewrite Z.ones_spec_low by lia; apply andb_true_r|].
    rewrite Z.ones_spec_high, andb_false_r by lia. rewrite <-(Z.mod_small res (2 ^ 64)) by lia. by rewrite Z.mod_pow2_bits_high by lia. }
  rewrite Hl. pose proof (Z.div_mod res (2 ^ 60)). pose proof (Z.mod_pos_bound res (2 ^ 60)). nia.
Qed.

Lemma overflow_check base res val :
  2 ≤ base ≤ 16 → 0 ≤ res < 2 ^ 64 → 0 ≤ val < base →
  negb (Z.land res (u64 (Z.shiftl ULLONG_MAX 60)) =? 0) && (res >? (ULLONG_MAX - val) / base) = (2 ^ 64 <=? res * base + val).
Proof.
  intros Hb Hr Hv. pose proof (unchecked_small res Hr) as Hs. unfold ULLONG_MAX in *.
  destruct (Z.eqb_spec (Z.land res (u64 (Z.shiftl (2 ^ 64 - 1) 60))) 0) as [H0|H0]; cbn [negb andb].
  - apply Hs in H0. symmetry. apply Z.leb_gt. nia.
  - rewrite Z.gtb_ltb. apply eq_true_iff_eq. rewrite Z.ltb_lt, Z.leb_le. split; intros H.
    + assert (~ res ≤ (2 ^ 64 - 1 - val) / base) as Hn by lia. destruct (Z.le_gt_cases (2 ^ 64) (res * base + val)); [done|].
      exfalso. apply Hn. apply Z.div_le_lower_bound; lia.
    + apply Z.div_lt_upper_bound; lia.
Qed.

(** ** The loop *)

Lemma rd_head c s : rd (c :: s) 0 = Some c.
Proof. done. Qed.

Section loop.
Context (base : Z) (Hbase : 2 ≤ base ≤ 16).

Lemma parse_step fuel c s res rv v :
  is_char c → digit c = Some v → v < base → 0 ≤ res < 2 ^ 64 →
  _parse_integer_loop (S fuel) (c :: s) base res rv =
    _parse_integer_loop fuel s base (u64 (res * base + v))
      (u32 ((if 2 ^ 64 <=? res * base + v then Z.lor rv KSTRTOX_OVERFLOW else rv) + 1)).
Proof.
  intros Hc Hd Hv Hr. cbn [_parse_integer_loop]. cbv zeta. rewrite rd_head. cbn [mbind option_bind tail].
  fold (loop_digit c). rewrite loop_digit_ok, Hd by done. rewrite Z.geb_leb, (proj2 (Z.leb_gt _ _)) by lia.
  rewrite <-(overflow_check base res v Hbase Hr) by (apply digit_range in Hd; lia). by destruct (negb _), (_ >? _).
Qed.

Lemma parse_stop fuel c s res rv :
  is_char c → ¬ digit_of base c → _parse_integer_loop (S fuel) (c :: s) base res rv = Some (res, rv).
Proof.
  intros Hc Hn. cbn [_parse_integer_loop]. cbv zeta. rewrite rd_head. cbn [mbind option_bind].
  fold (loop_digit c). rewrite loop_digit_ok by done. destruct (digit c) as [v|] eqn:Hd; [|done].
  rewrite Z.geb_leb, (proj2 (Z.leb_le _ _)); [done|]. destruct (Z.le_gt_cases base v); [done|]. exfalso. apply Hn. by exists v.
Qed.

Lemma digits_chars t : Forall (digit_of base) t → Forall is_char t.
Proof. intros H. eapply Forall_impl; [exact H|]. intros c (v & Hv & _). apply digit_range in Hv. unfold is_char. lia. Qed.

Context (c : Z) (rest : list Z) (Hc : is_char c) (Hstop : ¬ digit_of base c).

Lemma parse_fits t : ∀ fuel res rv,
  Forall (digit_of base) t → (length t < fuel)%nat → 0 ≤ res → value_from base res t < 2 ^ 64 → 0 ≤ rv → rv + Z.of_nat (length t) < 2 ^ 31 →
  _parse_integer_loop fuel (t ++ c :: rest) base res rv = Some (value_from base res t, rv + Z.of_nat (length t)).
Proof.
  induction t as [|d t IH]; intros fuel res rv Ht Hf Hr Hv Hrv Hlt; (destruct fuel as [|fuel]; [simpl in Hf; lia|]); cbn [app].
  { rewrite parse_stop by done. simpl. by rewrite Z.add_0_r. }
  pose proof (Forall_inv (digits_chars _ Ht)) as Hd. apply Forall_cons in Ht as [(v & Hdv & Hvb) Ht].
  assert (Hval : value_from base res (d :: t) = value_from base (res * base + v) t).
  { unfold value_from. cbn [foldl]. unfold dval. by rewrite Hdv. }
  pose proof (digit_range _ _ Hdv) as [Hv16 _]. pose proof (value_from_le base (res * base + v) t ltac:(lia) ltac:(nia) Ht) as Hle.
  rewrite Hval in *. rewrite (parse_step fuel d _ res rv v) by (done || nia). rewrite (proj2 (Z.leb_gt _ _)) by lia.
  cbn [length] in *. rewrite u64_small by nia. rewrite u32_small by lia. rewrite IH by (done || nia || lia). f_equal. f_equal. lia.
Qed.

(** Once set, the bit stays. *)
Lemma parse_flagged t : ∀ fuel res rv,
  Forall (digit_of base) t → (length t < fuel)%nat → 0 ≤ res < 2 ^ 64 → 2 ^ 31 ≤ rv → rv + Z.of_nat (length t) < 2 ^ 32 →
  ∃ r rv', _parse_integer_loop fuel (t ++ c :: rest) base res rv = Some (r, rv') ∧ 2 ^ 31 ≤ rv' < 2 ^ 32.
Proof.
  induction t as [|d t IH]; intros fuel res rv Ht Hf Hr Hrv Hlt; (destruct fuel as [|fuel]; [simpl in Hf; lia|]); cbn [app].
  { rewrite parse_stop by done. simpl in Hlt. exists res, rv. split; [done|lia]. }
  pose proof (Forall_inv (digits_chars _ Ht)) as Hd. apply Forall_cons in Ht as [(v & Hdv & Hvb) Ht]. cbn [length] in *.
  rewrite (parse_step fuel d _ res rv v) by (done || nia).
  assert (Hor : (if 2 ^ 64 <=? res * base + v then Z.lor rv KSTRTOX_OVERFLOW else rv) = rv).
  { destruct (_ <=? _); [|done]. apply overflow_bit_set. lia. }
  rewrite Hor. autorewrite with machine. apply IH; [done|lia|auto with machine|lia|lia].
Qed.

Lemma parse_overflows t : ∀ fuel res rv,
  Forall (digit_of base) t → (length t < fuel)%nat → 0 ≤ res < 2 ^ 64 → 2 ^ 64 ≤ value_from base res t → 0 ≤ rv →
  rv + Z.of_nat (length t) < 2 ^ 31 →
  ∃ r rv', _parse_integer_loop fuel (t ++ c :: rest) base res rv = Some (r, rv') ∧ 2 ^ 31 ≤ rv' < 2 ^ 32.
Proof.
  induction t as [|d t IH]; intros fuel res rv Ht Hf Hr Hv Hrv Hlt; (destruct fuel as [|fuel]; [simpl in Hf; lia|]).
  { unfold value_from in Hv. simpl in Hv. lia. }
  cbn [app]. pose proof (Forall_inv (digits_chars _ Ht)) as Hd. apply Forall_cons in Ht as [(v & Hdv & Hvb) Ht]. cbn [length] in *.
  assert (Hval : value_from base res (d :: t) = value_from base (res * base + v) t).
  { unfold value_from. cbn [foldl]. unfold dval. by rewrite Hdv. }
  rewrite Hval in Hv. pose proof (digit_range _ _ Hdv) as [Hv16 _]. rewrite (parse_step fuel d _ res rv v) by (done || nia).
  destruct (Z.leb_spec (2 ^ 64) (res * base + v)) as [Hbig|Hsmall].
  - assert (Hl : Z.lor rv KSTRTOX_OVERFLOW = rv + 2 ^ 31).
    { unfold KSTRTOX_OVERFLOW. rewrite <-(Z.mul_1_l (2 ^ 31)). apply lor_disjoint_add; lia. }
    rewrite Hl. autorewrite with machine. apply parse_flagged; [done|lia|auto with machine|lia|lia].
  - rewrite u64_small, u32_small by nia. apply IH; [done|lia|nia|done|lia|lia].
Qed.

(** ** [_kstrtoull] after the radix has been settled *)

(** The text after the number is nothing or one newline. *)
Definition clean_end : bool := bool_decide (c = 0 ∨ c = 10 ∧ rest !! O = Some 0).
Definition read_ull (t : list Z) : Z * option Z :=
  if decide (t = []) then (- EINVAL, None)
  else if 2 ^ 64 <=? value base t then (- ERANGE, None)
  else if clean_end then (0, Some (value base t)) else (- EINVAL, None).

Lemma kstrtoull_tail (r : Z) : 0 ∈ c :: rest →
  (d ← rd (c :: rest) 0; e ← rd (if d =? 10 then tail (c :: rest) else c :: rest) 0;
   Some (if negb (e =? 0) then (- EINVAL, @None Z) else (0, Some r))) = Some (if clean_end then (0, Some r) else (- EINVAL, None)).
Proof.
  intros H0. rewrite rd_head. cbn [mbind option_bind tail]. unfold clean_end. destruct (Z.eqb_spec c 10) as [->|Hn10].
  - destruct rest as [|d rest']; [apply list_elem_of_singleton in H0; lia|]. rewrite rd_head. cbn [mbind option_bind].
    destruct (Z.eqb_spec d 0) as [->|Hd0]; cbn [negb].
    + by rewrite bool_decide_true by (by right).
    + rewrite bool_decide_false; [done|]. intros [?|[_ [= ?]]]; done.
  - rewrite rd_head. cbn [mbind option_bind]. destruct (Z.eqb_spec c 0) as [->|Hc0]; cbn [negb].
    + by rewrite bool_decide_true by (by left).
    + by rewrite bool_decide_false by (intros [?|[? _]]; done).
Qed.

Lemma kstrtoull_body req p t :
  Forall (digit_of base) t → Z.of_nat (length t) < 2 ^ 31 → 0 ∈ c :: rest →
  _parse_integer_fixup_radix (p ++ t ++ c :: rest) req = Some (base, length p) →
  _kstrtoull (p ++ t ++ c :: rest) req = Some (read_ull t).
Proof.
  intros Ht Hlen H0 Hfix. unfold _kstrtoull, read_ull. rewrite Hfix. cbn [mbind option_bind]. cbv zeta. rewrite drop_app_length.
  unfold _parse_integer. destruct (decide (t = [])) as [->|Hne]; [cbn [app]; by rewrite parse_stop|].
  destruct (Z.leb_spec (2 ^ 64) (value base t)) as [Hbig|Hfit].
  - destruct (parse_overflows t (S (length (t ++ c :: rest))) 0 0) as (r & rv & Hrun & Hrv);
      [done|rewrite length_app; simpl; lia|lia|done|lia|lia|].
    rewrite Hrun. cbn [mbind option_bind]. by rewrite (proj1 (overflow_bit_set rv Hrv)).
  - rewrite (parse_fits t) by (try done; rewrite ?length_app; simpl; lia). cbn [mbind option_bind]. rewrite Z.add_0_l.
    rewrite overflow_bit_clear by lia. cbn [Z.eqb negb]. rewrite (proj2 (Z.eqb_neq _ _)) by (destruct t; [done|simpl; lia]).
    rewrite Nat2Z.id, drop_app_length. by apply kstrtoull_tail.
Qed.
End loop.

(** ** The radix *)

Definition is_x (c : Z) : Prop := c = 120 ∨ c = 88.
#[local] Instance is_x_dec c : Decision (is_x c).
Proof. unfold is_x. apply _. Defined.
Definition tolower_x_eq (c : Z) : bool := Bool.eqb (_tolower c =? 120) (bool_decide (is_x c)).
Lemma tolower_x c : is_char c → (_tolower c =? 120) = bool_decide (is_x c).
Proof. intros Hc. apply eqb_prop. by apply (all_chars tolower_x_eq ltac:(vm_compute; reflexivity)). Qed.

(** [radix req base p t]: asked for base [req] (0: to be found out), the number
    with the prefix [p] and the digits [t] is read in base [base]. *)
Inductive radix : Z → Z → list Z → list Z → Prop :=
  | radix_given base t : 2 ≤ base ≤ 16 → radix base base [] t
  | radix_hex x t : is_x x → radix 16 16 [48; x] t
  | radix_auto_hex x t : is_x x → t ≠ [] → radix 0 16 [48; x] t
  | radix_auto_oct t : radix 0 8 [] (48 :: t)
  | radix_auto_dec t : t !! O ≠ Some 48 → radix 0 10 [] t.

Lemma radix_base req base p t : radix req base p t → 2 ≤ base ≤ 16.
Proof. destruct 1; lia. Qed.

Lemma digit_not_x base d : digit_of base d → ¬ is_x d.
Proof. intros (v & Hv & _) [-> | ->]; discriminate. Qed.
Lemma zero_digit base : 1 ≤ base → digit_of base 48.
Proof. exists 0. split; [done|lia]. Qed.

Section fixup.
Context (base c : Z) (rest : list Z) (Hbase : 2 ≤ base) (Hc : is_char c) (Hx : ¬ is_x c) (Hstop : ¬ digit_of base c).

(** After a leading zero there is no [x]. *)
Lemma zero_next t : Forall (digit_of base) (48 :: t) →
  ∃ d, rd (48 :: t ++ c :: rest) 1 = Some d ∧ (_tolower d =? 120) = false.
Proof.
  intros Ht. apply Forall_cons in Ht as [_ Ht]. destruct t as [|d t]; simpl.
  - exists c. split; [done|]. rewrite tolower_x by done. by apply bool_decide_false.
  - exists d. split; [done|]. apply Forall_cons in Ht as [Hd _]. rewrite tolower_x.
    + apply bool_decide_false. by eapply digit_not_x.
    + destruct Hd as (v & Hv & _). apply digit_range in Hv. unfold is_char. lia.
Qed.

Lemma first_char t : Forall (digit_of base) t → ∃ d, rd (t ++ c :: rest) 0 = Some d ∧ (d = 48 ↔ t !! O = Some 48).
Proof.
  intros Ht. destruct t as [|d t]; [exists c|exists d]; split; try done; simpl; split; intros H; simplify_eq; try done.
  exfalso. apply Hstop, zero_digit. lia.
Qed.
End fixup.

Lemma fixup_radix_ok req base p t c rest :
  radix req base p t → Forall (digit_of base) t → is_char c → ¬ is_x c → ¬ digit_of base c →
  _parse_integer_fixup_radix (p ++ t ++ c :: rest) req = Some (base, length p).
Proof.
  intros Hr Ht Hc Hx Hstop. pose proof (radix_base _ _ _ _ Hr) as Hb. pose proof (first_char base c rest ltac:(lia) Hc Hx Hstop t Ht) as (d & Hd & H48).
  unfold _parse_integer_fixup_radix. destruct Hr as [base t Hb'|x t Hxx|x t Hxx Hne|t|t Hz]; cbn [app length].
  - rewrite (proj2 (Z.eqb_neq _ _)) by lia. cbn [mbind option_bind]. destruct (Z.eqb_spec base 16) as [->|]; [|done].
    rewrite Hd. cbn [mbind option_bind]. destruct (Z.eqb_spec d 48) as [->|]; [|done].
    destruct t as [|d' t]; [by pose proof (proj1 H48 eq_refl)|]. simpl in Hd. injection Hd as ->.
    destruct (zero_next 16 c rest Hc Hx t Ht) as (e & He & Hf). cbn [app]. rewrite He. cbn [mbind option_bind]. by rewrite Hf.
  - cbn. assert (_tolower x =? 120 = true) as ->; [|done]. by destruct Hxx as [-> | ->].
  - destruct t as [|e t]; [done|]. apply Forall_cons in Ht as [He _]. cbn. assert (_tolower x =? 120 = true) as ->; [by destruct Hxx as [-> | ->]|].
    cbn [mbind option_bind]. rewrite isxdigit_ok; [unfold has_digit; by destruct He as (v & -> & _)|].
    destruct He as (v & Hv & _). apply digit_range in Hv. unfold is_char. lia.
  - destruct (zero_next 8 c rest Hc Hx t Ht) as (e & He & Hf). rewrite rd_head. cbn [mbind option_bind Z.eqb Pos.eqb]. 
    rewrite He. cbn [mbind option_bind]. by rewrite Hf.
  - cbn [Z.eqb]. rewrite Hd. cbn [mbind option_bind]. rewrite (proj2 (Z.eqb_neq _ _)) by naive_solver. done.
Qed.

(** ** The conversions *)

Inductive sign := Plain | Plus | Minus.
Definition sign_chars (sg : sign) : list Z := match sg with Plain => [] | Plus => [43] | Minus => [45] end.
Definition signed (sg : sign) (v : Z) : Z := match sg with Minus => - v | _ => v end.

(** The result of reading the digits [t], followed by [c :: rest], for a type
    with the range [lo..hi]: too long a number is refused before the text after
    it is looked at, and the range of the type is tested last. *)
Definition read (base lo hi : Z) (sg : sign) (t : list Z) (c : Z) (rest : list Z) : Z * option Z :=
  if decide (t = []) then (- EINVAL, None)
  else if 2 ^ 64 <=? value base t then (- ERANGE, None)
  else if clean_end c rest then
    if (lo <=? signed sg (value base t)) && (signed sg (value base t) <=? hi) then (0, Some (signed sg (value base t)))
    else (- ERANGE, None)
  else (- EINVAL, None).

(** Unsigned conversions refuse a minus sign. *)
Definition uread (base hi : Z) (sg : sign) (t : list Z) (c : Z) (rest : list Z) : Z * option Z :=
  match sg with Minus => (- EINVAL, None) | _ => read base 0 hi sg t c rest end.

(** A cast keeps exactly the values of the type. *)
Definition cast_range (conv : Z → Z) (lo hi : Z) : Prop := ∀ z, (z = conv z ↔ lo ≤ z ≤ hi).
Lemma unsigned_range n : 0 ≤ n → cast_range (λ z, z mod 2 ^ n) 0 (2 ^ n - 1).
Proof.
  intros Hn z. pose proof (Z.pow_pos_nonneg 2 n ltac:(lia) Hn). split; intros H1; [|rewrite Z.mod_small; lia].
  pose proof (Z.mod_pos_bound z (2 ^ n)). lia.
Qed.
Lemma signed_range n : 0 ≤ n → cast_range (λ z, (z + 2 ^ n) mod 2 ^ (n + 1) - 2 ^ n) (- 2 ^ n) (2 ^ n - 1).
Proof.
  intros Hn z. rewrite Z.pow_add_r by lia. pose proof (Z.pow_pos_nonneg 2 n ltac:(lia) Hn).
  split; intros H1; [|rewrite Z.mod_small; lia]. pose proof (Z.mod_pos_bound (z + 2 ^ n) (2 ^ n * 2 ^ 1)). lia.
Qed.

Lemma casts_exact :
  (cast_range u64 0 (2 ^ 64 - 1) ∧ cast_range u32 0 (2 ^ 32 - 1) ∧ cast_range u16 0 (2 ^ 16 - 1) ∧ cast_range u8 0 (2 ^ 8 - 1)) ∧
  cast_range s64 (- 2 ^ 63) (2 ^ 63 - 1) ∧ cast_range s32 (- 2 ^ 31) (2 ^ 31 - 1) ∧ cast_range s16 (- 2 ^ 15) (2 ^ 15 - 1) ∧
  cast_range s8 (- 2 ^ 7) (2 ^ 7 - 1).
Proof.
  split; [split; [exact (unsigned_range 64 ltac:(lia))|]|].
  - split; [exact (unsigned_range 32 ltac:(lia))|]. split; [exact (unsigned_range 16 ltac:(lia))|exact (unsigned_range 8 ltac:(lia))].
  - split; [exact (signed_range 63 ltac:(lia))|]. split; [exact (signed_range 31 ltac:(lia))|].
    split; [exact (signed_range 15 ltac:(lia))|exact (signed_range 7 ltac:(lia))].
Qed.

Lemma narrow_read base lo hi lo' hi' conv sg t c rest :
  cast_range conv lo' hi' → lo ≤ lo' → hi' ≤ hi →
  narrow conv (Some (read base lo hi sg t c rest)) = Some (read base lo' hi' sg t c rest).
Proof.
  intros Hcast Hlo Hhi. unfold narrow, read. cbn [mbind option_bind]. destruct (decide _); [done|]. destruct (_ <=? value _ _); [done|].
  destruct (clean_end _ _); [|done]. set (z := signed _ _). specialize (Hcast z).
  destruct (Z.leb_spec lo z), (Z.leb_spec z hi), (Z.leb_spec lo' z), (Z.leb_spec z hi'); cbn [andb]; try lia; try done;
    destruct (Z.eqb_spec z (conv z)) as [Heq|Hne]; cbn [negb]; try done; first [by rewrite <-Heq|exfalso; lia].
Qed.

(** A number in a text that goes on with [c :: rest]. *)
Record number (req base : Z) (p t : list Z) (c : Z) (rest : list Z) : Prop := {
  num_radix : radix req base p t;
  num_digits : Forall (digit_of base) t;
  num_length : Z.of_nat (length t) < 2 ^ 31;
  num_char : is_char c;
  num_not_x : ¬ is_x c;
  num_stop : ¬ digit_of base c;
  num_sign : p ++ t = [] → c ≠ 43 ∧ c ≠ 45;
  num_end : 0 ∈ c :: rest;
}.

Section conversions.
Context (req base : Z) (p t : list Z) (c : Z) (rest : list Z) (Hnum : number req base p t c rest).

Lemma kstrtoull_unsigned : _kstrtoull (p ++ t ++ c :: rest) req = Some (read_ull base c rest t).
Proof. destruct Hnum. apply kstrtoull_body; try done; [by eapply radix_base|by apply fixup_radix_ok]. Qed.

Lemma number_first : ∃ d s, p ++ t ++ c :: rest = d :: s ∧ d ≠ 43 ∧ d ≠ 45.
Proof.
  destruct Hnum as [Hr Hd _ _ _ _ Hs _]. destruct p as [|d p']; [destruct t as [|d t']|].
  - exists c, rest. split; [done|by apply Hs].
  - exists d, (t' ++ c :: rest). split; [done|]. apply Forall_cons in Hd as [(v & Hv & _) _]. apply digit_range in Hv. lia.
  - exists d, (p' ++ t ++ c :: rest). split; [done|]. inversion Hr; subst; lia.
Qed.

(** A sign where a digit should be. *)
Lemma kstrtoull_minus s : 0 ∈ s → _kstrtoull (45 :: s) req = Some (- EINVAL, None).
Proof.
  intros H0. destruct Hnum as [Hr _ _ _ _ _ _ _].
  assert (∃ b, radix req b [] [] ∧ 2 ≤ b ≤ 16) as (b & Hb & Hb16).
  { destruct Hr; eexists; (split; [first [by apply radix_given|by apply radix_auto_dec]|lia]). }
  assert (¬ digit_of b 45) by (intros (v & Hv & _); discriminate). assert (is_char 45) by (unfold is_char; lia).
  assert (¬ is_x 45) by (unfold is_x; lia).
  apply (kstrtoull_body b Hb16 45 s ltac:(done) ltac:(done) req [] []); [done..|by apply elem_of_cons; right|by apply fixup_radix_ok].
Qed.

Lemma read_ull_read sg : sg ≠ Minus → read_ull base c rest t = read base 0 (2 ^ 64 - 1) sg t c rest.
Proof.
  intros Hsg. unfold read_ull, read. assert (signed sg (value base t) = value base t) as -> by (by destruct sg).
  destruct (decide _); [done|]. destruct (Z.leb_spec (2 ^ 64) (value base t)); [done|]. destruct (clean_end _ _); [|done].
  destruct Hnum as [Hr Hd _ _ _ _ _ _]. apply radix_base in Hr.
  pose proof (value_from_le base 0 t ltac:(lia) ltac:(lia) Hd) as Hle. change (value_from base 0 t) with (value base t) in Hle.
  by rewrite !(proj2 (Z.leb_le _ _)) by lia.
Qed.

Lemma kstrtoull_read sg : kstrtoull (sign_chars sg ++ p ++ t ++ c :: rest) req = Some (uread base (2 ^ 64 - 1) sg t c rest).
Proof.
  destruct sg; unfold kstrtoull, sign_chars, uread; cbn [app].
  - destruct number_first as (d & s & Heq & Hd1 & Hd2). rewrite Heq, rd_head. cbn [mbind option_bind].
    rewrite (proj2 (Z.eqb_neq _ _)) by done. rewrite <-Heq, kstrtoull_unsigned. f_equal. by apply read_ull_read.
  - rewrite rd_head. cbn [mbind option_bind Z.eqb Pos.eqb tail]. rewrite kstrtoull_unsigned. f_equal. by apply read_ull_read.
  - rewrite rd_head. cbn [mbind option_bind Z.eqb Pos.eqb tail]. apply kstrtoull_minus. destruct Hnum. rewrite !elem_of_app. by right; right.
Qed.

Lemma kstrtoll_read sg : kstrtoll (sign_chars sg ++ p ++ t ++ c :: rest) req = Some (read base (- 2 ^ 63) (2 ^ 63 - 1) sg t c rest).
Proof.
  assert (Hpos : 0 ≤ value base t).
  { destruct Hnum as [Hr Hd _ _ _ _ _ _]. apply radix_base in Hr. apply (value_from_le base 0 t); [lia..|done]. }
  assert (Hplain : sg ≠ Minus → kstrtoll (sign_chars sg ++ p ++ t ++ c :: rest) req =
    Some (read base (- 2 ^ 63) (2 ^ 63 - 1) sg t c rest)).
  { intros Hsg. unfold kstrtoll. assert (∃ d s, sign_chars sg ++ p ++ t ++ c :: rest = d :: s ∧ d ≠ 45) as (d & s & Heq & Hd).
    { destruct number_first as (d & s & Heq & Hd1 & Hd2). destruct sg; [exists d, s|eexists 43, _|]; naive_solver. }
    pose proof (kstrtoull_read sg) as Hull. rewrite Heq in *. rewrite rd_head. cbn [mbind option_bind].
    rewrite (proj2 (Z.eqb_neq _ _)) by done. rewrite Hull. cbn [mbind option_bind].
    assert (uread base (2 ^ 64 - 1) sg t c rest = read base 0 (2 ^ 64 - 1) sg t c rest) as -> by (by destruct sg).
    unfold read. assert (signed sg (value base t) = value base t) as -> by (by destruct sg).
    destruct (decide _); [done|]. destruct (Z.leb_spec (2 ^ 64) (value base t)); [done|]. destruct (clean_end _ _); [|done].
    rewrite !(proj2 (Z.leb_le _ _)) by lia. cbn [andb]. unfold s64.
    destruct (Z.leb_spec (value base t) (2 ^ 63 - 1)).
    - rewrite Z.mod_small by lia. rewrite (proj2 (Z.ltb_ge _ _)) by lia. f_equal. f_equal. f_equal. lia.
    - assert ((value base t + 2 ^ 63) mod 2 ^ 64 = value base t - 2 ^ 63) as ->.
      { symmetry. apply (Z.mod_unique _ _ 1); lia. }
      by rewrite (proj2 (Z.ltb_lt _ _)) by lia. }
  destruct sg; [by apply Hplain..|]. clear Hplain. unfold kstrtoll, sign_chars. cbn [app]. rewrite rd_head.
  cbn [mbind option_bind Z.eqb Pos.eqb tail]. rewrite kstrtoull_unsigned. cbn [mbind option_bind]. unfold read_ull, read.
  destruct (decide _); [done|]. destruct (Z.leb_spec (2 ^ 64) (value base t)); [done|]. destruct (clean_end _ _); [|done].
  cbn [signed]. unfold s64. rewrite (proj2 (Z.leb_le (- value base t) _)) by lia. rewrite andb_true_r.
  destruct (Z.leb_spec (- 2 ^ 63) (- value base t)).
  - rewrite Z.mod_small by lia. rewrite Z.gtb_ltb, (proj2 (Z.ltb_ge _ _)) by lia. f_equal. f_equal. f_equal. lia.
  - assert ((- value base t + 2 ^ 63) mod 2 ^ 64 = - value base t + 2 ^ 63 + 2 ^ 64) as ->.
    { symmetry. apply (Z.mod_unique _ _ (-1)); lia. }
    by rewrite Z.gtb_ltb, (proj2 (Z.ltb_lt _ _)) by lia.
Qed.
End conversions.

(** ** Printed numbers *)

Definition show_digit (v : Z) : Z := if v <? 10 then 48 + v else 87 + v.
Fixpoint show_fuel (fuel : nat) (base n : Z) : list Z :=
  match fuel with
  | O => []
  | S fuel => (if n <? base then [] else show_fuel fuel base (n / base)) ++ [show_digit (n mod base)]
  end.
Definition show (base n : Z) : list Z := show_fuel (S (Z.to_nat (Z.log2 n))) base n.

Lemma digit_show v : 0 ≤ v < 16 → digit (show_digit v) = Some v.
Proof.
  intros H. apply (bool_decide_eq_true_1 _).
  assert (Hall : forallb (λ v, bool_decide (digit (show_digit v) = Some v)) (seqZ 0 16) = true) by (vm_compute; reflexivity).
  rewrite forallb_forall in Hall. apply (Hall v), list_elem_of_In, elem_of_seqZ. lia.
Qed.

Section show.
Context (base : Z) (Hbase : 2 ≤ base ≤ 16).

Lemma show_fuel_ok fuel : ∀ n, 0 ≤ n < 2 ^ Z.of_nat fuel →
  Forall (digit_of base) (show_fuel fuel base n) ∧ value base (show_fuel fuel base n) = n ∧
  (length (show_fuel fuel base n) ≤ fuel)%nat ∧ (0 < n → show_fuel fuel base n !! O ≠ Some 48).
Proof.
  induction fuel as [|fuel IH]; intros n Hn; [simpl in *; split; [constructor|]; split; [unfold value; simpl; lia|split; [lia|done]]|].
  rewrite Nat2Z.inj_succ, Z.pow_succ_r in Hn by lia. cbn [show_fuel].
  pose proof (Z.mod_pos_bound n base ltac:(lia)) as Hm. pose proof (digit_show (n mod base) ltac:(lia)) as Hd.
  assert (Hdig : digit_of base (show_digit (n mod base))) by (exists (n mod base); split; [done|lia]).
  destruct (Z.ltb_spec n base) as [Hlt|Hge]; cbn [app].
  - rewrite Z.mod_small in * by lia. split; [by constructor|]. split; [unfold value, dval; simpl; by rewrite Hd|]. split; [simpl; lia|].
    intros Hpos. simpl. intros [= H48]. rewrite H48 in Hd. cbn in Hd. injection Hd as <-. lia.
  - destruct (IH (n / base)) as (Hf & Hv & Hl & Hh).
    { split; [apply Z.div_pos; lia|]. apply Z.div_lt_upper_bound; nia. }
    split; [apply Forall_app; split; [done|by constructor]|]. split; [|split; [rewrite length_app; simpl; lia|]].
    + unfold value. rewrite foldl_app. fold (value base (show_fuel fuel base (n / base))). rewrite Hv. cbn [foldl]. unfold dval.
      rewrite Hd. simpl. rewrite Z.mul_comm. symmetry. apply Z.div_mod. lia.
    + intros _. specialize (Hh ltac:(apply Z.div_str_pos; lia)). destruct (show_fuel fuel base (n / base)) as [|d l] eqn:E; [|done].
      unfold value in Hv. simpl in Hv. pose proof (Z.div_str_pos n base). lia.
Qed.

Lemma show_ok n : 0 ≤ n → Z.log2 n < 2 ^ 30 →
  Forall (digit_of base) (show base n) ∧ value base (show base n) = n ∧ show base n ≠ [] ∧
  Z.of_nat (length (show base n)) ≤ 2 ^ 30 ∧ (0 < n → show base n !! O ≠ Some 48).
Proof.
  intros Hn Hlog. pose proof (Z.log2_nonneg n) as Hl0. destruct (show_fuel_ok (S (Z.to_nat (Z.log2 n))) n) as (Hf & Hv & Hl & Hh).
  { rewrite Nat2Z.inj_succ, Z2Nat.id by done. split; [done|]. destruct (decide (n = 0)) as [->|]; [done|]. apply Z.log2_spec. lia. }
  fold (show base n) in *. repeat (split; [done|]). split; [|split; [lia|done]].
  unfold show. cbn [show_fuel]. by destruct (if _ <? _ then _ else _).
Qed.
End show.

Definition sign_of (z : Z) : sign := if z <? 0 then Minus else Plain.
Definition show_int (base z : Z) : list Z := sign_chars (sign_of z) ++ show base (Z.abs z).
(** With the prefix by which C tells the base. *)
Definition prefix (base : Z) : list Z := if base =? 16 then [48; 120] else if base =? 8 then [48] else [].
Definition show_c (base z : Z) : list Z := sign_chars (sign_of z) ++ prefix base ++ show base (Z.abs z).
Definition fit (lo hi z : Z) : Z * option Z := if (lo <=? z) && (z <=? hi) then (0, Some z) else (- ERANGE, None).

Lemma signed_abs z : signed (sign_of z) (Z.abs z) = z.
Proof. unfold sign_of. destruct (Z.ltb_spec z 0); simpl; lia. Qed.

Lemma read_fit base lo hi z t :
  t ≠ [] → value base t = Z.abs z → - 2 ^ 64 < lo → hi < 2 ^ 64 → read base lo hi (sign_of z) t 0 [] = fit lo hi z.
Proof.
  intros Hne Hv Hlo Hhi. unfold read, fit. rewrite decide_False by done. rewrite Hv, signed_abs.
  destruct (Z.leb_spec (2 ^ 64) (Z.abs z)) as [Hbig|]; [|done].
  destruct (Z.leb_spec lo z), (Z.leb_spec z hi); cbn [andb]; try done. lia.
Qed.

Lemma number_shown req base p t : radix req base p t → Forall (digit_of base) t → Z.of_nat (length t) ≤ 2 ^ 30 + 1 → number req base p t 0 [].
Proof.
  intros. constructor; try done; [lia|unfold is_char, is_x; lia..| |by constructor]. intros (v & Hv & _). discriminate.
Qed.

Lemma show_number base z : 2 ≤ base ≤ 16 → Z.log2 (Z.abs z) < 2 ^ 30 → number base base [] (show base (Z.abs z)) 0 [].
Proof.
  intros Hb Hl. destruct (show_ok base Hb (Z.abs z)) as (Hf & _ & _ & Hlen & _); [lia|done|].
  apply number_shown; [by constructor|done|lia].
Qed.

Lemma show_c_number base z : base = 8 ∨ base = 10 ∨ base = 16 → Z.log2 (Z.abs z) < 2 ^ 30 →
  ∃ b p t, prefix base ++ show base (Z.abs z) = p ++ t ∧ number 0 b p t 0 [] ∧ t ≠ [] ∧ value b t = Z.abs z.
Proof.
  intros Hb Hl. assert (2 ≤ base ≤ 16) as Hb' by lia. destruct (show_ok base Hb' (Z.abs z)) as (Hf & Hv & Hne & Hlen & H48); [lia|done|].
  destruct Hb as [-> |[-> | ->]].
  - exists 8, [], (48 :: show 8 (Z.abs z)). split; [done|]. split; [|split; [done|unfold value in *; simpl; exact Hv]].
    apply number_shown; [by constructor|constructor; [apply zero_digit; lia|done]|simpl; lia].
  - destruct (decide (z = 0)) as [->|Hz].
    + exists 8, [], [48]. split; [done|]. split; [|split; done]. apply number_shown; [by constructor| |simpl; lia].
      constructor; [apply zero_digit; lia|constructor].
    + exists 10, [], (show 10 (Z.abs z)). split; [done|]. split; [|done]. apply number_shown; [|done|lia].
      apply radix_auto_dec, H48. lia.
  - exists 16, [48; 120], (show 16 (Z.abs z)). split; [done|]. split; [|done]. apply number_shown; [|done|lia].
    apply radix_auto_hex; [by left|done].
Qed.


(** Round trip: an integer printed in base 2 to 16 is read back by every
    conversion whose type can hold it, and refused with [-ERANGE] by the
    others; printed with the prefix of C (octal, decimal or hexadecimal) it is
    read back without telling the base. *)
Theorem kstrtox_roundtrip z :
  Z.log2 (Z.abs z) < 2 ^ 30 →
  (∀ base, 2 ≤ base ≤ 16 → let s := show_int base z ++ [0] in
     kstrtoll s base = Some (fit (- 2 ^ 63) (2 ^ 63 - 1) z) ∧ kstrtoint s base = Some (fit (- 2 ^ 31) (2 ^ 31 - 1) z) ∧
     kstrtos16 s base = Some (fit (- 2 ^ 15) (2 ^ 15 - 1) z) ∧ kstrtos8 s base = Some (fit (- 2 ^ 7) (2 ^ 7 - 1) z) ∧
     (0 ≤ z → kstrtoull s base = Some (fit 0 (2 ^ 64 - 1) z))) ∧
  (∀ base, base = 8 ∨ base = 10 ∨ base = 16 → kstrtoll (show_c base z ++ [0]) 0 = Some (fit (- 2 ^ 63) (2 ^ 63 - 1) z)).
Proof.
  intros Hlog. split; intros base Hb.
  - pose proof (show_number base z Hb Hlog) as Hnum. destruct (show_ok base Hb (Z.abs z)) as (_ & Hv & Hne & _ & _); [lia|done|].
    intros s. assert (Hs : s = sign_chars (sign_of z) ++ [] ++ show base (Z.abs z) ++ [0]) by (unfold s, show_int; by rewrite <-app_assoc).
    unfold kstrtoint, kstrtos16, kstrtos8. rewrite Hs, (kstrtoll_read _ _ _ _ _ _ Hnum).
    destruct casts_exact as [_ (S64 & S32 & S16 & S8)].
    rewrite !(narrow_read _ _ _ (- 2 ^ 31) (2 ^ 31 - 1)), !(narrow_read _ _ _ (- 2 ^ 15) (2 ^ 15 - 1)),
      !(narrow_read _ _ _ (- 2 ^ 7) (2 ^ 7 - 1)), !read_fit by (first [done|lia]).
    repeat (split; [done|]). intros Hpos. rewrite (kstrtoull_read _ _ _ _ _ _ Hnum). unfold uread.
    assert (sign_of z = Plain) as HP by (unfold sign_of; by destruct (Z.ltb_spec z 0); [lia|]).
    pose proof (read_fit base 0 (2 ^ 64 - 1) z _ Hne Hv ltac:(lia) ltac:(lia)) as Hf. rewrite HP in *. by rewrite Hf.
  - destruct (show_c_number base z Hb Hlog) as (b & p & t & Heq & Hnum & Hne & Hv).
    assert (Hs : show_c base z ++ [0] = sign_chars (sign_of z) ++ p ++ t ++ [0]).
    { unfold show_c. by rewrite <-!app_assoc, (app_assoc (prefix base)), Heq, <-app_assoc. }
    rewrite Hs, (kstrtoll_read _ _ _ _ _ _ Hnum). by rewrite read_fit by (done || lia).
Qed.

(** ** Witnesses *)
Module KstrtoxExample.


(** 300 fits a short and not a byte. *)
Lemma kstrtox_roundtrip_witness :
  kstrtos16 (show_int 10 300 ++ [0]) 10 = Some (0, Some 300) ∧ kstrtos8 (show_int 10 300 ++ [0]) 10 = Some (- ERANGE, None).
Proof.
  assert (Hl : Z.log2 (Z.abs 300) < 2 ^ 30) by reflexivity.
  destruct (kstrtox_roundtrip 300 Hl) as [H _]. specialize (H 10 ltac:(lia)) as (_ & _ & H16 & H8 & _).
  split; [exact H16|exact H8].
Defined.
End KstrtoxExample.
