(* ===== verification/PageSource.v ===== *)
(** * Single pages for the rest of the kernel

    What the page allocator promises to the code that takes single pages
    ([alloc_page], [put_page] and [__free_page] of [minix_rt/gfp.h] and
    [minix_rt/mm.h]): a class of operations, its laws, and the instance that
    the model of [page_alloc.c] provides. *)
From stdpp Require Import functions gmap.
From S2P Require Import Prelude PageAlloc PageAllocFacts PageAllocBuddy PageAllocPcp PageAllocOps PageAllocSpec.

(** ** Reference counting ([minix_rt/mm.h]) *)

Definition __put_page (cpu : nat) (p : Z) : K unit :=
  let! pg := get_page p in
  if PageCompound pg then free_compound_page p else free_unref_page cpu p.

Definition mm_put_page (cpu : nat) (p : Z) : K unit :=
  let! pg := get_page p in
  let p := compound_head p pg in
  let! zero := put_page_testzero p in
  if zero : bool then __put_page cpu p else kret tt.

(** ** The interface *)

Class PageSource (A : Type) := {
  (** [alloc_page(GFP_USER | GFP_ZERO)]; [None] outside is a [BUG_ON] *)
  alloc_page : A → option (option Z * A);
  (** [put_page], and [__free_page] *)
  put_page : Z → A → option A;
  __free_page : Z → A → option A;
  (** [pfn_valid] *)
  page_valid : A → Z → bool;
  (** the state is good; the pages that have been handed out *)
  source_ok : A → Prop;
  handed_out : A → Z → Prop }.

Definition returned `{PageSource A} (a : A) (p : Z) (a' : A) : Prop :=
  source_ok a' ∧ ∀ q, handed_out a' q ↔ handed_out a q ∧ q ≠ p.

Class PageSourceLaws (A : Type) `{PageSource A} : Prop := {
  (** a page that nobody has, or none *)
  alloc_page_ok a : source_ok a →
    ∃ r a', alloc_page a = Some (r, a') ∧ source_ok a' ∧
      match r with
      | Some p => ¬ handed_out a p ∧ ∀ q, handed_out a' q ↔ handed_out a q ∨ q = p
      | None => ∀ q, handed_out a' q ↔ handed_out a q
      end;
  put_page_ok a p : source_ok a → handed_out a p → ∃ a', put_page p a = Some a' ∧ returned a p a';
  free_page_ok a p : source_ok a → handed_out a p → ∃ a', __free_page p a = Some a' ∧ returned a p a' }.

(** ** The page allocator as a source *)

Section allocator.
Context (cpus : list nat) (me : nat).

(** The node, and the blocks that are in use. *)
Definition page_state : Type := node * gmap Z (nat * nat).

Definition GFP_USER_ZERO : Z := Z.lor (2 ^ 6) (2 ^ 3).

Definition node_alloc_page (a : page_state) : option (option Z * page_state) :=
  '(r, nd, live) ← serve_one cpus (ReqAlloc me GFP_USER_ZERO 0) a.1 a.2; Some (r, (nd, live)).
Definition node_put_page (p : Z) (a : page_state) : option page_state :=
  '(_, nd) ← mm_put_page me p a.1; Some (nd, delete p a.2).
Definition node_free_page (p : Z) (a : page_state) : option page_state :=
  '(_, nd) ← __free_pages me p 0 a.1; Some (nd, delete p a.2).

#[local] Instance node_source : PageSource page_state := {
  alloc_page := node_alloc_page;
  put_page := node_put_page;
  __free_page := node_free_page;
  page_valid a p := bool_decide (is_Some (mem_map a.1 !! p));
  source_ok a := ∃ owned, refines owned a.1 a.2;
  handed_out a p := ∃ zi, a.2 !! p = Some (zi, O) }.

(** A single page with a reference is released by [put_page] as by [__free_pages]. *)
Lemma mm_put_page_single nd zi r p : held nd zi 0 r p → mm_put_page me p nd = __free_pages me p 0 nd.
Proof.
  intros [_ _ (pg & Hp & Hfl & _ & _ & Hr & Ht) _ _].
  unfold mm_put_page, __free_pages, put_page_testzero, get_page, upd_page, compound_head, kbind, kret. rewrite Hp.
  cbn [mbind option_bind]. rewrite Ht. cbn [default]. change (id p) with p. rewrite Hp. cbn [mbind option_bind].
  destruct (BUG_ON (pg_refcount pg =? 0) nd) as [[[] nd1]|] eqn:Hb; [|done]. cbn [mbind option_bind].
  assert (nd1 = nd) as -> by (unfold BUG_ON in Hb; destruct (_ =? _); [done|by injection Hb]).
  rewrite Hp. cbn [mbind option_bind]. destruct (s32 _ =? 0); [|done].
  unfold __put_page, free_the_page, kbind, get_page. cbn [mem_map]. rewrite lookup_insert_eq. cbn [mbind option_bind].
  rewrite decide_True by done. assert (PageCompound (set_page_count (s32 (pg_refcount pg - 1)) pg) = false) as ->; [|done].
  unfold PageCompound, PageHead, PageTail. cbn. by rewrite Hfl, Ht.
Qed.

Lemma node_returned owned a p zi : refines owned a.1 a.2 → a.2 !! p = Some (zi, O) →
  ∃ nd, __free_pages me p 0 a.1 = Some (tt, nd) ∧ returned a p (nd, delete p a.2).
Proof.
  intros HR Hl. destruct (free_pages_last zi a.1 me 0 p) as (nd & Hrun & Hg); [apply HR|apply HR|by apply (rf_held _ _ _ HR)| |].
  { intros q Hq. by eapply held_not_avail. }
  exists nd. split; [done|]. split; [exists owned; by eapply refines_free|].
  intros q. unfold handed_out. cbn. setoid_rewrite lookup_delete_Some. naive_solver.
Qed.

#[local] Instance node_source_laws : PageSourceLaws page_state.
Proof.
  split.
  - intros a [owned HR]. destruct (serve_one_run owned cpus (ReqAlloc me GFP_USER_ZERO 0) a.1 a.2 HR) as (r & nd & live & Hrun & HR' & Hst).
    exists r, (nd, live). cbn [alloc_page node_source]. unfold node_alloc_page. rewrite Hrun. split; [done|]. split; [by exists owned|].
    destruct r as [p|]; cbn [spec_step] in Hst.
    + destruct Hst as (_ & _ & -> & Hfree). destruct (Hfree p (inb_self _ _)) as [_ Hn]. unfold handed_out. cbn. split.
      * intros [zi Hz]. by eapply Hn, inb_self.
      * intros q. setoid_rewrite lookup_insert_Some. split; [naive_solver|]. intros [[zi Hz]| ->]; [|eexists; by left].
        exists zi. right. split; [|done]. intros <-. by eapply Hn, inb_self.
    + by subst live.
  - intros a p [owned HR] [zi Hl]. destruct (node_returned owned a p zi HR Hl) as (nd & Hrun & Hret).
    exists (nd, delete p a.2). split; [|done]. cbn [put_page node_source]. unfold node_put_page.
    by rewrite (mm_put_page_single a.1 zi 1 p (rf_held _ _ _ HR _ _ _ Hl)), Hrun.
  - intros a p [owned HR] [zi Hl]. destruct (node_returned owned a p zi HR Hl) as (nd & Hrun & Hret).
    exists (nd, delete p a.2). split; [|done]. cbn [__free_page node_source]. unfold node_free_page. by rewrite Hrun.
Qed.
End allocator.
