(* ===== verification/Vma.v ===== *)
(** * Virtual memory areas ([kernel/mm/mmap.c])

    The areas of an address space: a red-black tree ordered by address, the
    pages behind each area, and the copies of bytes and strings between the
    kernel and the areas of a task, with the system call handlers of
    [kernel/core/system/string.c] over them.  The page tables are not part of
    the model: [vm_tables] stands for the table pages that an area has recorded
    ([pud_root], [pmd_root] and [pte_root]), and nothing here records any. *)
From stdpp Require Import functions gmap.
From S2P Require Import Prelude Rbtree RbtreeKeyed PageSource.

(** [uapi/minix_rt/mmap.h] *)
Definition VM_IOREMAP : Z := 0x10.
Definition VM_PRIVATE_SHARE : Z := 0x80.

Definition PAGE_ALIGNED (x : Z) : bool := Z.land x (PAGE_SIZE - 1) =? 0.
Definition PAGE_ALIGN_DOWN (x : Z) : Z := Z.land x (u64 (Z.lnot (PAGE_SIZE - 1))).

(** [struct vm_area_struct]; the [rb_node] inside it is in the heap. *)
Record vm_area_struct := mk_vma {
  vm_start : Z; vm_end : Z; vm_flags : Z; nr_pages : Z; pages : list (option Z); phys_addr : Z; vm_tables : list Z }.
Definition zero_vma : vm_area_struct := mk_vma 0 0 0 0 [] 0 [].

(** The bytes of a page frame. *)
Notation memory := (gmap Z (list Z)).

Section vma.
Context {A : Type} `{PageSource A}.

Record vmm := mk_vmm { mm_heap : heap; vma_of : loc → vm_area_struct; source : A; page_mem : memory }.

Definition set_heap (h : heap) (s : vmm) : vmm := mk_vmm h (vma_of s) (source s) (page_mem s).
Definition set_vma (v : loc) (x : vm_area_struct) (s : vmm) : vmm := mk_vmm (mm_heap s) (<[v := x]> (vma_of s)) (source s) (page_mem s).
Definition set_source (a : A) (s : vmm) : vmm := mk_vmm (mm_heap s) (vma_of s) a (page_mem s).
Definition set_mem (m : memory) (s : vmm) : vmm := mk_vmm (mm_heap s) (vma_of s) (source s) m.

(** Run the code of the tree. *)
Definition on_tree {B} (m : cmd B) (s : vmm) : option (B * vmm) := '(b, h) ← m (mm_heap s); Some (b, set_heap h s).

(** ** The tree; an address space is named by the address of its [vma_rb_root] *)

(** The comparison of [__insert_vma_area] for the area [vma]. *)
Definition vma_go (vma : loc → vm_area_struct) (new this : loc) : option dir :=
  if vm_end (vma new) <=? vm_start (vma this) then Some DL
  else if vm_start (vma new) >=? vm_end (vma this) then Some DR
  else None.
Definition __insert_vma_area (fuel : nat) (mm : loc) (vma : loc → vm_area_struct) (new : loc) : cmd bool :=
  rb_insert_at fuel (vma_go vma new) new mm.

Fixpoint find_vma_loop (fuel : nat) (vma : loc → vm_area_struct) (addr : Z) (node : ptr) : cmd ptr :=
  match node with
  | None => ret None
  | Some v =>
      match fuel with
      | O => crash
      | S fuel =>
          if addr <? vm_start (vma v) then n <- load v;; find_vma_loop fuel vma addr (rb_left n)
          else if addr >=? vm_end (vma v) then n <- load v;; find_vma_loop fuel vma addr (rb_right n)
          else ret (Some v)
      end
  end.
Definition __find_vma_area (fuel : nat) (mm : loc) (vma : loc → vm_area_struct) (addr : Z) : cmd ptr :=
  node <- load_ptr mm;; find_vma_loop fuel vma addr node.
(** The address space pointer may be null. *)
Definition mmap_find_vma_area (fuel : nat) (addr : Z) (mm : ptr) (s : vmm) : option (ptr * vmm) :=
  match mm with
  | None => Some (None, s)
  | Some mm => on_tree (__find_vma_area fuel mm (vma_of s) addr) s
  end.

Definition mmap_first_vma (fuel : nat) (mm : loc) (s : vmm) : option (ptr * vmm) := on_tree (rb_first fuel mm) s.
Definition mmap_next_vma (fuel : nat) (vma : ptr) (s : vmm) : option (ptr * vmm) :=
  match vma with
  | None => Some (None, s)
  | Some vma => on_tree (rb_next fuel vma) s
  end.

(** ** Creating and releasing an area *)

Definition kfree_vma (v : loc) (s : vmm) : vmm := set_heap (delete v (mm_heap s)) s.

(** [alloc_page(GFP_USER | GFP_ZERO)] for [n] pages: whether all were there, and
    the pages obtained. *)
Fixpoint alloc_pages_loop (n : nat) (got : list Z) (s : vmm) : option (bool * list Z * vmm) :=
  match n with
  | O => Some (true, got, s)
  | S n =>
      '(r, a) ← alloc_page (source s);
      match r with
      | None => Some (false, got, set_source a s)
      | Some p => alloc_pages_loop n (got ++ [p]) (set_mem (<[p := replicate (Z.to_nat PAGE_SIZE) 0]> (page_mem s)) (set_source a s))
      end
  end.
(** [__free_page] for the pages obtained. *)
Fixpoint free_pages_loop (ps : list Z) (s : vmm) : option vmm :=
  match ps with
  | [] => Some s
  | p :: ps => a ← __free_page p (source s); free_pages_loop ps (set_source a s)
  end.

(** The page frames from physical address [addr] on; [None] when one is not valid. *)
Fixpoint phys_pages_loop (n : nat) (a : A) (addr : Z) : option (list Z) :=
  match n with
  | O => Some []
  | S n =>
      if page_valid a (addr / PAGE_SIZE) then
        ps ← phys_pages_loop n a (u64 (addr + PAGE_SIZE)); Some (addr / PAGE_SIZE :: ps)
      else None
  end.

(** Linking the area into the tree; an area that overlaps another is released. *)
Definition link_vma_area (fuel : nat) (mm vma : loc) (x : vm_area_struct) (s : vmm) : option (ptr * vmm) :=
  let s := set_vma vma x s in
  '(ok, s) ← on_tree (__insert_vma_area fuel mm (vma_of s) vma) s;
  Some (if ok : bool then (Some vma, s) else (None, kfree_vma vma s)).

(** [new]: the result of [kmalloc] for the area; [array]: whether [kmalloc] gives
    memory for the array of its pages. *)
Definition mmap_get_vmap_area (fuel : nat) (new : ptr) (array : bool) (vstart size flags : Z) (mm : ptr) (phys : Z) (s : vmm) :
    option (ptr * vmm) :=
  match mm with
  | None => Some (None, s)
  | Some mm =>
      if negb (PAGE_ALIGNED vstart) || negb (PAGE_ALIGNED size) || (size =? 0) || (vstart =? 0) then Some (None, s)
      else
        match new with
        | None => Some (None, s)
        | Some vma =>
            let s := set_heap (<[vma := CNode (mk_rb None Red None None)]> (mm_heap s)) s in
            let nr := u32 (Z.shiftr size PAGE_SHIFT) in
            if negb array then Some (None, kfree_vma vma s)
            else if Z.land flags VM_PRIVATE_SHARE =? 0 then
              '(all, ps, s) ← alloc_pages_loop (Z.to_nat nr) [] s;
              if all : bool then link_vma_area fuel mm vma (mk_vma vstart (u64 (vstart + size)) flags nr (Some <$> ps) 0 []) s
              else s ← free_pages_loop ps s; Some (None, kfree_vma vma s)
            else if Z.land flags VM_IOREMAP =? 0 then
              if negb (PAGE_ALIGNED phys) then Some (None, kfree_vma vma s)
              else
                match phys_pages_loop (Z.to_nat nr) (source s) phys with
                | None => Some (None, kfree_vma vma s)
                | Some ps => link_vma_area fuel mm vma (mk_vma vstart (u64 (vstart + size)) flags nr (Some <$> ps) phys []) s
                end
            else link_vma_area fuel mm vma
                   (mk_vma vstart (u64 (vstart + size)) flags nr (replicate (Z.to_nat nr) None) 0 []) s
        end
  end.

(** [put_page] for the pages of an area; a missing page is a [BUG_ON]. *)
Fixpoint put_pages_loop (ps : list (option Z)) (s : vmm) : option vmm :=
  match ps with
  | [] => Some s
  | None :: _ => None
  | Some p :: ps => a ← put_page p (source s); put_pages_loop ps (set_source a s)
  end.

Definition mmap_free_vmap_area (fuel : nat) (addr : Z) (mm : ptr) (s : vmm) : option vmm :=
  match mm with
  | None => Some s
  | Some mm =>
      '(v, s) ← on_tree (__find_vma_area fuel mm (vma_of s) addr) s;
      match v with
      | None => Some s
      | Some v =>
          let x := vma_of s v in
          if negb (bool_decide (vm_tables x = [])) then None
          else
            '(_, s) ← on_tree (rb_erase fuel v mm) s;
            s ← (if Z.land (vm_flags x) VM_PRIVATE_SHARE =? 0 then put_pages_loop (take (Z.to_nat (nr_pages x)) (pages x)) s else Some s);
            Some (kfree_vma v s)
      end
  end.

(** ** Copying bytes *)

(** [vma->pages[i]], dereferenced. *)
Definition page_at (x : vm_area_struct) (i : Z) : option Z := if i <? 0 then None else mjoin (pages x !! Z.to_nat i).

Definition get_byte (m : memory) (p o : Z) : option Z := pg ← m !! p; if 0 <=? o then pg !! Z.to_nat o else None.
Definition set_byte (m : memory) (p o b : Z) : option memory :=
  pg ← m !! p; if (0 <=? o) && (o <? Z.of_nat (length pg)) then Some (<[p := <[Z.to_nat o := b]> pg]> m) else None.

(** The kernel buffer, the position in it, and the memory. *)
Record copying := mk_copying { buf : list Z; pos : nat; cmem : memory }.

(** One byte between position [pos] of the buffer and byte [o] of page [p]. *)
Definition copy_byte (from : bool) (p o : Z) (c : copying) : option copying :=
  if from then
    b ← get_byte (cmem c) p o;
    _ ← buf c !! pos c;
    Some (mk_copying (<[pos c := b]> (buf c)) (S (pos c)) (cmem c))
  else
    b ← buf c !! pos c;
    m ← set_byte (cmem c) p o b;
    Some (mk_copying (buf c) (S (pos c)) m).
Fixpoint memcpy (from : bool) (n : nat) (p o : Z) (c : copying) : option copying :=
  match n with
  | O => Some c
  | S n => c ← copy_byte from p o c; memcpy from n p (o + 1) c
  end.

(** The pages [i, ..., end_index] of the area; [n] counts them. *)
Fixpoint copy_pages_loop (n : nat) (from : bool) (x : vm_area_struct) (start end_ start_index end_index i cp_size : Z) (c : copying) :
    option (Z * copying) :=
  match n with
  | O => Some (cp_size, c)
  | S n =>
      p ← page_at x i;
      let start_offset := if i =? start_index then s32 (u64 (start - vm_start x) mod PAGE_SIZE) else 0 in
      let curr_size := if i =? start_index then s32 (PAGE_SIZE - start_offset) else PAGE_SIZE in
      let curr_size := if i =? end_index then s32 (u64 (end_ - PAGE_ALIGN_DOWN (u64 (end_ - 1)) - start_offset)) else curr_size in
      if curr_size <? 0 then None
      else
        c ← memcpy from (Z.to_nat curr_size) p start_offset c;
        copy_pages_loop n from x start end_ start_index end_index (i + 1) (u64 (cp_size - curr_size)) c
  end.

(** The walk over the areas from [vma] on; [turns] bounds their number. *)
Fixpoint memcpy_loop (turns fuel : nat) (from : bool) (curr_vma vma : ptr) (start end_ cp_size : Z) (c : copying) (s : vmm) :
    option (Z * copying * vmm) :=
  match vma with
  | None => Some (cp_size, c, s)
  | Some v =>
      match turns with
      | O => None
      | S turns =>
          let x := vma_of s v in
          if negb (bool_decide (vma = curr_vma)) && negb (start =? vm_start x) then Some (cp_size, c, s)
          else
            let start_index := s32 (Z.shiftr (u64 (start - vm_start x)) PAGE_SHIFT) in
            let end_ := if end_ >? vm_end x then vm_end x else end_ in
            let end_index := s32 (Z.shiftr (u64 (u64 (end_ - 1) - vm_start x)) PAGE_SHIFT) in
            '(cp_size, c) ← copy_pages_loop (Z.to_nat (end_index + 1 - start_index)) from x start end_ start_index end_index start_index cp_size c;
            '(next, s) ← mmap_next_vma fuel (Some v) s;
            memcpy_loop turns fuel from curr_vma next end_ (u64 (end_ + cp_size)) cp_size c s
      end
  end.

(** [is_init]: the task runs on the kernel's own address space; a null buffer is
    [None].  The buffer comes back with the bytes copied to it. *)
Definition __mmap_memcpy_vma (turns fuel : nat) (is_init : bool) (mm : ptr) (buffer : option (list Z)) (addr size : Z) (from : bool) (s : vmm) :
    option (Z * option (list Z) * vmm) :=
  if is_init then Some (- EPERM, buffer, s) else
  match buffer with
  | None => Some (- EINVAL, buffer, s)
  | Some b =>
      if size =? 0 then Some (- EINVAL, buffer, s) else
      '(curr_vma, s) ← mmap_find_vma_area fuel addr mm s;
      '(cp_size, c, s) ← memcpy_loop turns fuel from curr_vma curr_vma addr (u64 (addr + size)) size (mk_copying b 0 (page_mem s)) s;
      Some (s32 (u64 (size - cp_size)), Some (buf c), set_mem (cmem c) s)
  end.
Definition mmap_memcpy_from_vma (turns fuel : nat) (is_init : bool) (mm : ptr) (dest : option (list Z)) (addr size : Z) (s : vmm) :=
  __mmap_memcpy_vma turns fuel is_init mm dest addr size true s.
Definition mmap_memcpy_to_vma (turns fuel : nat) (is_init : bool) (mm : ptr) (addr size : Z) (src : option (list Z)) (s : vmm) :=
  __mmap_memcpy_vma turns fuel is_init mm src addr size false s.

(** ** Strings *)

(** [mmap_strncpy]: the number of bytes up to the terminator, plus one. *)
Fixpoint mmap_strncpy (from : bool) (count : nat) (p o len : Z) (c : copying) : option (Z * copying) :=
  match count with
  | O => Some (len + 1, c)
  | S count =>
      b ← (if from then get_byte (cmem c) p o else buf c !! pos c);
      c ← copy_byte from p o c;
      if b =? 0 then Some (len + 1, c) else mmap_strncpy from count p (o + 1) (len + 1) c
  end.

(** The pages of an area from [i] on: whether the string ended, and the total. *)
Fixpoint strcpy_pages_loop (n : nat) (from : bool) (x : vm_area_struct) (start start_index i total : Z) (c : copying) :
    option (bool * Z * copying) :=
  match n with
  | O => Some (false, total, c)
  | S n =>
      p ← page_at x i;
      let start_offset := if i =? start_index then s32 (u64 (start - vm_start x) mod PAGE_SIZE) else 0 in
      let curr_size := if i =? start_index then s32 (PAGE_SIZE - start_offset) else PAGE_SIZE in
      let base := pos c in
      '(size, c) ← mmap_strncpy from (Z.to_nat curr_size) p start_offset 0 c;
      let total := s32 (total + size) in
      if size <? curr_size then Some (true, total, c)
      else strcpy_pages_loop n from x start start_index (i + 1) total (mk_copying (buf c) (base + Z.to_nat size) (cmem c))
  end.

Fixpoint strcpy_loop (turns fuel : nat) (from : bool) (curr_vma vma : ptr) (start total : Z) (c : copying) (s : vmm) :
    option (Z * copying * vmm) :=
  match vma with
  | None => Some (total, c, s)
  | Some v =>
      match turns with
      | O => None
      | S turns =>
          let x := vma_of s v in
          if negb (bool_decide (vma = curr_vma)) && negb (start =? vm_start x) then Some (total, c, s)
          else
            let start_index := s32 (Z.shiftr (u64 (start - vm_start x)) PAGE_SHIFT) in
            let end_index := s32 (Z.shiftr (u64 (u64 (vm_end x - 1) - vm_start x)) PAGE_SHIFT) in
            '(skip, total, c) ← strcpy_pages_loop (Z.to_nat (end_index + 1 - start_index)) from x start start_index start_index total c;
            if skip : bool then Some (total, c, s)
            else
              '(next, s) ← mmap_next_vma fuel (Some v) s;
              strcpy_loop turns fuel from curr_vma next (vm_end x) total c s
      end
  end.
Definition __mmap_strcpy_vma (turns fuel : nat) (is_init : bool) (mm : ptr) (buffer : option (list Z)) (addr : Z) (from : bool) (s : vmm) :
    option (Z * option (list Z) * vmm) :=
  if is_init then Some (- EPERM, buffer, s) else
  match buffer with
  | None => Some (- EINVAL, buffer, s)
  | Some b =>
      '(curr_vma, s) ← mmap_find_vma_area fuel addr mm s;
      '(total, c, s) ← strcpy_loop turns fuel from curr_vma curr_vma addr 0 (mk_copying b 0 (page_mem s)) s;
      Some (total, Some (buf c), set_mem (cmem c) s)
  end.
Definition mmap_strcpy_from_vma (turns fuel : nat) (is_init : bool) (mm : ptr) (dest : option (list Z)) (addr : Z) (s : vmm) :=
  __mmap_strcpy_vma turns fuel is_init mm dest addr true s.
Definition mmap_strcpy_to_vma (turns fuel : nat) (is_init : bool) (mm : ptr) (addr : Z) (src : option (list Z)) (s : vmm) :=
  __mmap_strcpy_vma turns fuel is_init mm src addr false s.

(** [strnlen] of the base library, on [count] bytes of a page. *)
Fixpoint strnlen (m : memory) (count : nat) (p o len : Z) : option Z :=
  match count with
  | O => Some len
  | S count => b ← get_byte m p o; if b =? 0 then Some len else strnlen m count p (o + 1) (len + 1)
  end.

Fixpoint strnlen_pages_loop (n : nat) (x : vm_area_struct) (start start_index i total : Z) (m : memory) : option (bool * Z) :=
  match n with
  | O => Some (false, total)
  | S n =>
      p ← page_at x i;
      let start_offset := if i =? start_index then s32 (u64 (start - vm_start x) mod PAGE_SIZE) else 0 in
      let curr_size := if i =? start_index then s32 (PAGE_SIZE - start_offset) else PAGE_SIZE in
      size ← strnlen m (Z.to_nat curr_size) p start_offset 0;
      let total := s32 (total + size) in
      if size <? curr_size then Some (true, total)
      else strnlen_pages_loop n x start start_index (i + 1) total m
  end.
Fixpoint strnlen_loop (turns fuel : nat) (curr_vma vma : ptr) (start total : Z) (s : vmm) : option (Z * vmm) :=
  match vma with
  | None => Some (total, s)
  | Some v =>
      match turns with
      | O => None
      | S turns =>
          let x := vma_of s v in
          if negb (bool_decide (vma = curr_vma)) && negb (start =? vm_start x) then Some (total, s)
          else
            let start_index := s32 (Z.shiftr (u64 (start - vm_start x)) PAGE_SHIFT) in
            let end_index := s32 (Z.shiftr (u64 (u64 (vm_end x - 1) - vm_start x)) PAGE_SHIFT) in
            '(skip, total) ← strnlen_pages_loop (Z.to_nat (end_index + 1 - start_index)) x start start_index start_index total (page_mem s);
            if skip : bool then Some (total, s)
            else
              '(next, s) ← mmap_next_vma fuel (Some v) s;
              strnlen_loop turns fuel curr_vma next (vm_end x) total s
      end
  end.
Definition mmap_strnlen_vma (turns fuel : nat) (is_init : bool) (mm : ptr) (addr : Z) (s : vmm) : option (Z * vmm) :=
  if is_init then Some (- EPERM, s) else
  '(curr_vma, s) ← mmap_find_vma_area fuel addr mm s;
  '(total, s) ← strnlen_loop turns fuel curr_vma curr_vma addr 0 s;
  Some (s32 (total + 1), s).

(** ** Copying between tasks ([kernel/core/system/string.c]) *)

(** A task: whether it runs on [init_mm], and its address space.  [dst] and
    [src] are the results of the pid lookups, [tmp] that of [kmalloc]. *)
Record task_mm := mk_task { tsk_init : bool; tsk_mm : ptr }.
Definition message_memcpy (turns fuel : nat) (dst_tsk src_tsk : option task_mm) (tmp : bool) (dst src size : Z) (s : vmm) :
    option (Z * vmm) :=
  match dst_tsk, src_tsk with
  | Some d, Some r =>
      if size =? 0 then Some (- EINVAL, s)
      else if negb tmp then Some (- ENOMEM, s)
      else
        '(n, b, s) ← mmap_memcpy_from_vma turns fuel (tsk_init r) (tsk_mm r) (Some (replicate (Z.to_nat size) 0)) src (u64 size) s;
        if negb (n =? size) then Some (- EINVAL, s)
        else
          '(n, _, s) ← mmap_memcpy_to_vma turns fuel (tsk_init d) (tsk_mm d) dst (u64 size) b s;
          Some (if negb (n =? size) then - EINVAL else n, s)
  | _, _ => Some (- ESRCH, s)
  end.

(** The result, and the length for the message. *)
Definition message_strlen (turns fuel : nat) (src_tsk : option task_mm) (addr : Z) (s : vmm) : option (Z * option Z * vmm) :=
  match src_tsk with
  | None => Some (- ESRCH, None, s)
  | Some r =>
      '(n, s) ← mmap_strnlen_vma turns fuel (tsk_init r) (tsk_mm r) addr s;
      Some (if n <=? 0 then (- EINVAL, None, s) else (0, Some n, s))
  end.

Definition DIRECT_MEMCPY_FROM : Z := 1.
Definition DIRECT_MEMCPY_TO : Z := 2.
Definition DIRECT_STRLEN : Z := 3.

(** [m->m_sys_string] *)
Record mess_string := mk_mess_string { ms_direct : Z; ms_dest : Z; ms_src : Z; ms_size : Z; ms_pid : Z; ms_retval : Z }.
Definition set_retval (r : Z) (m : mess_string) : mess_string :=
  mk_mess_string (ms_direct m) (ms_dest m) (ms_src m) (ms_size m) (ms_pid m) r.
Definition set_size (n : Z) (m : mess_string) : mess_string :=
  mk_mess_string (ms_direct m) (ms_dest m) (ms_src m) n (ms_pid m) (ms_retval m).

(** [find] is [pid_find_process_by_pid]; [service]: the sender has
    [PF_SYSTEMSERVICE]. *)
Definition system_string (turns fuel : nat) (find : Z → option task_mm) (service tmp : bool) (m_source : Z) (m : mess_string) (s : vmm) :
    option (mess_string * vmm) :=
  match find m_source with
  | None => None
  | Some _ =>
      if negb service then Some (set_retval (- EACCES) m, s)
      else if ms_direct m =? DIRECT_MEMCPY_FROM then
        '(r, s) ← message_memcpy turns fuel (find m_source) (find (ms_pid m)) tmp (ms_dest m) (ms_src m) (ms_size m) s;
        Some (set_retval r m, s)
      else if ms_direct m =? DIRECT_MEMCPY_TO then
        '(r, s) ← message_memcpy turns fuel (find (ms_pid m)) (find m_source) tmp (ms_dest m) (ms_src m) (ms_size m) s;
        Some (set_retval r m, s)
      else if ms_direct m =? DIRECT_STRLEN then
        '(r, n, s) ← message_strlen turns fuel (find (ms_pid m)) (ms_src m) s;
        Some (set_retval r (match n with Some n => set_size n m | None => m end), s)
      else Some (m, s)
  end.
End vma.
Arguments vmm : clear implicits.
