(* ===== verification/VmaFacts.v ===== *)
(** * Creating, finding and releasing areas

    The areas of an address space are disjoint and sorted in the tree, made of
    whole pages, and the pages of private areas belong to them alone; the
    operations of [mmap.c] keep that, find the area of an address and account
    for every page that they take from the allocator. *)
From stdpp Require Import functions gmap sorting.
From S2P Require Import Prelude Rbtree RbtreeLogic RbtreeInsert RbtreeWalk RbtreeSpec RbtreeRun RbtreeKeyed PageSource Vma.

(** ** The invariant *)

Definition private (x : vm_area_struct) : bool := Z.land (vm_flags x) VM_PRIVATE_SHARE =? 0.
(** The page frames that an area owns. *)
Definition frames (x : vm_area_struct) : list Z := omap id (pages x).
Definition owned_frames (x : vm_area_struct) : list Z := if private x then frames x else [].

Record area_ok (x : vm_area_struct) : Prop := {
  ar_range : 0 < vm_start x < vm_end x;
  ar_top : vm_end x < 2 ^ 64;
  ar_small : vm_end x - vm_start x < 2 ^ 43;
  ar_start : (PAGE_SIZE | vm_start x);
  ar_end : (PAGE_SIZE | vm_end x);
  ar_pages : vm_end x - vm_start x = PAGE_SIZE * Z.of_nat (length (pages x));
  ar_nr : nr_pages x = Z.of_nat (length (pages x));
  ar_tables : vm_tables x = [];
  ar_private : private x = true → pages x = Some <$> frames x }.

(** Two areas in the order of the tree. *)
Definition below (vma : loc → vm_area_struct) (a b : loc) : Prop := vm_end (vma a) ≤ vm_start (vma b).
Definition contains (x : vm_area_struct) (addr : Z) : Prop := vm_start x ≤ addr < vm_end x.
Definition overlaps (x y : vm_area_struct) : Prop := vm_start x < vm_end y ∧ vm_start y < vm_end x.

Section facts.
Context {A : Type} `{PageSourceLaws A}.
Implicit Types s : vmm A.

Definition own_pages (vma : loc → vm_area_struct) (l : list loc) : list Z := l ≫= λ v, owned_frames (vma v).

Definition vma_tree (h : heap) (vma : loc → vm_area_struct) (mm : loc) (t : tree) : Prop :=
  rep h mm t ∧ valid t ∧ StronglySorted (below vma) (inorder t) ∧ ∀ v, v ∈ inorder t → area_ok (vma v).

Record mm_inv (mm : loc) (s : vmm A) (t : tree) : Prop := {
  mi_tree : vma_tree (mm_heap s) (vma_of s) mm t;
  mi_source : source_ok (source s);
  mi_own : NoDup (own_pages (vma_of s) (inorder t));
  mi_held : ∀ p, p ∈ own_pages (vma_of s) (inorder t) → handed_out (source s) p;
  mi_mem : ∀ p, p ∈ own_pages (vma_of s) (inorder t) → ∃ pg, page_mem s !! p = Some pg ∧ Z.of_nat (length pg) = PAGE_SIZE }.

(** ** The tree *)

Lemma rep_frame h h' mm t : (∀ a, a ∈ mm :: inorder t → h' !! a = h !! a) → rep h mm t → rep h' mm t.
Proof.
  intros Hh (Hr & Hn & Hnd). split; [rewrite Hh; [done|set_solver]|]. split; [|done].
  eapply nodes_at_frame; [|done]. intros a Ha. apply Hh. set_solver.
Qed.

(** The cells of the tree are there. *)
Lemma rep_cells h mm t a : rep h mm t → a ∈ mm :: inorder t → is_Some (h !! a).
Proof.
  intros (Hr & Hn & _) [->|Ha]%elem_of_cons; [by rewrite Hr|].
  destruct (nodes_at_in _ _ _ _ Hn Ha) as [n ->]. done.
Qed.

Lemma vma_tree_heap h h' vma mm t : (∀ a, is_Some (h !! a) → h' !! a = h !! a) → vma_tree h vma mm t → vma_tree h' vma mm t.
Proof.
  intros Hh (Hr & Hv & Hs & Ha). split; [|done]. eapply rep_frame; [|exact Hr]. intros a Hin. apply Hh. by eapply rep_cells.
Qed.

Lemma vma_tree_ext h vma vma' mm t : (∀ v, v ∈ inorder t → vma' v = vma v) → vma_tree h vma mm t → vma_tree h vma' mm t.
Proof.
  intros He (Hr & Hv & Hs & Ha). split; [done|]. split; [done|]. split.
  - eapply sorted_ext; [|exact Hs]. intros a b Ha' Hb. unfold below. by rewrite !He.
  - intros v Hin. rewrite He by done. by apply Ha.
Qed.

(** An address is in one area at most. *)
Lemma contains_unique h vma mm t u v addr :
  vma_tree h vma mm t → u ∈ inorder t → v ∈ inorder t → contains (vma u) addr → contains (vma v) addr → u = v.
Proof.
  intros (_ & _ & Hs & Har) Hu Hv Hcu Hcv. unfold contains in *. apply list_elem_of_split in Hu as (l1 & l2 & Hl).
  rewrite Hl in Hs, Hv. apply sorted_app in Hs as (H1 & H2 & _). unfold below in *.
  apply elem_of_app in Hv as [Hv|[->|Hv]%elem_of_cons]; [|done|].
  - specialize (H1 _ Hv). lia.
  - specialize (H2 _ Hv). lia.
Qed.

Lemma find_vma_loop_run h par vma fuel addr t :
  nodes_at h par t → StronglySorted (below vma) (inorder t) → (∀ v, v ∈ inorder t → vm_start (vma v) < vm_end (vma v)) →
  (height t ≤ fuel)%nat →
  ∃ r, find_vma_loop fuel vma addr (tptr t) h = Some (r, h) ∧
    match r with
    | Some v => v ∈ inorder t ∧ contains (vma v) addr
    | None => ∀ v, v ∈ inorder t → ¬ contains (vma v) addr
    end.
Proof.
  revert par t. induction fuel as [|fuel IH]; intros par t Hat Hs Hne Hf;
    (destruct t as [|c l x r]; [exists None; split; [done|set_solver]|]); [simpl in Hf; lia|].
  pose proof (load_at _ _ _ _ _ _ Hat) as Hload. destruct Hat as (_ & Hl & Hr). simpl in Hf, Hs, Hne.
  pose proof (sorted_app _ _ _ _ Hs) as (H1 & H2 & _). pose proof (Hne x ltac:(set_solver)) as Hx.
  apply StronglySorted_app in Hs as (_ & Hsl & Hsr). apply StronglySorted_inv in Hsr as [Hsr _].
  cbn [find_vma_loop tptr inorder]. rewrite Z.geb_leb. unfold contains, below in *. destruct (Z.ltb_spec addr (vm_start (vma x))) as [Hlt|Hge].
  - rewrite (bind_run _ _ _ _ _ Hload). cbn [rb_left].
    destruct (IH _ l Hl Hsl ltac:(set_solver) ltac:(lia)) as ([y|] & Hrun & Hy); eexists; (split; [exact Hrun|]); [set_solver|].
    intros y [Hin|[->|Hin]%elem_of_cons]%elem_of_app; [auto|lia|]. specialize (H2 _ Hin). lia.
  - destruct (Z.leb_spec (vm_end (vma x)) addr) as [Hgt|Hle]; [|exists (Some x); split; [done|]; split; [set_solver|lia]].
    rewrite (bind_run _ _ _ _ _ Hload). cbn [rb_right].
    destruct (IH _ r Hr Hsr ltac:(set_solver) ltac:(lia)) as ([y|] & Hrun & Hy); eexists; (split; [exact Hrun|]); [set_solver|].
    intros y [Hin|[->|Hin]%elem_of_cons]%elem_of_app; [|lia|auto]. specialize (H1 _ Hin). pose proof (Hne y ltac:(set_solver)). lia.
Qed.

Lemma find_vma_run h vma fuel mm t addr :
  vma_tree h vma mm t → (rb_depth (length (inorder t)) ≤ fuel)%nat →
  ∃ r, __find_vma_area fuel mm vma addr h = Some (r, h) ∧
    match r with
    | Some v => v ∈ inorder t ∧ contains (vma v) addr
    | None => ∀ v, v ∈ inorder t → ¬ contains (vma v) addr
    end.
Proof.
  intros (Hrep & Hv & Hs & Ha) Hf. unfold __find_vma_area. rewrite (bind_run _ _ _ _ _ (load_root _ _ _ Hrep)).
  apply (find_vma_loop_run h None); [apply Hrep|done| |by apply height_fuel].
  intros v Hin. pose proof (ar_range _ (Ha v Hin)). lia.
Qed.

Lemma insert_vma_run h vma fuel mm t v n :
  vma_tree h vma mm t → area_ok (vma v) → h !! v = Some (CNode n) → v ∉ inorder t → (rb_depth (length (inorder t)) < fuel)%nat →
  (__insert_vma_area fuel mm vma v h = Some (false, h) ∧ ∃ u, u ∈ inorder t ∧ overlaps (vma u) (vma v)) ∨
  (∃ h' t', __insert_vma_area fuel mm vma v h = Some (true, h') ∧ vma_tree h' vma mm t' ∧ inorder t' ≡ₚ v :: inorder t ∧
     (∀ u, u ∈ inorder t → ¬ overlaps (vma u) (vma v)) ∧ frame_of h h' (v :: mm :: inorder t)).
Proof.
  intros (Hrep & Hv & Hs & Har) Hok Hn Hfx Hf. pose proof (ar_range _ Hok) as Hrg.
  destruct (insert_at_run (vma_go vma v) (λ u, below vma u v) (λ u, below vma v u)
    (λ a b, below vma a b ∧ vm_start (vma a) < vm_end (vma a) ∧ vm_start (vma b) < vm_end (vma b))
    ltac:(intros y; unfold vma_go, below; rewrite Z.geb_leb; case_tests; intros; try done; lia)
    ltac:(intros y; unfold vma_go, below; rewrite Z.geb_leb; case_tests; intros; try done; lia)
    ltac:(unfold below; intros; lia) ltac:(unfold below; intros; lia) h mm t v n fuel Hrep Hv)
    as [(Hrun & y & Hy & Hgo)|(h' & t' & l1 & l2 & Hrun & Hr' & Hv' & Hl & Hl' & H1 & H2 & Hfr)]; [|done..| |].
  - eapply sorted_ext; [|exact Hs]. intros a b Ha Hb Hab. pose proof (ar_range _ (Har _ Ha)). pose proof (ar_range _ (Har _ Hb)). split; [done|lia].
  - left. split; [done|]. exists y. split; [done|]. revert Hgo. unfold vma_go, overlaps. rewrite Z.geb_leb. case_tests; done.
  - right. exists h', t'. split; [done|]. split; [|split; [|split; [|done]]].
    + split; [done|]. split; [done|]. split.
      * rewrite Hl'. rewrite Hl in Hs. by apply sorted_insert.
      * intros u. rewrite Hl'. intros [Hu|[->|Hu]%elem_of_cons]%elem_of_app; [|done|]; apply Har; rewrite Hl; set_solver.
    + rewrite Hl', Hl. by rewrite <-Permutation_middle.
    + rewrite Hl. rewrite Forall_forall in H1, H2. unfold overlaps, below in *.
      intros u [Hu|Hu]%elem_of_app; [specialize (H1 _ Hu)|specialize (H2 _ Hu)]; lia.
Qed.

(** ** Taking and returning pages *)

(** Two states with the same areas. *)
Definition same_areas s s' : Prop := mm_heap s' = mm_heap s ∧ vma_of s' = vma_of s.

Record took s (ps : list Z) s' : Prop := {
  tk_same : same_areas s s';
  tk_source : source_ok (source s');
  tk_nodup : NoDup ps;
  tk_fresh : ∀ p, p ∈ ps → ¬ handed_out (source s) p;
  tk_held : ∀ q, handed_out (source s') q ↔ handed_out (source s) q ∨ q ∈ ps;
  tk_zero : ∀ p, p ∈ ps → page_mem s' !! p = Some (replicate (Z.to_nat PAGE_SIZE) 0);
  tk_mem : ∀ p, p ∉ ps → page_mem s' !! p = page_mem s !! p }.

Lemma alloc_pages_loop_run n : ∀ got s, source_ok (source s) →
  ∃ all ps s', alloc_pages_loop n got s = Some (all, got ++ ps, s') ∧ took s ps s' ∧ (all = true → length ps = n).
Proof.
  induction n as [|n IH]; intros got s Hs; cbn [alloc_pages_loop].
  { exists true, [], s. rewrite app_nil_r. split; [done|]. split; [|done]. constructor; [done|done|constructor|set_solver..]. }
  destruct (alloc_page_ok (source s) Hs) as (r & a & -> & Ha & Hr). cbn [mbind option_bind]. destruct r as [p|].
  - destruct Hr as [Hp Hh]. set (s1 := set_mem _ _). destruct (IH (got ++ [p]) s1 Ha) as (all & ps & s' & Hrun & Htk & Hlen).
    exists all, (p :: ps), s'. rewrite Hrun, <-app_assoc. split; [done|]. split; [|intros ->; simpl; by rewrite Hlen].
    destruct Htk as [[Hsa Hsb] Hok Hnd Hfr Hhd Hz Hm]. cbn [source page_mem s1 set_mem set_source mm_heap vma_of] in *.
    assert (Hpn : p ∉ ps) by (intros Hin; apply (Hfr p Hin), Hh; by right).
    constructor; [done|done|by constructor| | | |].
    + intros q [->|Hq]%elem_of_cons; [done|]. intros Hq'. apply (Hfr q Hq), Hh. by left.
    + intros q. rewrite Hhd, Hh, elem_of_cons. tauto.
    + intros q [->|Hq]%elem_of_cons; [|by apply Hz]. rewrite Hm by done. by rewrite lookup_insert_eq.
    + intros q Hq. rewrite not_elem_of_cons in Hq. destruct Hq. rewrite Hm by done. by rewrite lookup_insert_ne.
  - exists false, [], (set_source a s). rewrite app_nil_r. split; [done|]. split; [|done].
    constructor; [done|done|constructor|set_solver| |set_solver|done]. intros q. rewrite Hr. set_solver.
Qed.

Record gave s (ps : list Z) s' : Prop := {
  gv_same : same_areas s s';
  gv_source : source_ok (source s');
  gv_held : ∀ q, handed_out (source s') q ↔ handed_out (source s) q ∧ q ∉ ps;
  gv_mem : page_mem s' = page_mem s }.

(** The two loops that return pages. *)
Fixpoint release_loop (f : Z → A → option A) (ps : list Z) s : option (vmm A) :=
  match ps with
  | [] => Some s
  | p :: ps => a ← f p (source s); release_loop f ps (set_source a s)
  end.
Lemma release_loop_run (f : Z → A → option A) ps : ∀ s,
  (∀ a p, source_ok a → handed_out a p → ∃ a', f p a = Some a' ∧ returned a p a') →
  source_ok (source s) → NoDup ps → (∀ p, p ∈ ps → handed_out (source s) p) →
  ∃ s', release_loop f ps s = Some s' ∧ gave s ps s'.
Proof.
  induction ps as [|p ps IH]; intros s Hf Hs Hnd Hh; cbn [release_loop].
  { exists s. split; [done|]. constructor; [done|done|set_solver|done]. }
  apply NoDup_cons in Hnd as [Hp Hnd]. destruct (Hf (source s) p Hs (Hh p ltac:(set_solver))) as (a & -> & Ha & Hq). cbn [mbind option_bind].
  destruct (IH (set_source a s) Hf Ha Hnd) as (s' & Hrun & [Hsame Hok Hhd Hm]).
  { intros q Hin. apply Hq. split; [apply Hh; set_solver|]. by intros ->. }
  exists s'. split; [done|]. constructor; [done|done| |done]. intros q. rewrite Hhd. cbn [source set_source]. rewrite Hq. set_solver.
Qed.

Lemma free_pages_loop_run ps s : source_ok (source s) → NoDup ps → (∀ p, p ∈ ps → handed_out (source s) p) →
  ∃ s', free_pages_loop ps s = Some s' ∧ gave s ps s'.
Proof.
  intros Hs Hnd Hh. assert (Heq : free_pages_loop ps s = release_loop __free_page ps s).
  { clear. revert s. induction ps as [|p ps IH]; intros s; [done|]. simpl. destruct (__free_page _ _); [|done]. simpl. apply IH. }
  rewrite Heq. apply release_loop_run; [|done..]. apply free_page_ok.
Qed.
Lemma put_pages_loop_run ps s : source_ok (source s) → NoDup ps → (∀ p, p ∈ ps → handed_out (source s) p) →
  ∃ s', put_pages_loop (Some <$> ps) s = Some s' ∧ gave s ps s'.
Proof.
  intros Hs Hnd Hh. assert (Heq : put_pages_loop (Some <$> ps) s = release_loop put_page ps s).
  { clear. revert s. induction ps as [|p ps IH]; intros s; [done|]. cbn [fmap list_fmap put_pages_loop release_loop].
    destruct (put_page _ _); [|done]. cbn [mbind option_bind]. apply IH. }
  rewrite Heq. apply release_loop_run; [|done..]. apply put_page_ok.
Qed.

Lemma phys_pages_length n a addr ps : phys_pages_loop n a addr = Some ps → length ps = n.
Proof.
  revert addr ps. induction n as [|n IH]; intros addr ps; simpl; [by intros [= <-]|].
  destruct (page_valid _ _); [|done]. destruct (phys_pages_loop n a _) as [l|] eqn:E; [|done]. simpl. intros [= <-]. simpl. by erewrite IH.
Qed.

(** ** Own pages *)

Lemma own_pages_ext vma vma' l : (∀ v, v ∈ l → vma' v = vma v) → own_pages vma' l = own_pages vma l.
Proof.
  unfold own_pages. induction l as [|v l IH]; intros He; [done|]. cbn [mbind list_bind]. rewrite He by set_solver. by rewrite IH by set_solver.
Qed.
Lemma elem_of_own vma l p : p ∈ own_pages vma l ↔ ∃ v, v ∈ l ∧ p ∈ owned_frames (vma v).
Proof. unfold own_pages. rewrite list_elem_of_bind. naive_solver. Qed.
#[global] Instance own_pages_proper vma : Proper ((≡ₚ) ==> (≡ₚ)) (own_pages vma).
Proof. intros l l' Hl. unfold own_pages. by rewrite Hl. Qed.
Lemma own_pages_cons vma v l : own_pages vma (v :: l) = owned_frames (vma v) ++ own_pages vma l.
Proof. done. Qed.

Lemma frames_some (ps : list Z) : omap id (Some <$> ps) = ps.
Proof. induction ps as [|p ps IH]; [done|]. simpl. f_equal. exact IH. Qed.

(** The invariant does not look at the kernel's other cells and areas. *)
Lemma mm_inv_ext mm s s' t :
  (∀ a, is_Some (mm_heap s !! a) → a ∈ mm :: inorder t → mm_heap s' !! a = mm_heap s !! a) → (∀ v, v ∈ inorder t → vma_of s' v = vma_of s v) →
  source_ok (source s') → (∀ p, p ∈ own_pages (vma_of s) (inorder t) → handed_out (source s') p) →
  (∀ p, p ∈ own_pages (vma_of s) (inorder t) → page_mem s' !! p = page_mem s !! p) → mm_inv mm s t → mm_inv mm s' t.
Proof.
  intros Hh Hv Hs Hhd Hm [Ht _ Hnd _ Hmem]. pose proof (own_pages_ext _ _ _ Hv) as Ho. split; rewrite ?Ho; [|done|done|done|].
  - eapply vma_tree_ext; [exact Hv|]. destruct Ht as (Hr & Ht). split; [|done]. eapply rep_frame; [|exact Hr].
    intros a Ha. apply Hh; [by eapply rep_cells|done].
  - intros p Hp. rewrite Hm by done. by apply Hmem.
Qed.

(** ** Linking an area *)

(** The area [x] at [v] has joined the address space. *)
Record created mm s (t : tree) (v : loc) (x : vm_area_struct) s' (t' : tree) : Prop := {
  cr_inv : mm_inv mm s' t';
  cr_in : inorder t' ≡ₚ v :: inorder t;
  cr_vma : vma_of s' = <[v := x]> (vma_of s);
  cr_apart : ∀ u, u ∈ inorder t → ¬ overlaps (vma_of s u) x;
  cr_frame : frame_of (mm_heap s) (mm_heap s') (mm :: inorder t) }.

Lemma link_area_run mm s t fuel v n x :
  mm_inv mm s t → mm_heap s !! v = Some (CNode n) → v ∉ inorder t → area_ok x → (rb_depth (length (inorder t)) < fuel)%nat →
  NoDup (owned_frames x ++ own_pages (vma_of s) (inorder t)) →
  (∀ p, p ∈ owned_frames x → handed_out (source s) p ∧ ∃ pg, page_mem s !! p = Some pg ∧ Z.of_nat (length pg) = PAGE_SIZE) →
  (link_vma_area fuel mm v x s = Some (None, kfree_vma v (set_vma v x s)) ∧ ∃ u, u ∈ inorder t ∧ overlaps (vma_of s u) x) ∨
  (∃ s' t', link_vma_area fuel mm v x s = Some (Some v, s') ∧ source s' = source s ∧ page_mem s' = page_mem s ∧
     mm_inv mm s' t' ∧ inorder t' ≡ₚ v :: inorder t ∧ vma_of s' = <[v := x]> (vma_of s) ∧
     (∀ u, u ∈ inorder t → ¬ overlaps (vma_of s u) x) ∧ frame_of (mm_heap s) (mm_heap s') (v :: mm :: inorder t)).
Proof.
  intros [Ht Hs Hnd Hh Hm] Hn Hv Hx Hf Hnew Hown. unfold link_vma_area, on_tree. cbn [mm_heap vma_of set_vma].
  assert (He : ∀ u, u ∈ inorder t → <[v := x]> (vma_of s) u = vma_of s u).
  { intros u Hu. rewrite fn_lookup_insert_ne; [done|]. by intros ->. }
  destruct (insert_vma_run (mm_heap s) (<[v := x]> (vma_of s)) fuel mm t v n) as
    [(Hrun & u & Hu & Ho)|(h' & t' & Hrun & Ht' & Hp & Hno & Hfr)]; try done.
  { by eapply vma_tree_ext. } { by rewrite fn_lookup_insert. }
  - left. rewrite Hrun. split; [|exists u; rewrite He, fn_lookup_insert in Ho; done]. done.
  - right. rewrite Hrun. exists (set_heap h' (set_vma v x s)), t'. split; [done|]. split; [done|]. split; [done|].
    assert (Hperm : own_pages (<[v := x]> (vma_of s)) (inorder t') ≡ₚ owned_frames x ++ own_pages (vma_of s) (inorder t)).
    { rewrite Hp, own_pages_cons, fn_lookup_insert. by rewrite (own_pages_ext (vma_of s)). }
    split; [|split; [done|split; [done|split; [|done]]]].
    + split; cbn [mm_heap vma_of source page_mem set_heap set_vma]; [done|done|by rewrite Hperm| |];
        intros p; rewrite Hperm, elem_of_app; (intros [Hp'|Hp']; [by apply Hown|auto]).
    + intros u Hu. specialize (Hno u Hu). by rewrite He, fn_lookup_insert in Hno.
Qed.

(** ** [mmap_get_vmap_area] *)

Definition new_area (vstart size flags phys : Z) (ps : list (option Z)) : vm_area_struct :=
  mk_vma vstart (vstart + size) flags (size / PAGE_SIZE) ps phys [].

Lemma page_aligned_divide x : 0 ≤ x → PAGE_ALIGNED x = true ↔ (PAGE_SIZE | x).
Proof.
  intros Hx. unfold PAGE_ALIGNED. rewrite Z.eqb_eq. change (PAGE_SIZE - 1) with (Z.ones 12). rewrite Z.land_ones by lia.
  change (2 ^ 12) with PAGE_SIZE. apply Z.mod_divide. done.
Qed.

Lemma new_area_ok vstart size flags phys ps :
  (PAGE_SIZE | vstart) → (PAGE_SIZE | size) → 0 < vstart → 0 < size < 2 ^ 43 → vstart + size < 2 ^ 64 →
  Z.of_nat (length ps) = size / PAGE_SIZE → (Z.land flags VM_PRIVATE_SHARE =? 0 = true → ps = Some <$> omap id ps) →
  area_ok (new_area vstart size flags phys ps).
Proof.
  intros Ha Hb H1 H2 H3 Hl Hp. destruct Hb as [k ->]. rewrite Z.div_mul in Hl by done.
  constructor; cbn [new_area vm_start vm_end nr_pages pages vm_tables]; try done; try lia.
  - by apply Z.divide_add_r, Z.divide_factor_r.
  - rewrite Z.div_mul by done. lia.
Qed.

(** The arguments that the code accepts. *)
Definition good_request (vstart size : Z) : Prop := (PAGE_SIZE | vstart) ∧ (PAGE_SIZE | size) ∧ vstart ≠ 0 ∧ size ≠ 0.
Lemma request_test vstart size : 0 ≤ vstart → 0 ≤ size →
  (negb (PAGE_ALIGNED vstart) || negb (PAGE_ALIGNED size) || (size =? 0) || (vstart =? 0)) = false ↔ good_request vstart size.
Proof.
  intros H1 H2. rewrite !orb_false_iff, !negb_false_iff, !page_aligned_divide, !Z.eqb_neq by done. unfold good_request. tauto.
Qed.

Section get.
Context (mm : loc) (t : tree) (fuel : nat) (v : loc) (vstart size flags phys : Z).
Context (Hf : (rb_depth (length (inorder t)) < fuel)%nat).
Context (Hgood : good_request vstart size) (H1 : 0 ≤ vstart) (H2 : 0 ≤ size < 2 ^ 43) (H3 : vstart + size < 2 ^ 64).

(** The state after the two allocations. *)
Definition with_cell s : vmm A := set_heap (<[v := CNode (mk_rb None Red None None)]> (mm_heap s)) s.

Lemma with_cell_inv s : mm_inv mm s t → mm_heap s !! v = None → mm_inv mm (with_cell s) t.
Proof.
  intros Hi Hv. eapply mm_inv_ext; [..|exact Hi]; try done; [|apply Hi|apply Hi].
  intros a [c Ha] _. cbn. rewrite lookup_insert_ne; [done|]. intros ->. congruence.
Qed.
Lemma cell_outside s : mm_inv mm s t → mm_heap s !! v = None → v ∉ mm :: inorder t.
Proof. intros Hi Hv Hin. destruct (rep_cells _ _ _ v (proj1 (mi_tree _ _ _ Hi)) Hin) as [c Hc]. congruence. Qed.

(** Linking what has been prepared in [s1], which has the areas of [s] and the new cell. *)
Lemma link_new s s1 ps :
  mm_inv mm s t → mm_heap s !! v = None → same_areas (with_cell s) s1 → mm_inv mm s1 t →
  Z.of_nat (length ps) = size / PAGE_SIZE → (Z.land flags VM_PRIVATE_SHARE =? 0 = true → ps = Some <$> omap id ps) →
  let x := new_area vstart size flags phys ps in
  NoDup (owned_frames x ++ own_pages (vma_of s1) (inorder t)) →
  (∀ p, p ∈ owned_frames x → handed_out (source s1) p ∧ ∃ pg, page_mem s1 !! p = Some pg ∧ Z.of_nat (length pg) = PAGE_SIZE) →
  ∃ r s', link_vma_area fuel mm v x s1 = Some (r, s') ∧ source s' = source s1 ∧ page_mem s' = page_mem s1 ∧
    match r with
    | Some u => u = v ∧ ∃ t', created mm s t v x s' t'
    | None => mm_heap s' = mm_heap s ∧ (∀ u, u ∈ inorder t → vma_of s' u = vma_of s u) ∧ ∃ u, u ∈ inorder t ∧ overlaps (vma_of s u) x
    end.
Proof.
  intros Hi Hv [Hh1 Hv1] Hi1 Hl Hps x Hnd Hown. pose proof (cell_outside s Hi Hv) as Hout. rewrite not_elem_of_cons in Hout. destruct Hout as [Hvm Hvt].
  assert (Hx : area_ok x).
  { destruct Hgood as (Ha & Hb & Hc & Hd). apply new_area_ok; [done|done|lia|lia|done|done|done]. }
  destruct (link_area_run mm s1 t fuel v (mk_rb None Red None None) x) as
    [(Hrun & u & Hu & Ho)|(s' & t' & Hrun & Hsrc & Hmem & Hi' & Hp & Hvma & Hno & Hfr)]; try done.
  { rewrite Hh1. cbn. by rewrite lookup_insert_eq. }
  - exists None, (kfree_vma v (set_vma v x s1)). split; [done|]. split; [done|]. split; [done|]. cbn. rewrite Hh1, Hv1. cbn. split.
    + by rewrite delete_insert_eq, delete_id.
    + split; [|exists u; split; [done|by rewrite Hv1 in Ho]]. intros u' Hu'. rewrite fn_lookup_insert_ne; [done|]. by intros ->.
  - exists (Some v), s'. split; [done|]. split; [done|]. split; [done|]. split; [done|]. exists t'. rewrite Hv1 in *. constructor; try done.
    intros a c Ha Hc. apply Hfr; [|rewrite Hh1; cbn; rewrite lookup_insert_ne; [done|intros ->; congruence]].
    rewrite not_elem_of_cons. split; [|done]. intros ->. congruence.
Qed.
End get.

(** What a call of [mmap_get_vmap_area] may do. *)
Definition get_result mm s (t : tree) (new : ptr) (vstart size flags : Z) (r : ptr) s' : Prop :=
  match r with
  | Some v =>
      new = Some v ∧ good_request vstart size ∧
      ∃ ps phys t', let x := new_area vstart size flags phys ps in
        created mm s t v x s' t' ∧
        (∀ q, handed_out (source s') q ↔ handed_out (source s) q ∨ q ∈ owned_frames x) ∧
        (∀ p, p ∈ owned_frames x → ¬ handed_out (source s) p ∧ page_mem s' !! p = Some (replicate (Z.to_nat PAGE_SIZE) 0)) ∧
        (∀ p, p ∉ owned_frames x → page_mem s' !! p = page_mem s !! p)
  | None =>
      mm_inv mm s' t ∧ mm_heap s' = mm_heap s ∧ (∀ u, u ∈ inorder t → vma_of s' u = vma_of s u) ∧
      (∀ q, handed_out (source s) q → page_mem s' !! q = page_mem s !! q) ∧
      ((∀ u, u ∈ inorder t → ¬ overlaps (vma_of s u) (new_area vstart size flags 0 [])) →
       ∀ q, handed_out (source s') q ↔ handed_out (source s) q)
  end.

Lemma refuse_same mm s t new vstart size flags : mm_inv mm s t → get_result mm s t new vstart size flags None s.
Proof. intros Hi. split; [done|]. split; [done|]. split; [done|]. split; done. Qed.

(** Giving up after the two allocations. *)
Lemma refuse_freed mm s t v vstart size flags s1 :
  mm_inv mm s t → mm_heap s !! v = None → same_areas (with_cell v s) s1 → source_ok (source s1) →
  (∀ q, handed_out (source s1) q ↔ handed_out (source s) q) → (∀ q, handed_out (source s) q → page_mem s1 !! q = page_mem s !! q) →
  get_result mm s t (Some v) vstart size flags None (kfree_vma v s1).
Proof.
  intros Hi Hv [Hh1 Hv1] Hs Hhd Hm.
  assert (Hheap : mm_heap (kfree_vma v s1) = mm_heap s) by (cbn; rewrite Hh1; cbn; by rewrite delete_insert_eq, delete_id).
  assert (Hvma : vma_of (kfree_vma v s1) = vma_of s) by (cbn; by rewrite Hv1).
  split; [|split; [done|split; [by intros u _; rewrite Hvma|split; [done|done]]]].
  eapply mm_inv_ext; [..|exact Hi]; [by rewrite Hheap|by rewrite Hvma|done| |].
  - intros p Hp. apply Hhd. by apply (mi_held _ _ _ Hi).
  - intros p Hp. apply Hm. by apply (mi_held _ _ _ Hi).
Qed.

(** Refused by the tree, whatever was taken before. *)
Lemma refuse_linked mm s t new vstart size flags s' x :
  mm_inv mm s t → mm_heap s' = mm_heap s → (∀ u, u ∈ inorder t → vma_of s' u = vma_of s u) → source_ok (source s') →
  (∀ q, handed_out (source s) q → handed_out (source s') q ∧ page_mem s' !! q = page_mem s !! q) →
  (∃ u, u ∈ inorder t ∧ overlaps (vma_of s u) x) → vm_start x = vstart → vm_end x = vstart + size →
  get_result mm s t new vstart size flags None s'.
Proof.
  intros Hi Hh Hv Hs Hhm (u & Hu & Ho) H1 H2. split; [|split; [done|split; [done|split]]].
  - eapply mm_inv_ext; [..|exact Hi]; [by rewrite Hh|done|done|..]; intros p Hp; by apply Hhm, (mi_held _ _ _ Hi).
  - intros q Hq. by apply Hhm.
  - intros Hno. exfalso. apply (Hno u Hu). unfold overlaps in *. cbn. by rewrite H1, H2 in Ho.
Qed.

Section get_cases.
Context (mm : loc) (s : vmm A) (t : tree) (fuel : nat) (v : loc) (vstart size flags phys : Z).
Context (Hi : mm_inv mm s t) (Hv : mm_heap s !! v = None) (Hf : (rb_depth (length (inorder t)) < fuel)%nat).
Context (Hgood : good_request vstart size) (H1 : 0 ≤ vstart) (H2 : 0 ≤ size < 2 ^ 43) (H3 : vstart + size < 2 ^ 64).

Definition get_ok (m : option (ptr * vmm A)) : Prop :=
  ∃ r s', m = Some (r, s') ∧ get_result mm s t (Some v) vstart size flags r s'.

Lemma get_private : Z.land flags VM_PRIVATE_SHARE =? 0 = true →
  get_ok ('(all, ps, s1) ← alloc_pages_loop (Z.to_nat (size / PAGE_SIZE)) [] (with_cell v s);
          if all : bool then link_vma_area fuel mm v (new_area vstart size flags 0 (Some <$> ps)) s1
          else s1 ← free_pages_loop ps s1; Some (None, kfree_vma v s1)).
Proof.
  intros Hfl. destruct (alloc_pages_loop_run (Z.to_nat (size / PAGE_SIZE)) [] (with_cell v s) (mi_source _ _ _ Hi))
    as (all & ps & s1 & Hrun & Htk & Hlen). rewrite Hrun. cbn [mbind option_bind app].
  destruct Htk as [Hsame Hok Hnd Hfr Hhd Hz Hm]. cbn [source page_mem with_cell set_heap] in *.
  assert (Hdisj : ∀ p, p ∈ own_pages (vma_of s) (inorder t) → p ∉ ps).
  { intros p Hp Hin. by apply (Hfr p Hin), (mi_held _ _ _ Hi). }
  destruct all.
  - specialize (Hlen eq_refl). assert (Hown : owned_frames (new_area vstart size flags 0 (Some <$> ps)) = ps).
    { unfold owned_frames, private, frames. cbn [vm_flags new_area pages]. by rewrite Hfl, frames_some. }
    assert (Hi1 : mm_inv mm s1 t).
    { eapply mm_inv_ext; [..|exact (with_cell_inv mm t v s Hi Hv)]; destruct Hsame as [Hh Hv']; [by rewrite Hh|by rewrite Hv'|done|..]; intros p Hp.
      - apply Hhd. left. by apply (mi_held _ _ _ Hi).
      - apply Hm. by apply Hdisj. }
    destruct (link_new mm t fuel v vstart size flags 0 Hf Hgood H1 H2 H3 s s1 (Some <$> ps)) as (r & s' & Hl & Hsrc & Hmem & Hr); try done.
    { rewrite length_fmap, Hlen. rewrite Z2Nat.id; [done|]. apply Z.div_pos; [lia|done]. }
    { by rewrite frames_some. }
    { rewrite Hown. destruct Hsame as [_ ->]. cbn. apply NoDup_app. split; [done|]. split; [|apply (mi_own _ _ _ Hi)].
      intros p Hp Hp'. by eapply Hdisj. }
    { rewrite Hown. intros p Hp. split; [apply Hhd; by right|]. rewrite Hz by done. eexists. split; [done|]. by rewrite length_replicate. }
    exists r, s'. split; [done|]. destruct r as [u|].
    + destruct Hr as (-> & t' & Hcr). split; [done|]. split; [done|]. exists (Some <$> ps), 0, t'. cbn zeta. rewrite Hown, Hsrc, Hmem.
      split; [done|]. split; [done|]. split; [|done]. intros p Hp. split; [by apply Hfr|by apply Hz].
    + destruct Hr as (Hh & Hv' & Hov). eapply refuse_linked; [done|done|done|by rewrite Hsrc| |exact Hov|done|done].
      intros q Hq. rewrite Hsrc, Hmem. split; [apply Hhd; by left|]. apply Hm. intros Hin. by eapply Hfr.
  - destruct (free_pages_loop_run ps s1 Hok Hnd) as (s2 & Hrun2 & [[Hg1 Hg2] Hgs Hgh Hgm]).
    { intros p Hp. apply Hhd. by right. }
    rewrite Hrun2. cbn [mbind option_bind]. exists None, (kfree_vma v s2). split; [done|]. destruct Hsame as [Hs1 Hs2].
    apply refuse_freed; [done|done|split; congruence|done| |].
    + intros q. rewrite Hgh, Hhd. split; [tauto|]. intros Hq. split; [by left|]. intros Hin. by eapply Hfr.
    + intros q Hq. rewrite Hgm. apply Hm. intros Hin. by eapply Hfr.
Qed.

Lemma get_shared ps ph : Z.land flags VM_PRIVATE_SHARE =? 0 = false → Z.of_nat (length ps) = size / PAGE_SIZE →
  get_ok (link_vma_area fuel mm v (new_area vstart size flags ph ps) (with_cell v s)).
Proof.
  intros Hfl Hlen. assert (Hown : owned_frames (new_area vstart size flags ph ps) = []).
  { unfold owned_frames, private. cbn [vm_flags new_area]. by rewrite Hfl. }
  destruct (link_new mm t fuel v vstart size flags ph Hf Hgood H1 H2 H3 s (with_cell v s) ps) as (r & s' & Hl & Hsrc & Hmem & Hr); try done.
  { by apply with_cell_inv. } { by rewrite Hfl. } { rewrite Hown. apply (mi_own _ _ _ Hi). } { rewrite Hown. set_solver. }
  exists r, s'. split; [done|]. destruct r as [u|].
  - destruct Hr as (-> & t' & Hcr). split; [done|]. split; [done|]. exists ps, ph, t'. cbn zeta. rewrite Hown, Hsrc, Hmem.
    split; [done|]. split; [set_solver|]. split; [set_solver|done].
  - destruct Hr as (Hh & Hv' & Hov). eapply refuse_linked; [done|done|done|rewrite Hsrc; apply Hi| |exact Hov|done|done].
    intros q Hq. by rewrite Hsrc, Hmem.
Qed.
End get_cases.

Lemma get_run mm s t fuel new array vstart size flags phys :
  mm_inv mm s t → (∀ v, new = Some v → mm_heap s !! v = None) → (rb_depth (length (inorder t)) < fuel)%nat →
  0 ≤ vstart → 0 ≤ size < 2 ^ 43 → vstart + size < 2 ^ 64 →
  ∃ r s', mmap_get_vmap_area fuel new array vstart size flags (Some mm) phys s = Some (r, s') ∧ get_result mm s t new vstart size flags r s'.
Proof.
  intros Hi Hnew Hf H1 H2 H3. unfold mmap_get_vmap_area.
  destruct (negb (PAGE_ALIGNED vstart) || negb (PAGE_ALIGNED size) || (size =? 0) || (vstart =? 0)) eqn:Hreq.
  { exists None, s. split; [done|]. by apply refuse_same. }
  apply request_test in Hreq as Hgood; [|lia..]. destruct new as [v|]; [|exists None, s; split; [done|by apply refuse_same]].
  specialize (Hnew v eq_refl). cbv zeta. fold (with_cell v s).
  assert (Hnr : u32 (Z.shiftr size PAGE_SHIFT) = size / PAGE_SIZE).
  { rewrite Z.shiftr_div_pow2 by done. change (2 ^ PAGE_SHIFT) with PAGE_SIZE. apply u32_small. split; [apply Z.div_pos; [lia|done]|].
    apply Z.div_lt_upper_bound; unfold PAGE_SIZE; lia. }
  assert (Hlen : Z.of_nat (Z.to_nat (size / PAGE_SIZE)) = size / PAGE_SIZE) by (apply Z2Nat.id, Z.div_pos; [lia|done]).
  rewrite Hnr, u64_small by lia.
  assert (Hdrop : ∃ r s', Some (None, kfree_vma v (with_cell v s)) = Some (r, s') ∧ get_result mm s t (Some v) vstart size flags r s').
  { eexists None, _. split; [done|]. apply refuse_freed; [done|done|done|apply Hi|done|done]. }
  destruct array; cbn [negb]; [|exact Hdrop].
  destruct (Z.land flags VM_PRIVATE_SHARE =? 0) eqn:Hfl; [by apply get_private|].
  destruct (Z.land flags VM_IOREMAP =? 0).
  - destruct (PAGE_ALIGNED phys); cbn [negb]; [|exact Hdrop].
    destruct (phys_pages_loop _ _ _) as [ps|] eqn:Hps; [|exact Hdrop]. apply get_shared; try done.
    rewrite length_fmap, (phys_pages_length _ _ _ _ Hps). exact Hlen.
  - apply get_shared; try done. by rewrite length_replicate.
Qed.

(** ** [mmap_free_vmap_area] *)

Record destroyed mm s (t : tree) (v : loc) s' (t' : tree) : Prop := {
  ds_inv : mm_inv mm s' t';
  ds_in : inorder t' = filter (.≠ v) (inorder t);
  ds_vma : vma_of s' = vma_of s;
  ds_gone : mm_heap s' !! v = None;
  ds_held : ∀ q, handed_out (source s') q ↔ handed_out (source s) q ∧ q ∉ owned_frames (vma_of s v);
  ds_mem : page_mem s' = page_mem s;
  ds_frame : frame_of (mm_heap s) (mm_heap s') (mm :: inorder t) }.

Lemma filter_out_perm (v : loc) l : NoDup l → v ∈ l → l ≡ₚ v :: filter (.≠ v) l.
Proof.
  intros Hnd (l1 & l2 & ->)%list_elem_of_split. rewrite filter_removed by done. by rewrite Permutation_middle.
Qed.

Lemma put_owned_run s x : source_ok (source s) → area_ok x → NoDup (owned_frames x) → (∀ p, p ∈ owned_frames x → handed_out (source s) p) →
  ∃ s', (if Z.land (vm_flags x) VM_PRIVATE_SHARE =? 0 then put_pages_loop (take (Z.to_nat (nr_pages x)) (pages x)) s else Some s) = Some s' ∧
    gave s (owned_frames x) s'.
Proof.
  intros Hs Hx Hnd Hh. fold (private x). unfold owned_frames in *. destruct (private x) eqn:Hp.
  - rewrite (ar_nr _ Hx), Nat2Z.id, take_ge by done. rewrite (ar_private _ Hx Hp). by apply put_pages_loop_run.
  - exists s. split; [done|]. constructor; [done|done|set_solver|done].
Qed.

Lemma free_run mm s t fuel addr :
  mm_inv mm s t → (rb_depth (length (inorder t)) ≤ fuel)%nat →
  (∀ v, v ∈ inorder t → contains (vma_of s v) addr → ∃ s' t', mmap_free_vmap_area fuel addr (Some mm) s = Some s' ∧ destroyed mm s t v s' t') ∧
  ((∀ v, v ∈ inorder t → ¬ contains (vma_of s v) addr) → mmap_free_vmap_area fuel addr (Some mm) s = Some s).
Proof.
  intros Hi Hf. destruct (find_vma_run _ _ fuel mm t addr (mi_tree _ _ _ Hi) Hf) as (r & Hfind & Hr).
  assert (Hset : set_heap (mm_heap s) s = s) by (by destruct s).
  unfold mmap_free_vmap_area, on_tree. rewrite Hfind. cbn [mbind option_bind]. rewrite Hset. destruct r as [v|]; cycle 1.
  { split; [intros v Hv Hc; by destruct (Hr v Hv)|done]. }
  destruct Hr as [Hv Hc]. split; [|intros Hno; by destruct (Hno v Hv)]. intros v' Hv' Hc'.
  assert (v' = v) as -> by (by eapply contains_unique; [apply Hi|..]).
  pose proof (mi_tree _ _ _ Hi) as (Hrep & Hval & Hsort & Har). pose proof (Har v Hv) as Hx.
  rewrite bool_decide_true by apply Hx. cbn [negb].
  destruct (rb_erase_run (mm_heap s) mm t v None fuel) as (h' & t' & Hrun & Hrep' & Hval' & _ & Hin & Hfr & n & Hn); [done..|].
  unfold rb_erase. rewrite Hrun. cbn [mbind option_bind]. rewrite app_nil_r in Hfr. set (s1 := set_heap h' s).
  pose proof (filter_out_perm v (inorder t) (proj2 (proj2 Hrep)) Hv) as Hperm.
  assert (Hall : own_pages (vma_of s) (inorder t) ≡ₚ owned_frames (vma_of s v) ++ own_pages (vma_of s) (inorder t')).
  { rewrite Hperm at 1. by rewrite own_pages_cons, Hin. }
  pose proof (mi_own _ _ _ Hi) as Hnd. rewrite Hall in Hnd. apply NoDup_app in Hnd as (Hnd1 & Hdis & Hnd2).
  destruct (put_owned_run s1 (vma_of s v) (mi_source _ _ _ Hi) Hx Hnd1) as (s2 & Hput & [[Hg1 Hg2] Hgs Hgh Hgm]).
  { intros p Hp. apply (mi_held _ _ _ Hi). rewrite Hall. set_solver. }
  rewrite Hput. cbn [mbind option_bind]. exists (kfree_vma v s2), t'. split; [done|].
  assert (Hvn : v ∉ mm :: inorder t').
  { rewrite not_elem_of_cons, Hin. split; [|rewrite list_elem_of_filter; naive_solver]. intros ->. destruct Hrep' as [Hr' _]. congruence. }
  constructor; cbn [kfree_vma set_heap mm_heap vma_of source page_mem];
    [|exact Hin|by rewrite Hg2|apply lookup_delete_eq|exact Hgh|by rewrite Hgm|].
  - split; cbn [kfree_vma set_heap mm_heap vma_of source page_mem]; rewrite ?Hg2, ?Hgm; cbn [s1 set_heap vma_of page_mem]; [|done|done| |].
    + split; [|split; [done|split; [rewrite Hin; by apply sorted_filter|]]].
      * eapply rep_frame; [|exact Hrep']. intros a Ha. rewrite Hg1. apply lookup_delete_ne. by intros ->.
      * intros u. rewrite Hin, list_elem_of_filter. intros [_ Hu]. by apply Har.
    + intros p Hp. apply Hgh. split; [apply (mi_held _ _ _ Hi); rewrite Hall; set_solver|]. intros Hin'. by eapply Hdis.
    + intros p Hp. apply (mi_mem _ _ _ Hi). rewrite Hall. set_solver.
  - intros a c Ha Hc0. rewrite Hg1, lookup_delete_ne; [by apply Hfr|]. intros ->. set_solver.
Qed.
End facts.
