(* ===== verification/VmaCopy.v ===== *)
(** * Copying to and from the areas of a task

    The nested loops over areas and pages visit the bytes of the address range
    one by one, as far as it is mapped without a gap; a copy reads or writes
    exactly the bytes behind those addresses. *)
From stdpp Require Import functions gmap sorting.
From S2P Require Import Prelude Rbtree RbtreeLogic RbtreeInsert RbtreeWalk RbtreeSpec RbtreeRun RbtreeKeyed PageSource Vma VmaFacts.

(** ** Bytes of pages *)

(** A page frame with all its bytes. *)
Definition frame_ok (m : memory) (p : Z) : Prop := ∃ pg, m !! p = Some pg ∧ Z.of_nat (length pg) = PAGE_SIZE.

Lemma get_byte_ok m p o : frame_ok m p → 0 ≤ o < PAGE_SIZE → is_Some (get_byte m p o).
Proof.
  intros (pg & Hm & Hl) Ho. unfold get_byte. rewrite Hm. cbn [mbind option_bind]. rewrite (proj2 (Z.leb_le _ _)) by lia.
  apply lookup_lt_is_Some. lia.
Qed.

Lemma set_byte_ok m p o b : frame_ok m p → 0 ≤ o < PAGE_SIZE →
  ∃ m', set_byte m p o b = Some m' ∧ get_byte m' p o = Some b ∧
    (∀ p' o', (p', o') ≠ (p, o) → get_byte m' p' o' = get_byte m p' o') ∧ (∀ q, frame_ok m q → frame_ok m' q).
Proof.
  intros (pg & Hm & Hl) Ho. unfold set_byte. rewrite Hm. cbn [mbind option_bind].
  rewrite (proj2 (Z.leb_le _ _)), (proj2 (Z.ltb_lt _ _)) by lia. cbn [andb]. eexists. split; [done|]. unfold get_byte. split; [|split].
  - rewrite lookup_insert_eq. cbn [mbind option_bind]. rewrite (proj2 (Z.leb_le _ _)) by lia. apply list_lookup_insert_eq. lia.
  - intros p' o' Hne. destruct (decide (p' = p)) as [->|Hp]; [|by rewrite lookup_insert_ne].
    rewrite lookup_insert_eq, Hm. cbn [mbind option_bind]. destruct (Z.leb_spec 0 o'); [|done].
    rewrite list_lookup_insert_ne; [done|]. intros He. apply Hne. f_equal. lia.
  - intros q (pg' & Hq & Hl'). destruct (decide (q = p)) as [->|Hp]; [|exists pg'; by rewrite lookup_insert_ne].
    exists (<[Z.to_nat o := b]> pg). rewrite lookup_insert_eq, length_insert. split; [done|]. congruence.
Qed.

(** ** Copying a list of bytes *)

Fixpoint copy_list (from : bool) (l : list (Z * Z)) (c : copying) : option copying :=
  match l with
  | [] => Some c
  | (p, o) :: l => c ← copy_byte from p o c; copy_list from l c
  end.

Lemma copy_list_app from l1 l2 c : copy_list from (l1 ++ l2) c = c' ← copy_list from l1 c; copy_list from l2 c'.
Proof.
  revert c. induction l1 as [|[p o] l1 IH]; intros c; [done|]. cbn [app copy_list]. destruct (copy_byte from p o c); [|done].
  cbn [mbind option_bind]. apply IH.
Qed.

Lemma memcpy_list from n p o c : memcpy from n p o c = copy_list from ((λ a, (p, a)) <$> seqZ o (Z.of_nat n)) c.
Proof.
  revert o c. induction n as [|n IH]; intros o c; [done|]. rewrite seqZ_cons by lia. cbn [fmap list_fmap memcpy copy_list].
  destruct (copy_byte from p o c); [|done]. cbn [mbind option_bind]. rewrite IH. do 3 f_equal; lia.
Qed.

(** The positions are bytes of pages that exist. *)
Definition bytes_ok (m : memory) (l : list (Z * Z)) : Prop := ∀ p o, (p, o) ∈ l → frame_ok m p ∧ 0 ≤ o < PAGE_SIZE.

Lemma copy_from l : ∀ c, bytes_ok (cmem c) l → (pos c + length l ≤ length (buf c))%nat →
  ∃ b', copy_list true l c = Some (mk_copying b' (pos c + length l) (cmem c)) ∧ length b' = length (buf c) ∧
    (∀ k p o, l !! k = Some (p, o) → b' !! (pos c + k)%nat = get_byte (cmem c) p o) ∧
    (∀ j, (j < pos c)%nat ∨ (pos c + length l ≤ j)%nat → b' !! j = buf c !! j).
Proof.
  induction l as [|[p o] l IH]; intros [b i m] Hok Hlen; cbn [buf pos cmem length] in *.
  { exists b. rewrite Nat.add_0_r. split; [done|]. split; [done|]. split; [done|]. done. }
  destruct (Hok p o ltac:(set_solver)) as [Hp Ho]. destruct (get_byte_ok m p o Hp Ho) as [x Hx].
  assert (is_Some (b !! i)) as [y Hy] by (apply lookup_lt_is_Some; lia).
  cbn [copy_list]. unfold copy_byte. cbn [cmem buf pos]. rewrite Hx. cbn [mbind option_bind]. rewrite Hy. cbn [mbind option_bind].
  destruct (IH (mk_copying (<[i := x]> b) (S i) m)) as (b' & Hrun & Hl & Hin & Hout); cbn [cmem buf pos] in *.
  { intros p' o' H'. apply Hok. set_solver. } { rewrite length_insert. lia. }
  exists b'. rewrite Hrun. split; [do 2 f_equal; lia|]. split; [by rewrite Hl, length_insert|]. split.
  - intros [|k] p' o' Hk; [|rewrite <-(Hin k p' o' Hk); f_equal; lia]. simpl in Hk. injection Hk as <- <-. rewrite Nat.add_0_r, Hout by lia.
    rewrite Hx. apply list_lookup_insert_eq. lia.
  - intros j Hj. rewrite Hout by lia. apply list_lookup_insert_ne. lia.
Qed.

Lemma copy_to l : ∀ c, bytes_ok (cmem c) l → NoDup l → (pos c + length l ≤ length (buf c))%nat →
  ∃ m', copy_list false l c = Some (mk_copying (buf c) (pos c + length l) m') ∧
    (∀ k p o, l !! k = Some (p, o) → get_byte m' p o = buf c !! (pos c + k)%nat) ∧
    (∀ p o, (p, o) ∉ l → get_byte m' p o = get_byte (cmem c) p o) ∧ (∀ q, frame_ok (cmem c) q → frame_ok m' q).
Proof.
  induction l as [|[p o] l IH]; intros [b i m] Hok Hnd Hlen; cbn [buf pos cmem length] in *.
  { exists m. rewrite Nat.add_0_r. done. }
  apply NoDup_cons in Hnd as [Hnin Hnd]. destruct (Hok p o ltac:(set_solver)) as [Hp Ho].
  assert (is_Some (b !! i)) as [y Hy] by (apply lookup_lt_is_Some; lia).
  destruct (set_byte_ok m p o y Hp Ho) as (m1 & Hset & Hget & Hother & Hfr).
  cbn [copy_list]. unfold copy_byte. cbn [cmem buf pos]. rewrite Hy. cbn [mbind option_bind]. rewrite Hset. cbn [mbind option_bind].
  destruct (IH (mk_copying b (S i) m1)) as (m' & Hrun & Hin & Hout & Hfr'); cbn [cmem buf pos] in *; [|done|lia|].
  { intros p' o' H'. destruct (Hok p' o' ltac:(set_solver)). split; [by apply Hfr|done]. }
  exists m'. rewrite Hrun. split; [do 2 f_equal; lia|]. split; [|split; [|auto]].
  - intros [|k] p' o' Hk; [|rewrite (Hin k p' o' Hk); f_equal; lia]. simpl in Hk. injection Hk as <- <-.
    rewrite Nat.add_0_r, Hout by done. congruence.
  - intros p' o' Hn. rewrite not_elem_of_cons in Hn. destruct Hn. rewrite Hout by done. by apply Hother.
Qed.

(** ** The pages of one area *)

(** Where the byte of an address is. *)
Definition loc_of (x : vm_area_struct) (a : Z) : Z * Z :=
  (default 0 (page_at x ((a - vm_start x) / PAGE_SIZE)), (a - vm_start x) mod PAGE_SIZE).
Definition locs (x : vm_area_struct) (start end_ : Z) : list (Z * Z) := loc_of x <$> seqZ start (end_ - start).

(** Every page of the area is there. *)
Definition resident (m : memory) (x : vm_area_struct) : Prop :=
  ∀ i, 0 ≤ i < Z.of_nat (length (pages x)) → ∃ p, page_at x i = Some p ∧ frame_ok m p.

Lemma locs_split x a b c : a ≤ b ≤ c → locs x a c = locs x a b ++ locs x b c.
Proof.
  intros H. unfold locs. rewrite <-fmap_app. f_equal. replace (c - a) with ((b - a) + (c - b)) by lia.
  rewrite seqZ_app by lia. by replace (a + (b - a)) with b by lia.
Qed.
Lemma locs_nil x a : locs x a a = [].
Proof. unfold locs. by rewrite Z.sub_diag. Qed.

(** The bytes of one page. *)
Lemma locs_page x i p a b :
  page_at x i = Some p → vm_start x + PAGE_SIZE * i ≤ a → a ≤ b ≤ vm_start x + PAGE_SIZE * (i + 1) →
  locs x a b = (λ o, (p, o)) <$> seqZ (a - vm_start x - PAGE_SIZE * i) (b - a).
Proof.
  intros Hp Ha Hb. unfold locs. apply list_eq. intros k. rewrite !list_lookup_fmap.
  destruct (seqZ a (b - a) !! k) as [y|] eqn:Hy.
  - apply lookup_seqZ in Hy as [-> Hk]. assert (seqZ (a - vm_start x - PAGE_SIZE * i) (b - a) !! k = Some (a - vm_start x - PAGE_SIZE * i + Z.of_nat k)) as ->.
    { by apply lookup_seqZ. }
    cbn [fmap option_fmap option_map]. f_equal. unfold loc_of.
    replace (a + Z.of_nat k - vm_start x) with (PAGE_SIZE * i + (a - vm_start x - PAGE_SIZE * i + Z.of_nat k)) by lia.
    set (r := a - vm_start x - PAGE_SIZE * i + Z.of_nat k). assert (0 ≤ r < PAGE_SIZE) by lia.
    rewrite Z.mul_comm, Z.div_add_l, Z.div_small, Z.add_0_r, Hp by done. cbn [default]. f_equal.
    rewrite Z.add_comm, Z.mod_add, Z.mod_small by done. done.
  - apply lookup_ge_None in Hy. rewrite length_seqZ in Hy. symmetry. destruct (seqZ _ _ !! k) as [z|] eqn:Hz; [|done]. apply lookup_seqZ in Hz. lia.
Qed.

Lemma s32_id z : 0 ≤ z < 2 ^ 31 → s32 z = z.
Proof. intros. apply s32_small. lia. Qed.

Section pages_loop.
Context (from : bool) (x : vm_area_struct) (start end_ : Z).
Context (Hx : area_ok x) (Hs : vm_start x ≤ start) (Hse : start < end_) (He : end_ ≤ vm_end x).
Context (Hres : ∀ i, 0 ≤ i < Z.of_nat (length (pages x)) → is_Some (page_at x i)).

Definition index (a : Z) : Z := s32 (Z.shiftr (u64 (a - vm_start x)) PAGE_SHIFT).
Lemma index_ok a : vm_start x ≤ a < vm_end x → index a = (a - vm_start x) / PAGE_SIZE ∧ 0 ≤ index a < Z.of_nat (length (pages x)).
Proof.
  intros Ha. destruct Hx. unfold index. rewrite u64_small by lia. rewrite Z.shiftr_div_pow2 by done. change (2 ^ PAGE_SHIFT) with PAGE_SIZE.
  assert (0 ≤ (a - vm_start x) / PAGE_SIZE < Z.of_nat (length (pages x))).
  { split; [apply Z.div_pos; [lia|done]|]. apply Z.div_lt_upper_bound; [done|]. lia. }
  unfold PAGE_SIZE in ar_pages. rewrite s32_id by lia. done.
Qed.

(** The first address of the range in page [i]. *)
Definition lo (i : Z) : Z := if i =? index start then start else vm_start x + PAGE_SIZE * i.
Definition hi (i : Z) : Z := if i =? index (end_ - 1) then end_ else vm_start x + PAGE_SIZE * (i + 1).

Lemma lo_hi i : index start ≤ i ≤ index (end_ - 1) →
  vm_start x + PAGE_SIZE * i ≤ lo i ∧ lo i < hi i ≤ vm_start x + PAGE_SIZE * (i + 1) ∧ hi i ≤ end_.
Proof.
  intros Hi. destruct (index_ok start ltac:(lia)) as [H1 _]. destruct (index_ok (end_ - 1) ltac:(lia)) as [H2 _]. unfold lo, hi.
  pose proof (Z.div_mod (start - vm_start x) PAGE_SIZE ltac:(done)). pose proof (Z.mod_pos_bound (start - vm_start x) PAGE_SIZE ltac:(done)).
  pose proof (Z.div_mod (end_ - 1 - vm_start x) PAGE_SIZE ltac:(done)). pose proof (Z.mod_pos_bound (end_ - 1 - vm_start x) PAGE_SIZE ltac:(done)).
  rewrite <-H1, <-H2 in *. unfold PAGE_SIZE in *. destruct (Z.eqb_spec i (index start)), (Z.eqb_spec i (index (end_ - 1))); subst; nia.
Qed.
Lemma hi_lo i : index start ≤ i < index (end_ - 1) → hi i = lo (i + 1).
Proof. intros Hi. unfold hi, lo. rewrite !(proj2 (Z.eqb_neq _ _)) by lia. done. Qed.

(** The offset and the size that the loops compute for page [i]. *)
Definition offset (i : Z) : Z := if i =? index start then s32 (u64 (start - vm_start x) mod PAGE_SIZE) else 0.
Lemma offset_ok i : index start ≤ i ≤ index (end_ - 1) → offset i = lo i - vm_start x - PAGE_SIZE * i ∧ 0 ≤ offset i < PAGE_SIZE.
Proof.
  intros Hi. pose proof (lo_hi i Hi). unfold offset, lo in *. destruct (Z.eqb_spec i (index start)) as [->|]; [|unfold PAGE_SIZE; lia].
  destruct (index_ok start ltac:(lia)) as [H1 _]. rewrite u64_small by (destruct Hx; lia).
  pose proof (Z.div_mod (start - vm_start x) PAGE_SIZE ltac:(done)). pose proof (Z.mod_pos_bound (start - vm_start x) PAGE_SIZE ltac:(done)).
  rewrite s32_id by (unfold PAGE_SIZE in *; lia). rewrite H1. lia.
Qed.

Lemma page_align_down a : 0 ≤ a < 2 ^ 64 → PAGE_ALIGN_DOWN a = PAGE_SIZE * (a / PAGE_SIZE).
Proof.
  intros Ha. change (PAGE_ALIGN_DOWN a) with (round_down a (2 ^ 12)). by apply round_down_pow2.
Qed.

Lemma size_ok i : index start ≤ i ≤ index (end_ - 1) →
  (if i =? index (end_ - 1) then s32 (u64 (end_ - PAGE_ALIGN_DOWN (u64 (end_ - 1)) - offset i))
   else if i =? index start then s32 (PAGE_SIZE - offset i) else PAGE_SIZE) = hi i - lo i.
Proof.
  intros Hi. pose proof (lo_hi i Hi) as (Hl1 & Hl2 & _). destruct (offset_ok i Hi) as [Ho Ho2]. destruct Hx.
  destruct (Z.eqb_spec i (index (end_ - 1))) as [Heq|Hne].
  - destruct (index_ok (end_ - 1) ltac:(lia)) as [H2 _]. rewrite (u64_small (end_ - 1)) by lia. rewrite page_align_down by lia.
    assert (Hd : (end_ - 1) / PAGE_SIZE = vm_start x / PAGE_SIZE + i).
    { destruct ar_start as [k Hk]. rewrite Heq, H2, Hk. rewrite Z.div_mul by done.
      replace (end_ - 1) with ((end_ - 1 - k * PAGE_SIZE) + k * PAGE_SIZE) at 1 by lia. rewrite Z.div_add by done. lia. }
    rewrite Hd. destruct ar_start as [k Hk]. rewrite Hk, Z.div_mul by done.
    assert (Hhi : hi i = end_) by (unfold hi; by rewrite (proj2 (Z.eqb_eq _ _) Heq)). rewrite Ho, Hhi in *. unfold PAGE_SIZE in *.
    rewrite u64_small by lia. rewrite s32_id by lia. lia.
  - assert (Hhi : hi i = vm_start x + PAGE_SIZE * (i + 1)) by (unfold hi; by rewrite (proj2 (Z.eqb_neq _ _) Hne)). rewrite Hhi in *.
    destruct (Z.eqb_spec i (index start)) as [Hst|Hst]; [rewrite Ho, s32_id by (unfold PAGE_SIZE in *; lia); lia|].
    unfold lo. rewrite (proj2 (Z.eqb_neq _ _) Hst). lia.
Qed.

Lemma copy_pages_run n : ∀ i cp c,
  index start ≤ i ≤ index (end_ - 1) + 1 → Z.of_nat n = index (end_ - 1) + 1 - i →
  copy_pages_loop n from x start end_ (index start) (index (end_ - 1)) i cp c =
    match n with
    | O => Some (cp, c)
    | _ => (λ c', (u64 (cp - (end_ - lo i)), c')) <$> copy_list from (locs x (lo i) end_) c
    end.
Proof.
  induction n as [|n IH]; intros i cp c Hi Hn; [done|]. assert (Hi' : index start ≤ i ≤ index (end_ - 1)) by lia.
  pose proof (lo_hi i Hi') as (Hl1 & Hl2 & Hl3). destruct (offset_ok i Hi') as [Ho Ho2].
  destruct (index_ok start ltac:(lia)) as [_ Hi1]. destruct (index_ok (end_ - 1) ltac:(lia)) as [_ Hi2].
  destruct (Hres i ltac:(lia)) as [p Hp]. cbn [copy_pages_loop]. rewrite Hp. cbn [mbind option_bind]. cbv zeta.
  fold (offset i). rewrite (size_ok i Hi'). rewrite (proj2 (Z.ltb_ge _ _)) by lia.
  rewrite memcpy_list, Z2Nat.id, Ho by lia. rewrite <-(locs_page x i p (lo i) (hi i) Hp) by lia.
  rewrite (locs_split x (lo i) (hi i) end_) by lia. rewrite copy_list_app.
  destruct (copy_list from (locs x (lo i) (hi i)) c) as [c1|]; [|done]. cbn [mbind option_bind].
  rewrite IH by lia. destruct n as [|n].
  - assert (hi i = end_) as -> by (unfold hi; by rewrite (proj2 (Z.eqb_eq _ _)) by lia). by rewrite locs_nil.
  - rewrite hi_lo by lia. rewrite <-hi_lo by lia. destruct (copy_list from (locs x (hi i) end_) c1); [|done].
    cbn [fmap option_fmap option_map]. do 2 f_equal. rewrite u64_sub_l. f_equal. lia.
Qed.
End pages_loop.

Lemma lo_start x start : area_ok x → lo x start (index x start) = start.
Proof. intros _. unfold lo. by rewrite Z.eqb_refl. Qed.

(** One area of the walk: [start] is inside it, or at its beginning with nothing left. *)
Lemma area_copy_run from x start end_ cp c :
  area_ok x → (∀ i, 0 ≤ i < Z.of_nat (length (pages x)) → is_Some (page_at x i)) →
  vm_start x ≤ start → start ≤ end_ ≤ vm_end x → (start < end_ ∨ start = vm_start x) → 0 ≤ cp < 2 ^ 64 →
  let ei := s32 (Z.shiftr (u64 (u64 (end_ - 1) - vm_start x)) PAGE_SHIFT) in
  copy_pages_loop (Z.to_nat (ei + 1 - index x start)) from x start end_ (index x start) ei (index x start) cp c =
    (λ c', (u64 (cp - (end_ - start)), c')) <$> copy_list from (locs x start end_) c.
Proof.
  intros Hx Hres Hs He Hor Hcp. cbv zeta. rewrite u64_sub_l. fold (index x (end_ - 1)). destruct (decide (start = end_)) as [->|Hne].
  - assert (end_ = vm_start x) as Hend by lia. rewrite Hend.
    assert (Hidx : index x (vm_start x - 1) = -1).
    { unfold index. replace (vm_start x - 1 - vm_start x) with (-1) by lia. reflexivity. }
    assert (Hidx0 : index x (vm_start x) = 0) by (unfold index; rewrite Z.sub_diag; reflexivity).
    rewrite Hidx, Hidx0, locs_nil. change (Z.to_nat (-1 + 1 - 0)) with O. cbn. do 2 f_equal. rewrite u64_small; lia.
  - destruct (index_ok x Hx start ltac:(lia)) as [H1 _]. destruct (index_ok x Hx (end_ - 1) ltac:(lia)) as [H2 _].
    assert (Hle : index x start ≤ index x (end_ - 1)) by (rewrite H1, H2; apply Z.div_le_mono; [done|lia]).
    rewrite (copy_pages_run from x start end_ Hx Hs ltac:(lia) ltac:(lia) Hres) by lia.
    destruct (Z.to_nat _) eqn:Hn; [lia|]. by rewrite lo_start.
Qed.

(** ** The walk over the areas *)

Section walk.
Context {A : Type} `{PageSourceLaws A}.
Implicit Types s : vmm A.

(** The bytes that the walk visits, from [start] at the beginning of the first
    area on, and where it stops. *)
Fixpoint walk_locs (vma : loc → vm_area_struct) (l : list loc) (start end_ : Z) : list (Z * Z) :=
  match l with
  | [] => []
  | v :: l =>
      if start =? vm_start (vma v) then
        let e := Z.min end_ (vm_end (vma v)) in locs (vma v) start e ++ walk_locs vma l e end_
      else []
  end.
Fixpoint walk_stop (vma : loc → vm_area_struct) (l : list loc) (start end_ : Z) : Z :=
  match l with
  | [] => start
  | v :: l => if start =? vm_start (vma v) then walk_stop vma l (Z.min end_ (vm_end (vma v))) end_ else start
  end.

Lemma next_vma_run h vma mm t fuel s l1 v l2 :
  vma_tree h vma mm t → mm_heap s = h → (rb_depth (length (inorder t)) ≤ fuel)%nat → inorder t = l1 ++ v :: l2 →
  mmap_next_vma fuel (Some v) s = Some (head l2, s).
Proof.
  intros (Hrep & Hv & _) Hh Hf Hl. unfold mmap_next_vma, on_tree. rewrite Hh.
  rewrite (proj1 (rb_next_prev_run h mm t fuel l1 v l2 Hrep Hv Hf Hl)). cbn [mbind option_bind]. rewrite <-Hh. by destruct s.
Qed.

Definition pages_there (x : vm_area_struct) : Prop := ∀ i, 0 ≤ i < Z.of_nat (length (pages x)) → is_Some (page_at x i).

Section loop.
Context (from : bool) (mm : loc) (t : tree) (fuel : nat) (s : vmm A) (end_ : Z).
Context (Ht : vma_tree (mm_heap s) (vma_of s) mm t) (Hf : (rb_depth (length (inorder t)) ≤ fuel)%nat).
Context (Hres : ∀ v, v ∈ inorder t → pages_there (vma_of s v)) (Hend : 0 ≤ end_ < 2 ^ 64).

(** The body of the loop on an area that it takes. *)
Lemma memcpy_body turns (curr : ptr) l1 v l2 start c :
  inorder t = l1 ++ v :: l2 → vm_start (vma_of s v) ≤ start < vm_end (vma_of s v) → start ≤ end_ →
  (start < end_ ∨ start = vm_start (vma_of s v)) → (Some v = curr ∨ start = vm_start (vma_of s v)) →
  let e := Z.min end_ (vm_end (vma_of s v)) in
  memcpy_loop (S turns) fuel from curr (Some v) start end_ (end_ - start) c s =
    c' ← copy_list from (locs (vma_of s v) start e) c; memcpy_loop turns fuel from curr (head l2) e end_ (end_ - e) c' s.
Proof.
  intros Hl Hs Hse Hor Hcur e. pose proof Ht as (_ & _ & _ & Har). assert (Hv : v ∈ inorder t) by (rewrite Hl; set_solver).
  cbn [memcpy_loop]. match goal with |- (if ?b then _ else _) = _ => assert (b = false) as -> end.
  { destruct Hcur as [<-| ->]; [by rewrite bool_decide_true|]. by rewrite Z.eqb_refl, andb_false_r. }
  cbv zeta. fold (index (vma_of s v) start). assert (He : e = Z.min end_ (vm_end (vma_of s v))) by done. clearbody e.
  assert ((if end_ >? vm_end (vma_of s v) then vm_end (vma_of s v) else end_) = e) as ->.
  { rewrite Z.gtb_ltb. destruct (Z.ltb_spec (vm_end (vma_of s v)) end_); lia. }
  pose proof (ar_range _ (Har v Hv)).
  rewrite (area_copy_run from (vma_of s v) start e (end_ - start) c (Har v Hv) (Hres v Hv) ltac:(lia) ltac:(lia) ltac:(lia) ltac:(lia)).
  destruct (copy_list from (locs (vma_of s v) start e) c) as [c'|]; [|done]. cbn [fmap option_fmap option_map mbind option_bind].
  rewrite (next_vma_run _ _ mm t fuel s l1 v l2 Ht) by done. cbn [mbind option_bind].
  replace (end_ - start - (e - start)) with (end_ - e) by lia. rewrite (u64_small (end_ - e)) by lia. rewrite (u64_small (e + (end_ - e))) by lia.
  by replace (e + (end_ - e)) with end_ by lia.
Qed.

Lemma memcpy_walk l : ∀ turns u l1 start c,
  inorder t = l1 ++ l → u ∉ l → (length l ≤ turns)%nat → 0 ≤ start ≤ end_ →
  memcpy_loop turns fuel from (Some u) (head l) start end_ (end_ - start) c s =
    (λ c', (end_ - walk_stop (vma_of s) l start end_, c', s)) <$> copy_list from (walk_locs (vma_of s) l start end_) c.
Proof.
  induction l as [|v l IH]; intros turns u l1 start c Hl Hu Hn Hs.
  { by destruct turns. }
  destruct turns as [|turns]; [simpl in Hn; lia|]. cbn [head walk_locs walk_stop]. rewrite not_elem_of_cons in Hu. destruct Hu as [Huv Hu].
  destruct (Z.eqb_spec start (vm_start (vma_of s v))) as [Heq|Hne]; cycle 1.
  { cbn [memcpy_loop]. rewrite bool_decide_false by congruence. by rewrite (proj2 (Z.eqb_neq _ _)). }
  pose proof Ht as (_ & _ & _ & Har). pose proof (ar_range _ (Har v ltac:(rewrite Hl; set_solver))).
  rewrite (memcpy_body turns (Some u) l1 v l start c) by (first [done|lia|by right]). rewrite copy_list_app.
  destruct (copy_list from (locs _ _ _) c) as [c'|]; [|done]. cbn [mbind option_bind].
  apply (IH turns u (l1 ++ [v])); [by rewrite <-app_assoc|done|simpl in Hn; lia|lia].
Qed.

Lemma memcpy_first turns l1 v l2 start c :
  inorder t = l1 ++ v :: l2 → vm_start (vma_of s v) ≤ start < vm_end (vma_of s v) → start < end_ → (length (inorder t) ≤ turns)%nat →
  let e := Z.min end_ (vm_end (vma_of s v)) in
  memcpy_loop turns fuel from (Some v) (Some v) start end_ (end_ - start) c s =
    (λ c', (end_ - walk_stop (vma_of s) l2 e end_, c', s)) <$> copy_list from (locs (vma_of s v) start e ++ walk_locs (vma_of s) l2 e end_) c.
Proof.
  intros Hl Hs Hse Hn e. pose proof Ht as ((_ & _ & Hnd) & _ & _ & Har). rewrite Hl in Hnd. apply NoDup_app in Hnd as (_ & _ & Hnd).
  apply NoDup_cons in Hnd as [Hv _]. pose proof (ar_range _ (Har v ltac:(rewrite Hl; set_solver))).
  rewrite Hl, length_app in Hn. destruct turns as [|turns]; [simpl in Hn; lia|].
  rewrite (memcpy_body turns (Some v) l1 v l2 start c) by (first [done|lia|by left]). fold e. rewrite copy_list_app.
  destruct (copy_list from (locs _ _ _) c) as [c'|]; [|done]. cbn [mbind option_bind].
  apply (memcpy_walk l2 turns v (l1 ++ [v])); [by rewrite <-app_assoc|done|simpl in Hn; lia|lia].
Qed.
End loop.

(** ** The address space as a map *)

#[global] Instance contains_dec x a : Decision (contains x a).
Proof. unfold contains. apply _. Defined.

Definition user_loc (vma : loc → vm_area_struct) (l : list loc) (a : Z) : option (Z * Z) :=
  v ← head (filter (λ v, contains (vma v) a) l); Some (loc_of (vma v) a).

Lemma user_loc_in h vma mm t v a :
  vma_tree h vma mm t → v ∈ inorder t → contains (vma v) a → user_loc vma (inorder t) a = Some (loc_of (vma v) a).
Proof.
  intros Ht Hv Hc. unfold user_loc. destruct (filter (λ u, contains (vma u) a) (inorder t)) as [|u l] eqn:Hf.
  - exfalso. eapply not_elem_of_nil. rewrite <-Hf. by apply list_elem_of_filter.
  - assert (u ∈ filter (λ u, contains (vma u) a) (inorder t)) as Hu by (rewrite Hf; set_solver).
    apply list_elem_of_filter in Hu as [Hcu Hu]. cbn [head mbind option_bind]. by rewrite (contains_unique h vma mm t u v a).
Qed.
Lemma user_loc_out vma l a : (∀ v, v ∈ l → ¬ contains (vma v) a) → user_loc vma l a = None.
Proof.
  intros Hn. unfold user_loc. destruct (filter (λ u, contains (vma u) a) l) as [|u l'] eqn:Hf; [done|]. exfalso.
  assert (u ∈ filter (λ u, contains (vma u) a) l) as Hu by (rewrite Hf; set_solver). apply list_elem_of_filter in Hu as [Hcu Hu]. by eapply Hn.
Qed.
Lemma user_loc_some vma l a po : user_loc vma l a = Some po → ∃ v, v ∈ l ∧ contains (vma v) a ∧ po = loc_of (vma v) a.
Proof.
  unfold user_loc. destruct (filter (λ u, contains (vma u) a) l) as [|u l'] eqn:Hf; [done|]. intros [= <-]. exists u.
  assert (u ∈ filter (λ u, contains (vma u) a) l) as Hu by (rewrite Hf; set_solver). apply list_elem_of_filter in Hu as [Hcu Hu]. done.
Qed.

(** The list is the bytes of the addresses from [a] up to [b]. *)
Definition visits (vma : loc → vm_area_struct) (l : list loc) (a b : Z) (ls : list (Z * Z)) : Prop :=
  Some <$> ls = user_loc vma l <$> seqZ a (b - a).

Lemma visits_app vma l a b c l1 l2 : a ≤ b ≤ c → visits vma l a b l1 → visits vma l b c l2 → visits vma l a c (l1 ++ l2).
Proof.
  unfold visits. intros Hab H1 H2. rewrite fmap_app, H1, H2, <-fmap_app. f_equal. replace (c - a) with ((b - a) + (c - b)) by lia.
  rewrite seqZ_app by lia. by replace (a + (b - a)) with b by lia.
Qed.
Lemma visits_nil vma l a : visits vma l a a [].
Proof. unfold visits. by rewrite Z.sub_diag. Qed.
Lemma visits_lookup vma l a b ls (k : nat) po : visits vma l a b ls → ls !! k = Some po → user_loc vma l (a + Z.of_nat k) = Some po ∧ a + Z.of_nat k < b.
Proof.
  intros Hv Hk. assert (Hk' : (Some <$> ls) !! k = Some (Some po)) by (by rewrite list_lookup_fmap, Hk).
  rewrite Hv, list_lookup_fmap in Hk'. destruct (seqZ a (b - a) !! k) as [y|] eqn:Hy; [|done]. injection Hk' as Hk'.
  apply lookup_seqZ in Hy as [-> ?]. split; [done|lia].
Qed.
Lemma visits_length vma l a b ls : a ≤ b → visits vma l a b ls → Z.of_nat (length ls) = b - a.
Proof. intros Hab Hv. apply (f_equal length) in Hv. rewrite !length_fmap, length_seqZ in Hv. lia. Qed.

Section visits.
Context (h : heap) (vma : loc → vm_area_struct) (mm : loc) (t : tree) (Ht : vma_tree h vma mm t).

Lemma locs_visits v a b : v ∈ inorder t → vm_start (vma v) ≤ a → a ≤ b ≤ vm_end (vma v) → visits vma (inorder t) a b (locs (vma v) a b).
Proof.
  intros Hv Ha Hb. unfold visits, locs. rewrite <-list_fmap_compose. apply list_fmap_ext. intros i y Hy.
  apply lookup_seqZ in Hy as [-> Hi]. cbn. symmetry. eapply user_loc_in; [done|done|]. unfold contains. lia.
Qed.

Lemma walk_done l end_ : (∀ u, u ∈ l → vm_start (vma u) < vm_end (vma u)) → walk_stop vma l end_ end_ = end_ ∧ walk_locs vma l end_ end_ = [].
Proof.
  induction l as [|v l IH]; intros Hl; [done|]. cbn [walk_stop walk_locs]. destruct (Z.eqb_spec end_ (vm_start (vma v))) as [Heq|]; [|done].
  cbv zeta. pose proof (Hl v ltac:(set_solver)). rewrite Z.min_l by lia. rewrite locs_nil. cbn [app]. apply IH. set_solver.
Qed.

Lemma walk_visits l : ∀ l1 start end_,
  inorder t = l1 ++ l → start ≤ end_ →
  (start = end_ ∨ (∀ u, u ∈ l1 → vm_end (vma u) ≤ start) ∧ ∀ u, u ∈ l → start ≤ vm_start (vma u)) →
  start ≤ walk_stop vma l start end_ ≤ end_ ∧ visits vma (inorder t) start (walk_stop vma l start end_) (walk_locs vma l start end_) ∧
  (walk_stop vma l start end_ = end_ ∨ user_loc vma (inorder t) (walk_stop vma l start end_) = None).
Proof.
  pose proof Ht as (_ & _ & Hsort & Har).
  induction l as [|v l IH]; intros l1 start end_ Hl Hse Hpos; (destruct Hpos as [->|[H1 H2]];
    [destruct (walk_done _ end_ ltac:(intros u Hu; apply ar_range, Har; rewrite Hl; apply elem_of_app; right; exact Hu)) as [-> ->];
     split; [lia|]; split; [apply visits_nil|by left]|]); cbn [walk_stop walk_locs].
  { split; [lia|]. split; [apply visits_nil|right]. apply user_loc_out. intros u Hu. rewrite Hl, app_nil_r in Hu.
    unfold contains. specialize (H1 u Hu). lia. }
  assert (Hv : v ∈ inorder t) by (rewrite Hl; set_solver). pose proof (ar_range _ (Har v Hv)).
  rewrite Hl in Hsort. apply sorted_app in Hsort as (Hb1 & Hb2 & _). unfold below in Hb1, Hb2.
  destruct (Z.eqb_spec start (vm_start (vma v))) as [Heq|Hne]; cycle 1.
  { split; [lia|]. split; [apply visits_nil|]. right. apply user_loc_out. intros u. rewrite Hl.
    unfold contains. intros [Hu|[->|Hu]%elem_of_cons]%elem_of_app; [specialize (H1 u Hu); lia|specialize (H2 v ltac:(set_solver)); lia|].
    specialize (H2 v ltac:(set_solver)). specialize (Hb2 u Hu). lia. }
  cbv zeta. set (e := Z.min end_ (vm_end (vma v))). assert (He : e = Z.min end_ (vm_end (vma v))) by done. clearbody e.
  destruct (IH (l1 ++ [v]) e end_) as (Ha & Hb & Hc); [by rewrite <-app_assoc|lia| |].
  { destruct (decide (e = end_)) as [|]; [by left|right]. split.
    - intros u [Hu|Hu]%elem_of_app; [specialize (H1 u Hu); lia|]. apply list_elem_of_singleton in Hu as ->. lia.
    - intros u Hu. specialize (Hb2 u Hu). lia. }
  split; [lia|]. split; [|done]. apply (visits_app _ _ _ e); [lia| |done]. apply locs_visits; [done|lia|lia].
Qed.
End visits.

(** ** The copy of a range *)

(** The pages of all areas are there. *)
Definition mapped_ok (mm : loc) s (t : tree) : Prop :=
  vma_tree (mm_heap s) (vma_of s) mm t ∧ ∀ v, v ∈ inorder t → resident (page_mem s) (vma_of s v).
(** No page frame is used twice. *)
Definition unshared (vma : loc → vm_area_struct) (l : list loc) : Prop :=
  ∀ u v i j p, u ∈ l → v ∈ l → page_at (vma u) i = Some p → page_at (vma v) j = Some p → u = v ∧ i = j.

Lemma resident_there m x : resident m x → pages_there x.
Proof. intros Hr i Hi. destruct (Hr i Hi) as (p & -> & _). done. Qed.

Lemma loc_of_ok m x a : area_ok x → resident m x → contains x a →
  ∃ p, page_at x ((a - vm_start x) / PAGE_SIZE) = Some p ∧ loc_of x a = (p, (a - vm_start x) mod PAGE_SIZE) ∧ frame_ok m p ∧
    0 ≤ (a - vm_start x) mod PAGE_SIZE < PAGE_SIZE.
Proof.
  intros Hx Hr Hc. unfold contains in Hc. destruct (Hr ((a - vm_start x) / PAGE_SIZE)) as (p & Hp & Hf).
  { destruct Hx. split; [apply Z.div_pos; [lia|done]|]. apply Z.div_lt_upper_bound; [done|]. lia. }
  exists p. unfold loc_of. rewrite Hp. split; [done|]. split; [done|]. split; [done|]. by apply Z.mod_pos_bound.
Qed.

Lemma visits_ok mm s t a b ls : mapped_ok mm s t → visits (vma_of s) (inorder t) a b ls → bytes_ok (page_mem s) ls.
Proof.
  intros [Ht Hres] Hv p o [k Hk]%list_elem_of_lookup. destruct (visits_lookup _ _ _ _ _ _ _ Hv Hk) as [Hu _].
  apply user_loc_some in Hu as (v & Hin & Hc & Heq). destruct Ht as (_ & _ & _ & Har).
  destruct (loc_of_ok _ _ _ (Har v Hin) (Hres v Hin) Hc) as (p' & _ & Heq' & Hf & Ho). rewrite Heq' in Heq. by injection Heq as -> ->.
Qed.

(** Different addresses have different bytes. *)
Lemma user_loc_inj mm s t a b po : mapped_ok mm s t → unshared (vma_of s) (inorder t) →
  user_loc (vma_of s) (inorder t) a = Some po → user_loc (vma_of s) (inorder t) b = Some po → a = b.
Proof.
  intros [Ht Hres] Hun Ha Hb. pose proof Ht as (_ & _ & _ & Har).
  apply user_loc_some in Ha as (u & Hu & Hcu & ->). apply user_loc_some in Hb as (v & Hv & Hcv & Heq).
  destruct (loc_of_ok _ _ _ (Har u Hu) (Hres u Hu) Hcu) as (p & Hp & Hlp & _). destruct (loc_of_ok _ _ _ (Har v Hv) (Hres v Hv) Hcv) as (q & Hq & Hlq & _).
  rewrite Hlp, Hlq in Heq. injection Heq as -> Hmod. destruct (Hun u v _ _ q Hu Hv Hp Hq) as [-> Hdiv].
  pose proof (Z.div_mod (a - vm_start (vma_of s v)) PAGE_SIZE ltac:(done)). pose proof (Z.div_mod (b - vm_start (vma_of s v)) PAGE_SIZE ltac:(done)).
  rewrite Hdiv, Hmod in *. lia.
Qed.
Lemma visits_nodup mm s t a b ls : mapped_ok mm s t → unshared (vma_of s) (inorder t) → visits (vma_of s) (inorder t) a b ls → NoDup ls.
Proof.
  intros Hok Hun Hv. apply NoDup_alt. intros i j po Hi Hj. apply (visits_lookup _ _ _ _ _ _ _ Hv) in Hi as [Hi _], Hj as [Hj _].
  pose proof (user_loc_inj _ _ _ _ _ _ Hok Hun Hi Hj). lia.
Qed.

Lemma find_area_run mm s t fuel addr : vma_tree (mm_heap s) (vma_of s) mm t → (rb_depth (length (inorder t)) ≤ fuel)%nat →
  ∃ r, mmap_find_vma_area fuel addr (Some mm) s = Some (r, s) ∧
    match r with
    | Some v => v ∈ inorder t ∧ contains (vma_of s v) addr
    | None => ∀ v, v ∈ inorder t → ¬ contains (vma_of s v) addr
    end.
Proof.
  intros Ht Hf. destruct (find_vma_run _ _ fuel mm t addr Ht Hf) as (r & Hrun & Hr). exists r. split; [|done].
  unfold mmap_find_vma_area, on_tree. rewrite Hrun. by destruct s.
Qed.

(** The addresses of a range that are mapped without a gap from its beginning on. *)
Definition prefix_of (vma : loc → vm_area_struct) (l : list loc) (addr size n : Z) : Prop :=
  0 ≤ n ≤ size ∧ (n = size ∨ user_loc vma l (addr + n) = None).

Lemma memcpy_vma_run from mm s t turns fuel b addr size :
  mapped_ok mm s t → (rb_depth (length (inorder t)) ≤ fuel)%nat → (length (inorder t) ≤ turns)%nat →
  0 < size < 2 ^ 31 → 0 ≤ addr → addr + size < 2 ^ 64 →
  ∃ n ls, prefix_of (vma_of s) (inorder t) addr size n ∧ visits (vma_of s) (inorder t) addr (addr + n) ls ∧
    __mmap_memcpy_vma turns fuel false (Some mm) (Some b) addr size from s =
      (λ c, (n, Some (buf c), set_mem (cmem c) s)) <$> copy_list from ls (mk_copying b 0 (page_mem s)).
Proof.
  intros [Ht Hres] Hf Hn Hsz Ha Hend. unfold __mmap_memcpy_vma. rewrite (proj2 (Z.eqb_neq _ _)) by lia.
  destruct (find_area_run mm s t fuel addr Ht Hf) as (r & -> & Hr). cbn [mbind option_bind]. destruct r as [v|].
  - destruct Hr as [Hv Hc]. unfold contains in Hc. pose proof Hv as (l1 & l2 & Hl)%list_elem_of_split. rewrite u64_small by lia.
    set (e := Z.min (addr + size) (vm_end (vma_of s v))). set (stop := walk_stop (vma_of s) l2 e (addr + size)).
    set (ls := locs (vma_of s v) addr e ++ walk_locs (vma_of s) l2 e (addr + size)).
    assert (He : e = Z.min (addr + size) (vm_end (vma_of s v))) by done.
    pose proof Ht as (_ & _ & Hsort & Har). rewrite Hl in Hsort. apply sorted_app in Hsort as (Hb1 & Hb2 & _). unfold below in Hb1, Hb2.
    destruct (walk_visits _ _ _ _ Ht l2 (l1 ++ [v]) e (addr + size)) as (Hs1 & Hs2 & Hs3); [by rewrite <-app_assoc|lia| |].
    { destruct (decide (e = addr + size)) as [|]; [by left|right]. split.
      - intros u [Hu|Hu]%elem_of_app; [specialize (Hb1 u Hu); pose proof (ar_range _ (Har v Hv)); lia|]. apply list_elem_of_singleton in Hu as ->. lia.
      - intros u Hu. specialize (Hb2 u Hu). lia. }
    fold stop in Hs1, Hs2, Hs3. exists (stop - addr), ls. replace (addr + (stop - addr)) with stop by lia. split; [|split].
    + split; [lia|]. replace (addr + (stop - addr)) with stop by lia. destruct Hs3; [left; lia|by right].
    + apply (visits_app _ _ _ e); [lia| |done]. eapply locs_visits; [done|done|lia|lia].
    + replace size with (addr + size - addr) at 2 by lia.
      rewrite (memcpy_first from mm t fuel s (addr + size) Ht Hf ltac:(intros u Hu; eapply resident_there, Hres, Hu) ltac:(lia)
        turns l1 v l2 addr (mk_copying b 0 (page_mem s)) Hl ltac:(lia) ltac:(lia) Hn).
      fold e. fold stop ls. destruct (copy_list from ls _) as [c|]; [|done]. cbn [fmap option_fmap option_map mbind option_bind].
      replace (size - (addr + size - stop)) with (stop - addr) by lia. by rewrite u64_small, s32_id by lia.
  - exists 0, []. rewrite Z.add_0_r. split; [split; [lia|right; rewrite Z.add_0_r; by apply user_loc_out]|].
    split; [apply visits_nil|]. assert (Hm : memcpy_loop turns fuel from None None addr (u64 (addr + size)) size (mk_copying b 0 (page_mem s)) s =
      Some (size, mk_copying b 0 (page_mem s), s)) by (by destruct turns).
    rewrite Hm. cbn. by rewrite Z.sub_diag.
Qed.
End walk.
