(* ===== verification/VmaString.v ===== *)
(** * Strings in the areas of a task

    [mmap_strnlen_vma] counts the bytes before the first zero byte or the first
    address that is not mapped. *)
From stdpp Require Import functions gmap sorting.
From S2P Require Import Prelude Rbtree RbtreeLogic RbtreeInsert RbtreeWalk RbtreeSpec RbtreeRun RbtreeKeyed PageSource Vma VmaFacts VmaCopy.

(** ** Scanning a list of bytes *)

(** Whether a zero byte was found, and the number of bytes before it. *)
Fixpoint scan (m : memory) (l : list (Z * Z)) (len : Z) : option (bool * Z) :=
  match l with
  | [] => Some (false, len)
  | (p, o) :: l => b ← get_byte m p o; if b =? 0 then Some (true, len) else scan m l (len + 1)
  end.

Lemma scan_app m l1 l2 len : scan m (l1 ++ l2) len = r ← scan m l1 len; if (r : bool * Z).1 then Some r else scan m l2 r.2.
Proof.
  revert len. induction l1 as [|[p o] l1 IH]; intros len; [done|]. cbn [app scan]. destruct (get_byte m p o) as [b|]; [|done].
  cbn [mbind option_bind]. destruct (b =? 0); [done|]. apply IH.
Qed.
Lemma scan_shift m l len d : scan m l (len + d) = (λ r, (r.1, r.2 + d)) <$> scan m l len.
Proof.
  revert len. induction l as [|[p o] l IH]; intros len; [done|]. cbn [scan]. destruct (get_byte m p o) as [b|]; [|done].
  cbn [mbind option_bind]. destruct (b =? 0); [done|]. rewrite <-IH. f_equal. lia.
Qed.

(** The bytes before the end are not zero, and the scan stops at a zero or at the end. *)
Lemma scan_ok m l : ∀ len, bytes_ok m l →
  ∃ f k, scan m l len = Some (f, len + Z.of_nat k) ∧ (k ≤ length l)%nat ∧ (f = false → k = length l) ∧ (f = true → (k < length l)%nat) ∧
    (∀ j p o, (j < k)%nat → l !! j = Some (p, o) → ∃ b, get_byte m p o = Some b ∧ b ≠ 0) ∧
    (f = true → ∀ p o, l !! k = Some (p, o) → get_byte m p o = Some 0).
Proof.
  induction l as [|[p o] l IH]; intros len Hok.
  { exists false, O. cbn. rewrite Z.add_0_r. split; [done|]. split; [lia|]. split; [done|]. split; [done|]. split; [intros; lia|done]. }
  destruct (Hok p o ltac:(set_solver)) as [Hp Ho]. destruct (get_byte_ok m p o Hp Ho) as [b Hb]. cbn [scan]. rewrite Hb. cbn [mbind option_bind].
  destruct (Z.eqb_spec b 0) as [->|Hb0].
  - exists true, O. rewrite Z.add_0_r. split; [done|]. split; [lia|]. split; [done|]. split; [simpl; lia|]. split; [intros; lia|].
    by intros _ p' o' [= <- <-].
  - destruct (IH (len + 1)) as (f & k & Hs & Hk & Hf & Ht & Hn & Hz); [intros p' o' H'; apply Hok; set_solver|].
    exists f, (S k). rewrite Hs. split; [do 2 f_equal; lia|]. cbn [length]. split; [lia|]. split; [intros E; rewrite Hf by done; done|].
    split; [intros E; specialize (Ht E); lia|]. split; [|done].
    intros [|j] p' o' Hj Hl; [injection Hl as <- <-; by exists b|]. apply (Hn j); [lia|done].
Qed.

Lemma strnlen_scan m n p o len : strnlen m n p o len = snd <$> scan m ((λ a, (p, a)) <$> seqZ o (Z.of_nat n)) len.
Proof.
  revert o len. induction n as [|n IH]; intros o len; [done|]. rewrite seqZ_cons by lia. cbn [fmap list_fmap strnlen scan].
  destruct (get_byte m p o) as [b|]; [|done]. cbn [mbind option_bind]. destruct (b =? 0); [done|].
  rewrite IH. do 4 f_equal; lia.
Qed.

(** ** The pages of one area *)

Section pages_loop.
Context (x : vm_area_struct) (start : Z) (m : memory).
Context (Hx : area_ok x) (Hs : vm_start x ≤ start < vm_end x) (Hres : resident m x).

Notation lo := (lo x start).
Notation ei := (index x (vm_end x - 1)).

Lemma hi_last i : index x start ≤ i ≤ ei → hi x (vm_end x) i = vm_start x + PAGE_SIZE * (i + 1).
Proof.
  intros Hi. unfold hi. destruct (Z.eqb_spec i ei) as [->|]; [|done]. destruct (index_ok x Hx (vm_end x - 1) ltac:(lia)) as [H2 _].
  destruct Hx. rewrite H2. replace (vm_end x - 1 - vm_start x) with (-1 + Z.of_nat (length (pages x)) * PAGE_SIZE) by lia.
  rewrite Z.div_add by done. change (-1 / PAGE_SIZE) with (-1). lia.
Qed.

Lemma chunk_size i : index x start ≤ i ≤ ei →
  (if i =? index x start then s32 (PAGE_SIZE - offset x start i) else PAGE_SIZE) = hi x (vm_end x) i - lo i.
Proof.
  intros Hi. pose proof (lo_hi x start (vm_end x) Hx ltac:(lia) ltac:(lia) ltac:(lia) i Hi) as (Hl1 & Hl2 & _).
  destruct (offset_ok x start (vm_end x) Hx ltac:(lia) ltac:(lia) ltac:(lia) i Hi) as [Ho Ho2]. rewrite hi_last by done.
  destruct (Z.eqb_spec i (index x start)) as [Heq|Hne].
  - rewrite s32_id by (unfold PAGE_SIZE in *; lia). lia.
  - unfold VmaCopy.lo. rewrite (proj2 (Z.eqb_neq _ _) Hne). lia.
Qed.

Lemma strnlen_pages_run n : ∀ i total,
  index x start ≤ i ≤ ei + 1 → Z.of_nat n = ei + 1 - i → 0 ≤ total → (n ≠ O → total + (vm_end x - lo i) < 2 ^ 31) →
  strnlen_pages_loop n x start (index x start) i total m =
    match n with O => Some (false, total) | _ => scan m (locs x (lo i) (vm_end x)) total end.
Proof.
  induction n as [|n IH]; intros i total Hi Hn Ht Hb'; [done|]. assert (Hi' : index x start ≤ i ≤ ei) by lia.
  pose proof (lo_hi x start (vm_end x) Hx ltac:(lia) ltac:(lia) ltac:(lia) i Hi') as (Hl1 & Hl2 & Hl3).
  destruct (offset_ok x start (vm_end x) Hx ltac:(lia) ltac:(lia) ltac:(lia) i Hi') as [Ho Ho2].
  destruct (index_ok x Hx start ltac:(lia)) as [_ Hi1]. destruct (index_ok x Hx (vm_end x - 1) ltac:(lia)) as [_ Hi2].
  destruct (Hres i ltac:(lia)) as (p & Hp & Hfp). cbn [strnlen_pages_loop]. rewrite Hp. cbn [mbind option_bind]. cbv zeta.
  fold (offset x start i). rewrite (chunk_size i Hi').
  rewrite strnlen_scan, Z2Nat.id, Ho by lia. rewrite <-(locs_page x i p (lo i) (hi x (vm_end x) i) Hp) by lia.
  rewrite (locs_split x (lo i) (hi x (vm_end x) i) (vm_end x)) by lia. rewrite scan_app.
  set (ls := locs x (lo i) (hi x (vm_end x) i)).
  pose proof (scan_shift m ls 0 total) as Hsh. rewrite Z.add_0_l in Hsh. rewrite Hsh.
  assert (Hlen : Z.of_nat (length ls) = hi x (vm_end x) i - lo i) by (unfold ls, locs; rewrite length_fmap, length_seqZ; lia).
  assert (Hok : bytes_ok m ls).
  { intros q o Hq. subst ls. rewrite (locs_page x i p _ _ Hp) in Hq by lia. apply list_elem_of_fmap in Hq as (y & [= -> ->] & Hy).
    apply elem_of_seqZ in Hy. split; [done|]. lia. }
  destruct (scan_ok m ls 0 Hok) as (f & k & Hsc & Hk & Hf & Htr & _ & _). rewrite Hsc. cbn [fmap option_fmap option_map mbind option_bind fst snd].
  destruct f.
  - specialize (Htr eq_refl). rewrite (proj2 (Z.ltb_lt _ _)) by lia. specialize (Hb' ltac:(done)). rewrite s32_id by lia. do 2 f_equal. lia.
  - rewrite Hf by done. rewrite (proj2 (Z.ltb_ge _ _)) by lia. specialize (Hb' ltac:(done)). rewrite s32_id by lia.
    destruct n as [|n].
    + assert (hi x (vm_end x) i = vm_end x) as Hh by (unfold hi; by rewrite (proj2 (Z.eqb_eq _ _)) by lia).
      rewrite Hh, locs_nil in *. cbn. do 2 f_equal. lia.
    + rewrite (hi_lo x start (vm_end x)) in * by lia. rewrite IH by lia. f_equal. lia.
Qed.
End pages_loop.

(** ** The walk over the areas *)

Section walk.
Context {A : Type} `{PageSourceLaws A}.
Context (mm : loc) (t : tree) (fuel : nat) (s : vmm A).
Context (Hok : mapped_ok mm s t) (Hf : (rb_depth (length (inorder t)) ≤ fuel)%nat).

(** Beyond every area. *)
Definition TOP : Z := 2 ^ 64 - 1.

Lemma strnlen_body turns (curr : ptr) l1 v l2 start total :
  inorder t = l1 ++ v :: l2 → vm_start (vma_of s v) ≤ start < vm_end (vma_of s v) → (Some v = curr ∨ start = vm_start (vma_of s v)) →
  0 ≤ total → total + (vm_end (vma_of s v) - start) < 2 ^ 31 →
  strnlen_loop (S turns) fuel curr (Some v) start total s =
    r ← scan (page_mem s) (locs (vma_of s v) start (vm_end (vma_of s v))) total;
    if (r : bool * Z).1 then Some (r.2, s) else strnlen_loop turns fuel curr (head l2) (vm_end (vma_of s v)) r.2 s.
Proof.
  intros Hl Hs Hcur Ht Hb. destruct Hok as [Htr Hres]. pose proof Htr as (_ & _ & _ & Har). assert (Hv : v ∈ inorder t) by (rewrite Hl; set_solver).
  cbn [strnlen_loop]. match goal with |- (if ?b then _ else _) = _ => assert (b = false) as -> end.
  { destruct Hcur as [<-| ->]; [by rewrite bool_decide_true|]. by rewrite Z.eqb_refl, andb_false_r. }
  cbv zeta. fold (index (vma_of s v) start). rewrite u64_sub_l. fold (index (vma_of s v) (vm_end (vma_of s v) - 1)).
  destruct (index_ok _ (Har v Hv) start ltac:(lia)) as [H1 _]. destruct (index_ok _ (Har v Hv) (vm_end (vma_of s v) - 1) ltac:(lia)) as [H2 _].
  assert (Hle : index (vma_of s v) start ≤ index (vma_of s v) (vm_end (vma_of s v) - 1)) by (rewrite H1, H2; apply Z.div_le_mono; [done|lia]).
  pose proof (lo_start _ start (Har v Hv)) as Hlo.
  rewrite (strnlen_pages_run _ start (page_mem s) (Har v Hv) ltac:(lia) (Hres v Hv)) by (rewrite ?Hlo; lia).
  rewrite Hlo. destruct (Z.to_nat _) eqn:Hn; [lia|]. destruct (scan _ _ _) as [[f k]|]; [|done]. cbn [mbind option_bind fst snd].
  destruct f; [done|]. by rewrite (next_vma_run _ _ mm t fuel s l1 v l2 Htr).
Qed.

Lemma strnlen_walk l : ∀ turns u l1 start total,
  inorder t = l1 ++ l → u ∉ l → (length l ≤ turns)%nat → 0 ≤ total →
  total + (walk_stop (vma_of s) l start TOP - start) < 2 ^ 31 → bytes_ok (page_mem s) (walk_locs (vma_of s) l start TOP) →
  strnlen_loop turns fuel (Some u) (head l) start total s =
    (λ r, (r.2, s)) <$> scan (page_mem s) (walk_locs (vma_of s) l start TOP) total.
Proof.
  destruct Hok as [Htr _]. pose proof Htr as (_ & _ & _ & Har).
  induction l as [|v l IH]; intros turns u l1 start total Hl Hu Hn Ht Hb Hbytes; [by destruct turns|].
  destruct turns as [|turns]; [simpl in Hn; lia|]. cbn [head walk_locs walk_stop] in *. rewrite not_elem_of_cons in Hu. destruct Hu as [Huv Hu].
  destruct (Z.eqb_spec start (vm_start (vma_of s v))) as [Heq|Hne]; cycle 1.
  { cbn [strnlen_loop]. rewrite bool_decide_false by congruence. by rewrite (proj2 (Z.eqb_neq _ _)). }
  cbv zeta in *. assert (Hv : v ∈ inorder t) by (rewrite Hl; set_solver). pose proof (ar_range _ (Har v Hv)). pose proof (ar_top _ (Har v Hv)).
  rewrite Z.min_r in * by (unfold TOP; lia). set (ls := locs (vma_of s v) start (vm_end (vma_of s v))) in *.
  assert (Hstop : vm_end (vma_of s v) ≤ walk_stop (vma_of s) l (vm_end (vma_of s v)) TOP).
  { assert (Hmono : ∀ l a, (∀ w, w ∈ l → w ∈ inorder t) → a ≤ TOP → a ≤ walk_stop (vma_of s) l a TOP).
    { clear -Har. induction l as [|w l IH]; intros a Hw Ha; cbn [walk_stop]; [lia|]. destruct (Z.eqb_spec a (vm_start (vma_of s w))) as [->|]; [|lia].
      pose proof (ar_range _ (Har w (Hw w ltac:(set_solver)))). etrans; [|apply IH; [set_solver|lia]]. lia. }
    apply Hmono; [rewrite Hl; set_solver|unfold TOP; lia]. }
  rewrite (strnlen_body turns (Some u) l1 v l start total) by (first [done|lia|by right]). fold ls. rewrite scan_app.
  destruct (scan_ok (page_mem s) ls total) as (f & k & Hsc & Hk & _); [intros p o Hpo; apply Hbytes; set_solver|].
  assert (Hlen : Z.of_nat (length ls) = vm_end (vma_of s v) - start) by (unfold ls, locs; rewrite length_fmap, length_seqZ; lia).
  rewrite Hsc. cbn [mbind option_bind fst snd]. destruct f; [done|].
  apply (IH turns u (l1 ++ [v])); [by rewrite <-app_assoc|done|simpl in Hn; lia|lia|lia|]. intros p o Hpo. apply Hbytes. set_solver.
Qed.

(** Some address less than 2 GiB further is not mapped. *)
Definition bounded_run (addr : Z) : Prop := ∃ k, 0 ≤ k < 2 ^ 31 - 1 ∧ user_loc (vma_of s) (inorder t) (addr + k) = None.

Definition byte_at (a : Z) : option Z := '(p, o) ← user_loc (vma_of s) (inorder t) a; get_byte (page_mem s) p o.

Lemma strnlen_run turns addr : (length (inorder t) ≤ turns)%nat → 0 ≤ addr → bounded_run addr →
  ∃ n, mmap_strnlen_vma turns fuel false (Some mm) addr s = Some (n + 1, s) ∧ 0 ≤ n < 2 ^ 31 - 1 ∧
    (∀ k, 0 ≤ k < n → ∃ b, byte_at (addr + k) = Some b ∧ b ≠ 0) ∧ (byte_at (addr + n) = None ∨ byte_at (addr + n) = Some 0).
Proof.
  intros Hn Ha (g & Hg & Hgap). unfold mmap_strnlen_vma. destruct (find_area_run mm s t fuel addr (proj1 Hok) Hf) as (r & -> & Hr).
  cbn [mbind option_bind]. destruct r as [v|]; cycle 1.
  { exists 0. assert (strnlen_loop turns fuel None None addr 0 s = Some (0, s)) as -> by (by destruct turns). cbn. split; [done|]. split; [lia|].
    split; [intros; lia|left]. unfold byte_at. rewrite Z.add_0_r. by rewrite user_loc_out. }
  destruct Hr as [Hv Hc]. unfold contains in Hc. pose proof Hok as [Htr _]. pose proof Htr as ((_ & _ & Hnd) & _ & Hsort & Har).
  pose proof Hv as (l1 & l2 & Hl)%list_elem_of_split. rewrite Hl in Hsort, Hnd. apply sorted_app in Hsort as (Hb1 & Hb2 & _). unfold below in Hb1, Hb2.
  apply NoDup_app in Hnd as (_ & _ & Hnd). apply NoDup_cons in Hnd as [Hvl _].
  pose proof (ar_range _ (Har v Hv)). pose proof (ar_top _ (Har v Hv)). set (e := vm_end (vma_of s v)) in *. set (stop := walk_stop (vma_of s) l2 e TOP).
  destruct (walk_visits _ _ _ _ Htr l2 (l1 ++ [v]) e TOP) as (Hs1 & Hs2 & Hs3); [by rewrite <-app_assoc|unfold TOP; lia| |].
  { right. split; [|intros u Hu; by apply Hb2]. intros u [Hu|Hu]%elem_of_app; [specialize (Hb1 u Hu); lia|]. apply list_elem_of_singleton in Hu as ->. done. }
  fold stop in Hs1, Hs2, Hs3. set (ls := locs (vma_of s v) addr e ++ walk_locs (vma_of s) l2 e TOP).
  assert (Hvis : visits (vma_of s) (inorder t) addr stop ls).
  { apply (visits_app _ _ _ e); [lia| |done]. eapply locs_visits; [done|done|lia|unfold e; lia]. }
  pose proof (visits_length _ _ addr stop ls ltac:(lia) Hvis) as Hlen. pose proof (visits_ok _ _ _ _ _ _ Hok Hvis) as Hbytes.
  assert (Hshort : stop - addr ≤ g).
  { destruct (Z.le_gt_cases (stop - addr) g); [done|]. exfalso. destruct (lookup_lt_is_Some_2 ls (Z.to_nat g)) as [po Hpo]; [lia|].
    apply (visits_lookup _ _ _ _ _ _ _ Hvis) in Hpo as [Hpo _]. rewrite Z2Nat.id in Hpo by lia. congruence. }
  assert (Hstopped : user_loc (vma_of s) (inorder t) stop = None).
  { destruct Hs3 as [Hs3|]; [|done]. apply user_loc_out. intros u Hu. unfold contains. pose proof (ar_top _ (Har u Hu)). unfold TOP in Hs3. lia. }
  rewrite Hl, length_app in Hn. destruct turns as [|turns]; [simpl in Hn; lia|].
  rewrite (strnlen_body turns (Some v) l1 v l2 addr 0 Hl) by (first [lia|by left]). fold e.
  destruct (scan_ok (page_mem s) ls 0 Hbytes) as (f & k & Hsc & Hk & Hff & Htt & Hnz & Hz).
  assert (Hrun : (r ← scan (page_mem s) (locs (vma_of s v) addr e) 0; if (r : bool * Z).1 then Some (r.2, s) else
      strnlen_loop turns fuel (Some v) (head l2) e r.2 s) = (λ r, (r.2, s)) <$> scan (page_mem s) ls 0).
  { unfold ls. rewrite scan_app. destruct (scan_ok (page_mem s) (locs (vma_of s v) addr e) 0) as (f1 & k1 & -> & Hk1 & _).
    { intros p o Hpo. apply Hbytes. set_solver. }
    assert (Hlen1 : Z.of_nat (length (locs (vma_of s v) addr e)) = e - addr) by (unfold locs; rewrite length_fmap, length_seqZ; lia).
    cbn [mbind option_bind fst snd]. destruct f1; [done|]. apply (strnlen_walk l2 turns v (l1 ++ [v])); [by rewrite <-app_assoc|done|simpl in Hn; lia|lia| |].
    - fold stop. lia.
    - intros p o Hpo. apply Hbytes. set_solver. }
  rewrite Hrun, Hsc. cbn [fmap option_fmap option_map mbind option_bind snd]. exists (Z.of_nat k). rewrite Z.add_0_l, s32_id by lia.
  split; [done|]. split; [lia|]. split.
  - intros j Hj. destruct (lookup_lt_is_Some_2 ls (Z.to_nat j)) as [[p o] Hpo]; [lia|]. destruct (Hnz (Z.to_nat j) p o ltac:(lia) Hpo) as (b & Hb & Hb0).
    apply (visits_lookup _ _ _ _ _ _ _ Hvis) in Hpo as [Hpo _]. rewrite Z2Nat.id in Hpo by lia. exists b. unfold byte_at. by rewrite Hpo.
  - destruct f; [right|left].
    + destruct (lookup_lt_is_Some_2 ls k) as [[p o] Hpo]; [by apply Htt|]. pose proof (Hz eq_refl p o Hpo) as Hb.
      apply (visits_lookup _ _ _ _ _ _ _ Hvis) in Hpo as [Hpo _]. unfold byte_at. by rewrite Hpo.
    + rewrite Hff by done. unfold byte_at. replace (addr + Z.of_nat (length ls)) with stop by lia. by rewrite Hstopped.
Qed.
End walk.
