(* ===== verification/VmaProps.v ===== *)
(** * What the virtual memory areas promise *)
From stdpp Require Import functions gmap sorting.
From S2P Require Import Prelude Rbtree RbtreeLogic RbtreeInsert RbtreeWalk RbtreeSpec RbtreeRun RbtreeKeyed PageAlloc PageAllocFacts PageAllocSpec PageAllocProps PageSource Vma VmaFacts VmaCopy VmaString.

Section props.
Context {A : Type} `{PageSourceLaws A}.
Implicit Types s : vmm A.

(** ** Private areas *)

Lemma page_at_frames x i p : private x = true → area_ok x → page_at x i = Some p → 0 ≤ i ∧ frames x !! Z.to_nat i = Some p.
Proof.
  intros Hp Hx. unfold page_at. destruct (Z.ltb_spec i 0); [done|]. rewrite (ar_private _ Hx Hp), list_lookup_fmap.
  destruct (frames x !! Z.to_nat i); [|done]. cbn. by intros [= ->].
Qed.

(** The pages of private areas are there and used once. *)
Lemma private_mapped mm s t : mm_inv mm s t → (∀ v, v ∈ inorder t → private (vma_of s v) = true) →
  mapped_ok mm s t ∧ unshared (vma_of s) (inorder t).
Proof.
  intros Hi Hp. pose proof (mi_tree _ _ _ Hi) as Ht. pose proof Ht as (_ & _ & _ & Har).
  assert (Hfr : ∀ v, v ∈ inorder t → owned_frames (vma_of s v) = frames (vma_of s v)) by (intros v Hv; unfold owned_frames; by rewrite Hp).
  split; [split; [done|]|].
  - intros v Hv i Hrg. unfold page_at. rewrite (proj2 (Z.ltb_ge _ _)) by lia. rewrite (ar_private _ (Har v Hv) (Hp v Hv)), list_lookup_fmap.
    rewrite (ar_private _ (Har v Hv) (Hp v Hv)), length_fmap in Hrg.
    destruct (lookup_lt_is_Some_2 (frames (vma_of s v)) (Z.to_nat i)) as [p Hpp]; [lia|]. rewrite Hpp. exists p. split; [done|].
    apply (mi_mem _ _ _ Hi). apply elem_of_own. exists v. rewrite Hfr by done. split; [done|]. by eapply list_elem_of_lookup_2.
  - intros u v i j p Hu Hv Hpu Hpv. apply page_at_frames in Hpu as [Hi0 Hpu]; [|auto..]. apply page_at_frames in Hpv as [Hj0 Hpv]; [|auto..].
    pose proof (mi_own _ _ _ Hi) as Hnd. apply list_elem_of_split in Hu as (l1 & l2 & Hl). rewrite Hl in Hnd, Hv.
    assert (Hperm : own_pages (vma_of s) (l1 ++ u :: l2) ≡ₚ owned_frames (vma_of s u) ++ own_pages (vma_of s) (l1 ++ l2)).
    { by rewrite <-Permutation_middle. }
    rewrite Hperm in Hnd. rewrite Hfr in Hnd by (rewrite Hl; set_solver). apply NoDup_app in Hnd as (Hnd & Hdis & _).
    destruct (decide (u = v)) as [<-|Hne].
    + split; [done|]. apply Z2Nat.inj; [done|done|]. by eapply NoDup_lookup.
    + exfalso. apply (Hdis p); [by eapply list_elem_of_lookup_2|]. apply elem_of_own. exists v. split; [set_solver|].
      rewrite Hfr by (rewrite Hl; set_solver). by eapply list_elem_of_lookup_2.
Qed.

(** ** Areas *)


(** [mmap_free_vmap_area] releases the area that contains the address: it
    leaves the tree, the others stay, its private pages go back to the
    allocator and no other page does; no [BUG_ON] fires.  An address in no area
    changes nothing. *)
Theorem mmap_free_vmap_area_correct mm s t fuel addr :
  mm_inv mm s t → (rb_depth (length (inorder t)) ≤ fuel)%nat →
  (∀ v, v ∈ inorder t → contains (vma_of s v) addr → ∃ s' t', mmap_free_vmap_area fuel addr (Some mm) s = Some s' ∧ destroyed mm s t v s' t') ∧
  ((∀ v, v ∈ inorder t → ¬ contains (vma_of s v) addr) → mmap_free_vmap_area fuel addr (Some mm) s = Some s).
Proof. apply free_run. Qed.

(** The allocator has [n] more pages. *)
Fixpoint supplies (n : nat) (a : A) : Prop :=
  match n with
  | O => True
  | S n => ∃ p a', alloc_page a = Some (Some p, a') ∧ supplies n a'
  end.

Fixpoint supplies_b (n : nat) (a : A) : bool :=
  match n with
  | O => true
  | S n => match alloc_page a with Some (Some p, a') => supplies_b n a' | _ => false end
  end.
Lemma supplies_b_ok n a : supplies_b n a = true → supplies n a.
Proof.
  revert a. induction n as [|n IH]; intros a; cbn; [done|]. destruct (alloc_page a) as [[[p|] a']|]; [|done..]. intros Hb. exists p, a'. auto.
Qed.

Lemma alloc_pages_all n : ∀ got s, source_ok (source s) → supplies n (source s) →
  ∃ ps s', alloc_pages_loop n got s = Some (true, got ++ ps, s') ∧ took s ps s' ∧ length ps = n.
Proof.
  intros got s Hs Hsup. destruct (alloc_pages_loop_run n got s Hs) as (all & ps & s' & Hrun & Htk & Hlen).
  assert (all = true) as ->; [|by exists ps, s'; split; [|split; [|apply Hlen]]]. clear Htk Hlen. revert got ps s s' Hs Hsup Hrun.
  induction n as [|n IH]; intros got ps s s' Hs Hsup Hrun; cbn in Hrun; [by injection Hrun|].
  destruct Hsup as (p & a & Ha & Hsup). rewrite Ha in Hrun. cbn in Hrun.
  destruct (alloc_page_ok (source s) Hs) as (r & a' & Ha' & Hok & _). rewrite Ha in Ha'. injection Ha' as <- <-.
  destruct (alloc_pages_loop_run n (got ++ [p]) (set_mem (<[p:=replicate (Z.to_nat PAGE_SIZE) 0]> (page_mem s)) (set_source a s)) Hok)
    as (all' & ps' & s2 & Hrun' & _ & _). rewrite Hrun' in Hrun. injection Hrun as <- _ _. by eapply IH; [..|exact Hrun'].
Qed.

Lemma get_private_eq mm s fuel v vstart size flags phys :
  good_request vstart size → 0 ≤ vstart → 0 ≤ size < 2 ^ 43 → vstart + size < 2 ^ 64 → Z.land flags VM_PRIVATE_SHARE =? 0 = true →
  mmap_get_vmap_area fuel (Some v) true vstart size flags (Some mm) phys s =
    '(all, ps, s1) ← alloc_pages_loop (Z.to_nat (size / PAGE_SIZE)) [] (with_cell v s);
    if all : bool then link_vma_area fuel mm v (new_area vstart size flags 0 (Some <$> ps)) s1
    else s1 ← free_pages_loop ps s1; Some (None, kfree_vma v s1).
Proof.
  intros Hgood H1 H2 H3 Hfl. unfold mmap_get_vmap_area. rewrite (proj2 (request_test vstart size H1 ltac:(lia)) Hgood). cbv zeta. cbn [negb].
  rewrite Hfl. assert (u32 (Z.shiftr size PAGE_SHIFT) = size / PAGE_SIZE) as ->.
  { rewrite Z.shiftr_div_pow2 by done. change (2 ^ PAGE_SHIFT) with PAGE_SIZE. apply u32_small. split; [apply Z.div_pos; [lia|done]|].
    apply Z.div_lt_upper_bound; unfold PAGE_SIZE; lia. }
  by rewrite u64_small by lia.
Qed.

(** When the requested range overlaps an area and the allocator has enough
    pages, [mmap_get_vmap_area] returns null and keeps them: all pages taken
    for the new area stay handed out although no area has them. *)
Theorem mmap_get_vmap_area_leak mm s t fuel v vstart size flags u :
  mm_inv mm s t → mm_heap s !! v = None → (rb_depth (length (inorder t)) < fuel)%nat → good_request vstart size →
  0 ≤ vstart → 0 ≤ size < 2 ^ 43 → vstart + size < 2 ^ 64 → Z.land flags VM_PRIVATE_SHARE = 0 →
  supplies (Z.to_nat (size / PAGE_SIZE)) (source s) → u ∈ inorder t → overlaps (vma_of s u) (new_area vstart size flags 0 []) →
  ∃ s' lost, mmap_get_vmap_area fuel (Some v) true vstart size flags (Some mm) 0 s = Some (None, s') ∧ mm_inv mm s' t ∧
    Z.of_nat (length lost) = size / PAGE_SIZE ∧ NoDup lost ∧
    ∀ p, p ∈ lost → ¬ handed_out (source s) p ∧ handed_out (source s') p ∧ p ∉ own_pages (vma_of s') (inorder t).
Proof.
  intros Hi Hv Hf Hgood H1 H2 H3 Hfl%Z.eqb_eq Hsup Hu Hov. pose proof (get_private_eq mm s fuel v vstart size flags 0 Hgood H1 H2 H3 Hfl) as Heq.
  destruct (get_run mm s t fuel (Some v) true vstart size flags 0 Hi ltac:(by intros ? [= <-]) Hf H1 H2 H3) as (r & s' & Hrun & Hres).
  destruct (alloc_pages_all (Z.to_nat (size / PAGE_SIZE)) [] (with_cell v s) (mi_source _ _ _ Hi) Hsup) as (ps & s1 & Hall & Htk & Hlen).
  rewrite Hrun, Hall in Heq. cbn [mbind option_bind app] in Heq. unfold link_vma_area, on_tree in Heq.
  destruct (__insert_vma_area _ _ _ _ _) as [[ok h]|]; [|done]. cbn [mbind option_bind] in Heq. destruct ok; injection Heq as -> ->.
  - destruct Hres as (_ & _ & ps' & phys & t' & Hcr & _). exfalso. apply (cr_apart _ _ _ _ _ _ _ Hcr u Hu). exact Hov.
  - destruct Hres as (Hi' & _ & Hvma & _). eexists _, ps. split; [done|]. split; [done|]. destruct Htk as [_ _ Hnd Hfr Hhd _ _].
    split; [rewrite Hlen, Z2Nat.id; [done|]; apply Z.div_pos; [lia|done]|]. split; [done|]. intros p Hp.
    split; [by apply Hfr|]. split; [apply Hhd; by right|]. rewrite (own_pages_ext _ _ _ Hvma). intros Hin. by apply (Hfr p Hp), (mi_held _ _ _ Hi).
Qed.

(** ** Copies *)

(** The bytes at the first [n] addresses from [addr] on are [bs]. *)
Definition holds s (t : tree) (addr n : Z) (bs : list Z) : Prop :=
  ∀ k, 0 ≤ k < n → byte_at t s (addr + k) = bs !! Z.to_nat k.

Lemma memcpy_from_run mm s t turns fuel b addr size :
  mapped_ok mm s t → (rb_depth (length (inorder t)) ≤ fuel)%nat → (length (inorder t) ≤ turns)%nat →
  0 < size < 2 ^ 31 → 0 ≤ addr → addr + size < 2 ^ 64 → size ≤ Z.of_nat (length b) →
  ∃ n b', prefix_of (vma_of s) (inorder t) addr size n ∧
    mmap_memcpy_from_vma turns fuel false (Some mm) (Some b) addr size s = Some (n, Some b', s) ∧
    length b' = length b ∧ holds s t addr n b' ∧ (∀ k, 0 ≤ k < n → is_Some (byte_at t s (addr + k))) ∧ drop (Z.to_nat n) b' = drop (Z.to_nat n) b.
Proof.
  intros Hok Hf Hn Hs Ha He Hb. destruct (memcpy_vma_run true mm s t turns fuel b addr size Hok Hf Hn Hs Ha He) as (n & ls & Hpre & Hvis & Hrun).
  pose proof Hpre as [Hn0 _]. pose proof (visits_length _ _ addr (addr + n) ls ltac:(lia) Hvis) as Hlen. pose proof (visits_ok _ _ _ _ _ _ Hok Hvis) as Hbytes.
  destruct (copy_from ls (mk_copying b 0 (page_mem s)) Hbytes ltac:(cbn; lia)) as (b' & Hc & Hl & Hin & Hout). cbn [buf pos cmem] in *.
  exists n, b'. split; [done|]. split; [unfold mmap_memcpy_from_vma; rewrite Hrun, Hc; cbn; by destruct s|]. split; [done|].
  assert (Hby : ∀ k, 0 ≤ k < n → ∃ p o, ls !! Z.to_nat k = Some (p, o) ∧ byte_at t s (addr + k) = get_byte (page_mem s) p o).
  { intros k Hk. destruct (lookup_lt_is_Some_2 ls (Z.to_nat k)) as [[p o] Hpo]; [lia|]. exists p, o. split; [done|].
    apply (visits_lookup _ _ _ _ _ _ _ Hvis) in Hpo as [Hpo _]. rewrite Z2Nat.id in Hpo by lia. unfold byte_at. by rewrite Hpo. }
  split; [|split].
  - intros k Hk. destruct (Hby k Hk) as (p & o & Hpo & ->). by rewrite <-(Hin _ _ _ Hpo).
  - intros k Hk. destruct (Hby k Hk) as (p & o & Hpo & ->). destruct (Hbytes p o) as [Hp Ho]; [by eapply list_elem_of_lookup_2|]. by apply get_byte_ok.
  - apply list_eq. intros j. rewrite !lookup_drop. apply Hout. right. lia.
Qed.

(** The state after bytes have been written. *)
Record wrote mm s (t : tree) (addr n : Z) (bs : list Z) s' : Prop := {
  wr_heap : mm_heap s' = mm_heap s;
  wr_vma : vma_of s' = vma_of s;
  wr_source : source s' = source s;
  wr_ok : mapped_ok mm s' t;
  wr_in : holds s' t addr n bs;
  wr_out : ∀ p o, (∀ k, 0 ≤ k < n → user_loc (vma_of s) (inorder t) (addr + k) ≠ Some (p, o)) → get_byte (page_mem s') p o = get_byte (page_mem s) p o }.

Lemma memcpy_to_run mm s t turns fuel b addr size :
  mapped_ok mm s t → unshared (vma_of s) (inorder t) → (rb_depth (length (inorder t)) ≤ fuel)%nat → (length (inorder t) ≤ turns)%nat →
  0 < size < 2 ^ 31 → 0 ≤ addr → addr + size < 2 ^ 64 → size ≤ Z.of_nat (length b) →
  ∃ n s', prefix_of (vma_of s) (inorder t) addr size n ∧
    mmap_memcpy_to_vma turns fuel false (Some mm) addr size (Some b) s = Some (n, Some b, s') ∧ wrote mm s t addr n b s'.
Proof.
  intros Hok Hun Hf Hn Hs Ha He Hb. destruct (memcpy_vma_run false mm s t turns fuel b addr size Hok Hf Hn Hs Ha He) as (n & ls & Hpre & Hvis & Hrun).
  pose proof Hpre as [Hn0 _]. pose proof (visits_length _ _ addr (addr + n) ls ltac:(lia) Hvis) as Hlen. pose proof (visits_ok _ _ _ _ _ _ Hok Hvis) as Hbytes.
  destruct (copy_to ls (mk_copying b 0 (page_mem s)) Hbytes (visits_nodup _ _ _ _ _ _ Hok Hun Hvis) ltac:(cbn; lia)) as (m & Hc & Hin & Hout & Hfr). cbn [buf pos cmem] in *.
  exists n, (set_mem m s). split; [done|]. split; [unfold mmap_memcpy_to_vma; by rewrite Hrun, Hc|]. split; try done.
  - destruct Hok as [Ht Hres]. split; [done|]. intros v Hv i Hi. destruct (Hres v Hv i Hi) as (p & Hp & Hfp). exists p. split; [done|]. by apply Hfr.
  - intros k Hk. destruct (lookup_lt_is_Some_2 ls (Z.to_nat k)) as [[p o] Hpo]; [lia|]. pose proof (Hin _ _ _ Hpo) as Hget. rewrite Nat.add_0_l in Hget.
    apply (visits_lookup _ _ _ _ _ _ _ Hvis) in Hpo as [Hpo _]. rewrite Z2Nat.id in Hpo by lia. unfold byte_at. cbn [vma_of set_mem page_mem]. by rewrite Hpo.
  - intros p o Hno. cbn. apply Hout. intros [k Hk]%list_elem_of_lookup. destruct (visits_lookup _ _ _ _ _ _ _ Hvis Hk) as [Hu Hlt].
    apply (Hno (Z.of_nat k)); [lia|done].
Qed.

(** [mmap_memcpy_from_vma] and [mmap_memcpy_to_vma] copy exactly the bytes
    of the addresses of the range that are mapped without a gap from its
    beginning on, across pages and areas, and return their number: all of the
    range, or up to the first address that is not mapped.  Reading leaves the
    rest of the buffer and the memory alone; writing changes no other byte of
    memory. *)
Theorem mmap_memcpy_correct mm s t turns fuel b addr size :
  mapped_ok mm s t → (rb_depth (length (inorder t)) ≤ fuel)%nat → (length (inorder t) ≤ turns)%nat →
  0 < size < 2 ^ 31 → 0 ≤ addr → addr + size < 2 ^ 64 → size ≤ Z.of_nat (length b) →
  (∃ n b', prefix_of (vma_of s) (inorder t) addr size n ∧
     mmap_memcpy_from_vma turns fuel false (Some mm) (Some b) addr size s = Some (n, Some b', s) ∧
     length b' = length b ∧ holds s t addr n b' ∧ drop (Z.to_nat n) b' = drop (Z.to_nat n) b) ∧
  (unshared (vma_of s) (inorder t) →
   ∃ n s', prefix_of (vma_of s) (inorder t) addr size n ∧
     mmap_memcpy_to_vma turns fuel false (Some mm) addr size (Some b) s = Some (n, Some b, s') ∧ wrote mm s t addr n b s').
Proof.
  intros Hok Hf Hn Hs Ha He Hb. split; [|intros Hun; by apply memcpy_to_run].
  destruct (memcpy_from_run mm s t turns fuel b addr size Hok Hf Hn Hs Ha He Hb) as (n & b' & Hp & Hrun & Hl & Hh & _ & Hd). by exists n, b'.
Qed.





(** [message_strlen] always reports success: the length is one more than the
    number of bytes before the first zero byte, or before the first address that
    is not mapped when that comes first.  So a string that is not terminated and
    an address that is not mapped at all (length 1) are not told from a string. *)
Theorem message_strlen_correct mm s t turns fuel addr :
  mapped_ok mm s t → (rb_depth (length (inorder t)) ≤ fuel)%nat → (length (inorder t) ≤ turns)%nat → 0 ≤ addr → bounded_run t s addr →
  ∃ n, message_strlen turns fuel (Some (mk_task false (Some mm))) addr s = Some (0, Some (n + 1), s) ∧ 0 ≤ n ∧
    (∀ k, 0 ≤ k < n → ∃ b, byte_at t s (addr + k) = Some b ∧ b ≠ 0) ∧
    (byte_at t s (addr + n) = None ∨ byte_at t s (addr + n) = Some 0).
Proof.
  intros Hok Hf Hn Ha Hb. destruct (strnlen_run mm t fuel s Hok Hf turns addr Hn Ha Hb) as (n & Hrun & Hn0 & H1 & H2). exists n.
  unfold message_strlen. cbn [tsk_init tsk_mm]. rewrite Hrun. cbn [mbind option_bind]. rewrite (proj2 (Z.leb_gt _ _)) by lia.
  split; [done|]. split; [lia|]. done.
Qed.
End props.

(** ** A task on the node with seven pages *)
Module VmaExample.

(** The address of [vma_rb_root], and two of areas. *)
Definition ROOT : loc := 0%nat.
Definition HEAP : loc := 1%nat.
Definition NEXT : loc := 2%nat.

#[local] Instance example_source : PageSource page_state := node_source [0; 1; 2]%nat 0.
#[local] Instance example_laws : PageSourceLaws page_state := node_source_laws [0; 1; 2]%nat 0.

(** An empty address space, whose root is [ROOT]. *)
Definition empty_mm : vmm page_state := mk_vmm {[ ROOT := CPtr None ]} (λ _, zero_vma) (PageExample.boot_node, ∅) ∅.
Lemma empty_inv : mm_inv ROOT empty_mm E.
Proof.
  split; cbn.
  - split; [split; [reflexivity|split; [exact I|apply NoDup_nil_2]]|]. split; [split; [reflexivity|exists O; constructor]|].
    split; [constructor|]. intros v Hv. by apply elem_of_nil in Hv.
  - exists PageExample.owned. exact PageExample.boot_refines.
  - apply NoDup_nil_2.
  - intros p Hp. by apply elem_of_nil in Hp.
  - intros p Hp. by apply elem_of_nil in Hp.
Qed.

(** A heap of two pages at 0x10000. *)
Definition get_heap (s : vmm page_state) := mmap_get_vmap_area 9 (Some HEAP) true 0x10000 0x2000 3 (Some ROOT) 0 s.
Definition heap_mm : vmm page_state := match get_heap empty_mm with Some (_, s) => s | None => empty_mm end.
Lemma heap_run : get_heap empty_mm = Some (Some HEAP, heap_mm).
Proof.
  assert (Hr : fst <$> get_heap empty_mm = Some (Some HEAP)) by (vm_compute; reflexivity). unfold heap_mm.
  destruct (get_heap empty_mm) as [[r s]|]; [|discriminate]. injection Hr as ->. reflexivity.
Qed.

Lemma one_deep n : (n ≤ 1 → rb_depth n < 9)%nat.
Proof. intros Hn. destruct n as [|[|n]]; [vm_compute; lia|vm_compute; lia|lia]. Qed.

Lemma some_pair_inj {B C} (a a' : B) (b b' : C) : Some (a, b) = Some (a', b') → a = a' ∧ b = b'.
Proof. by intros [= -> ->]. Qed.

Lemma heap_created : ∃ ps phys t, created ROOT empty_mm E HEAP (new_area 0x10000 0x2000 3 phys ps) heap_mm t.
Proof.
  destruct (get_run ROOT empty_mm E 9 (Some HEAP) true 0x10000 0x2000 3 0) as (r & s & Hrun & Hres);
    [exact empty_inv|intros v [= <-]; reflexivity|apply one_deep; cbn; lia|lia|lia|lia|].
  pose proof heap_run as Hh. unfold get_heap in Hh. destruct (some_pair_inj _ _ _ _ (eq_trans (eq_sym Hrun) Hh)) as [-> ->].
  destruct Hres as (_ & _ & ps & phys & t & Hcr & _). by exists ps, phys, t.
Qed.

(** The address space with one area, [HEAP]. *)
Record one_area (s : vmm page_state) (t : tree) : Prop := {
  oa_ok : mapped_ok ROOT s t; oa_un : unshared (vma_of s) (inorder t); oa_in : inorder t = [HEAP];
  oa_start : vm_start (vma_of s HEAP) = 0x10000; oa_end : vm_end (vma_of s HEAP) = 0x12000 }.

Lemma heap_one : ∃ t, mm_inv ROOT heap_mm t ∧ one_area heap_mm t.
Proof.
  destruct heap_created as (ps & phys & t & [Hi Hin Hv _ _]). cbn [inorder] in Hin. apply Permutation_singleton_r in Hin.
  exists t. split; [exact Hi|]. destruct (private_mapped ROOT heap_mm t Hi) as [Hok Hun].
  { intros v Hv'. rewrite Hin in Hv'. apply list_elem_of_singleton in Hv' as ->. rewrite Hv, fn_lookup_insert. reflexivity. }
  split; [exact Hok|exact Hun|exact Hin|by rewrite Hv, fn_lookup_insert|by rewrite Hv, fn_lookup_insert].
Qed.
Lemma one_depth s t : one_area s t → (rb_depth (length (inorder t)) < 9 ∧ length (inorder t) = 1)%nat.
Proof. intros Ho. rewrite (oa_in _ _ Ho). split; [apply one_deep; done|done]. Qed.
Lemma one_loc s t a : one_area s t → 0x10000 ≤ a < 0x12000 → is_Some (user_loc (vma_of s) (inorder t) a).
Proof.
  intros Ho Ha. rewrite (user_loc_in _ _ _ _ HEAP a (proj1 (oa_ok _ _ Ho))); [done|rewrite (oa_in _ _ Ho); set_solver|].
  unfold contains. rewrite (oa_start _ _ Ho), (oa_end _ _ Ho). lia.
Qed.
Lemma one_out s t a : one_area s t → 0x12000 ≤ a → user_loc (vma_of s) (inorder t) a = None.
Proof.
  intros Ho Ha. apply user_loc_out. intros v Hv. rewrite (oa_in _ _ Ho) in Hv. apply list_elem_of_singleton in Hv as ->.
  unfold contains. rewrite (oa_end _ _ Ho). lia.
Qed.

(** The string "abc" written across the page boundary. *)
Definition abc : list Z := [97; 98; 99; 0].
Definition put_abc (s : vmm page_state) := mmap_memcpy_to_vma 1 9 false (Some ROOT) 0x10ffe 4 (Some abc) s.
Definition abc_mm : vmm page_state := match put_abc heap_mm with Some (_, s) => s | None => heap_mm end.

Lemma abc_one : ∃ t, one_area abc_mm t ∧ wrote ROOT heap_mm t 0x10ffe 4 abc abc_mm.
Proof.
  destruct heap_one as (t & _ & Ho). destruct (one_depth _ _ Ho) as [Hd Hl].
  destruct (memcpy_to_run ROOT heap_mm t 1 9 abc 0x10ffe 4 (oa_ok _ _ Ho) (oa_un _ _ Ho)) as (n & s & Hpre & Hrun & Hwr); [lia|lia|lia|lia|lia|cbn; lia|].
  assert (n = 4) as ->.
  { destruct Hpre as [Hn [He|He]]; [exact He|]. destruct (decide (n = 4)) as [|]; [done|]. destruct (one_loc _ _ (0x10ffe + n) Ho ltac:(lia)). congruence. }
  exists t. unfold abc_mm, put_abc. rewrite Hrun. split; [|exact Hwr]. destruct Hwr as [_ Hv _ Hok _ _]. destruct Ho as [_ Hun Hin Hs He].
  split; [exact Hok|by rewrite Hv|exact Hin|by rewrite Hv|by rewrite Hv].
Qed.
End VmaExample.

(** [mmap_strcpy_from_vma] is wrong for a string that crosses a page: it
    counts one byte too many for the first page, so the copy has a hole where
    the second page begins and the length is off by one. *)
Theorem mmap_strcpy_hole :
  (∃ s, mmap_memcpy_from_vma 1 9 false (Some VmaExample.ROOT) (Some (replicate 8 7)) 0x10ffe 4 VmaExample.abc_mm =
     Some (4, Some [97; 98; 99; 0; 7; 7; 7; 7], s)) ∧
  ∃ s, mmap_strcpy_from_vma 1 9 false (Some VmaExample.ROOT) (Some (replicate 8 7)) 0x10ffe VmaExample.abc_mm =
     Some (5, Some [97; 98; 7; 99; 0; 7; 7; 7], s).
Proof. split; eexists; vm_compute; reflexivity. Qed.

(** ** Witnesses *)
Module VmaWitness.
Import VmaExample.
#[local] Existing Instance example_source.
#[local] Existing Instance example_laws.


Lemma mmap_free_vmap_area_correct_witness :
  ∃ t s t', one_area heap_mm t ∧ mmap_free_vmap_area 9 0x11000 (Some ROOT) heap_mm = Some s ∧ destroyed ROOT heap_mm t HEAP s t' ∧
    mmap_free_vmap_area 9 0x12000 (Some ROOT) heap_mm = Some heap_mm.
Proof.
  destruct heap_one as (t & Hi & Ho). destruct (one_depth _ _ Ho) as [Hd Hl]. assert (Hd' : (rb_depth (length (inorder t)) ≤ 9)%nat) by lia.
  destruct (proj1 (mmap_free_vmap_area_correct ROOT heap_mm t 9 0x11000 Hi Hd') HEAP) as (s & t' & Hrun & Hds).
  { rewrite (oa_in _ _ Ho). by apply list_elem_of_singleton. } { unfold contains. rewrite (oa_start _ _ Ho), (oa_end _ _ Ho). lia. }
  exists t, s, t'. split; [exact Ho|]. split; [exact Hrun|]. split; [exact Hds|].
  apply (proj2 (mmap_free_vmap_area_correct ROOT heap_mm t 9 0x12000 Hi Hd')). intros v Hv. rewrite (oa_in _ _ Ho) in Hv.
  apply list_elem_of_singleton in Hv as ->. unfold contains. rewrite (oa_start _ _ Ho), (oa_end _ _ Ho). lia.
Defined.

Lemma mmap_get_vmap_area_leak_witness :
  ∃ t s lost, mm_inv ROOT heap_mm t ∧ mmap_get_vmap_area 9 (Some NEXT) true 0x11000 0x2000 3 (Some ROOT) 0 heap_mm = Some (None, s) ∧
    length lost = 2%nat ∧ ∀ p, p ∈ lost → handed_out (source s) p ∧ p ∉ own_pages (vma_of s) (inorder t).
Proof.
  destruct heap_one as (t & Hi & Ho). destruct (one_depth _ _ Ho) as [Hd Hl].
  destruct (mmap_get_vmap_area_leak ROOT heap_mm t 9 NEXT 0x11000 0x2000 3 HEAP Hi ltac:(vm_compute; reflexivity) Hd) as (s & lost & Hrun & Hi' & Hlen & _ & Hlost).
  - split; [by exists 17|]. split; [by exists 2|]. done.
  - lia.
  - lia.
  - lia.
  - reflexivity.
  - apply supplies_b_ok. vm_compute. reflexivity.
  - rewrite (oa_in _ _ Ho). by apply list_elem_of_singleton.
  - unfold overlaps. cbn [new_area vm_start vm_end]. rewrite (oa_start _ _ Ho), (oa_end _ _ Ho). lia.
  - exists t, s, lost. split; [exact Hi|]. split; [exact Hrun|]. split; [change (0x2000 / PAGE_SIZE) with 2 in Hlen; lia|].
    intros p Hp. destruct (Hlost p Hp) as (_ & H1 & H2). by split.
Defined.

Lemma mmap_memcpy_correct_witness :
  ∃ t n b, mapped_ok ROOT abc_mm t ∧ prefix_of (vma_of abc_mm) (inorder t) 0x11ffe 4 n ∧
    mmap_memcpy_from_vma 1 9 false (Some ROOT) (Some [1; 2; 3; 4]) 0x11ffe 4 abc_mm = Some (n, Some b, abc_mm) ∧ holds abc_mm t 0x11ffe n b.
Proof.
  destruct abc_one as (t & Ho & _). destruct (one_depth _ _ Ho) as [Hd Hl].
  destruct (mmap_memcpy_correct ROOT abc_mm t 1 9 [1; 2; 3; 4] 0x11ffe 4 (oa_ok _ _ Ho)) as ((n & b & Hp & Hrun & _ & Hh & _) & _); [lia|lia|lia|lia|lia|cbn; lia|].
  exists t, n, b. split; [apply Ho|]. split; [exact Hp|]. split; [exact Hrun|exact Hh].
Defined.


Lemma message_strlen_correct_witness :
  ∃ t n, one_area abc_mm t ∧ message_strlen 1 9 (Some (mk_task false (Some ROOT))) 0x10ffe abc_mm = Some (0, Some (n + 1), abc_mm) ∧
    (byte_at t abc_mm (0x10ffe + n) = None ∨ byte_at t abc_mm (0x10ffe + n) = Some 0).
Proof.
  destruct abc_one as (t & Ho & _). destruct (one_depth _ _ Ho) as [Hd Hl].
  destruct (message_strlen_correct ROOT abc_mm t 1 9 0x10ffe (oa_ok _ _ Ho)) as (n & Hrun & _ & _ & Hend); [lia|lia|lia| |].
  { exists 0x1002. split; [lia|]. apply (one_out _ _ _ Ho). lia. }
  exists t, n. split; [exact Ho|]. split; [exact Hrun|exact Hend].
Defined.
End VmaWitness.
