(* ===== verification/FindBit.v ===== *)
(** * Bit searches ([lib/base/src/find_bit.c] and the bit operations below it)

    A bitmap is the list of its words; reading past the end is a crash.  The
    reference definitions [first_set] and [last_set] look at one bit after the
    other. *)
From stdpp Require Import base list.
From S2P Require Import Prelude.

Definition BITS_PER_LONG : Z := 64.
Definition BIT_WORD (nr : Z) : nat := Z.to_nat (nr / BITS_PER_LONG).
Definition BIT_MASK (nr : Z) : Z := u64 (Z.shiftl 1 (nr mod BITS_PER_LONG)).

(** [~0UL << (start & 63)] and [~0UL >> (-nbits & 63)] *)
Definition BITMAP_FIRST_WORD_MASK (start : Z) : Z :=
  u64 (Z.shiftl (2 ^ 64 - 1) (Z.land start (BITS_PER_LONG - 1))).
Definition BITMAP_LAST_WORD_MASK (nbits : Z) : Z :=
  Z.shiftr (2 ^ 64 - 1) (Z.land (u64 (- nbits)) (BITS_PER_LONG - 1)).

(** [__builtin_ctzl] and [63 - __builtin_clzl], undefined on [0]. *)
Fixpoint ctz (p : positive) : Z :=
  match p with xO p => 1 + ctz p | _ => 0 end.
Definition __ffs (word : Z) : Z := match word with Zpos p => ctz p | _ => 0 end.
Definition __fls (word : Z) : Z := Z.log2 word.
Definition ffz (word : Z) : Z := __ffs (u64 (Z.lnot word)).

(** ** Single bits ([asm-generic/base/bitops/non-atomic.h]) *)

Definition __set_bit (nr : Z) (addr : list Z) : option (list Z) :=
  w ← addr !! BIT_WORD nr; Some (<[BIT_WORD nr := Z.lor w (BIT_MASK nr)]> addr).

Definition __clear_bit (nr : Z) (addr : list Z) : option (list Z) :=
  w ← addr !! BIT_WORD nr; Some (<[BIT_WORD nr := Z.land w (u64 (Z.lnot (BIT_MASK nr)))]> addr).

Definition __change_bit (nr : Z) (addr : list Z) : option (list Z) :=
  w ← addr !! BIT_WORD nr; Some (<[BIT_WORD nr := Z.lxor w (BIT_MASK nr)]> addr).

Definition test_bit (nr : Z) (addr : list Z) : option bool :=
  w ← addr !! BIT_WORD nr; Some (Z.odd (Z.shiftr w (Z.land nr (BITS_PER_LONG - 1)))).

(** ** Searches *)

(** The word at [start]: [addr1], and-ed with [addr2] if present, xor-ed. *)
Definition find_word (addr1 : list Z) (addr2 : option (list Z)) (start invert : Z) : option Z :=
  tmp ← addr1 !! Z.to_nat (start / BITS_PER_LONG);
  match addr2 with
  | None => Some (Z.lxor tmp invert)
  | Some addr2 => w ← addr2 !! Z.to_nat (start / BITS_PER_LONG); Some (Z.lxor (Z.land tmp w) invert)
  end.

(** The [while (!tmp)] loop, with the final [min]. *)
Fixpoint find_next_loop (fuel : nat) (addr1 : list Z) (addr2 : option (list Z))
    (nbits start invert tmp : Z) : option Z :=
  if tmp =? 0 then
    match fuel with
    | O => None
    | S fuel =>
        let start := u64 (start + BITS_PER_LONG) in
        if nbits <=? start then Some nbits else
        tmp ← find_word addr1 addr2 start invert;
        find_next_loop fuel addr1 addr2 nbits start invert tmp
    end
  else Some (Z.min (u64 (start + __ffs tmp)) nbits).

Definition _find_next_bit (addr1 : list Z) (addr2 : option (list Z)) (nbits start invert : Z) : option Z :=
  if nbits <=? start then Some nbits else
  tmp ← find_word addr1 addr2 start invert;
  let tmp := Z.land tmp (BITMAP_FIRST_WORD_MASK start) in
  find_next_loop (S (length addr1)) addr1 addr2 nbits (round_down start BITS_PER_LONG) invert tmp.

Definition find_next_bit (addr : list Z) (size offset : Z) : option Z :=
  _find_next_bit addr None size offset 0.
Definition find_next_zero_bit (addr : list Z) (size offset : Z) : option Z :=
  _find_next_bit addr None size offset (2 ^ 64 - 1).
Definition find_next_and_bit (addr1 addr2 : list Z) (size offset : Z) : option Z :=
  _find_next_bit addr1 (Some addr2) size offset 0.

(** The loop over the words, from [idx]. *)
Fixpoint find_first_bit_loop (fuel : nat) (addr : list Z) (size : Z) (idx : nat) : option Z :=
  if Z.of_nat idx * BITS_PER_LONG <? size then
    w ← addr !! idx;
    if w =? 0 then
      match fuel with
      | O => None
      | S fuel => find_first_bit_loop fuel addr size (S idx)
      end
    else Some (Z.min (Z.of_nat idx * BITS_PER_LONG + __ffs w) size)
  else Some size.
Definition find_first_bit (addr : list Z) (size : Z) : option Z :=
  find_first_bit_loop (length addr) addr size 0.

Fixpoint find_first_zero_bit_loop (fuel : nat) (addr : list Z) (size : Z) (idx : nat) : option Z :=
  if Z.of_nat idx * BITS_PER_LONG <? size then
    w ← addr !! idx;
    if w =? 2 ^ 64 - 1 then
      match fuel with
      | O => None
      | S fuel => find_first_zero_bit_loop fuel addr size (S idx)
      end
    else Some (Z.min (Z.of_nat idx * BITS_PER_LONG + ffz w) size)
  else Some size.
Definition find_first_zero_bit (addr : list Z) (size : Z) : option Z :=
  find_first_zero_bit_loop (length addr) addr size 0.

(** The [do .. while (idx--)] loop. *)
Fixpoint find_last_bit_loop (addr : list Z) (size val : Z) (idx : nat) : option Z :=
  w ← addr !! idx;
  let val := Z.land val w in
  if val =? 0 then
    match idx with
    | O => Some size
    | S idx => find_last_bit_loop addr size (2 ^ 64 - 1) idx
    end
  else Some (Z.of_nat idx * BITS_PER_LONG + __fls val).
Definition find_last_bit (addr : list Z) (size : Z) : option Z :=
  if size =? 0 then Some size
  else find_last_bit_loop addr size (BITMAP_LAST_WORD_MASK size) (Z.to_nat ((size - 1) / BITS_PER_LONG)).

(** [asm-generic/base/bitops/sched.h] *)
Definition sched_find_first_bit (b : list Z) : option Z :=
  b0 ← b !! 0%nat;
  if b0 =? 0 then b1 ← b !! 1%nat; Some (__ffs b1 + 64) else Some (__ffs b0).

(** ** References *)

(** Bit [i] of a bitmap. *)
Definition bitmap_bit (addr : list Z) (i : Z) : bool :=
  match addr !! BIT_WORD i with
  | Some w => Z.testbit w (i mod BITS_PER_LONG)
  | None => false
  end.

Fixpoint seek_up (k : nat) (P : Z → bool) (i n : Z) : Z :=
  match k with
  | O => n
  | S k => if P i then i else seek_up k P (i + 1) n
  end.
(** The first position in [start, n) with [P], or [n]. *)
Definition first_set (P : Z → bool) (start n : Z) : Z := seek_up (Z.to_nat (n - start)) P start n.

Fixpoint seek_down (k : nat) (P : Z → bool) (n : Z) : Z :=
  match k with
  | O => n
  | S k => if P (Z.of_nat k) then Z.of_nat k else seek_down k P n
  end.
(** The last position in [0, n) with [P], or [n]. *)
Definition last_set (P : Z → bool) (n : Z) : Z := seek_down (Z.to_nat n) P n.

Definition words_ok (addr : list Z) : Prop := Forall (λ w, 0 ≤ w < 2 ^ 64) addr.

Example find_next_1 : find_next_bit [0; 16; 0] 192 3 = Some 68. Proof. reflexivity. Qed.
Example find_next_2 : find_next_zero_bit [2 ^ 64 - 1; 15] 128 3 = Some 68. Proof. reflexivity. Qed.
Example find_last_1 : find_last_bit [2 ^ 64 - 1; 16] 67 = Some 63. Proof. reflexivity. Qed.
Example find_first_zero_1 : find_first_zero_bit [2 ^ 64 - 1; 15] 128 = Some 68. Proof. reflexivity. Qed.
