(* ===== verification/FindBitProps.v ===== *)
(** * Correctness of the bit searches

    Every search agrees with its reference on every bitmap of words, and the
    single-bit operations change the bit they name and no other. *)
From stdpp Require Import base list.
From S2P Require Import Prelude FindBit.

(** ** The references *)

(** [r] is the first position in [s, n) with [P], or [n]. *)
Definition is_first (P : Z → bool) (s n r : Z) : Prop :=
  (s ≤ r < n ∧ P r = true ∨ r = n) ∧ ∀ i, s ≤ i < n → i < r → P i = false.

Lemma is_first_unique P s n r r' : is_first P s n r → is_first P s n r' → r = r'.
Proof.
  intros [H1 H2] [H1' H2']. destruct (Z.lt_trichotomy r r') as [?|[?|?]]; [exfalso|done|exfalso].
  - destruct H1 as [[? HP]| ->]; [|destruct H1' as [[? _]| ->]; lia]. rewrite H2' in HP by lia. done.
  - destruct H1' as [[? HP]| ->]; [|destruct H1 as [[? _]| ->]; lia]. rewrite H2 in HP by lia. done.
Qed.

Lemma first_set_is P s n : is_first P s n (first_set P s n).
Proof.
  unfold first_set. remember (Z.to_nat (n - s)) as k eqn:Hk.
  revert s Hk. induction k as [|k IH]; intros s Hk; simpl.
  - split; [by right|]. intros i. lia.
  - destruct (P s) eqn:HP; [split; [left; split; [lia|done]|intros; lia]|].
    destruct (IH (s + 1) ltac:(lia)) as [Hr Hlt]. split; [destruct Hr as [[]|]; [left; split; [lia|done]|by right]|].
    intros i Hi Hir. destruct (decide (i = s)) as [->|]; [done|]. apply Hlt; lia.
Qed.

Lemma first_set_eq P s n r : is_first P s n r → first_set P s n = r.
Proof. intros H. eapply is_first_unique; [apply first_set_is|done]. Qed.

Lemma is_first_ext P Q s n r : (∀ i, s ≤ i < n → P i = Q i) → is_first P s n r → is_first Q s n r.
Proof.
  intros HPQ [Hr Hlt]. split.
  - destruct Hr as [[Hi HP]| ->]; [left|by right]. split; [done|]. by rewrite <-HPQ.
  - intros i Hi Hir. rewrite <-HPQ by done. by apply Hlt.
Qed.

(** ** Words *)

Lemma ctz_spec p :
  0 ≤ ctz p ∧ Z.testbit (Zpos p) (ctz p) = true ∧ ∀ j, 0 ≤ j < ctz p → Z.testbit (Zpos p) j = false.
Proof.
  induction p as [p _|p (Hge & Hbit & Hlow)|]; simpl ctz.
  - split_and!; [done|done|lia].
  - change (Z.pos p~0) with (2 * Z.pos p). rewrite Z.add_1_l, Z.double_bits_succ. split_and!; [lia|done|].
    intros j Hj. destruct (decide (j = 0)) as [->|]; [apply Z.testbit_even_0|].
    replace j with (Z.succ (j - 1)) by lia. rewrite Z.double_bits_succ. apply Hlow. lia.
  - split_and!; [done|done|lia].
Qed.

Lemma __ffs_spec w :
  0 < w < 2 ^ 64 →
  0 ≤ __ffs w < 64 ∧ Z.testbit w (__ffs w) = true ∧ ∀ j, 0 ≤ j < __ffs w → Z.testbit w j = false.
Proof.
  intros Hw. destruct w as [|p|p]; [lia| |lia]. simpl. destruct (ctz_spec p) as (Hge & Hbit & Hlow).
  split_and!; [done| |done|done]. apply Z.nle_gt. intros Hle.
  rewrite (proj1 (Z.bounded_iff_bits_nonneg 64 (Zpos p) ltac:(lia) ltac:(lia)) ltac:(lia) _ Hle) in Hbit. done.
Qed.

Lemma word_zero_bits w j : w = 0 → Z.testbit w j = false.
Proof. intros ->. apply Z.bits_0. Qed.

Lemma word_bits_high w j : 0 ≤ w < 2 ^ 64 → 64 ≤ j → Z.testbit w j = false.
Proof. intros Hw Hj. apply (proj1 (Z.bounded_iff_bits_nonneg 64 w ltac:(lia) ltac:(lia)) ltac:(lia) _ Hj). Qed.

Lemma testbit_max j : 0 ≤ j < 64 → Z.testbit (2 ^ 64 - 1) j = true.
Proof. intros Hj. change (2 ^ 64 - 1) with (Z.ones 64). by apply Z.ones_spec_low. Qed.

Lemma lxor_bound a b : 0 ≤ a < 2 ^ 64 → 0 ≤ b < 2 ^ 64 → 0 ≤ Z.lxor a b < 2 ^ 64.
Proof.
  intros Ha Hb. assert (0 ≤ Z.lxor a b) by (apply Z.lxor_nonneg; lia). split; [done|].
  apply (proj2 (Z.bounded_iff_bits_nonneg 64 (Z.lxor a b) ltac:(lia) ltac:(done))).
  intros n Hn. by rewrite Z.lxor_spec, !word_bits_high by lia.
Qed.

Lemma land_bound a b : 0 ≤ a < 2 ^ 64 → 0 ≤ Z.land a b < 2 ^ 64.
Proof.
  intros Ha. assert (0 ≤ Z.land a b) by (apply Z.land_nonneg; lia). split; [done|].
  apply (proj2 (Z.bounded_iff_bits_nonneg 64 (Z.land a b) ltac:(lia) ltac:(done))).
  intros n Hn. by rewrite Z.land_spec, word_bits_high by lia.
Qed.

Lemma lor_bound a b : 0 ≤ a < 2 ^ 64 → 0 ≤ b < 2 ^ 64 → 0 ≤ Z.lor a b < 2 ^ 64.
Proof.
  intros Ha Hb. assert (0 ≤ Z.lor a b) by (apply Z.lor_nonneg; lia). split; [done|].
  apply (proj2 (Z.bounded_iff_bits_nonneg 64 (Z.lor a b) ltac:(lia) ltac:(done))).
  intros n Hn. by rewrite Z.lor_spec, !word_bits_high by lia.
Qed.

#[export] Hint Resolve lxor_bound land_bound lor_bound : machine.

Lemma land_low a : Z.land a (BITS_PER_LONG - 1) = a mod 64.
Proof. change (BITS_PER_LONG - 1) with (Z.ones 6). by rewrite Z.land_ones. Qed.

Lemma first_mask_bit start j :
  0 ≤ j < 64 → Z.testbit (BITMAP_FIRST_WORD_MASK start) j = bool_decide (start mod 64 ≤ j).
Proof.
  intros Hj. unfold BITMAP_FIRST_WORD_MASK. rewrite land_low, u64_testbit by lia.
  rewrite bool_decide_true by lia. simpl. rewrite Z.shiftl_spec by lia.
  pose proof (Z.mod_pos_bound start 64 ltac:(lia)). case_bool_decide.
  - apply testbit_max. lia.
  - apply Z.testbit_neg_r. lia.
Qed.

Lemma last_mask_bit nbits j :
  0 < nbits < 2 ^ 64 → 0 ≤ j < 64 →
  Z.testbit (BITMAP_LAST_WORD_MASK nbits) j = bool_decide (j ≤ (nbits - 1) mod 64).
Proof.
  intros Hn Hj. unfold BITMAP_LAST_WORD_MASK. rewrite land_low, Z.shiftr_spec by lia.
  assert (Hm : u64 (- nbits) mod 64 = 63 - (nbits - 1) mod 64).
  { unfold u64. rewrite <-Znumtheory.Zmod_div_mod by (try lia; by exists (2 ^ 58)).
    pose proof (Z.mod_pos_bound (nbits - 1) 64 ltac:(lia)). pose proof (Z.div_mod (nbits - 1) 64 ltac:(lia)).
    symmetry. apply (Z.mod_unique _ _ (- ((nbits - 1) / 64) - 1)); lia. }
  rewrite Hm. pose proof (Z.mod_pos_bound (nbits - 1) 64 ltac:(lia)). case_bool_decide.
  - apply testbit_max. lia.
  - apply (Z.ones_spec_high 64). lia.
Qed.

(** Positions of a word. *)
Lemma bit_pos k j : 0 ≤ j < 64 → (64 * k + j) / 64 = k ∧ (64 * k + j) mod 64 = j.
Proof.
  intros Hj. split.
  - symmetry. apply (Z.div_unique _ _ _ j); lia.
  - symmetry. apply (Z.mod_unique _ _ k); lia.
Qed.

Lemma bitmap_bit_word addr k w j :
  0 ≤ k → addr !! Z.to_nat k = Some w → 0 ≤ j < 64 → bitmap_bit addr (64 * k + j) = Z.testbit w j.
Proof.
  intros Hk Hw Hj. unfold bitmap_bit, BIT_WORD, BITS_PER_LONG. destruct (bit_pos k j Hj) as [-> ->].
  by rewrite Hw.
Qed.

Lemma words_ok_lookup addr i w : words_ok addr → addr !! i = Some w → 0 ≤ w < 2 ^ 64.
Proof. intros Hok Hw. eapply Forall_lookup in Hok; [|exact Hw]. done. Qed.

(** A word with a bit, at position [start] of a bitmap described by [P]. *)
Lemma first_in_word P start n tmp :
  0 ≤ start → 0 < tmp < 2 ^ 64 → start < n →
  (∀ j, 0 ≤ j < 64 → Z.testbit tmp j = P (start + j)) →
  is_first P start n (Z.min (start + __ffs tmp) n).
Proof.
  intros Hs Ht Hn HP. destruct (__ffs_spec tmp Ht) as (Hr & Hbit & Hlow). split.
  - destruct (Z.min_spec (start + __ffs tmp) n) as [[? ->]|[? ->]]; [left|by right].
    split; [lia|]. by rewrite <-HP.
  - intros i Hi Hir. replace i with (start + (i - start)) by lia. rewrite <-HP by lia. apply Hlow. lia.
Qed.

(** An empty word moves the start. *)
Lemma is_first_skip P start n r :
  (∀ j, 0 ≤ j < 64 → start + j < n → P (start + j) = false) →
  is_first P (start + 64) n r → is_first P start n r.
Proof.
  intros HP [Hr Hlt]. split.
  - destruct Hr as [[? ?]|?]; [left; split; [lia|done]|by right].
  - intros i Hi Hir. destruct (Z.lt_ge_cases i (start + 64)); [|apply Hlt; lia].
    replace i with (start + (i - start)) by lia. apply HP; lia.
Qed.

Lemma is_first_none P s n : n ≤ s → is_first P s n n.
Proof. intros. split; [by right|]. intros; lia. Qed.

(** ** [_find_next_bit] *)

Section next.
Context (addr1 : list Z) (addr2 : option (list Z)) (nbits invert : Z).
Hypothesis Hok1 : words_ok addr1.
Hypothesis Hok2 : ∀ a, addr2 = Some a → words_ok a ∧ length a = length addr1.
Hypothesis Hn : 0 ≤ nbits ≤ 64 * Z.of_nat (length addr1).
Hypothesis Hsmall : nbits < 2 ^ 63.
Hypothesis Hinv : 0 ≤ invert < 2 ^ 64.

(** The bit the search looks at. *)
Definition search_bit (i : Z) : bool :=
  xorb (bitmap_bit addr1 i && match addr2 with Some a => bitmap_bit a i | None => true end)
       (Z.testbit invert (i mod 64)).

Lemma find_word_run k :
  0 ≤ k → 64 * k < nbits →
  ∃ w, find_word addr1 addr2 (64 * k) invert = Some w ∧ 0 ≤ w < 2 ^ 64 ∧
    ∀ j, 0 ≤ j < 64 → Z.testbit w j = search_bit (64 * k + j).
Proof.
  intros Hk Hlt. unfold find_word, search_bit, BITS_PER_LONG.
  rewrite (Z.mul_comm 64 k), Z.div_mul, (Z.mul_comm k 64) by lia.
  destruct (lookup_lt_is_Some_2 addr1 (Z.to_nat k) ltac:(lia)) as [w1 Hw1]. rewrite Hw1. cbn [mbind option_bind].
  pose proof (words_ok_lookup _ _ _ Hok1 Hw1). destruct addr2 as [a|].
  - destruct (Hok2 a eq_refl) as [Hoka Hlen].
    destruct (lookup_lt_is_Some_2 a (Z.to_nat k) ltac:(lia)) as [w2 Hw2]. rewrite Hw2. cbn [mbind option_bind].
    eexists. split; [done|]. split; [auto with machine|]. intros j Hj.
    rewrite Z.lxor_spec, Z.land_spec, (bitmap_bit_word _ _ _ _ Hk Hw1 Hj), (bitmap_bit_word _ _ _ _ Hk Hw2 Hj).
    by rewrite (proj2 (bit_pos k j Hj)).
  - eexists. split; [done|]. split; [auto with machine|]. intros j Hj.
    rewrite Z.lxor_spec, (bitmap_bit_word _ _ _ _ Hk Hw1 Hj), andb_true_r. by rewrite (proj2 (bit_pos k j Hj)).
Qed.

Lemma find_next_loop_run P fuel k tmp :
  0 ≤ k → 64 * k < nbits → 0 ≤ tmp < 2 ^ 64 → (length addr1 < fuel + Z.to_nat k)%nat →
  (∀ j, 0 ≤ j < 64 → Z.testbit tmp j = P (64 * k + j)) →
  (∀ i, 64 * k + 64 ≤ i → P i = search_bit i) →
  ∃ r, find_next_loop fuel addr1 addr2 nbits (64 * k) invert tmp = Some r ∧ is_first P (64 * k) nbits r.
Proof.
  revert k tmp. induction fuel as [|fuel IH]; intros k tmp Hk Hlt Ht Hf Htmp Hrest; [lia|].
  cbn [find_next_loop]. destruct (Z.eqb_spec tmp 0) as [->|Hne].
  - unfold BITS_PER_LONG. rewrite u64_small by lia.
    assert (Hzero : ∀ j, 0 ≤ j < 64 → 64 * k + j < nbits → P (64 * k + j) = false).
    { intros j Hj _. rewrite <-Htmp by done. apply Z.bits_0. }
    destruct (Z.leb_spec nbits (64 * k + 64)) as [Hge|Hless].
    { exists nbits. split; [done|]. apply is_first_skip; [done|]. by apply is_first_none. }
    replace (64 * k + 64) with (64 * (k + 1)) by lia.
    destruct (find_word_run (k + 1)) as (w & Hw & Hwr & Hbits); [lia..|]. rewrite Hw. cbn [mbind option_bind].
    destruct (IH (k + 1) w) as (r & Hr & Hfirst); [lia|lia|done|lia| | |].
    { intros j Hj. rewrite Hbits by done. symmetry. apply Hrest. lia. }
    { intros i Hi. apply Hrest. lia. }
    exists r. split; [done|]. apply is_first_skip; [done|]. by replace (64 * k + 64) with (64 * (k + 1)) by lia.
  - destruct (__ffs_spec tmp ltac:(lia)) as (Hr & _). rewrite u64_small by lia.
    eexists. split; [done|]. apply first_in_word; [lia|lia|done|done].
Qed.

Lemma _find_next_bit_run start :
  0 ≤ start → _find_next_bit addr1 addr2 nbits start invert = Some (first_set search_bit start nbits).
Proof.
  intros Hs. unfold _find_next_bit. destruct (Z.leb_spec nbits start) as [Hge|Hlt].
  { f_equal. symmetry. by apply first_set_eq, is_first_none. }
  pose proof (Z.div_mod start 64 ltac:(lia)) as Hdm. pose proof (Z.mod_pos_bound start 64 ltac:(lia)) as Hm.
  set (k := start / 64) in *. assert (0 ≤ k) by (apply Z.div_pos; lia).
  change BITS_PER_LONG with (2 ^ 6). rewrite round_down_pow2 by lia. change (2 ^ 6) with 64. fold k.
  assert (Heq : find_word addr1 addr2 start invert = find_word addr1 addr2 (64 * k) invert).
  { unfold find_word, BITS_PER_LONG. rewrite (Z.mul_comm 64 k), Z.div_mul by lia. done. }
  destruct (find_word_run k) as (w & Hw & Hwr & Hbits); [lia..|]. rewrite Heq, Hw. cbn [mbind option_bind].
  destruct (find_next_loop_run (λ i, bool_decide (start ≤ i) && search_bit i) (S (length addr1)) k
    (Z.land w (BITMAP_FIRST_WORD_MASK start))) as (r & Hr & Hfirst); [lia|lia|auto with machine|lia| | |].
  { intros j Hj. rewrite Z.land_spec, first_mask_bit, Hbits by done. rewrite andb_comm. f_equal.
    apply bool_decide_ext. lia. }
  { intros i Hi. rewrite bool_decide_true by lia. done. }
  rewrite Hr. f_equal. symmetry. apply first_set_eq. destruct Hfirst as [Hin Hbelow]. split.
  - destruct Hin as [[Hi HP]| ->]; [left|by right]. apply andb_true_iff in HP as [Hsi HP].
    apply bool_decide_eq_true in Hsi. split; [lia|done].
  - intros i Hi Hir. specialize (Hbelow i ltac:(lia) Hir). by rewrite bool_decide_true in Hbelow by lia.
Qed.

End next.

Lemma first_set_ext P Q s n : (∀ i, s ≤ i < n → P i = Q i) → first_set P s n = first_set Q s n.
Proof. intros H. symmetry. apply first_set_eq. eapply is_first_ext; [done|]. apply first_set_is. Qed.

(** ** The loops over whole words *)

(** Both loops: [skip] is the word that holds no bit looked for, [pick] the
    first bit of another word and [Q] the test on the bits of a word. *)
Lemma scan_words_run (addr : list Z) (size : Z) (skip : Z) (pick : Z → Z) (P : Z → bool)
    (loop : nat → nat → option Z) :
  words_ok addr → size ≤ 64 * Z.of_nat (length addr) →
  (∀ fuel idx, loop fuel idx =
    if Z.of_nat idx * BITS_PER_LONG <? size then
      w ← addr !! idx;
      if w =? skip then match fuel with O => None | S fuel => loop fuel (S idx) end
      else Some (Z.min (Z.of_nat idx * BITS_PER_LONG + pick w) size)
    else Some size) →
  (∀ k w, addr !! Z.to_nat k = Some w → 0 ≤ k → w = skip → ∀ j, 0 ≤ j < 64 → P (64 * k + j) = false) →
  (∀ k w, addr !! Z.to_nat k = Some w → 0 ≤ k → 64 * k < size → w ≠ skip →
    is_first P (64 * k) size (Z.min (64 * k + pick w) size)) →
  ∀ fuel idx, (length addr ≤ fuel + idx)%nat →
  ∃ r, loop fuel idx = Some r ∧ is_first P (64 * Z.of_nat idx) size r.
Proof.
  intros Hok Hsz Hloop Hskip Hpick. induction fuel as [|fuel IH]; intros idx Hf;
    rewrite Hloop, (Z.mul_comm (Z.of_nat idx)); unfold BITS_PER_LONG;
    destruct (Z.ltb_spec (64 * Z.of_nat idx) size) as [Hlt|Hge];
    try (exists size; split; [done|]; by apply is_first_none); [lia|].
  destruct (lookup_lt_is_Some_2 addr idx ltac:(lia)) as [w Hw]. rewrite Hw. cbn [mbind option_bind].
  assert (Hw' : addr !! Z.to_nat (Z.of_nat idx) = Some w) by by rewrite Nat2Z.id.
  destruct (Z.eqb_spec w skip) as [Heq|Hne].
  - destruct (IH (S idx) ltac:(lia)) as (r & Hr & Hfirst). exists r. split; [done|].
    apply is_first_skip; [intros; eapply Hskip; [exact Hw'|lia|done|done]|].
    by replace (64 * Z.of_nat idx + 64) with (64 * Z.of_nat (S idx)) by lia.
  - eexists. split; [done|]. apply Hpick; [done|lia|done|done].
Qed.

Lemma find_first_bit_run addr size :
  words_ok addr → size ≤ 64 * Z.of_nat (length addr) →
  find_first_bit addr size = Some (first_set (bitmap_bit addr) 0 size).
Proof.
  intros Hok Hsz. destruct (scan_words_run addr size 0 __ffs (bitmap_bit addr) (λ f i, find_first_bit_loop f addr size i)
    Hok Hsz) with (fuel := length addr) (idx := 0%nat) as (r & Hr & Hfirst).
  - intros [] ?; reflexivity.
  - intros k w Hw Hk -> j Hj. by rewrite (bitmap_bit_word _ _ _ _ Hk Hw Hj), Z.bits_0.
  - intros k w Hw Hk Hlt Hne. pose proof (words_ok_lookup _ _ _ Hok Hw).
    apply first_in_word; [lia|lia|lia|]. intros j Hj. by rewrite (bitmap_bit_word _ _ _ _ Hk Hw Hj).
  - lia.
  - unfold find_first_bit. rewrite Hr. f_equal. symmetry. by apply first_set_eq.
Qed.

Lemma lnot_word_bit w j : 0 ≤ j < 64 → Z.testbit (u64 (Z.lnot w)) j = negb (Z.testbit w j).
Proof. intros Hj. rewrite u64_testbit, Z.lnot_spec, bool_decide_true by lia. done. Qed.

Lemma lnot_word_zero w : 0 ≤ w < 2 ^ 64 → u64 (Z.lnot w) = 2 ^ 64 - 1 - w.
Proof. intros Hw. unfold u64, Z.lnot. symmetry. apply (Z.mod_unique _ _ (-1)); lia. Qed.

Lemma find_first_zero_bit_run addr size :
  words_ok addr → size ≤ 64 * Z.of_nat (length addr) →
  find_first_zero_bit addr size = Some (first_set (λ i, negb (bitmap_bit addr i)) 0 size).
Proof.
  intros Hok Hsz. destruct (scan_words_run addr size (2 ^ 64 - 1) ffz (λ i, negb (bitmap_bit addr i))
    (λ f i, find_first_zero_bit_loop f addr size i) Hok Hsz) with (fuel := length addr) (idx := 0%nat) as (r & Hr & Hfirst).
  - intros [] ?; reflexivity.
  - intros k w Hw Hk -> j Hj. by rewrite (bitmap_bit_word _ _ _ _ Hk Hw Hj), testbit_max.
  - intros k w Hw Hk Hlt Hne. pose proof (words_ok_lookup _ _ _ Hok Hw).
    apply first_in_word; [lia|rewrite lnot_word_zero; lia|lia|].
    intros j Hj. by rewrite lnot_word_bit, (bitmap_bit_word _ _ _ _ Hk Hw Hj).
  - lia.
  - unfold find_first_zero_bit. rewrite Hr. f_equal. symmetry. by apply first_set_eq.
Qed.

(** ** [find_last_bit] *)

Lemma last_set_eq P n r :
  0 ≤ n → (0 ≤ r < n ∧ P r = true ∨ r = n) → (∀ i, 0 ≤ i < n → P i = true → i ≤ r ∧ r < n) → last_set P n = r.
Proof.
  intros Hn Hr Hmax. unfold last_set.
  assert (Hgen : ∀ k, Z.of_nat k ≤ n → (∀ i, Z.of_nat k ≤ i < n → P i = false) → seek_down k P n = r).
  { induction k as [|k IH]; intros Hk Habove; simpl.
    - destruct Hr as [[? HP]| ->]; [|done]. rewrite Habove in HP by lia. done.
    - destruct (P (Z.of_nat k)) eqn:HP.
      + destruct (Hmax (Z.of_nat k) ltac:(lia) HP). destruct Hr as [[? HPr]|]; [|lia].
        destruct (decide (r = Z.of_nat k)) as [|]; [done|]. rewrite Habove in HPr by lia. done.
      + apply IH; [lia|]. intros i Hi. destruct (decide (i = Z.of_nat k)) as [->|]; [done|]. apply Habove. lia. }
  apply Hgen; [lia|]. intros; lia.
Qed.

(** One word of the search from the top: [val] masks the bits below [size]. *)
Lemma last_word addr size val (k : nat) w :
  addr !! k = Some w → 0 ≤ val < 2 ^ 64 → 0 ≤ size →
  (∀ j, 0 ≤ j < 64 → Z.testbit val j = bool_decide (64 * Z.of_nat k + j < size)) →
  (∀ i, 64 * Z.of_nat k + 64 ≤ i < size → bitmap_bit addr i = false) →
  if Z.land val w =? 0 then ∀ i, 64 * Z.of_nat k ≤ i < size → bitmap_bit addr i = false
  else last_set (bitmap_bit addr) size = Z.of_nat k * 64 + __fls (Z.land val w).
Proof.
  intros Hw Hval Hsz Hmask Habove. pose proof (land_bound val w Hval) as Hl.
  assert (Hw' : addr !! Z.to_nat (Z.of_nat k) = Some w) by by rewrite Nat2Z.id.
  assert (Hword : ∀ j, 0 ≤ j < 64 → Z.testbit (Z.land val w) j =
    bool_decide (64 * Z.of_nat k + j < size) && bitmap_bit addr (64 * Z.of_nat k + j)).
  { intros j Hj. rewrite Z.land_spec, (bitmap_bit_word addr (Z.of_nat k) w j ltac:(lia) Hw' Hj). f_equal. by apply Hmask. }
  assert (Hin : ∀ i, 64 * Z.of_nat k ≤ i < size → i < 64 * Z.of_nat k + 64 →
    bitmap_bit addr i = Z.testbit (Z.land val w) (i - 64 * Z.of_nat k)).
  { intros i Hi Hi'. rewrite Hword, bool_decide_true by lia. simpl. f_equal. lia. }
  destruct (Z.eqb_spec (Z.land val w) 0) as [Hz|Hnz].
  - intros i Hi. destruct (Z.lt_ge_cases i (64 * Z.of_nat k + 64)); [|apply Habove; lia].
    by rewrite Hin, Hz, Z.bits_0 by lia.
  - unfold __fls. pose proof (Z.bit_log2 (Z.land val w) ltac:(lia)) as Hlog.
    pose proof (Z.log2_nonneg (Z.land val w)). assert (Z.log2 (Z.land val w) < 64) by (apply Z.log2_lt_pow2; lia).
    rewrite Hword in Hlog by lia. apply andb_true_iff in Hlog as [Hlt%bool_decide_eq_true Hbit].
    apply last_set_eq; [done| |].
    + left. split; [lia|]. rewrite <-Hbit. f_equal. lia.
    + intros i Hi HP. split; [|lia]. destruct (Z.lt_ge_cases i (64 * Z.of_nat k + 64)); [|by rewrite Habove in HP by lia].
      destruct (Z.lt_ge_cases i (64 * Z.of_nat k)); [lia|]. rewrite Hin in HP by lia. apply Z.nlt_ge. intros Hgt.
      rewrite Z.bits_above_log2 in HP by lia. done.
Qed.

Lemma find_last_bit_loop_run addr size val k :
  words_ok addr → 0 ≤ val < 2 ^ 64 → (k < length addr)%nat → 0 ≤ size →
  (∀ j, 0 ≤ j < 64 → Z.testbit val j = bool_decide (64 * Z.of_nat k + j < size)) →
  (∀ i, 64 * Z.of_nat k + 64 ≤ i < size → bitmap_bit addr i = false) →
  64 * Z.of_nat k < size →
  find_last_bit_loop addr size val k = Some (last_set (bitmap_bit addr) size).
Proof.
  revert val. induction k as [|k IH]; intros val Hok Hval Hk Hsz Hmask Habove Hks; cbn [find_last_bit_loop];
    destruct (lookup_lt_is_Some_2 addr _ Hk) as [w Hw]; rewrite Hw; cbn [mbind option_bind];
    pose proof (last_word _ _ _ _ _ Hw Hval Hsz Hmask Habove) as Hstep;
    (destruct (Z.land val w =? 0); [|by rewrite Hstep]).
  - f_equal. symmetry. apply last_set_eq; [done|by right|]. intros i Hi HP. by rewrite Hstep in HP by lia.
  - apply IH; [done|lia|lia|done| | |lia].
    + intros j Hj. rewrite testbit_max by lia. symmetry. apply bool_decide_true. lia.
    + intros i Hi. apply Hstep. lia.
Qed.

Lemma find_last_bit_run addr size :
  words_ok addr → 0 ≤ size ≤ 64 * Z.of_nat (length addr) → size < 2 ^ 63 →
  find_last_bit addr size = Some (last_set (bitmap_bit addr) size).
Proof.
  intros Hok Hsz Hsmall. unfold find_last_bit. destruct (Z.eqb_spec size 0) as [->|Hne]; [done|].
  pose proof (Z.div_mod (size - 1) 64 ltac:(lia)). pose proof (Z.mod_pos_bound (size - 1) 64 ltac:(lia)).
  assert (0 ≤ (size - 1) / 64) by (apply Z.div_pos; lia).
  assert (Hk : Z.of_nat (Z.to_nat ((size - 1) / 64)) = (size - 1) / 64) by lia.
  unfold BITS_PER_LONG. apply find_last_bit_loop_run; [done| |lia|lia| |rewrite Hk; lia|rewrite Hk; lia].
  - unfold BITMAP_LAST_WORD_MASK. rewrite land_low. pose proof (Z.mod_pos_bound (u64 (- size)) 64 ltac:(lia)).
    rewrite Z.shiftr_div_pow2 by lia. split; [apply Z.div_pos; lia|]. apply Z.div_lt_upper_bound; [lia|].
    pose proof (Z.pow_pos_nonneg 2 (u64 (- size) mod 64)). nia.
  - intros j Hj. rewrite last_mask_bit by lia. apply bool_decide_ext. rewrite Hk. lia.
Qed.

(** ** Single bits *)

Lemma bit_mask_bit nr j : 0 ≤ nr → 0 ≤ j < 64 → Z.testbit (BIT_MASK nr) j = bool_decide (j = nr mod 64).
Proof.
  intros Hnr Hj. unfold BIT_MASK, BITS_PER_LONG. rewrite u64_testbit, Z.shiftl_1_l, bool_decide_true by lia. simpl.
  pose proof (Z.mod_pos_bound nr 64 ltac:(lia)). rewrite Z.pow2_bits_eqb by lia.
  case_bool_decide; [by apply Z.eqb_eq|apply Z.eqb_neq; lia].
Qed.

Lemma bitmap_bit_insert addr nr w w' i :
  0 ≤ nr → 0 ≤ i → addr !! BIT_WORD nr = Some w → 
  bitmap_bit (<[BIT_WORD nr := w']> addr) i =
  if decide (i / 64 = nr / 64) then Z.testbit w' (i mod 64) else bitmap_bit addr i.
Proof.
  intros Hnr Hi Hw. unfold bitmap_bit, BIT_WORD, BITS_PER_LONG in *.
  assert (0 ≤ i / 64) by (apply Z.div_pos; lia). assert (0 ≤ nr / 64) by (apply Z.div_pos; lia).
  case_decide as Heq.
  - rewrite Heq, list_lookup_insert_eq by (by eapply lookup_lt_Some). done.
  - rewrite list_lookup_insert_ne by lia. done.
Qed.

Lemma same_word i nr : i / 64 = nr / 64 → i mod 64 = nr mod 64 ↔ i = nr.
Proof. intros Heq. pose proof (Z.div_mod i 64). pose proof (Z.div_mod nr 64). split; [lia|by intros ->]. Qed.

Lemma words_ok_insert addr i w : words_ok addr → 0 ≤ w < 2 ^ 64 → words_ok (<[i := w]> addr).
Proof. intros. by apply Forall_insert. Qed.

(** A bit operation [f] on the word, seen on the bitmap. *)
Lemma bit_op_run (f : Z → Z) (g : bool → bool) addr nr :
  words_ok addr → 0 ≤ nr < 64 * Z.of_nat (length addr) →
  (∀ w, 0 ≤ w < 2 ^ 64 → 0 ≤ f w < 2 ^ 64 ∧
    ∀ j, 0 ≤ j < 64 → Z.testbit (f w) j = if decide (j = nr mod 64) then g (Z.testbit w j) else Z.testbit w j) →
  ∃ addr', (w ← addr !! BIT_WORD nr; Some (<[BIT_WORD nr := f w]> addr)) = Some addr' ∧
    words_ok addr' ∧ length addr' = length addr ∧
    ∀ i, 0 ≤ i → bitmap_bit addr' i = if decide (i = nr) then g (bitmap_bit addr nr) else bitmap_bit addr i.
Proof.
  intros Hok Hnr Hf. pose proof (Z.div_mod nr 64 ltac:(lia)). pose proof (Z.mod_pos_bound nr 64 ltac:(lia)).
  assert (0 ≤ nr / 64) by (apply Z.div_pos; lia).
  assert (Hlt : (BIT_WORD nr < length addr)%nat) by (unfold BIT_WORD, BITS_PER_LONG; lia).
  destruct (lookup_lt_is_Some_2 addr _ Hlt) as [w Hw]. rewrite Hw. cbn [mbind option_bind].
  destruct (Hf w (words_ok_lookup _ _ _ Hok Hw)) as [Hb Hbits].
  eexists. split; [done|]. split; [by apply words_ok_insert|]. split; [apply length_insert|].
  intros i Hi. rewrite (bitmap_bit_insert _ _ w) by (done || lia).
  pose proof (Z.mod_pos_bound i 64 ltac:(lia)). case_decide as Heq.
  - rewrite Hbits by done. pose proof (same_word _ _ Heq) as Hiff.
    assert (Hii : Z.testbit w (i mod 64) = bitmap_bit addr i).
    { unfold bitmap_bit, BIT_WORD, BITS_PER_LONG in *. by rewrite Heq, Hw. }
    rewrite Hii. destruct (decide (i = nr)) as [->|]; [by rewrite decide_True|]. rewrite decide_False; [done|tauto].
  - rewrite decide_False; [done|]. by intros ->.
Qed.

Lemma BIT_MASK_bound nr : 0 ≤ BIT_MASK nr < 2 ^ 64.
Proof. apply u64_bound. Qed.
#[export] Hint Resolve BIT_MASK_bound words_ok_insert : machine.

Lemma __set_bit_run addr nr :
  words_ok addr → 0 ≤ nr < 64 * Z.of_nat (length addr) →
  ∃ addr', __set_bit nr addr = Some addr' ∧ words_ok addr' ∧ length addr' = length addr ∧
    ∀ i, 0 ≤ i → bitmap_bit addr' i = bool_decide (i = nr) || bitmap_bit addr i.
Proof.
  intros Hok Hnr. destruct (bit_op_run (λ w, Z.lor w (BIT_MASK nr)) (λ _, true) addr nr Hok Hnr) as (a & Ha & H1 & H2 & H3).
  { intros w Hw. split; [auto with machine|]. intros j Hj. rewrite Z.lor_spec, bit_mask_bit by lia.
    case_decide; [by rewrite bool_decide_true, orb_true_r|by rewrite bool_decide_false, orb_false_r]. }
  exists a. split_and!; [done..|]. intros i Hi. rewrite H3 by done.
  case_decide; [by rewrite bool_decide_true|by rewrite bool_decide_false].
Qed.

Lemma __clear_bit_run addr nr :
  words_ok addr → 0 ≤ nr < 64 * Z.of_nat (length addr) →
  ∃ addr', __clear_bit nr addr = Some addr' ∧ words_ok addr' ∧ length addr' = length addr ∧
    ∀ i, 0 ≤ i → bitmap_bit addr' i = negb (bool_decide (i = nr)) && bitmap_bit addr i.
Proof.
  intros Hok Hnr. destruct (bit_op_run (λ w, Z.land w (u64 (Z.lnot (BIT_MASK nr)))) (λ _, false) addr nr Hok Hnr)
    as (a & Ha & H1 & H2 & H3).
  { intros w Hw. split; [auto with machine|]. intros j Hj. rewrite Z.land_spec, lnot_word_bit, bit_mask_bit by lia.
    case_decide; [by rewrite bool_decide_true, andb_false_r|by rewrite bool_decide_false, andb_true_r]. }
  exists a. split_and!; [done..|]. intros i Hi. rewrite H3 by done.
  case_decide; [by rewrite bool_decide_true|by rewrite bool_decide_false].
Qed.

Lemma test_bit_run addr nr :
  0 ≤ nr < 64 * Z.of_nat (length addr) → test_bit nr addr = Some (bitmap_bit addr nr).
Proof.
  intros Hnr. pose proof (Z.div_mod nr 64 ltac:(lia)). pose proof (Z.mod_pos_bound nr 64 ltac:(lia)).
  assert (0 ≤ nr / 64) by (apply Z.div_pos; lia).
  assert (Hlt : (BIT_WORD nr < length addr)%nat) by (unfold BIT_WORD, BITS_PER_LONG; lia).
  destruct (lookup_lt_is_Some_2 addr _ Hlt) as [w Hw]. unfold test_bit, bitmap_bit. rewrite Hw. simpl.
  rewrite land_low. rewrite <-Z.bit0_odd, Z.shiftr_spec by lia. done.
Qed.

(** [sched_find_first_bit]: the bit is there because the delimiter is. *)
Lemma sched_find_first_bit_run b d :
  words_ok b → length b = 2%nat → 0 ≤ d < 128 → bitmap_bit b d = true →
  sched_find_first_bit b = Some (first_set (bitmap_bit b) 0 128).
Proof.
  intros Hok Hlen Hd Hbit. destruct b as [|b0 [|b1 [|]]]; try done. inversion_clear Hok as [|?? Hb0 Hrest].
  inversion_clear Hrest as [|?? Hb1 _]. unfold sched_find_first_bit. cbn [lookup list_lookup mbind option_bind].
  assert (Hw0 : ∀ j, 0 ≤ j < 64 → bitmap_bit [b0; b1] j = Z.testbit b0 j).
  { intros j Hj. by apply (bitmap_bit_word [b0; b1] 0 b0 j). }
  assert (Hw1 : ∀ j, 0 ≤ j < 64 → bitmap_bit [b0; b1] (64 + j) = Z.testbit b1 j).
  { intros j Hj. by apply (bitmap_bit_word [b0; b1] 1 b1 j). }
  destruct (Z.eqb_spec b0 0) as [->|Hne].
  - assert (b1 ≠ 0).
    { intros ->. destruct (Z.lt_ge_cases d 64); [rewrite Hw0, Z.bits_0 in Hbit by lia; done|].
      replace d with (64 + (d - 64)) in Hbit by lia. rewrite Hw1, Z.bits_0 in Hbit by lia. done. }
    f_equal. symmetry. apply first_set_eq. destruct (__ffs_spec b1 ltac:(lia)) as (Hr & Hb & Hlow).
    apply is_first_skip; [intros j Hj _; rewrite Z.add_0_l, Hw0, Z.bits_0 by lia; done|].
    replace (__ffs b1 + 64) with (Z.min (64 + __ffs b1) 128) by lia.
    apply first_in_word; [lia|lia|lia|]. intros j Hj. by rewrite <-Hw1.
  - f_equal. symmetry. apply first_set_eq. destruct (__ffs_spec b0 ltac:(lia)) as (Hr & _).
    replace (__ffs b0) with (Z.min (0 + __ffs b0) 128) by lia.
    apply first_in_word; [lia|lia|lia|]. intros j Hj. by rewrite <-Hw0.
Qed.

(** ** Claims *)

(** C40. The word-at-a-time searches agree with their bit-at-a-time references:
    the first bit at or after the offset that is set (clear, set in both maps),
    the first set and clear bit from the start, and the last set bit, or the
    size when there is none; they never read past the bitmap. *)
Theorem find_bit_correct addr1 addr2 size offset :
  words_ok addr1 → words_ok addr2 → length addr2 = length addr1 →
  0 ≤ size ≤ 64 * Z.of_nat (length addr1) → size < 2 ^ 63 → 0 ≤ offset →
  find_next_bit addr1 size offset = Some (first_set (bitmap_bit addr1) offset size) ∧
  find_next_zero_bit addr1 size offset = Some (first_set (λ i, negb (bitmap_bit addr1 i)) offset size) ∧
  find_next_and_bit addr1 addr2 size offset =
    Some (first_set (λ i, bitmap_bit addr1 i && bitmap_bit addr2 i) offset size) ∧
  find_first_bit addr1 size = Some (first_set (bitmap_bit addr1) 0 size) ∧
  find_first_zero_bit addr1 size = Some (first_set (λ i, negb (bitmap_bit addr1 i)) 0 size) ∧
  find_last_bit addr1 size = Some (last_set (bitmap_bit addr1) size).
Proof.
  intros Hok1 Hok2 Hlen Hsz Hsmall Hoff. split_and!.
  - unfold find_next_bit. rewrite _find_next_bit_run by (done || lia). f_equal. apply first_set_ext.
    intros i Hi. unfold search_bit. by rewrite Z.bits_0, andb_true_r, xorb_false_r.
  - unfold find_next_zero_bit. rewrite _find_next_bit_run by (done || lia). f_equal. apply first_set_ext.
    intros i Hi. unfold search_bit. by rewrite testbit_max, andb_true_r, xorb_true_r by (apply Z.mod_pos_bound; lia).
  - unfold find_next_and_bit. rewrite _find_next_bit_run by (done || lia || naive_solver). f_equal. apply first_set_ext.
    intros i Hi. unfold search_bit. by rewrite Z.bits_0, xorb_false_r.
  - apply find_first_bit_run; [done|lia].
  - apply find_first_zero_bit_run; [done|lia].
  - by apply find_last_bit_run.
Qed.

Lemma find_bit_witness :
  find_next_bit [0; 16] 100 3 = Some 68 ∧ find_last_bit [0; 16] 100 = Some 68.
Proof.
  assert (Hok : words_ok [0; 16]) by (repeat constructor; lia).
  destruct (find_bit_correct [0; 16] [0; 16] 100 3 Hok Hok eq_refl ltac:(simpl; lia) ltac:(lia) ltac:(lia))
    as (H1 & _ & _ & _ & _ & H6).
  rewrite H1, H6. split; reflexivity.
Defined.
