(* ===== verification/Sched.v ===== *)
(** * The state of the scheduler ([kernel/include/minix_rt/sched.h], [sched/sched.h])

    Tasks, run queues and the operations on them that the scheduling classes
    share.  Pointers to tasks are addresses; the [rb_node] a task carries is the
    cell of the heap at its address, so that the fair class runs the pointer
    code of the red-black trees. *)
From stdpp Require Import gmap.
From S2P Require Import Prelude Rbtree FindBit.

(** The [sched_class] a task points to. *)
Inductive sched_class := RtClass | FairClass | IdleClass.

#[global] Instance sched_class_eq_dec : EqDecision sched_class.
Proof. solve_decision. Defined.

(** A [struct list_head *] into the queues of the real-time class: the head of
    queue [i], or the [run_list] of a task. *)
Inductive list_ptr := LHead (i : nat) | LNode (p : loc).

#[global] Instance list_ptr_eq_dec : EqDecision list_ptr.
Proof. solve_decision. Defined.

(** [struct load_weight] *)
Record load_weight := mk_lw {
  lw_weight : Z;
  lw_inv_weight : Z
}.
Definition set_lw_weight (v : Z) (r : load_weight) : load_weight :=
  mk_lw v (lw_inv_weight r).
Definition set_lw_inv_weight (v : Z) (r : load_weight) : load_weight :=
  mk_lw (lw_weight r) v.

(** [struct sched_entity]; its [run_node] is the cell of the heap at the task's
    address. *)
Record sched_entity := mk_se {
  se_load : load_weight;
  se_on_rq : bool;
  se_exec_start : Z;
  se_sum_exec_runtime : Z;
  se_vruntime : Z;
  se_prev_sum_exec_runtime : Z
}.
Definition set_se_load (v : load_weight) (r : sched_entity) : sched_entity :=
  mk_se v (se_on_rq r) (se_exec_start r) (se_sum_exec_runtime r) (se_vruntime r) (se_prev_sum_exec_runtime
    r).
Definition set_se_on_rq (v : bool) (r : sched_entity) : sched_entity :=
  mk_se (se_load r) v (se_exec_start r) (se_sum_exec_runtime r) (se_vruntime r) (se_prev_sum_exec_runtime
    r).
Definition set_se_exec_start (v : Z) (r : sched_entity) : sched_entity :=
  mk_se (se_load r) (se_on_rq r) v (se_sum_exec_runtime r) (se_vruntime r) (se_prev_sum_exec_runtime r).
Definition set_se_sum_exec_runtime (v : Z) (r : sched_entity) : sched_entity :=
  mk_se (se_load r) (se_on_rq r) (se_exec_start r) v (se_vruntime r) (se_prev_sum_exec_runtime r).
Definition set_se_vruntime (v : Z) (r : sched_entity) : sched_entity :=
  mk_se (se_load r) (se_on_rq r) (se_exec_start r) (se_sum_exec_runtime r) v (se_prev_sum_exec_runtime r).
Definition set_se_prev_sum_exec_runtime (v : Z) (r : sched_entity) : sched_entity :=
  mk_se (se_load r) (se_on_rq r) (se_exec_start r) (se_sum_exec_runtime r) (se_vruntime r) v.

(** The scheduling part of [struct task_struct]: [t_mm] is [mm != NULL], and the
    three flags are those of its [thread_info]. *)
Record task_struct := mk_task {
  t_state : Z;
  t_prio : Z;
  t_static_prio : Z;
  t_normal_prio : Z;
  t_class : sched_class;
  t_se : sched_entity;
  t_policy : Z;
  t_cpus_allowed : Z;
  t_time_slice : Z;
  t_rt_priority : Z;
  t_cpu : nat;
  t_mm : bool;
  t_need_resched : bool;
  t_sigpending : bool;
  t_polling : bool;
  t_nvcsw : Z;
  t_nivcsw : Z
}.
Definition set_t_state (v : Z) (r : task_struct) : task_struct :=
  mk_task v (t_prio r) (t_static_prio r) (t_normal_prio r) (t_class r) (t_se r) (t_policy r)
    (t_cpus_allowed r) (t_time_slice r) (t_rt_priority r) (t_cpu r) (t_mm r) (t_need_resched r)
    (t_sigpending r) (t_polling r) (t_nvcsw r) (t_nivcsw r).
Definition set_t_prio (v : Z) (r : task_struct) : task_struct :=
  mk_task (t_state r) v (t_static_prio r) (t_normal_prio r) (t_class r) (t_se r) (t_policy r)
    (t_cpus_allowed r) (t_time_slice r) (t_rt_priority r) (t_cpu r) (t_mm r) (t_need_resched r)
    (t_sigpending r) (t_polling r) (t_nvcsw r) (t_nivcsw r).
Definition set_t_static_prio (v : Z) (r : task_struct) : task_struct :=
  mk_task (t_state r) (t_prio r) v (t_normal_prio r) (t_class r) (t_se r) (t_policy r) (t_cpus_allowed r)
    (t_time_slice r) (t_rt_priority r) (t_cpu r) (t_mm r) (t_need_resched r) (t_sigpending r) (t_polling
    r) (t_nvcsw r) (t_nivcsw r).
Definition set_t_normal_prio (v : Z) (r : task_struct) : task_struct :=
  mk_task (t_state r) (t_prio r) (t_static_prio r) v (t_class r) (t_se r) (t_policy r) (t_cpus_allowed r)
    (t_time_slice r) (t_rt_priority r) (t_cpu r) (t_mm r) (t_need_resched r) (t_sigpending r) (t_polling
    r) (t_nvcsw r) (t_nivcsw r).
Definition set_t_class (v : sched_class) (r : task_struct) : task_struct :=
  mk_task (t_state r) (t_prio r) (t_static_prio r) (t_normal_prio r) v (t_se r) (t_policy r)
    (t_cpus_allowed r) (t_time_slice r) (t_rt_priority r) (t_cpu r) (t_mm r) (t_need_resched r)
    (t_sigpending r) (t_polling r) (t_nvcsw r) (t_nivcsw r).
Definition set_t_se (v : sched_entity) (r : task_struct) : task_struct :=
  mk_task (t_state r) (t_prio r) (t_static_prio r) (t_normal_prio r) (t_class r) v (t_policy r)
    (t_cpus_allowed r) (t_time_slice r) (t_rt_priority r) (t_cpu r) (t_mm r) (t_need_resched r)
    (t_sigpending r) (t_polling r) (t_nvcsw r) (t_nivcsw r).
Definition set_t_policy (v : Z) (r : task_struct) : task_struct :=
  mk_task (t_state r) (t_prio r) (t_static_prio r) (t_normal_prio r) (t_class r) (t_se r) v
    (t_cpus_allowed r) (t_time_slice r) (t_rt_priority r) (t_cpu r) (t_mm r) (t_need_resched r)
    (t_sigpending r) (t_polling r) (t_nvcsw r) (t_nivcsw r).
Definition set_t_cpus_allowed (v : Z) (r : task_struct) : task_struct :=
  mk_task (t_state r) (t_prio r) (t_static_prio r) (t_normal_prio r) (t_class r) (t_se r) (t_policy r) v
    (t_time_slice r) (t_rt_priority r) (t_cpu r) (t_mm r) (t_need_resched r) (t_sigpending r) (t_polling
    r) (t_nvcsw r) (t_nivcsw r).
Definition set_t_time_slice (v : Z) (r : task_struct) : task_struct :=
  mk_task (t_state r) (t_prio r) (t_static_prio r) (t_normal_prio r) (t_class r) (t_se r) (t_policy r)
    (t_cpus_allowed r) v (t_rt_priority r) (t_cpu r) (t_mm r) (t_need_resched r) (t_sigpending r)
    (t_polling r) (t_nvcsw r) (t_nivcsw r).
Definition set_t_rt_priority (v : Z) (r : task_struct) : task_struct :=
  mk_task (t_state r) (t_prio r) (t_static_prio r) (t_normal_prio r) (t_class r) (t_se r) (t_policy r)
    (t_cpus_allowed r) (t_time_slice r) v (t_cpu r) (t_mm r) (t_need_resched r) (t_sigpending r)
    (t_polling r) (t_nvcsw r) (t_nivcsw r).
Definition set_t_cpu (v : nat) (r : task_struct) : task_struct :=
  mk_task (t_state r) (t_prio r) (t_static_prio r) (t_normal_prio r) (t_class r) (t_se r) (t_policy r)
    (t_cpus_allowed r) (t_time_slice r) (t_rt_priority r) v (t_mm r) (t_need_resched r) (t_sigpending r)
    (t_polling r) (t_nvcsw r) (t_nivcsw r).
Definition set_t_mm (v : bool) (r : task_struct) : task_struct :=
  mk_task (t_state r) (t_prio r) (t_static_prio r) (t_normal_prio r) (t_class r) (t_se r) (t_policy r)
    (t_cpus_allowed r) (t_time_slice r) (t_rt_priority r) (t_cpu r) v (t_need_resched r) (t_sigpending r)
    (t_polling r) (t_nvcsw r) (t_nivcsw r).
Definition set_t_need_resched (v : bool) (r : task_struct) : task_struct :=
  mk_task (t_state r) (t_prio r) (t_static_prio r) (t_normal_prio r) (t_class r) (t_se r) (t_policy r)
    (t_cpus_allowed r) (t_time_slice r) (t_rt_priority r) (t_cpu r) (t_mm r) v (t_sigpending r) (t_polling
    r) (t_nvcsw r) (t_nivcsw r).
Definition set_t_sigpending (v : bool) (r : task_struct) : task_struct :=
  mk_task (t_state r) (t_prio r) (t_static_prio r) (t_normal_prio r) (t_class r) (t_se r) (t_policy r)
    (t_cpus_allowed r) (t_time_slice r) (t_rt_priority r) (t_cpu r) (t_mm r) (t_need_resched r) v
    (t_polling r) (t_nvcsw r) (t_nivcsw r).
Definition set_t_polling (v : bool) (r : task_struct) : task_struct :=
  mk_task (t_state r) (t_prio r) (t_static_prio r) (t_normal_prio r) (t_class r) (t_se r) (t_policy r)
    (t_cpus_allowed r) (t_time_slice r) (t_rt_priority r) (t_cpu r) (t_mm r) (t_need_resched r)
    (t_sigpending r) v (t_nvcsw r) (t_nivcsw r).
Definition set_t_nvcsw (v : Z) (r : task_struct) : task_struct :=
  mk_task (t_state r) (t_prio r) (t_static_prio r) (t_normal_prio r) (t_class r) (t_se r) (t_policy r)
    (t_cpus_allowed r) (t_time_slice r) (t_rt_priority r) (t_cpu r) (t_mm r) (t_need_resched r)
    (t_sigpending r) (t_polling r) v (t_nivcsw r).
Definition set_t_nivcsw (v : Z) (r : task_struct) : task_struct :=
  mk_task (t_state r) (t_prio r) (t_static_prio r) (t_normal_prio r) (t_class r) (t_se r) (t_policy r)
    (t_cpus_allowed r) (t_time_slice r) (t_rt_priority r) (t_cpu r) (t_mm r) (t_need_resched r)
    (t_sigpending r) (t_polling r) (t_nvcsw r) v.

(** [struct cfs_rq]: [cfs_tasks_timeline] is the address of the tree's root
    pointer. *)
Record cfs_rq := mk_cfs {
  cfs_load : load_weight;
  cfs_nr_running : Z;
  cfs_min_vruntime : Z;
  cfs_tasks_timeline : loc;
  cfs_rb_leftmost : ptr;
  cfs_rb_load_balance_curr : ptr;
  cfs_curr : ptr
}.
Definition set_cfs_load (v : load_weight) (r : cfs_rq) : cfs_rq :=
  mk_cfs v (cfs_nr_running r) (cfs_min_vruntime r) (cfs_tasks_timeline r) (cfs_rb_leftmost r)
    (cfs_rb_load_balance_curr r) (cfs_curr r).
Definition set_cfs_nr_running (v : Z) (r : cfs_rq) : cfs_rq :=
  mk_cfs (cfs_load r) v (cfs_min_vruntime r) (cfs_tasks_timeline r) (cfs_rb_leftmost r)
    (cfs_rb_load_balance_curr r) (cfs_curr r).
Definition set_cfs_min_vruntime (v : Z) (r : cfs_rq) : cfs_rq :=
  mk_cfs (cfs_load r) (cfs_nr_running r) v (cfs_tasks_timeline r) (cfs_rb_leftmost r)
    (cfs_rb_load_balance_curr r) (cfs_curr r).
Definition set_cfs_tasks_timeline (v : loc) (r : cfs_rq) : cfs_rq :=
  mk_cfs (cfs_load r) (cfs_nr_running r) (cfs_min_vruntime r) v (cfs_rb_leftmost r)
    (cfs_rb_load_balance_curr r) (cfs_curr r).
Definition set_cfs_rb_leftmost (v : ptr) (r : cfs_rq) : cfs_rq :=
  mk_cfs (cfs_load r) (cfs_nr_running r) (cfs_min_vruntime r) (cfs_tasks_timeline r) v
    (cfs_rb_load_balance_curr r) (cfs_curr r).
Definition set_cfs_rb_load_balance_curr (v : ptr) (r : cfs_rq) : cfs_rq :=
  mk_cfs (cfs_load r) (cfs_nr_running r) (cfs_min_vruntime r) (cfs_tasks_timeline r) (cfs_rb_leftmost r) v
    (cfs_curr r).
Definition set_cfs_curr (v : ptr) (r : cfs_rq) : cfs_rq :=
  mk_cfs (cfs_load r) (cfs_nr_running r) (cfs_min_vruntime r) (cfs_tasks_timeline r) (cfs_rb_leftmost r)
    (cfs_rb_load_balance_curr r) v.

(** [struct rt_rq], with its [struct rt_prio_array active]. *)
Record rt_rq := mk_rt {
  rt_bitmap : list Z;
  rt_queue : list (list loc);
  rt_load_balance_idx : Z;
  rt_load_balance_head : list_ptr;
  rt_load_balance_curr : list_ptr
}.
Definition set_rt_bitmap (v : list Z) (r : rt_rq) : rt_rq :=
  mk_rt v (rt_queue r) (rt_load_balance_idx r) (rt_load_balance_head r) (rt_load_balance_curr r).
Definition set_rt_queue (v : list (list loc)) (r : rt_rq) : rt_rq :=
  mk_rt (rt_bitmap r) v (rt_load_balance_idx r) (rt_load_balance_head r) (rt_load_balance_curr r).
Definition set_rt_load_balance_idx (v : Z) (r : rt_rq) : rt_rq :=
  mk_rt (rt_bitmap r) (rt_queue r) v (rt_load_balance_head r) (rt_load_balance_curr r).
Definition set_rt_load_balance_head (v : list_ptr) (r : rt_rq) : rt_rq :=
  mk_rt (rt_bitmap r) (rt_queue r) (rt_load_balance_idx r) v (rt_load_balance_curr r).
Definition set_rt_load_balance_curr (v : list_ptr) (r : rt_rq) : rt_rq :=
  mk_rt (rt_bitmap r) (rt_queue r) (rt_load_balance_idx r) (rt_load_balance_head r) v.

(** [struct rq] *)
Record rq := mk_rq {
  rq_nr_running : Z;
  rq_cpu_load : list Z;
  rq_load : load_weight;
  rq_nr_load_updates : Z;
  rq_nr_switches : Z;
  rq_cfs : cfs_rq;
  rq_rt : rt_rq;
  rq_nr_uninterruptible : Z;
  rq_curr : loc;
  rq_idle : loc;
  rq_clock : Z;
  rq_prev_clock_raw : Z;
  rq_clock_max_delta : Z;
  rq_clock_warps : Z;
  rq_clock_overflows : Z;
  rq_tick_timestamp : Z;
  rq_idle_at_tick : bool;
  rq_cpu : nat
}.
Definition set_rq_nr_running (v : Z) (r : rq) : rq :=
  mk_rq v (rq_cpu_load r) (rq_load r) (rq_nr_load_updates r) (rq_nr_switches r) (rq_cfs r) (rq_rt r)
    (rq_nr_uninterruptible r) (rq_curr r) (rq_idle r) (rq_clock r) (rq_prev_clock_raw r)
    (rq_clock_max_delta r) (rq_clock_warps r) (rq_clock_overflows r) (rq_tick_timestamp r)
    (rq_idle_at_tick r) (rq_cpu r).
Definition set_rq_cpu_load (v : list Z) (r : rq) : rq :=
  mk_rq (rq_nr_running r) v (rq_load r) (rq_nr_load_updates r) (rq_nr_switches r) (rq_cfs r) (rq_rt r)
    (rq_nr_uninterruptible r) (rq_curr r) (rq_idle r) (rq_clock r) (rq_prev_clock_raw r)
    (rq_clock_max_delta r) (rq_clock_warps r) (rq_clock_overflows r) (rq_tick_timestamp r)
    (rq_idle_at_tick r) (rq_cpu r).
Definition set_rq_load (v : load_weight) (r : rq) : rq :=
  mk_rq (rq_nr_running r) (rq_cpu_load r) v (rq_nr_load_updates r) (rq_nr_switches r) (rq_cfs r) (rq_rt r)
    (rq_nr_uninterruptible r) (rq_curr r) (rq_idle r) (rq_clock r) (rq_prev_clock_raw r)
    (rq_clock_max_delta r) (rq_clock_warps r) (rq_clock_overflows r) (rq_tick_timestamp r)
    (rq_idle_at_tick r) (rq_cpu r).
Definition set_rq_nr_load_updates (v : Z) (r : rq) : rq :=
  mk_rq (rq_nr_running r) (rq_cpu_load r) (rq_load r) v (rq_nr_switches r) (rq_cfs r) (rq_rt r)
    (rq_nr_uninterruptible r) (rq_curr r) (rq_idle r) (rq_clock r) (rq_prev_clock_raw r)
    (rq_clock_max_delta r) (rq_clock_warps r) (rq_clock_overflows r) (rq_tick_timestamp r)
    (rq_idle_at_tick r) (rq_cpu r).
Definition set_rq_nr_switches (v : Z) (r : rq) : rq :=
  mk_rq (rq_nr_running r) (rq_cpu_load r) (rq_load r) (rq_nr_load_updates r) v (rq_cfs r) (rq_rt r)
    (rq_nr_uninterruptible r) (rq_curr r) (rq_idle r) (rq_clock r) (rq_prev_clock_raw r)
    (rq_clock_max_delta r) (rq_clock_warps r) (rq_clock_overflows r) (rq_tick_timestamp r)
    (rq_idle_at_tick r) (rq_cpu r).
Definition set_rq_cfs (v : cfs_rq) (r : rq) : rq :=
  mk_rq (rq_nr_running r) (rq_cpu_load r) (rq_load r) (rq_nr_load_updates r) (rq_nr_switches r) v (rq_rt
    r) (rq_nr_uninterruptible r) (rq_curr r) (rq_idle r) (rq_clock r) (rq_prev_clock_raw r)
    (rq_clock_max_delta r) (rq_clock_warps r) (rq_clock_overflows r) (rq_tick_timestamp r)
    (rq_idle_at_tick r) (rq_cpu r).
Definition set_rq_rt (v : rt_rq) (r : rq) : rq :=
  mk_rq (rq_nr_running r) (rq_cpu_load r) (rq_load r) (rq_nr_load_updates r) (rq_nr_switches r) (rq_cfs r)
    v (rq_nr_uninterruptible r) (rq_curr r) (rq_idle r) (rq_clock r) (rq_prev_clock_raw r)
    (rq_clock_max_delta r) (rq_clock_warps r) (rq_clock_overflows r) (rq_tick_timestamp r)
    (rq_idle_at_tick r) (rq_cpu r).
Definition set_rq_nr_uninterruptible (v : Z) (r : rq) : rq :=
  mk_rq (rq_nr_running r) (rq_cpu_load r) (rq_load r) (rq_nr_load_updates r) (rq_nr_switches r) (rq_cfs r)
    (rq_rt r) v (rq_curr r) (rq_idle r) (rq_clock r) (rq_prev_clock_raw r) (rq_clock_max_delta r)
    (rq_clock_warps r) (rq_clock_overflows r) (rq_tick_timestamp r) (rq_idle_at_tick r) (rq_cpu r).
Definition set_rq_curr (v : loc) (r : rq) : rq :=
  mk_rq (rq_nr_running r) (rq_cpu_load r) (rq_load r) (rq_nr_load_updates r) (rq_nr_switches r) (rq_cfs r)
    (rq_rt r) (rq_nr_uninterruptible r) v (rq_idle r) (rq_clock r) (rq_prev_clock_raw r)
    (rq_clock_max_delta r) (rq_clock_warps r) (rq_clock_overflows r) (rq_tick_timestamp r)
    (rq_idle_at_tick r) (rq_cpu r).
Definition set_rq_idle (v : loc) (r : rq) : rq :=
  mk_rq (rq_nr_running r) (rq_cpu_load r) (rq_load r) (rq_nr_load_updates r) (rq_nr_switches r) (rq_cfs r)
    (rq_rt r) (rq_nr_uninterruptible r) (rq_curr r) v (rq_clock r) (rq_prev_clock_raw r)
    (rq_clock_max_delta r) (rq_clock_warps r) (rq_clock_overflows r) (rq_tick_timestamp r)
    (rq_idle_at_tick r) (rq_cpu r).
Definition set_rq_clock (v : Z) (r : rq) : rq :=
  mk_rq (rq_nr_running r) (rq_cpu_load r) (rq_load r) (rq_nr_load_updates r) (rq_nr_switches r) (rq_cfs r)
    (rq_rt r) (rq_nr_uninterruptible r) (rq_curr r) (rq_idle r) v (rq_prev_clock_raw r)
    (rq_clock_max_delta r) (rq_clock_warps r) (rq_clock_overflows r) (rq_tick_timestamp r)
    (rq_idle_at_tick r) (rq_cpu r).
Definition set_rq_prev_clock_raw (v : Z) (r : rq) : rq :=
  mk_rq (rq_nr_running r) (rq_cpu_load r) (rq_load r) (rq_nr_load_updates r) (rq_nr_switches r) (rq_cfs r)
    (rq_rt r) (rq_nr_uninterruptible r) (rq_curr r) (rq_idle r) (rq_clock r) v (rq_clock_max_delta r)
    (rq_clock_warps r) (rq_clock_overflows r) (rq_tick_timestamp r) (rq_idle_at_tick r) (rq_cpu r).
Definition set_rq_clock_max_delta (v : Z) (r : rq) : rq :=
  mk_rq (rq_nr_running r) (rq_cpu_load r) (rq_load r) (rq_nr_load_updates r) (rq_nr_switches r) (rq_cfs r)
    (rq_rt r) (rq_nr_uninterruptible r) (rq_curr r) (rq_idle r) (rq_clock r) (rq_prev_clock_raw r) v
    (rq_clock_warps r) (rq_clock_overflows r) (rq_tick_timestamp r) (rq_idle_at_tick r) (rq_cpu r).
Definition set_rq_clock_warps (v : Z) (r : rq) : rq :=
  mk_rq (rq_nr_running r) (rq_cpu_load r) (rq_load r) (rq_nr_load_updates r) (rq_nr_switches r) (rq_cfs r)
    (rq_rt r) (rq_nr_uninterruptible r) (rq_curr r) (rq_idle r) (rq_clock r) (rq_prev_clock_raw r)
    (rq_clock_max_delta r) v (rq_clock_overflows r) (rq_tick_timestamp r) (rq_idle_at_tick r) (rq_cpu r).
Definition set_rq_clock_overflows (v : Z) (r : rq) : rq :=
  mk_rq (rq_nr_running r) (rq_cpu_load r) (rq_load r) (rq_nr_load_updates r) (rq_nr_switches r) (rq_cfs r)
    (rq_rt r) (rq_nr_uninterruptible r) (rq_curr r) (rq_idle r) (rq_clock r) (rq_prev_clock_raw r)
    (rq_clock_max_delta r) (rq_clock_warps r) v (rq_tick_timestamp r) (rq_idle_at_tick r) (rq_cpu r).
Definition set_rq_tick_timestamp (v : Z) (r : rq) : rq :=
  mk_rq (rq_nr_running r) (rq_cpu_load r) (rq_load r) (rq_nr_load_updates r) (rq_nr_switches r) (rq_cfs r)
    (rq_rt r) (rq_nr_uninterruptible r) (rq_curr r) (rq_idle r) (rq_clock r) (rq_prev_clock_raw r)
    (rq_clock_max_delta r) (rq_clock_warps r) (rq_clock_overflows r) v (rq_idle_at_tick r) (rq_cpu r).
Definition set_rq_idle_at_tick (v : bool) (r : rq) : rq :=
  mk_rq (rq_nr_running r) (rq_cpu_load r) (rq_load r) (rq_nr_load_updates r) (rq_nr_switches r) (rq_cfs r)
    (rq_rt r) (rq_nr_uninterruptible r) (rq_curr r) (rq_idle r) (rq_clock r) (rq_prev_clock_raw r)
    (rq_clock_max_delta r) (rq_clock_warps r) (rq_clock_overflows r) (rq_tick_timestamp r) v (rq_cpu r).
Definition set_rq_cpu (v : nat) (r : rq) : rq :=
  mk_rq (rq_nr_running r) (rq_cpu_load r) (rq_load r) (rq_nr_load_updates r) (rq_nr_switches r) (rq_cfs r)
    (rq_rt r) (rq_nr_uninterruptible r) (rq_curr r) (rq_idle r) (rq_clock r) (rq_prev_clock_raw r)
    (rq_clock_max_delta r) (rq_clock_warps r) (rq_clock_overflows r) (rq_tick_timestamp r)
    (rq_idle_at_tick r) v.

(** The tasks, the nodes of the trees, [runqueues] by processor and the rescheduling
    interrupts sent so far. *)
Record sched := mk_sched {
  s_tasks : gmap loc task_struct;
  s_nodes : heap;
  s_rqs : gmap nat rq;
  s_ipis : list nat
}.
Definition set_s_tasks (v : gmap loc task_struct) (r : sched) : sched :=
  mk_sched v (s_nodes r) (s_rqs r) (s_ipis r).
Definition set_s_nodes (v : heap) (r : sched) : sched :=
  mk_sched (s_tasks r) v (s_rqs r) (s_ipis r).
Definition set_s_rqs (v : gmap nat rq) (r : sched) : sched :=
  mk_sched (s_tasks r) (s_nodes r) v (s_ipis r).
Definition set_s_ipis (v : list nat) (r : sched) : sched :=
  mk_sched (s_tasks r) (s_nodes r) (s_rqs r) v.

(** ** Constants ([sched.h], [sched/prio.h], [sched/rt.h], [jiffies.h]) *)

Definition SCHED_NORMAL : Z := 0.
Definition SCHED_FIFO : Z := 1.
Definition SCHED_RR : Z := 2.
Definition SCHED_BATCH : Z := 3.
Definition SCHED_IDLE : Z := 5.

Definition TASK_RUNNING : Z := 0.
Definition TASK_INTERRUPTIBLE : Z := 1.
Definition TASK_UNINTERRUPTIBLE : Z := 2.
Definition TASK_STOPPED : Z := 4.
Definition TASK_TRACED : Z := 8.

Definition MAX_USER_RT_PRIO : Z := 100.
Definition MAX_RT_PRIO : Z := MAX_USER_RT_PRIO.
Definition MAX_PRIO : Z := MAX_RT_PRIO + 40.
Definition NICE_TO_PRIO (nice : Z) : Z := MAX_RT_PRIO + nice + 20.
Definition PRIO_TO_NICE (prio : Z) : Z := prio - MAX_RT_PRIO - 20.

(** [CONFIG_HZ_100] *)
Definition HZ : Z := 100.
Definition NSEC_PER_SEC : Z := 1000000000.
Definition TICK_NSEC : Z := (NSEC_PER_SEC + HZ / 2) / HZ.
Definition RR_TIMESLICE : Z := 100 * HZ / 1000.

Definition SCHED_LOAD_SHIFT : Z := 10.
Definition SCHED_LOAD_SCALE : Z := Z.shiftl 1 SCHED_LOAD_SHIFT.
Definition NICE_0_LOAD : Z := SCHED_LOAD_SCALE.
Definition SCHED_LOAD_SCALE_FUZZ : Z := SCHED_LOAD_SCALE.

Definition rt_prio (prio : Z) : bool := prio <? MAX_RT_PRIO.
Definition rt_policy (policy : Z) : bool := (policy =? SCHED_FIFO) || (policy =? SCHED_RR).
Definition task_has_rt_policy (p : task_struct) : bool := rt_policy (t_policy p).

(** [sysctl_sched_features] and [sched_feat] *)
Definition SCHED_FEAT_NEW_FAIR_SLEEPERS : Z := 1.
Definition SCHED_FEAT_WAKEUP_PREEMPT : Z := 2.
Definition SCHED_FEAT_START_DEBIT : Z := 4.
Definition SCHED_FEAT_TREE_AVG : Z := 8.
Definition SCHED_FEAT_APPROX_AVG : Z := 16.
Definition sysctl_sched_features : Z :=
  Z.lor (Z.lor (Z.lor (Z.lor (SCHED_FEAT_NEW_FAIR_SLEEPERS * 1) (SCHED_FEAT_WAKEUP_PREEMPT * 1))
    (SCHED_FEAT_START_DEBIT * 1)) (SCHED_FEAT_TREE_AVG * 0)) (SCHED_FEAT_APPROX_AVG * 0).
Definition sched_feat (x : Z) : bool := negb (Z.land sysctl_sched_features x =? 0).

Definition update_load_add (lw : load_weight) (inc : Z) : load_weight :=
  set_lw_weight (u64 (lw_weight lw + inc)) lw.
Definition update_load_sub (lw : load_weight) (dec : Z) : load_weight :=
  set_lw_weight (u64 (lw_weight lw - dec)) lw.

Definition WEIGHT_IDLEPRIO : Z := 2.
(** [(1 << 31)] is an [int]: it is negative, and so wraps when it is stored in
    an [unsigned long]. *)
Definition WMULT_IDLEPRIO : Z := u64 (s32 (Z.shiftl 1 31)).

Definition prio_to_weight : list Z := [
  88761; 71755; 56483; 46273; 36291; 29154; 23254; 18705; 14949; 11916;
  9548; 7620; 6100; 4904; 3906; 3121; 2501; 1991; 1586; 1277;
  1024; 820; 655; 526; 423; 335; 272; 215; 172; 137;
  110; 87; 70; 56; 45; 36; 29; 23; 18; 15 ].

Definition prio_to_wmult : list Z := [
  48388; 59856; 76040; 92818; 118348; 147320; 184698; 229616; 287308; 360437;
  449829; 563644; 704093; 875809; 1099582; 1376151; 1717300; 2157191; 2708050; 3363326;
  4194304; 5237765; 6557202; 8165337; 10153587; 12820798; 15790321; 19976592; 24970740; 31350126;
  39045157; 49367440; 61356676; 76695844; 95443717; 119304647; 148102320; 186737708; 238609294; 286331153 ].

(** ** Commands on the state *)

(** Like the heap commands: a crash is [None]. *)
Definition M (A : Type) : Type := sched → option (A * sched).

#[global] Instance M_ret : MRet M := λ A a s, Some (a, s).
#[global] Instance M_bind : MBind M := λ A B k m s, '(a, s) ← m s; k a s.

Definition BUG {A} : M A := λ _, None.
Definition BUG_ON (b : bool) : M unit := if b then BUG else mret tt.
Definition when (b : bool) (m : M unit) : M unit := if b then m else mret tt.

Definition get_task (p : loc) : M task_struct := λ s, t ← s_tasks s !! p; Some (t, s).
Definition put_task (p : loc) (t : task_struct) : M unit := λ s,
  Some (tt, set_s_tasks (<[p := t]> (s_tasks s)) s).
Definition mod_task (p : loc) (f : task_struct → task_struct) : M unit := t ← get_task p; put_task p (f t).
Definition mod_se (p : loc) (f : sched_entity → sched_entity) : M unit :=
  mod_task p (λ t, set_t_se (f (t_se t)) t).

(** [cpu_rq(cpu)] *)
Definition get_rq (cpu : nat) : M rq := λ s, r ← s_rqs s !! cpu; Some (r, s).
Definition put_rq (cpu : nat) (r : rq) : M unit := λ s, Some (tt, set_s_rqs (<[cpu := r]> (s_rqs s)) s).
Definition mod_rq (cpu : nat) (f : rq → rq) : M unit := r ← get_rq cpu; put_rq cpu (f r).
Definition mod_cfs (cpu : nat) (f : cfs_rq → cfs_rq) : M unit :=
  mod_rq cpu (λ r, set_rq_cfs (f (rq_cfs r)) r).
Definition mod_rt (cpu : nat) (f : rt_rq → rt_rq) : M unit :=
  mod_rq cpu (λ r, set_rq_rt (f (rq_rt r)) r).

(** A command on the tree nodes. *)
Definition on_nodes {A} (c : cmd A) : M A := λ s, '(a, h) ← c (s_nodes s); Some (a, set_s_nodes h s).

Definition lift {A} (o : option A) : M A := λ s, a ← o; Some (a, s).

(** ** Rescheduling and the clock ([core.c]) *)

Section cpu.
(** The processor that runs the code, and what [sched_clock] returns. *)
Context (me : nat) (now : Z).

Definition set_tsk_need_resched (p : loc) : M unit := mod_task p (set_t_need_resched true).
Definition clear_tsk_need_resched (p : loc) : M unit := mod_task p (set_t_need_resched false).

Definition smp_send_reschedule (cpu : nat) : M unit := λ s, Some (tt, set_s_ipis (s_ipis s ++ [cpu]) s).

Definition resched_task (p : loc) : M unit :=
  t ← get_task p;
  if t_need_resched t then mret tt else
  set_tsk_need_resched p;;
  if decide (t_cpu t = me) then mret tt else
  when (negb (t_polling t)) (smp_send_reschedule (t_cpu t)).

(** The body of [__update_rq_clock], on the fields of the run queue. *)
Definition update_rq_clock_fields (r : rq) : rq :=
  let delta := s64 (now - rq_prev_clock_raw r) in
  let clock := rq_clock r in
  let r := set_rq_prev_clock_raw now r in
  if delta <? 0 then
    set_rq_clock (u64 (clock + 1)) (set_rq_clock_warps (u32 (rq_clock_warps r + 1)) r)
  else
    let limit := u64 (rq_tick_timestamp r + TICK_NSEC) in
    if limit <? u64 (clock + delta) then
      set_rq_clock (if clock <? limit then limit else u64 (clock + 1))
        (set_rq_clock_overflows (u32 (rq_clock_overflows r + 1)) r)
    else
      set_rq_clock (u64 (clock + delta))
        (if rq_clock_max_delta r <? delta then set_rq_clock_max_delta delta r else r).

Definition __update_rq_clock (cpu : nat) : M unit := mod_rq cpu update_rq_clock_fields.

Definition update_rq_clock (cpu : nat) : M unit :=
  r ← get_rq cpu;
  when (bool_decide (me = rq_cpu r)) (__update_rq_clock cpu).

End cpu.
