(* ===== verification/SchedRt.v ===== *)
(** * The real-time scheduling class ([kernel/core/sched/rt.c])

    A queue per priority and a bitmap of the queues that are not empty.  A
    queue is the list of its tasks; [list_next] and [list_prev] are the links
    of the circular list behind it. *)
From stdpp Require Import gmap.
From S2P Require Import Prelude Rbtree FindBit Sched.

(** ** Lists ([base/list.h]) *)

(** The queue that holds a task, and the task's position in it. *)
Definition queue_of (queue : list (list loc)) (p : loc) : option nat :=
  fst <$> list_find (λ l, p ∈ l) queue.
Definition index_of (l : list loc) (p : loc) : option nat := fst <$> list_find (p =.) l.

Definition list_next (queue : list (list loc)) (a : list_ptr) : option list_ptr :=
  match a with
  | LHead i => l ← queue !! i; Some (match head l with Some q => LNode q | None => LHead i end)
  | LNode p =>
      i ← queue_of queue p; l ← queue !! i; k ← index_of l p;
      Some (match l !! S k with Some q => LNode q | None => LHead i end)
  end.

Definition list_prev (queue : list (list loc)) (a : list_ptr) : option list_ptr :=
  match a with
  | LHead i => l ← queue !! i; Some (match last l with Some q => LNode q | None => LHead i end)
  | LNode p =>
      i ← queue_of queue p; l ← queue !! i; k ← index_of l p;
      Some (match k with O => LHead i | S k => match l !! k with Some q => LNode q | None => LHead i end end)
  end.

(** [list_entry(a, struct task_struct, run_list)]: the head of a queue is not
    inside a task. *)
Definition list_entry (a : list_ptr) : option loc := match a with LNode p => Some p | LHead _ => None end.

Definition list_add_tail (p : loc) (i : nat) (queue : list (list loc)) : option (list (list loc)) :=
  l ← queue !! i; Some (<[i := l ++ [p]]> queue).
Definition list_del (p : loc) (queue : list (list loc)) : option (list (list loc)) :=
  i ← queue_of queue p; l ← queue !! i; Some (<[i := filter (.≠ p) l]> queue).
Definition list_move_tail (p : loc) (i : nat) (queue : list (list loc)) : option (list (list loc)) :=
  queue ← list_del p queue; list_add_tail p i queue.
Definition list_empty (i : nat) (queue : list (list loc)) : option bool :=
  l ← queue !! i; Some (bool_decide (l = [])).

(** The index [array->queue + prio]; a negative priority is outside the array. *)
Definition prio_index (prio : Z) : option nat := if prio <? 0 then None else Some (Z.to_nat prio).

(** ** Run time *)

Definition update_curr_rt (cpu : nat) : M unit :=
  r ← get_rq cpu;
  curr ← get_task (rq_curr r);
  if negb (task_has_rt_policy curr) then mret tt else
  let delta_exec := u64 (rq_clock r - se_exec_start (t_se curr)) in
  let delta_exec := if s64 delta_exec <? 0 then 0 else delta_exec in
  mod_se (rq_curr r) (λ se,
    set_se_exec_start (rq_clock r) (set_se_sum_exec_runtime (u64 (se_sum_exec_runtime se + delta_exec)) se)).

(** ** Queueing *)

Definition enqueue_task_rt (cpu : nat) (p : loc) (wakeup : bool) : M unit :=
  r ← get_rq cpu; t ← get_task p;
  i ← lift (prio_index (t_prio t));
  queue ← lift (list_add_tail p i (rt_queue (rq_rt r)));
  bitmap ← lift (__set_bit (t_prio t) (rt_bitmap (rq_rt r)));
  mod_rt cpu (λ rt, set_rt_bitmap bitmap (set_rt_queue queue rt)).

Definition dequeue_task_rt (cpu : nat) (p : loc) (sleep : bool) : M unit :=
  update_curr_rt cpu;;
  r ← get_rq cpu; t ← get_task p;
  queue ← lift (list_del p (rt_queue (rq_rt r)));
  mod_rt cpu (set_rt_queue queue);;
  i ← lift (prio_index (t_prio t));
  empty ← lift (list_empty i queue);
  when empty (
    bitmap ← lift (__clear_bit (t_prio t) (rt_bitmap (rq_rt r)));
    mod_rt cpu (set_rt_bitmap bitmap)).

Definition requeue_task_rt (cpu : nat) (p : loc) : M unit :=
  r ← get_rq cpu; t ← get_task p;
  i ← lift (prio_index (t_prio t));
  queue ← lift (list_move_tail p i (rt_queue (rq_rt r)));
  mod_rt cpu (set_rt_queue queue).

Definition yield_task_rt (cpu : nat) : M unit :=
  r ← get_rq cpu; requeue_task_rt cpu (rq_curr r).

(** ** Choosing *)

Definition check_preempt_curr_rt (me cpu : nat) (p : loc) : M unit :=
  r ← get_rq cpu; t ← get_task p; curr ← get_task (rq_curr r);
  when (t_prio t <? t_prio curr) (resched_task me (rq_curr r)).

Definition pick_next_task_rt (cpu : nat) : M ptr :=
  r ← get_rq cpu;
  let array := rq_rt r in
  idx ← lift (sched_find_first_bit (rt_bitmap array));
  if MAX_RT_PRIO <=? idx then mret None else
  a ← lift (list_next (rt_queue array) (LHead (Z.to_nat idx)));
  next ← lift (list_entry a);
  mod_se next (set_se_exec_start (rq_clock r));;
  mret (Some next).

Definition put_prev_task_rt (cpu : nat) (p : loc) : M unit :=
  update_curr_rt cpu;;
  mod_se p (set_se_exec_start 0).

(** ** The iterator of the load balancer *)

Definition load_balance_start_rt (cpu : nat) : M ptr :=
  r ← get_rq cpu;
  let array := rq_rt r in
  idx ← lift (sched_find_first_bit (rt_bitmap array));
  if MAX_RT_PRIO <=? idx then mret None else
  let head := LHead (Z.to_nat idx) in
  curr ← lift (list_prev (rt_queue array) head);
  p ← lift (list_entry curr);
  curr ← lift (list_prev (rt_queue array) curr);
  mod_rt cpu (λ rt, set_rt_load_balance_curr curr (set_rt_load_balance_head head (set_rt_load_balance_idx idx rt)));;
  mret (Some p).

(** The task at [curr], after moving on. *)
Definition load_balance_step_rt (cpu : nat) (queue : list (list loc)) (curr : list_ptr) : M ptr :=
  p ← lift (list_entry curr);
  curr ← lift (list_prev queue curr);
  mod_rt cpu (set_rt_load_balance_curr curr);;
  mret (Some p).

Definition load_balance_next_rt (cpu : nat) : M ptr :=
  r ← get_rq cpu;
  let rt := rq_rt r in
  let idx := rt_load_balance_idx rt in
  let head := rt_load_balance_head rt in
  let curr := rt_load_balance_curr rt in
  if decide (head = curr) then
    next_idx ← lift (find_next_bit (rt_bitmap rt) MAX_RT_PRIO (idx + 1));
    if MAX_RT_PRIO <=? next_idx then mret None else
    let head := LHead (Z.to_nat next_idx) in
    curr ← lift (list_prev (rt_queue rt) head);
    mod_rt cpu (λ rt, set_rt_load_balance_head head (set_rt_load_balance_idx next_idx rt));;
    load_balance_step_rt cpu (rt_queue rt) curr
  else load_balance_step_rt cpu (rt_queue rt) curr.

(** ** The tick *)

Definition task_tick_rt (cpu : nat) (p : loc) : M unit :=
  update_curr_rt cpu;;
  t ← get_task p;
  if negb (t_policy t =? SCHED_RR) then mret tt else
  let slice := u32 (t_time_slice t - 1) in
  mod_task p (set_t_time_slice slice);;
  if negb (slice =? 0) then mret tt else
  mod_task p (set_t_time_slice RR_TIMESLICE);;
  r ← get_rq cpu;
  prev ← lift (list_prev (rt_queue (rq_rt r)) (LNode p));
  next ← lift (list_next (rt_queue (rq_rt r)) (LNode p));
  if decide (prev ≠ next) then
    requeue_task_rt cpu p;;
    set_tsk_need_resched p
  else mret tt.

Definition set_curr_task_rt (cpu : nat) : M unit :=
  r ← get_rq cpu; mod_se (rq_curr r) (set_se_exec_start (rq_clock r)).
