(* ===== verification/SchedFair.v ===== *)
(** * The fair scheduling class ([kernel/core/sched/fair.c])

    Runnable tasks wait in a red-black tree ordered by their virtual run time,
    measured from [min_vruntime] as a signed distance; the running task is not
    in the tree.  The tree operations are the pointer code of [Rbtree]; [fuel]
    bounds their loops. *)
From stdpp Require Import gmap.
From S2P Require Import Prelude Rbtree RbtreeKeyed FindBit Sched.

(** The tunables, which [sched_init_granularity] scales at boot. *)
Record tunables := mk_tunables {
  sysctl_sched_latency : Z;
  sysctl_sched_min_granularity : Z;
  sysctl_sched_batch_wakeup_granularity : Z;
  sysctl_sched_wakeup_granularity : Z
}.

Definition default_tunables : tunables := mk_tunables 20000000 4000000 10000000 10000000.

Definition sched_nr_latency : Z := 5.
Definition sysctl_sched_child_runs_first : bool := true.
Definition sysctl_sched_migration_cost : Z := 500000.

(** [ilog2(num_online_cpus())] is at most 3 for [CONFIG_NR_CPUS = 8]. *)
Definition sched_init_granularity (num_online_cpus : Z) (t : tunables) : tunables :=
  let factor := u32 (1 + Z.log2 num_online_cpus) in
  let limit := 200000000 in
  let min_gran := u32 (sysctl_sched_min_granularity t * factor) in
  let latency := u32 (sysctl_sched_latency t * factor) in
  mk_tunables
    (if limit <? latency then limit else latency)
    (if limit <? min_gran then limit else min_gran)
    (u32 (sysctl_sched_batch_wakeup_granularity t * factor))
    (u32 (sysctl_sched_wakeup_granularity t * factor)).

(** ** Virtual time *)

Definition max_vruntime (min_vruntime vruntime : Z) : Z :=
  if 0 <? s64 (vruntime - min_vruntime) then vruntime else min_vruntime.

Definition min_vruntime (min_vruntime vruntime : Z) : Z :=
  if s64 (vruntime - min_vruntime) <? 0 then vruntime else min_vruntime.

Definition entity_key (cfs : cfs_rq) (se : sched_entity) : Z :=
  s64 (se_vruntime se - cfs_min_vruntime cfs).

(** ** The tree *)

(** The side to take at [entry] for a new entity with the given key: equal keys
    stay together, on the right. *)
Definition entity_go (tasks : gmap loc task_struct) (cfs : cfs_rq) (key : Z) (entry : loc) : option dir :=
  t ← tasks !! entry;
  Some (if key <? entity_key cfs (t_se t) then DL else DR).

(** The descent of [__enqueue_entity] as [rb_descend], with [leftmost] beside
    it: [true] while no right turn was taken. *)
Fixpoint enqueue_descend (fuel : nat) (go : loc → option dir) (parent : ptr) (link : dir) (cur : ptr)
    (leftmost : bool) : cmd (ptr * dir * bool) :=
  match cur with
  | None => ret (parent, link, leftmost)
  | Some this =>
      match fuel with
      | O => crash
      | S fuel =>
          match go this with
          | None => crash
          | Some d =>
              n <- load this;;
              enqueue_descend fuel go (Some this) d (child d n) (leftmost && bool_decide (d = DL))
          end
      end
  end.

Definition __enqueue_entity (fuel : nat) (cpu : nat) (p : loc) : M unit :=
  r ← get_rq cpu; t ← get_task p;
  let cfs := rq_cfs r in
  let key := entity_key cfs (t_se t) in
  go ← (λ s, Some (entity_go (s_tasks s) cfs key, s)) : M (loc → option dir);
  let root := cfs_tasks_timeline cfs in
  slot ← on_nodes (link <- load_ptr root;; enqueue_descend fuel go None DL link true);
  let '(parent, link, leftmost) := slot in
  when leftmost (mod_cfs cpu (set_cfs_rb_leftmost (Some p)));;
  on_nodes (rb_link_node p parent link root;;; rb_insert_color fuel p root).

Definition __dequeue_entity (fuel : nat) (cpu : nat) (p : loc) : M unit :=
  r ← get_rq cpu;
  let cfs := rq_cfs r in
  (if decide (cfs_rb_leftmost cfs = Some p) then
     next ← on_nodes (rb_next fuel p);
     mod_cfs cpu (set_cfs_rb_leftmost next)
   else mret tt);;
  on_nodes (rb_erase fuel p (cfs_tasks_timeline cfs)).

Definition first_fair (cpu : nat) : M ptr := r ← get_rq cpu; mret (cfs_rb_leftmost (rq_cfs r)).

(** The walk down the right links. *)
Fixpoint rightmost_loop (fuel : nat) (cur se : ptr) : cmd ptr :=
  match cur with
  | None => ret se
  | Some parent =>
      match fuel with
      | O => crash
      | S fuel => n <- load parent;; rightmost_loop fuel (rb_right n) (Some parent)
      end
  end.

Definition __pick_last_entity (fuel : nat) (cpu : nat) : M ptr :=
  r ← get_rq cpu;
  on_nodes (link <- load_ptr (cfs_tasks_timeline (rq_cfs r));; rightmost_loop fuel link None).

(** ** Scaling by weight *)

Definition WMULT_CONST : Z := Z.shiftl 1 32.
Definition WMULT_SHIFT : Z := 32.
Definition SRR (x y : Z) : Z := Z.shiftr (u64 (x + Z.shiftl 1 (y - 1))) y.
Definition LONG_MAX : Z := 2 ^ 63 - 1.

(** The [lw->inv_weight] that the division fills in; [None] is a division by
    zero. *)
Definition calc_inv_weight (lw : load_weight) : option Z :=
  if lw_inv_weight lw =? 0 then
    if lw_weight lw =? 0 then None
    else Some (u64 (u64 (WMULT_CONST - lw_weight lw / 2) / lw_weight lw + 1))
  else Some (lw_inv_weight lw).

Definition calc_delta_mine (delta_exec weight : Z) (lw : load_weight) : option (Z * load_weight) :=
  inv_weight ← calc_inv_weight lw;
  let tmp := u64 (delta_exec * weight) in
  let tmp :=
    if WMULT_CONST <? tmp then
      SRR (u64 (SRR tmp (WMULT_SHIFT / 2) * inv_weight)) (WMULT_SHIFT / 2)
    else SRR (u64 (tmp * inv_weight)) WMULT_SHIFT in
  Some (Z.min tmp LONG_MAX, set_lw_inv_weight inv_weight lw).

Definition calc_delta_fair (delta_exec : Z) (lw : load_weight) : option (Z * load_weight) :=
  calc_delta_mine delta_exec NICE_0_LOAD lw.

Section fair.
(** The processor, the clock and the tunables. *)
Context (me : nat) (now : Z) (tn : tunables).

Definition __sched_period (nr_running : Z) : Z :=
  if sched_nr_latency <? nr_running then u64 (nr_running * sysctl_sched_min_granularity tn)
  else sysctl_sched_latency tn.

(** [do_div(n, base)] with its 32-bit [base]. *)
Definition do_div (n base : Z) : option Z :=
  let base := u32 base in
  if base =? 0 then None else Some (n / base).

Definition sched_slice (cfs : cfs_rq) (se : sched_entity) : option Z :=
  let slice := __sched_period (cfs_nr_running cfs) in
  do_div (u64 (slice * lw_weight (se_load se))) (lw_weight (cfs_load cfs)).

Definition __sched_vslice (rq_weight nr_running : Z) : option Z :=
  do_div (u64 (__sched_period nr_running * NICE_0_LOAD)) rq_weight.

Definition sched_vslice (cfs : cfs_rq) : option Z :=
  __sched_vslice (lw_weight (cfs_load cfs)) (cfs_nr_running cfs).

Definition sched_vslice_add (cfs : cfs_rq) (se : sched_entity) : option Z :=
  __sched_vslice (u64 (lw_weight (cfs_load cfs) + lw_weight (se_load se))) (u64 (cfs_nr_running cfs + 1)).

(** ** Run time of the current entity *)

(** The run time charged for [delta_exec], and the entity's weights after it. *)
Definition delta_exec_weighted (delta_exec : Z) (se : sched_entity) : option (Z * load_weight) :=
  if lw_weight (se_load se) =? NICE_0_LOAD then Some (delta_exec, se_load se)
  else calc_delta_fair delta_exec (se_load se).

Definition __update_curr (cpu : nat) (curr : loc) (delta_exec : Z) : M unit :=
  t ← get_task curr;
  w ← lift (delta_exec_weighted delta_exec (t_se t));
  let '(delta, lw) := w in
  let vr := u64 (se_vruntime (t_se t) + delta) in
  mod_se curr (λ se,
    set_se_vruntime vr (set_se_load lw
      (set_se_sum_exec_runtime (u64 (se_sum_exec_runtime se + delta_exec)) se)));;
  first ← first_fair cpu;
  vruntime ← match first with
             | Some q => q ← get_task q; mret (min_vruntime vr (se_vruntime (t_se q)))
             | None => mret vr
             end;
  mod_cfs cpu (λ cfs, set_cfs_min_vruntime (max_vruntime (cfs_min_vruntime cfs) vruntime) cfs).

Definition update_curr (cpu : nat) : M unit :=
  r ← get_rq cpu;
  match cfs_curr (rq_cfs r) with
  | None => mret tt
  | Some curr =>
      t ← get_task curr;
      let delta_exec := u64 (rq_clock r - se_exec_start (t_se t)) in
      __update_curr cpu curr delta_exec;;
      mod_se curr (set_se_exec_start (rq_clock r))
  end.

(** ** Queueing *)

Definition account_entity_enqueue (cpu : nat) (p : loc) : M unit :=
  t ← get_task p;
  mod_cfs cpu (λ cfs, set_cfs_nr_running (u64 (cfs_nr_running cfs + 1))
    (set_cfs_load (update_load_add (cfs_load cfs) (lw_weight (se_load (t_se t)))) cfs));;
  mod_se p (set_se_on_rq true).

Definition account_entity_dequeue (cpu : nat) (p : loc) : M unit :=
  t ← get_task p;
  mod_cfs cpu (λ cfs, set_cfs_nr_running (u64 (cfs_nr_running cfs - 1))
    (set_cfs_load (update_load_sub (cfs_load cfs) (lw_weight (se_load (t_se t)))) cfs));;
  mod_se p (set_se_on_rq false).

Definition place_entity (fuel : nat) (cpu : nat) (p : loc) (initial : bool) : M unit :=
  r ← get_rq cpu; t ← get_task p;
  let cfs := rq_cfs r in
  let vruntime := cfs_min_vruntime cfs in
  vruntime ←
    (if sched_feat SCHED_FEAT_TREE_AVG then
       last ← __pick_last_entity fuel cpu;
       match last with
       | Some l => l ← get_task l; mret (Z.shiftr (u64 (vruntime + se_vruntime (t_se l))) 1)
       | None => mret vruntime
       end
     else if sched_feat SCHED_FEAT_APPROX_AVG && negb (cfs_nr_running cfs =? 0) then
       v ← lift (sched_vslice cfs); mret (u64 (vruntime + v / 2))
     else mret vruntime);
  vruntime ←
    (if initial && sched_feat SCHED_FEAT_START_DEBIT then
       v ← lift (sched_vslice_add cfs (t_se t)); mret (u64 (vruntime + v))
     else mret vruntime);
  let vruntime :=
    if initial then vruntime else
    let vruntime :=
      if sched_feat SCHED_FEAT_NEW_FAIR_SLEEPERS then u64 (vruntime - sysctl_sched_latency tn) else vruntime in
    max_vruntime (se_vruntime (t_se t)) vruntime in
  mod_se p (set_se_vruntime vruntime).

Definition enqueue_entity (fuel : nat) (cpu : nat) (p : loc) (wakeup : bool) : M unit :=
  update_curr cpu;;
  when wakeup (place_entity fuel cpu p false);;
  r ← get_rq cpu;
  when (negb (bool_decide (cfs_curr (rq_cfs r) = Some p))) (__enqueue_entity fuel cpu p);;
  account_entity_enqueue cpu p.

Definition dequeue_entity (fuel : nat) (cpu : nat) (p : loc) (sleep : bool) : M unit :=
  update_curr cpu;;
  r ← get_rq cpu;
  when (negb (bool_decide (cfs_curr (rq_cfs r) = Some p))) (__dequeue_entity fuel cpu p);;
  account_entity_dequeue cpu p.

Definition check_preempt_tick (cpu : nat) (curr : loc) : M unit :=
  r ← get_rq cpu; t ← get_task curr;
  ideal_runtime ← lift (sched_slice (rq_cfs r) (t_se t));
  let delta_exec := u64 (se_sum_exec_runtime (t_se t) - se_prev_sum_exec_runtime (t_se t)) in
  when (ideal_runtime <? delta_exec) (resched_task me (rq_curr r)).

Definition set_next_entity (fuel : nat) (cpu : nat) (p : loc) : M unit :=
  t ← get_task p;
  when (se_on_rq (t_se t)) (__dequeue_entity fuel cpu p);;
  mod_cfs cpu (set_cfs_curr (Some p));;
  mod_se p (λ se, set_se_prev_sum_exec_runtime (se_sum_exec_runtime se) se).

Definition pick_next_entity (fuel : nat) (cpu : nat) : M ptr :=
  first ← first_fair cpu;
  match first with
  | Some se => set_next_entity fuel cpu se;; mret (Some se)
  | None => mret None
  end.

Definition put_prev_entity (fuel : nat) (cpu : nat) (prev : loc) : M unit :=
  t ← get_task prev;
  when (se_on_rq (t_se t)) (update_curr cpu;; __enqueue_entity fuel cpu prev);;
  mod_cfs cpu (set_cfs_curr None).

Definition entity_tick (cpu : nat) (curr : loc) : M unit :=
  update_curr cpu;;
  r ← get_rq cpu;
  when ((1 <? cfs_nr_running (rq_cfs r)) || negb (sched_feat SCHED_FEAT_WAKEUP_PREEMPT))
    (check_preempt_tick cpu curr).

(** ** The methods of the class: [for_each_sched_entity] runs once *)

(** [cfs_rq_of(se)]: the queue of the processor the task is on. *)
Definition cfs_rq_of (p : loc) : M nat := t ← get_task p; mret (t_cpu t).

Definition enqueue_task_fair (fuel : nat) (cpu : nat) (p : loc) (wakeup : bool) : M unit :=
  t ← get_task p;
  if se_on_rq (t_se t) then mret tt else
  c ← cfs_rq_of p;
  enqueue_entity fuel c p wakeup.

Definition dequeue_task_fair (fuel : nat) (cpu : nat) (p : loc) (sleep : bool) : M unit :=
  c ← cfs_rq_of p;
  dequeue_entity fuel c p sleep.

Definition yield_task_fair (fuel : nat) (cpu : nat) : M unit :=
  r ← get_rq cpu;
  let curr := rq_curr r in
  t ← get_task curr;
  c ← cfs_rq_of curr;
  rc ← get_rq c;
  if cfs_nr_running (rq_cfs rc) =? 1 then mret tt else
  if negb (t_policy t =? SCHED_BATCH) then __update_rq_clock now cpu;; update_curr c else
  rightmost ← __pick_last_entity fuel c;
  rightmost ← lift rightmost;
  q ← get_task rightmost;
  if se_vruntime (t_se q) <? se_vruntime (t_se t) then mret tt else
  mod_se curr (set_se_vruntime (u64 (se_vruntime (t_se q) + 1))).

Definition check_preempt_wakeup (cpu : nat) (p : loc) : M unit :=
  r ← get_rq cpu;
  let curr := rq_curr r in
  ct ← get_task curr; t ← get_task p;
  c ← cfs_rq_of curr;
  if rt_prio (t_prio t) then
    update_rq_clock me now cpu;; update_curr c;; resched_task me curr
  else if t_policy t =? SCHED_BATCH then mret tt
  else if negb (sched_feat SCHED_FEAT_WAKEUP_PREEMPT) then mret tt
  else
    let gran := sysctl_sched_wakeup_granularity tn in
    gran ← (if lw_weight (se_load (t_se ct)) =? NICE_0_LOAD then mret gran else
            g ← lift (calc_delta_fair gran (se_load (t_se ct)));
            mod_se curr (set_se_load g.2);; mret g.1);
    when (u64 (se_vruntime (t_se t) + gran) <? se_vruntime (t_se ct)) (resched_task me curr).

Definition pick_next_task_fair (fuel : nat) (cpu : nat) : M ptr :=
  r ← get_rq cpu;
  if cfs_nr_running (rq_cfs r) =? 0 then mret None else
  se ← pick_next_entity fuel cpu;
  se ← lift se;
  mret (Some se).

Definition put_prev_task_fair (fuel : nat) (cpu : nat) (prev : loc) : M unit :=
  c ← cfs_rq_of prev;
  put_prev_entity fuel c prev.

(** ** The iterator of the load balancer *)

Definition __load_balance_iterator (fuel : nat) (cpu : nat) (curr : ptr) : M ptr :=
  match curr with
  | None => mret None
  | Some p =>
      next ← on_nodes (rb_next fuel p);
      mod_cfs cpu (set_cfs_rb_load_balance_curr next);;
      mret (Some p)
  end.

Definition load_balance_start_fair (fuel : nat) (cpu : nat) : M ptr :=
  first ← first_fair cpu; __load_balance_iterator fuel cpu first.

Definition load_balance_next_fair (fuel : nat) (cpu : nat) : M ptr :=
  r ← get_rq cpu; __load_balance_iterator fuel cpu (cfs_rb_load_balance_curr (rq_cfs r)).

(** ** Tick, new tasks, change of class *)

Definition task_tick_fair (cpu : nat) (curr : loc) : M unit :=
  c ← cfs_rq_of curr;
  entity_tick c curr.

Definition task_new_fair (fuel : nat) (cpu : nat) (p : loc) : M unit :=
  c ← cfs_rq_of p;
  r ← get_rq c;
  let curr := cfs_curr (rq_cfs r) in
  update_curr c;;
  place_entity fuel c p true;;
  t ← get_task p;
  (match curr with
   | Some q =>
       qt ← get_task q;
       if sysctl_sched_child_runs_first && bool_decide (me = t_cpu t)
          && (se_vruntime (t_se qt) <? se_vruntime (t_se t)) then
         mod_se q (set_se_vruntime (se_vruntime (t_se t)));;
         mod_se p (set_se_vruntime (se_vruntime (t_se qt)))
       else mret tt
   | None => mret tt
   end);;
  enqueue_task_fair fuel cpu p false;;
  r ← get_rq cpu;
  resched_task me (rq_curr r).

Definition set_curr_task_fair (fuel : nat) (cpu : nat) : M unit :=
  r ← get_rq cpu;
  c ← cfs_rq_of (rq_curr r);
  set_next_entity fuel c (rq_curr r).

End fair.
