(* ===== verification/SchedCore.v ===== *)
(** * The scheduler core ([kernel/core/sched/core.c], [idle.c])

    The operations that the classes share: which class a task belongs to, how
    it enters and leaves a run queue, who runs next, priorities and policies,
    wake-ups, and moving tasks between processors.  A run queue lock is held
    throughout each operation, so each is one step.  [idle_balance] and
    [trigger_load_balance] are arguments of [schedule] and [scheduler_tick]: the
    search for the busiest processor and the tickless balancing they start with
    are not modelled. *)
From stdpp Require Import gmap.
From S2P Require Import Prelude Rbtree FindBit Sched SchedRt SchedFair.

(** The fields of [struct sched_domain] that the code below reads. *)
Record sched_domain := mk_sd {
  sd_span : Z;
  sd_imbalance_pct : Z;
  sd_cache_nice_tries : Z;
  sd_wake_idx : Z;
  sd_flags : Z;
  sd_nr_balance_failed : Z
}.
Definition SD_WAKE_AFFINE : Z := 32.
Definition SD_WAKE_BALANCE : Z := 64.

Definition cpumask_test_cpu (cpu : nat) (mask : Z) : bool := Z.testbit mask (Z.of_nat cpu).

(** ** Weights and priorities *)

Definition zlookup (l : list Z) (i : Z) : option Z := if i <? 0 then None else l !! Z.to_nat i.

Definition load_weight_of (t : task_struct) : option load_weight :=
  if task_has_rt_policy t then
    w ← prio_to_weight !! 0%nat; m ← prio_to_wmult !! 0%nat; Some (mk_lw (w * 2) (Z.shiftr m 1))
  else if t_policy t =? SCHED_IDLE then Some (mk_lw WEIGHT_IDLEPRIO WMULT_IDLEPRIO)
  else
    w ← zlookup prio_to_weight (t_static_prio t - MAX_RT_PRIO);
    m ← zlookup prio_to_wmult (t_static_prio t - MAX_RT_PRIO);
    Some (mk_lw w m).

Definition set_load_weight (p : loc) : M unit :=
  t ← get_task p; lw ← lift (load_weight_of t); mod_se p (set_se_load lw).

Definition __normal_prio (t : task_struct) : Z := t_static_prio t.
Definition normal_prio (t : task_struct) : Z :=
  if task_has_rt_policy t then MAX_RT_PRIO - 1 - t_rt_priority t else __normal_prio t.

(** Sets [normal_prio] and returns the effective priority. *)
Definition effective_prio (p : loc) : M Z :=
  mod_task p (λ t, set_t_normal_prio (normal_prio t) t);;
  t ← get_task p;
  mret (if rt_prio (t_prio t) then t_prio t else t_normal_prio t).

Definition task_prio (t : task_struct) : Z := t_prio t - MAX_RT_PRIO.
Definition task_nice (t : task_struct) : Z := PRIO_TO_NICE (t_static_prio t).

(** ** The idle class ([idle.c]) *)

Definition check_preempt_curr_idle (me cpu : nat) (p : loc) : M unit :=
  r ← get_rq cpu; resched_task me (rq_idle r).
Definition pick_next_task_idle (cpu : nat) : M ptr := r ← get_rq cpu; mret (Some (rq_idle r)).
(** It only prints a warning. *)
Definition dequeue_task_idle (cpu : nat) (p : loc) (sleep : bool) : M unit := mret tt.

Section core.
Context (me : nat) (now : Z) (tn : tunables) (fuel : nat).

(** ** The methods of the classes; a method a class does not have is [NULL] *)

Definition class_enqueue_task (c : sched_class) (cpu : nat) (p : loc) (wakeup : bool) : M unit :=
  match c with
  | RtClass => enqueue_task_rt cpu p wakeup
  | FairClass => enqueue_task_fair tn fuel cpu p wakeup
  | IdleClass => BUG
  end.

Definition class_dequeue_task (c : sched_class) (cpu : nat) (p : loc) (sleep : bool) : M unit :=
  match c with
  | RtClass => dequeue_task_rt cpu p sleep
  | FairClass => dequeue_task_fair fuel cpu p sleep
  | IdleClass => dequeue_task_idle cpu p sleep
  end.

Definition class_yield_task (c : sched_class) (cpu : nat) : M unit :=
  match c with
  | RtClass => yield_task_rt cpu
  | FairClass => yield_task_fair now fuel cpu
  | IdleClass => BUG
  end.

Definition class_check_preempt_curr (c : sched_class) (cpu : nat) (p : loc) : M unit :=
  match c with
  | RtClass => check_preempt_curr_rt me cpu p
  | FairClass => check_preempt_wakeup me now tn cpu p
  | IdleClass => check_preempt_curr_idle me cpu p
  end.

Definition class_pick_next_task (c : sched_class) (cpu : nat) : M ptr :=
  match c with
  | RtClass => pick_next_task_rt cpu
  | FairClass => pick_next_task_fair fuel cpu
  | IdleClass => pick_next_task_idle cpu
  end.

Definition class_put_prev_task (c : sched_class) (cpu : nat) (p : loc) : M unit :=
  match c with
  | RtClass => put_prev_task_rt cpu p
  | FairClass => put_prev_task_fair fuel cpu p
  | IdleClass => mret tt
  end.

Definition class_set_curr_task (c : sched_class) (cpu : nat) : M unit :=
  match c with
  | RtClass => set_curr_task_rt cpu
  | FairClass => set_curr_task_fair fuel cpu
  | IdleClass => mret tt
  end.

Definition class_task_tick (c : sched_class) (cpu : nat) (p : loc) : M unit :=
  match c with
  | RtClass => task_tick_rt cpu p
  | FairClass => task_tick_fair me tn cpu p
  | IdleClass => mret tt
  end.

(** [class->next] *)
Definition class_next (c : sched_class) : option sched_class :=
  match c with RtClass => Some FairClass | FairClass => Some IdleClass | IdleClass => None end.
Definition sched_class_highest : sched_class := RtClass.

Definition check_preempt_curr (cpu : nat) (p : loc) : M unit :=
  r ← get_rq cpu; t ← get_task (rq_curr r);
  class_check_preempt_curr (t_class t) cpu p.

(** ** Entering and leaving a run queue *)

Definition inc_load (cpu : nat) (p : loc) : M unit :=
  t ← get_task p;
  mod_rq cpu (λ r, set_rq_load (update_load_add (rq_load r) (lw_weight (se_load (t_se t)))) r).
Definition dec_load (cpu : nat) (p : loc) : M unit :=
  t ← get_task p;
  mod_rq cpu (λ r, set_rq_load (update_load_sub (rq_load r) (lw_weight (se_load (t_se t)))) r).
Definition inc_nr_running (p : loc) (cpu : nat) : M unit :=
  mod_rq cpu (λ r, set_rq_nr_running (u64 (rq_nr_running r + 1)) r);; inc_load cpu p.
Definition dec_nr_running (p : loc) (cpu : nat) : M unit :=
  mod_rq cpu (λ r, set_rq_nr_running (u64 (rq_nr_running r - 1)) r);; dec_load cpu p.

Definition enqueue_task (cpu : nat) (p : loc) (wakeup : bool) : M unit :=
  t ← get_task p;
  class_enqueue_task (t_class t) cpu p wakeup;;
  mod_se p (set_se_on_rq true).

Definition dequeue_task (cpu : nat) (p : loc) (sleep : bool) : M unit :=
  t ← get_task p;
  class_dequeue_task (t_class t) cpu p sleep;;
  mod_se p (set_se_on_rq false).

Definition activate_task (cpu : nat) (p : loc) (wakeup : bool) : M unit :=
  t ← get_task p;
  when (t_state t =? TASK_UNINTERRUPTIBLE)
    (mod_rq cpu (λ r, set_rq_nr_uninterruptible (u64 (rq_nr_uninterruptible r - 1)) r));;
  enqueue_task cpu p wakeup;;
  inc_nr_running p cpu.

Definition deactivate_task (cpu : nat) (p : loc) (sleep : bool) : M unit :=
  t ← get_task p;
  when (t_state t =? TASK_UNINTERRUPTIBLE)
    (mod_rq cpu (λ r, set_rq_nr_uninterruptible (u64 (rq_nr_uninterruptible r + 1)) r));;
  dequeue_task cpu p sleep;;
  dec_nr_running p cpu.

(** ** The main function *)

(** The [for ( ; ; )] loop from a class on; the idle class always answers. *)
Definition pick_from_idle (cpu : nat) : M loc :=
  p ← class_pick_next_task IdleClass cpu; lift p.
Definition pick_from_fair (cpu : nat) : M loc :=
  p ← class_pick_next_task FairClass cpu;
  match p with Some p => mret p | None => pick_from_idle cpu end.
Definition pick_from_highest (cpu : nat) : M loc :=
  p ← class_pick_next_task sched_class_highest cpu;
  match p with Some p => mret p | None => pick_from_fair cpu end.

Definition pick_next_task (cpu : nat) : M loc :=
  r ← get_rq cpu;
  if rq_nr_running r =? cfs_nr_running (rq_cfs r) then
    p ← class_pick_next_task FairClass cpu;
    match p with Some p => mret p | None => pick_from_highest cpu end
  else pick_from_highest cpu.

(** The state test of [schedule]; [true] when the switch counts as voluntary. *)
Definition schedule_sleep (preempt_active : bool) (prev : loc) : M bool :=
  t ← get_task prev;
  if negb (t_state t =? 0) && negb preempt_active then
    (if negb (Z.land (t_state t) TASK_INTERRUPTIBLE =? 0) && t_sigpending t then
       mod_task prev (set_t_state TASK_RUNNING)
     else deactivate_task me prev true);;
    mret true
  else mret false.

(** One turn of [schedule], up to the context switch. *)
Definition schedule_once (idle_balance : nat → M unit) (preempt_active : bool) : M unit :=
  r ← get_rq me;
  let prev := rq_curr r in
  __update_rq_clock now me;;
  clear_tsk_need_resched prev;;
  voluntary ← schedule_sleep preempt_active prev;
  r ← get_rq me;
  when (rq_nr_running r =? 0) (idle_balance me);;
  t ← get_task prev;
  class_put_prev_task (t_class t) me prev;;
  next ← pick_next_task me;
  if decide (prev = next) then mret tt else
  mod_rq me (λ r, set_rq_curr next (set_rq_nr_switches (u64 (rq_nr_switches r + 1)) r));;
  mod_task prev (λ t, if (voluntary : bool) then set_t_nvcsw (u64 (t_nvcsw t + 1)) t
                      else set_t_nivcsw (u64 (t_nivcsw t + 1)) t).

(** [goto need_resched]: the test is made by the task that now runs, after its
    own call of [context_switch] has returned. *)
Fixpoint schedule (turns : nat) (idle_balance : nat → M unit) (preempt_active : bool) : M unit :=
  match turns with
  | O => BUG
  | S turns =>
      schedule_once idle_balance preempt_active;;
      r ← get_rq me; t ← get_task (rq_curr r);
      if t_need_resched t then schedule turns idle_balance preempt_active else mret tt
  end.

Definition sys_sched_yield (turns : nat) (idle_balance : nat → M unit) : M unit :=
  r ← get_rq me; t ← get_task (rq_curr r);
  class_yield_task (t_class t) me;;
  schedule turns idle_balance false.

Definition yield (turns : nat) (idle_balance : nat → M unit) : M unit :=
  r ← get_rq me;
  mod_task (rq_curr r) (set_t_state TASK_RUNNING);;
  sys_sched_yield turns idle_balance.

(** ** The tick *)

(** The loop of [update_cpu_load] over [cpu_load], from index [i]. *)
Fixpoint update_cpu_load_loop (this_load : Z) (i : Z) (scale : Z) (l : list Z) : list Z :=
  match l with
  | [] => []
  | old_load :: l =>
      let new_load := if old_load <? this_load then u64 (this_load + (scale - 1)) else this_load in
      Z.shiftr (u64 (u64 (old_load * (scale - 1)) + new_load)) i
        :: update_cpu_load_loop this_load (i + 1) (scale + scale) l
  end.

Definition update_cpu_load (cpu : nat) : M unit :=
  mod_rq cpu (λ r,
    set_rq_cpu_load (update_cpu_load_loop (lw_weight (rq_load r)) 0 1 (rq_cpu_load r))
      (set_rq_nr_load_updates (u64 (rq_nr_load_updates r + 1)) r)).

Definition scheduler_tick (trigger_load_balance : nat → M unit) : M unit :=
  r ← get_rq me;
  let curr := rq_curr r in
  let next_tick := u64 (rq_tick_timestamp r + TICK_NSEC) in
  __update_rq_clock now me;;
  mod_rq me (λ r, if rq_clock r <? next_tick then set_rq_clock next_tick r else r);;
  mod_rq me (λ r, set_rq_tick_timestamp (rq_clock r) r);;
  update_cpu_load me;;
  r ← get_rq me;
  (if decide (curr = rq_idle r) then mret tt else
     t ← get_task curr; class_task_tick (t_class t) me curr);;
  mod_rq me (λ r, set_rq_idle_at_tick (bool_decide (rq_curr r = rq_idle r)) r);;
  trigger_load_balance me.

(** The run time of a task with what is not yet banked. *)
Definition task_sched_runtime (p : loc) : M Z :=
  t ← get_task p;
  let cpu := t_cpu t in
  r ← get_rq cpu;
  let ns := se_sum_exec_runtime (t_se t) in
  if decide (rq_curr r = p) then
    update_rq_clock me now cpu;;
    r ← get_rq cpu;
    let delta_exec := u64 (rq_clock r - se_exec_start (t_se t)) in
    mret (if 0 <? s64 delta_exec then u64 (ns + delta_exec) else ns)
  else mret ns.

(** ** Migration *)

Definition set_task_cpu (p : loc) (new_cpu : nat) : M unit :=
  t ← get_task p;
  old_rq ← get_rq (t_cpu t); new_rq ← get_rq new_cpu;
  mod_task p (λ t, set_t_cpu new_cpu (set_t_se
    (set_se_vruntime (u64 (se_vruntime (t_se t) -
       u64 (cfs_min_vruntime (rq_cfs old_rq) - cfs_min_vruntime (rq_cfs new_rq)))) (t_se t)) t)).

Definition task_hot (t : task_struct) (clock : Z) : bool :=
  if decide (t_class t = FairClass) then
    s64 (clock - se_exec_start (t_se t)) <? sysctl_sched_migration_cost
  else false.

Definition pull_task (src : nat) (p : loc) (this_cpu : nat) : M unit :=
  deactivate_task src p false;;
  set_task_cpu p this_cpu;;
  activate_task this_cpu p false;;
  check_preempt_curr this_cpu p.

(** The answer, and the value of [*all_pinned]. *)
Definition can_migrate_task (p : loc) (cpu this_cpu : nat) (sd : sched_domain) (all_pinned : bool) :
    M (bool * bool) :=
  t ← get_task p; r ← get_rq cpu;
  if negb (cpumask_test_cpu this_cpu (t_cpus_allowed t)) then mret (false, all_pinned)
  else if decide (rq_curr r = p) then mret (false, false)
  else if negb (task_hot t (rq_clock r)) || (sd_cache_nice_tries sd <? sd_nr_balance_failed sd) then
    mret (true, false)
  else if task_hot t (rq_clock r) then mret (false, false)
  else mret (true, false).

(** [struct rq_iterator] *)
Record rq_iterator := mk_iter { it_arg : nat; it_start : nat → M ptr; it_next : nat → M ptr }.

Definition sysctl_sched_nr_migrate : Z := 32.

(** The loop at [next:] of [balance_tasks]: the remaining load, [pinned] and
    [*this_best_prio]. *)
Fixpoint balance_loop (n : nat) (this_cpu busiest : nat) (sd : sched_domain) (it : rq_iterator)
    (loops : Z) (pinned : bool) (best : Z) (rem : Z) (p : ptr) : M (Z * bool * Z) :=
  match p with
  | None => mret (rem, pinned, best)
  | Some p =>
      if sysctl_sched_nr_migrate <? loops then mret (rem, pinned, best) else
      match n with
      | O => BUG
      | S n =>
          t ← get_task p;
          let weight := lw_weight (se_load (t_se t)) in
          let skip_for_load := u64 (rem + SCHED_LOAD_SCALE_FUZZ) <? Z.shiftr weight 1 in
          ok ← (if skip_for_load && (best <=? t_prio t) then mret (false, pinned)
                else can_migrate_task p busiest this_cpu sd pinned);
          if negb ok.1 then
            p ← it_next it (it_arg it);
            balance_loop n this_cpu busiest sd it (loops + 1) ok.2 best rem p
          else
            pull_task busiest p this_cpu;;
            t ← get_task p;
            let rem := s64 (rem - lw_weight (se_load (t_se t))) in
            if 0 <? rem then
              let best := if t_prio t <? best then t_prio t else best in
              p ← it_next it (it_arg it);
              balance_loop n this_cpu busiest sd it (loops + 1) ok.2 best rem p
            else mret (rem, ok.2, best)
      end
  end.

(** The load moved, [*all_pinned] and [*this_best_prio]. *)
Definition balance_tasks (this_cpu busiest : nat) (max_load_move : Z) (sd : sched_domain)
    (this_best_prio : Z) (it : rq_iterator) : M (Z * bool * Z) :=
  if max_load_move =? 0 then mret (0, false, this_best_prio) else
  p ← it_start it (it_arg it);
  res ← balance_loop 34 this_cpu busiest sd it 0 true this_best_prio (s64 max_load_move) p;
  let '(rem, pinned, best) := res in
  mret (u64 (max_load_move - rem), pinned, best).

Fixpoint iter_move_one_loop (n : nat) (this_cpu busiest : nat) (sd : sched_domain) (it : rq_iterator)
    (p : ptr) : M bool :=
  match p with
  | None => mret false
  | Some p =>
      match n with
      | O => BUG
      | S n =>
          ok ← can_migrate_task p busiest this_cpu sd false;
          if (ok : bool * bool).1 then pull_task busiest p this_cpu;; mret true
          else p ← it_next it (it_arg it); iter_move_one_loop n this_cpu busiest sd it p
      end
  end.
Definition iter_move_one_task (n : nat) (this_cpu busiest : nat) (sd : sched_domain) (it : rq_iterator) : M bool :=
  p ← it_start it (it_arg it); iter_move_one_loop n this_cpu busiest sd it p.

Definition rt_rq_iterator (busiest : nat) : rq_iterator :=
  mk_iter busiest load_balance_start_rt load_balance_next_rt.
Definition cfs_rq_iterator (busiest : nat) : rq_iterator :=
  mk_iter busiest (load_balance_start_fair fuel) (load_balance_next_fair fuel).

Definition load_balance_rt (this_cpu busiest : nat) (max_load_move : Z) (sd : sched_domain) (best : Z) :
    M (Z * bool * Z) :=
  balance_tasks this_cpu busiest max_load_move sd best (rt_rq_iterator busiest).

Definition load_balance_fair (this_cpu busiest : nat) (max_load_move : Z) (sd : sched_domain) (best : Z) :
    M (Z * bool * Z) :=
  let rem_load_move := s64 max_load_move in
  res ← balance_tasks this_cpu busiest (u64 rem_load_move) sd best (cfs_rq_iterator busiest);
  let '(moved, pinned, best) := res in
  let rem_load_move := s64 (rem_load_move - moved) in
  mret (u64 (max_load_move - rem_load_move), pinned, best).

Definition class_load_balance (c : sched_class) (this_cpu busiest : nat) (max_load_move : Z) (sd : sched_domain)
    (pinned : bool) (best : Z) : M (Z * bool * Z) :=
  match c with
  | RtClass => load_balance_rt this_cpu busiest max_load_move sd best
  | FairClass => load_balance_fair this_cpu busiest max_load_move sd best
  | IdleClass => mret (0, pinned, best)
  end.

(** The [do .. while] of [move_tasks], over the classes that are left. *)
Fixpoint move_tasks_loop (classes : list sched_class) (this_cpu busiest : nat) (max_load_move : Z)
    (sd : sched_domain) (total : Z) (pinned : bool) (best : Z) : M (Z * bool) :=
  match classes with
  | [] => mret (total, pinned)
  | c :: classes =>
      res ← class_load_balance c this_cpu busiest (u64 (max_load_move - total)) sd pinned best;
      let '(moved, pinned, best) := res in
      let total := u64 (total + moved) in
      if total <? max_load_move then move_tasks_loop classes this_cpu busiest max_load_move sd total pinned best
      else mret (total, pinned)
  end.

(** Whether something was moved, and [*all_pinned]. *)
Definition move_tasks (this_cpu busiest : nat) (max_load_move : Z) (sd : sched_domain) (all_pinned : bool) :
    M (bool * bool) :=
  r ← get_rq this_cpu; t ← get_task (rq_curr r);
  res ← move_tasks_loop [RtClass; FairClass; IdleClass] this_cpu busiest max_load_move sd 0 all_pinned (t_prio t);
  mret (0 <? res.1, res.2).

Definition __migrate_task (online : nat → bool) (p : loc) (src_cpu dest_cpu : nat) : M bool :=
  if negb (online dest_cpu) then mret false else
  t ← get_task p;
  if negb (bool_decide (t_cpu t = src_cpu)) then mret false else
  if negb (cpumask_test_cpu dest_cpu (t_cpus_allowed t)) then mret false else
  let on_rq := se_on_rq (t_se t) in
  when on_rq (deactivate_task src_cpu p false);;
  set_task_cpu p dest_cpu;;
  when on_rq (activate_task dest_cpu p false;; check_preempt_curr dest_cpu p);;
  mret true.

(** ** Wake-ups *)

Definition weighted_cpuload (cpu : nat) : M Z := r ← get_rq cpu; mret (lw_weight (rq_load r)).

Definition source_load (cpu : nat) (type : Z) : M Z :=
  r ← get_rq cpu; total ← weighted_cpuload cpu;
  if type =? 0 then mret total else l ← lift (zlookup (rq_cpu_load r) (type - 1)); mret (Z.min l total).

Definition target_load (cpu : nat) (type : Z) : M Z :=
  r ← get_rq cpu; total ← weighted_cpuload cpu;
  if type =? 0 then mret total else l ← lift (zlookup (rq_cpu_load r) (type - 1)); mret (Z.max l total).

Definition cpu_avg_load_per_task (cpu : nat) : M Z :=
  r ← get_rq cpu; total ← weighted_cpuload cpu;
  mret (if rq_nr_running r =? 0 then SCHED_LOAD_SCALE else total / rq_nr_running r).

(** The choice of the processor in [try_to_wake_up], for a task on another
    processor: [true] to wake it here. *)
Definition wake_here (sd : sched_domain) (cpu : nat) (p : loc) (sync : bool) : M bool :=
  let idx := sd_wake_idx sd in
  let imbalance := u32 (100 + u32 (sd_imbalance_pct sd - 100) / 2) in
  load ← source_load cpu idx;
  this_load ← target_load me idx;
  t ← get_task p; r ← get_rq cpu;
  affine ←
    (if negb (Z.land (sd_flags sd) SD_WAKE_AFFINE =? 0) then
       if sync && negb (task_hot t (rq_clock r)) then mret true else
       tl_per_task ← cpu_avg_load_per_task me;
       mine ← get_rq me; curr ← get_task (rq_curr mine);
       let tl := if sync then u64 (this_load - lw_weight (se_load (t_se curr))) else this_load in
       target ← target_load cpu idx;
       mret ((tl <=? load) && (u64 (tl + target) <=? tl_per_task)
             || (u64 (100 * (tl + lw_weight (se_load (t_se t)))) <=? u64 (imbalance * load)))
     else mret false);
  if (affine : bool) then mret true else
  if negb (Z.land (sd_flags sd) SD_WAKE_BALANCE =? 0) then
    mret (u64 (imbalance * this_load) <=? u64 (100 * load))
  else mret false.

(** The processor to wake [p] on. *)
Definition wake_cpu (domains : list sched_domain) (p : loc) (sync : bool) : M nat :=
  t ← get_task p;
  let cpu := t_cpu t in
  if decide (cpu = me) then mret cpu else
  let this_sd := snd <$> list_find (λ sd, Is_true (cpumask_test_cpu cpu (sd_span sd))) domains in
  if negb (cpumask_test_cpu me (t_cpus_allowed t)) then mret cpu else
  match this_sd with
  | Some sd => here ← wake_here sd cpu p sync; mret (if (here : bool) then me else cpu)
  | None => mret cpu
  end.

(** [out_activate] *)
Definition wake_activate (p : loc) : M unit :=
  t ← get_task p;
  let cpu := t_cpu t in
  update_rq_clock me now cpu;;
  activate_task cpu p true;;
  check_preempt_curr cpu p;;
  mod_task p (set_t_state TASK_RUNNING).

Definition try_to_wake_up (domains : list sched_domain) (p : loc) (state : Z) (sync : bool) : M bool :=
  t ← get_task p;
  if Z.land (t_state t) state =? 0 then mret false else
  if se_on_rq (t_se t) then mod_task p (set_t_state TASK_RUNNING);; mret false else
  let cpu := t_cpu t in
  r ← get_rq cpu;
  if decide (rq_curr r = p) then wake_activate p;; mret true else
  new_cpu ← wake_cpu domains p sync;
  if decide (new_cpu = cpu) then wake_activate p;; mret true else
  set_task_cpu p new_cpu;;
  t ← get_task p;
  if Z.land (t_state t) state =? 0 then mret false else
  if se_on_rq (t_se t) then mod_task p (set_t_state TASK_RUNNING);; mret false else
  wake_activate p;; mret true.

Definition wake_up_process (domains : list sched_domain) (p : loc) : M bool :=
  try_to_wake_up domains p
    (Z.lor (Z.lor (Z.lor TASK_STOPPED TASK_TRACED) TASK_INTERRUPTIBLE) TASK_UNINTERRUPTIBLE) false.

(** ** New tasks *)

Definition __sched_fork (p : loc) : M unit :=
  mod_se p (λ se, set_se_on_rq false (set_se_prev_sum_exec_runtime 0
    (set_se_sum_exec_runtime 0 (set_se_exec_start 0 se))));;
  mod_task p (set_t_state TASK_RUNNING).

(** [cpu] is what [sched_balance_self] answers. *)
Definition sched_fork (cpu : nat) (p : loc) : M unit :=
  __sched_fork p;;
  set_load_weight p;;
  set_task_cpu p cpu;;
  t ← get_task p;
  when (negb (rt_prio (t_prio t))) (mod_task p (set_t_class FairClass)).

Definition wake_up_new_task (p : loc) : M unit :=
  t ← get_task p;
  let cpu := t_cpu t in
  BUG_ON (negb (t_state t =? TASK_RUNNING));;
  update_rq_clock me now cpu;;
  prio ← effective_prio p;
  mod_task p (set_t_prio prio);;
  mine ← get_rq me; current ← get_task (rq_curr mine);
  t ← get_task p;
  (if bool_decide (t_class t ≠ FairClass) || negb (se_on_rq (t_se current)) then activate_task cpu p false
   else task_new_fair me tn fuel cpu p;; inc_nr_running p cpu);;
  check_preempt_curr cpu p.

(** ** Priorities and policies *)

Definition set_user_nice (p : loc) (nice : Z) : M unit :=
  t ← get_task p;
  if (task_nice t =? nice) || (nice <? -20) || (19 <? nice) then mret tt else
  let cpu := t_cpu t in
  update_rq_clock me now cpu;;
  if task_has_rt_policy t then mod_task p (set_t_static_prio (NICE_TO_PRIO nice)) else
  let on_rq := se_on_rq (t_se t) in
  when on_rq (dequeue_task cpu p false;; dec_load cpu p);;
  mod_task p (set_t_static_prio (NICE_TO_PRIO nice));;
  set_load_weight p;;
  t ← get_task p;
  let old_prio := t_prio t in
  prio ← effective_prio p;
  mod_task p (set_t_prio prio);;
  let delta := prio - old_prio in
  when on_rq (
    enqueue_task cpu p false;;
    inc_load cpu p;;
    r ← get_rq cpu;
    when ((delta <? 0) || (0 <? delta) && bool_decide (rq_curr r = p)) (resched_task me (rq_curr r))).

Definition class_of_policy (policy : Z) (old : sched_class) : sched_class :=
  if (policy =? SCHED_NORMAL) || (policy =? SCHED_BATCH) || (policy =? SCHED_IDLE) then FairClass
  else if (policy =? SCHED_FIFO) || (policy =? SCHED_RR) then RtClass
  else old.

Definition __setscheduler (p : loc) (policy prio : Z) : M unit :=
  t ← get_task p;
  BUG_ON (se_on_rq (t_se t));;
  mod_task p (λ t, set_t_rt_priority prio (set_t_class (class_of_policy policy (t_class t)) (set_t_policy policy t)));;
  mod_task p (λ t, set_t_normal_prio (normal_prio t) t);;
  mod_task p (λ t, set_t_prio (t_normal_prio t) t);;
  set_load_weight p.

Definition policy_valid (policy : Z) : bool :=
  (policy =? SCHED_FIFO) || (policy =? SCHED_RR) || (policy =? SCHED_NORMAL) || (policy =? SCHED_BATCH)
  || (policy =? SCHED_IDLE).

(** The recheck of the policy under the lock always succeeds in one step. *)
Definition sched_setscheduler (p : loc) (policy prio : Z) : M Z :=
  t ← get_task p;
  let given := 0 <=? policy in
  let policy := if given then policy else t_policy t in
  if given && negb (policy_valid policy) then mret (- EINVAL) else
  if (prio <? 0) || t_mm t && (MAX_USER_RT_PRIO - 1 <? prio) || negb (t_mm t) && (MAX_RT_PRIO - 1 <? prio)
  then mret (- EINVAL) else
  if negb (eqb (rt_policy policy) (negb (prio =? 0))) then mret (- EINVAL) else
  let cpu := t_cpu t in
  update_rq_clock me now cpu;;
  let on_rq := se_on_rq (t_se t) in
  r ← get_rq cpu;
  let running := bool_decide (rq_curr r = p) in
  when on_rq (
    deactivate_task cpu p false;;
    when running (class_put_prev_task (t_class t) cpu p));;
  t ← get_task p;
  let oldprio := t_prio t in
  __setscheduler p policy prio;;
  t ← get_task p;
  when on_rq (
    when running (class_set_curr_task (t_class t) cpu);;
    activate_task cpu p false;;
    t ← get_task p;
    if running then
      r ← get_rq cpu; when (oldprio <? t_prio t) (resched_task me (rq_curr r))
    else check_preempt_curr cpu p);;
  mret 0.

Definition sys_sched_get_priority_max (policy : Z) : Z :=
  if (policy =? SCHED_FIFO) || (policy =? SCHED_RR) then MAX_USER_RT_PRIO - 1
  else if (policy =? SCHED_NORMAL) || (policy =? SCHED_BATCH) || (policy =? SCHED_IDLE) then 0
  else - EINVAL.
Definition sys_sched_get_priority_min (policy : Z) : Z :=
  if (policy =? SCHED_FIFO) || (policy =? SCHED_RR) then 1
  else if (policy =? SCHED_NORMAL) || (policy =? SCHED_BATCH) || (policy =? SCHED_IDLE) then 0
  else - EINVAL.

End core.

(** ** Initialisation *)

Definition init_cfs_rq (root : loc) : cfs_rq :=
  mk_cfs (mk_lw 0 0) 0 (u64 (- 2 ^ 20)) root None None None.

(** [INIT_LIST_HEAD] and [__clear_bit] for each priority, then the delimiter. *)
Fixpoint init_bitmap (j : nat) (bitmap : list Z) : option (list Z) :=
  match j with
  | O => Some bitmap
  | S j => bitmap ← init_bitmap j bitmap; __clear_bit (Z.of_nat j) bitmap
  end.
Definition init_rt_rq : option rt_rq :=
  bitmap ← init_bitmap (Z.to_nat MAX_RT_PRIO) [0; 0];
  bitmap ← __set_bit MAX_RT_PRIO bitmap;
  Some (mk_rt bitmap (replicate (Z.to_nat MAX_RT_PRIO) []) 0 (LHead 0) (LHead 0)).

(** The body of the loop of [sched_init], on the zeroed [runqueues] entry of
    processor [i], followed by [init_idle]. *)
Definition sched_init_rq (i : nat) (root idle : loc) : option rq :=
  rt ← init_rt_rq;
  Some (mk_rq 0 [0; 0; 0; 0; 0] (mk_lw 0 0) 0 0 (init_cfs_rq root) rt 0 idle idle 1 0 0 0 0 0 false i).

(** The fields that [init_idle] sets in the idle task of a processor. *)
Definition init_idle_task (cpu : nat) (clock : Z) (t : task_struct) : task_struct :=
  let t := set_t_se (set_se_on_rq false (set_se_prev_sum_exec_runtime 0
    (set_se_sum_exec_runtime 0 (set_se_exec_start clock (t_se t))))) t in
  set_t_class IdleClass (set_t_cpu cpu (set_t_cpus_allowed (Z.shiftl 1 (Z.of_nat cpu))
    (set_t_normal_prio MAX_PRIO (set_t_prio MAX_PRIO (set_t_state TASK_RUNNING t))))).
