(* ===== verification/SchedLogic.v ===== *)
(** * A program logic for the scheduler

    [runs m Q s]: the command [m] does not crash in [s], and what it returns and
    leaves satisfies [Q].  The specifications of the scheduler's operations are
    stated with it and composed by its rules.  The invariants do not look at
    the bookkeeping of a task (run times, switch counts, time slices, flags and the sleep state):
    [nmap] is the task map without it, so that updates of the bookkeeping are
    equalities. *)
From stdpp Require Import gmap.
From S2P Require Import Prelude Rbtree FindBit Sched.

Definition runs {A} (m : M A) (Q : A → sched → Prop) (s : sched) : Prop :=
  ∃ a s', m s = Some (a, s') ∧ Q a s'.

Section rules.
Context {A : Type}.
Implicit Types (Q : A → sched → Prop) (s : sched).

Lemma runs_mono (m : M A) Q Q' s : runs m Q s → (∀ a s', Q a s' → Q' a s') → runs m Q' s.
Proof. intros (a & s' & Hm & HQ) Himpl. exists a, s'. auto. Qed.

Lemma runs_ret (a : A) Q s : Q a s → runs (mret a) Q s.
Proof. intros. by exists a, s. Qed.

Lemma runs_bind {B} (m : M B) (k : B → M A) Q s : runs m (λ a s', runs (k a) Q s') s → runs (m ≫= k) Q s.
Proof.
  intros (a & s' & Hm & b & s'' & Hk & HQ). exists b, s''. split; [|done].
  unfold mbind, M_bind. by rewrite Hm.
Qed.

Lemma runs_lift (o : option A) (a : A) Q s : o = Some a → Q a s → runs (lift o) Q s.
Proof. intros -> HQ. by exists a, s. Qed.

Lemma runs_on_nodes (c : cmd A) a h Q s :
  c (s_nodes s) = Some (a, h) → Q a (set_s_nodes h s) → runs (on_nodes c) Q s.
Proof. intros Hc HQ. exists a, (set_s_nodes h s). split; [|done]. unfold on_nodes. by rewrite Hc. Qed.

End rules.

Lemma runs_get_task p t Q s : s_tasks s !! p = Some t → Q t s → runs (get_task p) Q s.
Proof. intros Ht HQ. exists t, s. split; [|done]. unfold get_task. by rewrite Ht. Qed.

Lemma runs_get_rq c r Q s : s_rqs s !! c = Some r → Q r s → runs (get_rq c) Q s.
Proof. intros Hr HQ. exists r, s. split; [|done]. unfold get_rq. by rewrite Hr. Qed.

Lemma runs_mod_task p f t Q s :
  s_tasks s !! p = Some t → Q tt (set_s_tasks (<[p := f t]> (s_tasks s)) s) → runs (mod_task p f) Q s.
Proof.
  intros Ht HQ. apply runs_bind. eapply runs_get_task; [exact Ht|]. by eexists _, _.
Qed.

Lemma runs_mod_se p f t Q s :
  s_tasks s !! p = Some t →
  Q tt (set_s_tasks (<[p := set_t_se (f (t_se t)) t]> (s_tasks s)) s) → runs (mod_se p f) Q s.
Proof. intros Ht HQ. unfold mod_se. by eapply runs_mod_task. Qed.

Lemma runs_mod_rq c f r Q s :
  s_rqs s !! c = Some r → Q tt (set_s_rqs (<[c := f r]> (s_rqs s)) s) → runs (mod_rq c f) Q s.
Proof.
  intros Hr HQ. apply runs_bind. eapply runs_get_rq; [exact Hr|]. by eexists _, _.
Qed.

Lemma runs_mod_cfs c f r Q s :
  s_rqs s !! c = Some r →
  Q tt (set_s_rqs (<[c := set_rq_cfs (f (rq_cfs r)) r]> (s_rqs s)) s) → runs (mod_cfs c f) Q s.
Proof. intros Hr HQ. unfold mod_cfs. by eapply runs_mod_rq. Qed.

Lemma runs_mod_rt c f r Q s :
  s_rqs s !! c = Some r →
  Q tt (set_s_rqs (<[c := set_rq_rt (f (rq_rt r)) r]> (s_rqs s)) s) → runs (mod_rt c f) Q s.
Proof. intros Hr HQ. unfold mod_rt. by eapply runs_mod_rq. Qed.

Lemma runs_when (b : bool) m Q s : (b = true → runs m Q s) → (b = false → Q tt s) → runs (when b m) Q s.
Proof. intros Ht Hf. destruct b; [by apply Ht|by apply runs_ret, Hf]. Qed.

Lemma runs_seq_when (b : bool) m (k : M unit) Q s :
  (b = true → runs m (λ _ s', runs k Q s') s) → (b = false → runs k Q s) → runs (when b m;; k) Q s.
Proof. intros Ht Hf. apply runs_bind. by apply runs_when. Qed.

(** What is at an address after the writes so far. *)
Ltac slook :=
  cbn [s_tasks s_nodes s_rqs s_ipis set_s_tasks set_s_nodes set_s_rqs set_s_ipis];
  first [eassumption
        | rewrite lookup_insert_eq; reflexivity
        | rewrite lookup_insert_ne by (done || congruence); slook].

(** Run the next command: a read whose result is known, or a write. *)
Ltac sstep :=
  lazymatch goal with
  | |- runs (mbind _ _) _ _ => apply runs_bind
  | |- runs (mret _) _ _ => apply runs_ret
  | |- runs (get_task _) _ _ => eapply runs_get_task; [slook|]
  | |- runs (get_rq _) _ _ => eapply runs_get_rq; [slook|]
  | |- runs (mod_task _ _) _ _ => eapply runs_mod_task; [slook|]
  | |- runs (mod_se _ _) _ _ => eapply runs_mod_se; [slook|]
  | |- runs (mod_rq _ _) _ _ => eapply runs_mod_rq; [slook|]
  | |- runs (mod_cfs _ _) _ _ => eapply runs_mod_cfs; [slook|]
  | |- runs (mod_rt _ _) _ _ => eapply runs_mod_rt; [slook|]
  | |- runs (lift _) _ _ => eapply runs_lift; [eassumption|]
  | |- runs (let '(_, _) := ?x in _) _ _ => destruct x
  end; cbv beta; cbn [s_tasks s_nodes s_rqs s_ipis set_s_tasks set_s_nodes set_s_rqs set_s_ipis].

(** ** Tasks without their bookkeeping *)

Definition norm_se (se : sched_entity) : sched_entity :=
  mk_se (mk_lw (lw_weight (se_load se)) 0) (se_on_rq se) 0 0 (se_vruntime se) 0.

Definition norm (t : task_struct) : task_struct :=
  set_t_state 0 (set_t_time_slice 0 (set_t_nvcsw 0 (set_t_nivcsw 0
    (set_t_need_resched false (set_t_se (norm_se (t_se t)) t))))).

Lemma norm_fields t t' :
  norm t = norm t' →
  t_static_prio t = t_static_prio t' ∧ t_prio t = t_prio t' ∧ t_class t = t_class t' ∧ t_cpu t = t_cpu t' ∧
  t_policy t = t_policy t' ∧ se_on_rq (t_se t) = se_on_rq (t_se t') ∧
  se_vruntime (t_se t) = se_vruntime (t_se t') ∧ lw_weight (se_load (t_se t)) = lw_weight (se_load (t_se t')).
Proof. by intros [=]. Qed.

Definition nmap (s : sched) : gmap loc task_struct := norm <$> s_tasks s.
Definition flags (s : sched) : gmap loc bool := t_need_resched <$> s_tasks s.

Lemma nmap_lookup s p n : nmap s !! p = Some n → ∃ t, s_tasks s !! p = Some t ∧ norm t = n.
Proof. unfold nmap. rewrite lookup_fmap_Some. naive_solver. Qed.

Lemma lookup_nmap s p t : s_tasks s !! p = Some t → nmap s !! p = Some (norm t).
Proof. intros Ht. unfold nmap. by rewrite lookup_fmap, Ht. Qed.

(** An update that keeps the task up to bookkeeping is not seen. *)
Lemma nmap_quiet s p t t' :
  s_tasks s !! p = Some t → norm t' = norm t → norm <$> <[p := t']> (s_tasks s) = nmap s.
Proof. intros Ht Hn. unfold nmap. rewrite fmap_insert, Hn. apply insert_id. by rewrite lookup_fmap, Ht. Qed.

Lemma flags_quiet s p t t' :
  s_tasks s !! p = Some t → t_need_resched t' = t_need_resched t →
  t_need_resched <$> <[p := t']> (s_tasks s) = flags s.
Proof. intros Ht Hn. unfold flags. rewrite fmap_insert, Hn. apply insert_id. by rewrite lookup_fmap, Ht. Qed.

(** Only the bookkeeping may differ. *)
Definition quiet (s s' : sched) : Prop :=
  nmap s' = nmap s ∧ flags s' = flags s ∧ s_nodes s' = s_nodes s ∧ s_rqs s' = s_rqs s ∧ s_ipis s' = s_ipis s.

Lemma quiet_refl s : quiet s s.
Proof. by split_and!. Qed.

Lemma quiet_trans s1 s2 s3 : quiet s1 s2 → quiet s2 s3 → quiet s1 s3.
Proof. intros (? & ? & ? & ? & ?) (? & ? & ? & ? & ?). split_and!; congruence. Qed.

Lemma quiet_lookup s s' p t :
  quiet s s' → s_tasks s !! p = Some t → ∃ t', s_tasks s' !! p = Some t' ∧ norm t' = norm t.
Proof.
  intros (Hn & _) Ht. apply lookup_nmap in Ht. rewrite <-Hn in Ht. by apply nmap_lookup.
Qed.

Lemma quiet_task s p t t' :
  s_tasks s !! p = Some t → norm t' = norm t → t_need_resched t' = t_need_resched t →
  quiet s (set_s_tasks (<[p := t']> (s_tasks s)) s).
Proof.
  intros Ht Hn Hf. split_and!; try done; unfold nmap, flags; cbn.
  - by apply (nmap_quiet s p t).
  - by apply (flags_quiet s p t).
Qed.

(** Writing the bookkeeping of an entity. *)
Lemma runs_mod_se_quiet p f t Q s :
  s_tasks s !! p = Some t → norm_se (f (t_se t)) = norm_se (t_se t) →
  (∀ s', quiet s s' → Q tt s') → runs (mod_se p f) Q s.
Proof.
  intros Ht Hf HQ. eapply runs_mod_se; [exact Ht|]. apply HQ. eapply quiet_task; [exact Ht| |done].
  unfold norm. cbn. by rewrite Hf.
Qed.
