(* ===== verification/SchedRtFacts.v ===== *)
(** * Facts of the real-time class

    The invariant of its queues and bitmap, and what each operation does to
    them. *)
From stdpp Require Import gmap sorting.
From S2P Require Import Prelude Rbtree FindBit FindBitProps Sched SchedRt SchedLogic.

(** ** Queues *)

Lemma concat_split {A} (q : list (list A)) i l :
  q !! i = Some l → concat q = concat (take i q) ++ l ++ concat (drop (S i) q).
Proof.
  intros Hi. rewrite <-(take_drop_middle q i l Hi) at 1. by rewrite concat_app.
Qed.

Lemma concat_insert {A} (q : list (list A)) i l l' :
  q !! i = Some l → concat (<[i := l']> q) = concat (take i q) ++ l' ++ concat (drop (S i) q).
Proof.
  intros Hi. pose proof (lookup_lt_Some _ _ _ Hi). rewrite insert_take_drop by done. by rewrite concat_app.
Qed.

Lemma elem_of_concat_lookup {A} (q : list (list A)) x :
  x ∈ concat q ↔ ∃ i l, q !! i = Some l ∧ x ∈ l.
Proof.
  rewrite list_elem_of_In, in_concat. split.
  - intros (l & Hl & Hx). apply list_elem_of_In, list_elem_of_lookup_1 in Hl as [i Hi].
    exists i, l. by rewrite list_elem_of_In.
  - intros (i & l & Hi & Hx). exists l. rewrite <-!list_elem_of_In. split; [|done]. by eapply list_elem_of_lookup_2.
Qed.

(** A task is in one queue only. *)
Lemma nodup_concat_unique {A} (q : list (list A)) i j li lj x :
  NoDup (concat q) → q !! i = Some li → q !! j = Some lj → x ∈ li → x ∈ lj → i = j.
Proof.
  intros Hnd Hi Hj Hxi Hxj. revert i j Hi Hj. induction q as [|l q IH]; intros i j Hi Hj; [done|].
  simpl in Hnd. apply NoDup_app in Hnd as (Hl & Hdisj & Hrest).
  assert (Hin : ∀ k lk, q !! k = Some lk → x ∈ lk → x ∈ concat q).
  { intros k lk Hk Hxk. apply elem_of_concat_lookup. eauto. }
  destruct i as [|i], j as [|j]; simpl in *; simplify_eq; [done| | |].
  - exfalso. by eapply Hdisj, Hin.
  - exfalso. by eapply Hdisj, Hin.
  - f_equal. by apply IH.
Qed.

Lemma queue_of_run queue p i l :
  NoDup (concat queue) → queue !! i = Some l → p ∈ l → queue_of queue p = Some i.
Proof.
  intros Hnd Hi Hp. unfold queue_of.
  destruct (list_find_elem_of (λ l, p ∈ l) queue l) as [[j lj] Hj].
  { by eapply list_elem_of_lookup_2. } { done. }
  rewrite Hj. simpl. f_equal. apply list_find_Some in Hj as (Hj & Hpj & _).
  by eapply nodup_concat_unique.
Qed.

Lemma index_of_run l1 p l2 : p ∉ l1 → index_of (l1 ++ p :: l2) p = Some (length l1).
Proof.
  intros Hp. unfold index_of. rewrite list_find_app_r; [|apply list_find_None, Forall_forall; by intros x Hx ->].
  simpl. by rewrite decide_True by done.
Qed.

Lemma rt_list_del_run queue p i l :
  NoDup (concat queue) → queue !! i = Some l → p ∈ l → list_del p queue = Some (<[i := filter (.≠ p) l]> queue).
Proof. intros Hnd Hi Hp. unfold list_del. rewrite (queue_of_run _ _ _ _ Hnd Hi Hp). cbn. by rewrite Hi. Qed.

Lemma filter_ne_notin (l : list loc) p : p ∉ l → filter (.≠ p) l = l.
Proof.
  induction l as [|x l IH]; intros Hp; [done|]. rewrite filter_cons. apply not_elem_of_cons in Hp as [Hne Hp].
  rewrite decide_True by congruence. by rewrite IH.
Qed.

Lemma filter_ne_split (l1 l2 : list loc) p : NoDup (l1 ++ p :: l2) → filter (.≠ p) (l1 ++ p :: l2) = l1 ++ l2.
Proof.
  intros (_ & H1 & H2)%NoDup_app. inversion_clear H2 as [|?? Hp _].
  rewrite filter_app, filter_cons, decide_False by (intros Hn; by apply Hn).
  rewrite !filter_ne_notin; [done|done|]. intros Hp1. apply (H1 _ Hp1). by left.
Qed.

(** ** The invariant *)

(** The task [p] is of class [k], on processor [c]. *)
Definition placed (N : gmap loc task_struct) (c : nat) (k : sched_class) (p : loc) (t : task_struct) : Prop :=
  N !! p = Some t ∧ t_class t = k ∧ t_cpu t = c.

Record rt_ok (N : gmap loc task_struct) (c : nat) (rt : rt_rq) : Prop := mk_rt_ok {
  rt_words : words_ok (rt_bitmap rt);
  rt_words_len : length (rt_bitmap rt) = 2%nat;
  rt_queues : length (rt_queue rt) = Z.to_nat MAX_RT_PRIO;
  rt_delimiter : bitmap_bit (rt_bitmap rt) MAX_RT_PRIO = true;
  (** a bit is set iff its queue is not empty *)
  rt_bits : ∀ i l, rt_queue rt !! i = Some l → bitmap_bit (rt_bitmap rt) (Z.of_nat i) = bool_decide (l ≠ []);
  rt_nodup : NoDup (concat (rt_queue rt));
  (** a task is in the queue of its priority *)
  rt_tasks : ∀ i l p, rt_queue rt !! i = Some l → p ∈ l → ∃ t, placed N c RtClass p t ∧ t_prio t = Z.of_nat i
}.

Definition rt_members (rt : rt_rq) : list loc := concat (rt_queue rt).

(** Only the tasks of the processor matter. *)
Definition same_on (c : nat) (N N' : gmap loc task_struct) : Prop :=
  ∀ p t, t_cpu t = c → N !! p = Some t ↔ N' !! p = Some t.

Lemma rt_ok_frame N N' c rt : same_on c N N' → rt_ok N c rt → rt_ok N' c rt.
Proof.
  intros HN []. constructor; try done. intros i l p Hi Hp.
  destruct (rt_tasks0 i l p Hi Hp) as (t & (Ht & Hk & Hc) & Hprio). exists t. split; [|done].
  split_and!; [by apply HN|done|done].
Qed.

(** A change of tasks that are in no queue. *)
Lemma rt_ok_tasks N N' c rt :
  (∀ p t, p ∈ rt_members rt → N !! p = Some t → N' !! p = Some t) → rt_ok N c rt → rt_ok N' c rt.
Proof.
  intros HN []. constructor; try done. intros i l p Hi Hp.
  destruct (rt_tasks0 i l p Hi Hp) as (t & (Ht & Hk & Hc) & Hprio). exists t. split; [|done].
  split_and!; [|done|done]. apply HN; [|done]. apply elem_of_concat_lookup. eauto.
Qed.

Lemma rt_member_queue N c rt p :
  rt_ok N c rt → p ∈ rt_members rt →
  ∃ t i l, placed N c RtClass p t ∧ t_prio t = Z.of_nat i ∧ (i < 100)%nat ∧ rt_queue rt !! i = Some l ∧ p ∈ l.
Proof.
  intros Hok Hp. apply elem_of_concat_lookup in Hp as (i & l & Hi & Hp).
  destruct (rt_tasks _ _ _ Hok i l p Hi Hp) as (t & Ht & Hprio). exists t, i, l.
  pose proof (lookup_lt_Some _ _ _ Hi). rewrite (rt_queues _ _ _ Hok) in *.
  split_and!; [done|done| |done|done]. change (Z.to_nat MAX_RT_PRIO) with 100%nat in *. lia.
Qed.

Lemma prio_index_run (i : nat) : prio_index (Z.of_nat i) = Some i.
Proof. unfold prio_index. rewrite (proj2 (Z.ltb_ge _ _)) by lia. by rewrite Nat2Z.id. Qed.

Lemma rt_queue_lookup N c rt i : rt_ok N c rt → (i < 100)%nat → ∃ l, rt_queue rt !! i = Some l.
Proof. intros Hok Hi. apply lookup_lt_is_Some_2. by rewrite (rt_queues _ _ _ Hok). Qed.

(** Replace a queue and its bit. *)
Lemma rt_ok_insert N c rt i l l' bitmap' :
  rt_ok N c rt → rt_queue rt !! i = Some l →
  words_ok bitmap' → length bitmap' = 2%nat →
  (∀ k, 0 ≤ k → bitmap_bit bitmap' k = if decide (k = Z.of_nat i) then bool_decide (l' ≠ []) else bitmap_bit (rt_bitmap rt) k) →
  NoDup l' → (∀ p, p ∈ l' → p ∈ l ∨ p ∉ rt_members rt ∧ ∃ t, placed N c RtClass p t ∧ t_prio t = Z.of_nat i) →
  rt_ok N c (set_rt_bitmap bitmap' (set_rt_queue (<[i := l']> (rt_queue rt)) rt)).
Proof.
  intros Hok Hi Hw Hl Hbits Hnd Hl'. pose proof Hok as []. pose proof (lookup_lt_Some _ _ _ Hi) as Hlt.
  assert (Hi' : (i < 100)%nat) by (by rewrite rt_queues0 in Hlt).
  constructor; cbn; try done.
  - by rewrite length_insert.
  - rewrite Hbits by done. rewrite decide_False; [done|]. unfold MAX_RT_PRIO, MAX_USER_RT_PRIO. lia.
  - intros j lj Hj. rewrite Hbits by lia. apply list_lookup_insert_Some in Hj as [(-> & -> & _)|[Hne Hj]].
    + by rewrite decide_True.
    + rewrite decide_False by lia. by apply rt_bits0.
  - rewrite (concat_insert _ _ _ _ Hi). unfold rt_members in *. rewrite (concat_split _ _ _ Hi) in rt_nodup0, Hl'.
    apply NoDup_app in rt_nodup0 as (Ha & Hab & Hb). apply NoDup_app in Hb as (_ & Hbc & Hc).
    apply NoDup_app. split_and!; [done| |apply NoDup_app; split_and!; [done| |done]].
    + intros x Hx [Hx'|Hx']%elem_of_app; [|by apply (Hab x Hx), elem_of_app; right].
      destruct (Hl' x Hx') as [Hxl|[Hxn _]]; [by apply (Hab x Hx), elem_of_app; left|].
      apply Hxn, elem_of_app. by left.
    + intros x Hx Hx'. destruct (Hl' x Hx) as [Hxl|[Hxn _]]; [by apply (Hbc x)|].
      apply Hxn. rewrite !elem_of_app. auto.
  - intros j lj p Hj Hp. apply list_lookup_insert_Some in Hj as [(-> & -> & _)|[Hne Hj]]; [|by eapply rt_tasks0].
    destruct (Hl' p Hp) as [Hpl|[_ Hpt]]; [by eapply rt_tasks0|done].
Qed.

Lemma members_insert rt i l l' bitmap' :
  rt_queue rt !! i = Some l → Permutation (l ++ rt_members (set_rt_bitmap bitmap' (set_rt_queue (<[i := l']> (rt_queue rt)) rt)))
                                (l' ++ rt_members rt).
Proof.
  intros Hi. unfold rt_members. cbn. rewrite (concat_insert _ _ _ _ Hi), (concat_split _ _ _ Hi).
  rewrite !app_assoc, (Permutation_app_comm l), (Permutation_app_comm l').
  rewrite <-!app_assoc. apply Permutation_app_head. rewrite !app_assoc. apply Permutation_app_tail, Permutation_app_comm.
Qed.

(** ** Enqueue and dequeue *)

(** Where [rt] stands for the queues of the run queue [r] of processor [c]. *)
Definition with_rt (c : nat) (r : rq) (rt : rt_rq) (s : sched) : sched :=
  set_s_rqs (<[c := set_rq_rt rt r]> (s_rqs s)) s.

Lemma enqueue_rt_pure N c rt p t :
  rt_ok N c rt → placed N c RtClass p t → 0 ≤ t_prio t < MAX_RT_PRIO → p ∉ rt_members rt →
  ∃ i l bitmap', prio_index (t_prio t) = Some i ∧ t_prio t = Z.of_nat i ∧ rt_queue rt !! i = Some l ∧
    list_add_tail p i (rt_queue rt) = Some (<[i := l ++ [p]]> (rt_queue rt)) ∧
    __set_bit (t_prio t) (rt_bitmap rt) = Some bitmap' ∧
    rt_ok N c (set_rt_bitmap bitmap' (set_rt_queue (<[i := l ++ [p]]> (rt_queue rt)) rt)).
Proof.
  intros Hok Ht Hprio Hp. pose proof Hok as [].
  set (i := Z.to_nat (t_prio t)). assert (Hi : t_prio t = Z.of_nat i) by (unfold i; lia).
  destruct (rt_queue_lookup _ _ _ i Hok) as [l Hl]; [unfold MAX_RT_PRIO, MAX_USER_RT_PRIO in *; lia|].
  destruct (__set_bit_run (rt_bitmap rt) (t_prio t)) as (bitmap' & Hset & Hw' & Hlen' & Hbits').
  { done. } { rewrite rt_words_len0. unfold MAX_RT_PRIO, MAX_USER_RT_PRIO in *. lia. }
  exists i, l, bitmap'. split_and!; [rewrite Hi; apply prio_index_run|done|done| |done|].
  - unfold list_add_tail. by rewrite Hl.
  - eapply rt_ok_insert; [done|done|done|congruence| | |].
    + intros k Hk. rewrite Hbits' by done. rewrite Hi. case_decide as Hki.
      * subst k. rewrite bool_decide_true by done. simpl. symmetry. apply bool_decide_eq_true. by destruct l.
      * by rewrite bool_decide_false.
    + apply NoDup_app. assert (Hpl : p ∉ l) by (intros Hpl; apply Hp, elem_of_concat_lookup; eauto).
      split_and!; [|set_solver|apply NoDup_singleton].
      rewrite (concat_split _ _ _ Hl) in rt_nodup0. apply NoDup_app in rt_nodup0 as (_ & _ & Hb).
      by apply NoDup_app in Hb as (Hb & _).
    + intros q [Hq| ->%list_elem_of_singleton]%elem_of_app; [by left|right; eauto].
Qed.

Lemma queue_nodup N c rt i l : rt_ok N c rt → rt_queue rt !! i = Some l → NoDup l.
Proof.
  intros [] Hl. rewrite (concat_split _ _ _ Hl) in rt_nodup0. apply NoDup_app in rt_nodup0 as (_ & _ & Hb).
  by apply NoDup_app in Hb as (Hb & _).
Qed.

Lemma dequeue_rt_pure N c rt p t i l :
  rt_ok N c rt → t_prio t = Z.of_nat i → (i < 100)%nat → rt_queue rt !! i = Some l → p ∈ l →
  let l' := filter (.≠ p) l in
  ∃ bitmap', list_del p (rt_queue rt) = Some (<[i := l']> (rt_queue rt)) ∧
    list_empty i (<[i := l']> (rt_queue rt)) = Some (bool_decide (l' = [])) ∧
    (if bool_decide (l' = []) then __clear_bit (t_prio t) (rt_bitmap rt) else Some (rt_bitmap rt)) = Some bitmap' ∧
    rt_ok N c (set_rt_bitmap bitmap' (set_rt_queue (<[i := l']> (rt_queue rt)) rt)).
Proof.
  intros Hok Hprio Hi Hl Hp l'. pose proof Hok as []. pose proof (queue_nodup _ _ _ _ _ Hok Hl) as Hnd.
  assert (Hdel : list_del p (rt_queue rt) = Some (<[i := l']> (rt_queue rt))) by by apply rt_list_del_run.
  assert (Hempty : list_empty i (<[i := l']> (rt_queue rt)) = Some (bool_decide (l' = []))).
  { unfold list_empty. by rewrite list_lookup_insert_eq by (by eapply lookup_lt_Some). }
  assert (Hsub : ∀ q, q ∈ l' → q ∈ l) by (intros q [_ Hq]%list_elem_of_filter; done).
  assert (Hbit : bitmap_bit (rt_bitmap rt) (Z.of_nat i) = true).
  { rewrite (rt_bits0 i l Hl). apply bool_decide_eq_true. by intros ->; set_solver. }
  case_bool_decide as He.
  - destruct (__clear_bit_run (rt_bitmap rt) (t_prio t)) as (bitmap' & Hclr & Hw' & Hlen' & Hbits').
    { done. } { rewrite rt_words_len0. lia. }
    exists bitmap'. split_and!; [done|done|done|]. eapply rt_ok_insert; [done|done|done|congruence| |by apply NoDup_filter|auto].
    intros k Hk. rewrite Hbits' by done. rewrite Hprio. case_decide as Hki.
    + subst k. rewrite bool_decide_true by done. simpl. symmetry. apply bool_decide_eq_false. tauto.
    + by rewrite bool_decide_false.
  - exists (rt_bitmap rt). split_and!; [done|done|done|].
    eapply rt_ok_insert; [done|done|done|done| |by apply NoDup_filter|auto].
    intros k Hk. case_decide as Hki; [|done]. subst k. rewrite Hbit. symmetry. by apply bool_decide_eq_true.
Qed.

(** ** The operations *)

Lemma placed_task s c k p t :
  s_tasks s !! p = Some t → t_class t = k → t_cpu t = c → placed (nmap s) c k p (norm t).
Proof. intros Ht Hk Hc. split_and!; [by apply lookup_nmap|done|done]. Qed.

Lemma placed_lookup s c k p n :
  placed (nmap s) c k p n → ∃ t, s_tasks s !! p = Some t ∧ norm t = n ∧ t_class t = k ∧ t_cpu t = c.
Proof.
  intros (Hn & Hk & Hc). apply nmap_lookup in Hn as (t & Ht & <-). by exists t.
Qed.

(** Run periods start where they did, or now. *)
Definition starts (c : nat) (s s' : sched) : Prop :=
  ∀ p t', s_tasks s' !! p = Some t' → ∃ t, s_tasks s !! p = Some t ∧
    (se_exec_start (t_se t') = se_exec_start (t_se t) ∨
     ∃ r, s_rqs s !! c = Some r ∧ se_exec_start (t_se t') = rq_clock r).

Lemma starts_refl c s : starts c s s.
Proof. intros p t Ht. eauto. Qed.

Lemma update_curr_rt_runs s c r :
  s_rqs s !! c = Some r → is_Some (s_tasks s !! rq_curr r) →
  runs (update_curr_rt c) (λ _ s', quiet s s' ∧ starts c s s') s.
Proof.
  intros Hr [t Ht]. unfold update_curr_rt. do 4 sstep.
  destruct (negb (task_has_rt_policy t)); [sstep; split; [apply quiet_refl|apply starts_refl]|].
  eapply runs_mod_se; [exact Ht|]. split; [by apply (quiet_task s (rq_curr r) t)|].
  intros p t' Hp. cbn in Hp. destruct (decide (p = rq_curr r)) as [->|Hne].
  - rewrite lookup_insert_eq in Hp. injection Hp as <-. eauto 10.
  - rewrite lookup_insert_ne in Hp by done. eauto.
Qed.

Lemma enqueue_task_rt_runs s c r p t w :
  s_rqs s !! c = Some r → rt_ok (nmap s) c (rq_rt r) →
  s_tasks s !! p = Some t → t_class t = RtClass → t_cpu t = c → 0 ≤ t_prio t < MAX_RT_PRIO →
  p ∉ rt_members (rq_rt r) →
  runs (enqueue_task_rt c p w) (λ _ s', ∃ i l rt', t_prio t = Z.of_nat i ∧ rt_queue (rq_rt r) !! i = Some l ∧
    rt_queue rt' = <[i := l ++ [p]]> (rt_queue (rq_rt r)) ∧ rt_ok (nmap s) c rt' ∧ s' = with_rt c r rt' s) s.
Proof.
  intros Hr Hok Ht Hk Hc Hprio Hp. unfold enqueue_task_rt. do 4 sstep.
  destruct (enqueue_rt_pure _ _ _ _ _ Hok (placed_task _ _ _ _ _ Ht Hk Hc) Hprio Hp)
    as (i & l & bm & Hidx & Hi & Hl & Hadd & Hset & Hok').
  cbn [norm t_prio set_t_time_slice set_t_nvcsw set_t_nivcsw set_t_need_resched set_t_se] in Hidx, Hset, Hi.
  do 6 sstep. eapply runs_mod_rt; [exact Hr|].
  exists i, l. eexists. split_and!; [done|done| |exact Hok'|done]. done.
Qed.

Lemma dequeue_task_rt_runs s c r p t w :
  s_rqs s !! c = Some r → rt_ok (nmap s) c (rq_rt r) → is_Some (s_tasks s !! rq_curr r) →
  s_tasks s !! p = Some t → p ∈ rt_members (rq_rt r) →
  runs (dequeue_task_rt c p w) (λ _ s', ∃ i l rt' s1, t_prio t = Z.of_nat i ∧ rt_queue (rq_rt r) !! i = Some l ∧ p ∈ l ∧
    rt' = set_rt_bitmap (rt_bitmap rt') (set_rt_queue (<[i := filter (.≠ p) l]> (rt_queue (rq_rt r))) (rq_rt r)) ∧
    rt_ok (nmap s) c rt' ∧ quiet s s1 ∧ starts c s s1 ∧ s' = with_rt c r rt' s1) s.
Proof.
  intros Hr Hok Hcurr Ht Hp. unfold dequeue_task_rt. sstep. eapply runs_mono; [by eapply update_curr_rt_runs|].
  intros [] s1 [Hq Hst]. pose proof Hq as (Hn & _ & _ & Hrqs & _).
  destruct (rt_member_queue _ _ _ _ Hok Hp) as (n & i & l & (Hnp & _ & _) & Hi & Hi100 & Hl & Hpl).
  destruct (quiet_lookup _ _ _ _ Hq Ht) as (t1 & Ht1 & Heq).
  rewrite (lookup_nmap _ _ _ Ht) in Hnp. injection Hnp as <-. change (t_prio (norm t)) with (t_prio t) in Hi.
  destruct (norm_fields _ _ Heq) as (_ & Hi1 & _). rewrite Hi in Hi1.
  assert (Hr1 : s_rqs s1 !! c = Some r) by by rewrite Hrqs.
  destruct (dequeue_rt_pure _ _ _ p t1 i l Hok Hi1 Hi100 Hl Hpl) as (bm & Hdel & Hemp & Hclr & Hok').
  assert (Hidx : prio_index (t_prio t1) = Some i) by (rewrite Hi1; apply prio_index_run).
  do 12 sstep. apply runs_when; intros He; rewrite He in Hclr.
  - do 3 sstep. exists i, l, (set_rt_bitmap bm (set_rt_queue (<[i := filter (.≠ p) l]> (rt_queue (rq_rt r))) (rq_rt r))), s1.
    split_and!; try done. unfold with_rt, set_s_rqs. cbn. by rewrite insert_insert_eq.
  - injection Hclr as <-. exists i, l, (set_rt_queue (<[i := filter (.≠ p) l]> (rt_queue (rq_rt r))) (rq_rt r)), s1.
    by split_and!.
Qed.

(** ** Requeue, choice and tick *)

Lemma requeue_pure N c rt p t i l :
  rt_ok N c rt → t_prio t = Z.of_nat i → (i < 100)%nat → rt_queue rt !! i = Some l → p ∈ l →
  let q' := <[i := filter (.≠ p) l ++ [p]]> (rt_queue rt) in
  list_move_tail p i (rt_queue rt) = Some q' ∧ rt_ok N c (set_rt_queue q' rt).
Proof.
  intros Hok Hprio Hi Hl Hp q'. pose proof Hok as []. pose proof (queue_nodup _ _ _ _ _ Hok Hl) as Hnd.
  split.
  - unfold list_move_tail. rewrite (rt_list_del_run _ _ _ _ rt_nodup0 Hl Hp). cbn. unfold list_add_tail.
    rewrite list_lookup_insert_eq by (by eapply lookup_lt_Some). cbn. by rewrite list_insert_insert_eq.
  - assert (Heq : set_rt_queue q' rt = set_rt_bitmap (rt_bitmap rt) (set_rt_queue q' rt)) by by destruct rt.
    rewrite Heq. eapply rt_ok_insert; [done|done|done|done| | |].
    + intros k Hk. case_decide as Hki; [|done]. subst k. rewrite (rt_bits0 i l Hl).
      rewrite !bool_decide_true; [done|by destruct (filter _ _)|]. by intros ->; set_solver.
    + apply NoDup_app. split_and!; [by apply NoDup_filter| |apply NoDup_singleton].
      intros x [Hx _]%list_elem_of_filter ->%list_elem_of_singleton. done.
    + intros x [[_ Hx]%list_elem_of_filter| ->%list_elem_of_singleton]%elem_of_app; by left.
Qed.

Lemma requeue_task_rt_runs s c r p t :
  s_rqs s !! c = Some r → rt_ok (nmap s) c (rq_rt r) → s_tasks s !! p = Some t → p ∈ rt_members (rq_rt r) →
  runs (requeue_task_rt c p) (λ _ s', ∃ i l, t_prio t = Z.of_nat i ∧ rt_queue (rq_rt r) !! i = Some l ∧ p ∈ l ∧
    let rt' := set_rt_queue (<[i := filter (.≠ p) l ++ [p]]> (rt_queue (rq_rt r))) (rq_rt r) in
    rt_ok (nmap s) c rt' ∧ s' = with_rt c r rt' s) s.
Proof.
  intros Hr Hok Ht Hp. unfold requeue_task_rt.
  destruct (rt_member_queue _ _ _ _ Hok Hp) as (n & i & l & (Hnp & _ & _) & Hi & Hi100 & Hl & Hpl).
  rewrite (lookup_nmap _ _ _ Ht) in Hnp. injection Hnp as <-. change (t_prio (norm t)) with (t_prio t) in Hi.
  destruct (requeue_pure _ _ _ p t i l Hok Hi Hi100 Hl Hpl) as [Hmv Hok'].
  assert (Hidx : prio_index (t_prio t) = Some i) by (rewrite Hi; apply prio_index_run).
  do 9 sstep. by exists i, l.
Qed.

(** The first task of the first queue that is not empty. *)
Lemma head_concat {A} (q : list (list A)) i l x l' :
  q !! i = Some l → l = x :: l' → (∀ j, (j < i)%nat → q !! j = Some []) → head (concat q) = Some x.
Proof.
  intros Hi -> Hlow. revert i Hi Hlow. induction q as [|y q IH]; intros i Hi Hlow; [done|].
  destruct i as [|i]; simpl in *; [by simplify_eq|].
  specialize (Hlow O ltac:(lia)) as Hy. simpl in Hy. simplify_eq. apply (IH i); [done|].
  intros j Hj. apply (Hlow (S j)). lia.
Qed.

Lemma concat_nil_all {A} (q : list (list A)) : (∀ i l, q !! i = Some l → l = []) → concat q = [].
Proof.
  induction q as [|y q IH]; intros H; [done|]. simpl. rewrite (H O y eq_refl). apply IH.
  intros i l Hi. by apply (H (S i)).
Qed.

(** [sched_find_first_bit] finds the first queue that is not empty. *)
Lemma rt_first_bit N c rt :
  rt_ok N c rt →
  ∃ idx, sched_find_first_bit (rt_bitmap rt) = Some idx ∧ 0 ≤ idx ≤ MAX_RT_PRIO ∧
    (∀ i l, rt_queue rt !! i = Some l → Z.of_nat i < idx → l = []) ∧
    (idx < MAX_RT_PRIO → ∃ x l, rt_queue rt !! Z.to_nat idx = Some (x :: l)).
Proof.
  intros Hok. pose proof Hok as []. eexists. split.
  { eapply (sched_find_first_bit_run _ MAX_RT_PRIO); [done|done|unfold MAX_RT_PRIO, MAX_USER_RT_PRIO; lia|done]. }
  destruct (first_set_is (bitmap_bit (rt_bitmap rt)) 0 128) as [Hr Hlow].
  set (idx := first_set _ 0 128) in *. change MAX_RT_PRIO with 100 in *.
  assert (Hle : 0 ≤ idx ≤ 100).
  { split; [destruct Hr; lia|]. apply Z.nlt_ge. intros Hlt. rewrite Hlow in rt_delimiter0 by lia. done. }
  split; [done|]. split.
  - intros i l Hl Hi. specialize (rt_bits0 i l Hl). rewrite Hlow in rt_bits0 by lia. symmetry in rt_bits0.
    apply bool_decide_eq_false, dec_stable in rt_bits0. done.
  - intros Hlt. destruct Hr as [[Hidx Hbit]|]; [|lia].
    destruct (rt_queue_lookup _ _ _ (Z.to_nat idx) Hok ltac:(lia)) as [l Hl].
    specialize (rt_bits0 _ l Hl). rewrite Z2Nat.id, Hbit in rt_bits0 by lia. symmetry in rt_bits0.
    apply bool_decide_eq_true in rt_bits0. destruct l as [|x l]; [done|]. eauto.
Qed.

Lemma rt_first_member N c rt idx :
  rt_ok N c rt → (∀ i l, rt_queue rt !! i = Some l → Z.of_nat i < idx → l = []) → 0 ≤ idx →
  (MAX_RT_PRIO ≤ idx → rt_members rt = []) ∧
  (∀ x l, rt_queue rt !! Z.to_nat idx = Some (x :: l) → head (rt_members rt) = Some x).
Proof.
  intros Hok Hlow Hidx. pose proof Hok as []. split.
  - intros Hge. apply concat_nil_all. intros i l Hl. apply (Hlow i l Hl).
    pose proof (lookup_lt_Some _ _ _ Hl). change MAX_RT_PRIO with 100 in *. lia.
  - intros x l Hl. eapply head_concat; [done..|]. intros j Hj. pose proof (lookup_lt_Some _ _ _ Hl).
    destruct (lookup_lt_is_Some_2 (rt_queue rt) j ltac:(lia)) as [lj Hlj]. rewrite Hlj. f_equal.
    apply (Hlow j lj Hlj). lia.
Qed.

Lemma pick_next_task_rt_runs s c r :
  s_rqs s !! c = Some r → rt_ok (nmap s) c (rq_rt r) →
  runs (pick_next_task_rt c) (λ o s', o = head (rt_members (rq_rt r)) ∧ quiet s s' ∧ (o = None → s' = s)) s.
Proof.
  intros Hr Hok. unfold pick_next_task_rt. do 2 sstep.
  destruct (rt_first_bit _ _ _ Hok) as (idx & Hfind & Hidx & Hlow & Hhead).
  destruct (rt_first_member _ _ _ idx Hok Hlow) as [Hnone Hsome]; [lia|].
  do 2 sstep. destruct (Z.leb_spec MAX_RT_PRIO idx) as [Hge|Hlt].
  { sstep. rewrite Hnone by done. split_and!; [done|apply quiet_refl|done]. }
  destruct (Hhead Hlt) as (x & l & Hl).
  assert (Hnext : list_next (rt_queue (rq_rt r)) (LHead (Z.to_nat idx)) = Some (LNode x)).
  { simpl. by rewrite Hl. }
  do 2 sstep. sstep. eapply runs_lift; [done|]. sstep.
  destruct (rt_tasks _ _ _ Hok _ _ x Hl ltac:(by left)) as (n & Hn & _).
  destruct (placed_lookup _ _ _ _ _ Hn) as (t & Ht & _). eapply runs_mod_se_quiet; [exact Ht|done|].
  intros s' Hq. sstep. rewrite (Hsome _ _ Hl). by split_and!.
Qed.

Lemma put_prev_task_rt_runs s c r p :
  s_rqs s !! c = Some r → is_Some (s_tasks s !! rq_curr r) → is_Some (s_tasks s !! p) →
  runs (put_prev_task_rt c p) (λ _ s', quiet s s') s.
Proof.
  intros Hr Hcurr [t Ht]. unfold put_prev_task_rt. sstep. eapply runs_mono; [by eapply update_curr_rt_runs|].
  intros [] s1 [Hq _]. destruct (quiet_lookup _ _ _ _ Hq Ht) as (t1 & Ht1 & _).
  eapply runs_mod_se_quiet; [exact Ht1|done|]. intros s2 Hq2. by eapply quiet_trans.
Qed.

Lemma set_curr_task_rt_runs s c r :
  s_rqs s !! c = Some r → is_Some (s_tasks s !! rq_curr r) → runs (set_curr_task_rt c) (λ _ s', quiet s s') s.
Proof. intros Hr [t Ht]. unfold set_curr_task_rt. do 2 sstep. by eapply runs_mod_se_quiet. Qed.

(** ** The load balancing iterator *)

(** The order of the iteration: queue by queue, each from its tail. *)
Definition rt_order (queue : list (list loc)) : list loc := concat (reverse <$> queue).

(** The list pointer before the first [k] tasks of queue [i] are visited. *)
Definition list_pos (i : nat) (l : list loc) (k : nat) : list_ptr :=
  match k with
  | O => LHead i
  | S k => match l !! k with Some q => LNode q | None => LHead i end
  end.

(** The iterator stands before the tasks [rest]. *)
Definition rt_iter_at (rt : rt_rq) (rest : list loc) : Prop :=
  ∃ i l k, rt_load_balance_idx rt = Z.of_nat i ∧ rt_load_balance_head rt = LHead i ∧
    rt_queue rt !! i = Some l ∧ (k ≤ length l)%nat ∧ rt_load_balance_curr rt = list_pos i l k ∧
    rest = reverse (take k l) ++ rt_order (drop (S i) (rt_queue rt)).

Lemma list_prev_head queue i l :
  queue !! i = Some l → list_prev queue (LHead i) = Some (list_pos i l (length l)).
Proof.
  intros Hl. simpl. rewrite Hl. cbn. f_equal. unfold list_pos. rewrite last_lookup.
  by destruct l as [|x l].
Qed.

Lemma list_prev_node queue i l k q :
  NoDup (concat queue) → NoDup l → queue !! i = Some l → l !! k = Some q →
  list_prev queue (LNode q) = Some (list_pos i l k).
Proof.
  intros Hnd Hndl Hl Hk. pose proof (list_elem_of_lookup_2 _ _ _ Hk) as Hq. simpl.
  rewrite (queue_of_run _ _ _ _ Hnd Hl Hq). cbn. rewrite Hl. cbn.
  pose proof (take_drop_middle _ _ _ Hk) as Hsplit.
  assert (Hidx : index_of l q = Some k).
  { rewrite <-Hsplit. rewrite index_of_run; [f_equal; rewrite length_take; pose proof (lookup_lt_Some _ _ _ Hk); lia|].
    intros Hin. rewrite <-Hsplit in Hndl. apply NoDup_app in Hndl as (_ & Hd & _). apply (Hd _ Hin). by left. }
  rewrite Hidx. cbn. unfold list_pos. done.
Qed.

Lemma list_pos_succ i l k q : l !! k = Some q → list_pos i l (S k) = LNode q.
Proof. intros Hk. unfold list_pos. by rewrite Hk. Qed.

Lemma rev_take_S {A} (l : list A) k q : l !! k = Some q → reverse (take (S k) l) = q :: reverse (take k l).
Proof. intros Hk. by rewrite (take_S_r _ _ _ Hk), reverse_app. Qed.

Lemma rt_order_cons queue i l :
  queue !! i = Some l → rt_order (drop i queue) = reverse l ++ rt_order (drop (S i) queue).
Proof. intros Hl. unfold rt_order. by rewrite (drop_S _ _ _ Hl). Qed.

(** Empty queues are skipped. *)
Lemma rt_order_skip queue (i j : nat) :
  (i ≤ j)%nat → (∀ k l, queue !! k = Some l → (i ≤ k < j)%nat → l = []) →
  rt_order (drop i queue) = rt_order (drop j queue).
Proof.
  intros Hij Hnil. remember (j - i)%nat as d eqn:Hd. revert i Hij Hd Hnil.
  induction d as [|d IH]; intros i Hij Hd Hnil; [by replace j with i by lia|].
  destruct (queue !! i) as [l|] eqn:Hl.
  - rewrite (rt_order_cons _ _ _ Hl), (Hnil i l Hl) by lia. simpl. apply IH; [lia|lia|].
    intros k lk Hk Hik. apply (Hnil k lk Hk). lia.
  - apply lookup_ge_None in Hl. by rewrite !drop_ge by lia.
Qed.

(** Arriving at the last task of a queue that is not empty. *)
Lemma rt_iter_enter N c rt i l :
  rt_ok N c rt → rt_queue rt !! i = Some l → l ≠ [] →
  ∃ q, list_prev (rt_queue rt) (LHead i) = Some (LNode q) ∧
    list_prev (rt_queue rt) (LNode q) = Some (list_pos i l (pred (length l))) ∧
    reverse l = q :: reverse (take (pred (length l)) l).
Proof.
  intros Hok Hl Hne. destruct (l !! pred (length l)) as [q|] eqn:Hq; cycle 1.
  { apply lookup_ge_None in Hq. destruct l; simpl in *; [done|lia]. }
  exists q. assert (Hlen : length l = S (pred (length l))) by (destruct l; [done|simpl; lia]). split_and!.
  - rewrite (list_prev_head _ _ _ Hl). f_equal. rewrite Hlen. by apply list_pos_succ.
  - apply (list_prev_node _ _ _ _ _ (rt_nodup _ _ _ Hok) (queue_nodup _ _ _ _ _ Hok Hl) Hl Hq).
  - rewrite <-(rev_take_S _ _ _ Hq), <-Hlen. by rewrite take_ge.
Qed.

Lemma load_balance_start_rt_runs s c r :
  s_rqs s !! c = Some r → rt_ok (nmap s) c (rq_rt r) →
  runs (load_balance_start_rt c) (λ o s', o = head (rt_order (rt_queue (rq_rt r))) ∧
    (o = None ∧ s' = s ∨ ∃ rt', s' = with_rt c r rt' s ∧ rt_queue rt' = rt_queue (rq_rt r) ∧ rt_ok (nmap s) c rt' ∧
      rt_iter_at rt' (tail (rt_order (rt_queue (rq_rt r)))))) s.
Proof.
  intros Hr Hok. unfold load_balance_start_rt. do 2 sstep.
  destruct (rt_first_bit _ _ _ Hok) as (idx & Hfind & Hidx & Hlow & Hhead). do 2 sstep.
  assert (Hskip : rt_order (rt_queue (rq_rt r)) = rt_order (drop (Z.to_nat idx) (rt_queue (rq_rt r)))).
  { rewrite <-(drop_0 (rt_queue (rq_rt r))) at 1. apply rt_order_skip; [lia|]. intros k l Hk Hlt.
    apply (Hlow k l Hk). lia. }
  destruct (Z.leb_spec MAX_RT_PRIO idx) as [Hge|Hlt].
  { sstep. split; [|by left]. rewrite Hskip, drop_ge; [done|]. rewrite (rt_queues _ _ _ Hok). lia. }
  destruct (Hhead Hlt) as (x & l & Hl).
  destruct (rt_iter_enter _ _ _ _ _ Hok Hl) as (q & Hprev & Hprev2 & Hrev); [done|].
  do 2 sstep. sstep. eapply runs_lift; [done|]. do 5 sstep.
  rewrite Hskip, (rt_order_cons _ _ _ Hl), Hrev. split; [done|right]. eexists. split; [reflexivity|].
  split; [done|]. split; [by destruct Hok; constructor|].
  exists (Z.to_nat idx), (x :: l), (pred (length (x :: l))). cbn. split_and!; [lia|done|done|lia|done|done].
Qed.

Lemma first_bit_above (P : Z → bool) s n : s ≤ n → s ≤ first_set P s n ≤ n.
Proof. intros Hs. destruct (first_set_is P s n) as [[[? _]| ->] _]; lia. Qed.

Lemma load_balance_next_rt_runs s c r rest :
  s_rqs s !! c = Some r → rt_ok (nmap s) c (rq_rt r) → rt_iter_at (rq_rt r) rest →
  runs (load_balance_next_rt c) (λ o s', o = head rest ∧
    (o = None ∧ s' = s ∨ ∃ rt', s' = with_rt c r rt' s ∧ rt_queue rt' = rt_queue (rq_rt r) ∧ rt_ok (nmap s) c rt' ∧
      rt_iter_at rt' (tail rest))) s.
Proof.
  intros Hr Hok (i & l & k & Hidx & Hhd & Hl & Hk & Hcurr & ->). unfold load_balance_next_rt. do 2 sstep.
  rewrite Hidx, Hhd, Hcurr. pose proof (lookup_lt_Some _ _ _ Hl) as Hi. rewrite (rt_queues _ _ _ Hok) in Hi.
  change (Z.to_nat MAX_RT_PRIO) with 100%nat in Hi.
  destruct k as [|k]; cycle 1.
  { (* further in this queue *)
    destruct (lookup_lt_is_Some_2 l k ltac:(lia)) as [q Hq]. rewrite (list_pos_succ _ _ _ _ Hq), decide_False by done.
    unfold load_balance_step_rt. sstep. eapply runs_lift; [done|].
    pose proof (list_prev_node _ _ _ _ _ (rt_nodup _ _ _ Hok) (queue_nodup _ _ _ _ _ Hok Hl) Hl Hq) as Hprev.
    do 5 sstep. rewrite (rev_take_S _ _ _ Hq). split; [done|right]. eexists. split; [reflexivity|].
    split; [done|]. split; [by destruct Hok; constructor|]. exists i, l, k. cbn. split_and!; [done..|lia|done|done]. }
  (* the next queue that is not empty *)
  rewrite decide_True by done. simpl. pose proof Hok as [Hw Hwl Hq Hd Hbits Hnd Htasks].
  assert (Hfind : find_next_bit (rt_bitmap (rq_rt r)) MAX_RT_PRIO (Z.of_nat i + 1) =
    Some (first_set (bitmap_bit (rt_bitmap (rq_rt r))) (Z.of_nat i + 1) MAX_RT_PRIO)).
  { destruct (find_bit_correct (rt_bitmap (rq_rt r)) (rt_bitmap (rq_rt r)) MAX_RT_PRIO (Z.of_nat i + 1) Hw Hw eq_refl)
      as (H & _); [rewrite Hwl; unfold MAX_RT_PRIO, MAX_USER_RT_PRIO; lia|done|lia|done]. }
  set (idx := first_set _ _ _) in *. do 2 sstep.
  destruct (first_set_is (bitmap_bit (rt_bitmap (rq_rt r))) (Z.of_nat i + 1) MAX_RT_PRIO) as [Hset Hlow].
  fold idx in Hset, Hlow. change MAX_RT_PRIO with 100 in *.
  assert (Hrange : Z.of_nat i + 1 ≤ idx ≤ 100) by (apply first_bit_above; lia).
  assert (Hskip : rt_order (drop (S i) (rt_queue (rq_rt r))) = rt_order (drop (Z.to_nat idx) (rt_queue (rq_rt r)))).
  { apply rt_order_skip; [lia|]. intros k lk Hk' Hlt. specialize (Hbits k lk Hk'). rewrite Hlow in Hbits by lia.
    symmetry in Hbits. by apply bool_decide_eq_false, dec_stable in Hbits. }
  rewrite Hskip. destruct (Z.leb_spec 100 idx) as [Hge|Hlt].
  { sstep. split; [|by left]. rewrite drop_ge; [done|]. rewrite Hq. change (Z.to_nat 100) with 100%nat. lia. }
  destruct Hset as [[_ Hset]|]; [|lia].
  destruct (rt_queue_lookup _ _ _ (Z.to_nat idx) Hok ltac:(lia)) as [lx Hlx].
  assert (Hne : lx ≠ []).
  { specialize (Hbits _ _ Hlx). rewrite Z2Nat.id, Hset in Hbits by lia. symmetry in Hbits.
    by apply bool_decide_eq_true in Hbits. }
  destruct (rt_iter_enter _ _ _ _ _ Hok Hlx Hne) as (q & Hprev & Hprev2 & Hrev).
  do 4 sstep. unfold load_balance_step_rt. sstep. eapply runs_lift; [done|]. do 5 sstep.
  rewrite (rt_order_cons _ _ _ Hlx), Hrev. split; [done|right]. eexists. split; [unfold with_rt, set_s_rqs; cbn; by rewrite insert_insert_eq|].
  split; [done|]. split; [by constructor|].
  exists (Z.to_nat idx), lx, (pred (length lx)). cbn. split_and!; [lia|done|done|lia|done|done].
Qed.

(** Taking a task that was visited out of its queue does not move the
    iterator. *)
Lemma rt_iter_dequeue N c rt rest i l p bitmap :
  rt_ok N c rt → rt_iter_at rt rest → rt_queue rt !! i = Some l → p ∈ l → p ∉ rest →
  rt_iter_at (set_rt_bitmap bitmap (set_rt_queue (<[i := filter (.≠ p) l]> (rt_queue rt)) rt)) rest.
Proof.
  intros Hok (j & lj & k & Hidx & Hhd & Hlj & Hk & Hcurr & Hrest) Hl Hp Hpr. subst rest.
  rewrite not_elem_of_app in Hpr. destruct Hpr as [Hp1 Hp2].
  assert (Hij : (i ≤ j)%nat).
  { apply Nat.nlt_ge. intros Hlt. apply Hp2. unfold rt_order. apply elem_of_concat_lookup.
    exists (i - S j)%nat, (reverse l). rewrite list_lookup_fmap, lookup_drop. replace (S j + (i - S j))%nat with i by lia.
    rewrite Hl. split; [done|]. by apply elem_of_reverse. }
  assert (Hdrop : drop (S j) (<[i := filter (.≠ p) l]> (rt_queue rt)) = drop (S j) (rt_queue rt)).
  { by apply drop_insert_lt; lia. }
  destruct (decide (i = j)) as [->|Hne].
  - rewrite Hl in Hlj. injection Hlj as <-.
    assert (Htake : p ∉ take k l) by (intros Hin; apply Hp1; by apply elem_of_reverse).
    assert (Hfil : take k (filter (.≠ p) l) = take k l).
    { rewrite <-(take_drop k l) at 1. rewrite filter_app, (filter_ne_notin _ _ Htake). rewrite take_app_le by (rewrite length_take; lia).
      by rewrite take_take, Nat.min_id. }
    exists j, (filter (.≠ p) l), k. cbn. rewrite list_lookup_insert_eq by (by eapply lookup_lt_Some).
    split_and!; [done|done|done| | |by rewrite Hfil, Hdrop].
    + rewrite <-(take_drop k l), filter_app, (filter_ne_notin _ _ Htake), length_app, length_take. lia.
    + rewrite Hcurr. destruct k as [|k]; [done|]. unfold list_pos.
      rewrite <-(lookup_take_lt l (S k) k), <-(lookup_take_lt (filter (.≠ p) l) (S k) k), Hfil by lia. done.
  - exists j, lj, k. cbn. rewrite list_lookup_insert_ne, Hdrop by done. by split_and!.
Qed.
