(* ===== verification/SchedFairFacts.v ===== *)
(** * The tree of the fair class

    Virtual run times wrap: they are compared through their signed distance.
    Within a window of [2^62] above a base, the distance is the difference of
    the offsets from the base, so that the tree is sorted by offset.  The tree
    operations are then those of [RbtreeKeyed], with the cached leftmost node. *)
From stdpp Require Import gmap sorting.
From S2P Require Import Prelude Rbtree RbtreeLogic RbtreeInsert RbtreeWalk RbtreeErase RbtreeSpec RbtreeRun RbtreeKeyed Timerqueue FindBit Sched SchedFair SchedLogic SchedRtFacts.

(** ** Virtual time *)

(** The distance of [v] above the base [b]. *)
Definition voff (b v : Z) : Z := u64 (v - b).

(** [v] is in the window. *)
Definition in_window (b v : Z) : Prop := voff b v < 2 ^ 62.

Lemma voff_bound b v : 0 ≤ voff b v < 2 ^ 64.
Proof. apply u64_bound. Qed.

Lemma u64_eq_s64 x y : u64 x = u64 y → s64 x = s64 y.
Proof.
  unfold u64, s64. intros H. f_equal. rewrite <-(Zplus_mod_idemp_l x), <-(Zplus_mod_idemp_l y). by rewrite H.
Qed.

Lemma s64_small z : - 2 ^ 63 ≤ z < 2 ^ 63 → s64 z = z.
Proof. intros Hz. unfold s64. rewrite Z.mod_small; lia. Qed.

Lemma s64_bound z : - 2 ^ 63 ≤ s64 z < 2 ^ 63.
Proof. unfold s64. pose proof (Z.mod_pos_bound (z + 2 ^ 63) (2 ^ 64)). lia. Qed.

Lemma s64_diff b x y : in_window b x → in_window b y → s64 (x - y) = voff b x - voff b y.
Proof.
  intros Hx Hy. unfold in_window in *. pose proof (voff_bound b x). pose proof (voff_bound b y).
  rewrite <-(s64_small (voff b x - voff b y)) by lia. apply u64_eq_s64. unfold voff.
  unfold u64. rewrite <-Zminus_mod. f_equal. lia.
Qed.

Lemma voff_add b v d : in_window b v → 0 ≤ d → voff b v + d < 2 ^ 62 → voff b (u64 (v + d)) = voff b v + d.
Proof.
  intros Hv Hd Hlt. pose proof (voff_bound b v). unfold voff in *.
  rewrite u64_sub_l. replace (v + d - b) with ((v - b) + d) by lia. rewrite <-u64_add_l.
  apply u64_small. lia.
Qed.

Lemma voff_sub b v d : in_window b v → 0 ≤ d ≤ voff b v → voff b (u64 (v - d)) = voff b v - d.
Proof.
  intros Hv Hd. unfold in_window in *. pose proof (voff_bound b v). unfold voff in *.
  rewrite u64_sub_l. replace (v - d - b) with ((v - b) - d) by lia. rewrite <-u64_sub_l. apply u64_small. lia.
Qed.

Lemma voff_max b x y :
  in_window b x → in_window b y → voff b (max_vruntime x y) = Z.max (voff b x) (voff b y) ∧ in_window b (max_vruntime x y).
Proof.
  intros Hx Hy. unfold max_vruntime. rewrite (s64_diff b) by done.
  destruct (Z.ltb_spec 0 (voff b y - voff b x)); split; try done; lia.
Qed.

Lemma voff_min b x y :
  in_window b x → in_window b y → voff b (min_vruntime x y) = Z.min (voff b x) (voff b y) ∧ in_window b (min_vruntime x y).
Proof.
  intros Hx Hy. unfold min_vruntime. rewrite (s64_diff b) by done.
  destruct (Z.ltb_spec (voff b y - voff b x) 0); split; try done; lia.
Qed.

(** The key of an entity is its offset less that of [min_vruntime]. *)
Lemma entity_key_voff b cfs se :
  in_window b (se_vruntime se) → in_window b (cfs_min_vruntime cfs) →
  entity_key cfs se = voff b (se_vruntime se) - voff b (cfs_min_vruntime cfs).
Proof. intros. unfold entity_key. by apply s64_diff. Qed.

(** ** Trees of a list *)

Definition tree_at (h : heap) (root : loc) (l : list loc) : Prop :=
  ∃ t, rep h root t ∧ valid t ∧ inorder t = l.

Lemma tree_at_nodup h root l : tree_at h root l → NoDup l.
Proof. intros (t & (_ & _ & Hnd) & _ & <-). done. Qed.

Lemma tree_at_root h root l : tree_at h root l → ∃ p, h !! root = Some (CPtr p).
Proof. intros (t & (Hr & _) & _). eauto. Qed.

Lemma tree_at_node h root l x : tree_at h root l → x ∈ l → ∃ n, h !! x = Some (CNode n).
Proof. intros (t & (_ & Hat & _) & _ & <-) Hx. by eapply nodes_at_in. Qed.

Lemma tree_at_frame h h' root l :
  (∀ a, a ∈ root :: l → h' !! a = h !! a) → tree_at h root l → tree_at h' root l.
Proof.
  intros Heq (t & (Hr & Hat & Hnd) & Hv & <-). exists t. split_and!; [split_and!|done|done].
  - rewrite Heq; [done|by left].
  - eapply nodes_at_frame; [|exact Hat]. intros a Ha. apply Heq. by right.
  - done.
Qed.

(** A frame away from the tree keeps it. *)
Lemma tree_at_frame_of h h' root l ls :
  frame_of h h' ls → tree_at h root l → (∀ a, a ∈ root :: l → a ∉ ls) → tree_at h' root l.
Proof.
  intros Hfr Ht Hdisj. eapply tree_at_frame; [|exact Ht]. intros a Ha.
  assert (∃ c, h !! a = Some c) as [c Hc].
  { apply elem_of_cons in Ha as [->|Ha]; [destruct (tree_at_root _ _ _ Ht); eauto|].
    destruct (tree_at_node _ _ _ _ Ht Ha). eauto. }
  rewrite Hc. apply Hfr; [by apply Hdisj|done].
Qed.

(** The descent of [__enqueue_entity]: the slot of [descend_run], and whether
    nothing is to its left. *)
Section descend.
Context (go : loc → option dir) (before_ok after_ok : loc → Prop).
Hypothesis go_left : ∀ x, go x = Some DL → after_ok x.
Hypothesis go_right : ∀ x, go x = Some DR → before_ok x.

Lemma beyond_left_cons d c x t π : beyond DL ((d, c, x, t) :: π) = [] ↔ d = DL ∧ beyond DL π = [].
Proof. simpl. destruct d; simpl; naive_solver. Qed.

Lemma enqueue_descend_run h par t π fuel :
  nodes_at h par (plug π t) → (height t ≤ fuel)%nat → slot_ok before_ok after_ok π →
  (∀ x, x ∈ inorder t → go x ≠ None) →
  (∀ c l x r ρ, plug π t = plug ρ (T c l x r) → go x = Some DL → Forall after_ok (inorder r)) →
  (∀ c l x r ρ, plug π t = plug ρ (T c l x r) → go x = Some DR → Forall before_ok (inorder l)) →
  ∃ π', enqueue_descend fuel go (ppar π) (pside π) (tptr t) (bool_decide (beyond DL π = [])) h =
      Some ((ppar π', pside π', bool_decide (beyond DL π' = [])), h) ∧
    plug π' E = plug π t ∧ slot_ok before_ok after_ok π'.
Proof.
  revert t π. induction fuel as [|fuel IH]; intros t π Hat Hf Hok Hgo HL HR;
    (destruct t as [|c l x r]; [by exists π|]); [simpl in Hf; lia|].
  cbn [tptr enqueue_descend]. simpl in Hf.
  pose proof (load_at _ _ _ _ _ _ (nodes_at_plug _ _ _ _ Hat)) as Hload.
  destruct (go x) as [d|] eqn:Hgx; [|by destruct (Hgo x ltac:(simpl; set_solver))].
  unfold bind. rewrite Hload. cbn [mbind option_bind].
  assert (Hlm : ∀ sib, bool_decide (beyond DL π = []) && bool_decide (d = DL) = bool_decide (beyond DL ((d, c, x, sib) :: π) = [])).
  { intros sib. rewrite <-bool_decide_and. apply bool_decide_ext. rewrite beyond_left_cons. tauto. }
  destruct d; cbn [child rb_left rb_right].
  - rewrite (Hlm r). apply (IH l ((DL, c, x, r) :: π)); [done|lia| | |done|done].
    + destruct Hok. split; simpl; [done|]. constructor; [by apply go_left|].
      apply Forall_app. split; [|done]. rewrite walk_right. eapply (HL _ _ _ _ π); done.
    + intros y Hy. apply Hgo. simpl. set_solver.
  - rewrite (Hlm l). apply (IH r ((DR, c, x, l) :: π)); [done|lia| | |done|done].
    + destruct Hok. split; simpl; [|done]. constructor; [by apply go_right|].
      apply Forall_app. split; [|done]. change DL with (opp DR). rewrite walk_opp, walk_right.
      apply Forall_rev. eapply (HR _ _ _ _ π); done.
    + intros y Hy. apply Hgo. simpl. set_solver.
Qed.

End descend.

(** ** Insertion, removal and walks on lists *)

Section insert.
Context (go : loc → option dir) (before_ok after_ok : loc → Prop) (R : loc → loc → Prop).
Hypothesis go_left : ∀ y, go y = Some DL → after_ok y.
Hypothesis go_right : ∀ y, go y = Some DR → before_ok y.
Hypothesis after_up : ∀ y z, after_ok y → R y z → after_ok z.
Hypothesis before_down : ∀ y z, before_ok y → R z y → before_ok z.

Lemma enqueue_tree_run h root l x n fuel :
  tree_at h root l → StronglySorted R l → (∀ y, y ∈ l → go y ≠ None) →
  h !! x = Some (CNode n) → x ∉ l → (rb_depth (length l) < fuel)%nat →
  ∃ parent link h' l1 l2,
    (cur <- load_ptr root;; enqueue_descend fuel go None DL cur true) h = Some ((parent, link, bool_decide (l1 = [])), h) ∧
    (rb_link_node x parent link root;;; rb_insert_color fuel x root) h = Some (tt, h') ∧
    tree_at h' root (l1 ++ x :: l2) ∧ l = l1 ++ l2 ∧ Forall before_ok l1 ∧ Forall after_ok l2 ∧
    frame_of h h' (x :: root :: l).
Proof.
  intros (t & Hrep & Hv & <-) Hs Hgo Hx Hfx Hf. pose proof (height_fuel t fuel Hv ltac:(lia)) as Hh.
  destruct (enqueue_descend_run go before_ok after_ok go_left go_right h None t [] fuel)
    as (π & Hed & Hπ & Hbefore & Hafter).
  { apply Hrep. } { done. } { by split. } { done. }
  { intros c l y r ρ Heq Hy. destruct (sorted_focus _ _ _ _ _ _ _ Hs Heq) as [_ Hr].
    eapply Forall_impl; [exact Hr|]. intros z Hz. by eapply after_up; [apply go_left|]. }
  { intros c l y r ρ Heq Hy. destruct (sorted_focus _ _ _ _ _ _ _ Hs Heq) as [Hl _].
    eapply Forall_impl; [exact Hl|]. intros z Hz. by eapply before_down; [apply go_right|]. }
  simpl in Hπ. pose proof (load_root _ _ _ Hrep) as Hroot. rewrite bool_decide_true in Hed by done. subst t.
  destruct (rb_insert_run h root π x n None fuel) as (h' & t' & Hm & Hr' & Hv' & _ & Hin & Hin0 & Hfr); [done..|].
  exists (ppar π), (pside π), h', (rev (beyond DL π)), (beyond DR π). split_and!.
  - rewrite (bind_run _ _ _ _ _ Hroot). etransitivity; [exact Hed|]. do 3 f_equal. apply bool_decide_ext.
    split; [by intros ->|]. intros H%(f_equal (@rev loc)). by rewrite rev_involutive in H.
  - exact Hm.
  - by exists t'.
  - done.
  - by apply Forall_rev.
  - done.
  - by rewrite app_nil_r in Hfr.
Qed.

End insert.

Lemma erase_tree_run h root l x fuel :
  tree_at h root l → x ∈ l → (rb_depth (length l) ≤ fuel)%nat →
  ∃ h' n, rb_erase fuel x root h = Some (tt, h') ∧ tree_at h' root (filter (.≠ x) l) ∧
    frame_of h h' (root :: l) ∧ h' !! x = Some (CNode n).
Proof.
  intros (t & Hrep & Hv & <-) Hx Hf.
  destruct (rb_erase_run h root t x None fuel) as (h' & t' & Hm & Hr' & Hv' & _ & Hin & Hfr & n & Hn); [done..|].
  exists h', n. rewrite app_nil_r in Hfr. split_and!; [exact Hm| |done|done]. by exists t'.
Qed.

Lemma next_tree_run h root l1 x l2 fuel :
  tree_at h root (l1 ++ x :: l2) → (rb_depth (length (l1 ++ x :: l2)) ≤ fuel)%nat →
  rb_next fuel x h = Some (head l2, h).
Proof.
  intros (t & Hrep & Hv & Hl) Hf. rewrite <-Hl in Hf. by destruct (rb_next_prev_run h root t fuel l1 x l2 Hrep Hv Hf Hl).
Qed.

(** The walk of [__pick_last_entity] ends at the last node. *)
Lemma rightmost_loop_run h par t fuel se :
  nodes_at h par t → (height t ≤ fuel)%nat →
  rightmost_loop fuel (tptr t) se h = Some (match last (inorder t) with Some x => Some x | None => se end, h).
Proof.
  revert par t se. induction fuel as [|fuel IH]; intros par t se Hat Hf;
    (destruct t as [|c l x r]; [done|]); [simpl in Hf; lia|].
  cbn [tptr rightmost_loop]. rewrite (bind_run _ _ _ _ _ (load_at _ _ _ _ _ _ Hat)). cbn [rb_right].
  destruct Hat as (_ & _ & Hr). simpl in Hf. rewrite (IH _ _ _ Hr) by lia. simpl.
  rewrite last_app_cons. by destruct r as [|? ? ? ?]; [|rewrite last_cons; destruct (last (inorder _))].
Qed.

(** ** Facts of the fair class

    The invariant of a fair run queue and what each operation does to it. *)

(** ** The invariant *)

Definition vr (N : gmap loc task_struct) (p : loc) : Z :=
  match N !! p with Some t => se_vruntime (t_se t) | None => 0 end.

(** The order of the tree. *)
Definition fair_le (b : Z) (N : gmap loc task_struct) (x y : loc) : Prop := voff b (vr N x) ≤ voff b (vr N y).

(** The tree holds the tasks [l]: sorted, the leftmost cached, all of them fair
    tasks of the processor within the window. *)
Record fair_tree (b : Z) (N : gmap loc task_struct) (h : heap) (c : nat) (cfs : cfs_rq) (l : list loc) : Prop := mk_fair_tree {
  ft_tree : tree_at h (cfs_tasks_timeline cfs) l;
  ft_sorted : StronglySorted (fair_le b N) l;
  ft_left : cfs_rb_leftmost cfs = head l;
  ft_tasks : ∀ p, p ∈ l → ∃ t, placed N c FairClass p t ∧ in_window b (se_vruntime (t_se t));
  ft_min : 2 ^ 32 ≤ voff b (cfs_min_vruntime cfs) < 2 ^ 62
}.

(** The running entity is not in the tree. *)
Definition fair_curr (b : Z) (N : gmap loc task_struct) (c : nat) (cfs : cfs_rq) (l : list loc) : Prop :=
  ∀ p, cfs_curr cfs = Some p → p ∉ l ∧ ∃ t, placed N c FairClass p t ∧ in_window b (se_vruntime (t_se t)).

Lemma vr_placed N c k p t : placed N c k p t → vr N p = se_vruntime (t_se t).
Proof. intros (Ht & _). unfold vr. by rewrite Ht. Qed.

(** A change of tasks outside the tree, and of the other fields of the queue. *)
Lemma fair_tree_tasks b N N' h c cfs l :
  (∀ p t, p ∈ l → N !! p = Some t → N' !! p = Some t) → fair_tree b N h c cfs l → fair_tree b N' h c cfs l.
Proof.
  intros HN []. constructor; try done.
  - eapply sorted_ext; [|exact ft_sorted0]. intros x y Hx Hy. unfold fair_le.
    destruct (ft_tasks0 x Hx) as (tx & Htx & _), (ft_tasks0 y Hy) as (ty & Hty & _).
    rewrite (vr_placed _ _ _ _ _ Htx), (vr_placed _ _ _ _ _ Hty). destruct Htx as (Htx & _), Hty as (Hty & _).
    unfold vr. by rewrite (HN x tx Hx Htx), (HN y ty Hy Hty).
  - intros p Hp. destruct (ft_tasks0 p Hp) as (t & (Ht & Hk & Hc) & Hw). exists t. split; [|done].
    split_and!; [by apply HN|done|done].
Qed.

Lemma fair_tree_heap b N h h' c cfs l :
  (∀ a, a ∈ cfs_tasks_timeline cfs :: l → h' !! a = h !! a) → fair_tree b N h c cfs l → fair_tree b N h' c cfs l.
Proof. intros Hh []. constructor; try done. by eapply tree_at_frame. Qed.

Lemma fair_tree_fields b N h c cfs cfs' l :
  cfs_tasks_timeline cfs' = cfs_tasks_timeline cfs → cfs_rb_leftmost cfs' = cfs_rb_leftmost cfs →
  2 ^ 32 ≤ voff b (cfs_min_vruntime cfs') < 2 ^ 62 →
  fair_tree b N h c cfs l → fair_tree b N h c cfs' l.
Proof. intros Hr Hl Hm []. constructor; try done; congruence. Qed.

(** Replacing the fair run queue of processor [c]. *)
Definition with_cfs (c : nat) (r : rq) (cfs : cfs_rq) (s : sched) : sched :=
  set_s_rqs (<[c := set_rq_cfs cfs r]> (s_rqs s)) s.

Lemma set_s_nodes_id s : set_s_nodes (s_nodes s) s = s.
Proof. by destruct s. Qed.

Lemma with_cfs_id c r s : s_rqs s !! c = Some r → with_cfs c r (rq_cfs r) s = s.
Proof.
  intros Hr. unfold with_cfs. replace (set_rq_cfs (rq_cfs r) r) with r by by destruct r.
  destruct s. unfold set_s_rqs. cbn in *. by rewrite insert_id.
Qed.

Lemma set_leftmost_id v cfs : cfs_rb_leftmost cfs = v → set_cfs_rb_leftmost v cfs = cfs.
Proof. intros <-. by destruct cfs. Qed.

(** ** The tree operations *)

Section ops.
Context (b : Z) (fuel : nat).

Lemma entity_go_spec N tasks c cfs (l : list loc) t x d :
  (∀ p, norm <$> tasks !! p = N !! p) →
  in_window b (cfs_min_vruntime cfs) → in_window b (se_vruntime (t_se t)) →
  x ∈ l → (∀ p, p ∈ l → ∃ t, placed N c FairClass p t ∧ in_window b (se_vruntime (t_se t))) →
  entity_go tasks cfs (entity_key cfs (t_se t)) x = Some d →
  d = if voff b (se_vruntime (t_se t)) <? voff b (vr N x) then DL else DR.
Proof.
  intros HN Hm Hv Hx Hl Hgo. destruct (Hl x Hx) as (n & (Hn & _) & Hw). unfold entity_go in Hgo.
  pose proof (HN x) as Hnx. rewrite Hn in Hnx. destruct (tasks !! x) as [tx|] eqn:Htx; [|done]. simpl in Hnx, Hgo.
  injection Hgo as <-. unfold vr. rewrite Hn. injection Hnx as <-. change (se_vruntime (t_se (norm tx))) with (se_vruntime (t_se tx)) in *.
  rewrite !(entity_key_voff b) by done.
  destruct (Z.ltb_spec (voff b (se_vruntime (t_se t))) (voff b (se_vruntime (t_se tx))));
    destruct (Z.ltb_spec (voff b (se_vruntime (t_se t)) - voff b (cfs_min_vruntime cfs))
                         (voff b (se_vruntime (t_se tx)) - voff b (cfs_min_vruntime cfs))); done || lia.
Qed.

Lemma __enqueue_entity_runs s c r p t l n :
  s_rqs s !! c = Some r → fair_tree b (nmap s) (s_nodes s) c (rq_cfs r) l →
  s_tasks s !! p = Some t → t_class t = FairClass → t_cpu t = c → in_window b (se_vruntime (t_se t)) →
  p ∉ l → s_nodes s !! p = Some (CNode n) → (rb_depth (length l) < fuel)%nat →
  runs (__enqueue_entity fuel c p) (λ _ s', ∃ l1 l2 h',
    let l' := l1 ++ p :: l2 in
    let cfs' := set_cfs_rb_leftmost (head l') (rq_cfs r) in
    l = l1 ++ l2 ∧ s' = set_s_nodes h' (with_cfs c r cfs' s) ∧
    fair_tree b (nmap s) h' c cfs' l' ∧ frame_of (s_nodes s) h' (p :: cfs_tasks_timeline (rq_cfs r) :: l) ∧
    Forall (λ q, voff b (vr (nmap s) q) ≤ voff b (se_vruntime (t_se t))) l1 ∧
    Forall (λ q, voff b (se_vruntime (t_se t)) < voff b (vr (nmap s) q)) l2) s.
Proof.
  intros Hr Hft Ht Hk Hc Hw Hp Hn Hf. pose proof Hft as [Htree Hs Hleft Htasks Hmin].
  unfold __enqueue_entity. do 4 sstep. apply runs_bind. eexists _, _. split; [reflexivity|].
  set (go := entity_go (s_tasks s) (rq_cfs r) (entity_key (rq_cfs r) (t_se t))).
  assert (HN : ∀ q, norm <$> s_tasks s !! q = nmap s !! q) by (intros q; unfold nmap; by rewrite lookup_fmap).
  assert (Hgo : ∀ x, x ∈ l → ∃ d, go x = Some d).
  { intros x Hx. destruct (Htasks x Hx) as (tx & (Htx & _) & _). apply nmap_lookup in Htx as (u & Hu & _).
    unfold go, entity_go. rewrite Hu. simpl. eauto. }
  set (k := voff b (se_vruntime (t_se t))).
  assert (Hside : ∀ x d, x ∈ l → go x = Some d → d = if k <? voff b (vr (nmap s) x) then DL else DR).
  { intros x d Hx Hgx. eapply entity_go_spec; [exact HN|apply Hmin|done|exact Hx|exact Htasks|exact Hgx]. }
  destruct (enqueue_tree_run go (λ y, y ∈ l → voff b (vr (nmap s) y) ≤ k) (λ y, y ∈ l → k < voff b (vr (nmap s) y))
    (λ y z, y ∈ l ∧ z ∈ l ∧ fair_le b (nmap s) y z)) with (h := s_nodes s) (root := cfs_tasks_timeline (rq_cfs r))
    (l := l) (x := p) (n := n) (fuel := fuel) as (parent & link & h' & l1 & l2 & Hdesc & Hins & Htree' & Hl & H1 & H2 & Hfr).
  { intros y Hy Hin. pose proof (Hside y _ Hin Hy). destruct (Z.ltb_spec k (voff b (vr (nmap s) y))); done. }
  { intros y Hy Hin. pose proof (Hside y _ Hin Hy). destruct (Z.ltb_spec k (voff b (vr (nmap s) y))); done. }
  { intros y z Hy (Hin & _ & Hle) _. specialize (Hy Hin). unfold fair_le in Hle. lia. }
  { intros y z Hy (_ & Hin & Hle) _. specialize (Hy Hin). unfold fair_le in Hle. lia. }
  { done. } { eapply sorted_ext; [|exact Hs]. by intros x y Hx Hy Hle. }
  { intros y Hy. destruct (Hgo y Hy) as [d ->]. done. } { done. } { done. } { done. }
  apply runs_bind. eapply runs_on_nodes; [exact Hdesc|]. cbn [s_nodes set_s_nodes].
  assert (Hb : Forall (λ q, voff b (vr (nmap s) q) ≤ k) l1).
  { rewrite Forall_forall in *. intros q Hq. apply H1; [done|]. rewrite Hl. set_solver. }
  assert (Ha : Forall (λ q, k < voff b (vr (nmap s) q)) l2).
  { rewrite Forall_forall in *. intros q Hq. apply H2; [done|]. rewrite Hl. set_solver. }
  assert (Hvp : vr (nmap s) p = se_vruntime (t_se t)) by (unfold vr; by rewrite (lookup_nmap _ _ _ Ht)).
  assert (Hft' : ∀ cfs', cfs_tasks_timeline cfs' = cfs_tasks_timeline (rq_cfs r) →
    cfs_min_vruntime cfs' = cfs_min_vruntime (rq_cfs r) → cfs_rb_leftmost cfs' = head (l1 ++ p :: l2) →
    fair_tree b (nmap s) h' c cfs' (l1 ++ p :: l2)).
  { intros cfs' Hroot Hmin' Hleft'. constructor; [by rewrite Hroot| |done| |by rewrite Hmin'].
    - rewrite Hl in Hs. apply sorted_insert; [done|..]; unfold fair_le; rewrite Hvp; [exact Hb|].
      eapply Forall_impl; [exact Ha|]. simpl. intros; lia.
    - intros q Hq. destruct (decide (q = p)) as [->|Hne].
      + exists (norm t). split; [by apply placed_task|done].
      + apply Htasks. rewrite Hl. set_solver. }
  rewrite set_s_nodes_id. apply runs_seq_when; intros Hlm.
  - apply bool_decide_eq_true in Hlm as ->. eapply runs_mod_cfs; [exact Hr|]. eapply runs_on_nodes; [exact Hins|].
    exists [], l2, h'. split_and!; [done|done|by apply Hft'|done|done|done].
  - apply bool_decide_eq_false in Hlm. eapply runs_on_nodes; [exact Hins|]. exists l1, l2, h'.
    assert (Hid : set_cfs_rb_leftmost (head (l1 ++ p :: l2)) (rq_cfs r) = rq_cfs r).
    { apply set_leftmost_id. rewrite Hleft, Hl. by destruct l1. }
    cbv zeta. rewrite Hid, with_cfs_id by done. split_and!; [done|done| |done|done|done].
    apply Hft'; [done|done|]. rewrite Hleft, Hl. by destruct l1.
Qed.

Lemma head_filter (l : list loc) p : head l ≠ Some p → head (filter (.≠ p) l) = head l.
Proof. destruct l as [|x l]; [done|]. simpl. intros Hne. rewrite filter_cons, decide_True by congruence. done. Qed.

Lemma __dequeue_entity_runs s c r p l :
  s_rqs s !! c = Some r → fair_tree b (nmap s) (s_nodes s) c (rq_cfs r) l → p ∈ l → (rb_depth (length l) ≤ fuel)%nat →
  runs (__dequeue_entity fuel c p) (λ _ s', ∃ h' n,
    let l' := filter (.≠ p) l in
    let cfs' := set_cfs_rb_leftmost (head l') (rq_cfs r) in
    s' = set_s_nodes h' (with_cfs c r cfs' s) ∧ fair_tree b (nmap s) h' c cfs' l' ∧
    frame_of (s_nodes s) h' (cfs_tasks_timeline (rq_cfs r) :: l) ∧ h' !! p = Some (CNode n)) s.
Proof.
  intros Hr Hft Hp Hf. pose proof Hft as [Htree Hs Hleft Htasks Hmin]. unfold __dequeue_entity. do 2 sstep.
  destruct (erase_tree_run _ _ _ p fuel Htree Hp Hf) as (h' & n & Herase & Htree' & Hfr & Hn).
  assert (Hft' : fair_tree b (nmap s) h' c (set_cfs_rb_leftmost (head (filter (.≠ p) l)) (rq_cfs r)) (filter (.≠ p) l)).
  { constructor; cbn; [done| |done| |done].
    - by apply sorted_filter.
    - intros q [_ Hq]%list_elem_of_filter. by apply Htasks. }
  destruct (decide (cfs_rb_leftmost (rq_cfs r) = Some p)) as [Hl|Hl].
  - rewrite Hleft in Hl. destruct l as [|x l]; [done|]. injection Hl as ->.
    apply runs_bind, runs_bind. eapply runs_on_nodes; [exact (next_tree_run _ _ [] p l fuel Htree Hf)|].
    rewrite set_s_nodes_id. eapply runs_mod_cfs; [exact Hr|]. eapply runs_on_nodes; [exact Herase|].
    assert (Hfil : filter (.≠ p) (p :: l) = l).
    { apply (filter_ne_split [] l p). apply (tree_at_nodup _ _ _ Htree). }
    exists h', n. cbv zeta. rewrite Hfil in *. by split_and!.
  - sstep. sstep. eapply runs_on_nodes; [exact Herase|]. exists h', n. cbv zeta in *.
    rewrite head_filter in * by congruence. rewrite (set_leftmost_id _ _ Hleft), with_cfs_id in * by done. by split_and!.
Qed.

(** ** Run time *)

Lemma SRR_bound x y : 0 < y ≤ 64 → 0 ≤ SRR x y < 2 ^ (64 - y).
Proof.
  intros Hy. unfold SRR. rewrite Z.shiftr_div_pow2 by lia. pose proof (u64_bound (x + Z.shiftl 1 (y - 1))).
  assert (Hp : 2 ^ 64 = 2 ^ y * 2 ^ (64 - y)) by (rewrite <-Z.pow_add_r by lia; f_equal; lia).
  split; [apply Z.div_pos; lia|]. apply Z.div_lt_upper_bound; [lia|]. lia.
Qed.

(** The charge exists as soon as the weight is not zero, keeps the weight, and
    is bounded. *)
Lemma delta_exec_weighted_run delta se :
  0 < lw_weight (se_load se) → 0 ≤ delta < 2 ^ 64 →
  ∃ dw lw, delta_exec_weighted delta se = Some (dw, lw) ∧ lw_weight lw = lw_weight (se_load se) ∧
    0 ≤ dw ≤ Z.max delta (2 ^ 48).
Proof.
  intros Hw Hd. unfold delta_exec_weighted. destruct (Z.eqb_spec (lw_weight (se_load se)) NICE_0_LOAD).
  { eexists _, _. split; [done|]. split; [done|lia]. }
  assert (Hinv : ∃ inv, calc_inv_weight (se_load se) = Some inv).
  { unfold calc_inv_weight. destruct (lw_inv_weight (se_load se) =? 0); [|eauto].
    destruct (Z.eqb_spec (lw_weight (se_load se)) 0); [lia|eauto]. }
  destruct Hinv as [inv Hinv]. unfold calc_delta_fair, calc_delta_mine. rewrite Hinv. cbn [mbind option_bind].
  eexists _, _. split; [reflexivity|]. split; [done|]. unfold WMULT_SHIFT, LONG_MAX. change (32 / 2) with 16.
  match goal with |- context [if ?x then _ else _] => destruct x end.
  - pose proof (SRR_bound (u64 (SRR (u64 (delta * NICE_0_LOAD)) 16 * inv)) 16 ltac:(lia)).
    change (64 - 16) with 48 in *. lia.
  - pose proof (SRR_bound (u64 (u64 (delta * NICE_0_LOAD) * inv)) 32 ltac:(lia)). change (64 - 32) with 32 in *. lia.
Qed.

Definition set_vr (v : Z) (t : task_struct) : task_struct := set_t_se (set_se_vruntime v (t_se t)) t.

(** The entity after a charge. *)
Definition charged (clock delta dw : Z) (lw : load_weight) (se : sched_entity) : sched_entity :=
  mk_se lw (se_on_rq se) clock (u64 (se_sum_exec_runtime se + delta)) (u64 (se_vruntime se + dw))
    (se_prev_sum_exec_runtime se).

(** [update_curr] charges the running task and advances [min_vruntime], but
    never past a task of the queue. *)
Lemma update_curr_runs s c r q t l delta dw lw :
  s_rqs s !! c = Some r → fair_tree b (nmap s) (s_nodes s) c (rq_cfs r) l →
  cfs_curr (rq_cfs r) = Some q → s_tasks s !! q = Some t → q ∉ l → in_window b (se_vruntime (t_se t)) →
  delta = u64 (rq_clock r - se_exec_start (t_se t)) →
  delta_exec_weighted delta (t_se t) = Some (dw, lw) → 0 ≤ dw → voff b (se_vruntime (t_se t)) + dw < 2 ^ 62 →
  runs (update_curr c) (λ _ s', ∃ m',
    s' = with_cfs c r (set_cfs_min_vruntime m' (rq_cfs r))
      (set_s_tasks (<[q := set_t_se (charged (rq_clock r) delta dw lw (t_se t)) t]> (s_tasks s)) s) ∧
    voff b (cfs_min_vruntime (rq_cfs r)) ≤ voff b m' < 2 ^ 62 ∧
    voff b m' = Z.max (voff b (cfs_min_vruntime (rq_cfs r)))
      (match head l with
       | Some x => Z.min (voff b (se_vruntime (t_se t)) + dw) (voff b (vr (nmap s) x))
       | None => voff b (se_vruntime (t_se t)) + dw
       end)) s.
Proof.
  intros Hr [Htree Hs Hleft Htasks Hmin] Hcurr Ht Hq Hw Hdelta Hdw Hdw0 Hlt.
  unfold update_curr. do 2 sstep. rewrite Hcurr. do 2 sstep. unfold __update_curr. rewrite <-Hdelta. do 8 sstep.
  pose proof (voff_add b _ _ Hw Hdw0 Hlt) as Hv'.
  assert (Hw' : in_window b (u64 (se_vruntime (t_se t) + dw))) by (unfold in_window; lia).
  unfold first_fair. do 3 sstep. rewrite Hleft.
  assert (Hfin : ∀ x, in_window b x →
    voff b x = match head l with
       | Some y => Z.min (voff b (se_vruntime (t_se t)) + dw) (voff b (vr (nmap s) y))
       | None => voff b (se_vruntime (t_se t)) + dw
       end →
    voff b (cfs_min_vruntime (rq_cfs r)) ≤ voff b (max_vruntime (cfs_min_vruntime (rq_cfs r)) x) < 2 ^ 62 ∧
    voff b (max_vruntime (cfs_min_vruntime (rq_cfs r)) x) = Z.max (voff b (cfs_min_vruntime (rq_cfs r)))
      (match head l with
       | Some y => Z.min (voff b (se_vruntime (t_se t)) + dw) (voff b (vr (nmap s) y))
       | None => voff b (se_vruntime (t_se t)) + dw
       end)).
  { intros x Hx Heq. destruct (voff_max b (cfs_min_vruntime (rq_cfs r)) x) as [Hmax Hmw]; [apply Hmin|done|].
    unfold in_window in Hmw. rewrite <-Heq. split; [lia|done]. }
  destruct (head l) as [x|] eqn:Hx.
  - assert (Hxl : x ∈ l) by (destruct l; [done|]; injection Hx as ->; by left).
    destruct (Htasks x Hxl) as (n & (Hn & _) & Hwx). apply nmap_lookup in Hn as (tx & Htx & <-).
    assert (Hne : x ≠ q) by (intros ->; done). do 6 sstep.
    change (se_vruntime (t_se (norm tx))) with (se_vruntime (t_se tx)) in Hwx.
    destruct (voff_min b (u64 (se_vruntime (t_se t) + dw)) (se_vruntime (t_se tx)) Hw' Hwx) as [Hmn Hmw].
    eexists. split; [|apply Hfin; [exact Hmw|]].
    + unfold with_cfs, set_s_rqs, set_s_tasks. cbn. by rewrite insert_insert_eq.
    + rewrite Hmn, Hv'. unfold vr. by rewrite (lookup_nmap _ _ _ Htx).
  - do 4 sstep.
    eexists. split; [|apply Hfin; [exact Hw'|done]].
    unfold with_cfs, set_s_rqs, set_s_tasks. cbn. by rewrite insert_insert_eq.
Qed.

End ops.
