(* ===== verification/SchedInv.v ===== *)
(** * The invariant of a processor's run queue

    What ties the two classes, the flags of the tasks and the counters of a
    run queue together, and the frame that lets an operation on one processor
    leave the others alone. *)
From stdpp Require Import gmap sorting.
From S2P Require Import Prelude Rbtree RbtreeSpec RbtreeRun FindBit Sched SchedRt SchedFair SchedCore.
From S2P Require Import SchedLogic SchedRtFacts SchedFairFacts.

(** ** Members and their weights *)

Definition is_on_rq (N : gmap loc task_struct) (p : loc) : bool :=
  match N !! p with Some t => se_on_rq (t_se t) | None => false end.
Definition wt (N : gmap loc task_struct) (p : loc) : Z :=
  match N !! p with Some t => lw_weight (se_load (t_se t)) | None => 0 end.
Definition sumw (N : gmap loc task_struct) (l : list loc) : Z := foldr Z.add 0 (wt N <$> l).

(** The running fair task, while it is on the queue. *)
Definition cfs_running (N : gmap loc task_struct) (cfs : cfs_rq) : list loc :=
  match cfs_curr cfs with Some p => if is_on_rq N p then [p] else [] | None => [] end.

Definition fair_members (N : gmap loc task_struct) (cfs : cfs_rq) (l : list loc) : list loc := l ++ cfs_running N cfs.
Definition members (N : gmap loc task_struct) (r : rq) (l : list loc) : list loc :=
  rt_members (rq_rt r) ++ fair_members N (rq_cfs r) l.

Lemma sumw_cons N x l : sumw N (x :: l) = wt N x + sumw N l.
Proof. done. Qed.

#[global] Instance sumw_perm N : Proper ((≡ₚ) ==> (=)) (sumw N).
Proof. induction 1; rewrite ?sumw_cons; lia. Qed.

Lemma sumw_app N l l' : sumw N (l ++ l') = sumw N l + sumw N l'.
Proof. induction l as [|x l IH]; [done|]. rewrite <-app_comm_cons, !sumw_cons, IH. lia. Qed.

Lemma sumw_ext N N' l : (∀ p, p ∈ l → wt N p = wt N' p) → sumw N l = sumw N' l.
Proof.
  induction l as [|x l IH]; intros H; [done|]. rewrite !sumw_cons, (H x) by by left. f_equal.
  apply IH. intros p Hp. apply H. by right.
Qed.

(** ** A task that may be scheduled *)

Definition MAX_WEIGHT : Z := 177522.

Record task_ok (t : task_struct) : Prop := mk_task_ok {
  to_prio : t_class t = RtClass → 0 ≤ t_prio t < MAX_RT_PRIO;
  to_weight : t_class t ≠ IdleClass → 0 < lw_weight (se_load (t_se t)) ≤ MAX_WEIGHT;
  to_idle : t_class t = IdleClass → se_on_rq (t_se t) = false
}.

(** ** The invariant of one processor; [l] are the tasks of its tree *)

Record cpu_inv (b : Z) (N : gmap loc task_struct) (h : heap) (c : nat) (r : rq) (l : list loc) : Prop := mk_cpu_inv {
  ci_cpu : rq_cpu r = c;
  ci_rt : rt_ok N c (rq_rt r);
  ci_tree : fair_tree b N h c (rq_cfs r) l;
  ci_curr : fair_curr b N c (rq_cfs r) l;
  (** queued tasks are marked, marked tasks are queued *)
  ci_queued : ∀ p, p ∈ rt_members (rq_rt r) ∨ p ∈ l → is_on_rq N p = true;
  ci_marked : ∀ p t, N !! p = Some t → t_cpu t = c → se_on_rq (t_se t) = true → p ∈ members N r l;
  ci_nr : cfs_nr_running (rq_cfs r) = Z.of_nat (length (fair_members N (rq_cfs r) l));
  ci_load : lw_weight (cfs_load (rq_cfs r)) = u64 (sumw N (fair_members N (rq_cfs r) l));
  ci_window : ∀ p t, N !! p = Some t → t_cpu t = c → in_window b (se_vruntime (t_se t))
}.

(** The counters of the run queue over both classes. *)
Definition counted (N : gmap loc task_struct) (r : rq) (l : list loc) : Prop :=
  rq_nr_running r = Z.of_nat (length (members N r l)) ∧ lw_weight (rq_load r) = u64 (sumw N (members N r l)).

Section members.
Context (b : Z) (N : gmap loc task_struct) (h : heap) (c : nat) (r : rq) (l : list loc).
Hypothesis H : cpu_inv b N h c r l.

Lemma cfs_running_elem p : p ∈ cfs_running N (rq_cfs r) ↔ cfs_curr (rq_cfs r) = Some p ∧ is_on_rq N p = true.
Proof.
  unfold cfs_running. destruct (cfs_curr (rq_cfs r)) as [q|]; [|by rewrite elem_of_nil; naive_solver].
  destruct (is_on_rq N q) eqn:Hq; rewrite ?list_elem_of_singleton, ?elem_of_nil; naive_solver congruence.
Qed.

Lemma member_placed p :
  p ∈ members N r l → ∃ t, N !! p = Some t ∧ t_cpu t = c ∧ t_class t ≠ IdleClass ∧ se_on_rq (t_se t) = true.
Proof.
  pose proof H as [_ Hrt Hft Hfc Hq _ _ _ _]. unfold members, fair_members. rewrite !elem_of_app, cfs_running_elem.
  assert (Hon : ∀ t, N !! p = Some t → is_on_rq N p = true → se_on_rq (t_se t) = true).
  { intros t Ht. unfold is_on_rq. by rewrite Ht. }
  intros [Hp|[Hp|[Hp Hpq]]].
  - destruct (rt_member_queue _ _ _ _ Hrt Hp) as (t & _ & _ & (Ht & Hk & Hc) & _). exists t.
    rewrite Hk. split_and!; [done..|]. apply Hon; [done|]. apply Hq. by left.
  - destruct (ft_tasks _ _ _ _ _ _ Hft p Hp) as (t & (Ht & Hk & Hc) & _). exists t.
    rewrite Hk. split_and!; [done..|]. apply Hon; [done|]. apply Hq. by right.
  - destruct (Hfc p Hp) as (_ & t & (Ht & Hk & Hc) & _). exists t. rewrite Hk. split_and!; [done..|]. by apply Hon.
Qed.

Lemma members_nodup : NoDup (members N r l).
Proof.
  pose proof H as [_ Hrt Hft Hfc _ _ _ _ _]. unfold members, fair_members.
  assert (Hcl : ∀ p, p ∈ rt_members (rq_rt r) → p ∈ l ∨ p ∈ cfs_running N (rq_cfs r) → False).
  { intros p Hp Hl. destruct (rt_member_queue _ _ _ _ Hrt Hp) as (t & _ & _ & (Ht & Hk & _) & _).
    assert (∃ t', placed N c FairClass p t') as (t' & Ht' & Hk' & _).
    { destruct Hl as [Hl|[Hl _]%cfs_running_elem].
      - destruct (ft_tasks _ _ _ _ _ _ Hft p Hl) as (t' & ? & _). eauto.
      - destruct (Hfc p Hl) as (_ & t' & ? & _). eauto. }
    rewrite Ht in Ht'. simplify_eq. congruence. }
  apply NoDup_app. split_and!; [apply (rt_nodup _ _ _ Hrt)| |apply NoDup_app; split_and!].
  - intros p Hp [Hl|Hl]%elem_of_app; eapply Hcl; eauto.
  - apply (tree_at_nodup _ _ _ (ft_tree _ _ _ _ _ _ Hft)).
  - intros p Hp [Hl _]%cfs_running_elem. by destruct (Hfc p Hl).
  - unfold cfs_running. destruct (cfs_curr (rq_cfs r)); [|constructor]. destruct (is_on_rq _ _); [|constructor].
    apply NoDup_singleton.
Qed.

(** There are no more members than tasks. *)
Lemma members_length : (length (members N r l) ≤ size N)%nat.
Proof.
  rewrite <-size_dom. pose proof members_nodup as Hnd.
  rewrite <-(size_list_to_set (C := gset loc)) by done. apply subseteq_size.
  intros p [t Hp]%elem_of_list_to_set%member_placed. apply elem_of_dom. destruct Hp as (Hp & _). eauto.
Qed.

Lemma tree_length : (length l ≤ size N)%nat.
Proof.
  etransitivity; [|apply members_length]. unfold members, fair_members. rewrite !length_app. lia.
Qed.

End members.

(** ** What an operation on one processor leaves alone *)

(** A task without its mark and its virtual run time. *)
Definition skel (t : task_struct) : task_struct :=
  set_t_se (mk_se (mk_lw (lw_weight (se_load (t_se t))) 0) false 0 0 0 0) (norm t).

Record local (c : nat) (s s' : sched) (r r' : rq) : Prop := mk_local {
  lo_rqs : s_rqs s' = <[c := r']> (s_rqs s);
  lo_rq : r' = set_rq_rt (rq_rt r') (set_rq_cfs (rq_cfs r') r);
  lo_root : cfs_tasks_timeline (rq_cfs r') = cfs_tasks_timeline (rq_cfs r);
  lo_skel : skel <$> s_tasks s' = skel <$> s_tasks s;
  lo_flags : flags s' = flags s;
  (** tasks of other processors, and cells that are neither the root nor tasks
      of this one *)
  lo_others : ∀ c', c' ≠ c → same_on c' (nmap s) (nmap s');
  lo_heap : ∀ a, a ≠ cfs_tasks_timeline (rq_cfs r) → (∀ t, nmap s !! a = Some t → t_cpu t ≠ c) →
    is_Some (s_nodes s !! a) → s_nodes s' !! a = s_nodes s !! a;
  lo_nodes : ∀ a n, s_nodes s !! a = Some (CNode n) → ∃ n', s_nodes s' !! a = Some (CNode n')
}.

Lemma local_refl c s r : s_rqs s !! c = Some r → local c s s r r.
Proof.
  intros Hr. constructor; try done.
  - by rewrite insert_id.
  - by destruct r.
  - eauto.
Qed.

Lemma skel_norm t : skel (norm t) = skel t.
Proof. done. Qed.

Lemma skel_lookup s s' p t :
  skel <$> s_tasks s' = skel <$> s_tasks s → s_tasks s !! p = Some t →
  ∃ t', s_tasks s' !! p = Some t' ∧ skel t' = skel t.
Proof.
  intros Hs Ht. assert (Hp : (skel <$> s_tasks s) !! p = Some (skel t)) by by rewrite lookup_fmap, Ht.
  rewrite <-Hs, lookup_fmap in Hp. destruct (s_tasks s' !! p) as [t'|]; [|done]. simpl in Hp. apply (inj Some) in Hp. eauto.
Qed.

Lemma skel_fields t t' :
  skel t = skel t' →
  t_rt_priority t = t_rt_priority t' ∧ t_prio t = t_prio t' ∧ t_static_prio t = t_static_prio t' ∧ t_class t = t_class t' ∧
  t_cpu t = t_cpu t' ∧ t_policy t = t_policy t' ∧ t_cpus_allowed t = t_cpus_allowed t' ∧
  lw_weight (se_load (t_se t)) = lw_weight (se_load (t_se t')) ∧ t_sigpending t = t_sigpending t'.
Proof. by intros [=]. Qed.

Lemma local_trans c s1 s2 s3 r1 r2 r3 : local c s1 s2 r1 r2 → local c s2 s3 r2 r3 → local c s1 s3 r1 r3.
Proof.
  intros [Ha1 Ha2 Ha3 Ha4 Ha5 Ha6 Ha7 Ha8] [Hb1 Hb2 Hb3 Hb4 Hb5 Hb6 Hb7 Hb8]. constructor.
  - rewrite Hb1, Ha1. apply insert_insert_eq.
  - rewrite Hb2. rewrite Ha2. done.
  - congruence.
  - congruence.
  - congruence.
  - intros c' Hc' p t Ht. rewrite (Ha6 c' Hc' p t Ht). exact (Hb6 c' Hc' p t Ht).
  - intros a Hr Ht Hs. pose proof (Ha7 a Hr Ht Hs) as Heq. rewrite <-Heq. apply Hb7; [congruence| |by rewrite Heq].
    intros t' Ht' Hct'. apply nmap_lookup in Ht' as (u & Hu & <-).
    destruct (skel_lookup s2 s1 a u (eq_sym Ha4) Hu) as (u0 & Hu0 & Hsk).
    apply (Ht (norm u0)); [by apply lookup_nmap|]. destruct (skel_fields _ _ Hsk) as (_ & _ & _ & _ & Hcpu & _).
    cbn in *. congruence.
  - intros a n Hn. destruct (Ha8 a n Hn) as [n' Hn']. by apply (Hb8 a n').
Qed.

(** Bookkeeping is local. *)
Lemma quiet_local c s s' r : s_rqs s !! c = Some r → quiet s s' → local c s s' r r.
Proof.
  intros Hr (Hn & Hf & Hh & Hrqs & _). constructor; rewrite ?Hh, ?Hrqs; try done.
  - by rewrite insert_id.
  - by destruct r.
  - assert (Hsk : ∀ u, skel <$> s_tasks u = skel <$> nmap u).
    { intros u. unfold nmap. rewrite <-map_fmap_compose. apply map_fmap_ext. by intros. }
    by rewrite !Hsk, Hn.
  - intros c' _. by rewrite Hn.
  - eauto.
Qed.
