(* ===== verification/SchedOps.v ===== *)
(** * Queueing on one processor

    The operations of both classes seen at the invariant of the processor:
    charging the running task, and putting a task on the queue and taking it
    off. *)
From stdpp Require Import gmap sorting.
From S2P Require Import Prelude Rbtree RbtreeSpec RbtreeRun RbtreeKeyed FindBit Sched SchedRt SchedFair SchedCore.
From S2P Require Import SchedLogic SchedRtFacts SchedFairFacts SchedInv.

(** ** Changes that the queues do not see *)

(** The same tasks up to virtual run times. *)
Definition same_core (N N' : gmap loc task_struct) : Prop := ∀ p, set_vr 0 <$> N !! p = set_vr 0 <$> N' !! p.

Lemma same_core_lookup N N' p t :
  same_core N N' → N !! p = Some t → ∃ t', N' !! p = Some t' ∧ set_vr 0 t = set_vr 0 t'.
Proof.
  intros HN Ht. specialize (HN p). rewrite Ht in HN. destruct (N' !! p) as [t'|]; [|done].
  simpl in HN. apply (inj Some) in HN. eauto.
Qed.

Lemma same_core_sym N N' : same_core N N' → same_core N' N.
Proof. intros H p. symmetry. apply H. Qed.

Lemma core_fields t t' :
  set_vr 0 t = set_vr 0 t' →
  t_prio t = t_prio t' ∧ t_class t = t_class t' ∧ t_cpu t = t_cpu t' ∧ se_on_rq (t_se t) = se_on_rq (t_se t') ∧
  lw_weight (se_load (t_se t)) = lw_weight (se_load (t_se t')).
Proof.
  intros H. split_and!.
  - exact (f_equal t_prio H).
  - exact (f_equal t_class H).
  - exact (f_equal t_cpu H).
  - exact (f_equal (λ t, se_on_rq (t_se t)) H).
  - exact (f_equal (λ t, lw_weight (se_load (t_se t))) H).
Qed.

Lemma same_core_on_rq N N' p : same_core N N' → is_on_rq N' p = is_on_rq N p.
Proof.
  intros HN. unfold is_on_rq. destruct (N !! p) as [t|] eqn:Ht.
  - destruct (same_core_lookup _ _ _ _ HN Ht) as (t' & -> & Heq). by destruct (core_fields _ _ Heq) as (_ & _ & _ & -> & _).
  - destruct (N' !! p) as [t'|] eqn:Ht'; [|done].
    destruct (same_core_lookup _ _ _ _ (same_core_sym _ _ HN) Ht') as (t & ? & _). congruence.
Qed.

Lemma same_core_wt N N' p : same_core N N' → wt N' p = wt N p.
Proof.
  intros HN. unfold wt. destruct (N !! p) as [t|] eqn:Ht.
  - destruct (same_core_lookup _ _ _ _ HN Ht) as (t' & -> & Heq). by destruct (core_fields _ _ Heq) as (_ & _ & _ & _ & ->).
  - destruct (N' !! p) as [t'|] eqn:Ht'; [|done].
    destruct (same_core_lookup _ _ _ _ (same_core_sym _ _ HN) Ht') as (t & ? & _). congruence.
Qed.

Lemma same_core_running N N' cfs : same_core N N' → cfs_running N' cfs = cfs_running N cfs.
Proof. intros HN. unfold cfs_running. destruct (cfs_curr cfs); [|done]. by rewrite (same_core_on_rq _ _ _ HN). Qed.

Lemma same_core_sumw N N' l : same_core N N' → sumw N' l = sumw N l.
Proof. intros HN. apply sumw_ext. intros p _. by apply same_core_wt. Qed.

Lemma same_core_placed N N' c k p t :
  same_core N N' → placed N c k p t → ∃ t', placed N' c k p t' ∧ t_prio t' = t_prio t ∧ N' !! p = Some t'.
Proof.
  intros HN (Ht & Hk & Hc). destruct (same_core_lookup _ _ _ _ HN Ht) as (t' & Ht' & Heq).
  destruct (core_fields _ _ Heq) as (Hp & Hk' & Hc' & _). exists t'. split_and!; [split_and!|..]; congruence.
Qed.

(** Virtual run times may change outside the tree. *)
Lemma cpu_inv_core b N N' h c r l :
  same_core N N' → (∀ p t, p ∈ l → N !! p = Some t → N' !! p = Some t) →
  (∀ p t, N' !! p = Some t → t_cpu t = c → in_window b (se_vruntime (t_se t))) →
  cpu_inv b N h c r l → cpu_inv b N' h c r l.
Proof.
  intros HN Hl Hw [Hcpu Hrt Hft Hfc Hq Hm Hnr Hld _].
  assert (Hrun : cfs_running N' (rq_cfs r) = cfs_running N (rq_cfs r)) by by apply same_core_running.
  assert (Hfm : fair_members N' (rq_cfs r) l = fair_members N (rq_cfs r) l) by (unfold fair_members; by rewrite Hrun).
  constructor; try done.
  - destruct Hrt. constructor; try done. intros i li p Hi Hp. destruct (rt_tasks i li p Hi Hp) as (t & Ht & Hprio).
    destruct (same_core_placed _ _ _ _ _ _ HN Ht) as (t' & Ht' & Hprio' & _). exists t'. split; [done|congruence].
  - eapply fair_tree_tasks; [exact Hl|done].
  - intros p Hp. destruct (Hfc p Hp) as (Hnl & t & Ht & Hwt). split; [done|].
    destruct (same_core_placed _ _ _ _ _ _ HN Ht) as (t' & Ht' & _ & Hlook). exists t'. split; [done|].
    apply (Hw p); [done|]. apply Ht'.
  - intros p Hp. rewrite (same_core_on_rq _ _ _ HN). by apply Hq.
  - intros p t' Ht' Hc Hon. destruct (same_core_lookup _ _ _ _ (same_core_sym _ _ HN) Ht') as (t & Ht & Heq).
    destruct (core_fields _ _ Heq) as (_ & _ & Hc' & Hon' & _). unfold members. rewrite Hfm.
    apply (Hm p t Ht); congruence.
  - by rewrite Hfm.
  - rewrite Hfm. by rewrite (same_core_sumw _ _ _ HN).
Qed.

(** Other fields of the run queue. *)
Lemma cpu_inv_fields b N h c r r' l :
  cpu_inv b N h c r l → rq_cpu r' = rq_cpu r → rq_rt r' = rq_rt r →
  cfs_tasks_timeline (rq_cfs r') = cfs_tasks_timeline (rq_cfs r) → cfs_rb_leftmost (rq_cfs r') = cfs_rb_leftmost (rq_cfs r) →
  2 ^ 32 ≤ voff b (cfs_min_vruntime (rq_cfs r')) < 2 ^ 62 → cfs_curr (rq_cfs r') = cfs_curr (rq_cfs r) →
  cfs_nr_running (rq_cfs r') = cfs_nr_running (rq_cfs r) → lw_weight (cfs_load (rq_cfs r')) = lw_weight (cfs_load (rq_cfs r)) →
  cpu_inv b N h c r' l.
Proof.
  intros [Hcpu Hrt Hft Hfc Hq Hm Hnr Hld Hw] H1 H2 H3 H4 H5 H6 H7 H8.
  assert (Hfm : fair_members N (rq_cfs r') l = fair_members N (rq_cfs r) l).
  { unfold fair_members, cfs_running. by rewrite H6. }
  constructor; rewrite ?Hfm, ?H2, ?H7, ?H8; try done.
  - congruence.
  - by eapply fair_tree_fields.
  - unfold fair_curr. by rewrite H6.
  - unfold members. by rewrite Hfm, H2.
Qed.

Lemma same_core_insert N p t v : N !! p = Some t → same_core N (<[p := set_vr v t]> N).
Proof.
  intros Ht q. destruct (decide (q = p)) as [->|Hne].
  - rewrite lookup_insert_eq, Ht. done.
  - by rewrite lookup_insert_ne.
Qed.

(** ** Charging the running task *)

(** Room in the window for [k] more charges. *)
Definition budget (b : Z) (r : rq) (t : task_struct) (k : Z) : Prop :=
  voff b (se_vruntime (t_se t)) + Z.max (u64 (rq_clock r - se_exec_start (t_se t))) (2 ^ 48) + k * 2 ^ 48 < 2 ^ 62.

Definition curr_budget (b : Z) (c : nat) (s : sched) (k : Z) : Prop :=
  ∀ r q t, s_rqs s !! c = Some r → cfs_curr (rq_cfs r) = Some q → s_tasks s !! q = Some t → budget b r t k.

Section charge.
Context (b : Z) (c : nat).

(** The effect of an operation that only charges. *)
Record charge_post (s s' : sched) (r r' : rq) (l : list loc) (k : Z) : Prop := mk_charge {
  cp_local : local c s s' r r';
  cp_inv : cpu_inv b (nmap s') (s_nodes s') c r' l;
  cp_core : same_core (nmap s) (nmap s');
  cp_nodes : s_nodes s' = s_nodes s;
  cp_rt : rq_rt r' = rq_rt r;
  cp_curr : cfs_curr (rq_cfs r') = cfs_curr (rq_cfs r);
  cp_others : ∀ p, cfs_curr (rq_cfs r) ≠ Some p → s_tasks s' !! p = s_tasks s !! p;
  cp_budget : curr_budget b c s' k;
  cp_min : voff b (cfs_min_vruntime (rq_cfs r)) ≤ voff b (cfs_min_vruntime (rq_cfs r'))
}.

Lemma update_curr_charge s r l k :
  s_rqs s !! c = Some r → cpu_inv b (nmap s) (s_nodes s) c r l →
  (∀ p t, s_tasks s !! p = Some t → task_ok t) → 0 ≤ k → curr_budget b c s (1 + k) →
  runs (update_curr c) (λ _ s', ∃ r', charge_post s s' r r' l k) s.
Proof.
  intros Hr Hinv Htok Hk Hbud. pose proof Hinv as [Hcpu Hrt Hft Hfc Hq Hm Hnr Hld Hw].
  destruct (cfs_curr (rq_cfs r)) as [q|] eqn:Hcurr; cycle 1.
  { unfold update_curr. do 2 sstep. rewrite Hcurr. sstep. exists r. constructor; try done.
    - by apply local_refl.
    - intros r0 q t Hr0 Hq0. rewrite Hr in Hr0. simplify_eq. }
  destruct (Hfc q Hcurr) as (Hql & n & (Hn & Hkn & Hcn) & Hwn). apply nmap_lookup in Hn as (t & Ht & <-).
  change (se_vruntime (t_se (norm t))) with (se_vruntime (t_se t)) in Hwn.
  change (t_cpu (norm t)) with (t_cpu t) in Hcn. change (t_class (norm t)) with (t_class t) in Hkn.
  pose proof (Hbud r q t Hr Hcurr Ht) as Hb. unfold budget in Hb.
  set (delta := u64 (rq_clock r - se_exec_start (t_se t))) in *. pose proof (u64_bound (rq_clock r - se_exec_start (t_se t))) as Hdb.
  fold delta in Hdb. destruct (to_weight _ (Htok q t Ht) ltac:(congruence)) as [Hwt _].
  destruct (delta_exec_weighted_run delta (t_se t) Hwt ltac:(lia)) as (dw & lw & Hdw & Hlw & Hdwb).
  eapply runs_mono.
  { eapply (update_curr_runs b s c r q t l delta dw lw); try done; lia. }
  intros [] s' (m' & -> & Hm' & _).
  set (t' := set_t_se (charged (rq_clock r) delta dw lw (t_se t)) t).
  set (v' := u64 (se_vruntime (t_se t) + dw)).
  assert (Hnt' : norm t' = set_vr v' (norm t)).
  { unfold norm, t', set_vr, charged, norm_se. cbn. by rewrite Hlw. }
  assert (Hv' : voff b v' = voff b (se_vruntime (t_se t)) + dw) by (apply voff_add; [done|lia|lia]).
  set (s' := with_cfs _ _ _ _).
  assert (HN : nmap s' = <[q := set_vr v' (norm t)]> (nmap s)).
  { unfold nmap, s', with_cfs. cbn. by rewrite fmap_insert, Hnt'. }
  pose proof (lookup_nmap _ _ _ Ht) as Hnq.
  assert (Hcore : same_core (nmap s) (nmap s')) by (rewrite HN; by apply same_core_insert).
  assert (Hcpu' : cpu_inv b (nmap s') (s_nodes s') c (set_rq_cfs (set_cfs_min_vruntime m' (rq_cfs r)) r) l).
  { apply (cpu_inv_fields b _ _ c r); [|reflexivity..| |reflexivity|reflexivity|reflexivity].
    - eapply cpu_inv_core; [exact Hcore| | |exact Hinv].
      + intros p u Hp Hu. rewrite HN, lookup_insert_ne by (by intros <-). done.
      + intros p u Hu Hcu. rewrite HN in Hu. destruct (decide (p = q)) as [->|Hne].
        * rewrite lookup_insert_eq in Hu. injection Hu as <-. unfold in_window. cbn. fold v'. lia.
        * rewrite lookup_insert_ne in Hu by done. by apply (Hw p).
    - pose proof (ft_min _ _ _ _ _ _ Hft). cbn. lia. }
  exists (set_rq_cfs (set_cfs_min_vruntime m' (rq_cfs r)) r). constructor; try done.
  - constructor; try done.
    + cbn. rewrite fmap_insert. apply insert_id. rewrite lookup_fmap, Ht. simpl. f_equal.
      unfold skel, t', charged, norm, norm_se. cbn. by rewrite Hlw.
    + exact (flags_quiet s q t t' Ht eq_refl).
    + intros c' Hc' p u Hu. rewrite HN. destruct (decide (p = q)) as [->|Hne].
      * rewrite lookup_insert_eq, Hnq. split; intros [= <-]; cbn in Hu; congruence.
      * by rewrite lookup_insert_ne.
    + eauto.
  - intros p Hp. cbn. rewrite lookup_insert_ne; [done|]. by intros ->.
  - intros r0 q0 t0 Hr0 Hq0 Ht0. cbn in Hr0, Ht0. rewrite lookup_insert_eq in Hr0. injection Hr0 as <-. cbn in Hq0.
    rewrite Hcurr in Hq0. injection Hq0 as <-. rewrite lookup_insert_eq in Ht0. injection Ht0 as <-.
    unfold budget. cbn. rewrite Z.sub_diag. change (u64 0) with 0. fold v'. lia.
  - cbn. lia.
Qed.

End charge.

(** ** Marking a task *)

Definition set_on (on : bool) (t : task_struct) : task_struct := set_t_se (set_se_on_rq on (t_se t)) t.

Lemma norm_set_on on t : norm (set_on on t) = set_on on (norm t).
Proof. done. Qed.

Section mark.
Context (N : gmap loc task_struct) (p : loc) (n : task_struct) (on : bool).
Hypothesis Hp : N !! p = Some n.

Lemma mark_lookup q t : N !! q = Some t → ∃ t', <[p := set_on on n]> N !! q = Some t' ∧ t_class t' = t_class t ∧
  t_cpu t' = t_cpu t ∧ t_prio t' = t_prio t ∧ se_vruntime (t_se t') = se_vruntime (t_se t) ∧
  lw_weight (se_load (t_se t')) = lw_weight (se_load (t_se t)).
Proof.
  intros Hq. destruct (decide (q = p)) as [->|Hne].
  - rewrite lookup_insert_eq. rewrite Hp in Hq. injection Hq as <-. eexists. by split_and!.
  - rewrite lookup_insert_ne by done. eauto 10.
Qed.

Lemma mark_lookup_inv q t' : <[p := set_on on n]> N !! q = Some t' → ∃ t, N !! q = Some t ∧ t_class t' = t_class t ∧
  t_cpu t' = t_cpu t ∧ t_prio t' = t_prio t ∧ se_vruntime (t_se t') = se_vruntime (t_se t) ∧
  se_on_rq (t_se t') = if decide (q = p) then on else se_on_rq (t_se t).
Proof.
  intros Hq. destruct (decide (q = p)) as [->|Hne].
  - rewrite lookup_insert_eq in Hq. injection Hq as <-. exists n. by split_and!.
  - rewrite lookup_insert_ne in Hq by done. eauto 10.
Qed.

Lemma mark_on_rq q : is_on_rq (<[p := set_on on n]> N) q = if decide (q = p) then on else is_on_rq N q.
Proof.
  unfold is_on_rq. case_decide as Hq; [subst; by rewrite lookup_insert_eq|by rewrite lookup_insert_ne].
Qed.

Lemma mark_wt q : wt (<[p := set_on on n]> N) q = wt N q.
Proof.
  unfold wt. destruct (decide (q = p)) as [->|Hne]; [by rewrite lookup_insert_eq, Hp|by rewrite lookup_insert_ne].
Qed.

Lemma mark_sumw l : sumw (<[p := set_on on n]> N) l = sumw N l.
Proof. apply sumw_ext. intros q _. apply mark_wt. Qed.

Lemma mark_placed c k q t : placed N c k q t → ∃ t', placed (<[p := set_on on n]> N) c k q t' ∧
  t_prio t' = t_prio t ∧ se_vruntime (t_se t') = se_vruntime (t_se t).
Proof.
  intros (Hq & Hk & Hc). destruct (mark_lookup q t Hq) as (t' & Ht' & Hk' & Hc' & Hpr & Hv & _).
  exists t'. split_and!; [split_and!|..]; congruence.
Qed.

Lemma mark_rt_ok c rt : rt_ok N c rt → rt_ok (<[p := set_on on n]> N) c rt.
Proof.
  intros []. constructor; try done. intros i l q Hi Hq. destruct (rt_tasks i l q Hi Hq) as (t & Ht & Hpr).
  destruct (mark_placed _ _ _ _ Ht) as (t' & Ht' & Hpr' & _). exists t'. split; [done|congruence].
Qed.

Lemma mark_fair_tree b h c cfs l : fair_tree b N h c cfs l → fair_tree b (<[p := set_on on n]> N) h c cfs l.
Proof.
  intros [H1 H2 H3 H4 H5]. constructor; try done.
  - assert (Hvr : ∀ q, vr (<[p := set_on on n]> N) q = vr N q).
    { intros q. unfold vr. destruct (decide (q = p)) as [->|]; [by rewrite lookup_insert_eq, Hp|by rewrite lookup_insert_ne]. }
    eapply sorted_ext; [|exact H2]. intros x y _ _. unfold fair_le. by rewrite !Hvr.
  - intros q Hq. destruct (H4 q Hq) as (t & Ht & Hw). destruct (mark_placed _ _ _ _ Ht) as (t' & Ht' & _ & Hv).
    exists t'. split; [done|]. by rewrite Hv.
Qed.

Lemma mark_fair_curr b c cfs l : fair_curr b N c cfs l → fair_curr b (<[p := set_on on n]> N) c cfs l.
Proof.
  intros H q Hq. destruct (H q Hq) as (Hl & t & Ht & Hw). split; [done|].
  destruct (mark_placed _ _ _ _ Ht) as (t' & Ht' & _ & Hv). exists t'. split; [done|]. by rewrite Hv.
Qed.

Lemma mark_running cfs : cfs_curr cfs ≠ Some p → cfs_running (<[p := set_on on n]> N) cfs = cfs_running N cfs.
Proof.
  intros Hne. unfold cfs_running. destruct (cfs_curr cfs) as [q|]; [|done].
  rewrite mark_on_rq, decide_False by congruence. done.
Qed.

End mark.

(** ** Putting on and taking off a queue *)

Record queue_post (b : Z) (c : nat) (p : loc) (on : bool) (s s' : sched) (r r' : rq) (l l' : list loc) (k : Z) : Prop := mk_queue_post {
  qp_local : local c s s' r r';
  qp_inv : cpu_inv b (nmap s') (s_nodes s') c r' l';
  qp_on : ∀ q, is_on_rq (nmap s') q = if decide (q = p) then on else is_on_rq (nmap s) q;
  qp_members : if on then members (nmap s') r' l' ≡ₚ p :: members (nmap s) r l
               else members (nmap s) r l ≡ₚ p :: members (nmap s') r' l';
  qp_curr : cfs_curr (rq_cfs r') = cfs_curr (rq_cfs r);
  qp_budget : curr_budget b c s' k
}.

Lemma runs_set_on s p t on Q :
  s_tasks s !! p = Some t → Q tt (set_s_tasks (<[p := set_on on t]> (s_tasks s)) s) → runs (mod_se p (set_se_on_rq on)) Q s.
Proof. intros Ht HQ. by eapply runs_mod_se. Qed.

Lemma nmap_set_on s p t on :
  nmap (set_s_tasks (<[p := set_on on t]> (s_tasks s)) s) = <[p := set_on on (norm t)]> (nmap s).
Proof. unfold nmap. cbn. by rewrite fmap_insert. Qed.

(** Marking is local. *)
Lemma set_on_local c s r p t on :
  s_rqs s !! c = Some r → s_tasks s !! p = Some t → t_cpu t = c →
  local c s (set_s_tasks (<[p := set_on on t]> (s_tasks s)) s) r r.
Proof.
  intros Hr Ht Hc. constructor; try done.
  - cbn. by rewrite insert_id.
  - by destruct r.
  - cbn. rewrite fmap_insert. apply insert_id. by rewrite lookup_fmap, Ht.
  - by apply (flags_quiet s p t).
  - intros c' Hc' q u Hu. rewrite nmap_set_on. destruct (decide (q = p)) as [->|Hne]; [|by rewrite lookup_insert_ne].
    rewrite lookup_insert_eq, (lookup_nmap _ _ _ Ht). split; intros [= <-]; cbn in Hu; congruence.
  - eauto.
Qed.

Lemma with_rt_local c s r rt : s_rqs s !! c = Some r → local c s (with_rt c r rt s) r (set_rq_rt rt r).
Proof. intros Hr. constructor; try done. eauto. Qed.

Lemma curr_budget_mark b c s p t on k r r' :
  s_rqs s !! c = Some r → s_tasks s !! p = Some t → curr_budget b c s k →
  cfs_curr (rq_cfs r') = cfs_curr (rq_cfs r) → rq_clock r' = rq_clock r →
  curr_budget b c (set_s_tasks (<[p := set_on on t]> (s_tasks s)) (set_s_rqs (<[c := r']> (s_rqs s)) s)) k.
Proof.
  intros Hr Ht Hb Hcurr Hclk r0 q u Hr0 Hq Hu. cbn in *. rewrite lookup_insert_eq in Hr0. injection Hr0 as <-.
  unfold budget. rewrite Hclk. destruct (decide (q = p)) as [->|Hne].
  - rewrite lookup_insert_eq in Hu. injection Hu as <-. apply (Hb r p t Hr); [congruence|done].
  - rewrite lookup_insert_ne in Hu by done. apply (Hb r q u Hr); [congruence|done].
Qed.

(** ** Real-time tasks *)

(** A real-time task is neither in the tree nor the running fair task. *)
Lemma rt_not_fair b N h c r l p n :
  cpu_inv b N h c r l → N !! p = Some n → t_class n = RtClass → p ∉ l ∧ cfs_curr (rq_cfs r) ≠ Some p.
Proof.
  intros [_ _ Hft Hfc _ _ _ _ _] Hp Hk. split.
  - intros Hl. destruct (ft_tasks _ _ _ _ _ _ Hft p Hl) as (t & (Ht & Hkt & _) & _). congruence.
  - intros Hc. destruct (Hfc p Hc) as (_ & t & (Ht & Hkt & _) & _). congruence.
Qed.

(** Change the queues of the real-time class by one task, and its mark. *)
Lemma cpu_inv_rt_step b N h c r l p n rt' (on : bool) :
  cpu_inv b N h c r l → N !! p = Some n → t_class n = RtClass → t_cpu n = c → rt_ok N c rt' →
  (if on then rt_members rt' ≡ₚ p :: rt_members (rq_rt r) else rt_members (rq_rt r) ≡ₚ p :: rt_members rt') →
  NoDup (rt_members rt') → (on = false → p ∉ rt_members rt') →
  cpu_inv b (<[p := set_on on n]> N) h c (set_rq_rt rt' r) l ∧
  (if on then members (<[p := set_on on n]> N) (set_rq_rt rt' r) l ≡ₚ p :: members N r l
   else members N r l ≡ₚ p :: members (<[p := set_on on n]> N) (set_rq_rt rt' r) l).
Proof.
  intros Hinv Hp Hk Hc Hrt' Hperm Hnd Hout. destruct (rt_not_fair _ _ _ _ _ _ _ _ Hinv Hp Hk) as [Hpl Hpc].
  pose proof Hinv as [Hcpu Hrt Hft Hfc Hq Hm Hnr Hld Hw].
  assert (Hfm : fair_members (<[p := set_on on n]> N) (rq_cfs r) l = fair_members N (rq_cfs r) l).
  { unfold fair_members. by rewrite mark_running. }
  assert (Hmem : if on then members (<[p := set_on on n]> N) (set_rq_rt rt' r) l ≡ₚ p :: members N r l
    else members N r l ≡ₚ p :: members (<[p := set_on on n]> N) (set_rq_rt rt' r) l).
  { unfold members. cbn. rewrite Hfm. destruct on; rewrite Hperm; done. }
  split; [|done]. constructor; cbn; try done.
  - by apply mark_rt_ok.
  - by apply mark_fair_tree.
  - by apply mark_fair_curr.
  - intros q Hql. rewrite mark_on_rq. case_decide as Hqp.
    + subst q. destruct Hql as [Hql|Hql]; [|done]. destruct on; [done|]. by destruct (Hout eq_refl).
    + apply Hq. destruct Hql as [Hql|Hql]; [left|by right]. destruct on; rewrite Hperm in *; set_solver.
  - intros q t Ht Hct Hon. apply mark_lookup_inv in Ht as (u & Hu & _ & Hcu & _ & _ & Hon'); [|done].
    rewrite Hon' in Hon. case_decide as Hqp.
    + subst q. destruct on; [|done]. rewrite Hmem. by left.
    + assert (Hqm : q ∈ members N r l) by (apply (Hm q u Hu); congruence).
      destruct on; rewrite Hmem in *; set_solver.
  - by rewrite Hfm.
  - by rewrite Hfm, mark_sumw.
  - intros q t Ht Hct. apply mark_lookup_inv in Ht as (u & Hu & _ & Hcu & _ & Hv & _); [|done].
    rewrite Hv. apply (Hw q u Hu). congruence.
Qed.

Lemma enqueue_members rt rt' i l p :
  rt_queue rt !! i = Some l → rt_queue rt' = <[i := l ++ [p]]> (rt_queue rt) → rt_members rt' ≡ₚ p :: rt_members rt.
Proof.
  intros Hi Heq. unfold rt_members. rewrite Heq, (concat_insert _ _ _ _ Hi), (concat_split _ _ _ Hi).
  rewrite <-(app_assoc l). simpl. rewrite !app_assoc. symmetry. rewrite <-app_assoc. simpl. 
  rewrite app_assoc. apply Permutation_middle.
Qed.

Lemma filter_perm (l : list loc) p : NoDup l → p ∈ l → l ≡ₚ p :: filter (.≠ p) l.
Proof.
  intros Hnd Hp. apply list_elem_of_split in Hp as (l1 & l2 & ->). rewrite filter_ne_split by done.
  by rewrite Permutation_middle.
Qed.

Lemma dequeue_members rt rt' i l p :
  NoDup l → p ∈ l → rt_queue rt !! i = Some l → rt_queue rt' = <[i := filter (.≠ p) l]> (rt_queue rt) →
  rt_members rt ≡ₚ p :: rt_members rt'.
Proof.
  intros Hnd Hp Hi Heq. unfold rt_members. rewrite Heq, (concat_insert _ _ _ _ Hi), (concat_split _ _ _ Hi).
  rewrite (filter_perm l p Hnd Hp) at 1. rewrite <-app_comm_cons. symmetry. apply Permutation_middle.
Qed.

Section rt.
Context (b : Z) (me : nat) (now : Z) (tn : tunables) (fuel : nat).

Lemma enqueue_task_rt_post s c r l p t w k :
  s_rqs s !! c = Some r → cpu_inv b (nmap s) (s_nodes s) c r l → task_ok t →
  s_tasks s !! p = Some t → t_class t = RtClass → t_cpu t = c → se_on_rq (t_se t) = false →
  curr_budget b c s k →
  runs (enqueue_task tn fuel c p w) (λ _ s', ∃ r', queue_post b c p true s s' r r' l l k) s.
Proof.
  intros Hr Hinv Htok Ht Hk Hc Hon Hb. pose proof (lookup_nmap _ _ _ Ht) as Hn.
  assert (Hpm : p ∉ rt_members (rq_rt r)).
  { intros Hpm. pose proof (ci_queued _ _ _ _ _ _ Hinv p (or_introl Hpm)) as Hq. unfold is_on_rq in Hq.
    rewrite Hn in Hq. cbn in Hq. congruence. }
  unfold enqueue_task. do 3 sstep. rewrite Hk. cbn [class_enqueue_task].
  eapply runs_mono; [eapply (enqueue_task_rt_runs s c r p t w); try done; [by apply ci_rt in Hinv|by apply (to_prio _ Htok)]|].
  intros [] s1 (i & q & rt' & Hi & Hq & Hqueue & Hok' & ->).
  eapply (runs_set_on _ p t); [done|]. exists (set_rq_rt rt' r).
  pose proof (enqueue_members _ _ _ _ _ Hq Hqueue) as Hperm.
  destruct (cpu_inv_rt_step b (nmap s) (s_nodes s) c r l p (norm t) rt' true Hinv Hn Hk Hc Hok' Hperm) as [Hinv' Hmem'];
    [apply (rt_nodup _ _ _ Hok')|done|].
  pose proof (nmap_set_on (with_rt c r rt' s) p t true) as HN. change (nmap (with_rt c r rt' s)) with (nmap s) in HN.
  constructor; rewrite ?HN; try done.
  - eapply local_trans; [by apply with_rt_local|]. apply (set_on_local c (with_rt c r rt' s)); [|done|done].
    cbn. by rewrite lookup_insert_eq.
  - intros q0. apply mark_on_rq.
  - unfold with_rt. apply (curr_budget_mark b c s p t true k r); done.
Qed.

Lemma curr_budget_starts c s s1 k :
  quiet s s1 → starts c s s1 → curr_budget b c s k → curr_budget b c s1 k.
Proof.
  intros Hq Hst Hb r q t1 Hr Hcq Ht1. pose proof Hq as (_ & _ & _ & Hrqs & _). rewrite Hrqs in Hr.
  destruct (Hst q t1 Ht1) as (t & Ht & Hcase). destruct (quiet_lookup _ _ _ _ Hq Ht) as (t2 & Ht2 & Hn).
  rewrite Ht1 in Ht2. injection Ht2 as <-. destruct (norm_fields _ _ Hn) as (_ & _ & _ & _ & _ & _ & Hv & _).
  pose proof (Hb r q t Hr Hcq Ht) as Hbt. unfold budget in *. rewrite Hv. destruct Hcase as [->|(r0 & Hr0 & ->)]; [done|].
  rewrite Hr in Hr0. injection Hr0 as <-. rewrite Z.sub_diag. change (u64 0) with 0. lia.
Qed.

Lemma dequeue_task_rt_post s c r l p t w k :
  s_rqs s !! c = Some r → cpu_inv b (nmap s) (s_nodes s) c r l → is_Some (s_tasks s !! rq_curr r) →
  s_tasks s !! p = Some t → t_class t = RtClass → t_cpu t = c → se_on_rq (t_se t) = true →
  curr_budget b c s k →
  runs (dequeue_task fuel c p w) (λ _ s', ∃ r', queue_post b c p false s s' r r' l l k) s.
Proof.
  intros Hr Hinv Hcurr Ht Hk Hc Hon Hb. pose proof (lookup_nmap _ _ _ Ht) as Hn.
  destruct (rt_not_fair _ _ _ _ _ _ _ _ Hinv Hn Hk) as [Hpl Hpc].
  assert (Hpm : p ∈ rt_members (rq_rt r)).
  { pose proof (ci_marked _ _ _ _ _ _ Hinv p _ Hn Hc Hon) as Hm. unfold members, fair_members in Hm.
    rewrite !elem_of_app in Hm. destruct Hm as [Hm|[Hm|Hm]]; [done|done|].
    apply cfs_running_elem in Hm as [Hm _]. done. }
  unfold dequeue_task. do 3 sstep. rewrite Hk. cbn [class_dequeue_task].
  eapply runs_mono; [eapply (dequeue_task_rt_runs s c r p t w); try done; by apply ci_rt in Hinv|].
  intros [] s1 (i & q & rt' & s0 & Hi & Hq & Hpq & Hrt' & Hok' & Hquiet & Hst & ->).
  pose proof (f_equal rt_queue Hrt') as Hqueue. cbn in Hqueue. clear Hrt'.
  destruct (quiet_lookup _ _ _ _ Hquiet Ht) as (t0 & Ht0 & Hnt0). pose proof Hquiet as (HN0 & _ & Hh0 & Hrqs0 & _).
  assert (Hr0 : s_rqs s0 !! c = Some r) by by rewrite Hrqs0.
  eapply (runs_set_on _ p t0); [done|]. exists (set_rq_rt rt' r).
  pose proof (queue_nodup _ _ _ _ _ (ci_rt _ _ _ _ _ _ Hinv) Hq) as Hndq.
  pose proof (dequeue_members _ _ _ _ _ Hndq Hpq Hq Hqueue) as Hperm.
  assert (Hout : p ∉ rt_members rt').
  { pose proof (rt_nodup _ _ _ (ci_rt _ _ _ _ _ _ Hinv)) as Hnd. fold (rt_members (rq_rt r)) in Hnd.
    rewrite Hperm in Hnd. by inversion Hnd. }
  rewrite <-Hnt0 in Hn. destruct (norm_fields _ _ Hnt0) as (_ & _ & Hk0 & Hc0 & _).
  destruct (cpu_inv_rt_step b (nmap s) (s_nodes s) c r l p (norm t0) rt' false Hinv Hn) as [Hinv' Hmem'];
    [cbn; congruence|cbn; congruence|done|done|apply (rt_nodup _ _ _ Hok')|done|].
  pose proof (nmap_set_on (with_rt c r rt' s0) p t0 false) as HN. change (nmap (with_rt c r rt' s0)) with (nmap s0) in HN.
  rewrite HN0 in HN. constructor; rewrite ?HN; try done.
  - eapply local_trans; [eapply quiet_local; [exact Hr|exact Hquiet]|]. eapply local_trans; [by apply with_rt_local|].
    apply (set_on_local c (with_rt c r rt' s0)); [|done|congruence]. cbn. by rewrite lookup_insert_eq.
  - cbn. by rewrite Hh0.
  - intros q0. apply mark_on_rq.
  - unfold with_rt. apply (curr_budget_mark b c s0 p t0 false k r); try done. by apply (curr_budget_starts c s).
Qed.

End rt.

(** ** Fair tasks *)

(** Change the tree by one task, with its mark and the counters. *)
Lemma cpu_inv_fair_step b N h c r l p n h' cfs' l' (on : bool) :
  cpu_inv b N h c r l → N !! p = Some n → t_class n = FairClass → t_cpu n = c → Z.of_nat (size N) < 2 ^ 32 →
  fair_tree b N h' c cfs' l' → fair_curr b N c cfs' l' → cfs_curr cfs' = cfs_curr (rq_cfs r) →
  (∀ q, q ≠ p → q ∈ l' ↔ q ∈ l) → (on = false → p ∉ l') →
  (let N' := <[p := set_on on n]> N in
   if on then fair_members N' cfs' l' ≡ₚ p :: fair_members N (rq_cfs r) l
   else fair_members N (rq_cfs r) l ≡ₚ p :: fair_members N' cfs' l') →
  cfs_nr_running cfs' = u64 (cfs_nr_running (rq_cfs r) + (if on then 1 else -1)) →
  lw_weight (cfs_load cfs') = u64 (lw_weight (cfs_load (rq_cfs r)) +
    (if on then lw_weight (se_load (t_se n)) else - lw_weight (se_load (t_se n)))) →
  let N' := <[p := set_on on n]> N in
  cpu_inv b N' h' c (set_rq_cfs cfs' r) l' ∧
  (if on then members N' (set_rq_cfs cfs' r) l' ≡ₚ p :: members N r l
   else members N r l ≡ₚ p :: members N' (set_rq_cfs cfs' r) l').
Proof.
  intros Hinv Hp Hk Hc Hsz Hft' Hfc' Hcurr' Hl' Hout Hperm Hnr' Hld' N'. cbv zeta in Hperm. fold N' in Hperm.
  pose proof (members_length _ _ _ _ _ _ Hinv) as Hlen. pose proof Hinv as [Hcpu Hrt Hft Hfc Hq Hm Hnr Hld Hw].
  unfold members in Hlen. rewrite length_app in Hlen.
  assert (Hwp : wt N p = lw_weight (se_load (t_se n))) by (unfold wt; by rewrite Hp).
  assert (Hmem : if on then members N' (set_rq_cfs cfs' r) l' ≡ₚ p :: members N r l
    else members N r l ≡ₚ p :: members N' (set_rq_cfs cfs' r) l').
  { unfold members. cbn. destruct on; rewrite Hperm; [|rewrite Permutation_middle; done].
    by rewrite <-Permutation_middle. }
  split; [|done]. constructor; cbn; try done.
  - by apply mark_rt_ok.
  - by apply mark_fair_tree.
  - by apply mark_fair_curr.
  - intros q Hql. unfold N'. rewrite mark_on_rq. case_decide as Hqp.
    + subst q. destruct on; [done|]. destruct Hql as [Hql|Hql]; [|by destruct (Hout eq_refl)].
      destruct (rt_member_queue _ _ _ _ Hrt Hql) as (t & _ & _ & (Ht & Hkt & _) & _). congruence.
    + apply Hq. destruct Hql as [Hql|Hql]; [by left|right]. by apply Hl'.
  - intros q t Ht Hct Hon. apply mark_lookup_inv in Ht as (u & Hu & _ & Hcu & _ & _ & Hon'); [|done].
    rewrite Hon' in Hon. case_decide as Hqp.
    + subst q. destruct on; [|done]. rewrite Hmem. by left.
    + assert (Hqm : q ∈ members N r l) by (apply (Hm q u Hu); congruence).
      destruct on; rewrite Hmem in *; set_solver.
  - rewrite Hnr', Hnr. destruct on; apply Permutation_length in Hperm; simpl in Hperm; rewrite u64_small; lia.
  - rewrite Hld', Hld, u64_add_l. destruct on.
    + rewrite Hperm, sumw_cons. unfold N'. rewrite mark_wt, mark_sumw by done. f_equal. lia.
    + rewrite Hperm, sumw_cons. unfold N'. rewrite mark_sumw by done. f_equal. lia.
  - intros q t Ht Hct. apply mark_lookup_inv in Ht as (u & Hu & _ & Hcu & _ & Hv & _); [|done].
    rewrite Hv. apply (Hw q u Hu). congruence.
Qed.

Lemma size_nmap s : size (nmap s) = size (s_tasks s).
Proof. unfold nmap. apply map_size_fmap. Qed.

Lemma tree_fuel b s c r l fuel :
  cpu_inv b (nmap s) (s_nodes s) c r l → (rb_depth (size (s_tasks s)) < fuel)%nat → (rb_depth (length l) < fuel)%nat.
Proof.
  intros Hinv Hf. pose proof (tree_length _ _ _ _ _ _ Hinv) as Hl. rewrite size_nmap in Hl.
  pose proof (rb_depth_mono _ _ Hl). lia.
Qed.

(** Of the tasks of a processor, only the members of its tree are in it. *)
Lemma unmarked_not_queued b N h c r l p n :
  cpu_inv b N h c r l → N !! p = Some n → se_on_rq (t_se n) = false → p ∉ l ∧ p ∉ rt_members (rq_rt r).
Proof.
  intros Hinv Hn Hon. split; intros Hin;
    [pose proof (ci_queued _ _ _ _ _ _ Hinv p (or_intror Hin)) as Hq|pose proof (ci_queued _ _ _ _ _ _ Hinv p (or_introl Hin)) as Hq];
    unfold is_on_rq in Hq; rewrite Hn in Hq; congruence.
Qed.

Section fair.
Context (b : Z) (me : nat) (now : Z) (tn : tunables) (fuel : nat).
Hypothesis Hlat : 0 ≤ sysctl_sched_latency tn < 2 ^ 32.

(** A wake-up places a task at its own virtual time, or a latency before the
    queue's, whichever is later. *)
Lemma place_entity_runs s c r p t :
  s_rqs s !! c = Some r → s_tasks s !! p = Some t → in_window b (se_vruntime (t_se t)) →
  2 ^ 32 ≤ voff b (cfs_min_vruntime (rq_cfs r)) < 2 ^ 62 →
  runs (place_entity tn fuel c p false) (λ _ s', ∃ v, s' = set_s_tasks (<[p := set_vr v t]> (s_tasks s)) s ∧
    in_window b v ∧
    voff b v = Z.max (voff b (se_vruntime (t_se t))) (voff b (cfs_min_vruntime (rq_cfs r)) - sysctl_sched_latency tn)) s.
Proof.
  intros Hr Ht Hw Hmin. unfold place_entity. change (sched_feat SCHED_FEAT_TREE_AVG) with false.
  change (sched_feat SCHED_FEAT_APPROX_AVG) with false. change (sched_feat SCHED_FEAT_NEW_FAIR_SLEEPERS) with true.
  cbn [andb]. do 8 sstep. eapply runs_mod_se; [exact Ht|].
  assert (Hsub : voff b (u64 (cfs_min_vruntime (rq_cfs r) - sysctl_sched_latency tn)) =
    voff b (cfs_min_vruntime (rq_cfs r)) - sysctl_sched_latency tn) by (apply voff_sub; [apply Hmin|lia]).
  destruct (voff_max b (se_vruntime (t_se t)) (u64 (cfs_min_vruntime (rq_cfs r) - sysctl_sched_latency tn))) as [Hmax Hwin];
    [done|unfold in_window; lia|].
  eexists. split; [reflexivity|]. split; [done|]. by rewrite Hmax, Hsub.
Qed.

(** Placing an unqueued task keeps the invariant. *)
Lemma set_vr_post c s r l p t v k :
  s_rqs s !! c = Some r → cpu_inv b (nmap s) (s_nodes s) c r l → s_tasks s !! p = Some t → t_cpu t = c →
  p ∉ l → in_window b v → cfs_curr (rq_cfs r) ≠ Some p → curr_budget b c s k →
  let s' := set_s_tasks (<[p := set_vr v t]> (s_tasks s)) s in
  local c s s' r r ∧ cpu_inv b (nmap s') (s_nodes s') c r l ∧ same_core (nmap s) (nmap s') ∧ curr_budget b c s' k.
Proof.
  intros Hr Hinv Ht Hc Hpl Hv Hcurr Hb s'. pose proof (lookup_nmap _ _ _ Ht) as Hn.
  assert (HN : nmap s' = <[p := set_vr v (norm t)]> (nmap s)) by (unfold nmap; cbn; by rewrite fmap_insert).
  assert (Hcore : same_core (nmap s) (nmap s')) by (rewrite HN; by apply same_core_insert).
  split_and!; [|eapply cpu_inv_core; [exact Hcore| | |exact Hinv]|done|].
  - constructor; try done.
    + cbn. by rewrite insert_id.
    + by destruct r.
    + cbn. rewrite fmap_insert. apply insert_id. by rewrite lookup_fmap, Ht.
    + by apply (flags_quiet s p t).
    + intros c' Hc' q u Hu. rewrite HN. destruct (decide (q = p)) as [->|Hne]; [|by rewrite lookup_insert_ne].
      rewrite lookup_insert_eq, Hn. split; intros [= <-]; cbn in Hu; congruence.
    + eauto.
  - intros q u Hq Hu. rewrite HN, lookup_insert_ne by (by intros <-). done.
  - intros q u Hu Hcu. rewrite HN in Hu. destruct (decide (q = p)) as [->|Hne].
    + rewrite lookup_insert_eq in Hu. by injection Hu as <-.
    + rewrite lookup_insert_ne in Hu by done. by apply (ci_window _ _ _ _ _ _ Hinv q).
  - intros r0 q u Hr0 Hq Hu. cbn in *. rewrite lookup_insert_ne in Hu by congruence. by apply (Hb r0 q).
Qed.

End fair.
