(* ===== verification/SchedOpsFair.v ===== *)
(** * Queueing fair tasks on one processor *)
From stdpp Require Import gmap sorting.
From S2P Require Import Prelude Rbtree RbtreeSpec RbtreeRun FindBit Sched SchedRt SchedFair SchedCore.
From S2P Require Import SchedLogic SchedRtFacts SchedFairFacts SchedInv SchedOps.

(** The heap cells a tree operation may change. *)
Lemma tree_heap_local b N h h' c cfs l (ls : list loc) l' :
  fair_tree b N h c cfs l → frame_of h h' ls → tree_at h' (cfs_tasks_timeline cfs) l' →
  (∀ a, a ∈ ls → a = cfs_tasks_timeline cfs ∨ (∃ t, N !! a = Some t ∧ t_cpu t = c) ∧ (a ∈ l' ∨ ∃ n, h' !! a = Some (CNode n))) →
  (∀ a, a ≠ cfs_tasks_timeline cfs → (∀ t, N !! a = Some t → t_cpu t ≠ c) → is_Some (h !! a) → h' !! a = h !! a) ∧
  (∀ a n, h !! a = Some (CNode n) → ∃ n', h' !! a = Some (CNode n')).
Proof.
  intros Hft Hfr Htree Hls. split.
  - intros a Hr Ht [x Hx]. rewrite Hx. apply Hfr; [|done]. intros Ha.
    destruct (Hls a Ha) as [?|[(t & Hat & Hct) _]]; [done|]. by apply (Ht t).
  - intros a n Ha. destruct (decide (a ∈ ls)) as [Hin|Hnin]; [|exists n; by apply Hfr].
    destruct (Hls a Hin) as [->|[_ [Hl|?]]]; [|by eapply tree_at_node|done].
    destruct (tree_at_root _ _ _ (ft_tree _ _ _ _ _ _ Hft)) as [q Hq]. congruence.
Qed.

Lemma with_tree_local b s c r cfs' l l' h' (ls : list loc) :
  s_rqs s !! c = Some r → fair_tree b (nmap s) (s_nodes s) c (rq_cfs r) l → frame_of (s_nodes s) h' ls →
  tree_at h' (cfs_tasks_timeline (rq_cfs r)) l' → cfs_tasks_timeline cfs' = cfs_tasks_timeline (rq_cfs r) →
  (∀ a, a ∈ ls → a = cfs_tasks_timeline (rq_cfs r) ∨
    (∃ t, nmap s !! a = Some t ∧ t_cpu t = c) ∧ (a ∈ l' ∨ ∃ n, h' !! a = Some (CNode n))) →
  local c s (set_s_nodes h' (with_cfs c r cfs' s)) r (set_rq_cfs cfs' r).
Proof.
  intros Hr Hft Hfr Htree Hroot Hls.
  destruct (tree_heap_local _ _ _ _ _ _ _ _ _ Hft Hfr Htree Hls) as [H1 H2].
  constructor; try done.
Qed.

Lemma with_cfs_local c s r cfs' :
  s_rqs s !! c = Some r → cfs_tasks_timeline cfs' = cfs_tasks_timeline (rq_cfs r) →
  local c s (with_cfs c r cfs' s) r (set_rq_cfs cfs' r).
Proof. intros Hr Hroot. constructor; try done. eauto. Qed.

Section fair_ops.
Context (b : Z) (me : nat) (now : Z) (tn : tunables) (fuel : nat).
Hypothesis Hlat : 0 ≤ sysctl_sched_latency tn < 2 ^ 32.

Lemma fair_curr_fields N c cfs cfs' l l' :
  fair_curr b N c cfs l → cfs_curr cfs' = cfs_curr cfs → (∀ q, cfs_curr cfs = Some q → q ∉ l → q ∉ l') → fair_curr b N c cfs' l'.
Proof.
  intros Hfc Heq Hl q Hq. rewrite Heq in Hq. destruct (Hfc q Hq) as [Hql Ht]. split; [by apply Hl|done].
Qed.

(** The two bookkeeping steps at the end of [enqueue_entity] and
    [dequeue_entity], for a tree already changed. *)
Definition counted_cfs (on : bool) (w : Z) (cfs : cfs_rq) : cfs_rq :=
  set_cfs_nr_running (u64 (cfs_nr_running cfs + (if on then 1 else -1)))
    (set_cfs_load (set_lw_weight (u64 (lw_weight (cfs_load cfs) + (if on then w else - w))) (cfs_load cfs)) cfs).

Definition account (on : bool) (c : nat) (p : loc) : M unit :=
  if on then account_entity_enqueue c p else account_entity_dequeue c p.

Lemma account_runs s c r p t on Q :
  s_rqs s !! c = Some r → s_tasks s !! p = Some t →
  Q tt (set_s_tasks (<[p := set_on on t]> (s_tasks s))
    (with_cfs c r (counted_cfs on (lw_weight (se_load (t_se t))) (rq_cfs r)) s)) →
  runs (account on c p) Q s.
Proof.
  intros Hr Ht HQ. destruct on; cbn [account].
  - unfold account_entity_enqueue. do 4 sstep. eapply runs_set_on; [exact Ht|exact HQ].
  - unfold account_entity_dequeue. do 4 sstep. eapply runs_set_on; [exact Ht|exact HQ].
Qed.

(** The tree, the mark and the counters change together; [h1], [cfs1], [l1] are
    the tree after its change. *)
Lemma tree_account_post s c r l p t k (on : bool) h1 cfs1 l1 :
  s_rqs s !! c = Some r → cpu_inv b (nmap s) (s_nodes s) c r l → Z.of_nat (size (s_tasks s)) < 2 ^ 32 →
  s_tasks s !! p = Some t → t_class t = FairClass → t_cpu t = c → se_on_rq (t_se t) = negb on →
  curr_budget b c s k →
  local c s (set_s_nodes h1 (with_cfs c r cfs1 s)) r (set_rq_cfs cfs1 r) →
  fair_tree b (nmap s) h1 c cfs1 l1 →
  cfs1 = set_cfs_rb_leftmost (cfs_rb_leftmost cfs1) (rq_cfs r) →
  (cfs_curr (rq_cfs r) ≠ Some p ∧ (if on then l1 ≡ₚ p :: l else l ≡ₚ p :: l1) ∨
   cfs_curr (rq_cfs r) = Some p ∧ l1 = l) →
  runs (account on c p) (λ _ s', ∃ r', queue_post b c p on s s' r r' l l1 k ∧ s_tasks s' !! p = Some (set_on on t))
    (set_s_nodes h1 (with_cfs c r cfs1 s)).
Proof.
  intros Hr Hinv Hsz Ht Hk Hc Hon Hb Hloc Hft1 Hcfs1 Hcase. pose proof (lookup_nmap _ _ _ Ht) as Hn.
  set (s1 := set_s_nodes h1 (with_cfs c r cfs1 s)). assert (Hr1 : s_rqs s1 !! c = Some (set_rq_cfs cfs1 r)) by (cbn; by rewrite lookup_insert_eq).
  eapply (account_runs _ _ _ p t on); [exact Hr1|done|]. cbn [rq_cfs set_rq_cfs].
  set (w := lw_weight (se_load (t_se t))). set (cfs2 := counted_cfs on w cfs1).
  pose proof Hinv as [_ Hrt Hft Hfc Hq Hm _ _ _].
  assert (Hcurr1 : cfs_curr cfs1 = cfs_curr (rq_cfs r)) by by rewrite Hcfs1.
  assert (Hpl : p ∉ (if on then l else l1)).
  { destruct on; [by apply (unmarked_not_queued _ _ _ _ _ _ _ _ Hinv Hn)|].
    destruct Hcase as [[Hne Hperm]|[Hcp ->]]; [|by apply Hfc in Hcp as [? _]].
    pose proof (tree_at_nodup _ _ _ (ft_tree _ _ _ _ _ _ Hft)) as Hnd. rewrite Hperm in Hnd. by inversion Hnd. }
  assert (Hfc2 : fair_curr b (nmap s) c cfs2 l1).
  { intros q Hcq. change (cfs_curr cfs2) with (cfs_curr cfs1) in Hcq. rewrite Hcurr1 in Hcq.
    destruct (Hfc q Hcq) as [Hql Hqt]. split; [|done]. destruct Hcase as [[Hne Hperm]|[_ ->]]; [|done].
    destruct on; [|rewrite Hperm in Hql; set_solver]. rewrite Hperm. intros [->|]%elem_of_cons; done. }
  destruct (cpu_inv_fair_step b (nmap s) (s_nodes s) c r l p (norm t) h1 cfs2 l1 on Hinv Hn Hk Hc) as [Hinv' Hmem'].
  { by rewrite size_nmap. }
  { eapply fair_tree_fields; [..|exact Hft1]; [done|done|]. apply (ft_min _ _ _ _ _ _ Hft1). }
  { done. } { done. }
  { intros q Hne. destruct Hcase as [[_ Hperm]|[_ ->]]; [|done]. destruct on; rewrite Hperm; set_solver. }
  { intros ->. done. }
  { cbv zeta. unfold fair_members. change (cfs_running (<[p:=set_on on (norm t)]> (nmap s)) cfs2)
      with (match cfs_curr cfs1 with Some q => if is_on_rq (<[p:=set_on on (norm t)]> (nmap s)) q then [q] else [] | None => [] end).
    rewrite Hcurr1. destruct Hcase as [[Hne Hperm]|[Hcp ->]].
    - assert (Hrun : (match cfs_curr (rq_cfs r) with Some q => if is_on_rq (<[p:=set_on on (norm t)]> (nmap s)) q then [q] else [] | None => [] end)
        = cfs_running (nmap s) (rq_cfs r)).
      { unfold cfs_running. destruct (cfs_curr (rq_cfs r)) as [q|]; [|done]. rewrite mark_on_rq, decide_False by congruence. done. }
      rewrite Hrun. destruct on; rewrite Hperm; done.
    - rewrite Hcp, mark_on_rq, decide_True by done. unfold cfs_running. rewrite Hcp.
      assert (Hisp : is_on_rq (nmap s) p = negb on) by (unfold is_on_rq; rewrite Hn; done). rewrite Hisp.
      destruct on; simpl; rewrite app_nil_r; [|]; by rewrite <-Permutation_cons_append. }
  { cbn. by rewrite Hcfs1. }
  { cbn. by rewrite Hcfs1. }
  exists (set_rq_cfs cfs2 r). set (s2 := set_s_tasks _ _).
  assert (HN : nmap s2 = <[p := set_on on (norm t)]> (nmap s)) by (unfold nmap; cbn; by rewrite fmap_insert).
  assert (Hrqs2 : s_rqs s2 = <[c := set_rq_cfs cfs2 r]> (s_rqs s)) by (cbn; by rewrite insert_insert_eq).
  split; [|cbn; by rewrite lookup_insert_eq].
  constructor; rewrite ?HN; try done.
  - eapply local_trans; [exact Hloc|]. eapply local_trans; [eapply (with_cfs_local c s1 _ cfs2); [exact Hr1|done]|].
    apply (set_on_local c (with_cfs c (set_rq_cfs cfs1 r) cfs2 s1)); [cbn; by rewrite lookup_insert_eq|done|done].
  - intros q. apply mark_on_rq.
  - intros r0 q u Hr0 Hcq Hu. rewrite Hrqs2, lookup_insert_eq in Hr0. injection Hr0 as <-.
    change (cfs_curr (rq_cfs (set_rq_cfs cfs2 r))) with (cfs_curr cfs1) in Hcq. rewrite Hcurr1 in Hcq.
    cbn in Hu. destruct (decide (q = p)) as [->|Hne].
    + rewrite lookup_insert_eq in Hu. injection Hu as <-. by apply (Hb r p t).
    + rewrite lookup_insert_ne in Hu by done. by apply (Hb r q u).
Qed.

(** ** Enqueue *)

Lemma insert_account_post s c r l p t n k :
  s_rqs s !! c = Some r → cpu_inv b (nmap s) (s_nodes s) c r l → Z.of_nat (size (s_tasks s)) < 2 ^ 32 →
  (rb_depth (size (s_tasks s)) < fuel)%nat → s_nodes s !! p = Some (CNode n) →
  s_tasks s !! p = Some t → t_class t = FairClass → t_cpu t = c → se_on_rq (t_se t) = false →
  curr_budget b c s k →
  runs (r ← get_rq c; when (negb (bool_decide (cfs_curr (rq_cfs r) = Some p))) (__enqueue_entity fuel c p);; account_entity_enqueue c p)
    (λ _ s', ∃ r' l', queue_post b c p true s s' r r' l l' k ∧ s_tasks s' !! p = Some (set_on true t)) s.
Proof.
  intros Hr Hinv Hsz Hf Hnode Ht Hk Hc Hon Hb. pose proof (lookup_nmap _ _ _ Ht) as Hn.
  pose proof Hinv as [_ _ Hft Hfc _ _ _ _ Hw]. destruct (unmarked_not_queued _ _ _ _ _ _ _ _ Hinv Hn Hon) as [Hpl _].
  do 2 sstep. apply runs_seq_when; intros Hcase.
  - apply negb_true_iff, bool_decide_eq_false in Hcase. eapply runs_mono.
    { eapply (__enqueue_entity_runs b fuel s c r p t l n); try done; [by apply (Hw p (norm t))|by eapply tree_fuel]. }
    intros [] s1 (l1 & l2 & h' & Hl & -> & Hft' & Hfr & _).
    eapply runs_mono; [eapply (tree_account_post s c r l p t k true); try done|].
    + eapply (with_tree_local b s c r _ l (l1 ++ p :: l2)); [done|done|exact Hfr|exact (ft_tree _ _ _ _ _ _ Hft')|done|].
      intros a Ha. rewrite !elem_of_cons in Ha. destruct Ha as [->|[->|Ha]]; [right|by left|right].
      * split; [eauto|left; set_solver].
      * split; [|left; rewrite Hl in Ha; set_solver]. destruct (ft_tasks _ _ _ _ _ _ Hft a Ha) as (u & (Hu & _ & Hcu) & _). eauto.
    + left. split; [done|]. rewrite Hl. by rewrite Permutation_middle.
    + intros [] s2 (r' & Hq & Hp). eauto.
  - apply negb_false_iff, bool_decide_eq_true in Hcase.
    assert (Heq : s = set_s_nodes (s_nodes s) (with_cfs c r (rq_cfs r) s)) by (rewrite with_cfs_id by done; by destruct s).
    pose proof (tree_account_post s c r l p t k true (s_nodes s) (rq_cfs r) l) as Hta. rewrite <-Heq in Hta.
    replace (set_rq_cfs (rq_cfs r) r) with r in Hta by by destruct r.
    eapply runs_mono; [apply Hta; try done|].
    + by apply local_refl.
    + by destruct (rq_cfs r).
    + by right.
    + intros [] s2 (r' & Hq & Hp). eauto.
Qed.

Lemma queue_post_after c p on s1 s2 s3 r1 r2 r3 l1 l2 k :
  local c s1 s2 r1 r2 → same_core (nmap s1) (nmap s2) → members (nmap s2) r2 l1 = members (nmap s1) r1 l1 →
  cfs_curr (rq_cfs r2) = cfs_curr (rq_cfs r1) →
  queue_post b c p on s2 s3 r2 r3 l1 l2 k → queue_post b c p on s1 s3 r1 r3 l1 l2 k.
Proof.
  intros Hloc Hcore Hmem Hcurr [H1 H2 H3 H4 H5 H6]. constructor; try done.
  - by eapply local_trans.
  - intros q. rewrite H3. by rewrite (same_core_on_rq _ _ _ Hcore).
  - by rewrite <-Hmem.
  - congruence.
Qed.

(** Putting a task on the queue after charging, with any placement. *)
Lemma charge_members c s s' r r' l k : charge_post b c s s' r r' l k → members (nmap s') r' l = members (nmap s) r l.
Proof.
  intros [_ _ Hcore _ Hrt Hcurr _ _ _]. unfold members, fair_members. rewrite Hrt. do 2 f_equal.
  unfold cfs_running. rewrite Hcurr. destruct (cfs_curr (rq_cfs r)); [|done]. by rewrite (same_core_on_rq _ _ _ Hcore).
Qed.

Lemma local_size c s s' r r' : local c s s' r r' → size (s_tasks s') = size (s_tasks s).
Proof. intros []. rewrite <-(map_size_fmap skel (s_tasks s')), lo_skel. apply map_size_fmap. Qed.

Lemma local_task_ok c s s' r r' :
  local c s s' r r' → (∀ p t, s_tasks s !! p = Some t → task_ok t) →
  (∀ p t, s_tasks s' !! p = Some t → t_class t = IdleClass → se_on_rq (t_se t) = false) →
  ∀ p t, s_tasks s' !! p = Some t → task_ok t.
Proof.
  intros [] Htok Hidle p t' Ht'. destruct (skel_lookup s' s p t' (eq_sym lo_skel) Ht') as (t & Ht & Heq).
  destruct (skel_fields _ _ Heq) as (_ & Hp & _ & Hk & _ & _ & _ & Hwt & _). destruct (Htok p t Ht) as [H1 H2 H3].
  constructor; [rewrite <-Hk, <-Hp; done|rewrite <-Hk, <-Hwt; done|by apply (Hidle p)].
Qed.

Lemma enqueue_task_fair_post s c r l p t n w k :
  s_rqs s !! c = Some r → cpu_inv b (nmap s) (s_nodes s) c r l → Z.of_nat (size (s_tasks s)) < 2 ^ 32 →
  (rb_depth (size (s_tasks s)) < fuel)%nat → s_nodes s !! p = Some (CNode n) →
  (∀ p t, s_tasks s !! p = Some t → task_ok t) →
  s_tasks s !! p = Some t → t_class t = FairClass → t_cpu t = c → se_on_rq (t_se t) = false →
  (w = true → cfs_curr (rq_cfs r) ≠ Some p) → 0 ≤ k → curr_budget b c s (1 + k) →
  runs (enqueue_task tn fuel c p w) (λ _ s', ∃ r' l', queue_post b c p true s s' r r' l l' k) s.
Proof.
  intros Hr Hinv Hsz Hf Hnode Htok Ht Hk Hc Hon Hw Hk0 Hb. unfold enqueue_task. do 3 sstep. rewrite Hk. cbn [class_enqueue_task].
  unfold enqueue_task_fair. do 2 sstep. rewrite Hon. unfold cfs_rq_of. do 4 sstep. rewrite Hc. unfold enqueue_entity.
  sstep. eapply runs_mono; [by eapply (update_curr_charge b c s r l k)|].
  intros [] s1 (r1 & Hcp). pose proof (charge_members _ _ _ _ _ _ _ Hcp) as Hmem1.
  pose proof Hcp as [Hloc1 Hinv1 Hcore1 Hh1 Hrt1 Hcurr1 Hoth1 Hb1 _].
  assert (Hr1 : s_rqs s1 !! c = Some r1) by (rewrite (lo_rqs _ _ _ _ _ Hloc1); by rewrite lookup_insert_eq).
  destruct (skel_lookup s s1 p t (lo_skel _ _ _ _ _ Hloc1) Ht) as (t1 & Ht1 & Hsk1).
  destruct (skel_fields _ _ Hsk1) as (_ & _ & _ & Hk1 & Hc1 & _).
  assert (Hon1 : se_on_rq (t_se t1) = false).
  { pose proof (same_core_on_rq _ _ p Hcore1) as Ho. unfold is_on_rq in Ho.
    rewrite (lookup_nmap _ _ _ Ht), (lookup_nmap _ _ _ Ht1) in Ho. cbn in Ho. congruence. }
  assert (Hnode1 : s_nodes s1 !! p = Some (CNode n)) by by rewrite Hh1.
  pose proof (local_size _ _ _ _ _ Hloc1) as Hsize1.
  (* the rest, from any state after the placement *)
  assert (Hrest : ∀ s2 t2, local c s1 s2 r1 r1 → cpu_inv b (nmap s2) (s_nodes s2) c r1 l → same_core (nmap s1) (nmap s2) →
    curr_budget b c s2 k → s_rqs s2 !! c = Some r1 → s_nodes s2 !! p = Some (CNode n) →
    s_tasks s2 !! p = Some t2 → t_class t2 = FairClass → t_cpu t2 = c → se_on_rq (t_se t2) = false →
    runs (r ← get_rq c; when (negb (bool_decide (cfs_curr (rq_cfs r) = Some p))) (__enqueue_entity fuel c p);; account_entity_enqueue c p)
      (λ _ s', runs (mod_se p (set_se_on_rq true)) (λ _ s'', ∃ r' l', queue_post b c p true s s'' r r' l l' k) s') s2).
  { intros s2 t2 Hloc2 Hinv2 Hcore2 Hb2 Hr2 Hnode2 Ht2 Hk2 Hc2 Hon2.
    pose proof (local_size _ _ _ _ _ Hloc2) as Hsize2.
    eapply runs_mono; [by eapply (insert_account_post s2 c r1 l p t2 n k); try done; rewrite Hsize2, Hsize1|].
    intros [] s3 (r3 & l3 & Hq3 & Ht3). eapply (runs_set_on s3 p (set_on true t2)); [exact Ht3|].
    assert (Hid : set_s_tasks (<[p := set_on true (set_on true t2)]> (s_tasks s3)) s3 = s3).
    { unfold set_s_tasks. rewrite insert_id by done. by destruct s3. }
    rewrite Hid. exists r3, l3. eapply (queue_post_after c p true s s1 s3 r r1); [done|done|done|done|].
    eapply (queue_post_after c p true s1 s2 s3 r1 r1); try done.
    unfold members, fair_members. do 2 f_equal. by apply same_core_running. }
  sstep. apply runs_when; intros Hcase.
  - assert (Hne : cfs_curr (rq_cfs r1) ≠ Some p) by (rewrite Hcurr1; by apply Hw).
    pose proof Hinv1 as [_ _ Hft1 _ _ _ _ _ Hwin1].
    destruct (unmarked_not_queued _ _ _ _ _ _ p (norm t1) Hinv1) as [Hpl1 _]; [by apply lookup_nmap|done|].
    eapply runs_mono; [eapply (place_entity_runs b tn fuel Hlat s1 c r1 p t1); try done;
      [apply (Hwin1 p (norm t1)); [by apply lookup_nmap|cbn; congruence]|apply (ft_min _ _ _ _ _ _ Hft1)]|].
    intros [] s2 (v & -> & Hv & _).
    destruct (set_vr_post b c s1 r1 l p t1 v k) as (Hloc2 & Hinv2 & Hcore2 & Hb2); try done; [congruence|].
    eapply (Hrest _ (set_vr v t1)); try done; cbn; [by rewrite lookup_insert_eq|congruence|congruence].
  - eapply (Hrest s1 t1); try done; [by apply local_refl|congruence|congruence].
Qed.

(** ** Dequeue *)

(** The frame of a removal from the tree. *)
Lemma erase_local s c r l p h' n cfs' :
  s_rqs s !! c = Some r → cpu_inv b (nmap s) (s_nodes s) c r l → p ∈ l →
  frame_of (s_nodes s) h' (cfs_tasks_timeline (rq_cfs r) :: l) → h' !! p = Some (CNode n) →
  tree_at h' (cfs_tasks_timeline (rq_cfs r)) (filter (.≠ p) l) →
  cfs_tasks_timeline cfs' = cfs_tasks_timeline (rq_cfs r) →
  local c s (set_s_nodes h' (with_cfs c r cfs' s)) r (set_rq_cfs cfs' r).
Proof.
  intros Hr Hinv Hp Hfr Hn Htree Hroot. pose proof (ci_tree _ _ _ _ _ _ Hinv) as Hft.
  eapply (with_tree_local b s c r _ l); [done|done|exact Hfr|exact Htree|done|].
  intros a [->|Ha]%elem_of_cons; [by left|right]. split.
  - destruct (ft_tasks _ _ _ _ _ _ Hft a Ha) as (u & (Hu & _ & Hcu) & _). eauto.
  - destruct (decide (a = p)) as [->|Hne]; [eauto|left]. by apply list_elem_of_filter.
Qed.

Lemma erase_account_post s c r l p t k :
  s_rqs s !! c = Some r → cpu_inv b (nmap s) (s_nodes s) c r l → Z.of_nat (size (s_tasks s)) < 2 ^ 32 →
  (rb_depth (size (s_tasks s)) < fuel)%nat →
  s_tasks s !! p = Some t → t_class t = FairClass → t_cpu t = c → se_on_rq (t_se t) = true →
  curr_budget b c s k →
  runs (r ← get_rq c; when (negb (bool_decide (cfs_curr (rq_cfs r) = Some p))) (__dequeue_entity fuel c p);; account_entity_dequeue c p)
    (λ _ s', ∃ r' l', queue_post b c p false s s' r r' l l' k ∧ s_tasks s' !! p = Some (set_on false t)) s.
Proof.
  intros Hr Hinv Hsz Hf Ht Hk Hc Hon Hb. pose proof (lookup_nmap _ _ _ Ht) as Hn.
  pose proof Hinv as [_ Hrt Hft Hfc _ Hm _ _ Hw].
  do 2 sstep. apply runs_seq_when; intros Hcase.
  - apply negb_true_iff, bool_decide_eq_false in Hcase.
    assert (Hpl : p ∈ l).
    { pose proof (Hm p _ Hn Hc Hon) as Hpm. unfold members, fair_members in Hpm. rewrite !elem_of_app in Hpm.
      destruct Hpm as [Hpm|[Hpm|[Hpm _]%cfs_running_elem]]; [|done|done].
      destruct (rt_member_queue _ _ _ _ Hrt Hpm) as (u & _ & _ & (Hu & Hku & _) & _).
      rewrite Hn in Hu. injection Hu as <-. cbn in Hku. congruence. }
    pose proof (tree_fuel _ _ _ _ _ _ Hinv Hf) as Hfl.
    eapply runs_mono; [eapply (__dequeue_entity_runs b fuel s c r p l); try done; lia|].
    intros [] s1 (h' & n & -> & Hft' & Hfr & Hnode).
    eapply runs_mono; [eapply (tree_account_post s c r l p t k false); try done|].
    + eapply erase_local; try done. apply (ft_tree _ _ _ _ _ _ Hft').
    + left. split; [done|]. apply filter_perm; [|done]. apply (tree_at_nodup _ _ _ (ft_tree _ _ _ _ _ _ Hft)).
    + intros [] s2 (r' & Hq & Hp). eauto.
  - apply negb_false_iff, bool_decide_eq_true in Hcase.
    assert (Heq : s = set_s_nodes (s_nodes s) (with_cfs c r (rq_cfs r) s)) by (rewrite with_cfs_id by done; by destruct s).
    pose proof (tree_account_post s c r l p t k false (s_nodes s) (rq_cfs r) l) as Hta. rewrite <-Heq in Hta.
    replace (set_rq_cfs (rq_cfs r) r) with r in Hta by by destruct r.
    eapply runs_mono; [apply Hta; try done|].
    + by apply local_refl.
    + by destruct (rq_cfs r).
    + by right.
    + intros [] s2 (r' & Hq & Hp). eauto.
Qed.

Lemma dequeue_task_fair_post s c r l p t w k :
  s_rqs s !! c = Some r → cpu_inv b (nmap s) (s_nodes s) c r l → Z.of_nat (size (s_tasks s)) < 2 ^ 32 →
  (rb_depth (size (s_tasks s)) < fuel)%nat → (∀ p t, s_tasks s !! p = Some t → task_ok t) →
  s_tasks s !! p = Some t → t_class t = FairClass → t_cpu t = c → se_on_rq (t_se t) = true →
  0 ≤ k → curr_budget b c s (1 + k) →
  runs (dequeue_task fuel c p w) (λ _ s', ∃ r' l', queue_post b c p false s s' r r' l l' k) s.
Proof.
  intros Hr Hinv Hsz Hf Htok Ht Hk Hc Hon Hk0 Hb. unfold dequeue_task. do 3 sstep. rewrite Hk. cbn [class_dequeue_task].
  unfold dequeue_task_fair, cfs_rq_of. do 4 sstep. rewrite Hc. unfold dequeue_entity.
  sstep. eapply runs_mono; [by eapply (update_curr_charge b c s r l k)|].
  intros [] s1 (r1 & Hcp). pose proof (charge_members _ _ _ _ _ _ _ Hcp) as Hmem1.
  pose proof Hcp as [Hloc1 Hinv1 Hcore1 Hh1 Hrt1 Hcurr1 Hoth1 Hb1 _].
  assert (Hr1 : s_rqs s1 !! c = Some r1) by (rewrite (lo_rqs _ _ _ _ _ Hloc1); by rewrite lookup_insert_eq).
  destruct (skel_lookup s s1 p t (lo_skel _ _ _ _ _ Hloc1) Ht) as (t1 & Ht1 & Hsk1).
  destruct (skel_fields _ _ Hsk1) as (_ & _ & _ & Hk1 & Hc1 & _).
  assert (Hon1 : se_on_rq (t_se t1) = true).
  { pose proof (same_core_on_rq _ _ p Hcore1) as Ho. unfold is_on_rq in Ho.
    rewrite (lookup_nmap _ _ _ Ht), (lookup_nmap _ _ _ Ht1) in Ho. cbn in Ho. congruence. }
  pose proof (local_size _ _ _ _ _ Hloc1) as Hsize1.
  eapply runs_mono; [eapply (erase_account_post s1 c r1 l p t1 k); try done; [by rewrite Hsize1|by rewrite Hsize1|congruence|congruence]|].
  intros [] s3 (r3 & l3 & Hq3 & Ht3). eapply (runs_set_on s3 p (set_on false t1)); [exact Ht3|].
  assert (Hid : set_s_tasks (<[p := set_on false (set_on false t1)]> (s_tasks s3)) s3 = s3).
  { unfold set_s_tasks. rewrite insert_id by done. by destruct s3. }
  rewrite Hid. exists r3, l3. by eapply (queue_post_after c p false s s1 s3 r r1).
Qed.

End fair_ops.
