(* ===== verification/SchedSwitch.v ===== *)
(** * Switching tasks on one processor

    The running task goes back to its queue, and the next one leaves it:
    [put_prev_task] and [pick_next_task] at the invariant of the processor. *)
From stdpp Require Import gmap sorting.
From S2P Require Import Prelude Rbtree RbtreeSpec RbtreeRun FindBit Sched SchedRt SchedFair SchedCore.
From S2P Require Import SchedLogic SchedRtFacts SchedFairFacts SchedInv SchedOps SchedOpsFair.

(** A change of the tree and of the running fair task that keeps the members. *)
Lemma cpu_inv_reshape b N h c r l h' cfs' l' :
  cpu_inv b N h c r l → fair_tree b N h' c cfs' l' → fair_curr b N c cfs' l' →
  fair_members N cfs' l' ≡ₚ fair_members N (rq_cfs r) l →
  cfs_nr_running cfs' = cfs_nr_running (rq_cfs r) → cfs_load cfs' = cfs_load (rq_cfs r) →
  cpu_inv b N h' c (set_rq_cfs cfs' r) l' ∧ members N (set_rq_cfs cfs' r) l' ≡ₚ members N r l.
Proof.
  intros Hinv Hft' Hfc' Hperm Hnr' Hld'. pose proof Hinv as [Hcpu Hrt Hft Hfc Hq Hm Hnr Hld Hw].
  assert (Hmem : members N (set_rq_cfs cfs' r) l' ≡ₚ members N r l) by (unfold members; cbn; by rewrite Hperm).
  split; [|done]. constructor; cbn; try done.
  - intros p [Hp|Hp]; [apply Hq; by left|].
    assert (Hpm : p ∈ fair_members N (rq_cfs r) l) by (rewrite <-Hperm; unfold fair_members; set_solver).
    unfold fair_members in Hpm. apply elem_of_app in Hpm as [Hpl|[_ Hon]%cfs_running_elem]; [|done]. apply Hq. by right.
  - intros p t Ht Hc Hon. rewrite Hmem. by apply (Hm p t).
  - by rewrite Hnr', Hnr, Hperm.
  - by rewrite Hld', Hld, Hperm.
Qed.

(** What is kept while tasks are switched. *)
Record switch_post (b : Z) (c : nat) (s s' : sched) (r r' : rq) (l l' : list loc) : Prop := mk_switch {
  sp_local : local c s s' r r';
  sp_inv : cpu_inv b (nmap s') (s_nodes s') c r' l';
  sp_core : same_core (nmap s) (nmap s');
  sp_members : members (nmap s') r' l' ≡ₚ members (nmap s) r l;
  sp_rt : rq_rt r' = rq_rt r
}.

Lemma local_rq c s s' r r' : local c s s' r r' → s_rqs s' !! c = Some r'.
Proof. intros []. rewrite lo_rqs. by rewrite lookup_insert_eq. Qed.

Lemma same_core_refl N : same_core N N.
Proof. done. Qed.

Lemma same_core_trans N1 N2 N3 : same_core N1 N2 → same_core N2 N3 → same_core N1 N3.
Proof. intros H1 H2 p. by rewrite H1. Qed.

Lemma switch_refl b c s r l :
  s_rqs s !! c = Some r → cpu_inv b (nmap s) (s_nodes s) c r l → switch_post b c s s r r l l.
Proof. intros. constructor; try done. by apply local_refl. Qed.

Lemma switch_trans b c s1 s2 s3 r1 r2 r3 l1 l2 l3 :
  switch_post b c s1 s2 r1 r2 l1 l2 → switch_post b c s2 s3 r2 r3 l2 l3 → switch_post b c s1 s3 r1 r3 l1 l3.
Proof.
  intros [] []. constructor; [by eapply local_trans|done|by eapply same_core_trans|by etransitivity|congruence].
Qed.

Lemma switch_quiet b c s s' r l :
  s_rqs s !! c = Some r → cpu_inv b (nmap s) (s_nodes s) c r l → quiet s s' → switch_post b c s s' r r l l.
Proof.
  intros Hr Hinv Hq. pose proof (quiet_local _ _ _ _ Hr Hq) as Hloc. destruct Hq as (Hn & _ & Hh & _).
  constructor; rewrite ?Hn, ?Hh; done.
Qed.

Lemma switch_charge b c s s' r r' l k : charge_post b c s s' r r' l k → switch_post b c s s' r r' l l.
Proof. intros Hcp. pose proof (charge_members _ _ _ _ _ _ _ _ Hcp) as Hmem. destruct Hcp. constructor; try done. by rewrite Hmem. Qed.

Section switch.
Context (b : Z) (me : nat) (now : Z) (tn : tunables) (fuel : nat).

(** Replace the heap and the fair run queue. *)
Lemma switch_cfs c s r l h' cfs' l' :
  cpu_inv b (nmap s) (s_nodes s) c r l →
  local c s (set_s_nodes h' (with_cfs c r cfs' s)) r (set_rq_cfs cfs' r) →
  fair_tree b (nmap s) h' c cfs' l' → fair_curr b (nmap s) c cfs' l' →
  fair_members (nmap s) cfs' l' ≡ₚ fair_members (nmap s) (rq_cfs r) l →
  cfs_nr_running cfs' = cfs_nr_running (rq_cfs r) → cfs_load cfs' = cfs_load (rq_cfs r) →
  switch_post b c s (set_s_nodes h' (with_cfs c r cfs' s)) r (set_rq_cfs cfs' r) l l'.
Proof.
  intros Hinv Hloc Hft Hfc Hperm Hnr Hld.
  destruct (cpu_inv_reshape _ _ _ _ _ _ h' cfs' l' Hinv Hft Hfc Hperm Hnr Hld). by constructor.
Qed.

(** The tree, then [cfs_rq->curr]. *)
Lemma set_curr_state c s r cfs' v h' :
  set_s_rqs (<[c := set_rq_cfs (set_cfs_curr v (rq_cfs (set_rq_cfs cfs' r))) (set_rq_cfs cfs' r)]>
    (s_rqs (set_s_nodes h' (with_cfs c r cfs' s)))) (set_s_nodes h' (with_cfs c r cfs' s)) =
  set_s_nodes h' (with_cfs c r (set_cfs_curr v cfs') s).
Proof. unfold with_cfs. cbn. by rewrite insert_insert_eq. Qed.

Lemma local_cfs_curr c s r cfs' v h' :
  local c s (set_s_nodes h' (with_cfs c r cfs' s)) r (set_rq_cfs cfs' r) →
  local c s (set_s_nodes h' (with_cfs c r (set_cfs_curr v cfs') s)) r (set_rq_cfs (set_cfs_curr v cfs') r).
Proof. intros []. constructor; try done. Qed.

(** ** Putting the running task back *)

Lemma put_prev_task_fair_post s c r l p t n k :
  s_rqs s !! c = Some r → cpu_inv b (nmap s) (s_nodes s) c r l → cfs_curr (rq_cfs r) = Some p →
  (rb_depth (size (s_tasks s)) < fuel)%nat → (∀ p t, s_tasks s !! p = Some t → task_ok t) →
  s_tasks s !! p = Some t → s_nodes s !! p = Some (CNode n) → 0 ≤ k → (se_on_rq (t_se t) = true → curr_budget b c s (1 + k)) →
  runs (put_prev_task_fair fuel c p)
    (λ _ s', ∃ r' l', switch_post b c s s' r r' l l' ∧ cfs_curr (rq_cfs r') = None) s.
Proof.
  intros Hr Hinv Hcurr Hf Htok Ht Hnode Hk Hb.
  destruct (ci_curr _ _ _ _ _ _ Hinv p Hcurr) as (Hpl & u & (Hu & Hku & Hcu) & Hwu).
  rewrite (lookup_nmap _ _ _ Ht) in Hu. injection Hu as <-. cbn in Hku, Hcu.
  unfold put_prev_task_fair, cfs_rq_of. do 4 sstep. rewrite Hcu. unfold put_prev_entity. do 2 sstep.
  apply runs_seq_when; intros Hon.
  - sstep. eapply runs_mono; [eapply (update_curr_charge b c s r l k); try done; by apply Hb|]. intros [] s1 (r1 & Hcp).
    pose proof (switch_charge _ _ _ _ _ _ _ _ Hcp) as Hsw1. destruct Hcp as [Hloc1 Hinv1 Hcore1 Hh1 _ Hcurr1 _ _ _].
    pose proof (local_rq _ _ _ _ _ Hloc1) as Hr1. rewrite Hcurr in Hcurr1.
    destruct (skel_lookup s s1 p t (lo_skel _ _ _ _ _ Hloc1) Ht) as (t1 & Ht1 & Hsk1).
    destruct (skel_fields _ _ Hsk1) as (_ & _ & _ & Hk1 & Hc1 & _).
    pose proof Hinv1 as [_ _ Hft1 Hfc1 _ _ _ _ Hw1]. pose proof (lookup_nmap _ _ _ Ht1) as Hn1.
    assert (Hon1 : is_on_rq (nmap s1) p = true).
    { rewrite (same_core_on_rq _ _ p Hcore1). unfold is_on_rq. by rewrite (lookup_nmap _ _ _ Ht). }
    pose proof (local_size _ _ _ _ _ Hloc1) as Hsz1.
    eapply runs_mono.
    { eapply (__enqueue_entity_runs b fuel s1 c r1 p t1 l n); try done; [congruence|congruence| |congruence|].
      - apply (Hw1 p (norm t1)); [done|cbn; congruence].
      - eapply tree_fuel; [exact Hinv1|by rewrite Hsz1]. }
    intros [] s2 (l1 & l2 & h' & Hl & -> & Hft' & Hfr & _).
    set (cfs2 := set_cfs_rb_leftmost _ _) in *.
    eapply runs_mod_cfs; [cbn; by rewrite lookup_insert_eq|]. rewrite set_curr_state.
    exists (set_rq_cfs (set_cfs_curr None cfs2) r1), (l1 ++ p :: l2). split; [|done].
    eapply switch_trans; [exact Hsw1|]. apply switch_cfs; try done.
    + apply local_cfs_curr.
      eapply (with_tree_local b s1 c r1 _ l (l1 ++ p :: l2)); [done|done|exact Hfr|exact (ft_tree _ _ _ _ _ _ Hft')|done|].
      intros a Ha. rewrite !elem_of_cons in Ha. destruct Ha as [->|[->|Ha]]; [right|by left|right].
      * split; [|left; set_solver]. exists (norm t1). split; [done|cbn; congruence].
      * split; [|left; rewrite Hl in Ha; set_solver]. destruct (ft_tasks _ _ _ _ _ _ Hft1 a Ha) as (u & (Hu & _ & Hcua) & _). eauto.
    + eapply fair_tree_fields; [..|exact Hft']; try done. apply (ft_min _ _ _ _ _ _ Hft').
    + unfold fair_members, cfs_running. cbn. rewrite Hcurr1, Hon1, app_nil_r, Hl.
      rewrite <-Permutation_middle. by rewrite <-Permutation_cons_append.
  - eapply runs_mod_cfs; [exact Hr|]. exists (set_rq_cfs (set_cfs_curr None (rq_cfs r)) r), l. split; [|done].
    assert (Hst : set_s_rqs (<[c := set_rq_cfs (set_cfs_curr None (rq_cfs r)) r]> (s_rqs s)) s =
      set_s_nodes (s_nodes s) (with_cfs c r (set_cfs_curr None (rq_cfs r)) s)) by by destruct s.
    rewrite Hst. pose proof Hinv as [_ _ Hft _ _ _ _ _ _]. apply switch_cfs; try done.
    + rewrite <-Hst. by apply (with_cfs_local c s r (set_cfs_curr None (rq_cfs r))).
    + eapply fair_tree_fields; [..|exact Hft]; try done. apply (ft_min _ _ _ _ _ _ Hft).
    + unfold fair_members, cfs_running. cbn. rewrite Hcurr. unfold is_on_rq. rewrite (lookup_nmap _ _ _ Ht). cbn. by rewrite Hon.
Qed.

(** ** Taking the next fair task *)

Lemma pick_next_task_fair_post s c r l :
  s_rqs s !! c = Some r → cpu_inv b (nmap s) (s_nodes s) c r l → cfs_curr (rq_cfs r) = None →
  (rb_depth (size (s_tasks s)) < fuel)%nat →
  runs (pick_next_task_fair fuel c)
    (λ o s', o = head l ∧ nmap s' = nmap s ∧ ∃ r', switch_post b c s s' r r' l (tail l) ∧ cfs_curr (rq_cfs r') = o) s.
Proof.
  intros Hr Hinv Hcurr Hf. unfold pick_next_task_fair. do 2 sstep. pose proof Hinv as [_ _ Hft _ Hq _ Hnr _ _].
  assert (Hfm : fair_members (nmap s) (rq_cfs r) l = l).
  { unfold fair_members, cfs_running. rewrite Hcurr. apply app_nil_r. }
  rewrite Hfm in Hnr. destruct (Z.eqb_spec (cfs_nr_running (rq_cfs r)) 0) as [H0|H0].
  { sstep. destruct l as [|x l]; [|simpl in Hnr; lia]. split_and!; [done|done|]. exists r. split; [by apply switch_refl|done]. }
  destruct l as [|p l]; [simpl in Hnr; lia|]. pose proof (ft_left _ _ _ _ _ _ Hft) as Hleft. cbn in Hleft.
  sstep. unfold pick_next_entity, first_fair. do 3 sstep. sstep. rewrite Hleft. unfold set_next_entity. do 2 sstep.
  destruct (ft_tasks _ _ _ _ _ _ Hft p ltac:(by left)) as (u & (Hu & Hku & Hcu) & Hwu).
  apply nmap_lookup in Hu as (t & Ht & <-).
  assert (Hon : is_on_rq (nmap s) p = true) by (apply Hq; right; by left).
  assert (Hont : se_on_rq (t_se t) = true) by (unfold is_on_rq in Hon; by rewrite (lookup_nmap _ _ _ Ht) in Hon).
  eapply runs_get_task; [exact Ht|]. rewrite Hont. sstep. cbn [when].
  pose proof (tree_at_nodup _ _ _ (ft_tree _ _ _ _ _ _ Hft)) as Hnd.
  pose proof (tree_fuel _ _ _ _ _ _ Hinv Hf) as Hfl.
  assert (Hfil : filter (.≠ p) (p :: l) = l) by (apply (filter_ne_split [] l p Hnd)).
  eapply runs_mono; [eapply (__dequeue_entity_runs b fuel s c r p (p :: l)); try done; [by left|lia]|].
  intros [] s1 (h' & n & -> & Hft' & Hfr & Hnode). cbv zeta in Hft'. rewrite Hfil in *.
  set (cfs1 := set_cfs_rb_leftmost _ _) in *. sstep.
  eapply runs_mod_cfs; [cbn; by rewrite lookup_insert_eq|]. rewrite set_curr_state.
  set (s2 := set_s_nodes h' (with_cfs c r (set_cfs_curr (Some p) cfs1) s)).
  assert (Hsw : switch_post b c s s2 r (set_rq_cfs (set_cfs_curr (Some p) cfs1) r) (p :: l) l).
  { apply switch_cfs; try done.
    - apply local_cfs_curr. eapply (erase_local b); try done; [by left|]. rewrite Hfil. apply (ft_tree _ _ _ _ _ _ Hft').
    - eapply fair_tree_fields; [..|exact Hft']; try done. apply (ft_min _ _ _ _ _ _ Hft').
    - intros q [= <-]. split; [by inversion Hnd|]. exists (norm t). split; [by apply placed_task|done].
    - unfold fair_members, cfs_running. cbn. rewrite Hcurr, Hon, app_nil_r. by rewrite <-Permutation_cons_append. }
  eapply runs_mod_se_quiet; [exact Ht|done|]. intros s3 Hq3. do 2 sstep. eapply runs_lift; [done|]. sstep.
  split_and!; [done|by destruct Hq3 as (-> & _)|]. exists (set_rq_cfs (set_cfs_curr (Some p) cfs1) r). split; [|done].
  eapply switch_trans; [exact Hsw|]. apply switch_quiet; [|apply Hsw|done]. apply (local_rq _ _ _ _ _ (sp_local _ _ _ _ _ _ _ _ Hsw)).
Qed.

End switch.
