(* ===== verification/SchedSys.v ===== *)
(** * The invariant of the scheduler

    The run queues of all processors together: each satisfies the invariant of
    a processor, its counters count its members, and its running task is the
    one its fair class believes in.  An operation that works on one processor
    re-establishes the part of that processor; the frame does the rest. *)
From stdpp Require Import gmap sorting.
From S2P Require Import Prelude Rbtree RbtreeSpec RbtreeRun FindBit Sched SchedRt SchedFair SchedCore.
From S2P Require Import SchedLogic SchedRtFacts SchedFairFacts SchedInv SchedOps SchedOpsFair SchedSwitch.

(** ** The invariant *)

(** The running task of a processor; [cfs_rq->curr] is set iff it is fair. *)
Definition curr_ok (N : gmap loc task_struct) (c : nat) (r : rq) : Prop :=
  ∃ t, N !! rq_curr r = Some t ∧ t_cpu t = c ∧
    cfs_curr (rq_cfs r) = if decide (t_class t = FairClass) then Some (rq_curr r) else None.

Definition idle_ok (N : gmap loc task_struct) (c : nat) (r : rq) : Prop := ∃ t, placed N c IdleClass (rq_idle r) t.

Definition root_of (r : rq) : loc := cfs_tasks_timeline (rq_cfs r).

Record sched_inv (B : nat → Z) (s : sched) (L : nat → list loc) : Prop := mk_sched_inv {
  si_cpu : ∀ c r, s_rqs s !! c = Some r → cpu_inv (B c) (nmap s) (s_nodes s) c r (L c);
  si_counted : ∀ c r, s_rqs s !! c = Some r → counted (nmap s) r (L c);
  si_curr : ∀ c r, s_rqs s !! c = Some r → curr_ok (nmap s) c r;
  si_idle : ∀ c r, s_rqs s !! c = Some r → idle_ok (nmap s) c r;
  si_only_idle : ∀ c r p t, s_rqs s !! c = Some r → s_tasks s !! p = Some t → t_cpu t = c → t_class t = IdleClass → p = rq_idle r;
  si_roots : ∀ c c' r r', s_rqs s !! c = Some r → s_rqs s !! c' = Some r' → root_of r = root_of r' → c = c';
  si_root_task : ∀ c r, s_rqs s !! c = Some r → s_tasks s !! root_of r = None;
  si_nodes : ∀ p t, s_tasks s !! p = Some t → ∃ n, s_nodes s !! p = Some (CNode n);
  si_tasks : ∀ p t, s_tasks s !! p = Some t → task_ok t;
  si_cpus : ∀ p t, s_tasks s !! p = Some t → is_Some (s_rqs s !! t_cpu t);
  si_size : Z.of_nat (size (s_tasks s)) < 2 ^ 32
}.

(** ** The frame *)

(** Where a task belongs and how it weighs. *)
Definition ident (t : task_struct) : nat * sched_class * Z * Z :=
  (t_cpu t, t_class t, t_prio t, lw_weight (se_load (t_se t))).

Record elsewhere (c : nat) (s s' : sched) : Prop := mk_elsewhere {
  ew_rqs : ∀ c', c' ≠ c → s_rqs s' !! c' = s_rqs s !! c';
  ew_ident : ident <$> s_tasks s' = ident <$> s_tasks s;
  ew_others : ∀ c', c' ≠ c → same_on c' (nmap s) (nmap s');
  ew_heap : ∀ r a, s_rqs s !! c = Some r → a ≠ root_of r → (∀ t, nmap s !! a = Some t → t_cpu t ≠ c) →
    is_Some (s_nodes s !! a) → s_nodes s' !! a = s_nodes s !! a;
  ew_nodes : ∀ a n, s_nodes s !! a = Some (CNode n) → ∃ n', s_nodes s' !! a = Some (CNode n');
  ew_rq : ∀ r, s_rqs s !! c = Some r → ∃ r', s_rqs s' !! c = Some r' ∧ root_of r' = root_of r ∧ rq_idle r' = rq_idle r
}.

Lemma ident_lookup s s' p t :
  ident <$> s_tasks s' = ident <$> s_tasks s → s_tasks s !! p = Some t →
  ∃ t', s_tasks s' !! p = Some t' ∧ ident t' = ident t.
Proof.
  intros Hs Ht. assert (Hp : (ident <$> s_tasks s) !! p = Some (ident t)) by by rewrite lookup_fmap, Ht.
  rewrite <-Hs, lookup_fmap in Hp. destruct (s_tasks s' !! p) as [t'|]; [|done]. simpl in Hp. apply (inj Some) in Hp. eauto.
Qed.

Lemma ident_fields t t' :
  ident t = ident t' →
  t_cpu t = t_cpu t' ∧ t_class t = t_class t' ∧ t_prio t = t_prio t' ∧
  lw_weight (se_load (t_se t)) = lw_weight (se_load (t_se t')).
Proof. by intros [=]. Qed.

Lemma ident_skel s s' : skel <$> s_tasks s' = skel <$> s_tasks s → ident <$> s_tasks s' = ident <$> s_tasks s.
Proof.
  intros H. assert (Hi : ∀ u, ident <$> s_tasks u = ident <$> (skel <$> s_tasks u)).
  { intros u. rewrite <-map_fmap_compose. apply map_fmap_ext. by intros. }
  by rewrite !Hi, H.
Qed.

Lemma local_elsewhere c s s' r r' : s_rqs s !! c = Some r → local c s s' r r' → elsewhere c s s'.
Proof.
  intros Hr []. constructor; try done.
  - intros c' Hc'. rewrite lo_rqs. by rewrite lookup_insert_ne.
  - by apply ident_skel.
  - intros r0 a Hr0. rewrite Hr in Hr0. injection Hr0 as <-. apply lo_heap.
  - intros r0 Hr0. rewrite Hr in Hr0. injection Hr0 as <-. exists r'. rewrite lo_rqs, lookup_insert_eq.
    split_and!; [done|done|]. by rewrite lo_rq.
Qed.

Lemma elsewhere_trans c s1 s2 s3 : elsewhere c s1 s2 → elsewhere c s2 s3 → elsewhere c s1 s3.
Proof.
  intros [Ha1 Ha2 Ha3 Ha4 Ha5 Ha6] [Hb1 Hb2 Hb3 Hb4 Hb5 Hb6]. constructor.
  - intros c' Hc'. by rewrite Hb1, Ha1.
  - congruence.
  - intros c' Hc' p t Ht. rewrite (Ha3 c' Hc' p t Ht). exact (Hb3 c' Hc' p t Ht).
  - intros r a Hr Hne Ht Hs. destruct (Ha6 r Hr) as (r2 & Hr2 & Hroot & _).
    pose proof (Ha4 r a Hr Hne Ht Hs) as Heq. rewrite <-Heq. apply (Hb4 r2); [done|congruence| |by rewrite Heq].
    intros t' Ht' Hct'. apply nmap_lookup in Ht' as (u & Hu & <-).
    destruct (ident_lookup s2 s1 a u (eq_sym Ha2) Hu) as (u0 & Hu0 & Hid).
    apply (Ht (norm u0)); [by apply lookup_nmap|]. destruct (ident_fields _ _ Hid) as (Hcpu & _). cbn in *. congruence.
  - intros a n Hn. destruct (Ha5 a n Hn) as [n' Hn']. by apply (Hb5 a n').
  - intros r Hr. destruct (Ha6 r Hr) as (r2 & Hr2 & Hroot2 & Hid2). destruct (Hb6 r2 Hr2) as (r3 & Hr3 & Hroot3 & Hid3).
    exists r3. split_and!; [done|congruence|congruence].
Qed.

(** A change of the run queue of [c] alone. *)
Lemma elsewhere_rq c s r r' :
  s_rqs s !! c = Some r → root_of r' = root_of r → rq_idle r' = rq_idle r →
  elsewhere c s (set_s_rqs (<[c := r']> (s_rqs s)) s).
Proof.
  intros Hr Hroot Hidle. constructor; try done; cbn.
  - intros c' Hc'. by rewrite lookup_insert_ne.
  - eauto.
  - intros r0 Hr0. rewrite Hr in Hr0. injection Hr0 as <-. exists r'. by rewrite lookup_insert_eq.
Qed.

(** A change of a task of [c] that does not move it. *)
Lemma elsewhere_task c s p t t' :
  s_tasks s !! p = Some t → t_cpu t = c → ident t' = ident t →
  elsewhere c s (set_s_tasks (<[p := t']> (s_tasks s)) s).
Proof.
  intros Ht Hc Hid. constructor; try done; cbn.
  - rewrite fmap_insert. apply insert_id. by rewrite lookup_fmap, Ht, Hid.
  - intros c' Hc' q u Hu. unfold nmap. cbn. rewrite fmap_insert. destruct (decide (q = p)) as [->|Hne]; [|by rewrite lookup_insert_ne].
    rewrite lookup_insert_eq, lookup_fmap, Ht. cbn. destruct (ident_fields _ _ Hid) as (Hcpu & _).
    split; intros [= <-]; cbn in Hu; congruence.
  - eauto.
  - eauto 10.
Qed.

(** ** One processor at a time *)

(** The invariant of a processor looks only at its own tasks and cells. *)
Lemma cpu_inv_frame b N N' h h' c r l :
  cpu_inv b N h c r l → same_on c N N' → (∀ a, a ∈ root_of r :: l → h' !! a = h !! a) →
  cpu_inv b N' h' c r l ∧ members N' r l = members N r l ∧ sumw N' (members N r l) = sumw N (members N r l).
Proof.
  intros Hinv HN Hh. pose proof Hinv as [Hcpu Hrt Hft Hfc Hq Hm Hnr Hld Hw].
  assert (Hpl : ∀ k p t, placed N c k p t → placed N' c k p t).
  { intros k p t (Ht & Hk & Hc). split_and!; [|done|done]. by apply HN. }
  assert (Hon : ∀ p t, N !! p = Some t → t_cpu t = c → is_on_rq N' p = is_on_rq N p ∧ wt N' p = wt N p).
  { intros p t Ht Hc. unfold is_on_rq, wt. rewrite Ht, (proj1 (HN p t Hc) Ht). done. }
  assert (Hrun : cfs_running N' (rq_cfs r) = cfs_running N (rq_cfs r)).
  { unfold cfs_running. destruct (cfs_curr (rq_cfs r)) as [q|] eqn:Hcq; [|done].
    destruct (Hfc q Hcq) as (_ & t & (Ht & _ & Hc) & _). by destruct (Hon q t Ht Hc) as [-> _]. }
  assert (Hmem : members N' r l = members N r l) by (unfold members, fair_members; by rewrite Hrun).
  assert (Hsum : ∀ ps, (∀ p, p ∈ ps → p ∈ members N r l) → sumw N' ps = sumw N ps).
  { intros ps Hps. apply sumw_ext. intros p Hp. destruct (member_placed _ _ _ _ _ _ Hinv p (Hps p Hp)) as (t & Ht & Hc & _).
    by destruct (Hon p t Ht Hc). }
  split_and!; [|done|by apply Hsum]. constructor; try done.
  - by eapply rt_ok_frame.
  - eapply fair_tree_heap; [exact Hh|]. eapply fair_tree_tasks; [|exact Hft]. intros p t Hp Ht.
    destruct (ft_tasks _ _ _ _ _ _ Hft p Hp) as (u & (Hu & _ & Hc) & _). apply HN; [congruence|done].
  - intros p Hp. destruct (Hfc p Hp) as (Hpl' & t & Ht & Hwt). eauto.
  - intros p Hp. assert (Hpm : p ∈ members N r l) by (unfold members, fair_members; set_solver).
    destruct (member_placed _ _ _ _ _ _ Hinv p Hpm) as (t & Ht & Hc & _). destruct (Hon p t Ht Hc) as [-> _]. by apply Hq.
  - intros p t Ht Hc Hot. rewrite Hmem. apply (Hm p t); [by apply HN|done|done].
  - unfold fair_members. by rewrite Hrun.
  - unfold fair_members. rewrite Hrun, Hld. f_equal. symmetry. apply Hsum. intros p Hp. unfold members, fair_members. set_solver.
  - intros p t Ht Hc. apply (Hw p t); [by apply HN|done].
Qed.

Definition upd {A} (c : nat) (x : A) (L : nat → A) : nat → A := λ c', if decide (c' = c) then x else L c'.

Lemma upd_eq {A} c (x : A) L : upd c x L c = x.
Proof. unfold upd. by rewrite decide_True. Qed.

Lemma upd_ne {A} c c' (x : A) L : c' ≠ c → upd c x L c' = L c'.
Proof. intros. unfold upd. by rewrite decide_False. Qed.

Section frame.
Context (B : nat → Z) (s s' : sched) (L : nat → list loc) (c : nat) (r r' : rq) (l' : list loc).
Hypothesis Hinv : sched_inv B s L.
Hypothesis Hr : s_rqs s !! c = Some r.
Hypothesis Hew : elsewhere c s s'.
Hypothesis Hr' : s_rqs s' !! c = Some r'.

Lemma elsewhere_root : root_of r' = root_of r ∧ rq_idle r' = rq_idle r.
Proof. destruct (ew_rq _ _ _ Hew r Hr) as (r0 & Hr0 & ? & ?). rewrite Hr' in Hr0. by injection Hr0 as <-. Qed.

Lemma elsewhere_size : size (s_tasks s') = size (s_tasks s).
Proof. rewrite <-(map_size_fmap ident (s_tasks s')), (ew_ident _ _ _ Hew). apply map_size_fmap. Qed.

(** The other processors. *)
Lemma elsewhere_cpu c' r0 :
  c' ≠ c → s_rqs s' !! c' = Some r0 →
  cpu_inv (B c') (nmap s') (s_nodes s') c' r0 (L c') ∧ counted (nmap s') r0 (L c') ∧
  members (nmap s') r0 (L c') = members (nmap s) r0 (L c').
Proof.
  intros Hc' Hr0. rewrite (ew_rqs _ _ _ Hew c' Hc') in Hr0. pose proof (si_cpu _ _ _ Hinv c' r0 Hr0) as Hi.
  destruct (cpu_inv_frame _ _ (nmap s') _ (s_nodes s') _ _ _ Hi) as (Hi' & Hm & Hs).
  - by apply Hew.
  - pose proof (ci_tree _ _ _ _ _ _ Hi) as Hft. intros a [->|Ha]%elem_of_cons; apply (ew_heap _ _ _ Hew r); try done.
    + intros Heq. apply Hc'. by eapply (si_roots _ _ _ Hinv).
    + intros t Ht. apply nmap_lookup in Ht as (u & Hu & <-). by rewrite (si_root_task _ _ _ Hinv c' r0 Hr0) in Hu.
    + destruct (tree_at_root _ _ _ (ft_tree _ _ _ _ _ _ Hft)). eauto.
    + intros ->. destruct (ft_tasks _ _ _ _ _ _ Hft _ Ha) as (t & (Ht & _) & _). apply nmap_lookup in Ht as (u & Hu & _).
      by rewrite (si_root_task _ _ _ Hinv c r Hr) in Hu.
    + intros t Ht. destruct (ft_tasks _ _ _ _ _ _ Hft _ Ha) as (u & (Hu & _ & Hcu) & _). congruence.
    + destruct (tree_at_node _ _ _ _ (ft_tree _ _ _ _ _ _ Hft) Ha). eauto.
  - split_and!; [done| |done]. destruct (si_counted _ _ _ Hinv c' r0 Hr0). unfold counted. by rewrite Hm, Hs.
Qed.

(** No idle task is on a queue: it would be a member. *)
Lemma elsewhere_task_ok p t' :
  cpu_inv (B c) (nmap s') (s_nodes s') c r' l' → s_tasks s' !! p = Some t' → task_ok t'.
Proof.
  intros Hi Ht'. destruct (ident_lookup s' s p t' (eq_sym (ew_ident _ _ _ Hew)) Ht') as (t & Ht & Heq).
  destruct (ident_fields _ _ Heq) as (Hc1 & Hk1 & Hp1 & Hw1).
  destruct (si_tasks _ _ _ Hinv p t Ht) as [H1 H2 H3]. constructor; [rewrite <-Hk1, <-Hp1; done|rewrite <-Hk1, <-Hw1; done|].
  intros Hk. destruct (se_on_rq (t_se t')) eqn:Hon; [|done]. exfalso. destruct (decide (t_cpu t' = c)) as [Hc|Hc].
  - pose proof (ci_marked _ _ _ _ _ _ Hi p _ (lookup_nmap _ _ _ Ht') Hc Hon) as Hm.
    destruct (member_placed _ _ _ _ _ _ Hi p Hm) as (u & Hu & _ & Hku & _). rewrite (lookup_nmap _ _ _ Ht') in Hu.
    injection Hu as <-. cbn in Hku. congruence.
  - assert (Hn : nmap s !! p = Some (norm t')) by (apply (ew_others _ _ _ Hew (t_cpu t') Hc); [done|by apply lookup_nmap]).
    rewrite (lookup_nmap _ _ _ Ht) in Hn. apply (inj Some) in Hn. destruct (norm_fields _ _ Hn) as (_ & _ & _ & _ & _ & Hon1 & _).
    rewrite H3 in Hon1 by congruence. congruence.
Qed.

Lemma sched_inv_at :
  cpu_inv (B c) (nmap s') (s_nodes s') c r' l' → counted (nmap s') r' l' → curr_ok (nmap s') c r' →
  sched_inv B s' (upd c l' L).
Proof.
  intros Hi Hcnt Hcurr. destruct elsewhere_root as [Hroot Hidle].
  assert (Hid : ident <$> s_tasks s' = ident <$> s_tasks s) by apply Hew.
  assert (Hback : ∀ p t', s_tasks s' !! p = Some t' → ∃ t, s_tasks s !! p = Some t ∧ ident t = ident t').
  { intros p t' Ht'. by apply (ident_lookup s' s). }
  assert (Hcase : ∀ c0 r0, s_rqs s' !! c0 = Some r0 → c0 = c ∧ r0 = r' ∨ c0 ≠ c ∧ s_rqs s !! c0 = Some r0).
  { intros c0 r0 Hr0. destruct (decide (c0 = c)) as [->|Hne]; [left; split; congruence|right].
    split; [done|]. by rewrite <-(ew_rqs _ _ _ Hew c0 Hne). }
  assert (Hroots : ∀ c0 r0, s_rqs s' !! c0 = Some r0 → ∃ r1, s_rqs s !! c0 = Some r1 ∧ root_of r1 = root_of r0).
  { intros c0 r0 Hr0. destruct (Hcase c0 r0 Hr0) as [[-> ->]|[Hne Hr1]]; eauto. }
  constructor.
  - intros c0 r0 Hr0. destruct (Hcase c0 r0 Hr0) as [[-> ->]|[Hne Hr1]]; [by rewrite upd_eq|].
    rewrite upd_ne by done. by apply elsewhere_cpu.
  - intros c0 r0 Hr0. destruct (Hcase c0 r0 Hr0) as [[-> ->]|[Hne Hr1]]; [by rewrite upd_eq|].
    rewrite upd_ne by done. by apply elsewhere_cpu.
  - intros c0 r0 Hr0. destruct (Hcase c0 r0 Hr0) as [[-> ->]|[Hne Hr1]]; [done|].
    destruct (si_curr _ _ _ Hinv c0 r0 Hr1) as (t & Ht & Hct & Hcu). exists t. split; [|done]. by apply (ew_others _ _ _ Hew c0 Hne).
  - intros c0 r0 Hr0. destruct (Hcase c0 r0 Hr0) as [[-> ->]|[Hne Hr1]].
    + destruct (si_idle _ _ _ Hinv c r Hr) as (t & Ht & Hk & Hct). apply nmap_lookup in Ht as (u & Hu & <-).
      destruct (ident_lookup s s' _ u Hid Hu) as (u' & Hu' & Heq). destruct (ident_fields _ _ Heq) as (Hc1 & Hk1 & _).
      exists (norm u'). split_and!; [rewrite Hidle; by apply lookup_nmap|cbn in *; congruence|cbn in *; congruence].
    + destruct (si_idle _ _ _ Hinv c0 r0 Hr1) as (t & Ht & Hk & Hct). exists t. split_and!; [|done|done]. by apply (ew_others _ _ _ Hew c0 Hne).
  - intros c0 r0 p t' Hr0 Ht' Hc0 Hk0. destruct (Hback _ _ Ht') as (t & Ht & Heq). destruct (ident_fields _ _ Heq) as (Hc1 & Hk1 & _).
    destruct (Hcase c0 r0 Hr0) as [[-> ->]|[Hne Hr1]]; [rewrite Hidle; apply (si_only_idle _ _ _ Hinv c r p t)|
      apply (si_only_idle _ _ _ Hinv c0 r0 p t)]; congruence.
  - intros c0 c1 r0 r1 Hr0 Hr1 Heq. destruct (Hroots _ _ Hr0) as (q0 & Hq0 & H0), (Hroots _ _ Hr1) as (q1 & Hq1 & H1).
    eapply (si_roots _ _ _ Hinv); [done|done|congruence].
  - intros c0 r0 Hr0. destruct (Hroots _ _ Hr0) as (q0 & Hq0 & <-). destruct (s_tasks s' !! root_of q0) as [t'|] eqn:Ht'; [|done].
    destruct (Hback _ _ Ht') as (t & Ht & _). by rewrite (si_root_task _ _ _ Hinv c0 q0 Hq0) in Ht.
  - intros p t' Ht'. destruct (Hback _ _ Ht') as (t & Ht & _). destruct (si_nodes _ _ _ Hinv p t Ht) as [n Hn].
    by apply (ew_nodes _ _ _ Hew p n).
  - intros p t Ht. by apply (elsewhere_task_ok p).
  - intros p t' Ht'. destruct (Hback _ _ Ht') as (t & Ht & Heq). destruct (ident_fields _ _ Heq) as (Hc1 & _).
    rewrite <-Hc1. destruct (si_cpus _ _ _ Hinv p t Ht) as [r0 Hr0]. destruct (decide (t_cpu t = c)) as [->|Hne]; [eauto|].
    rewrite (ew_rqs _ _ _ Hew _ Hne). eauto.
  - rewrite elsewhere_size. apply Hinv.
Qed.

End frame.
