(* ===== verification/SchedActivate.v ===== *)
(** * Activating and deactivating tasks ([activate_task], [deactivate_task])

    A task enters or leaves the run queue of its processor, whatever its class,
    and the counters of the run queue follow. *)
From stdpp Require Import gmap sorting.
From S2P Require Import Prelude Rbtree RbtreeSpec RbtreeRun FindBit Sched SchedRt SchedFair SchedCore.
From S2P Require Import SchedLogic SchedRtFacts SchedFairFacts SchedInv SchedOps SchedOpsFair SchedSwitch SchedSys.

Lemma curr_budget_mono b c s k k' : k' ≤ k → curr_budget b c s k → curr_budget b c s k'.
Proof. intros Hk Hb r q t Hr Hq Ht. specialize (Hb r q t Hr Hq Ht). unfold budget in *. nia. Qed.

Lemma curr_ok_cfs N c r p : curr_ok N c r → cfs_curr (rq_cfs r) = Some p → rq_curr r = p.
Proof. intros (t & _ & _ & ->). case_decide; congruence. Qed.

Lemma sched_inv_ext B s L L' :
  (∀ c r, s_rqs s !! c = Some r → L' c = L c) → sched_inv B s L → sched_inv B s L'.
Proof.
  intros HL []. constructor; try done; intros c r Hr; rewrite (HL c r Hr); eauto.
Qed.

(** Fields of a run queue that the invariant does not read. *)
Definition same_core_rq (r r' : rq) : Prop :=
  rq_cpu r' = rq_cpu r ∧ rq_rt r' = rq_rt r ∧ rq_cfs r' = rq_cfs r ∧ rq_load r' = rq_load r ∧
  rq_nr_running r' = rq_nr_running r ∧ rq_curr r' = rq_curr r ∧ rq_idle r' = rq_idle r.

Lemma curr_ok_same N N' c r r' :
  curr_ok N c r → rq_curr r' = rq_curr r → cfs_curr (rq_cfs r') = cfs_curr (rq_cfs r) →
  (∀ t, N !! rq_curr r = Some t → ∃ t', N' !! rq_curr r = Some t' ∧ t_cpu t' = t_cpu t ∧ t_class t' = t_class t) →
  curr_ok N' c r'.
Proof.
  intros (t & Ht & Hc & Hcu) Heq Hcfs Hlook. destruct (Hlook t Ht) as (t' & Ht' & Hc' & Hk'). exists t'.
  rewrite Heq, Hcfs, Hk'. split_and!; [done|congruence|done].
Qed.

(** The tasks of [s'] are those of [s], where they were. *)
Lemma ident_nmap s s' p n :
  ident <$> s_tasks s' = ident <$> s_tasks s → nmap s !! p = Some n →
  ∃ n', nmap s' !! p = Some n' ∧ t_cpu n' = t_cpu n ∧ t_class n' = t_class n.
Proof.
  intros Hid Hn. apply nmap_lookup in Hn as (t & Ht & <-). destruct (ident_lookup _ _ _ _ Hid Ht) as (t' & Ht' & Heq).
  destruct (ident_fields _ _ Heq) as (Hc & Hk & _). exists (norm t'). split_and!; [by apply lookup_nmap|done|done].
Qed.

Lemma sched_inv_rq B s L c r r' :
  sched_inv B s L → s_rqs s !! c = Some r → same_core_rq r r' →
  let s' := set_s_rqs (<[c := r']> (s_rqs s)) s in sched_inv B s' L ∧ elsewhere c s s'.
Proof.
  intros Hinv Hr (H1 & H2 & H3 & H4 & H5 & H6 & H7) s'.
  assert (Hew : elsewhere c s s') by (apply elsewhere_rq with r; unfold root_of; by rewrite ?H3).
  assert (Hr' : s_rqs s' !! c = Some r') by (cbn; by rewrite lookup_insert_eq). split; [|done].
  apply (sched_inv_ext _ _ (upd c (L c) L)); [intros c0 r0 _; unfold upd; by case_decide; subst|].
  pose proof (si_cpu _ _ _ Hinv c r Hr) as Hci.
  eapply (sched_inv_at B s s' L c r r'); try done.
  - apply (cpu_inv_fields _ _ _ _ r); rewrite ?H3; try done. apply (ft_min _ _ _ _ _ _ (ci_tree _ _ _ _ _ _ Hci)).
  - destruct (si_counted _ _ _ Hinv c r Hr). unfold counted, members. by rewrite H2, H3, H4, H5.
  - eapply curr_ok_same; [apply (si_curr _ _ _ Hinv c r Hr)|done|by rewrite H3|eauto].
Qed.

(** ** Entering and leaving, for both classes *)

Section activate.
Context (B : nat → Z) (me : nat) (now : Z) (tn : tunables) (fuel : nat).
Hypothesis Hlat : 0 ≤ sysctl_sched_latency tn < 2 ^ 32.

Section queue.
Context (s : sched) (L : nat → list loc) (c : nat) (r : rq) (p : loc) (t : task_struct) (k : Z).
Hypothesis Hinv : sched_inv B s L.
Hypothesis Hf : (rb_depth (size (s_tasks s)) < fuel)%nat.
Hypothesis Hr : s_rqs s !! c = Some r.
Hypothesis Ht : s_tasks s !! p = Some t.
Hypothesis Hc : t_cpu t = c.
Hypothesis Hk : t_class t ≠ IdleClass.
Hypothesis Hk0 : 0 ≤ k.
Hypothesis Hb : curr_budget (B c) c s (1 + k).

Lemma enqueue_task_post w :
  se_on_rq (t_se t) = false → (w = true → rq_curr r ≠ p) →
  runs (enqueue_task tn fuel c p w) (λ _ s', ∃ r' l', queue_post (B c) c p true s s' r r' (L c) l' k) s.
Proof.
  intros Hon Hw. pose proof (si_cpu _ _ _ Hinv c r Hr) as Hci. destruct (t_class t) eqn:Hcl; [|  |done]; swap 1 2.
  - destruct (si_nodes _ _ _ Hinv p t Ht) as [n Hn]. eapply (enqueue_task_fair_post _ tn fuel Hlat); try done; [apply Hinv..|].
    intros Hwt Heq. apply (Hw Hwt). apply (curr_ok_cfs _ c r p (si_curr _ _ _ Hinv c r Hr) Heq).
  - eapply runs_mono; [eapply (enqueue_task_rt_post (B c) tn fuel s c r (L c) p t w k); try done|].
    + by apply (si_tasks _ _ _ Hinv p).
    + eapply curr_budget_mono; [|exact Hb]. lia.
    + intros [] s' [r' ?]. eauto.
Qed.

Lemma dequeue_task_post w :
  se_on_rq (t_se t) = true →
  runs (dequeue_task fuel c p w) (λ _ s', ∃ r' l', queue_post (B c) c p false s s' r r' (L c) l' k) s.
Proof.
  intros Hon. pose proof (si_cpu _ _ _ Hinv c r Hr) as Hci. destruct (t_class t) eqn:Hcl; [|  |done]; swap 1 2.
  - eapply (dequeue_task_fair_post _ tn fuel Hlat); try done; apply Hinv.
  - eapply runs_mono; [eapply (dequeue_task_rt_post (B c) fuel s c r (L c) p t w k); try done|].
    + destruct (si_curr _ _ _ Hinv c r Hr) as (n & Hn & _). apply nmap_lookup in Hn as (u & Hu & _). eauto.
    + eapply curr_budget_mono; [|exact Hb]. lia.
    + intros [] s' [r' ?]. eauto.
Qed.

End queue.

Definition same_clock (r r' : rq) : Prop := rq_clock r' = rq_clock r ∧ rq_tick_timestamp r' = rq_tick_timestamp r.

(** The counters of the run queue after the queues. *)
Definition recount (on : bool) (w : Z) (r : rq) : rq :=
  set_rq_load (set_lw_weight (u64 (lw_weight (rq_load r) + (if on then w else - w))) (rq_load r))
    (set_rq_nr_running (u64 (rq_nr_running r + (if on then 1 else -1))) r).

(** What activation ([on]) and deactivation do to the system. *)
Record active_post (c : nat) (p : loc) (on : bool) (s s' : sched) (L : nat → list loc) (r r' : rq) (l' : list loc) (k : Z) : Prop := mk_active {
  ap_inv : sched_inv B s' (upd c l' L);
  ap_rq : s_rqs s' !! c = Some r';
  ap_else : elsewhere c s s';
  ap_on : ∀ q, is_on_rq (nmap s') q = if decide (q = p) then on else is_on_rq (nmap s) q;
  ap_members : if on then members (nmap s') r' l' ≡ₚ p :: members (nmap s) r (L c)
               else members (nmap s) r (L c) ≡ₚ p :: members (nmap s') r' l';
  ap_curr : rq_curr r' = rq_curr r;
  ap_clock : same_clock r r';
  ap_skel : skel <$> s_tasks s' = skel <$> s_tasks s;
  ap_flags : flags s' = flags s;
  ap_budget : curr_budget (B c) c s' k
}.

Lemma recount_post s s' L c r r1 l' p t on k :
  sched_inv B s L → s_rqs s !! c = Some r → s_tasks s !! p = Some t →
  queue_post (B c) c p on s s' r r1 (L c) l' k →
  let s2 := set_s_rqs (<[c := recount on (lw_weight (se_load (t_se t))) r1]> (s_rqs s')) s' in
  active_post c p on s s2 L r (recount on (lw_weight (se_load (t_se t))) r1) l' k.
Proof.
  intros Hinv Hr Ht [Hloc Hi1 Hon1 Hmem1 Hcurr1 Hb1] s2. set (w := lw_weight (se_load (t_se t))) in *.
  set (r2 := recount on w r1) in *. pose proof (local_rq _ _ _ _ _ Hloc) as Hr1.
  pose proof (local_elsewhere _ _ _ _ _ Hr Hloc) as Hew1. pose proof (lo_rq _ _ _ _ _ Hloc) as Hlr.
  assert (Hew : elsewhere c s s2) by (eapply elsewhere_trans; [exact Hew1|by apply elsewhere_rq with r1]).
  assert (Hr2 : s_rqs s2 !! c = Some r2) by (cbn; by rewrite lookup_insert_eq).
  assert (Hc1 : rq_curr r1 = rq_curr r) by by rewrite Hlr.
  assert (Hwt : wt (nmap s') p = w).
  { destruct (skel_lookup s s' p t (lo_skel _ _ _ _ _ Hloc) Ht) as (t1 & Ht1 & Hsk).
    destruct (skel_fields _ _ Hsk) as (_ & _ & _ & _ & _ & _ & _ & Hw & _). unfold wt. rewrite (lookup_nmap _ _ _ Ht1). done. }
  assert (Hsum : ∀ ps, sumw (nmap s') ps = sumw (nmap s) ps).
  { intros ps. apply sumw_ext. intros q _. unfold wt, nmap. rewrite !lookup_fmap.
    assert (Hq : (skel <$> s_tasks s') !! q = (skel <$> s_tasks s) !! q) by by rewrite (lo_skel _ _ _ _ _ Hloc).
    rewrite !lookup_fmap in Hq. destruct (s_tasks s' !! q) as [u'|], (s_tasks s !! q) as [u|]; try done.
    simpl in Hq. apply (inj Some), skel_fields in Hq. cbn. by destruct Hq as (_ & _ & _ & _ & _ & _ & _ & Hq & _). }
  assert (Hcnt : counted (nmap s2) r2 l').
  { change (nmap s2) with (nmap s'). change (members (nmap s') r2 l') with (members (nmap s') r1 l').
    destruct (si_counted _ _ _ Hinv c r Hr) as [Hn Hl]. unfold counted. cbn.
    change (members (nmap s') r2 l') with (members (nmap s') r1 l'). rewrite Hlr. cbn. rewrite Hn, Hl, u64_add_l, <-Hwt.
    pose proof (members_length _ _ _ _ _ _ (si_cpu _ _ _ Hinv c r Hr)) as Hlen.
    rewrite size_nmap in Hlen. pose proof (si_size _ _ _ Hinv) as Hsz. rewrite <-!Hsum. rewrite <-Hlr.
    destruct on; rewrite Hmem1 in *; rewrite ?sumw_cons; simpl length in *; (split; [rewrite u64_small; lia|f_equal; lia]). }
  constructor; try done.
  - eapply (sched_inv_at B s s2 L c r r2 l'); try done.
    + apply (cpu_inv_fields _ _ _ _ r1); try done. apply (ft_min _ _ _ _ _ _ (ci_tree _ _ _ _ _ _ Hi1)).
    + eapply curr_ok_same; [apply (si_curr _ _ _ Hinv c r Hr)|cbn; congruence|cbn; congruence|].
      intros u Hu. by eapply ident_nmap; [apply Hew|].
  - unfold same_clock. cbn. by rewrite Hlr.
  - apply (lo_skel _ _ _ _ _ Hloc).
  - apply (lo_flags _ _ _ _ _ Hloc).
  - intros r0 q u Hr0 Hq Hu. rewrite Hr2 in Hr0. injection Hr0 as <-. by apply (Hb1 r1 q u).
Qed.

Lemma inc_nr_running_runs s c r p t Q :
  s_rqs s !! c = Some r → s_tasks s !! p = Some t →
  Q tt (set_s_rqs (<[c := recount true (lw_weight (se_load (t_se t))) r]> (s_rqs s)) s) → runs (inc_nr_running p c) Q s.
Proof.
  intros Hr Ht HQ. unfold inc_nr_running, inc_load. do 4 sstep. eapply runs_mod_rq; [cbn; by rewrite lookup_insert_eq|].
  cbn. rewrite insert_insert_eq. exact HQ.
Qed.

Lemma dec_nr_running_runs s c r p t Q :
  s_rqs s !! c = Some r → s_tasks s !! p = Some t →
  Q tt (set_s_rqs (<[c := recount false (lw_weight (se_load (t_se t))) r]> (s_rqs s)) s) → runs (dec_nr_running p c) Q s.
Proof.
  intros Hr Ht HQ. unfold dec_nr_running, dec_load. do 4 sstep. eapply runs_mod_rq; [cbn; by rewrite lookup_insert_eq|].
  cbn. rewrite insert_insert_eq. exact HQ.
Qed.

(** A step that only touches other counters of the run queue comes first. *)
Lemma active_post_rq c p on s s' L r r0 r' l' k :
  sched_inv B s L → s_rqs s !! c = Some r → same_core_rq r r0 → same_clock r r0 →
  active_post c p on (set_s_rqs (<[c := r0]> (s_rqs s)) s) s' L r0 r' l' k → active_post c p on s s' L r r' l' k.
Proof.
  intros Hinv Hr Hsc [Hk1 Hk2] [H1 H2 H3 H4 H5 H6 [H7 H7'] H8 H9 H10]. destruct (sched_inv_rq _ _ _ _ _ _ Hinv Hr Hsc) as [_ Hew].
  destruct Hsc as (_ & Hrt & Hcfs & _ & _ & Hcu & _). constructor; try done.
  - by eapply elsewhere_trans.
  - assert (Hm : members (nmap s) r0 (L c) = members (nmap s) r (L c)) by (unfold members; by rewrite Hrt, Hcfs).
    change (nmap (set_s_rqs _ s)) with (nmap s) in H5. by rewrite Hm in H5.
  - congruence.
  - split; congruence.
Qed.

Lemma curr_budget_rq b c s r r' k :
  s_rqs s !! c = Some r → cfs_curr (rq_cfs r') = cfs_curr (rq_cfs r) → rq_clock r' = rq_clock r →
  curr_budget b c s k → curr_budget b c (set_s_rqs (<[c := r']> (s_rqs s)) s) k.
Proof.
  intros Hr Hcu Hck Hb r0 q t Hr0 Hq Ht. cbn in *. rewrite lookup_insert_eq in Hr0. injection Hr0 as <-.
  unfold budget. rewrite Hck. apply (Hb r q t); congruence.
Qed.

(** The count of uninterruptible tasks, then the rest. *)
Lemma runs_uninterruptible s c r t (d : Z) (m : M unit) Q :
  s_rqs s !! c = Some r →
  (∀ r0, same_core_rq r r0 → same_clock r r0 → runs m Q (set_s_rqs (<[c := r0]> (s_rqs s)) s)) →
  runs (when (t_state t =? TASK_UNINTERRUPTIBLE)
    (mod_rq c (λ r, set_rq_nr_uninterruptible (u64 (rq_nr_uninterruptible r + d)) r));; m) Q s.
Proof.
  intros Hr Hm. apply runs_seq_when; intros _.
  - eapply runs_mod_rq; [exact Hr|]. apply Hm; [by split_and!|done].
  - specialize (Hm r). replace (set_s_rqs (<[c := r]> (s_rqs s)) s) with s in Hm; [apply Hm; [by split_and!|done]|].
    unfold set_s_rqs. rewrite insert_id by done. by destruct s.
Qed.

Section active.
Context (s : sched) (L : nat → list loc) (c : nat) (r : rq) (p : loc) (t : task_struct) (k : Z).
Hypothesis Hinv : sched_inv B s L.
Hypothesis Hf : (rb_depth (size (s_tasks s)) < fuel)%nat.
Hypothesis Hr : s_rqs s !! c = Some r.
Hypothesis Ht : s_tasks s !! p = Some t.
Hypothesis Hc : t_cpu t = c.
Hypothesis Hk : t_class t ≠ IdleClass.
Hypothesis Hk0 : 0 ≤ k.
Hypothesis Hb : curr_budget (B c) c s (1 + k).

Lemma activate_task_post w :
  se_on_rq (t_se t) = false → (w = true → rq_curr r ≠ p) →
  runs (activate_task tn fuel c p w) (λ _ s', ∃ r' l', active_post c p true s s' L r r' l' k) s.
Proof.
  intros Hon Hw. unfold activate_task. do 2 sstep. apply (runs_uninterruptible s c r t (-1)); [done|]. intros r0 Hsc [Hck Htk].
  destruct (sched_inv_rq _ _ _ _ _ _ Hinv Hr Hsc) as [Hinv0 _]. set (s0 := set_s_rqs _ s) in *.
  assert (Hr0 : s_rqs s0 !! c = Some r0) by (cbn; by rewrite lookup_insert_eq). pose proof Hsc as (_ & _ & Hcfs & _ & _ & Hcu & _).
  sstep. eapply runs_mono.
  { apply (enqueue_task_post s0 L c r0 p t k); try done; [|by rewrite Hcu]. eapply curr_budget_rq; [exact Hr|by rewrite Hcfs|done|done]. }
  intros [] s1 (r1 & l1 & Hq). destruct (skel_lookup s0 s1 p t (lo_skel _ _ _ _ _ (qp_local _ _ _ _ _ _ _ _ _ _ _ Hq)) Ht) as (t1 & Ht1 & Hsk).
  destruct (skel_fields _ _ Hsk) as (_ & _ & _ & _ & _ & _ & _ & Hwt & _).
  eapply inc_nr_running_runs; [apply (local_rq _ _ _ _ _ (qp_local _ _ _ _ _ _ _ _ _ _ _ Hq))|exact Ht1|]. rewrite Hwt.
  do 2 eexists. eapply active_post_rq; [done|done|done|done|]. by apply (recount_post s0 s1 L c r0 r1 l1 p t true k).
Qed.

Lemma deactivate_task_post w :
  se_on_rq (t_se t) = true →
  runs (deactivate_task fuel c p w) (λ _ s', ∃ r' l', active_post c p false s s' L r r' l' k) s.
Proof.
  intros Hon. unfold deactivate_task. do 2 sstep. apply (runs_uninterruptible s c r t 1); [done|]. intros r0 Hsc [Hck Htk].
  destruct (sched_inv_rq _ _ _ _ _ _ Hinv Hr Hsc) as [Hinv0 _]. set (s0 := set_s_rqs _ s) in *.
  assert (Hr0 : s_rqs s0 !! c = Some r0) by (cbn; by rewrite lookup_insert_eq). pose proof Hsc as (_ & _ & Hcfs & _).
  sstep. eapply runs_mono.
  { apply (dequeue_task_post s0 L c r0 p t k); try done. eapply curr_budget_rq; [exact Hr|by rewrite Hcfs|done|done]. }
  intros [] s1 (r1 & l1 & Hq). destruct (skel_lookup s0 s1 p t (lo_skel _ _ _ _ _ (qp_local _ _ _ _ _ _ _ _ _ _ _ Hq)) Ht) as (t1 & Ht1 & Hsk).
  destruct (skel_fields _ _ Hsk) as (_ & _ & _ & _ & _ & _ & _ & Hwt & _).
  eapply dec_nr_running_runs; [apply (local_rq _ _ _ _ _ (qp_local _ _ _ _ _ _ _ _ _ _ _ Hq))|exact Ht1|]. rewrite Hwt.
  do 2 eexists. eapply active_post_rq; [done|done|done|done|]. by apply (recount_post s0 s1 L c r0 r1 l1 p t false k).
Qed.

End active.
End activate.
