(* ===== verification/SchedSchedule.v ===== *)
(** * Choosing the next task ([pick_next_task], [schedule]) *)
From stdpp Require Import gmap sorting.
From S2P Require Import Prelude Rbtree RbtreeSpec RbtreeRun FindBit Sched SchedRt SchedFair SchedCore.
From S2P Require Import SchedLogic SchedRtFacts SchedFairFacts SchedInv SchedOps SchedOpsFair SchedSwitch SchedSys.
From S2P Require Import SchedActivate.

(** The running tasks; only they are asked to give up the processor. *)
Definition currs (s : sched) : gmap nat loc := rq_curr <$> s_rqs s.
Definition flags_ok (s : sched) : Prop := ∀ p, flags s !! p = Some true → ∃ c, currs s !! c = Some p.

Lemma currs_lookup s c r : s_rqs s !! c = Some r → currs s !! c = Some (rq_curr r).
Proof. intros Hr. unfold currs. by rewrite lookup_fmap, Hr. Qed.

Lemma currs_inv s c p : currs s !! c = Some p → ∃ r, s_rqs s !! c = Some r ∧ rq_curr r = p.
Proof. unfold currs. rewrite lookup_fmap_Some. naive_solver. Qed.

(** A step on one processor. *)
Lemma currs_elsewhere c s s' r' :
  elsewhere c s s' → s_rqs s' !! c = Some r' → currs s' = <[c := rq_curr r']> (currs s).
Proof.
  intros Hew Hr'. apply map_eq. intros c0. destruct (decide (c0 = c)) as [->|Hne].
  - rewrite lookup_insert_eq. by apply currs_lookup.
  - rewrite lookup_insert_ne by done. unfold currs. by rewrite !lookup_fmap, (ew_rqs _ _ _ Hew c0 Hne).
Qed.

(** ** The task that should run *)

Definition prio_of (N : gmap loc task_struct) (p : loc) : Z :=
  match N !! p with Some t => t_prio t | None => 0 end.

(** A real-time task of the best priority, the longest waiting of them; without
    one, a fair task whose virtual run time is least; without one, the idle
    task. *)
Inductive next_spec (b : Z) (N : gmap loc task_struct) (r : rq) (l : list loc) (next : loc) : Prop :=
| next_rt :
    head (rt_members (rq_rt r)) = Some next → (∀ q, q ∈ rt_members (rq_rt r) → prio_of N next ≤ prio_of N q) →
    next_spec b N r l next
| next_fair :
    rt_members (rq_rt r) = [] → next ∈ fair_members N (rq_cfs r) l →
    (∀ q, q ∈ fair_members N (rq_cfs r) l → voff b (vr N next) ≤ voff b (vr N q)) → next_spec b N r l next
| next_idle : members N r l = [] → next = rq_idle r → next_spec b N r l next.

Lemma rt_head_prio N c rt p q :
  rt_ok N c rt → head (rt_members rt) = Some p → q ∈ rt_members rt → prio_of N p ≤ prio_of N q.
Proof.
  intros Hok Hhd Hq. assert (Hp : p ∈ rt_members rt) by (destruct (rt_members rt); [done|]; simpl in Hhd; injection Hhd as ->; by left).
  destruct (rt_member_queue _ _ _ _ Hok Hp) as (tp & i & li & (Htp & _ & _) & Hi & _ & Hli & Hpi).
  destruct (rt_member_queue _ _ _ _ Hok Hq) as (tq & j & lj & (Htq & _ & _) & Hj & _ & Hlj & Hqj).
  unfold prio_of. rewrite Htp, Htq, Hi, Hj. destruct (le_lt_dec i j) as [?|Hlt]; [lia|exfalso].
  pose proof (rt_nodup _ _ _ Hok) as Hnd.
  unfold rt_members in Hhd. rewrite (concat_split _ _ _ Hlj) in Hhd, Hnd.
  assert (Hdrop : p ∈ concat (drop (S j) (rt_queue rt))).
  { apply elem_of_concat_lookup. exists (i - S j)%nat, li. rewrite lookup_drop. split; [|done]. rewrite <-Hli. f_equal. lia. }
  destruct (concat (take j (rt_queue rt))) as [|x xs] eqn:Htake.
  - destruct lj as [|y ys]; [by apply elem_of_nil in Hqj|]. simpl in Hhd. injection Hhd as ->. simpl in Hnd.
    apply NoDup_cons in Hnd as [Hnd _]. apply Hnd. set_solver.
  - simpl in Hhd. injection Hhd as ->. simpl in Hnd. apply NoDup_cons in Hnd as [Hnd _]. apply Hnd. set_solver.
Qed.

Lemma sumw_skel s s' ps : skel <$> s_tasks s' = skel <$> s_tasks s → sumw (nmap s') ps = sumw (nmap s) ps.
Proof.
  intros Hsk. apply sumw_ext. intros q _. unfold wt, nmap. rewrite !lookup_fmap.
  assert (Hq : (skel <$> s_tasks s') !! q = (skel <$> s_tasks s) !! q) by by rewrite Hsk.
  rewrite !lookup_fmap in Hq. destruct (s_tasks s' !! q) as [u'|], (s_tasks s !! q) as [u|]; try done.
  simpl in Hq. apply (inj Some), skel_fields in Hq. cbn. by destruct Hq as (_ & _ & _ & _ & _ & _ & _ & Hq & _).
Qed.

Lemma switch_counted b c s s' r r' l l' :
  switch_post b c s s' r r' l l' → counted (nmap s) r l → counted (nmap s') r' l'.
Proof.
  intros [Hloc _ _ Hmem _] [Hn Hl]. unfold counted. rewrite (lo_rq _ _ _ _ _ Hloc) at 1 3. cbn.
  rewrite Hn, Hl, Hmem. split; [done|]. by rewrite (sumw_skel s s') by apply Hloc.
Qed.

Section pick.
Context (b : Z) (fuel : nat) (s : sched) (c : nat) (r : rq) (l : list loc).
Hypothesis Hr : s_rqs s !! c = Some r.
Hypothesis Hinv : cpu_inv b (nmap s) (s_nodes s) c r l.
Hypothesis Hcnt : counted (nmap s) r l.
Hypothesis Hidle : idle_ok (nmap s) c r.
Hypothesis Hnone : cfs_curr (rq_cfs r) = None.
Hypothesis Hf : (rb_depth (size (s_tasks s)) < fuel)%nat.

Definition pick_post (next : loc) (s' : sched) : Prop :=
  ∃ r' l', switch_post b c s s' r r' l l' ∧ next_spec b (nmap s') r' l' next ∧ curr_ok (nmap s') c (set_rq_curr next r').

Lemma fair_members_none : fair_members (nmap s) (rq_cfs r) l = l.
Proof. unfold fair_members, cfs_running. rewrite Hnone. apply app_nil_r. Qed.

Lemma pick_idle_post : members (nmap s) r l = [] → pick_post (rq_idle r) s.
Proof.
  intros Hmem. exists r, l. split_and!; [by apply switch_refl|by apply next_idle|].
  destruct Hidle as (t & Ht & Hk & Hc). exists t. cbn. rewrite Hk. by rewrite decide_False by done.
Qed.

(** The fair class answers with the leftmost task. *)
Lemma pick_fair_post :
  rt_members (rq_rt r) = [] →
  runs (pick_next_task_fair fuel c) (λ o s', match o with Some p => pick_post p s' | None => s' = s ∧ l = [] end) s.
Proof.
  intros Hrt. assert (Hempty : l = [] → runs (pick_next_task_fair fuel c) (λ o s', o = None ∧ s' = s) s).
  { intros Hl. unfold pick_next_task_fair. do 2 sstep. rewrite (ci_nr _ _ _ _ _ _ Hinv), fair_members_none, Hl.
    by apply runs_ret. }
  destruct (decide (l = [])) as [Hl|Hl]; [eapply runs_mono; [by apply Hempty|]; intros o s' [-> ->]; done|].
  eapply runs_mono; [by eapply (pick_next_task_fair_post b fuel s c r l)|].
  intros o s' (-> & HN & r' & Hsw & Hcurr'). assert (∃ p l', l = p :: l') as (p & l' & El) by (destruct l; [done|eauto]).
  rewrite El in *. simpl in *. exists r', l'.
  pose proof Hsw as [Hloc Hinv' _ Hmem' Hrt']. assert (Hc' := ci_curr _ _ _ _ _ _ Hinv' p Hcurr').
  destruct Hc' as (Hp' & t & (Ht & Hk & Hc) & _). split_and!; [by rewrite El| |].
  - pose proof (ci_tree _ _ _ _ _ _ Hinv) as Hft. pose proof (ft_sorted _ _ _ _ _ _ Hft) as Hs.
    assert (Hfm : fair_members (nmap s') (rq_cfs r') l' ≡ₚ p :: l').
    { unfold members in Hmem'. rewrite Hrt', Hrt in Hmem'. simpl in Hmem'. by rewrite <-El, fair_members_none, El in Hmem'. }
    apply next_fair; [congruence|rewrite Hfm; by left|]. intros q. rewrite Hfm.
    rewrite HN. intros Hq. apply elem_of_cons in Hq as [->|Hq]; [done|].
    inversion Hs as [|? ? _ Hall]; subst. rewrite Forall_forall in Hall. by apply Hall.
  - exists t. cbn. rewrite Hk. by rewrite decide_True by done.
Qed.

Lemma pick_from_fair_post : rt_members (rq_rt r) = [] → runs (pick_from_fair fuel c) pick_post s.
Proof.
  intros Hrt. unfold pick_from_fair. sstep. eapply runs_mono; [by apply pick_fair_post|]. intros [p|] s'; [by intros; sstep|].
  intros [-> Hl]. unfold pick_from_idle. sstep. cbn [class_pick_next_task]. unfold pick_next_task_idle. do 2 sstep. sstep.
  eapply runs_lift; [done|]. apply pick_idle_post. unfold members. by rewrite Hrt, fair_members_none, Hl.
Qed.

Lemma pick_from_highest_post : runs (pick_from_highest fuel c) pick_post s.
Proof.
  pose proof (ci_rt _ _ _ _ _ _ Hinv) as Hok. unfold pick_from_highest. sstep. cbn [class_pick_next_task sched_class_highest].
  eapply runs_mono; [by apply (pick_next_task_rt_runs s c r)|]. intros o s' (-> & Hq & Hnil).
  destruct (head (rt_members (rq_rt r))) as [p|] eqn:Hhd.
  - sstep. exists r, l. pose proof (switch_quiet b c s s' r l Hr Hinv Hq) as Hsw. destruct Hq as (HN & _).
    split_and!; [done| |]; rewrite HN.
    + apply next_rt; [done|]. intros q. by eapply rt_head_prio.
    + assert (Hp : p ∈ rt_members (rq_rt r)).
      { destruct (rt_members (rq_rt r)); [done|]. simpl in Hhd. injection Hhd as ->. by left. }
      destruct (rt_member_queue _ _ _ _ Hok Hp) as (t & _ & _ & (Ht & Hk & Hc) & _). exists t. cbn. rewrite Hk.
      by rewrite decide_False by done.
  - rewrite Hnil by done. apply pick_from_fair_post. by destruct (rt_members (rq_rt r)).
Qed.

(** When the counters agree, no real-time task waits, and the fair class is
    asked at once. *)
Lemma pick_next_task_post : runs (pick_next_task fuel c) pick_post s.
Proof.
  unfold pick_next_task. do 2 sstep. destruct (Z.eqb_spec (rq_nr_running r) (cfs_nr_running (rq_cfs r))) as [Heq|Hne];
    [|apply pick_from_highest_post].
  assert (Hrt : rt_members (rq_rt r) = []).
  { destruct Hcnt as [Hn _]. rewrite Hn, (ci_nr _ _ _ _ _ _ Hinv) in Heq. unfold members in Heq. rewrite length_app in Heq.
    destruct (rt_members (rq_rt r)); [done|simpl in Heq; lia]. }
  sstep. cbn [class_pick_next_task]. eapply runs_mono; [by apply pick_fair_post|]. intros [p|] s'; [by intros; sstep|].
  intros [-> _]. apply pick_from_highest_post.
Qed.

End pick.

(** ** The parts of [schedule] *)

(** Bookkeeping, the clock and the counters of switches. *)
Lemma sched_inv_quiet B s s' L :
  sched_inv B s L → nmap s' = nmap s → s_nodes s' = s_nodes s → s_rqs s' = s_rqs s → sched_inv B s' L.
Proof.
  intros [] HN Hh Hrq. assert (Hback : ∀ p t', s_tasks s' !! p = Some t' → ∃ t, s_tasks s !! p = Some t ∧ norm t = norm t').
  { intros p t' Ht'. apply lookup_nmap in Ht'. rewrite HN in Ht'. by apply nmap_lookup in Ht'. }
  constructor; rewrite ?HN, ?Hh, ?Hrq; try done.
  - intros c r p t' Hr Ht' Hc Hk. destruct (Hback _ _ Ht') as (t & Ht & Hn). destruct (norm_fields _ _ Hn) as (_ & _ & Hk' & Hc' & _).
    apply (si_only_idle c r p t); congruence.
  - intros c r Hr. destruct (s_tasks s' !! root_of r) as [t'|] eqn:Ht'; [|done]. destruct (Hback _ _ Ht') as (t & Ht & _).
    by rewrite (si_root_task c r Hr) in Ht.
  - intros p t' Ht'. destruct (Hback _ _ Ht') as (t & Ht & _). by apply (si_nodes p t).
  - intros p t' Ht'. destruct (Hback _ _ Ht') as (t & Ht & Hn). destruct (norm_fields _ _ Hn) as (_ & Hp & Hk & _ & _ & Hon & _ & Hw).
    destruct (si_tasks p t Ht). constructor; [rewrite <-Hk, <-Hp|rewrite <-Hk, <-Hw|rewrite <-Hk, <-Hon]; done.
  - intros p t' Ht'. destruct (Hback _ _ Ht') as (t & Ht & Hn). destruct (norm_fields _ _ Hn) as (_ & _ & _ & <- & _).
    by apply (si_cpus p).
  - by rewrite <-size_nmap, HN, size_nmap.
Qed.

Section schedule.
Context (B : nat → Z) (me : nat) (now : Z) (tn : tunables) (fuel : nat).
Hypothesis Hlat : 0 ≤ sysctl_sched_latency tn < 2 ^ 32.

Lemma put_prev_post s L c r p t :
  sched_inv B s L → s_rqs s !! c = Some r → rq_curr r = p → s_tasks s !! p = Some t →
  (rb_depth (size (s_tasks s)) < fuel)%nat → (se_on_rq (t_se t) = true → curr_budget (B c) c s 1) →
  runs (class_put_prev_task fuel (t_class t) c p)
    (λ _ s', ∃ r' l', switch_post (B c) c s s' r r' (L c) l' ∧ cfs_curr (rq_cfs r') = None) s.
Proof.
  intros Hinv Hr Hp Ht Hf Hb. pose proof (si_cpu _ _ _ Hinv c r Hr) as Hci.
  destruct (si_curr _ _ _ Hinv c r Hr) as (n & Hn & Hcn & Hcfs). rewrite Hp, (lookup_nmap _ _ _ Ht) in Hn. injection Hn as <-.
  cbn in Hcn, Hcfs. destruct (t_class t) eqn:Hk; cbn [class_put_prev_task].
  - rewrite decide_False in Hcfs by done. eapply runs_mono; [eapply put_prev_task_rt_runs; [exact Hr|rewrite Hp; eauto|eauto]|].
    intros [] s' Hq. exists r, (L c). split; [by apply switch_quiet|done].
  - rewrite decide_True in Hcfs by done. destruct (si_nodes _ _ _ Hinv p t Ht) as [nd Hnd].
    eapply (put_prev_task_fair_post _ fuel s c r (L c) p t nd 0); try done; [congruence|apply Hinv].
  - rewrite decide_False in Hcfs by done. sstep. exists r, (L c). split; [by apply switch_refl|done].
Qed.

Lemma update_clock_core r : same_core_rq r (update_rq_clock_fields now r).
Proof. unfold update_rq_clock_fields. cbv zeta. by repeat case_match. Qed.

(** A write of the bookkeeping of a task. *)
Lemma runs_mod_task_inv s L p t f Q :
  sched_inv B s L → s_tasks s !! p = Some t → norm (f t) = norm t →
  (∀ s', s' = set_s_tasks (<[p := f t]> (s_tasks s)) s → sched_inv B s' L → nmap s' = nmap s → Q tt s') → runs (mod_task p f) Q s.
Proof.
  intros Hinv Ht Hn HQ. eapply runs_mod_task; [exact Ht|].
  assert (HN : nmap (set_s_tasks (<[p := f t]> (s_tasks s)) s) = nmap s) by by apply (nmap_quiet s p t).
  apply HQ; [done| |done]. by eapply sched_inv_quiet.
Qed.

(** Both the running task and its run queue are kept up to charges. *)
Record kept (c : nat) (s s' : sched) (r r' : rq) (L' : nat → list loc) : Prop := mk_kept {
  kp_inv : sched_inv B s' L';
  kp_rq : s_rqs s' !! c = Some r';
  kp_curr : rq_curr r' = rq_curr r;
  kp_currs : currs s' = currs s;
  kp_size : size (s_tasks s') = size (s_tasks s)
}.

Lemma schedule_sleep_post s L r t preempt :
  sched_inv B s L → s_rqs s !! me = Some r → s_tasks s !! rq_curr r = Some t →
  (if decide (t_class t = IdleClass) then t_state t = TASK_RUNNING else se_on_rq (t_se t) = true) →
  (rb_depth (size (s_tasks s)) < fuel)%nat → curr_budget (B me) me s 2 →
  runs (schedule_sleep me fuel preempt (rq_curr r))
    (λ _ s', ∃ r' L', kept me s s' r r' L' ∧ curr_budget (B me) me s' 1 ∧ flags s' = flags s) s.
Proof.
  intros Hinv Hr Ht Hrun Hf Hb. unfold schedule_sleep. do 2 sstep.
  assert (Hsame : ∃ r' L', kept me s s r r' L' ∧ curr_budget (B me) me s 1 ∧ flags s = flags s).
  { exists r, L. split_and!; [by constructor|by eapply curr_budget_mono; [|exact Hb]|done]. }
  destruct (negb (t_state t =? 0) && negb preempt) eqn:Hst; [|by sstep].
  apply andb_true_iff in Hst as [Hst _]. apply negb_true_iff, Z.eqb_neq in Hst.
  case_decide as Hk; [unfold TASK_RUNNING in Hrun; lia|]. sstep.
  destruct (negb (Z.land (t_state t) TASK_INTERRUPTIBLE =? 0) && t_sigpending t).
  - eapply runs_mod_task_inv; [exact Hinv|exact Ht|done|]. intros s' -> Hinv' HN. sstep. exists r, L. split_and!.
    + constructor; [done|done|done|done|]. by rewrite <-!size_nmap, HN.
    + intros r0 q u Hr0 Hq Hu. cbn in *. specialize (Hb r0 q).
      destruct (decide (q = rq_curr r)) as [->|Hne]; [rewrite lookup_insert_eq in Hu; injection Hu as <-|rewrite lookup_insert_ne in Hu by done];
        [specialize (Hb t Hr0 Hq Ht)|specialize (Hb u Hr0 Hq Hu)]; unfold budget in *; cbn in *; lia.
    + by apply (flags_quiet s (rq_curr r) t).
  - destruct (si_curr _ _ _ Hinv me r Hr) as (n & Hn & Hcn & _). rewrite (lookup_nmap _ _ _ Ht) in Hn. injection Hn as <-.
    eapply runs_mono; [eapply (deactivate_task_post B tn fuel Hlat s L me r (rq_curr r) t 1); try done; lia|].
    intros [] s' (r' & l' & Hap). sstep. exists r', (upd me l' L). destruct Hap. split_and!; [|done|done]. constructor; try done.
    { rewrite (currs_elsewhere me s s' r'), ap_curr by done. apply insert_id. by apply currs_lookup. }
    rewrite <-(map_size_fmap skel (s_tasks s')), ap_skel. apply map_size_fmap.
Qed.

(** What [schedule] relies on when it calls [idle_balance] on a run queue
    without members; [F] is what is known of the flags. *)
Definition balancer (c : nat) (F : gmap loc bool → gmap loc bool → Prop) (m : M unit) : Prop :=
  ∀ s L r, sched_inv B s L → s_rqs s !! c = Some r → rq_nr_running r = 0 →
    runs m (λ _ s', ∃ r' L', kept c s s' r r' L' ∧ F (flags s) (flags s') ∧
      is_on_rq (nmap s') (rq_curr r) = is_on_rq (nmap s) (rq_curr r)) s.

(** The running task is put back, and the next one taken and made current. *)
Lemma switch_to_post s L r t (voluntary : bool) :
  sched_inv B s L → s_rqs s !! me = Some r → s_tasks s !! rq_curr r = Some t →
  (rb_depth (size (s_tasks s)) < fuel)%nat → (se_on_rq (t_se t) = true → curr_budget (B me) me s 1) →
  runs (class_put_prev_task fuel (t_class t) me (rq_curr r);;
        next ← pick_next_task fuel me;
        if decide (rq_curr r = next) then mret tt else
        mod_rq me (λ r, set_rq_curr next (set_rq_nr_switches (u64 (rq_nr_switches r + 1)) r));;
        mod_task (rq_curr r) (λ t, if voluntary then set_t_nvcsw (u64 (t_nvcsw t + 1)) t
                                   else set_t_nivcsw (u64 (t_nivcsw t + 1)) t))
    (λ _ s', ∃ r' L', sched_inv B s' L' ∧ s_rqs s' !! me = Some r' ∧ flags s' = flags s ∧
      next_spec (B me) (nmap s') r' (L' me) (rq_curr r') ∧ currs s' = <[me := rq_curr r']> (currs s)) s.
Proof.
  intros Hinv Hr Ht Hf Hb. sstep. eapply runs_mono; [by eapply (put_prev_post s L me r (rq_curr r) t)|].
  intros [] s1 (r1 & l1 & Hsw1 & Hnone). pose proof (sp_local _ _ _ _ _ _ _ _ Hsw1) as Hloc1.
  pose proof (local_rq _ _ _ _ _ Hloc1) as Hr1. pose proof (switch_counted _ _ _ _ _ _ _ _ Hsw1 (si_counted _ _ _ Hinv me r Hr)) as Hcnt1.
  assert (Hidle1 : idle_ok (nmap s1) me r1).
  { destruct (si_idle _ _ _ Hinv me r Hr) as (n & Hn & Hk & Hc). unfold idle_ok. rewrite (lo_rq _ _ _ _ _ Hloc1). cbn.
    destruct (ident_nmap s s1 _ n (ident_skel _ _ (lo_skel _ _ _ _ _ Hloc1)) Hn) as (n' & Hn' & Hc' & Hk'). exists n'. split_and!; congruence. }
  sstep. eapply runs_mono.
  { apply (pick_next_task_post (B me) fuel s1 me r1 l1); try done; [apply Hsw1|by rewrite (local_size _ _ _ _ _ Hloc1)]. }
  intros next s2 (r2 & l2 & Hsw2 & Hspec & Hok). pose proof (switch_trans _ _ _ _ _ _ _ _ _ _ _ Hsw1 Hsw2) as Hsw.
  pose proof (sp_local _ _ _ _ _ _ _ _ Hsw) as Hloc. pose proof (local_rq _ _ _ _ _ Hloc) as Hr2.
  pose proof (switch_counted _ _ _ _ _ _ _ _ Hsw2 Hcnt1) as Hcnt2. pose proof (local_elsewhere _ _ _ _ _ Hr Hloc) as Hew.
  assert (Hcurr2 : rq_curr r2 = rq_curr r) by (rewrite (lo_rq _ _ _ _ _ Hloc); done).
  assert (Hinv2 : ∀ sw, let r3 := set_rq_curr next (set_rq_nr_switches sw r2) in
    let s3 := set_s_rqs (<[me := r3]> (s_rqs s2)) s2 in sched_inv B s3 (upd me l2 L)).
  { intros sw r3 s3. eapply (sched_inv_at B s s3 L me r r3 l2); try done.
    - eapply elsewhere_trans; [exact Hew|by apply elsewhere_rq with r2].
    - cbn. by rewrite lookup_insert_eq.
    - pose proof (sp_inv _ _ _ _ _ _ _ _ Hsw) as Hi. apply (cpu_inv_fields _ _ _ _ r2); try done.
      apply (ft_min _ _ _ _ _ _ (ci_tree _ _ _ _ _ _ Hi)). }
  assert (Hspec' : ∀ sw, next_spec (B me) (nmap s2) (set_rq_curr next (set_rq_nr_switches sw r2)) l2 next).
  { intros sw. destruct Hspec; [by apply next_rt|by apply next_fair|by apply next_idle]. }
  case_decide as Heq.
  - sstep. exists r2, (upd me l2 L). rewrite upd_eq. specialize (Hinv2 (rq_nr_switches r2)). cbv zeta in Hinv2.
    replace (set_rq_curr next (set_rq_nr_switches (rq_nr_switches r2) r2)) with r2 in Hinv2 by (rewrite <-Heq, <-Hcurr2; by destruct r2).
    replace (set_s_rqs _ s2) with s2 in Hinv2 by (unfold set_s_rqs; rewrite insert_id by done; by destruct s2).
    split_and!; [done|done|apply Hloc|congruence|by apply currs_elsewhere].
  - sstep. eapply runs_mod_rq; [exact Hr2|]. set (r3 := set_rq_curr next _). set (s3 := set_s_rqs _ s2).
    destruct (skel_lookup s s2 _ t (lo_skel _ _ _ _ _ Hloc) Ht) as (t2 & Ht2 & _).
    eapply (runs_mod_task_inv s3 (upd me l2 L) _ t2); [apply Hinv2|done|by destruct voluntary|].
    intros s4 -> Hinv4 HN4. exists r3, (upd me l2 L). rewrite upd_eq, HN4. split_and!; [done|cbn; by rewrite lookup_insert_eq| |apply Hspec'|].
    2:{ unfold currs. cbn. rewrite fmap_insert. change (rq_curr <$> s_rqs s2) with (currs s2).
        rewrite (currs_elsewhere _ _ _ _ Hew Hr2). by rewrite insert_insert_eq. }
    etransitivity; [|apply Hloc]. apply (flags_quiet s3 (rq_curr r) t2); [done|by destruct voluntary].
Qed.

(** The state in which [schedule] may be called. *)
Record schedulable (s : sched) (r : rq) (t : task_struct) : Prop := mk_schedulable {
  sb_rq : s_rqs s !! me = Some r;
  sb_curr : s_tasks s !! rq_curr r = Some t;
  sb_runs : if decide (t_class t = IdleClass) then t_state t = TASK_RUNNING else se_on_rq (t_se t) = true;
  sb_fuel : (rb_depth (size (s_tasks s)) < fuel)%nat;
  sb_budget : t_class t = FairClass → budget (B me) (update_rq_clock_fields now r) t 2
}.

(** The clock and the flag of the running task, before anything else. *)
Lemma schedule_enter s L r t (m : M unit) Q :
  sched_inv B s L → schedulable s r t →
  (∀ s1 t1, let r1 := update_rq_clock_fields now r in
     sched_inv B s1 L → s_rqs s1 !! me = Some r1 → currs s1 = currs s → s_tasks s1 !! rq_curr r1 = Some t1 →
     (if decide (t_class t1 = IdleClass) then t_state t1 = TASK_RUNNING else se_on_rq (t_se t1) = true) →
     size (s_tasks s1) = size (s_tasks s) → curr_budget (B me) me s1 2 → flags s1 = <[rq_curr r := false]> (flags s) →
     runs m Q s1) →
  runs (__update_rq_clock now me;; clear_tsk_need_resched (rq_curr r);; m) Q s.
Proof.
  intros Hinv [Hr Ht Hrun Hf Hb] Hm. unfold __update_rq_clock, clear_tsk_need_resched. do 2 sstep.
  pose proof (update_clock_core r) as Hsc. destruct (sched_inv_rq B s L me r _ Hinv Hr Hsc) as [Hinv1 _].
  set (r1 := update_rq_clock_fields now r) in *. set (s1 := set_s_rqs _ s) in *. destruct Hsc as (_ & _ & Hcfs & _ & _ & Hcu & _).
  sstep. eapply (runs_mod_task_inv s1 L (rq_curr r) t); [done|done|done|]. intros s2 -> Hinv2 HN2.
  apply (Hm _ (set_t_need_resched false t)); [done|cbn; by rewrite lookup_insert_eq| |cbn; by rewrite Hcu, lookup_insert_eq|done| | |].
  - unfold currs. cbn. rewrite fmap_insert, Hcu. apply insert_id. by apply currs_lookup.
  - rewrite <-!size_nmap, HN2. done.
  - intros r0 q u Hr0 Hq Hu. cbn in *. rewrite lookup_insert_eq in Hr0. injection Hr0 as <-.
    destruct (si_curr _ _ _ Hinv me r Hr) as (n & Hn & _ & Hcn). rewrite (lookup_nmap _ _ _ Ht) in Hn. injection Hn as <-.
    rewrite Hcfs, Hcn in Hq. cbn in Hq. destruct (decide (t_class t = FairClass)) as [Hk|Hk]; [|done]. injection Hq as <-. rewrite lookup_insert_eq in Hu.
    injection Hu as <-. by apply Hb.
  - unfold flags. cbn. by rewrite fmap_insert.
Qed.

Lemma schedule_once_post s L r t idle_balance F preempt :
  sched_inv B s L → schedulable s r t → balancer me F (idle_balance me) →
  runs (schedule_once me now fuel idle_balance preempt)
    (λ _ s', ∃ r' L', sched_inv B s' L' ∧ s_rqs s' !! me = Some r' ∧ currs s' = <[me := rq_curr r']> (currs s) ∧
      next_spec (B me) (nmap s') r' (L' me) (rq_curr r') ∧
      let f := <[rq_curr r := false]> (flags s) in flags s' = f ∨ F f (flags s')) s.
Proof.
  intros Hinv Hsb Hbal. unfold schedule_once. pose proof Hsb as [Hr _ _ Hf _]. do 2 sstep.
  eapply (schedule_enter s L r t); [done|done|]. intros s1 t1 r1 Hinv1 Hr1 Hcs1 Ht1 Hrun1 Hsz1 Hb1 Hfl1.
  replace (rq_curr r) with (rq_curr r1) in * by apply update_clock_core.
  sstep. eapply runs_mono; [eapply (schedule_sleep_post s1 L r1 t1 preempt); try done; by rewrite Hsz1|].
  intros v s2 (r2 & L2 & [Hinv2 Hr2 Hcu2 Hcs2 Hsz2] & Hb2 & Hfl2). do 3 sstep.
  assert (Hgo : ∀ s3 r3 L3, kept me s2 s3 r2 r3 L3 →
    (flags s3 = flags s2 ∨ F (flags s2) (flags s3)) →
    (is_on_rq (nmap s3) (rq_curr r2) = true → curr_budget (B me) me s3 1) →
    runs (t ← get_task (rq_curr r1); class_put_prev_task fuel (t_class t) me (rq_curr r1);;
        next ← pick_next_task fuel me;
        if decide (rq_curr r1 = next) then mret tt else
        mod_rq me (λ r, set_rq_curr next (set_rq_nr_switches (u64 (rq_nr_switches r + 1)) r));;
        mod_task (rq_curr r1) (λ t, if (v : bool) then set_t_nvcsw (u64 (t_nvcsw t + 1)) t
                                   else set_t_nivcsw (u64 (t_nivcsw t + 1)) t))
    (λ _ s', ∃ r' L', sched_inv B s' L' ∧ s_rqs s' !! me = Some r' ∧ currs s' = <[me := rq_curr r']> (currs s) ∧
      next_spec (B me) (nmap s') r' (L' me) (rq_curr r') ∧
      let f := <[rq_curr r1 := false]> (flags s) in flags s' = f ∨ F f (flags s')) s3).
  { intros s3 r3 L3 [Hinv3 Hr3 Hcu3 Hcs3 Hsz3] Hfl3 Hb3. assert (Hcu : rq_curr r3 = rq_curr r1) by congruence. rewrite <-Hcu.
    destruct (si_curr _ _ _ Hinv3 me r3 Hr3) as (n & Hn & _). apply nmap_lookup in Hn as (t3 & Ht3 & _).
    sstep. eapply runs_get_task; [exact Ht3|]. eapply runs_mono; [eapply (switch_to_post s3 L3 r3 t3 v); try done|].
    - by rewrite Hsz3, Hsz2, Hsz1.
    - intros Hon. apply Hb3. unfold is_on_rq. rewrite <-Hcu3, (lookup_nmap _ _ _ Ht3). done.
    - intros [] s' (r' & L' & H1 & H2 & H3 & H4 & H5). exists r', L'. split_and!; [done|done|congruence|done|]. cbv zeta.
      rewrite H3, Hcu, <-Hfl1, <-Hfl2. done. }
  apply runs_when; intros Hnr.
  - apply Z.eqb_eq in Hnr. eapply runs_mono; [by apply (Hbal s2 L2 r2)|]. intros [] s3 (r3 & L3 & Hkp & HF & Hon3).
    apply (Hgo s3 r3 L3); [done|by right|]. rewrite Hon3. intros Hon. exfalso.
    destruct (si_curr _ _ _ Hinv2 me r2 Hr2) as (n & Hn & Hcn & _). unfold is_on_rq in Hon. rewrite Hn in Hon.
    pose proof (ci_marked _ _ _ _ _ _ (si_cpu _ _ _ Hinv2 me r2 Hr2) _ _ Hn Hcn Hon) as Hmem.
    destruct (si_counted _ _ _ Hinv2 me r2 Hr2) as [Hcnt _]. rewrite Hnr in Hcnt.
    destruct (members (nmap s2) r2 (L2 me)); [by apply elem_of_nil in Hmem|simpl in Hcnt; lia].
  - apply (Hgo s2 r2 L2); [by constructor|by left|done].
Qed.

(** Without stray flags, one turn is enough. *)
Lemma schedule_post s L r t idle_balance preempt turns :
  sched_inv B s L → flags_ok s → schedulable s r t → balancer me (=) (idle_balance me) → (0 < turns)%nat →
  runs (schedule me now fuel turns idle_balance preempt)
    (λ _ s', ∃ r' L', sched_inv B s' L' ∧ flags_ok s' ∧ s_rqs s' !! me = Some r' ∧
      next_spec (B me) (nmap s') r' (L' me) (rq_curr r') ∧ flags s' !! rq_curr r' = Some false) s.
Proof.
  intros Hinv Hfl Hsb Hbal Hturns. destruct turns as [|turns]; [lia|]. cbn [schedule]. sstep.
  eapply runs_mono; [by eapply schedule_once_post|]. intros [] s' (r' & L' & Hinv' & Hr' & Hcs & Hspec & Hf). cbv zeta in Hf.
  pose proof (sb_rq _ _ _ Hsb) as Hr. pose proof (currs_lookup _ _ _ Hr) as Hcr.
  assert (Hfe : flags s' = <[rq_curr r := false]> (flags s)) by (destruct Hf; congruence). clear Hf.
  assert (Hfl' : ∀ p, flags s' !! p = Some true → ∃ c, c ≠ me ∧ currs s' !! c = Some p).
  { intros p Hp. rewrite Hfe in Hp. destruct (decide (p = rq_curr r)) as [->|Hne]; [by rewrite lookup_insert_eq in Hp|].
    rewrite lookup_insert_ne in Hp by done. destruct (Hfl p Hp) as [c Hc]. assert (c ≠ me) by congruence.
    exists c. split; [done|]. rewrite Hcs. by rewrite lookup_insert_ne. }
  destruct (si_curr _ _ _ Hinv' me r' Hr') as (n & Hn & Hcn & _). pose proof Hn as (t' & Ht' & _)%nmap_lookup.
  assert (Hnext : t_need_resched t' = false).
  { destruct (t_need_resched t') eqn:Htr; [|done]. destruct (Hfl' (rq_curr r')) as (c & Hc & Hcc).
    { unfold flags. by rewrite lookup_fmap, Ht', <-Htr. }
    apply currs_inv in Hcc as (r0 & Hr0 & Hcr0). destruct (si_curr _ _ _ Hinv' c r0 Hr0) as (n0 & Hn0 & Hcn0 & _). congruence. }
  do 4 sstep. rewrite Hnext. sstep. exists r', L'. split_and!; [done| |done|done|].
  - intros p Hp. destruct (Hfl' p Hp) as (c & _ & Hc). eauto.
  - unfold flags. by rewrite lookup_fmap, Ht', <-Hnext.
Qed.

End schedule.
