(* ===== verification/SchedWake.v ===== *)
(** * The clock and preemption ([update_rq_clock], [check_preempt_curr]) *)
From stdpp Require Import gmap sorting.
From S2P Require Import Prelude Rbtree RbtreeSpec RbtreeRun FindBit Sched SchedRt SchedFair SchedCore.
From S2P Require Import SchedLogic SchedRtFacts SchedFairFacts SchedInv SchedOps SchedOpsFair SchedSwitch SchedSys.
From S2P Require Import SchedActivate SchedSchedule.

(** ** The clock *)

(** The clock is not behind the last tick, and far from its end. *)
Definition clock_ok (hi : Z) (r : rq) : Prop := 0 ≤ rq_tick_timestamp r ≤ rq_clock r ∧ rq_clock r < hi.

(** The clock never goes back, and runs at most one tick ahead of the last. *)
Lemma clock_step now hi r :
  clock_ok hi r → hi ≤ 2 ^ 63 - 2 * TICK_NSEC →
  let r' := update_rq_clock_fields now r in
  rq_clock r ≤ rq_clock r' ≤ Z.max (rq_clock r + 1) (rq_tick_timestamp r + TICK_NSEC) ∧
  rq_tick_timestamp r' = rq_tick_timestamp r.
Proof.
  intros [[H1 H2] H3] Hhi. unfold update_rq_clock_fields. change TICK_NSEC with 10000000 in *.
  pose proof (s64_bound (now - rq_prev_clock_raw r)) as Hd. set (delta := s64 _) in *.
  destruct (Z.ltb_spec delta 0) as [Hneg|Hpos].
  { cbn. rewrite u64_small by lia. lia. }
  cbn [rq_tick_timestamp set_rq_prev_clock_raw]. rewrite (u64_small (rq_tick_timestamp r + _)) by lia.
  rewrite (u64_small (rq_clock r + delta)) by lia. destruct (Z.ltb_spec (rq_tick_timestamp r + 10000000) (rq_clock r + delta)).
  - cbn. destruct (Z.ltb_spec (rq_clock r) (rq_tick_timestamp r + 10000000)); [lia|]. rewrite u64_small; lia.
  - case_match; cbn; lia.
Qed.

Lemma clock_ok_step now hi r :
  clock_ok hi r → hi ≤ 2 ^ 63 - 2 * TICK_NSEC → clock_ok (hi + TICK_NSEC) (update_rq_clock_fields now r).
Proof.
  intros Hok Hhi. destruct (clock_step now hi r Hok Hhi) as [H1 H2]. destruct Hok as [H3 H4]. change TICK_NSEC with 10000000 in *.
  split; [rewrite H2|]; lia.
Qed.

(** A step of the clock costs one unit of the room. *)
Lemma budget_clock b now hi r t k :
  clock_ok hi r → hi ≤ 2 ^ 63 - 2 * TICK_NSEC → budget b r t (1 + k) → budget b (update_rq_clock_fields now r) t k.
Proof.
  intros Hok Hhi Hb. destruct (clock_step now hi r Hok Hhi) as [H1 _]. destruct Hok as [H3 H4]. unfold budget in *.
  change TICK_NSEC with 10000000 in *. set (e := se_exec_start (t_se t)) in *. set (c := rq_clock r) in *. set (c' := rq_clock (update_rq_clock_fields now r)) in *.
  assert (He : u64 (c' - e) ≤ u64 (c - e) + (c' - c)).
  { replace (c' - e) with ((c - e) + (c' - c)) by lia. rewrite <-u64_add_l. pose proof (u64_bound (c - e)).
    unfold u64 at 1. apply Z.mod_le; lia. }
  lia.
Qed.

Section wake.
Context (B : nat → Z) (me : nat) (now : Z) (tn : tunables) (fuel : nat).
Hypothesis Hlat : 0 ≤ sysctl_sched_latency tn < 2 ^ 32.

(** What the steps of a wake-up keep; the trees may be other trees. *)
Record steps (c : nat) (s s' : sched) (r r' : rq) (L L' : nat → list loc) : Prop := mk_steps {
  st_inv : sched_inv B s' L';
  st_rq : s_rqs s' !! c = Some r';
  st_else : elsewhere c s s';
  st_curr : rq_curr r' = rq_curr r;
  st_on : ∀ q, is_on_rq (nmap s') q = is_on_rq (nmap s) q
}.

Lemma steps_refl c s r L : sched_inv B s L → s_rqs s !! c = Some r → steps c s s r r L L.
Proof. intros Hinv Hr. constructor; try done. apply (local_elsewhere c s s r r Hr). by apply local_refl. Qed.

Lemma steps_trans c s1 s2 s3 r1 r2 r3 L1 L2 L3 :
  steps c s1 s2 r1 r2 L1 L2 → steps c s2 s3 r2 r3 L2 L3 → steps c s1 s3 r1 r3 L1 L3.
Proof.
  intros [] []. constructor; [done|done|by eapply elsewhere_trans|congruence|]. intros q. congruence.
Qed.

Lemma update_rq_clock_post s L c r hi k :
  sched_inv B s L → s_rqs s !! c = Some r → clock_ok hi r → hi ≤ 2 ^ 63 - 2 * TICK_NSEC → curr_budget (B c) c s (1 + k) →
  runs (update_rq_clock me now c) (λ _ s', ∃ r', steps c s s' r r' L L ∧ clock_ok (hi + TICK_NSEC) r' ∧
    curr_budget (B c) c s' k ∧ s_tasks s' = s_tasks s ∧ flags s' = flags s) s.
Proof.
  intros Hinv Hr Hck Hhi Hb. unfold update_rq_clock. do 2 sstep. apply runs_when; intros _.
  - unfold __update_rq_clock. eapply runs_mod_rq; [exact Hr|]. pose proof (update_clock_core now r) as Hsc.
    destruct (sched_inv_rq B s L c r _ Hinv Hr Hsc) as [Hinv' Hew]. set (r' := update_rq_clock_fields now r) in *.
    destruct Hsc as (_ & _ & Hcfs & _ & _ & Hcu & _). exists r'. split_and!; try done.
    + constructor; try done. cbn. by rewrite lookup_insert_eq.
    + by apply clock_ok_step.
    + intros r0 q t Hr0 Hq Ht. cbn in *. rewrite lookup_insert_eq in Hr0. injection Hr0 as <-.
      eapply budget_clock; [exact Hck|done|]. apply (Hb r q t); [done|congruence|done].
  - exists r. split_and!; try done; [by apply steps_refl| |eapply curr_budget_mono; [|exact Hb]; lia].
    destruct Hck as [? ?]. split; [done|]. change TICK_NSEC with 10000000. lia.
Qed.

(** ** Charging and asking for a reschedule *)

Lemma update_curr_inv s L c r k :
  sched_inv B s L → s_rqs s !! c = Some r → 0 ≤ k → curr_budget (B c) c s (1 + k) →
  runs (update_curr c) (λ _ s', ∃ r', steps c s s' r r' L L ∧ curr_budget (B c) c s' k ∧ flags s' = flags s) s.
Proof.
  intros Hinv Hr Hk Hb. eapply runs_mono.
  { eapply (update_curr_charge (B c) c s r (L c) k); try done; [by apply Hinv|apply Hinv]. }
  intros [] s' (r' & Hcp). pose proof (switch_charge _ _ _ _ _ _ _ _ Hcp) as Hsw. destruct Hcp as [Hloc Hi Hcore _ _ Hcu _ Hb' _].
  pose proof (local_rq _ _ _ _ _ Hloc) as Hr'. pose proof (local_elsewhere _ _ _ _ _ Hr Hloc) as Hew.
  assert (Hcurr : rq_curr r' = rq_curr r) by by rewrite (lo_rq _ _ _ _ _ Hloc).
  exists r'. split_and!; [|done|apply Hloc]. constructor; try done.
  - apply (sched_inv_ext _ _ (upd c (L c) L)); [intros c0 r0 _; unfold upd; by case_decide; subst|].
    eapply (sched_inv_at B s s' L c r r'); try done.
    + by apply (switch_counted _ _ _ _ _ _ _ _ Hsw), Hinv.
    + eapply curr_ok_same; [apply (si_curr _ _ _ Hinv c r Hr)|done|done|]. intros u Hu. by eapply ident_nmap; [apply Hew|].
  - intros q. by apply same_core_on_rq.
Qed.

(** The flag is set, or was; nothing else that matters changes. *)
Lemma resched_task_runs s L c r p :
  sched_inv B s L → s_rqs s !! c = Some r → is_Some (s_tasks s !! p) →
  runs (resched_task me p) (λ _ s', steps c s s' r r L L ∧ flags s' !! p = Some true) s.
Proof.
  intros Hinv Hr [t Ht]. unfold resched_task. do 2 sstep. destruct (t_need_resched t) eqn:Hfl.
  { sstep. split; [by apply steps_refl|]. unfold flags. by rewrite lookup_fmap, Ht, <-Hfl. }
  unfold set_tsk_need_resched. sstep. eapply runs_mod_task_inv; [exact Hinv|exact Ht|done|]. intros s' -> Hinv' HN.
  set (s' := set_s_tasks _ s) in *.
  assert (Hgo : ∀ ipis, let s2 := set_s_ipis ipis s' in steps c s s2 r r L L ∧ flags s2 !! p = Some true).
  { intros ipis s2. assert (HN2 : nmap s2 = nmap s) by done. split.
    - constructor; [by eapply sched_inv_quiet|done| |done|by rewrite HN2].
      constructor; try done; [|intros c' _; by rewrite HN2|eauto|eauto 10].
      cbn. rewrite fmap_insert. apply insert_id. by rewrite lookup_fmap, Ht.
    - unfold flags. cbn. by rewrite fmap_insert, lookup_insert_eq. }
  destruct (decide (t_cpu t = me)); [sstep; apply (Hgo (s_ipis s'))|].
  apply runs_when; intros _; [|apply (Hgo (s_ipis s'))]. by eexists _, _.
Qed.

(** ** Preempting the running task *)

Lemma check_preempt_wakeup_post s L c r p t ct hi :
  sched_inv B s L → s_rqs s !! c = Some r → s_tasks s !! p = Some t →
  s_tasks s !! rq_curr r = Some ct → t_class ct = FairClass →
  clock_ok hi r → hi ≤ 2 ^ 63 - 2 * TICK_NSEC → curr_budget (B c) c s 2 →
  runs (check_preempt_wakeup me now tn c p) (λ _ s', ∃ r', steps c s s' r r' L L ∧
    (rt_prio (t_prio t) = true → flags s' !! rq_curr r = Some true)) s.
Proof.
  intros Hinv Hr Ht Hct Hk Hck Hhi Hb. unfold check_preempt_wakeup, cfs_rq_of. do 10 sstep.
  destruct (si_curr _ _ _ Hinv c r Hr) as (n & Hn & Hcn & _). rewrite (lookup_nmap _ _ _ Hct) in Hn. injection Hn as <-. cbn in Hcn.
  rewrite Hcn. destruct (rt_prio (t_prio t)) eqn:Hrt.
  - sstep. eapply runs_mono; [by eapply (update_rq_clock_post s L c r hi 1)|]. intros [] s1 (r1 & Hst1 & _ & Hb1 & Htk1 & _).
    sstep. eapply runs_mono; [eapply (update_curr_inv s1 L c r1 0); [apply Hst1|apply Hst1|lia|done]|].
    intros [] s2 (r2 & Hst2 & _ & _). pose proof (steps_trans _ _ _ _ _ _ _ _ _ _ Hst1 Hst2) as Hst.
    assert (is_Some (s_tasks s2 !! rq_curr r)) as Hc2.
    { destruct (ident_lookup s s2 _ ct (ew_ident _ _ _ (st_else _ _ _ _ _ _ _ Hst)) Hct) as (u & Hu & _). eauto. }
    eapply runs_mono; [eapply (resched_task_runs s2 L c r2); [apply Hst|apply Hst|done]|].
    intros [] s3 [Hst3 Hfl]. exists r2. split; [by eapply steps_trans|done].
  - assert (Hdone : ∃ r', steps c s s r r' L L ∧ (false = true → flags s !! rq_curr r = Some true)) by (exists r; split; [by apply steps_refl|done]).
    destruct (t_policy t =? SCHED_BATCH); [by sstep|]. change (negb (sched_feat SCHED_FEAT_WAKEUP_PREEMPT)) with false. cbv iota.
    assert (Hend : ∀ s1 g, steps c s s1 r r L L → is_Some (s_tasks s1 !! rq_curr r) → runs
      (when (u64 (se_vruntime (t_se t) + g) <? se_vruntime (t_se ct)) (resched_task me (rq_curr r)))
      (λ _ s', ∃ r', steps c s s' r r' L L ∧ (false = true → flags s' !! rq_curr r = Some true)) s1).
    { intros s1 g Hst1 Hc1. apply runs_when; intros _; [|by exists r]. eapply runs_mono.
      - eapply (resched_task_runs s1 L c r); [apply Hst1|apply Hst1|done].
      - intros [] s2 [Hst2 _]. exists r. split; [by eapply steps_trans|done]. }
    sstep. destruct (lw_weight (se_load (t_se ct)) =? NICE_0_LOAD).
    { sstep. apply Hend; [by apply steps_refl|eauto]. }
    destruct (to_weight _ (si_tasks _ _ _ Hinv _ _ Hct)) as [Hw _]; [congruence|].
    assert (∃ g lw, calc_delta_fair (sysctl_sched_wakeup_granularity tn) (se_load (t_se ct)) = Some (g, lw) ∧
      lw_weight lw = lw_weight (se_load (t_se ct))) as (g & lw & Hg & Hlw).
    { unfold calc_delta_fair, calc_delta_mine, calc_inv_weight. destruct (lw_inv_weight _ =? 0); [|eexists _, _; by split].
      destruct (Z.eqb_spec (lw_weight (se_load (t_se ct))) 0); [lia|]. eexists _, _. by split. }
    do 2 sstep. sstep. eapply runs_mod_se_quiet; [exact Hct|cbn; unfold norm_se; cbn; by rewrite Hlw|].
    intros s1 Hq. sstep. destruct (quiet_lookup _ _ _ _ Hq Hct) as (u & Hu & _). pose proof (quiet_local c s s1 r Hr Hq) as Hloc.
    destruct Hq as (HN & _ & Hh & Hrq & _). apply Hend; [|eauto]. constructor; [by eapply sched_inv_quiet|by rewrite Hrq| |done|by rewrite HN].
    by eapply local_elsewhere.
Qed.

Lemma check_preempt_curr_post s L c r p t ct hi :
  sched_inv B s L → s_rqs s !! c = Some r → s_tasks s !! p = Some t → s_tasks s !! rq_curr r = Some ct →
  clock_ok hi r → hi ≤ 2 ^ 63 - 2 * TICK_NSEC → curr_budget (B c) c s 2 →
  runs (check_preempt_curr me now tn c p) (λ _ s', ∃ r', steps c s s' r r' L L ∧
    (t_prio t < Z.min MAX_RT_PRIO (t_prio ct) → flags s' !! rq_curr r = Some true)) s.
Proof.
  intros Hinv Hr Ht Hct Hck Hhi Hb. unfold check_preempt_curr. do 4 sstep.
  assert (Hre : ∀ P : Prop, runs (resched_task me (rq_curr r)) (λ _ s', ∃ r', steps c s s' r r' L L ∧ (P → flags s' !! rq_curr r = Some true)) s).
  { intros P. eapply runs_mono; [by eapply (resched_task_runs s L c r)|]. intros [] s' [Hst Hfl]. by exists r. }
  destruct (t_class ct) eqn:Hk; cbn [class_check_preempt_curr].
  - unfold check_preempt_curr_rt. do 6 sstep. apply runs_when; intros Hlt; [apply Hre|]. exists r. split; [by apply steps_refl|].
    apply Z.ltb_ge in Hlt. lia.
  - eapply runs_mono; [by eapply (check_preempt_wakeup_post s L c r p t ct hi)|]. intros [] s' (r' & Hst & Hfl). exists r'.
    split; [done|]. intros Hlt. apply Hfl. unfold rt_prio. apply Z.ltb_lt. lia.
  - unfold check_preempt_curr_idle. do 2 sstep. destruct (si_curr _ _ _ Hinv c r Hr) as (n & Hn & Hcn & _).
    rewrite (lookup_nmap _ _ _ Hct) in Hn. injection Hn as <-. rewrite <-(si_only_idle _ _ _ Hinv c r _ ct Hr Hct Hcn Hk). apply Hre.
Qed.

End wake.
