(* ===== verification/SchedMigrate.v ===== *)
(** * Waking and moving tasks ([try_to_wake_up], [set_task_cpu], [pull_task]) *)
From stdpp Require Import gmap sorting.
From S2P Require Import Prelude Rbtree RbtreeSpec RbtreeRun FindBit Sched SchedRt SchedFair SchedCore.
From S2P Require Import SchedLogic SchedRtFacts SchedFairFacts SchedInv SchedOps SchedOpsFair SchedSwitch SchedSys.
From S2P Require Import SchedActivate SchedSchedule SchedWake.

(** A task that no queue holds and no processor runs may change at will. *)
Lemma cpu_inv_swap b N N' h c r l p :
  cpu_inv b N h c r l → (∀ q, q ≠ p → N' !! q = N !! q) → p ∉ members N r l → cfs_curr (rq_cfs r) ≠ Some p →
  (∀ t, N' !! p = Some t → t_cpu t = c → se_on_rq (t_se t) = false ∧ in_window b (se_vruntime (t_se t))) →
  cpu_inv b N' h c r l ∧ members N' r l = members N r l ∧ sumw N' (members N r l) = sumw N (members N r l).
Proof.
  intros Hinv HN Hpm Hcp Hp. pose proof Hinv as [Hcpu Hrt Hft Hfc Hq Hm Hnr Hld Hw].
  assert (Hon : ∀ q, q ≠ p → is_on_rq N' q = is_on_rq N q) by (intros q Hne; unfold is_on_rq; by rewrite HN).
  assert (Hwt : ∀ ps, p ∉ ps → sumw N' ps = sumw N ps).
  { intros ps Hps. apply sumw_ext. intros q Hqp. unfold wt. rewrite HN; [done|]. by intros ->. }
  assert (Hpl : ∀ k q t, q ≠ p → placed N c k q t → placed N' c k q t) by (intros k q t Hne (Ht & ?); split; [by rewrite HN|done]).
  assert (Hrun : cfs_running N' (rq_cfs r) = cfs_running N (rq_cfs r)).
  { unfold cfs_running. destruct (cfs_curr (rq_cfs r)) as [q|]; [|done]. by rewrite Hon by congruence. }
  assert (Hmem : members N' r l = members N r l) by (unfold members, fair_members; by rewrite Hrun).
  assert (Hsub : p ∉ rt_members (rq_rt r) ∧ p ∉ fair_members N (rq_cfs r) l ∧ p ∉ l) by (unfold members, fair_members in *; set_solver).
  destruct Hsub as (Hp1 & Hp2 & Hp3). split_and!; [|done|by apply Hwt]. constructor; try done.
  - eapply rt_ok_tasks; [|done]. intros q t Hqr Ht. by rewrite HN by (by intros ->).
  - eapply fair_tree_tasks; [|done]. intros q t Hql Ht. by rewrite HN by (by intros ->).
  - intros q Hcq. destruct (Hfc q Hcq) as (Hql & t & Ht & Hwin). split; [done|]. exists t. split; [|done]. apply Hpl; congruence.
  - intros q Hqq. rewrite Hon; [by apply Hq|]. intros ->. by destruct Hqq.
  - intros q t Ht Hct Hot. rewrite Hmem. destruct (decide (q = p)) as [->|Hne].
    + destruct (Hp t Ht Hct). congruence.
    + rewrite HN in Ht by done. by apply (Hm q t).
  - unfold fair_members. by rewrite Hrun.
  - unfold fair_members in *. rewrite Hrun, Hld. f_equal. symmetry. by apply Hwt.
  - intros q t Ht Hct. destruct (decide (q = p)) as [->|Hne]; [by destruct (Hp t Ht Hct)|].
    rewrite HN in Ht by done. by apply (Hw q t).
Qed.

(** Nothing of a processor is [p]. *)
Record detached (N : gmap loc task_struct) (r : rq) (l : list loc) (p : loc) : Prop := mk_detached {
  de_member : p ∉ members N r l;
  de_cfs : cfs_curr (rq_cfs r) ≠ Some p;
  de_curr : rq_curr r ≠ p;
  de_idle : rq_idle r ≠ p;
  de_root : root_of r ≠ p
}.

(** A detached task may be replaced, or added. *)
Lemma sched_inv_put B s L p t n :
  sched_inv B s L → (∀ c r, s_rqs s !! c = Some r → detached (nmap s) r (L c) p) →
  s_nodes s !! p = Some (CNode n) → is_Some (s_rqs s !! t_cpu t) → task_ok t → t_class t ≠ IdleClass →
  se_on_rq (t_se t) = false → in_window (B (t_cpu t)) (se_vruntime (t_se t)) →
  Z.of_nat (size (<[p := t]> (s_tasks s))) < 2 ^ 32 →
  sched_inv B (set_s_tasks (<[p := t]> (s_tasks s)) s) L.
Proof.
  intros Hinv Hde Hn Hrq Hok Hk Hon Hwin Hsz. set (s' := set_s_tasks _ s).
  assert (HN : nmap s' = <[p := norm t]> (nmap s)) by (unfold nmap; cbn; by rewrite fmap_insert).
  assert (Hne : ∀ q, q ≠ p → nmap s' !! q = nmap s !! q) by (intros q Hq; rewrite HN; by rewrite lookup_insert_ne).
  assert (Hcpu : ∀ c r, s_rqs s !! c = Some r → cpu_inv (B c) (nmap s') (s_nodes s') c r (L c) ∧
    members (nmap s') r (L c) = members (nmap s) r (L c) ∧
    sumw (nmap s') (members (nmap s) r (L c)) = sumw (nmap s) (members (nmap s) r (L c))).
  { intros c r Hr. destruct (Hde c r Hr). apply (cpu_inv_swap _ (nmap s) (nmap s') _ _ _ _ p); try done; [by apply Hinv|].
    intros u Hu Hc. rewrite HN, lookup_insert_eq in Hu. injection Hu as <-. cbn in *. by subst c. }
  assert (Hlook : ∀ q u, s_tasks s' !! q = Some u → q = p ∧ u = t ∨ s_tasks s !! q = Some u).
  { intros q u Hu. cbn in Hu. destruct (decide (q = p)) as [->|Hqp]; [rewrite lookup_insert_eq in Hu; injection Hu as <-; by left|].
    rewrite lookup_insert_ne in Hu by done. by right. }
  constructor.
  - intros c r Hr. by apply Hcpu.
  - intros c r Hr. destruct (Hcpu c r Hr) as (_ & Hm & Hs). destruct (si_counted _ _ _ Hinv c r Hr). unfold counted. by rewrite Hm, Hs.
  - intros c r Hr. destruct (si_curr _ _ _ Hinv c r Hr) as (u & Hu & ?). exists u. split; [|done]. rewrite Hne; [done|apply (Hde c r Hr)].
  - intros c r Hr. destruct (si_idle _ _ _ Hinv c r Hr) as (u & Hu & ?). exists u. split; [|done]. rewrite Hne; [done|apply (Hde c r Hr)].
  - intros c r q u Hr Hu Hc Hku. destruct (Hlook q u Hu) as [[-> ->]|Hu']; [done|]. by apply (si_only_idle _ _ _ Hinv c r q u).
  - apply Hinv.
  - intros c r Hr. cbn. rewrite lookup_insert_ne; [by apply (si_root_task _ _ _ Hinv c r)|]. apply not_eq_sym, (Hde c r Hr).
  - intros q u Hu. destruct (Hlook q u Hu) as [[-> ->]|Hu']; [eauto|by apply (si_nodes _ _ _ Hinv q u)].
  - intros q u Hu. destruct (Hlook q u Hu) as [[-> ->]|Hu']; [done|by apply (si_tasks _ _ _ Hinv q)].
  - intros q u Hu. destruct (Hlook q u Hu) as [[-> ->]|Hu']; [done|by apply (si_cpus _ _ _ Hinv q)].
  - done.
Qed.

Section migrate.
Context (B : nat → Z) (me : nat) (now : Z) (tn : tunables) (fuel : nat).
Hypothesis Hlat : 0 ≤ sysctl_sched_latency tn < 2 ^ 32.

(** An idle task apart, a task that no processor runs and no queue holds. *)
Record parked (s : sched) (p : loc) (t : task_struct) : Prop := mk_parked {
  pk_task : s_tasks s !! p = Some t;
  pk_class : t_class t ≠ IdleClass;
  pk_on : se_on_rq (t_se t) = false;
  pk_curr : ∀ r, s_rqs s !! t_cpu t = Some r → rq_curr r ≠ p
}.

(** Nobody else runs it either. *)
Lemma parked_not_curr s L p t c r : sched_inv B s L → parked s p t → s_rqs s !! c = Some r → rq_curr r ≠ p.
Proof.
  intros Hinv [Ht _ _ Hpc] Hr Heq. destruct (si_curr _ _ _ Hinv c r Hr) as (n & Hn & Hc & _).
  rewrite Heq, (lookup_nmap _ _ _ Ht) in Hn. injection Hn as <-. cbn in Hc. subst c. by apply (Hpc r).
Qed.

Lemma parked_not_member s L p t c r :
  sched_inv B s L → parked s p t → s_rqs s !! c = Some r → p ∉ members (nmap s) r (L c) ∧ cfs_curr (rq_cfs r) ≠ Some p.
Proof.
  intros Hinv Hp Hr. pose proof (parked_not_curr _ _ _ _ _ _ Hinv Hp Hr) as Hne. destruct Hp as [Ht _ Hon _]. split.
  - intros Hm. destruct (member_placed _ _ _ _ _ _ (si_cpu _ _ _ Hinv c r Hr) p Hm) as (u & Hu & _ & _ & Hou).
    rewrite (lookup_nmap _ _ _ Ht) in Hu. injection Hu as <-. cbn in Hou. congruence.
  - intros Hc. apply Hne. by eapply curr_ok_cfs; [apply (si_curr _ _ _ Hinv c r Hr)|].
Qed.

(** Replace a parked task by one that belongs elsewhere. *)
Lemma sched_inv_move s L p t t' :
  sched_inv B s L → parked s p t → is_Some (s_rqs s !! t_cpu t') → task_ok t' → t_class t' ≠ IdleClass →
  se_on_rq (t_se t') = false → in_window (B (t_cpu t')) (se_vruntime (t_se t')) →
  sched_inv B (set_s_tasks (<[p := t']> (s_tasks s)) s) L.
Proof.
  intros Hinv Hpk Hrq Hok Hk Hon Hwin. pose proof Hpk as [Ht Hkt _ _].
  destruct (si_nodes _ _ _ Hinv p t Ht) as [n Hn]. apply (sched_inv_put _ _ _ _ _ n); try done.
  - intros c r Hr. destruct (parked_not_member _ _ _ _ _ _ Hinv Hpk Hr) as [Hm Hc].
    constructor; [done|done|by eapply parked_not_curr| |].
    + intros Heq. destruct (si_idle _ _ _ Hinv c r Hr) as (u & Hu & Hku & _). rewrite Heq, (lookup_nmap _ _ _ Ht) in Hu.
      by injection Hu as <-.
    + intros Heq. by rewrite <-Heq, (si_root_task _ _ _ Hinv c r Hr) in Ht.
  - rewrite map_size_insert_Some by eauto. apply Hinv.
Qed.

(** ** Moving a parked task *)

(** Where a task stands against the virtual time of its queue, and that the
    other queue has room for it. *)
Definition lag (b : Z) (cfs : cfs_rq) (v : Z) : Z := voff b v - voff b (cfs_min_vruntime cfs).
Definition fits (b : Z) (cfs : cfs_rq) (d : Z) : Prop := 0 ≤ voff b (cfs_min_vruntime cfs) + d < 2 ^ 62.

Definition moved_vruntime (old new : cfs_rq) (v : Z) : Z :=
  u64 (v - u64 (cfs_min_vruntime old - cfs_min_vruntime new)).

(** The lag moves with the task. *)
Lemma moved_lag bo bn old new v :
  in_window bo v → in_window bo (cfs_min_vruntime old) → fits bn new (lag bo old v) →
  in_window bn (moved_vruntime old new v) ∧ lag bn new (moved_vruntime old new v) = lag bo old v.
Proof.
  intros Hv Ho Hf. unfold lag, fits, in_window in *. 
  assert (Heq : voff bn (moved_vruntime old new v) = voff bn (cfs_min_vruntime new) + (voff bo v - voff bo (cfs_min_vruntime old))).
  { unfold voff, moved_vruntime, u64 in *. change (2 ^ 64) with 18446744073709551616 in *.
    change (2 ^ 62) with 4611686018427387904 in *. Z.div_mod_to_equations. lia. }
  split; [unfold in_window; lia|]. lia.
Qed.

Definition moved (new : nat) (v : Z) (t : task_struct) : task_struct := set_t_cpu new (set_vr v t).

Lemma set_task_cpu_post s L p t new ro rn :
  sched_inv B s L → parked s p t → s_rqs s !! t_cpu t = Some ro → s_rqs s !! new = Some rn →
  fits (B new) (rq_cfs rn) (lag (B (t_cpu t)) (rq_cfs ro) (se_vruntime (t_se t))) →
  let t' := moved new (moved_vruntime (rq_cfs ro) (rq_cfs rn) (se_vruntime (t_se t))) t in
  runs (set_task_cpu p new) (λ _ s', s' = set_s_tasks (<[p := t']> (s_tasks s)) s ∧ sched_inv B s' L ∧ parked s' p t') s.
Proof.
  intros Hinv Hpk Hro Hrn Hfit t'. pose proof Hpk as [Ht Hk Hon Hpc]. unfold set_task_cpu. do 6 sstep.
  eapply runs_mod_task; [exact Ht|]. pose proof (si_cpu _ _ _ Hinv _ _ Hro) as Hio.
  destruct (moved_lag (B (t_cpu t)) (B new) (rq_cfs ro) (rq_cfs rn) (se_vruntime (t_se t))) as [Hwin _]; [| |done|].
  { apply (ci_window _ _ _ _ _ _ Hio p (norm t)); [by apply lookup_nmap|done]. }
  { pose proof (ft_min _ _ _ _ _ _ (ci_tree _ _ _ _ _ _ Hio)). unfold in_window. lia. }
  assert (Hinv' : sched_inv B (set_s_tasks (<[p := t']> (s_tasks s)) s) L).
  { apply (sched_inv_move s L p t t'); [done|done|by exists rn| |done|done|done]. destruct (si_tasks _ _ _ Hinv p t Ht). by constructor. }
  split_and!; [done|done|]. constructor; [cbn; by rewrite lookup_insert_eq|done|done|].
  intros r Hr. apply (parked_not_curr s L p t new); [done|done|exact Hr].
Qed.

(** ** Waking a parked task *)

(** [p] is now runnable on the processor [c]; [r] was its run queue. *)
Record woken (s s' : sched) (c : nat) (r : rq) (p : loc) (prio : Z) (L' : nat → list loc) : Prop := mk_woken {
  wk_inv : sched_inv B s' L';
  wk_task : ∃ t', s_tasks s' !! p = Some t' ∧ t_cpu t' = c ∧ t_state t' = TASK_RUNNING;
  wk_on : ∀ q, is_on_rq (nmap s') q = if decide (q = p) then true else is_on_rq (nmap s) q;
  wk_member : ∃ r', s_rqs s' !! c = Some r' ∧ rq_curr r' = rq_curr r ∧ p ∈ members (nmap s') r' (L' c);
  wk_preempt : ∀ ct, s_tasks s !! rq_curr r = Some ct → prio < Z.min MAX_RT_PRIO (t_prio ct) → flags s' !! rq_curr r = Some true
}.

Lemma wake_activate_post s L p t r hi :
  sched_inv B s L → parked s p t → (rb_depth (size (s_tasks s)) < fuel)%nat →
  s_rqs s !! t_cpu t = Some r → clock_ok hi r → hi ≤ 2 ^ 62 → curr_budget (B (t_cpu t)) (t_cpu t) s 4 →
  runs (wake_activate me now tn fuel p) (λ _ s', ∃ L', woken s s' (t_cpu t) r p (t_prio t) L') s.
Proof.
  intros Hinv Hpk Hf Hr Hck Hhi Hb. pose proof Hpk as [Ht Hk Hon Hpc]. unfold wake_activate. do 3 sstep.
  change TICK_NSEC with 10000000 in *.
  eapply runs_mono; [eapply (update_rq_clock_post B me now s L (t_cpu t) r hi 3); try done; change TICK_NSEC with 10000000; lia|].
  intros [] s1 (r1 & Hst1 & Hck1 & Hb1 & Htk1 & Hfl1). destruct Hst1 as [Hinv1 Hr1 Hew1 Hcu1 Hon1].
  sstep. eapply runs_mono.
  { eapply (activate_task_post B tn fuel Hlat s1 L (t_cpu t) r1 p t 2); try done; rewrite ?Htk1; try done. intros _. rewrite Hcu1. by apply Hpc. }
  intros [] s2 (r2 & l2 & [Hinv2 Hr2 Hew2 Hon2 _ Hcu2 [Hclk2 Htick2] Hsk2 Hfl2 Hb2]).
  destruct (si_curr _ _ _ Hinv2 _ _ Hr2) as (n & Hn & _). apply nmap_lookup in Hn as (ct2 & Hct2 & _).
  assert (Ht1 : s_tasks s1 !! p = Some t) by by rewrite Htk1.
  destruct (skel_lookup s1 s2 p t Hsk2 Ht1) as (t2 & Ht2 & Hsk). destruct (skel_fields _ _ Hsk) as (_ & Hp2 & _ & _ & Hc2 & _).
  assert (Hck2 : clock_ok (hi + 10000000) r2) by (destruct Hck1; split; rewrite Hclk2, Htick2 || rewrite Hclk2; done).
  sstep. eapply runs_mono.
  { eapply (check_preempt_curr_post B me now tn s2 (upd (t_cpu t) l2 L) (t_cpu t) r2 p t2 ct2); try done; change TICK_NSEC with 10000000; lia. }
  intros [] s3 (r3 & [Hinv3 Hr3 Hew3 Hcu3 Hon3] & Hfl3).
  destruct (ident_lookup s2 s3 p t2 (ew_ident _ _ _ Hew3) Ht2) as (t3 & Ht3 & Hid3). destruct (ident_fields _ _ Hid3) as (Hc3 & _).
  eapply runs_mod_task_inv; [exact Hinv3|exact Ht3|done|]. intros s4 -> Hinv4 HN4. exists (upd (t_cpu t) l2 L).
  set (s4 := set_s_tasks _ s3) in *. assert (Hcu : rq_curr r3 = rq_curr r) by congruence.
  assert (Hon4 : ∀ q, is_on_rq (nmap s4) q = if decide (q = p) then true else is_on_rq (nmap s) q).
  { intros q. rewrite HN4, Hon3, Hon2. case_decide; [done|apply Hon1]. }
  constructor; [done| |done| |].
  - eexists. split_and!; [cbn; by rewrite lookup_insert_eq|cbn; congruence|done].
  - exists r3. split_and!; [done|done|]. rewrite HN4.
    apply (ci_marked _ _ _ _ _ _ (si_cpu _ _ _ Hinv3 _ _ Hr3) p (norm t3)); [by apply lookup_nmap|cbn; congruence|].
    specialize (Hon4 p). rewrite decide_True in Hon4 by done. unfold is_on_rq in Hon4. by rewrite HN4, (lookup_nmap _ _ _ Ht3) in Hon4.
  - intros ct Hct Hlt. assert (Hctp : t_prio ct2 = t_prio ct).
    { rewrite <-Hcu1, <-Hcu2, <-Htk1 in Hct. destruct (skel_lookup s1 s2 _ ct Hsk2 Hct) as (u & Hu & Hsku).
      rewrite Hct2 in Hu. injection Hu as <-. by destruct (skel_fields _ _ Hsku) as (_ & ? & _). }
    rewrite <-Hcu1, <-Hcu2. unfold flags. cbn. rewrite fmap_insert. change (t_need_resched <$> s_tasks s3) with (flags s3).
    destruct (decide (p = rq_curr r2)) as [Heq|Hne]; [|rewrite lookup_insert_ne by done; apply Hfl3; congruence].
    exfalso. apply (Hpc r Hr). congruence.
Qed.

(** ** The processor of a wake-up *)

(** The loads a wake-up looks at. *)
Definition loads_ok (s : sched) : Prop := ∀ c r, s_rqs s !! c = Some r → length (rq_cpu_load r) = 5%nat.
Definition domain_ok (sd : sched_domain) : Prop := 0 ≤ sd_wake_idx sd ≤ 5.

Lemma load_index (l : list Z) i : length l = 5%nat → 0 < i ≤ 5 → ∃ x, zlookup l (i - 1) = Some x.
Proof.
  intros Hl Hi. unfold zlookup. destruct (Z.ltb_spec (i - 1) 0); [lia|]. apply lookup_lt_is_Some_2. lia.
Qed.

Lemma source_load_runs s c r type Q :
  s_rqs s !! c = Some r → length (rq_cpu_load r) = 5%nat → 0 ≤ type ≤ 5 → (∀ x, Q x s) → runs (source_load c type) Q s.
Proof.
  intros Hr Hl Ht HQ. unfold source_load, weighted_cpuload. do 6 sstep. destruct (Z.eqb_spec type 0); [by sstep|].
  destruct (load_index _ type Hl) as [x Hx]; [lia|]. do 2 sstep. by sstep.
Qed.

Lemma target_load_runs s c r type Q :
  s_rqs s !! c = Some r → length (rq_cpu_load r) = 5%nat → 0 ≤ type ≤ 5 → (∀ x, Q x s) → runs (target_load c type) Q s.
Proof.
  intros Hr Hl Ht HQ. unfold target_load, weighted_cpuload. do 6 sstep. destruct (Z.eqb_spec type 0); [by sstep|].
  destruct (load_index _ type Hl) as [x Hx]; [lia|]. do 2 sstep. by sstep.
Qed.

(** The choice does not change anything. *)
Lemma wake_here_runs s L sd c r mine p t sync :
  sched_inv B s L → loads_ok s → domain_ok sd → s_rqs s !! c = Some r → s_rqs s !! me = Some mine → s_tasks s !! p = Some t →
  runs (wake_here me sd c p sync) (λ _ s', s' = s) s.
Proof.
  intros Hinv Hl Hd Hr Hme Ht. unfold wake_here. sstep. eapply source_load_runs; [exact Hr|by apply (Hl c)|done|]. intros load.
  sstep. eapply target_load_runs; [exact Hme|by apply (Hl me)|done|]. intros this_load. do 5 sstep.
  assert (Hend : ∀ affine : bool, runs (if affine then mret true else
    if negb (Z.land (sd_flags sd) SD_WAKE_BALANCE =? 0) then
      mret (u64 (u32 (100 + u32 (sd_imbalance_pct sd - 100) / 2) * this_load) <=? u64 (100 * load)) else mret false)
    (λ _ s', s' = s) s) by (intros [|]; repeat case_match; by sstep).
  destruct (negb (Z.land (sd_flags sd) SD_WAKE_AFFINE =? 0)); [|sstep; apply (Hend false)].
  destruct (sync && negb (task_hot t (rq_clock r))); [sstep; apply (Hend true)|].
  destruct (si_curr _ _ _ Hinv me mine Hme) as (n & Hn & _). apply nmap_lookup in Hn as (ct & Hct & _).
  unfold cpu_avg_load_per_task, weighted_cpuload. do 13 sstep. eapply target_load_runs; [exact Hr|by apply (Hl c)|done|].
  intros target. sstep. apply Hend.
Qed.

Lemma wake_cpu_runs s L domains p t mine sync :
  sched_inv B s L → loads_ok s → Forall domain_ok domains → s_rqs s !! me = Some mine → s_tasks s !! p = Some t →
  runs (wake_cpu me domains p sync) (λ c s', s' = s ∧
    (c = t_cpu t ∨ c = me ∧ cpumask_test_cpu me (t_cpus_allowed t) = true)) s.
Proof.
  intros Hinv Hl Hd Hme Ht. unfold wake_cpu. do 2 sstep. destruct (decide (t_cpu t = me)); [sstep; auto|].
  destruct (cpumask_test_cpu me (t_cpus_allowed t)) eqn:Hm; cbn [negb]; [|sstep; auto].
  destruct (list_find _ domains) as [[i sd]|] eqn:Hf; cbn; [|sstep; auto]. apply list_find_Some in Hf as (Hi & _ & _).
  destruct (si_cpus _ _ _ Hinv p t Ht) as [r Hr]. sstep. eapply runs_mono.
  { eapply (wake_here_runs s L sd (t_cpu t) r mine p t sync); try done. by eapply Forall_lookup_1. }
  intros here s' ->. sstep. split; [done|]. destruct here; auto.
Qed.

(** ** The wake-up *)

(** Room on every processor for the steps of a wake-up. *)
Definition roomy (s : sched) : Prop :=
  ∀ c r, s_rqs s !! c = Some r → clock_ok (2 ^ 62) r ∧ curr_budget (B c) c s 4.

Lemma try_to_wake_up_post s L domains p t mine state sync :
  sched_inv B s L → loads_ok s → Forall domain_ok domains → s_rqs s !! me = Some mine → parked s p t →
  (rb_depth (size (s_tasks s)) < fuel)%nat → roomy s →
  (∀ ro, s_rqs s !! t_cpu t = Some ro → fits (B me) (rq_cfs mine) (lag (B (t_cpu t)) (rq_cfs ro) (se_vruntime (t_se t)))) →
  Z.land (t_state t) state ≠ 0 →
  runs (try_to_wake_up me now tn fuel domains p state sync) (λ res s', res = true ∧ ∃ c r L',
    (c = t_cpu t ∨ c = me ∧ cpumask_test_cpu me (t_cpus_allowed t) = true) ∧
    s_rqs s !! c = Some r ∧ woken s s' c r p (t_prio t) L') s.
Proof.
  intros Hinv Hl Hd Hme Hpk Hf Hroom Hfit Hst. pose proof Hpk as [Ht Hk Hon Hpc]. destruct (si_cpus _ _ _ Hinv p t Ht) as [r Hr].
  unfold try_to_wake_up. do 2 sstep. destruct (Z.eqb_spec (Z.land (t_state t) state) 0) as [|_]; [done|]. rewrite Hon.
  do 2 sstep. rewrite decide_False by (by apply Hpc). sstep. eapply runs_mono; [by eapply (wake_cpu_runs s L domains p t mine)|].
  intros c s' [-> Hc]. case_decide as Heq.
  - sstep. destruct (Hroom _ _ Hr). eapply runs_mono; [by eapply (wake_activate_post s L p t r (2 ^ 62))|].
    intros [] s' (L' & Hw). sstep. split; [done|]. exists (t_cpu t), r, L'. auto.
  - destruct Hc as [->|[-> Hm]]; [done|]. sstep.
    eapply runs_mono; [eapply (set_task_cpu_post s L p t me r mine); try done; by apply Hfit|].
    intros [] s1 (Hs1 & Hinv1 & Hpk1). set (t1 := moved _ _ t) in *. pose proof (pk_task _ _ _ Hpk1) as Ht1. do 2 sstep.
    change (t_state t1) with (t_state t). destruct (Z.eqb_spec (Z.land (t_state t) state) 0) as [|_]; [done|].
    change (se_on_rq (t_se t1)) with (se_on_rq (t_se t)). rewrite Hon. sstep. destruct (Hroom _ _ Hme) as [Hck Hb].
    assert (Hne : rq_curr mine ≠ p) by (by apply (parked_not_curr s L p t me mine)).
    eapply runs_mono; [eapply (wake_activate_post s1 L p t1 mine (2 ^ 62)); try done|].
    + rewrite Hs1. cbn. by rewrite map_size_insert_Some by eauto.
    + by rewrite Hs1.
    + intros r0 q u Hr0 Hq Hu. rewrite Hs1 in Hr0, Hu. cbn in Hr0, Hu. rewrite Hme in Hr0. injection Hr0 as <-.
      assert (rq_curr mine = q) by (by eapply curr_ok_cfs; [apply (si_curr _ _ _ Hinv me mine Hme)|]).
      rewrite lookup_insert_ne in Hu by congruence. by apply (Hb mine q).
    + intros [] s' (L' & [H1 H2 H3 H4 H5]). sstep. split; [done|]. exists me, mine, L'. split_and!; [by auto|done|].
      constructor; try done.
      * intros q. rewrite H3. case_decide; [done|]. rewrite Hs1. unfold is_on_rq, nmap. cbn. rewrite fmap_insert.
        by rewrite lookup_insert_ne.
      * intros ct Hct. apply H5. rewrite Hs1. cbn. by rewrite lookup_insert_ne by congruence.
Qed.

End migrate.
