(* ===== verification/SchedBoot.v ===== *)
(** * The scheduler after [sched_init] *)
From stdpp Require Import gmap sorting.
From S2P Require Import Prelude Rbtree RbtreeSpec RbtreeLogic RbtreeRun FindBit FindBitProps Sched SchedRt SchedFair SchedCore.
From S2P Require Import SchedLogic SchedRtFacts SchedFairFacts SchedInv SchedOps SchedOpsFair SchedSwitch SchedSys.
From S2P Require Import SchedActivate SchedSchedule SchedWake SchedMigrate.

(** Virtual time starts 2^20 before the wrap; the window starts 2^33 earlier. *)
Definition boot_base : Z := u64 (- 2 ^ 20 - 2 ^ 33).

(** The bitmap with only its delimiter. *)
Lemma init_rt_rq_run :
  init_rt_rq = Some (mk_rt [0; Z.shiftl 1 36] (replicate 100 []) 0 (LHead 0) (LHead 0)).
Proof. vm_compute. reflexivity. Qed.

Lemma init_rt_ok N c rt : init_rt_rq = Some rt → rt_ok N c rt ∧ rt_members rt = [].
Proof.
  rewrite init_rt_rq_run. intros [= <-].
  assert (Hq : ∀ i l, replicate 100 ([] : list loc) !! i = Some l → l = []).
  { intros i l Hl. by apply lookup_replicate in Hl as [-> _]. }
  split; [|done]. constructor; cbn [rt_bitmap rt_queue].
  - apply Forall_cons; split; [vm_compute; split; congruence|]. apply Forall_cons; split; [vm_compute; split; congruence|done].
  - done.
  - done.
  - vm_compute. done.
  - intros i l Hl. rewrite (Hq i l Hl). cbn. pose proof (lookup_lt_Some _ _ _ Hl) as Hi.
    change (i < 100)%nat in Hi.
    apply (Forall_lookup_1 (λ i, bitmap_bit [0; Z.shiftl 1 36] (Z.of_nat i) = false) (seq 0 100) i i); [|by apply lookup_seq].
    repeat constructor.
  - apply NoDup_nil. done.
  - intros i l p Hl Hp. rewrite (Hq i l Hl) in Hp. by apply elem_of_nil in Hp.
Qed.

Lemma init_cpu_inv b N h c root idle r :
  sched_init_rq c root idle = Some r → b = boot_base → h !! root = Some (CPtr None) →
  (∀ p t, N !! p = Some t → t_cpu t = c → se_on_rq (t_se t) = false ∧ in_window b (se_vruntime (t_se t))) →
  cpu_inv b N h c r [] ∧ counted N r [] ∧ root_of r = root ∧ rq_idle r = idle ∧ rq_curr r = idle ∧ cfs_curr (rq_cfs r) = None.
Proof.
  intros Hr -> Hroot HN. unfold sched_init_rq in Hr. destruct init_rt_rq as [rt|] eqn:Hrt; [|done]. injection Hr as <-.
  destruct (init_rt_ok N c rt Hrt) as [Hok Hnil]. clear Hrt.
  split_and!; try done; [|split; unfold members; cbn; by rewrite Hnil]. constructor; cbn; try done.
  - constructor; cbn; [|apply SSorted_nil|done|by intros p ?%elem_of_nil|vm_compute; split; congruence].
    exists E. split; [by split_and!; [| |apply NoDup_nil]|]. split; [|done]. split; [done|]. by exists 0%nat.
  - intros p [Hp|Hp]; [rewrite Hnil in Hp|]; by apply elem_of_nil in Hp.
  - intros p t Ht Hc Hon. destruct (HN p t Ht Hc). congruence.
  - intros p t Ht Hc. by apply (HN p t).
Qed.

(** A processor after the loop of [sched_init] and [init_idle]. *)
Record booted (s : sched) (roots idles : nat → loc) (clock : Z) : Prop := mk_booted {
  bo_rqs : ∀ c r, s_rqs s !! c = Some r → sched_init_rq c (roots c) (idles c) = Some r ∧
    s_nodes s !! roots c = Some (CPtr None) ∧ s_tasks s !! roots c = None ∧
    ∃ t, s_tasks s !! idles c = Some (init_idle_task c clock t);
  bo_roots : ∀ c c', is_Some (s_rqs s !! c) → is_Some (s_rqs s !! c') → roots c = roots c' → c = c';
  bo_tasks : ∀ p t, s_tasks s !! p = Some t →
    ∃ c t0, is_Some (s_rqs s !! c) ∧ p = idles c ∧ t = init_idle_task c clock t0 ∧ se_vruntime (t_se t0) = 0;
  bo_nodes : ∀ p t, s_tasks s !! p = Some t → ∃ n, s_nodes s !! p = Some (CNode n);
  bo_size : Z.of_nat (size (s_tasks s)) < 2 ^ 32
}.

Lemma booted_inv s roots idles clock : booted s roots idles clock → sched_inv (λ _, boot_base) s (λ _, []).
Proof.
  intros [Hrqs Hroots Htasks Hnodes Hsize].
  assert (Hcpu : ∀ c r, s_rqs s !! c = Some r → cpu_inv boot_base (nmap s) (s_nodes s) c r [] ∧ counted (nmap s) r [] ∧
    root_of r = roots c ∧ rq_idle r = idles c ∧ rq_curr r = idles c ∧ cfs_curr (rq_cfs r) = None).
  { intros c r Hr. destruct (Hrqs c r Hr) as (Hi & Hn & _). eapply init_cpu_inv; [done|done|done|].
    intros p n Hp _. apply nmap_lookup in Hp as (t & Ht & <-). destruct (Htasks p t Ht) as (c0 & t0 & _ & _ & -> & Hv).
    cbn. rewrite Hv. split; [done|vm_compute; congruence]. }
  constructor; try done.
  - intros c r Hr. apply (Hcpu c r Hr).
  - intros c r Hr. apply (Hcpu c r Hr).
  - intros c r Hr. destruct (Hcpu c r Hr) as (_ & _ & _ & _ & Hcu & Hnone). destruct (Hrqs c r Hr) as (_ & _ & _ & t & Ht).
    eexists. rewrite Hcu, Hnone. split; [by apply lookup_nmap|]. split; [done|]. by rewrite decide_False by done.
  - intros c r Hr. destruct (Hcpu c r Hr) as (_ & _ & _ & Hid & _). destruct (Hrqs c r Hr) as (_ & _ & _ & t & Ht).
    eexists. rewrite Hid. split; [by apply lookup_nmap|]. by split.
  - intros c r p t Hr Ht Hc _. destruct (Hcpu c r Hr) as (_ & _ & _ & -> & _). destruct (Htasks p t Ht) as (c0 & t0 & _ & -> & -> & _).
    cbn in Hc. by subst.
  - intros c c' r r' Hr Hr' Heq. apply Hroots; [by exists r|by exists r'|].
    destruct (Hcpu c r Hr) as (_ & _ & <- & _), (Hcpu c' r' Hr') as (_ & _ & <- & _). done.
  - intros c r Hr. destruct (Hcpu c r Hr) as (_ & _ & -> & _). by destruct (Hrqs c r Hr) as (_ & _ & ? & _).
  - intros p t Ht. destruct (Htasks p t Ht) as (c0 & t0 & _ & _ & -> & _). by constructor.
  - intros p t Ht. destruct (Htasks p t Ht) as (c0 & t0 & Hc0 & _ & -> & _). done.
Qed.

(** A new task that is on no queue. *)
Lemma sched_inv_add B s L p t n :
  sched_inv B s L → s_tasks s !! p = None → s_nodes s !! p = Some (CNode n) → is_Some (s_rqs s !! t_cpu t) →
  task_ok t → t_class t ≠ IdleClass → se_on_rq (t_se t) = false → in_window (B (t_cpu t)) (se_vruntime (t_se t)) →
  Z.of_nat (S (size (s_tasks s))) < 2 ^ 32 →
  sched_inv B (set_s_tasks (<[p := t]> (s_tasks s)) s) L.
Proof.
  intros Hinv Hp Hn Hrq Hok Hk Hon Hwin Hsz. apply (sched_inv_put _ _ _ _ _ n); try done; [|by rewrite map_size_insert_None].
  assert (Hnp : nmap s !! p = None) by (unfold nmap; by rewrite lookup_fmap, Hp).
  intros c r Hr. pose proof (si_cpu _ _ _ Hinv c r Hr) as Hci. constructor.
  - intros Hm. destruct (member_placed _ _ _ _ _ _ Hci p Hm) as (u & Hu & _). congruence.
  - intros Hc. destruct (ci_curr _ _ _ _ _ _ Hci p Hc) as (_ & u & (Hu & _) & _). congruence.
  - intros Heq. destruct (si_curr _ _ _ Hinv c r Hr) as (u & Hu & _). congruence.
  - intros Heq. destruct (si_idle _ _ _ Hinv c r Hr) as (u & Hu & _). congruence.
  - intros Heq. destruct (tree_at_root _ _ _ (ft_tree _ _ _ _ _ _ (ci_tree _ _ _ _ _ _ Hci))) as [x Hx]. unfold root_of in Heq. congruence.
Qed.
