(* ===== verification/SchedDemo.v ===== *)
(** * A small system

    Two processors and three tasks, on which the theorems are applied. *)
From stdpp Require Import gmap sorting.
From S2P Require Import Prelude Rbtree RbtreeSpec RbtreeRun FindBit Sched SchedRt SchedFair SchedCore.
From S2P Require Import SchedLogic SchedRtFacts SchedFairFacts SchedInv SchedOps SchedOpsFair SchedSwitch SchedSys.
From S2P Require Import SchedActivate SchedSchedule SchedWake SchedMigrate SchedBoot.

Definition demo_task (cpu : nat) (k : sched_class) (policy prio weight : Z) : task_struct :=
  mk_task TASK_INTERRUPTIBLE prio prio prio k (mk_se (mk_lw weight 0) false 0 0 0 0) policy 3 RR_TIMESLICE
    (MAX_RT_PRIO - 1 - prio) cpu true false false false 0 0.
Definition demo_idle (cpu : nat) : task_struct := init_idle_task cpu 1 (demo_task cpu FairClass SCHED_NORMAL 120 1024).

(** Tasks 1 and 2 are the idle tasks, 8 and 9 the roots of the trees. *)
Definition demo_boot : sched :=
  mk_sched {[ 1%nat := demo_idle 0; 2%nat := demo_idle 1 ]}
    (<[8%nat := CPtr None]> (<[9%nat := CPtr None]>
      (list_to_map ((λ p, (p, CNode (mk_rb None Black None None))) <$> seq 1 6))))
    (match sched_init_rq 0 8%nat 1%nat, sched_init_rq 1 9%nat 2%nat with
     | Some r0, Some r1 => {[ 0%nat := r0; 1%nat := r1 ]}
     | _, _ => ∅
     end) [].

Definition demo_add (p : loc) (t : task_struct) (s : sched) : sched := set_s_tasks (<[p := t]> (s_tasks s)) s.

(** Tasks 3 (real-time) and 4 on processor 0, 5 on processor 1, all asleep. *)
Definition demo_rt : task_struct := demo_task 0 RtClass SCHED_RR 40 177522.
Definition demo_fair : task_struct := demo_task 0 FairClass SCHED_NORMAL 120 1024.
Definition demo_other : task_struct := demo_task 1 FairClass SCHED_NORMAL 125 335.
Definition demo_asleep : sched := demo_add 5%nat demo_other (demo_add 4%nat demo_fair (demo_add 3%nat demo_rt demo_boot)).

Definition demo_fuel : nat := 64.
Definition demo_base : nat → Z := λ _, boot_base.

Lemma demo_booted : booted demo_boot (λ c, 8 + c)%nat (λ c, 1 + c)%nat 1.
Proof.
  assert (Hrq : ∀ c r, s_rqs demo_boot !! c = Some r → (c = 0 ∨ c = 1)%nat).
  { intros c r Hr. assert (Hd : dom (s_rqs demo_boot) = ({[ 0%nat; 1%nat ]} : gset nat)) by (vm_compute; reflexivity).
    assert (Hc : c ∈ dom (s_rqs demo_boot)) by (apply elem_of_dom; eauto). rewrite Hd in Hc. clear -Hc. set_solver. }
  assert (Htk : ∀ p t, s_tasks demo_boot !! p = Some t → (p = 1 ∨ p = 2)%nat).
  { intros p t Hp. cbn in Hp. destruct (decide (p = 1%nat)) as [|H1]; [by left|]. destruct (decide (p = 2%nat)) as [|H2]; [by right|].
    by rewrite lookup_insert_ne, lookup_singleton_ne in Hp by done. }
  constructor.
  - intros c r Hr. destruct (Hrq c r Hr) as [-> | ->]; (split_and!; [rewrite <-Hr; vm_compute; reflexivity|vm_compute; reflexivity..|]);
      [exists (demo_task 0 FairClass SCHED_NORMAL 120 1024)|exists (demo_task 1 FairClass SCHED_NORMAL 120 1024)]; vm_compute; reflexivity.
  - intros c c' [r Hr] [r' Hr'] Heq. lia.
  - intros p t Hp. destruct (Htk p t Hp) as [-> | ->]; vm_compute in Hp; injection Hp as <-.
    + exists 0%nat, (demo_task 0 FairClass SCHED_NORMAL 120 1024). split_and!; [vm_compute; eauto|done|vm_compute; done|done].
    + exists 1%nat, (demo_task 1 FairClass SCHED_NORMAL 120 1024). split_and!; [vm_compute; eauto|done|vm_compute; done|done].
  - intros p t Hp. destruct (Htk p t Hp) as [-> | ->]; eexists; vm_compute; reflexivity.
  - vm_compute. done.
Qed.

Lemma demo_asleep_inv : sched_inv demo_base demo_asleep (λ _, []).
Proof.
  pose proof (booted_inv _ _ _ _ demo_booted) as Hinv.
  assert (Hok : ∀ c k pol prio w, k ≠ IdleClass → 0 < w ≤ MAX_WEIGHT → 0 ≤ prio → (k = RtClass → prio < MAX_RT_PRIO) →
    task_ok (demo_task c k pol prio w)) by (intros; constructor; cbn; intros; [split; auto|auto|done]).
  unfold demo_asleep, demo_add. do 3 (eapply sched_inv_add; [|vm_compute; reflexivity|vm_compute; reflexivity|vm_compute; eauto|
    by apply Hok|done|done|vm_compute; congruence|vm_compute; done]). done.
Qed.

(** Task 4 is then ready, on the tree of processor 0. *)
Definition demo_ready : sched :=
  match activate_task default_tunables demo_fuel 0 4%nat true demo_asleep with Some (_, s) => s | None => demo_asleep end.

(** The run queue of a processor of the system. *)
Definition demo_rq (s : sched) (c : nat) : rq :=
  match s_rqs s !! c with
  | Some r => r
  | None => mk_rq 0 [] (mk_lw 0 0) 0 0 (init_cfs_rq 0%nat) (mk_rt [] [] 0 (LHead 0) (LHead 0)) 0 0%nat 0%nat 0 0 0 0 0 0 false 0
  end.

Lemma demo_ready_inv : ∃ L, sched_inv demo_base demo_ready L.
Proof.
  assert (Hr : runs (activate_task default_tunables demo_fuel 0 4%nat true) (λ _ s, ∃ L, sched_inv demo_base s L) demo_asleep).
  { eapply runs_mono.
    - apply (activate_task_post demo_base default_tunables demo_fuel ltac:(by vm_compute) demo_asleep (λ _, []) 0 (demo_rq demo_asleep 0) 4%nat demo_fair 0);
        [exact demo_asleep_inv|vm_compute; lia|vm_compute; reflexivity|vm_compute; reflexivity|done|done|lia| |done|vm_compute; discriminate].
      intros r q t Hr Hq _. exfalso. vm_compute in Hr. injection Hr as <-. done.
    - intros [] s (r' & l' & Hap). eexists. apply Hap. }
  destruct Hr as ([] & s & Hrun & HL). unfold demo_ready. by rewrite Hrun.
Qed.

Lemma demo_ready_flags : flags_ok demo_ready.
Proof.
  intros p Hp. exfalso. assert (Hf : flags demo_ready = flags demo_asleep) by (vm_compute; reflexivity). rewrite Hf in Hp.
  unfold flags in Hp. rewrite lookup_fmap_Some in Hp. destruct Hp as (t & Ht & Hp).
  assert (Hall : map_Forall (λ _ u, t_need_resched u = false) (s_tasks demo_asleep)).
  { refine (bool_decide_unpack _ _). vm_compute. exact I. }
  specialize (Hall p t Hp). cbn in Hall. congruence.
Qed.

(** The real-time task is ready as well. *)
Definition demo_both : sched :=
  match activate_task default_tunables demo_fuel 0 3%nat true demo_ready with Some (_, s) => s | None => demo_ready end.

Lemma demo_both_inv : ∃ L, sched_inv demo_base demo_both L.
Proof.
  destruct demo_ready_inv as [L Hinv].
  assert (Hr : runs (activate_task default_tunables demo_fuel 0 3%nat true) (λ _ s, ∃ L, sched_inv demo_base s L) demo_ready).
  { eapply runs_mono.
    - apply (activate_task_post demo_base default_tunables demo_fuel ltac:(by vm_compute) demo_ready L 0 (demo_rq demo_ready 0) 3%nat demo_rt 0);
        [exact Hinv|vm_compute; lia|vm_compute; reflexivity|vm_compute; reflexivity|done|done|lia| |done|vm_compute; discriminate].
      intros r q t Hr Hq _. exfalso. vm_compute in Hr. injection Hr as <-. done.
    - intros [] s (r' & l' & Hap). eexists. apply Hap. }
  destruct Hr as ([] & s & Hrun & HL). unfold demo_both. by rewrite Hrun.
Qed.

(** Task 4 runs. *)
Definition demo_running : sched :=
  match schedule 0 20 demo_fuel 1 (λ _, mret tt) false demo_ready with Some (_, s) => s | None => demo_ready end.

Lemma demo_running_inv : ∃ L, sched_inv demo_base demo_running L.
Proof.
  destruct demo_ready_inv as [L Hinv].
  assert (Hr : runs (schedule 0 20 demo_fuel 1 (λ _, mret tt) false) (λ _ s, ∃ L, sched_inv demo_base s L) demo_ready).
  { eapply runs_mono.
    - apply (schedule_post demo_base 0 20 default_tunables demo_fuel ltac:(by vm_compute) demo_ready L (demo_rq demo_ready 0) (demo_idle 0));
        [exact Hinv|exact demo_ready_flags| | |lia].
      + constructor; [vm_compute; reflexivity..| |vm_compute; discriminate]. vm_compute. lia.
      + intros s L0 r H1 H2 H3. sstep. exists r, L0. by split_and!; [constructor| |].
    - intros [] s (r' & L' & H & _). eauto. }
  destruct Hr as ([] & s & Hrun & HL). unfold demo_running. by rewrite Hrun.
Qed.
