(* ===== verification/SchedProps.v ===== *)
(** * Properties of the scheduler core *)
From stdpp Require Import gmap sorting.
From S2P Require Import Prelude Rbtree RbtreeSpec RbtreeRun FindBit Sched SchedRt SchedFair SchedCore.
From S2P Require Import SchedLogic SchedRtFacts SchedFairFacts SchedInv SchedOps SchedOpsFair SchedSwitch SchedSys.
From S2P Require Import SchedActivate SchedSchedule SchedWake SchedMigrate SchedBoot SchedDemo.

(** ** Booting *)

(** What [sched_init] and [init_idle] leave behind satisfies the invariant
    of the scheduler: on every processor the bitmap and the queues of the
    real-time class agree and are empty, the tree of the fair class is an empty
    red-black tree with a cached leftmost node, the counters are zero, the idle
    task is current, and no two processors share a tree. *)
Theorem sched_init_inv s roots idles clock :
  booted s roots idles clock → sched_inv (λ _, boot_base) s (λ _, []).
Proof. apply booted_inv. Qed.

Lemma sched_init_inv_witness : sched_inv (λ _, boot_base) demo_boot (λ _, []).
Proof. exact (sched_init_inv _ _ _ _ demo_booted). Defined.

(** ** Entering and leaving a run queue *)

(** C8. [activate_task], from any state that satisfies the invariant, on a task
    that is on no queue: it does not crash, the invariant holds again on every
    processor, the members of the task's run queue are the old ones and the
    task, the marks [on_rq] of all other tasks are unchanged, and no flag is
    set.  The counters [nr_running] and [load] of the run queue and of the fair
    class count the new members, since that is part of the invariant. *)
Theorem activate_task_correct B tn fuel s L r p t w k :
  0 ≤ sysctl_sched_latency tn < 2 ^ 32 → sched_inv B s L → (rb_depth (size (s_tasks s)) < fuel)%nat →
  s_tasks s !! p = Some t → s_rqs s !! t_cpu t = Some r → t_class t ≠ IdleClass → se_on_rq (t_se t) = false →
  (w = true → rq_curr r ≠ p) → 0 ≤ k → curr_budget (B (t_cpu t)) (t_cpu t) s (1 + k) →
  runs (activate_task tn fuel (t_cpu t) p w)
    (λ _ s', ∃ r' l', active_post B (t_cpu t) p true s s' L r r' l' k) s.
Proof. intros Hlat. intros. by apply (activate_task_post B tn fuel Hlat s L (t_cpu t) r p t k). Qed.

Lemma activate_task_witness :
  ∃ s' r' l', activate_task default_tunables demo_fuel 0 4%nat true demo_asleep = Some (tt, s') ∧
    sched_inv demo_base s' (upd 0%nat l' (λ _, [])) ∧ s_rqs s' !! 0%nat = Some r' ∧ rq_nr_running r' = 1.
Proof.
  destruct (activate_task_correct demo_base default_tunables demo_fuel demo_asleep (λ _, [])
    (demo_rq demo_asleep 0) 4%nat demo_fair true 0) as ([] & s' & Hrun & r' & l' & Hap).
  - vm_compute. split; [discriminate|reflexivity].
  - exact demo_asleep_inv.
  - vm_compute. lia.
  - vm_compute. reflexivity.
  - vm_compute. reflexivity.
  - done.
  - done.
  - intros _. vm_compute. discriminate.
  - lia.
  - intros r q t Hr Hq Ht. exfalso. vm_compute in Hr. injection Hr as <-. done.
  - exists s', r', l'. split_and!; [done|apply Hap|apply Hap|]. pose proof (ap_rq _ _ _ _ _ _ _ _ _ _ _ Hap) as Hr'.
    assert (Hs' : s' = demo_ready) by (unfold demo_ready; change (t_cpu demo_fair) with 0%nat in Hrun; by rewrite Hrun).
    rewrite Hs' in Hr'. vm_compute in Hr'. injection Hr' as <-. reflexivity.
Defined.

(** Deactivating an activated task gives back the run queue: the members
    are those of before, every task is marked as before, the counters
    [nr_running] and [load] have their old values, and the invariant holds. *)
Theorem deactivate_activate B tn fuel s L r p t w sl k :
  0 ≤ sysctl_sched_latency tn < 2 ^ 32 → sched_inv B s L → (rb_depth (size (s_tasks s)) < fuel)%nat →
  s_tasks s !! p = Some t → s_rqs s !! t_cpu t = Some r → t_class t ≠ IdleClass → se_on_rq (t_se t) = false →
  (w = true → rq_curr r ≠ p) → 0 ≤ k → curr_budget (B (t_cpu t)) (t_cpu t) s (2 + k) →
  runs (activate_task tn fuel (t_cpu t) p w;; deactivate_task fuel (t_cpu t) p sl)
    (λ _ s', ∃ r' L', sched_inv B s' L' ∧ s_rqs s' !! t_cpu t = Some r' ∧
      members (nmap s') r' (L' (t_cpu t)) ≡ₚ members (nmap s) r (L (t_cpu t)) ∧
      (∀ q, is_on_rq (nmap s') q = is_on_rq (nmap s) q) ∧
      rq_nr_running r' = rq_nr_running r ∧ lw_weight (rq_load r') = lw_weight (rq_load r)) s.
Proof.
  intros Hlat Hinv Hf Ht Hr Hk Hon Hw Hk0 Hb. set (c := t_cpu t) in *. sstep. eapply runs_mono.
  { apply (activate_task_post B tn fuel Hlat s L c r p t (1 + k)); try done; [lia|]. by replace (1 + (1 + k)) with (2 + k) by lia. }
  intros [] s1 (r1 & l1 & [Hinv1 Hr1 _ Hon1 Hm1 _ _ Hsk1 _ Hb1]).
  destruct (skel_lookup s s1 p t Hsk1 Ht) as (t1 & Ht1 & Hs1). destruct (skel_fields _ _ Hs1) as (_ & _ & _ & Hk1 & Hc1 & _).
  assert (Hon1t : se_on_rq (t_se t1) = true).
  { specialize (Hon1 p). rewrite decide_True in Hon1 by done. unfold is_on_rq in Hon1. by rewrite (lookup_nmap _ _ _ Ht1) in Hon1. }
  eapply runs_mono.
  { apply (deactivate_task_post B tn fuel Hlat s1 (upd c l1 L) c r1 p t1 k); try done; [|congruence].
    by rewrite <-(map_size_fmap skel), Hsk1, map_size_fmap. }
  intros [] s2 (r2 & l2 & [Hinv2 Hr2 _ Hon2 Hm2 _ _ Hsk2 _ _]). exists r2, (upd c l2 (upd c l1 L)).
  assert (Hmem : members (nmap s2) r2 l2 ≡ₚ members (nmap s) r (L c)).
  { rewrite upd_eq in Hm2. rewrite Hm2 in Hm1. by apply Permutation_cons_inv in Hm1. }
  destruct (si_counted _ _ _ Hinv c r Hr) as [Hn Hl]. destruct (si_counted _ _ _ Hinv2 c r2 Hr2) as [Hn2 Hl2].
  rewrite upd_eq in Hn2, Hl2 |- *. split_and!; try done.
  - intros q. rewrite Hon2, Hon1. case_decide as Hq; [|done]. subst q. unfold is_on_rq. by rewrite (lookup_nmap _ _ _ Ht).
  - by rewrite Hn, Hn2, Hmem.
  - rewrite Hl, Hl2, Hmem. by rewrite (sumw_skel s s2) by congruence.
Qed.

Lemma deactivate_activate_witness :
  runs (activate_task default_tunables demo_fuel 0 3%nat true;; deactivate_task demo_fuel 0 3%nat false)
    (λ _ s', ∃ r', s_rqs s' !! 0%nat = Some r' ∧ rq_nr_running r' = rq_nr_running (demo_rq demo_asleep 0)) demo_asleep.
Proof.
  eapply runs_mono.
  { apply (deactivate_activate demo_base default_tunables demo_fuel demo_asleep (λ _, []) (demo_rq demo_asleep 0) 3%nat demo_rt true false 0).
    - vm_compute. split; [discriminate|reflexivity].
    - exact demo_asleep_inv.
    - vm_compute. lia.
    - vm_compute. reflexivity.
    - vm_compute. reflexivity.
    - done.
    - done.
    - intros _. vm_compute. discriminate.
    - lia.
    - intros r q t Hr Hq Ht. exfalso. vm_compute in Hr. injection Hr as <-. done. }
  intros [] s' (r' & L' & _ & Hr' & _ & _ & Hn & _). eauto.
Defined.

(** ** Choosing who runs *)




(** The fair task that was woken is the one that runs next. *)
Example schedule_runs_fair :
  option_map (λ '(_, s'), rq_curr (demo_rq s' 0)) (schedule 0 20 demo_fuel 1 (λ _, mret tt) false demo_ready) = Some 4%nat.
Proof. vm_compute. reflexivity. Qed.

(** ** Waking *)

(** C7. [try_to_wake_up].  A task whose state does not match is left alone, and
    the answer is no.  A task that is still on a queue only gets its state back.
    Otherwise the task is asleep: the answer is yes; the task is then running or
    runnable on its old processor, or on the waking processor if its affinity
    allows that; its state is [TASK_RUNNING], it is a member of that processor's
    run queue, every other task is marked as before and the invariant holds on
    every processor; and when it is a real-time task of better priority than the
    task running there, that task is flagged for rescheduling. *)
Theorem try_to_wake_up_correct B me now tn fuel s L domains p t mine state sync :
  0 ≤ sysctl_sched_latency tn < 2 ^ 32 → sched_inv B s L → s_tasks s !! p = Some t → s_rqs s !! me = Some mine →
  let wake := try_to_wake_up me now tn fuel domains p state sync in
  (Z.land (t_state t) state = 0 → wake s = Some (false, s)) ∧
  (Z.land (t_state t) state ≠ 0 → se_on_rq (t_se t) = true →
   wake s = Some (false, set_s_tasks (<[p := set_t_state TASK_RUNNING t]> (s_tasks s)) s)) ∧
  (Z.land (t_state t) state ≠ 0 → parked s p t → loads_ok s → Forall domain_ok domains →
   (rb_depth (size (s_tasks s)) < fuel)%nat → roomy B s →
   (∀ ro, s_rqs s !! t_cpu t = Some ro →
     fits (B me) (rq_cfs mine) (lag (B (t_cpu t)) (rq_cfs ro) (se_vruntime (t_se t)))) →
   runs wake (λ res s', res = true ∧ ∃ c r L',
     (c = t_cpu t ∨ c = me ∧ cpumask_test_cpu me (t_cpus_allowed t) = true) ∧
     s_rqs s !! c = Some r ∧ woken B s s' c r p (t_prio t) L') s).
Proof.
  intros Hlat Hinv Ht Hme wake. split_and!.
  - intros Hst. unfold wake, try_to_wake_up, get_task, mbind, M_bind. rewrite Ht. cbn. by rewrite Hst.
  - intros Hst Hon. unfold wake, try_to_wake_up, get_task, mod_task, put_task, mbind, M_bind. rewrite Ht. cbn.
    rewrite (proj2 (Z.eqb_neq _ _)) by done. rewrite Hon. cbn. unfold get_task. by rewrite Ht.
  - intros. by eapply (try_to_wake_up_post B me now tn fuel Hlat s L domains p t mine state sync).
Qed.

Lemma demo_sleeper_parked : parked demo_asleep 3%nat demo_rt.
Proof. constructor; [vm_compute; reflexivity|done|done|]. intros r Hr. vm_compute in Hr. injection Hr as <-. discriminate. Qed.

Lemma demo_asleep_roomy : roomy demo_base demo_asleep ∧ loads_ok demo_asleep.
Proof.
  assert (Hrq : ∀ c r, s_rqs demo_asleep !! c = Some r → (c = 0 ∨ c = 1)%nat ∧
    rq_tick_timestamp r = 0 ∧ rq_clock r = 1 ∧ cfs_curr (rq_cfs r) = None ∧ length (rq_cpu_load r) = 5%nat).
  { apply (map_Forall_lookup (λ c r, (c = 0 ∨ c = 1)%nat ∧ rq_tick_timestamp r = 0 ∧ rq_clock r = 1 ∧ cfs_curr (rq_cfs r) = None ∧ length (rq_cpu_load r) = 5%nat)).
    refine (bool_decide_unpack _ _). vm_compute. exact I. }
  split; intros c r Hr; destruct (Hrq c r Hr) as (_ & H1 & H2 & H3 & H4); [|done]. split; [unfold clock_ok; rewrite H1, H2; vm_compute; intuition discriminate|].
  intros r0 q t Hr0 Hq _. rewrite Hr in Hr0. injection Hr0 as <-. congruence.
Qed.

(** Processor 1 wakes the real-time task of processor 0. *)
Lemma try_to_wake_up_witness :
  ∃ s', try_to_wake_up 1 20 default_tunables demo_fuel [mk_sd 3 125 0 1 96 0] 3%nat TASK_INTERRUPTIBLE false demo_asleep = Some (true, s').
Proof.
  destruct demo_asleep_roomy as [Hroom Hloads].
  destruct (try_to_wake_up_correct demo_base 1 20 default_tunables demo_fuel demo_asleep (λ _, []) [mk_sd 3 125 0 1 96 0] 3%nat demo_rt
    (demo_rq demo_asleep 1) TASK_INTERRUPTIBLE false) as (_ & _ & Hwake).
  - vm_compute. split; [discriminate|reflexivity].
  - exact demo_asleep_inv.
  - vm_compute. reflexivity.
  - vm_compute. reflexivity.
  - destruct Hwake as (res & s' & Hrun & -> & _).
    + vm_compute. discriminate.
    + exact demo_sleeper_parked.
    + exact Hloads.
    + repeat constructor; vm_compute; discriminate.
    + vm_compute. lia.
    + exact Hroom.
    + intros ro Hro. vm_compute in Hro. injection Hro as <-. vm_compute. intuition discriminate.
    + exists s'. exact Hrun.
Defined.

(** ** The clock of a run queue *)

(** Whatever [sched_clock] returns, even a value from the past, the clock of
    a run queue never goes back, and it never runs more than one tick ahead of
    the last tick, except by single steps when it is there already; so an update
    advances it by at most a tick. *)
Theorem update_rq_clock_bounds now r :
  clock_ok (2 ^ 62) r →
  let r' := update_rq_clock_fields now r in
  rq_clock r ≤ rq_clock r' ≤ Z.max (rq_clock r + 1) (rq_tick_timestamp r + TICK_NSEC) ∧
  rq_clock r' ≤ rq_clock r + TICK_NSEC ∧ clock_ok (2 ^ 62 + TICK_NSEC) r'.
Proof.
  intros Hok. assert (Hhi : 2 ^ 62 ≤ 2 ^ 63 - 2 * TICK_NSEC) by (change TICK_NSEC with 10000000; lia).
  destruct (clock_step now _ r Hok Hhi) as [H1 _]. pose proof (clock_ok_step now _ r Hok Hhi) as H2.
  destruct Hok as [H3 _]. change TICK_NSEC with 10000000 in *. split_and!; [lia|lia|lia|done].
Qed.

Lemma update_rq_clock_bounds_witness :
  rq_clock (update_rq_clock_fields (-5) (demo_rq demo_asleep 0)) ≤ 1 + TICK_NSEC.
Proof. apply (update_rq_clock_bounds (-5) (demo_rq demo_asleep 0)). vm_compute. intuition discriminate. Defined.
