(* ===== verification/SchedClassProps.v ===== *)
(** * Properties of the scheduling classes *)
From stdpp Require Import gmap sorting.
From S2P Require Import Prelude Rbtree RbtreeSpec RbtreeRun FindBit Sched SchedRt SchedFair SchedCore.
From S2P Require Import SchedLogic SchedRtFacts SchedFairFacts SchedInv SchedOps SchedOpsFair SchedSwitch SchedSys.
From S2P Require Import SchedActivate SchedSchedule SchedWake SchedMigrate SchedBoot SchedDemo.

(** ** The iterator of the real-time class *)

(** How the load balancer drives the iterator: a task that it was given may be
    taken off its queue before the next one is asked for. *)
Fixpoint rt_visit (pull : loc → bool) (n : nat) (c : nat) (p : ptr) : M (list loc) :=
  match p with
  | None => mret []
  | Some p =>
      match n with
      | O => BUG
      | S n =>
          when (pull p) (dequeue_task_rt c p false);;
          q ← load_balance_next_rt c;
          l ← rt_visit pull n c q;
          mret (p :: l)
      end
  end.

Lemma rt_order_perm queue : rt_order queue ≡ₚ concat queue.
Proof. unfold rt_order. induction queue as [|l queue IH]; [done|]. cbn. by rewrite IH, reverse_Permutation. Qed.

Lemma rt_members_dequeue N c rt i l p bm :
  rt_ok N c rt → rt_queue rt !! i = Some l → p ∈ l →
  ∀ q, q ∈ rt_members (set_rt_bitmap bm (set_rt_queue (<[i := filter (.≠ p) l]> (rt_queue rt)) rt)) ↔ q ∈ rt_members rt ∧ q ≠ p.
Proof.
  intros Hok Hl Hp q. pose proof (queue_nodup _ _ _ _ _ Hok Hl) as Hnd. pose proof (rt_nodup _ _ _ Hok) as Hnd'.
  set (rt' := set_rt_bitmap _ _). pose proof (dequeue_members rt rt' i l p Hnd Hp Hl eq_refl) as Hperm.
  fold (rt_members rt) in Hnd'. rewrite Hperm in Hnd'. apply NoDup_cons in Hnd' as [Hout _]. rewrite Hperm, elem_of_cons. naive_solver.
Qed.

Definition visited (pull : loc → bool) (c : nat) (r : rq) (l : list loc) (s' : sched) : Prop :=
  ∃ r', s_rqs s' !! c = Some r' ∧ rt_ok (nmap s') c (rq_rt r') ∧
    ∀ q, q ∈ rt_members (rq_rt r') ↔ q ∈ rt_members (rq_rt r) ∧ (q ∈ l → pull q = false).

(** Taking the task just returned, or not, leaves the iterator where it is. *)
Lemma rt_pull_step (b : bool) s c r p :
  s_rqs s !! c = Some r → rt_ok (nmap s) c (rq_rt r) → is_Some (s_tasks s !! rq_curr r) → p ∈ rt_members (rq_rt r) →
  runs (when b (dequeue_task_rt c p false)) (λ _ s1, ∃ r1, s_rqs s1 !! c = Some r1 ∧ rt_ok (nmap s1) c (rq_rt r1) ∧
    is_Some (s_tasks s1 !! rq_curr r1) ∧
    (∀ q, q ∈ rt_members (rq_rt r1) ↔ q ∈ rt_members (rq_rt r) ∧ (q = p → b = false)) ∧
    (∀ rest, rt_iter_at (rq_rt r) rest → p ∉ rest → rt_iter_at (rq_rt r1) rest)) s.
Proof.
  intros Hr Hok Hcurr Hp. apply runs_when; intros ->; [|exists r; split_and!; naive_solver].
  destruct (rt_member_queue _ _ _ _ Hok Hp) as (u & _ & _ & (Hu & _) & _). apply nmap_lookup in Hu as (t & Ht & _).
  eapply runs_mono; [by eapply (dequeue_task_rt_runs s c r p t false)|].
  intros [] s1 (i & l & rt' & s0 & _ & Hl & Hpl & Hrt' & Hok' & Hq & _ & ->).
  destruct Hcurr as [tc Htc]. destruct (quiet_lookup _ _ _ _ Hq Htc) as (tc' & Htc' & _). destruct Hq as (HN & _).
  exists (set_rq_rt rt' r). split_and!; [cbn; by rewrite lookup_insert_eq|by rewrite <-HN in Hok'|by exists tc'| |].
  - intros q. cbn. rewrite Hrt', (rt_members_dequeue _ _ _ _ _ _ _ Hok Hl Hpl). naive_solver congruence.
  - intros rest Hr0 Hp0. cbn. rewrite Hrt'. by eapply rt_iter_dequeue.
Qed.

Lemma rt_visit_runs pull rest : ∀ n s c r p,
  s_rqs s !! c = Some r → rt_ok (nmap s) c (rq_rt r) → is_Some (s_tasks s !! rq_curr r) → rt_iter_at (rq_rt r) rest →
  p ∈ rt_members (rq_rt r) → NoDup (p :: rest) → (∀ q, q ∈ rest → q ∈ rt_members (rq_rt r)) → (length rest < n)%nat →
  runs (rt_visit pull n c (Some p)) (λ l s', l = p :: rest ∧ visited pull c r (p :: rest) s') s.
Proof.
  induction rest as [|x rest IH]; intros n s c r p Hr Hok Hcurr Hit Hp Hnd Hrest Hn; (destruct n as [|n]; [simpl in Hn; lia|]).
  all: cbn [rt_visit]; sstep; apply NoDup_cons in Hnd as [Hpr Hnd].
  all: eapply runs_mono; [by apply (rt_pull_step (pull p) s c r p)|]; intros [] s1 (r1 & Hr1 & Hok1 & Hcurr1 & Hmem1 & Hit1); sstep.
  all: eapply runs_mono; [eapply (load_balance_next_rt_runs s1 c r1); [done|done|by apply Hit1]|];
    intros o s2 (-> & Hcase); cbn [head tail] in *; sstep.
  - assert (Hv : ∀ q, q ∈ rt_members (rq_rt r1) ↔ q ∈ rt_members (rq_rt r) ∧ (q ∈ [p] → pull q = false)).
    { intros q. rewrite Hmem1, list_elem_of_singleton. clear. naive_solver. }
    assert (Hret : ∀ k s3, runs (rt_visit pull k c None) (λ l s', l = [] ∧ s' = s3) s3) by (intros [|k] s3; cbn [rt_visit]; by sstep).
    eapply runs_mono; [apply Hret|]. intros l s3 [-> ->]. sstep. split; [done|].
    destruct Hcase as [[_ ->]|(rt2 & -> & Hq2 & Hok2 & _)]; [exists r1; by split_and!|].
    exists (set_rq_rt rt2 r1). split_and!; [cbn; by rewrite lookup_insert_eq|done|]. intros q. rewrite <-Hv. unfold rt_members. cbn. by rewrite Hq2.
  - destruct Hcase as [[? _]|(rt2 & -> & Hq2 & Hok2 & Hit2)]; [done|].
    assert (Hmem2 : ∀ q, q ∈ rt_members rt2 ↔ q ∈ rt_members (rq_rt r) ∧ (q = p → pull p = false)).
    { intros q. rewrite <-Hmem1. unfold rt_members. by rewrite Hq2. }
    assert (Hin : ∀ q, q ∈ x :: rest → q ∈ rt_members rt2).
    { intros q Hq. rewrite Hmem2. split; [by apply Hrest|]. by intros ->. }
    eapply runs_mono; [eapply (IH n _ c (set_rq_rt rt2 r1) x); try done|].
    + cbn. by rewrite lookup_insert_eq.
    + apply Hin. by left.
    + intros q Hq. apply Hin. by right.
    + simpl in Hn. lia.
    + intros l s3 (-> & r3 & Hr3 & Hok3 & Hmem3). sstep. split; [done|]. exists r3. split_and!; [done|done|]. intros q.
      rewrite Hmem3. cbn. rewrite Hmem2, (elem_of_cons _ q p). clear. naive_solver.
Qed.

(** C11. The iterator that the load balancer uses on the real-time class,
    [load_balance_start_rt] and then [load_balance_next_rt]: whichever of the
    tasks it returned are taken off their queues before the next call, it
    returns every task of the class exactly once, queue by queue in order of
    priority and each queue from its tail, and then [NULL].  What is left in the
    queues are the tasks that were not taken. *)
Theorem rt_iterator_complete pull s c r :
  s_rqs s !! c = Some r → rt_ok (nmap s) c (rq_rt r) → is_Some (s_tasks s !! rq_curr r) →
  runs (p ← load_balance_start_rt c; rt_visit pull (length (rt_members (rq_rt r))) c p)
    (λ l s', l = rt_order (rt_queue (rq_rt r)) ∧ l ≡ₚ rt_members (rq_rt r) ∧ NoDup l ∧
      visited pull c r (rt_members (rq_rt r)) s') s.
Proof.
  intros Hr Hok Hcurr. pose proof (rt_order_perm (rt_queue (rq_rt r))) as Hperm. fold (rt_members (rq_rt r)) in Hperm.
  pose proof (rt_nodup _ _ _ Hok) as Hnd. fold (rt_members (rq_rt r)) in Hnd.
  sstep. eapply runs_mono; [by apply (load_balance_start_rt_runs s c r)|]. intros o s1 (-> & Hcase).
  destruct (rt_order (rt_queue (rq_rt r))) as [|p rest] eqn:Ho; cbn [head tail] in *.
  - assert (Hnil : rt_members (rq_rt r) = []) by (symmetry; by apply Permutation_nil_l).
    destruct Hcase as [[_ ->]|(rt1 & -> & Hq1 & Hok1 & _)]; rewrite Hnil; cbn; sstep; (split_and!; [done|done|apply NoDup_nil; done|]).
    + exists r. split_and!; [done|done|]. intros q. set_solver.
    + exists (set_rq_rt rt1 r). split_and!; [cbn; by rewrite lookup_insert_eq|done|]. intros q. cbn. unfold rt_members.
      rewrite Hq1. set_solver.
  - destruct Hcase as [[? _]|(rt1 & -> & Hq1 & Hok1 & Hit1)]; [done|].
    assert (Hmem1 : rt_members rt1 = rt_members (rq_rt r)) by (unfold rt_members; by rewrite Hq1).
    eapply runs_mono; [eapply (rt_visit_runs pull rest _ _ c (set_rq_rt rt1 r) p); try done|].
    + cbn. by rewrite lookup_insert_eq.
    + cbn. rewrite Hmem1, <-Hperm. by left.
    + by rewrite Hperm.
    + intros q Hq. cbn. rewrite Hmem1, <-Hperm. by right.
    + rewrite <-Hperm. simpl. lia.
    + intros l s2 (-> & r2 & Hr2 & Hok2 & Hm2). split_and!; [done|done|by rewrite Hperm|]. exists r2. split_and!; [done|done|].
      intros q. rewrite Hm2. cbn. by rewrite Hmem1, Hperm.
Qed.

Lemma demo_both_rt : rt_ok (nmap demo_both) 0 (rq_rt (demo_rq demo_both 0)).
Proof.
  destruct demo_both_inv as [L Hinv]. apply (ci_rt _ _ _ _ _ _ (si_cpu _ _ _ Hinv 0%nat (demo_rq demo_both 0) ltac:(vm_compute; reflexivity))).
Qed.

Lemma rt_iterator_witness :
  runs (p ← load_balance_start_rt 0; rt_visit (λ _, true) 1 0 p) (λ l _, l = [3%nat]) demo_both.
Proof.
  eapply runs_mono.
  { apply (rt_iterator_complete (λ _, true) demo_both 0 (demo_rq demo_both 0)).
    - vm_compute. reflexivity.
    - exact demo_both_rt.
    - vm_compute. eauto. }
  intros l s' (-> & _). vm_compute. reflexivity.
Defined.

(** ** Round robin *)

Lemma list_links queue i l1 p l2 :
  NoDup (concat queue) → queue !! i = Some (l1 ++ p :: l2) →
  list_prev queue (LNode p) = Some (match last l1 with Some q => LNode q | None => LHead i end) ∧
  list_next queue (LNode p) = Some (match l2 with q :: _ => LNode q | [] => LHead i end).
Proof.
  intros Hnd Hl. assert (Hndl : NoDup (l1 ++ p :: l2)).
  { rewrite (concat_split _ _ _ Hl) in Hnd. apply NoDup_app in Hnd as (_ & _ & Hnd). by apply NoDup_app in Hnd as (Hnd & _). }
  assert (Hp1 : p ∉ l1) by (apply NoDup_app in Hndl as (_ & Hd & _); intros Hp; apply (Hd p Hp); by left).
  assert (Hq : queue_of queue p = Some i) by (eapply queue_of_run; [done|exact Hl|set_solver]).
  unfold list_prev, list_next. rewrite Hq. cbn. rewrite Hl. cbn. rewrite (index_of_run _ _ _ Hp1). cbn. split.
  - f_equal. destruct (length l1) as [|k] eqn:Hlen; [by apply nil_length_inv in Hlen as ->|].
    rewrite lookup_app_l by lia. rewrite last_lookup, Hlen. done.
  - f_equal. rewrite lookup_app_r by lia. replace (S (length l1) - length l1)%nat with 1%nat by lia. by destruct l2.
Qed.

(** A task has the same neighbour on both sides iff it is alone. *)
Lemma alone_links queue i l p :
  NoDup (concat queue) → queue !! i = Some l → p ∈ l →
  ∃ a b, list_prev queue (LNode p) = Some a ∧ list_next queue (LNode p) = Some b ∧ (a = b ↔ l = [p]).
Proof.
  intros Hnd Hl Hp. apply list_elem_of_split in Hp as (l1 & l2 & ->). destruct (list_links _ _ _ _ _ Hnd Hl) as [H1 H2].
  eexists _, _. split_and!; [exact H1|exact H2|]. assert (Hndl : NoDup (l1 ++ p :: l2)).
  { rewrite (concat_split _ _ _ Hl) in Hnd. apply NoDup_app in Hnd as (_ & _ & Hnd). by apply NoDup_app in Hnd as (Hnd & _). }
  destruct (last l1) as [x|] eqn:Hlast.
  - apply last_Some in Hlast as [l1' ->]. split; [|intros Heq; apply (f_equal length) in Heq; rewrite !length_app in Heq; simpl in Heq; lia].
    destruct l2 as [|y l2]; intros [=]; subst y. apply NoDup_app in Hndl as (_ & Hd & _). exfalso. apply (Hd x); set_solver.
  - apply last_None in Hlast as ->. destruct l2; [done|]. split; [done|]. intros [=].
Qed.

(** Charging touches the entity only. *)
Lemma update_curr_rt_entity s c r :
  s_rqs s !! c = Some r → is_Some (s_tasks s !! rq_curr r) →
  runs (update_curr_rt c) (λ _ s', quiet s s' ∧ ∀ p t, s_tasks s !! p = Some t → ∃ se, s_tasks s' !! p = Some (set_t_se se t)) s.
Proof.
  intros Hr [t Ht]. unfold update_curr_rt. do 4 sstep.
  assert (Hsame : ∀ p u, s_tasks s !! p = Some u → ∃ se, s_tasks s !! p = Some (set_t_se se u)).
  { intros p u Hu. exists (t_se u). rewrite Hu. by destruct u. }
  destruct (negb (task_has_rt_policy t)); [sstep; split; [apply quiet_refl|done]|].
  eapply runs_mod_se; [exact Ht|]. split; [by apply (quiet_task s (rq_curr r) t)|].
  intros p u Hu. cbn. destruct (decide (p = rq_curr r)) as [->|Hne].
  - rewrite lookup_insert_eq. rewrite Ht in Hu. injection Hu as <-. eauto.
  - rewrite lookup_insert_ne by done. by apply Hsame.
Qed.

(** What a tick leaves of a real-time task [p] with the run queue [r]. *)
Definition rr_post (c : nat) (s : sched) (r : rq) (p : loc) (t : task_struct) (s' : sched) : Prop :=
  ∃ r' t', s_rqs s' !! c = Some r' ∧ s_tasks s' !! p = Some t' ∧ nmap s' = nmap s ∧ rt_ok (nmap s') c (rq_rt r') ∧
    if negb (t_policy t =? SCHED_RR) then
      r' = r ∧ t_time_slice t' = t_time_slice t ∧ t_need_resched t' = t_need_resched t
    else if 1 <? t_time_slice t then
      r' = r ∧ t_time_slice t' = t_time_slice t - 1 ∧ t_need_resched t' = t_need_resched t
    else
      t_time_slice t' = RR_TIMESLICE ∧ ∃ i l, rt_queue (rq_rt r) !! i = Some l ∧ p ∈ l ∧
        if decide (l = [p]) then r' = r ∧ t_need_resched t' = t_need_resched t
        else rt_queue (rq_rt r') = <[i := filter (.≠ p) l ++ [p]]> (rt_queue (rq_rt r)) ∧ t_need_resched t' = true.

(** The tick on a real-time task.  A [SCHED_FIFO] task is only charged.  A
    [SCHED_RR] task loses one tick of its slice; when that was the last, it gets
    a new slice, and if other tasks wait at its priority it goes to the end of
    its queue and is flagged for rescheduling, and if none does nothing else
    happens.  The queues and the bitmap keep their invariant. *)
Theorem task_tick_rt_correct s c r p t :
  s_rqs s !! c = Some r → rt_ok (nmap s) c (rq_rt r) → is_Some (s_tasks s !! rq_curr r) →
  s_tasks s !! p = Some t → p ∈ rt_members (rq_rt r) → 0 < t_time_slice t < 2 ^ 32 →
  runs (task_tick_rt c p) (λ _ s', rr_post c s r p t s') s.
Proof.
  intros Hr Hok Hcurr Ht Hp Hsl. unfold task_tick_rt. sstep. eapply runs_mono; [by eapply update_curr_rt_entity|].
  intros [] s1 [Hq Hse]. destruct (Hse p t Ht) as [se Ht1]. pose proof Hq as (HN1 & _ & _ & Hrq1 & _).
  assert (Hr1 : s_rqs s1 !! c = Some r) by by rewrite Hrq1. do 2 sstep.
  change (t_policy (set_t_se se t)) with (t_policy t). change (t_time_slice (set_t_se se t)) with (t_time_slice t).
  destruct (negb (t_policy t =? SCHED_RR)) eqn:Hpol.
  { sstep. exists r, (set_t_se se t). rewrite HN1, Hpol. by split_and!. }
  sstep. assert (Hu : u32 (t_time_slice t - 1) = t_time_slice t - 1) by (unfold u32; apply Z.mod_small; lia). rewrite Hu.
  eapply runs_mod_task; [exact Ht1|].
  set (t2 := set_t_time_slice (t_time_slice t - 1) (set_t_se se t)). set (s2 := set_s_tasks _ s1).
  assert (HN2 : nmap s2 = nmap s) by (rewrite <-HN1; by apply (nmap_quiet s1 p (set_t_se se t))).
  assert (Ht2 : s_tasks s2 !! p = Some t2) by (cbn; by rewrite lookup_insert_eq).
  destruct (Z.eqb_spec (t_time_slice t - 1) 0) as [H0|H0]; cbn [negb]; cycle 1.
  { sstep. exists r, t2. rewrite HN2, Hpol. split_and!; try done. destruct (Z.ltb_spec 1 (t_time_slice t)); [done|lia]. }
  sstep. eapply runs_mod_task; [exact Ht2|]. set (t3 := set_t_time_slice RR_TIMESLICE t2). set (s3 := set_s_tasks _ s2).
  assert (HN3 : nmap s3 = nmap s) by (rewrite <-HN2; by apply (nmap_quiet s2 p t2)).
  assert (Ht3 : s_tasks s3 !! p = Some t3) by (cbn; by rewrite lookup_insert_eq).
  assert (Hr3 : s_rqs s3 !! c = Some r) by done. assert (Hok3 : rt_ok (nmap s3) c (rq_rt r)) by by rewrite HN3.
  destruct (rt_member_queue _ _ _ _ Hok Hp) as (_ & i & l & _ & _ & _ & Hl & Hpl).
  destruct (alone_links _ _ _ _ (rt_nodup _ _ _ Hok) Hl Hpl) as (a & b & Ha & Hb & Hab).
  assert (Hlast : (1 <? t_time_slice t) = false) by (apply Z.ltb_ge; lia).
  do 6 sstep. case_decide as Hne.
  - sstep. eapply runs_mono; [by eapply (requeue_task_rt_runs s3 c r p t3)|].
    intros [] s4 (i' & l' & _ & Hl' & Hpl' & Hok' & ->). set (rt' := set_rt_queue _ _) in *.
    unfold set_tsk_need_resched. eapply runs_mod_task; [exact Ht3|]. set (s5 := set_s_tasks _ _).
    assert (HN5 : nmap s5 = nmap s) by (rewrite <-HN3; by apply (nmap_quiet s3 p t3)).
    exists (set_rq_rt rt' r), (set_t_need_resched true t3). rewrite HN5, Hpol, Hlast. rewrite HN3 in Hok'.
    split_and!; [cbn; by rewrite lookup_insert_eq|cbn; by rewrite lookup_insert_eq|done|done|done|]. exists i', l'. split_and!; [done|done|].
    rewrite decide_False; [done|]. intros ->. assert (i' = i) as -> by (eapply nodup_concat_unique; [apply Hok|exact Hl'|exact Hl|done|done]).
    rewrite Hl in Hl'. injection Hl' as ->. by apply Hne, Hab.
  - sstep. exists r, t3. rewrite HN3, Hpol, Hlast. split_and!; try done. exists i, l. split_and!; [done|done|].
    rewrite decide_True by (by apply Hab). done.
Qed.

Lemma task_tick_rt_witness : runs (task_tick_rt 0 3%nat) (λ _ s', ∃ t', s_tasks s' !! 3%nat = Some t' ∧ t_time_slice t' = RR_TIMESLICE - 1) demo_both.
Proof.
  eapply runs_mono.
  { apply (task_tick_rt_correct demo_both 0 (demo_rq demo_both 0) 3%nat (set_on true demo_rt)).
    - vm_compute. reflexivity.
    - exact demo_both_rt.
    - vm_compute. eauto.
    - vm_compute. reflexivity.
    - refine (bool_decide_unpack _ _). vm_compute. exact I.
    - vm_compute. split; reflexivity. }
  intros [] s' (r' & t' & _ & Ht' & _ & _ & Hc). exists t'. split; [done|]. vm_compute in Hc. destruct Hc as (_ & Hs & _). exact Hs.
Defined.
