(* ===== verification/SchedFairProps.v ===== *)
(** * Properties of the fair class and of the policies *)
From stdpp Require Import gmap sorting.
From S2P Require Import Prelude Rbtree RbtreeSpec RbtreeRun FindBit Sched SchedRt SchedFair SchedCore.
From S2P Require Import SchedLogic SchedRtFacts SchedFairFacts SchedInv SchedOps SchedOpsFair SchedSwitch SchedSys.
From S2P Require Import SchedActivate SchedSchedule SchedWake SchedMigrate SchedBoot SchedDemo.

(** ** Virtual time *)

Lemma runs_conj {A} (m : M A) Q Q' s : runs m Q s → runs m Q' s → runs m (λ a s', Q a s' ∧ Q' a s') s.
Proof. intros (a & s' & Hm & HQ) (a' & s'' & Hm' & HQ'). rewrite Hm in Hm'. injection Hm' as <- <-. by exists a, s'. Qed.

(** The leftmost task is first in the order. *)
Lemma sorted_head_le b N h c cfs l x y :
  fair_tree b N h c cfs l → head l = Some x → y ∈ l → voff b (vr N x) ≤ voff b (vr N y).
Proof.
  intros Hft Hx Hy. pose proof (ft_sorted _ _ _ _ _ _ Hft) as Hs. destruct l as [|z l]; [done|]. simpl in Hx. injection Hx as ->.
  apply elem_of_cons in Hy as [->|Hy]; [lia|]. inversion Hs as [|? ? _ Hall]; subst. rewrite Forall_forall in Hall. by apply Hall.
Qed.

(** C9. [update_curr] charges the running fair task for the time since its last
    charge, scaled by its weight, and nothing else: no other task changes.  The
    queue's [min_vruntime] never goes back, it passes neither a task of the
    queue nor the running one unless it was past it already, and the invariant
    of the processor is kept. *)
Theorem update_curr_correct b s c r q t l k :
  s_rqs s !! c = Some r → cpu_inv b (nmap s) (s_nodes s) c r l → (∀ p t, s_tasks s !! p = Some t → task_ok t) →
  cfs_curr (rq_cfs r) = Some q → s_tasks s !! q = Some t → 0 ≤ k → curr_budget b c s (1 + k) →
  let delta := u64 (rq_clock r - se_exec_start (t_se t)) in
  runs (update_curr c) (λ _ s', ∃ r' dw lw,
    delta_exec_weighted delta (t_se t) = Some (dw, lw) ∧ s_rqs s' !! c = Some r' ∧
    s_tasks s' !! q = Some (set_t_se (charged (rq_clock r) delta dw lw (t_se t)) t) ∧
    (∀ p, p ≠ q → s_tasks s' !! p = s_tasks s !! p) ∧
    (let m := voff b (cfs_min_vruntime (rq_cfs r)) in let m' := voff b (cfs_min_vruntime (rq_cfs r')) in
     m ≤ m' ∧ m' ≤ Z.max m (voff b (se_vruntime (t_se t)) + dw) ∧ ∀ p, p ∈ l → m' ≤ Z.max m (voff b (vr (nmap s) p))) ∧
    cpu_inv b (nmap s') (s_nodes s') c r' l) s.
Proof.
  intros Hr Hinv Htok Hcurr Ht Hk Hb delta. pose proof Hinv as [_ _ Hft Hfc _ _ _ _ Hw].
  destruct (Hfc q Hcurr) as (Hql & n & (Hn & Hkn & Hcn) & Hwn). rewrite (lookup_nmap _ _ _ Ht) in Hn. injection Hn as <-. cbn in Hkn, Hwn.
  destruct (to_weight _ (Htok q t Ht)) as [Hwt _]; [congruence|]. pose proof (u64_bound (rq_clock r - se_exec_start (t_se t))) as Hd.
  fold delta in Hd. destruct (delta_exec_weighted_run delta (t_se t) Hwt ltac:(lia)) as (dw & lw & Hdw & Hlw & Hdwb).
  pose proof (Hb r q t Hr Hcurr Ht) as Hbt. unfold budget in Hbt. fold delta in Hbt.
  eapply runs_mono; [apply runs_conj; [eapply (update_curr_runs b s c r q t l delta dw lw); try done; lia
    |by eapply (update_curr_charge b c s r l k)]|].
  intros [] s' [(m' & -> & Hm & Hm') (r' & [Hloc Hinv' _ _ _ _ _ _ _])]. pose proof (local_rq _ _ _ _ _ Hloc) as Hr'.
  cbn in Hr'. rewrite lookup_insert_eq in Hr'. injection Hr' as <-.
  exists (set_rq_cfs (set_cfs_min_vruntime m' (rq_cfs r)) r), dw, lw. cbn.
  split_and!; [done|by rewrite lookup_insert_eq|by rewrite lookup_insert_eq| |lia|rewrite Hm'; destruct (head l); lia| |done].
  - intros p Hp. by rewrite lookup_insert_ne.
  - intros p Hp. rewrite Hm'. destruct (head l) as [x|] eqn:Hx; [|by destruct l; [apply elem_of_nil in Hp|]].
    pose proof (sorted_head_le _ _ _ _ _ _ _ _ Hft Hx Hp). lia.
Qed.

Lemma demo_budget : curr_budget boot_base 0 demo_running 1.
Proof.
  intros r q t Hr Hq Ht. vm_compute in Hr. injection Hr as <-. vm_compute in Hq. injection Hq as <-. vm_compute in Ht.
  injection Ht as <-. vm_compute. done.
Qed.

Definition demo_current : task_struct := match s_tasks demo_running !! 4%nat with Some t => t | None => demo_fair end.

Lemma update_curr_witness :
  runs (update_curr 0) (λ _ s', ∃ r', s_rqs s' !! 0%nat = Some r') demo_running.
Proof.
  destruct demo_running_inv as [L Hinv]. eapply runs_mono.
  { apply (update_curr_correct boot_base demo_running 0 (demo_rq demo_running 0) 4%nat demo_current (L 0%nat) 0).
    - vm_compute. reflexivity.
    - apply (si_cpu _ _ _ Hinv 0%nat). vm_compute. reflexivity.
    - apply Hinv.
    - vm_compute. reflexivity.
    - vm_compute. reflexivity.
    - lia.
    - exact demo_budget. }
  intros [] s' (r' & _ & _ & _ & Hr' & _). eauto.
Defined.

(** [set_next_entity] does not start the run period of the task it picks: the
    task that has just begun to run, at the time on the clock, is charged for the
    whole time since its last charge, here since the boot. *)
Example waiting_time_charged :
  option_map (λ '(_, s), (λ t, se_sum_exec_runtime (t_se t)) <$> s_tasks s !! 4%nat) (update_curr 0 demo_running) =
    Some (Some (rq_clock (demo_rq demo_running 0))) ∧ 0 < rq_clock (demo_rq demo_running 0).
Proof. vm_compute. split; reflexivity. Qed.

(** ** Scaling by weight *)

(** The tables: the inverse of a weight is off by less than one. *)
Definition table_ok (wm : Z * Z) : bool :=
  (15 <=? wm.1) && (wm.1 <=? 88761) && (wm.2 <? 2 ^ 29) && (0 <? wm.2) && (Z.abs (wm.1 * wm.2 - 2 ^ 32) <=? wm.1).
Lemma tables_ok : Forall (λ wm, table_ok wm = true) (zip prio_to_weight prio_to_wmult).
Proof. repeat constructor. Qed.

Lemma SRR_round x y : 0 < y ≤ 32 → 0 ≤ x < 2 ^ 64 - 2 ^ 32 → Z.abs (2 * (SRR x y * 2 ^ y - x)) ≤ 2 ^ y.
Proof.
  intros Hy Hx. unfold SRR. rewrite Z.shiftl_mul_pow2, Z.mul_1_l by lia.
  assert (Hp : 2 ^ y = 2 * 2 ^ (y - 1)) by (rewrite <-Z.pow_succ_r by lia; f_equal; lia).
  assert (Hle : 2 ^ (y - 1) ≤ 2 ^ 31) by (apply Z.pow_le_mono_r; lia). assert (0 < 2 ^ (y - 1)) by (apply Z.pow_pos_nonneg; lia).
  rewrite u64_small by lia. rewrite Z.shiftr_div_pow2, Hp by lia. set (P := 2 ^ (y - 1)) in *.
  pose proof (Z.div_mod (x + P) (2 * P) ltac:(lia)). pose proof (Z.mod_pos_bound (x + P) (2 * P) ltac:(lia)). lia.
Qed.

(** The error of the scaled time, times the weight. *)
Lemma calc_delta_mine_error delta w m :
  table_ok (w, m) = true → 0 ≤ delta < 2 ^ 41 →
  ∃ v, calc_delta_fair delta (mk_lw w m) = Some (v, mk_lw w m) ∧
    Z.abs (v * w - delta * NICE_0_LOAD) * 2 ^ 22 ≤ 2 ^ 38 + 2 ^ 23 * w + w * delta.
Proof.
  unfold table_ok. cbn [fst snd]. rewrite !andb_true_iff, !Z.leb_le, !Z.ltb_lt. intros ((((Hw1 & Hw2) & Hm) & Hm0) & Hinv) Hd.
  unfold calc_delta_fair, calc_delta_mine, calc_inv_weight. cbn [lw_inv_weight lw_weight]. rewrite (proj2 (Z.eqb_neq m 0)) by lia.
  cbn. change NICE_0_LOAD with 1024. rewrite (u64_small (delta * 1024)) by lia. change WMULT_CONST with (2 ^ 32).
  change (WMULT_SHIFT / 2) with 16. change WMULT_SHIFT with 32. set (x := delta * 1024).
  destruct (Z.ltb_spec (2 ^ 32) x) as [Hbig|Hsmall].
  - pose proof (SRR_round x 16 ltac:(lia) ltac:(lia)) as Ha. set (a := SRR x 16) in *.
    assert (Hab : 0 ≤ a < 2 ^ 35 + 1) by lia. assert (Ham : 0 ≤ a * m < 2 ^ 64 - 2 ^ 32) by nia. rewrite u64_small by lia.
    pose proof (SRR_round (a * m) 16 ltac:(lia) Ham) as Hv. set (v := SRR (a * m) 16) in *.
    exists (Z.min v LONG_MAX). split; [done|]. rewrite Z.min_l by (unfold LONG_MAX; lia). nia.
  - assert (Hxm : 0 ≤ x * m < 2 ^ 64 - 2 ^ 32) by nia. rewrite u64_small by lia.
    pose proof (SRR_round (x * m) 32 ltac:(lia) Hxm) as Hv. set (v := SRR (x * m) 32) in *.
    exists (Z.min v LONG_MAX). split; [done|]. rewrite Z.min_l by (unfold LONG_MAX; lia). nia.
Qed.

(** [calc_delta_fair] with the weights of any nice level: for run times up
    to 2^41 ns, the charge is [delta * NICE_0_LOAD / weight] up to an error of at
    most [2^16 / weight + 2 + delta / 2^22] ns; nothing overflows on the way. *)
Theorem calc_delta_fair_accurate i w m delta :
  prio_to_weight !! i = Some w → prio_to_wmult !! i = Some m → 0 ≤ delta < 2 ^ 41 →
  ∃ v, calc_delta_fair delta (mk_lw w m) = Some (v, mk_lw w m) ∧
    Z.abs (v * w - delta * NICE_0_LOAD) * 2 ^ 22 ≤ 2 ^ 38 + 2 ^ 23 * w + w * delta.
Proof.
  intros Hw Hm Hd. apply calc_delta_mine_error; [|done].
  apply (Forall_lookup_1 _ _ i (w, m) tables_ok). apply lookup_zip_Some. done.
Qed.

Lemma calc_delta_fair_witness :
  ∃ v, calc_delta_fair 10000000 (mk_lw 335 12820798) = Some (v, mk_lw 335 12820798) ∧
    Z.abs (v * 335 - 10000000 * NICE_0_LOAD) * 2 ^ 22 ≤ 2 ^ 38 + 2 ^ 23 * 335 + 335 * 10000000.
Proof. apply (calc_delta_fair_accurate 25); [reflexivity|reflexivity|lia]. Defined.

(** The weights of a [SCHED_IDLE] task: [WMULT_IDLEPRIO] is meant to be 2^31,
    but it is the wrapped value of a negative [int], and short run times are
    charged as almost 2^32 ns instead of 512 times their length. *)
Theorem idle_policy_charge delta :
  0 < delta < 2 ^ 22 →
  calc_delta_fair delta (mk_lw WEIGHT_IDLEPRIO WMULT_IDLEPRIO) =
    Some (2 ^ 32 - 512 * delta, mk_lw WEIGHT_IDLEPRIO WMULT_IDLEPRIO).
Proof.
  intros Hd. unfold calc_delta_fair, calc_delta_mine, calc_inv_weight. change (lw_inv_weight _) with WMULT_IDLEPRIO.
  change (WMULT_IDLEPRIO =? 0) with false. cbn. change NICE_0_LOAD with 1024. rewrite (u64_small (delta * 1024)) by lia.
  change WMULT_CONST with (2 ^ 32). rewrite (proj2 (Z.ltb_ge _ _)) by lia. change WMULT_SHIFT with 32.
  change WMULT_IDLEPRIO with (2 ^ 64 - 2 ^ 31).
  assert (Hu : u64 (delta * 1024 * (2 ^ 64 - 2 ^ 31)) = 2 ^ 64 - delta * 2 ^ 41).
  { unfold u64. replace (delta * 1024 * (2 ^ 64 - 2 ^ 31)) with (2 ^ 64 - delta * 2 ^ 41 + (delta * 1024 - 1) * 2 ^ 64) by lia.
    rewrite Z.mod_add by lia. apply Z.mod_small. lia. }
  rewrite Hu. unfold SRR. rewrite (u64_small (2 ^ 64 - delta * 2 ^ 41 + _)) by (change (Z.shiftl 1 (32 - 1)) with (2 ^ 31); lia).
  rewrite Z.shiftr_div_pow2 by lia. change (Z.shiftl 1 (32 - 1)) with (2 ^ 31).
  replace (2 ^ 64 - delta * 2 ^ 41 + 2 ^ 31) with (2 ^ 31 + (2 ^ 32 - 512 * delta) * 2 ^ 32) by lia.
  rewrite Z.div_add by lia. change (2 ^ 31 / 2 ^ 32) with 0. unfold LONG_MAX. rewrite Z.min_l by lia. do 2 f_equal.
Qed.

(** ** Slices *)

(** The slices of entities of weights [ws] out of a period [p]. *)
Lemma slices_sum p W ws :
  0 ≤ p → 0 < W → Forall (λ w, 0 ≤ w) ws →
  let xs := (λ w, p * w / W) <$> ws in
  let sum := foldr Z.add 0 in
  sum xs * W ≤ p * sum ws < sum xs * W + Z.of_nat (length ws) * W + 1.
Proof.
  intros Hp HW Hws. induction Hws as [|w ws Hw _ IH]; [cbn; lia|]. cbv zeta in *. cbn [fmap list_fmap foldr length] in *.
  pose proof (Z.div_mod (p * w) W ltac:(lia)). pose proof (Z.mod_pos_bound (p * w) W HW). lia.
Qed.

(** The weights of up to [2^14] tasks fit in the 32 bits that [do_div] looks
    at. *)
Lemma sumw_bound N l :
  (∀ p, p ∈ l → 0 < wt N p ≤ MAX_WEIGHT) → Z.of_nat (length l) ≤ sumw N l ≤ Z.of_nat (length l) * MAX_WEIGHT.
Proof.
  induction l as [|x l IH]; intros H; [cbn; lia|]. rewrite sumw_cons. pose proof (H x ltac:(by left)).
  assert (IH' := IH (λ p Hp, H p ltac:(by right))). cbn [length]. unfold MAX_WEIGHT in *. lia.
Qed.

Definition slice_of (tn : tunables) (N : gmap loc task_struct) (cfs : cfs_rq) (p : loc) : option Z :=
  t ← N !! p; sched_slice tn cfs (t_se t).

(** C10. The slices of the runnable fair tasks of a processor share out the
    period: each is defined (no division by zero and no overflow), together they
    are at most [__sched_period], and they leave at most a nanosecond per task. *)
Theorem sched_slices_share tn b N h c r l :
  0 < sysctl_sched_latency tn < 2 ^ 28 → 0 < sysctl_sched_min_granularity tn < 2 ^ 28 →
  cpu_inv b N h c r l → (∀ p t, N !! p = Some t → task_ok t) →
  let ms := fair_members N (rq_cfs r) l in
  (0 < length ms ≤ Z.to_nat (2 ^ 14))%nat →
  let period := __sched_period tn (Z.of_nat (length ms)) in
  ∃ xs, mapM (slice_of tn N (rq_cfs r)) ms = Some xs ∧
    foldr Z.add 0 xs ≤ period ≤ foldr Z.add 0 xs + Z.of_nat (length ms).
Proof.
  intros Hlat Hgran Hinv Htok ms Hlen period. pose proof Hinv as [_ _ _ _ _ _ Hnr Hld _]. fold ms in Hnr, Hld.
  assert (Hw : ∀ p, p ∈ ms → ∃ t, N !! p = Some t ∧ wt N p = lw_weight (se_load (t_se t)) ∧ 0 < wt N p ≤ MAX_WEIGHT).
  { intros p Hp. destruct (member_placed _ _ _ _ _ _ Hinv p) as (t & Ht & _ & Hk & _); [unfold members; set_solver|].
    exists t. unfold wt. rewrite Ht. split_and!; [done|done|apply (to_weight _ (Htok p t Ht)); done..]. }
  assert (Hsum := sumw_bound N ms (λ p Hp, let 'ex_intro _ _ (conj _ (conj _ H)) := Hw p Hp in H)).
  set (W := sumw N ms) in *. unfold MAX_WEIGHT in *.
  assert (Hper : 0 ≤ period < 2 ^ 44).
  { unfold period, __sched_period, sched_nr_latency. case_match; [|lia]. rewrite u64_small; nia. }
  assert (HW : lw_weight (cfs_load (rq_cfs r)) = W) by (rewrite Hld; apply u64_small; nia).
  assert (Hslice : ∀ p, p ∈ ms → slice_of tn N (rq_cfs r) p = Some (period * wt N p / W)).
  { intros p Hp. destruct (Hw p Hp) as (t & Ht & Hwp & Hb). unfold slice_of. rewrite Ht. cbn. unfold sched_slice, do_div.
    rewrite Hnr, HW, <-Hwp. fold period. rewrite (u64_small (period * wt N p)) by nia.
    assert (Hu : u32 W = W) by (unfold u32; apply Z.mod_small; nia). rewrite Hu.
    by rewrite (proj2 (Z.eqb_neq W 0)) by lia. }
  exists ((λ w, period * w / W) <$> (wt N <$> ms)). split.
  - apply mapM_Some, Forall2_same_length_lookup. split; [by rewrite !length_fmap|]. intros i p x Hp Hx.
    rewrite !list_lookup_fmap, Hp in Hx. injection Hx as <-. apply Hslice. by eapply list_elem_of_lookup_2.
  - destruct (slices_sum period W (wt N <$> ms)) as [H1 H2]; [lia|lia| |].
    + apply Forall_fmap, Forall_forall. intros p Hp. destruct (Hw p Hp) as (_ & _ & _ & ?). cbn. lia.
    + rewrite length_fmap in H2. change (foldr Z.add 0 (wt N <$> ms)) with W in *.
      set (S := foldr Z.add 0 ((λ w, period * w / W) <$> (wt N <$> ms))) in *. nia.
Qed.

Lemma sched_slices_witness :
  ∃ ms xs, mapM (slice_of default_tunables (nmap demo_running) (rq_cfs (demo_rq demo_running 0))) ms = Some xs ∧
    length ms = 1%nat ∧ foldr Z.add 0 xs ≤ 20000000.
Proof.
  destruct demo_running_inv as [L Hinv].
  assert (Hci := si_cpu _ _ _ Hinv 0%nat (demo_rq demo_running 0) ltac:(vm_compute; reflexivity)).
  assert (Hlen : length (fair_members (nmap demo_running) (rq_cfs (demo_rq demo_running 0)) (L 0%nat)) = 1%nat).
  { apply Nat2Z.inj. rewrite <-(ci_nr _ _ _ _ _ _ Hci). vm_compute. reflexivity. }
  destruct (sched_slices_share default_tunables (demo_base 0) (nmap demo_running) (s_nodes demo_running) 0 (demo_rq demo_running 0) (L 0%nat)) as (xs & Hxs & Hsum).
  - vm_compute. split; reflexivity.
  - vm_compute. split; reflexivity.
  - exact Hci.
  - intros p n Hn. apply nmap_lookup in Hn as (t & Ht & <-). destruct (si_tasks _ _ _ Hinv p t Ht). by constructor.
  - rewrite Hlen. vm_compute. lia.
  - eexists _, xs. split_and!; [exact Hxs|exact Hlen|]. rewrite Hlen in Hsum. apply Hsum.
Defined.
