(* ===== verification/SchedPolicyProps.v ===== *)
(** * Policies and priorities ([sched_setscheduler]) *)
From stdpp Require Import gmap sorting.
From S2P Require Import Prelude Rbtree RbtreeSpec RbtreeRun FindBit Sched SchedRt SchedFair SchedCore.
From S2P Require Import SchedLogic SchedRtFacts SchedFairFacts SchedInv SchedOps SchedOpsFair SchedSwitch SchedSys.
From S2P Require Import SchedActivate SchedSchedule SchedWake SchedMigrate SchedBoot SchedDemo.

(** The task after [__setscheduler]. *)
Definition set_policy (policy prio : Z) (t : task_struct) : option task_struct :=
  let t := set_t_rt_priority prio (set_t_class (class_of_policy policy (t_class t)) (set_t_policy policy t)) in
  let t := set_t_normal_prio (normal_prio t) t in
  let t := set_t_prio (t_normal_prio t) t in
  lw ← load_weight_of t; Some (set_t_se (set_se_load lw (t_se t)) t).

Lemma __setscheduler_run s p t t' policy prio :
  s_tasks s !! p = Some t → se_on_rq (t_se t) = false → set_policy policy prio t = Some t' →
  __setscheduler p policy prio s = Some (tt, set_s_tasks (<[p := t']> (s_tasks s)) s).
Proof.
  intros Ht Hon Hset. unfold set_policy in Hset. cbv zeta in Hset. destruct (load_weight_of _) as [lw|] eqn:Hlw; [|done]. injection Hset as <-.
  assert (Hr : runs (__setscheduler p policy prio) (λ _ s', s' = set_s_tasks (<[p := set_t_se (set_se_load lw (t_se t))
    (set_t_prio (normal_prio (set_t_rt_priority prio (set_t_class (class_of_policy policy (t_class t)) (set_t_policy policy t))))
     (set_t_normal_prio (normal_prio (set_t_rt_priority prio (set_t_class (class_of_policy policy (t_class t)) (set_t_policy policy t))))
     (set_t_rt_priority prio (set_t_class (class_of_policy policy (t_class t)) (set_t_policy policy t)))))]> (s_tasks s)) s) s).
  { unfold __setscheduler. do 2 sstep. rewrite Hon. unfold BUG_ON. do 8 sstep. unfold set_load_weight. do 3 sstep.
    eapply runs_lift; [exact Hlw|]. eapply runs_mod_se; [cbn; by rewrite lookup_insert_eq|]. cbn. by rewrite !insert_insert_eq. }
  destruct Hr as ([] & s' & -> & ->). done.
Qed.

(** The conditions under which [sched_setscheduler] accepts. *)
Definition accepted (t : task_struct) (policy prio : Z) : Prop :=
  let policy' := if 0 <=? policy then policy else t_policy t in
  (0 ≤ policy → policy_valid policy = true) ∧ 0 ≤ prio < MAX_RT_PRIO ∧ (rt_policy policy' = true ↔ prio ≠ 0).

#[global] Instance accepted_dec t policy prio : Decision (accepted t policy prio).
Proof. unfold accepted. cbv zeta. apply _. Defined.

Lemma table_lookup (i : Z) : 0 ≤ i < 40 → ∃ w m, zlookup prio_to_weight i = Some w ∧ zlookup prio_to_wmult i = Some m ∧ 0 < w ≤ MAX_WEIGHT.
Proof.
  intros Hi. assert (Hall : Forall (λ w, 0 < w ≤ MAX_WEIGHT) prio_to_weight) by (repeat constructor; unfold MAX_WEIGHT; lia).
  unfold zlookup. rewrite (proj2 (Z.ltb_ge _ _)) by lia.
  destruct (lookup_lt_is_Some_2 prio_to_weight (Z.to_nat i)) as [w Hw]; [cbn; lia|].
  destruct (lookup_lt_is_Some_2 prio_to_wmult (Z.to_nat i)) as [m Hm]; [cbn; lia|].
  exists w, m. split_and!; [done|done|apply (Forall_lookup_1 _ _ _ _ Hall Hw)..].
Qed.

Lemma set_policy_ok policy prio t :
  se_on_rq (t_se t) = false → 100 ≤ t_static_prio t < MAX_PRIO → 0 ≤ policy → accepted t policy prio →
  ∃ t', set_policy policy prio t = Some t' ∧ task_ok t' ∧ t_policy t' = policy ∧ t_rt_priority t' = prio ∧
    t_cpu t' = t_cpu t ∧ se_on_rq (t_se t') = false ∧
    if rt_policy policy then t_class t' = RtClass ∧ t_prio t' = 99 - prio ∧ 0 ≤ t_prio t' < 99
    else t_class t' = FairClass ∧ t_prio t' = t_static_prio t.
Proof.
  intros Hon Hst Hpol (Hval & Hprio & Hrt). rewrite (proj2 (Z.leb_le 0 policy)) in Hrt by done. specialize (Hval Hpol).
  change MAX_RT_PRIO with 100 in *. change MAX_PRIO with 140 in *. unfold set_policy, load_weight_of, task_has_rt_policy. cbn [t_policy set_t_policy set_t_class set_t_rt_priority set_t_normal_prio set_t_prio].
  unfold normal_prio, task_has_rt_policy, class_of_policy. cbn [t_policy set_t_policy set_t_class set_t_rt_priority t_rt_priority].
  change (rt_policy policy) with ((policy =? SCHED_FIFO) || (policy =? SCHED_RR)) in *. unfold policy_valid in Hval.
  destruct ((policy =? SCHED_FIFO) || (policy =? SCHED_RR)) eqn:Hr.
  - assert (Hnf : (policy =? SCHED_NORMAL) || (policy =? SCHED_BATCH) || (policy =? SCHED_IDLE) = false).
    { unfold SCHED_FIFO, SCHED_RR, SCHED_NORMAL, SCHED_BATCH, SCHED_IDLE in *. lia. }
    rewrite Hnf. cbn. eexists. split; [reflexivity|]. assert (prio ≠ 0) by by apply Hrt. cbn.
    split_and!; try done; try (change MAX_RT_PRIO with 100; lia). constructor; cbn; [unfold MAX_RT_PRIO, MAX_USER_RT_PRIO; lia|vm_compute; intuition congruence|done].
  - assert (Hf : (policy =? SCHED_NORMAL) || (policy =? SCHED_BATCH) || (policy =? SCHED_IDLE) = true).
    { unfold SCHED_FIFO, SCHED_RR, SCHED_NORMAL, SCHED_BATCH, SCHED_IDLE in *. lia. }
    rewrite Hf. cbn. destruct (policy =? SCHED_IDLE).
    + eexists. split; [reflexivity|]. cbn. by split_and!.
    + destruct (table_lookup (t_static_prio t - 100)) as (w & m & Hw & Hm & Hb); [lia|]. change MAX_RT_PRIO with 100. rewrite Hw, Hm. cbn.
      eexists. split; [reflexivity|]. cbn. by split_and!.
Qed.



(** ** The system call *)

(** Commands that return nothing but 0. *)
Definition only_zero (m : M Z) : Prop := ∀ s a s', m s = Some (a, s') → a = 0.

Lemma only_zero_ret : only_zero (mret 0).
Proof. by intros s a s' [=]. Qed.

Lemma only_zero_bind {A} (m : M A) (k : A → M Z) : (∀ a, only_zero (k a)) → only_zero (m ≫= k).
Proof. intros Hk s a s' Hm. unfold mbind, M_bind in Hm. destruct (m s) as [[x s1]|]; [|done]. by eapply Hk. Qed.

(** C13. [sched_setscheduler] refuses with [-EINVAL], and changes nothing, exactly
    when the policy is unknown, the priority is outside [0 .. 99], or the
    priority does not fit the policy: real-time policies need a priority other
    than zero and the others need zero.  A negative policy stands for the task's
    own. *)
Theorem sched_setscheduler_refuses me now tn fuel s p t policy prio :
  s_tasks s !! p = Some t →
  (¬ accepted t policy prio → sched_setscheduler me now tn fuel p policy prio s = Some (- EINVAL, s)) ∧
  (accepted t policy prio → ∀ s', sched_setscheduler me now tn fuel p policy prio s ≠ Some (- EINVAL, s')).
Proof.
  intros Ht. unfold sched_setscheduler, accepted. cbv zeta.
  assert (Hget : ∀ (k : task_struct → M Z), (get_task p ≫= k) s = k t s).
  { intros k. unfold get_task, mbind, M_bind. by rewrite Ht. }
  rewrite Hget. set (policy' := if 0 <=? policy then policy else t_policy t). change MAX_RT_PRIO with 100. change MAX_USER_RT_PRIO with 100.
  destruct ((0 <=? policy) && negb (policy_valid policy')) eqn:Hbad.
  { apply andb_true_iff in Hbad as [H0 Hv]. unfold policy' in Hv. rewrite H0 in Hv. apply Z.leb_le in H0. split; [intros _; reflexivity|].
    intros (Hval & _). specialize (Hval H0). rewrite Hval in Hv. done. }
  assert (Hval : 0 ≤ policy → policy_valid policy = true).
  { intros H0. apply Z.leb_le in H0. unfold policy' in Hbad. rewrite H0 in Hbad. by destruct (policy_valid policy). }
  destruct ((prio <? 0) || t_mm t && (100 - 1 <? prio) || negb (t_mm t) && (100 - 1 <? prio)) eqn:Hbad2.
  { split; [intros _; reflexivity|]. intros (_ & Hp & _). exfalso. destruct (t_mm t); lia. }
  destruct (eqb (rt_policy policy') (negb (prio =? 0))) eqn:Hbad3; cbn [negb].
  - split; [|intros _ s' Hrun; lazymatch type of Hrun with ?m s = _ => assert (Hz : only_zero m) by
      (repeat (apply only_zero_bind; intros); apply only_zero_ret) end; by apply Hz in Hrun].
    intros Hna. exfalso. apply Hna. split_and!; [done|destruct (t_mm t); lia|destruct (t_mm t); lia|].
    apply eqb_prop in Hbad3. rewrite Hbad3. destruct (Z.eqb_spec prio 0); naive_solver.
  - split; [intros _; reflexivity|]. intros (_ & _ & Hiff). exfalso. apply eqb_false_iff in Hbad3. apply Hbad3.
    destruct (rt_policy policy'), (Z.eqb_spec prio 0); naive_solver.
Qed.

Lemma sched_setscheduler_refuses_witness :
  sched_setscheduler 0 20 default_tunables demo_fuel 4%nat SCHED_FIFO 0 demo_asleep = Some (- EINVAL, demo_asleep).
Proof.
  apply (sched_setscheduler_refuses 0 20 default_tunables demo_fuel demo_asleep 4%nat demo_fair).
  - vm_compute. reflexivity.
  - intros (_ & _ & H). assert (rt_policy SCHED_FIFO = true) by done. by apply H.
Defined.

(** ** Changing the policy of a task that does not run *)

Section change.
Context (B : nat → Z) (me : nat) (now : Z) (tn : tunables) (fuel : nat).
Hypothesis Hlat : 0 ≤ sysctl_sched_latency tn < 2 ^ 32.

(** A change of a task that the processor does not run. *)
Lemma curr_budget_put s L c r p t' k :
  sched_inv B s L → s_rqs s !! c = Some r → rq_curr r ≠ p → curr_budget (B c) c s k →
  curr_budget (B c) c (set_s_tasks (<[p := t']> (s_tasks s)) s) k.
Proof.
  intros Hinv Hr Hne Hb r0 q u Hr0 Hq Hu. cbn in *. rewrite Hr in Hr0. injection Hr0 as <-.
  assert (rq_curr r = q) by (by eapply curr_ok_cfs; [apply (si_curr _ _ _ Hinv c r Hr)|]).
  rewrite lookup_insert_ne in Hu by congruence. by apply (Hb r q).
Qed.

(** The middle of [sched_setscheduler], on a parked task. *)
Lemma __setscheduler_inv s L p t policy prio :
  sched_inv B s L → parked s p t → 100 ≤ t_static_prio t < MAX_PRIO → 0 ≤ policy → accepted t policy prio →
  ∃ t', __setscheduler p policy prio s = Some (tt, set_s_tasks (<[p := t']> (s_tasks s)) s) ∧
    sched_inv B (set_s_tasks (<[p := t']> (s_tasks s)) s) L ∧ parked (set_s_tasks (<[p := t']> (s_tasks s)) s) p t' ∧
    t_cpu t' = t_cpu t ∧ se_on_rq (t_se t') = false ∧
    if rt_policy policy then t_class t' = RtClass ∧ t_prio t' = 99 - prio
    else t_class t' = FairClass ∧ t_prio t' = t_static_prio t.
Proof.
  intros Hinv Hpk Hst Hpol Hacc. pose proof Hpk as [Ht Hk Hon Hpc].
  destruct (set_policy_ok policy prio t) as (t' & Hset & Hok & _ & _ & Hcpu & Hon' & Hcl); try done. exists t'.
  assert (Hvr : se_vruntime (t_se t') = se_vruntime (t_se t)).
  { unfold set_policy in Hset. cbv zeta in Hset. destruct (load_weight_of _); [|done]. injection Hset as <-. done. }
  assert (Hcl' : t_class t' ≠ IdleClass) by (destruct (rt_policy policy); destruct Hcl as [-> _]; done).
  destruct (si_cpus _ _ _ Hinv p t Ht) as [r Hr].
  assert (Hwin : in_window (B (t_cpu t)) (se_vruntime (t_se t))).
  { apply (ci_window _ _ _ _ _ _ (si_cpu _ _ _ Hinv _ _ Hr) p (norm t)); [by apply lookup_nmap|done]. }
  split; [by apply (__setscheduler_run s p t)|]. split; [|split_and!; try done].
  - apply (sched_inv_move B s L p t t'); try done; [rewrite Hcpu; eauto|by rewrite Hcpu, Hvr].
  - constructor; [cbn; by rewrite lookup_insert_eq|done|done|]. rewrite Hcpu. exact Hpc.
  - destruct (rt_policy policy); naive_solver.
Qed.

(** The checks pass. *)
Lemma setscheduler_enter s p t policy prio (m : task_struct → M Z) Q :
  s_tasks s !! p = Some t → 0 ≤ policy → accepted t policy prio → runs (m t) Q s →
  runs (t ← get_task p;
    let given := 0 <=? policy in
    let policy := if given then policy else t_policy t in
    if given && negb (policy_valid policy) then mret (- EINVAL) else
    if (prio <? 0) || t_mm t && (MAX_USER_RT_PRIO - 1 <? prio) || negb (t_mm t) && (MAX_RT_PRIO - 1 <? prio)
    then mret (- EINVAL) else
    if negb (eqb (rt_policy policy) (negb (prio =? 0))) then mret (- EINVAL) else m t) Q s.
Proof.
  intros Ht Hpol (Hval & Hprio & Hrt) Hm. do 2 sstep. cbv zeta. rewrite (proj2 (Z.leb_le 0 policy)) in * by done.
  rewrite Hval by done. cbn [negb andb]. change MAX_RT_PRIO with 100 in *. change MAX_USER_RT_PRIO with 100.
  replace ((prio <? 0) || _ || _) with false by (destruct (t_mm t); lia).
  replace (eqb (rt_policy policy) (negb (prio =? 0))) with true; [done|]. symmetry. apply eqb_true_iff.
  destruct (rt_policy policy), (Z.eqb_spec prio 0); naive_solver.
Qed.

(** Taking the task off its queue, if it is on one. *)
Lemma setscheduler_leave s L c r p t k :
  sched_inv B s L → s_rqs s !! c = Some r → s_tasks s !! p = Some t → t_cpu t = c → t_class t ≠ IdleClass →
  rq_curr r ≠ p → (rb_depth (size (s_tasks s)) < fuel)%nat → 0 ≤ k → curr_budget (B c) c s (1 + k) →
  runs (when (se_on_rq (t_se t)) (deactivate_task fuel c p false;; when (bool_decide (rq_curr r = p)) (class_put_prev_task fuel (t_class t) c p)))
    (λ _ s', ∃ r' L' t', sched_inv B s' L' ∧ s_rqs s' !! c = Some r' ∧ parked s' p t' ∧ skel t' = skel t ∧
      rq_curr r' = rq_curr r ∧ same_clock r r' ∧ curr_budget (B c) c s' k ∧ size (s_tasks s') = size (s_tasks s) ∧
      ∀ q, q ≠ p → is_on_rq (nmap s') q = is_on_rq (nmap s) q) s.
Proof.
  intros Hinv Hr Ht Hc Hk Hne Hf Hk0 Hb. rewrite bool_decide_eq_false_2 by done. apply runs_when; intros Hon.
  - sstep. eapply runs_mono; [by apply (deactivate_task_post B tn fuel Hlat s L c r p t k)|].
    intros [] s1 (r1 & l1 & [Hinv1 Hr1 _ Hon1 _ Hcu1 Hck1 Hsk1 _ Hb1]). apply runs_ret.
    destruct (skel_lookup s s1 p t Hsk1 Ht) as (t1 & Ht1 & Hs1). destruct (skel_fields _ _ Hs1) as (_ & _ & _ & Hk1 & Hc1 & _).
    exists r1, (upd c l1 L), t1. split_and!; try done.
    + constructor; [done|congruence| |].
      * specialize (Hon1 p). rewrite decide_True in Hon1 by done. unfold is_on_rq in Hon1. by rewrite (lookup_nmap _ _ _ Ht1) in Hon1.
      * intros r0 Hr0. rewrite Hc1, Hc, Hr1 in Hr0. injection Hr0 as <-. congruence.
    + rewrite <-(map_size_fmap skel (s_tasks s1)), Hsk1. apply map_size_fmap.
    + intros q Hq. rewrite Hon1. by rewrite decide_False.
  - exists r, L, t. split_and!; try done; [|eapply curr_budget_mono; [|exact Hb]; lia].
    constructor; try done. intros r0 Hr0. rewrite Hc, Hr in Hr0. by injection Hr0 as <-.
Qed.

(** Putting it back, and letting it preempt. *)
Lemma setscheduler_return s L c r p t hi :
  sched_inv B s L → s_rqs s !! c = Some r → parked s p t → t_cpu t = c → (rb_depth (size (s_tasks s)) < fuel)%nat →
  clock_ok hi r → hi ≤ 2 ^ 63 - 2 * TICK_NSEC → curr_budget (B c) c s 3 →
  runs (activate_task tn fuel c p false;; _ ← get_task p; check_preempt_curr me now tn c p)
    (λ _ s', ∃ L' t', sched_inv B s' L' ∧ s_tasks s' !! p = Some t' ∧ ident t' = ident t ∧
      ∀ q, is_on_rq (nmap s') q = if decide (q = p) then true else is_on_rq (nmap s) q) s.
Proof.
  intros Hinv Hr [Ht Hk Hon Hpc] Hc Hf Hck Hhi Hb. sstep.
  eapply runs_mono; [by apply (activate_task_post B tn fuel Hlat s L c r p t 2)|].
  intros [] s1 (r1 & l1 & [Hinv1 Hr1 Hew1 Hon1 _ Hcu1 [Hclk1 Htick1] _ _ Hb1]).
  destruct (ident_lookup s s1 p t (ew_ident _ _ _ Hew1) Ht) as (t1 & Ht1 & Hid1).
  destruct (si_curr _ _ _ Hinv1 c r1 Hr1) as (n & Hn & _). apply nmap_lookup in Hn as (ct & Hct & _). do 2 sstep.
  eapply runs_mono; [eapply (check_preempt_curr_post B me now tn s1 (upd c l1 L) c r1 p t1 ct hi); try done|].
  - destruct Hck as [? ?]. split; rewrite Hclk1; [by rewrite Htick1|done].
  - intros [] s2 (r2 & [Hinv2 Hr2 Hew2 _ Hon2] & _).
    destruct (ident_lookup s1 s2 p t1 (ew_ident _ _ _ Hew2) Ht1) as (t2 & Ht2 & Hid2).
    eexists _, t2. split_and!; [done|done|congruence|]. intros q. by rewrite Hon2, Hon1.
Qed.

(** C12. [sched_setscheduler], with an accepted policy and priority, on a task
    that is not running, queued or not: it returns 0, the task has the class and
    the priority of its new policy, it is on the queue iff it was, every other
    task is marked as before, and the invariant holds on every processor; in
    particular the task is now in the queue of its new class. *)
Theorem sched_setscheduler_correct s L r p t policy prio :
  sched_inv B s L → s_tasks s !! p = Some t → s_rqs s !! t_cpu t = Some r → t_class t ≠ IdleClass → rq_curr r ≠ p →
  (rb_depth (size (s_tasks s)) < fuel)%nat → clock_ok (2 ^ 62) r → curr_budget (B (t_cpu t)) (t_cpu t) s 5 →
  100 ≤ t_static_prio t < MAX_PRIO → 0 ≤ policy → accepted t policy prio →
  runs (sched_setscheduler me now tn fuel p policy prio) (λ res s', res = 0 ∧ ∃ L' t',
    sched_inv B s' L' ∧ s_tasks s' !! p = Some t' ∧ t_cpu t' = t_cpu t ∧
    (if rt_policy policy then t_class t' = RtClass ∧ t_prio t' = 99 - prio
     else t_class t' = FairClass ∧ t_prio t' = t_static_prio t) ∧
    ∀ q, is_on_rq (nmap s') q = is_on_rq (nmap s) q) s.
Proof.
  intros Hinv Ht Hr Hk Hne Hf Hck Hb Hst Hpol Hacc. set (c := t_cpu t) in *. unfold sched_setscheduler.
  apply (setscheduler_enter s p t policy prio (λ t, _)); [done|done|done|]. rewrite (proj2 (Z.leb_le 0 policy)) by done.
  sstep. eapply runs_mono; [eapply (update_rq_clock_post B me now s L c r (2 ^ 62) 4); try done; change TICK_NSEC with 10000000; lia|].
  intros [] s1 (r1 & [Hinv1 Hr1 _ Hcu1 Hon1] & Hck1 & Hb1 & Htk1 & _). do 3 sstep.
  eapply runs_mono; [eapply (setscheduler_leave s1 L c r1 p t 3); try done; rewrite ?Htk1; try done; congruence|].
  intros [] s2 (r2 & L2 & t2 & Hinv2 & Hr2 & Hpk2 & Hsk2 & Hcu2 & [Hclk2 Htick2] & Hb2 & Hsz2 & Hon2).
  destruct (skel_fields _ _ Hsk2) as (_ & _ & Hst2 & _ & Hc2 & _). pose proof (pk_task _ _ _ Hpk2) as Ht2.
  assert (Hacc2 : accepted t2 policy prio).
  { unfold accepted in *. rewrite (proj2 (Z.leb_le 0 policy)) in * by done. done. }
  destruct (__setscheduler_inv s2 L2 p t2 policy prio) as (t3 & Hrun & Hinv3 & Hpk3 & Hc3 & Hon3 & Hcl3); try done; [congruence|].
  do 3 sstep. eexists _, _. split; [exact Hrun|]. cbv beta. set (s3 := set_s_tasks _ s2) in *. pose proof (pk_task _ _ _ Hpk3) as Ht3.
  assert (Hcl : if rt_policy policy then t_class t3 = RtClass ∧ t_prio t3 = 99 - prio else t_class t3 = FairClass ∧ t_prio t3 = t_static_prio t).
  { rewrite <-Hst2. done. }
  assert (Hc3' : t_cpu t3 = c) by (unfold c; congruence).
  assert (Hmark : ∀ q, q ≠ p → is_on_rq (nmap s3) q = is_on_rq (nmap s) q).
  { intros q Hq. rewrite <-Hon1, <-(Hon2 q Hq). unfold is_on_rq, nmap. cbn. rewrite fmap_insert. by rewrite lookup_insert_ne. }
  assert (Hsz3 : size (s_tasks s3) = size (s_tasks s)).
  { cbn. rewrite map_size_insert_Some by eauto. by rewrite Hsz2, Htk1. }
  assert (Hnc : rq_curr r1 ≠ p) by congruence. do 3 sstep. rewrite bool_decide_eq_false_2 by done. apply runs_when; intros Hon.
  - sstep. apply runs_ret. eapply runs_mono.
    { eapply (setscheduler_return s3 L2 c r2 p t3 (2 ^ 62 + TICK_NSEC)); [done|done|done|done|by rewrite Hsz3| | |].
      - destruct Hck1 as [? ?]. split; rewrite Hclk2; [by rewrite Htick2|done].
      - change TICK_NSEC with 10000000. lia.
      - apply (curr_budget_put s2 L2 c r2); [done|done|congruence|done]. }
    intros [] s4 (L4 & t4 & Hinv4 & Ht4 & Hid4 & Hon4). destruct (ident_fields _ _ Hid4) as (Hc4 & Hk4 & Hp4 & _). apply runs_ret.
    split; [done|]. exists L4, t4. split_and!; [done|done|congruence|by rewrite Hk4, Hp4|]. intros q. rewrite Hon4. case_decide as Hq; [|by apply Hmark].
    subst q. unfold is_on_rq. by rewrite (lookup_nmap _ _ _ Ht).
  - apply runs_ret. split; [done|]. exists L2, t3. split_and!; [done|done|done|done|]. intros q. destruct (decide (q = p)) as [->|Hq]; [|by apply Hmark].
    unfold is_on_rq. rewrite (lookup_nmap _ _ _ Ht), (lookup_nmap _ _ _ Ht3). cbn. congruence.
Qed.

End change.

(** The fair task that waits on processor 0 becomes a real-time task. *)
Definition demo_queued : task_struct := match s_tasks demo_ready !! 4%nat with Some t => t | None => demo_fair end.

Lemma sched_setscheduler_witness :
  runs (sched_setscheduler 0 20 default_tunables demo_fuel 4%nat SCHED_FIFO 10)
    (λ res s', res = 0 ∧ ∃ t', s_tasks s' !! 4%nat = Some t' ∧ t_class t' = RtClass ∧ t_prio t' = 89) demo_ready.
Proof.
  destruct demo_ready_inv as [L Hinv]. eapply runs_mono.
  { apply (sched_setscheduler_correct demo_base 0 20 default_tunables demo_fuel ltac:(by vm_compute) demo_ready L (demo_rq demo_ready 0) 4%nat demo_queued).
    - exact Hinv.
    - vm_compute. reflexivity.
    - vm_compute. reflexivity.
    - vm_compute. discriminate.
    - vm_compute. discriminate.
    - vm_compute. lia.
    - vm_compute. intuition discriminate.
    - intros r q t Hr Hq _. exfalso. vm_compute in Hr. injection Hr as <-. done.
    - vm_compute. split; [discriminate|reflexivity].
    - vm_compute. discriminate.
    - refine (bool_decide_unpack _ _). vm_compute. exact I. }
  intros res s' (-> & L' & t' & _ & Ht' & _ & [Hk Hp] & _). split; [done|]. exists t'. by split_and!.
Defined.
