(* ===== verification/Command.v ===== *)
(** * State-passing commands

    The commands of the components whose state is one record: a function on the
    state that crashes with [None], as a monad, and the rules by which what a
    command does is proved ([runs]). *)
From stdpp Require Import base.
From S2P Require Import Prelude.

Definition command (S A : Type) : Type := S → option (A * S).

#[global] Instance command_ret {S} : MRet (command S) := λ A a s, Some (a, s).
#[global] Instance command_bind {S} : MBind (command S) := λ A B k m s, '(a, s) ← m s; k a s.

Section commands.
Context {S : Type}.

Definition BUG {A} : command S A := λ _, None.
Definition BUG_ON (b : bool) : command S unit := if b then BUG else mret tt.
Definition when (b : bool) (m : command S unit) : command S unit := if b then m else mret tt.
Definition lift {A} (o : option A) : command S A := λ s, a ← o; Some (a, s).
Definition gets {A} (f : S → A) : command S A := λ s, Some (f s, s).
Definition getm {A} (f : S → option A) : command S A := λ s, a ← f s; Some (a, s).
Definition modify (f : S → S) : command S unit := λ s, Some (tt, f s).

(** Run [m] on each element in turn. *)
Fixpoint each {A} (m : A → command S unit) (l : list A) : command S unit :=
  match l with [] => mret tt | x :: l => m x;; each m l end.

(** [m] does not crash in [s], and what it returns and leaves satisfies [Q]. *)
Definition runs {A} (m : command S A) (Q : A → S → Prop) (s : S) : Prop :=
  ∃ a s', m s = Some (a, s') ∧ Q a s'.

Lemma run_mono {A} (m : command S A) (Q Q' : A → S → Prop) s :
  runs m Q s → (∀ a s', Q a s' → Q' a s') → runs m Q' s.
Proof. intros (a & s' & Hm & HQ) Himpl. exists a, s'. auto. Qed.

Lemma run_ret {A} (a : A) (Q : A → S → Prop) s : Q a s → runs (mret a) Q s.
Proof. intros. by exists a, s. Qed.

Lemma run_bind {A B} (m : command S B) (k : B → command S A) Q s :
  runs m (λ a s', runs (k a) Q s') s → runs (m ≫= k) Q s.
Proof.
  intros (a & s' & Hm & b & s'' & Hk & HQ). exists b, s''. split; [|done].
  unfold mbind, command_bind. by rewrite Hm.
Qed.

Lemma run_lift {A} (o : option A) (a : A) (Q : A → S → Prop) s : o = Some a → Q a s → runs (lift o) Q s.
Proof. intros -> HQ. by exists a, s. Qed.

Lemma run_gets {A} (f : S → A) (Q : A → S → Prop) s : Q (f s) s → runs (gets f) Q s.
Proof. intros HQ. by exists (f s), s. Qed.

Lemma run_getm {A} (f : S → option A) (a : A) (Q : A → S → Prop) s : f s = Some a → Q a s → runs (getm f) Q s.
Proof. intros Hf HQ. exists a, s. split; [|done]. unfold getm. by rewrite Hf. Qed.

Lemma run_modify (f : S → S) (Q : unit → S → Prop) s : Q tt (f s) → runs (modify f) Q s.
Proof. intros HQ. by exists tt, (f s). Qed.

Lemma run_BUG_ON (b : bool) (Q : unit → S → Prop) s : b = false → Q tt s → runs (BUG_ON b) Q s.
Proof. intros -> HQ. by apply run_ret. Qed.

Lemma run_when (b : bool) m (Q : unit → S → Prop) s :
  (b = true → runs m Q s) → (b = false → Q tt s) → runs (when b m) Q s.
Proof. intros Ht Hf. destruct b; [by apply Ht|by apply run_ret, Hf]. Qed.

(** A command that ran. *)
Lemma run_some {A} (m : command S A) (Q : A → S → Prop) s a s' : runs m Q s → m s = Some (a, s') → Q a s'.
Proof. intros (b & t & Hm & HQ) E. by rewrite Hm in E; simplify_eq. Qed.

(** The state that a command leaves. *)
Definition after {A} (m : command S A) (s : S) : S := match m s with Some (_, s') => s' | None => s end.

Lemma run_after {A} (m : command S A) (Q : A → S → Prop) s : runs m Q s → ∃ a, Q a (after m s).
Proof. intros (a & s' & Hm & HQ). exists a. unfold after. by rewrite Hm. Qed.

Lemma after_run {A} (m : command S A) s a : fst <$> m s = Some a → m s = Some (a, after m s).
Proof. unfold after. destruct (m s) as [[b s']|]; [|done]. by intros [= ->]. Qed.

End commands.
