(* ===== verification/BlockSource.v ===== *)
(** * Blocks of pages for the rest of the kernel

    What the page allocator promises to the code that takes blocks of pages of
    any order ([alloc_pages], [__free_pages] and [put_page]): a class of
    operations and its laws.  A block is named by its first page frame. *)
From stdpp Require Import gmap functions.
From S2P Require Import Prelude PageAlloc PageAllocFacts PageAllocBuddy PageAllocPcp PageAllocOps PageAllocSpec PageSource.

Class BlockSource (A : Type) := {
  (** [alloc_pages(gfp_mask, order)] on a processor; [None] outside is a [BUG_ON] *)
  alloc_pages : nat → Z → nat → A → option (option Z * A);
  (** [__free_pages(page, order)], and [put_page(page)] *)
  free_pages : nat → Z → nat → A → option A;
  put_pages : nat → Z → A → option A;
  (** [compound_head(page)] and [compound_order(page)] *)
  head_page : A → Z → option Z;
  block_order : A → Z → option nat;
  (** the state is good; the blocks that have been handed out, with their orders *)
  blocks_ok : A → Prop;
  blocks : A → gmap Z nat }.

(** The page frames of a block, and blocks that share none. *)
Definition in_block (p : Z) (o : nat) (q : Z) : Prop := p ≤ q < p + 2 ^ Z.of_nat o.
Definition apart (p : Z) (o : nat) (p' : Z) (o' : nat) : Prop := p + 2 ^ Z.of_nat o ≤ p' ∨ p' + 2 ^ Z.of_nat o' ≤ p.

(** The page frames of the linear map. *)
Definition PFN_LIMIT : Z := 2 ^ 36.

Class BlockSourceLaws (A : Type) `{BlockSource A} : Prop := {
  (** a block that shares nothing with the others, or none *)
  alloc_pages_ok cpu gfp o a : blocks_ok a →
    ∃ r a', alloc_pages cpu gfp o a = Some (r, a') ∧ blocks_ok a' ∧
      match r with
      | Some p => (∀ p' o', blocks a !! p' = Some o' → apart p o p' o') ∧ blocks a' = <[p := o]> (blocks a)
      | None => blocks a' = blocks a
      end;
  free_pages_ok cpu p o a : blocks_ok a → blocks a !! p = Some o →
    ∃ a', free_pages cpu p o a = Some a' ∧ blocks_ok a' ∧ blocks a' = delete p (blocks a);
  put_pages_ok cpu p o a : blocks_ok a → blocks a !! p = Some o →
    ∃ a', put_pages cpu p a = Some a' ∧ blocks_ok a' ∧ blocks a' = delete p (blocks a);
  head_page_ok p o q a : blocks_ok a → blocks a !! p = Some o → in_block p o q → head_page a q = Some p;
  block_order_ok p o a : blocks_ok a → blocks a !! p = Some o → block_order a p = Some o;
  block_range p o a : blocks_ok a → blocks a !! p = Some o → 0 ≤ p ∧ p + 2 ^ Z.of_nat o ≤ PFN_LIMIT;
  blocks_apart p o p' o' a : blocks_ok a → blocks a !! p = Some o → blocks a !! p' = Some o' → p ≠ p' → apart p o p' o' }.

(** ** The page allocator as a source of blocks

    The model of [page_alloc.c] with the blocks in use is an instance of
    [BlockSource], and its theorems discharge the laws. *)

Section allocator.
Context (cpus : list nat).

Definition node_alloc_pages (cpu : nat) (gfp : Z) (o : nat) (a : page_state) : option (option Z * page_state) :=
  '(r, nd, live) ← serve_one cpus (ReqAlloc cpu gfp o) a.1 a.2; Some (r, (nd, live)).
Definition node_free_pages (cpu : nat) (p : Z) (o : nat) (a : page_state) : option page_state :=
  '(_, nd) ← __free_pages cpu p o a.1; Some (nd, delete p a.2).
Definition node_put_pages (cpu : nat) (p : Z) (a : page_state) : option page_state :=
  '(_, nd) ← mm_put_page cpu p a.1; Some (nd, delete p a.2).

#[local] Instance node_blocks : BlockSource page_state := {
  alloc_pages := node_alloc_pages;
  free_pages := node_free_pages;
  put_pages := node_put_pages;
  BlockSource.head_page a q := compound_head q <$> mem_map a.1 !! q;
  block_order a p := '(o, _) ← compound_order p a.1; Some (Z.to_nat o);
  blocks_ok a := ∃ owned, refines owned a.1 a.2 ∧ ∀ zi q, owned zi q → 0 ≤ q < PFN_LIMIT;
  blocks a := snd <$> a.2 }.

(** A block with a reference is released by [put_page] as by [__free_pages]. *)
Lemma mm_put_page_block cpu nd zi o r p : held nd zi o r p → mm_put_page cpu p nd = __free_pages cpu p o nd.
Proof.
  destruct (decide (o = 0%nat)) as [->|Ho]; [apply mm_put_page_single|]. intros [_ _ (pg & Hp & Hfl & _ & _ & Hr & Ht) _ Hc].
  destruct (Hc Ho) as (pg1 & Hp1 & Hco).
  unfold mm_put_page, __free_pages, put_page_testzero, get_page, upd_page, compound_head, kbind, kret. rewrite Hp.
  cbn [mbind option_bind]. rewrite Ht. cbn [default]. change (id p) with p. rewrite Hp. cbn [mbind option_bind].
  destruct (BUG_ON (pg_refcount pg =? 0) nd) as [[[] nd1]|] eqn:Hb; [|done]. cbn [mbind option_bind].
  assert (nd1 = nd) as -> by (unfold BUG_ON in Hb; destruct (_ =? _); [done|by injection Hb]).
  rewrite Hp. cbn [mbind option_bind]. destruct (s32 _ =? 0); [|done].
  unfold __put_page, free_the_page, kbind, get_page. cbn [mem_map]. rewrite lookup_insert_eq. cbn [mbind option_bind].
  rewrite decide_False by done. rewrite decide_False in Hfl by done.
  assert (PageHead (set_page_count (s32 (pg_refcount pg - 1)) pg) = true) as Hh by (unfold PageHead; cbn; by rewrite Hfl).
  unfold PageCompound. rewrite Hh. cbn [orb]. unfold free_compound_page, compound_order, kbind, get_page. cbn [mem_map].
  rewrite lookup_insert_eq. cbn [mbind option_bind]. rewrite Hh. cbn [mem_map]. rewrite lookup_insert_ne by lia. rewrite Hp1. cbn [mbind option_bind].
  unfold kret. cbn [mbind option_bind]. by rewrite Hco, Nat2Z.id.
Qed.

Lemma node_block_returned owned a p zi o cpu : refines owned a.1 a.2 → a.2 !! p = Some (zi, o) →
  ∃ nd, __free_pages cpu p o a.1 = Some (tt, nd) ∧ refines owned nd (delete p a.2).
Proof.
  intros HR Hl. destruct (free_pages_last zi a.1 cpu o p) as (nd & Hrun & Hg); [apply HR|apply HR|by apply (rf_held _ _ _ HR)| |].
  { intros q Hq. by eapply held_not_avail. }
  exists nd. split; [done|]. by eapply refines_free.
Qed.

#[local] Instance node_block_laws : BlockSourceLaws page_state.
Proof.
  assert (∀ (live : gmap Z (nat * nat)) p o, (snd <$> live) !! p = Some o → ∃ zi, live !! p = Some (zi, o)) as Hb.
  { intros live p o. rewrite lookup_fmap, fmap_Some. intros ([zi o'] & Hp & ->). by exists zi. }
  split; cbn [alloc_pages free_pages put_pages BlockSource.head_page block_order blocks_ok blocks node_blocks].
  - intros cpu gfp o a (owned & HR & Hr).
    destruct (serve_one_run owned cpus (ReqAlloc cpu gfp o) a.1 a.2 HR) as (r & nd & live & Hrun & HR' & Hst).
    exists r, (nd, live). unfold node_alloc_pages. rewrite Hrun. split; [done|]. split; [by exists owned|].
    destruct r as [p|]; cbn [spec_step] in Hst; [|by subst live]. destruct Hst as (_ & _ & -> & Hfree). split; [|apply fmap_insert].
    intros p' o' (zi' & Hp')%Hb. unfold apart. pose proof (Z.pow_pos_nonneg 2 (Z.of_nat o)). pose proof (Z.pow_pos_nonneg 2 (Z.of_nat o')).
    destruct (Z.le_gt_cases (p + 2 ^ Z.of_nat o) p') as [|H1]; [by left|]. destruct (Z.le_gt_cases (p' + 2 ^ Z.of_nat o') p) as [|H2]; [by right|].
    exfalso. destruct (Hfree (Z.max p p')) as [_ Hn]; [unfold inb, bsz in *; lia|]. apply (Hn p' zi' o' Hp'). unfold inb, bsz in *. lia.
  - intros cpu p o a (owned & HR & Hr) (zi & Hp)%Hb. destruct (node_block_returned owned a p zi o cpu HR Hp) as (nd & Hrun & HR').
    exists (nd, delete p a.2). unfold node_free_pages. rewrite Hrun. split; [done|]. split; [by exists owned|]. apply fmap_delete.
  - intros cpu p o a (owned & HR & Hr) (zi & Hp)%Hb. destruct (node_block_returned owned a p zi o cpu HR Hp) as (nd & Hrun & HR').
    exists (nd, delete p a.2). unfold node_put_pages. rewrite (mm_put_page_block cpu a.1 zi o 1 p (rf_held _ _ _ HR _ _ _ Hp)), Hrun.
    split; [done|]. split; [by exists owned|]. apply fmap_delete.
  - intros p o q a (owned & HR & Hr) (zi & Hp)%Hb Hq. pose proof (rf_held _ _ _ HR _ _ _ Hp) as Hh.
    destruct (decide (q = p)) as [->|Hne].
    + destruct (hd_head _ _ _ _ _ Hh) as (pg & Hpg & _ & _ & _ & _ & Ht). rewrite Hpg. cbn. unfold compound_head. by rewrite Ht.
    + destruct (hd_tails _ _ _ _ _ Hh q) as (pg & Hpg & _ & _ & _ & _ & Ht); [unfold in_block, inb, bsz in *; lia|done|]. rewrite Hpg. cbn. unfold compound_head. by rewrite Ht.
  - intros p o a (owned & HR & Hr) (zi & Hp)%Hb. pose proof (rf_held _ _ _ HR _ _ _ Hp) as Hh.
    destruct (hd_head _ _ _ _ _ Hh) as (pg & Hpg & Hfl & _). unfold compound_order, kbind, get_page. rewrite Hpg. cbn [mbind option_bind].
    unfold PageHead. rewrite Hfl. case_decide as Ho; [by subst o|]. change (negb (Z.land PG_head PG_head =? 0)) with true.
    destruct (hd_compound _ _ _ _ _ Hh Ho) as (pg1 & Hpg1 & Hco). cbn [mbind option_bind]. rewrite Hpg1. cbn. by rewrite Hco, Nat2Z.id.
  - intros p o a (owned & HR & Hr) (zi & Hp)%Hb. pose proof (Z.pow_pos_nonneg 2 (Z.of_nat o)) as Hpow.
    pose proof (Hr zi p (rf_owned _ _ _ HR p zi o p Hp ltac:(unfold inb, bsz; lia))).
    pose proof (Hr zi _ (rf_owned _ _ _ HR p zi o (p + 2 ^ Z.of_nat o - 1) Hp ltac:(unfold inb, bsz; lia))). lia.
  - intros p o p' o' a (owned & HR & Hr) (zi & Hp)%Hb (zi' & Hp')%Hb Hne. unfold apart.
    destruct (Z.le_gt_cases (p + 2 ^ Z.of_nat o) p') as [|H1]; [by left|]. destruct (Z.le_gt_cases (p' + 2 ^ Z.of_nat o') p) as [|H2]; [by right|].
    exfalso. apply Hne. pose proof (Z.pow_pos_nonneg 2 (Z.of_nat o)). pose proof (Z.pow_pos_nonneg 2 (Z.of_nat o')).
    eapply (rf_apart _ _ _ HR p zi o p' zi' o' (Z.max p p')); [done|done|unfold inb, bsz in *; lia|unfold inb, bsz in *; lia].
Qed.
End allocator.
