(* ===== verification/Slub.v ===== *)
(** * The slab allocator ([kernel/mm/slub.c])

    Objects are cut out of blocks of pages; the free objects of a slab are
    linked through themselves, from [page->freelist] or, for the slab of a
    processor, from [c->freelist].  Raw memory is a byte for each virtual
    address, and a free pointer is eight of them.  The structures of the
    allocator are in maps: a [struct page] is named by its page frame, a cache
    or a per-processor structure by where it lives (the static arrays, or an
    address from [kmalloc]).  The pages come from the class [BlockSource]; the
    fields that a slab uses share a union with fields the page allocator reads
    only while a block is free.  The names of the caches are for display: the
    memory for them is taken, the pointers are not kept.
    A [BUG_ON], a [NULL] dereference, a lock taken twice and a page released
    with a slab flag set are [None]. *)
From stdpp Require Import functions gmap.
From S2P Require Import Prelude BlockSource Command.

(** ** Raw memory *)

Notation memory := (Z → Z).

(** A pointer in memory, little endian. *)
Fixpoint load_bytes (n : nat) (m : memory) (a : Z) : Z :=
  match n with O => 0 | S n => m a + 256 * load_bytes n m (a + 1) end.
Fixpoint store_bytes (n : nat) (a v : Z) (m : memory) : memory :=
  match n with O => m | S n => store_bytes n (a + 1) (v / 256) (<[a := v mod 256]> m) end.
Definition memset_bytes (a c n : Z) (m : memory) : memory :=
  λ b, if (a <=? b) && (b <? a + n) then c mod 256 else m b.

Fixpoint write_bytes (a : Z) (l : list Z) (m : memory) : memory :=
  match l with [] => m | b :: l => write_bytes (a + 1) l (<[a := b]> m) end.

(** The digits of a number below [10 ^ fuel]. *)
Fixpoint decimal (fuel : nat) (n : Z) : list Z :=
  match fuel with
  | O => []
  | S fuel => if n <? 10 then [48 + n] else decimal fuel (n / 10) ++ [48 + n mod 10]
  end.

(** ** Data *)

Definition SLAB_RED_ZONE : Z := 0x400.
Definition SLAB_POISON : Z := 0x800.
Definition SLAB_HWCACHE_ALIGN : Z := 0x2000.
Definition SLAB_CACHE_DMA : Z := 0x4000.
Definition SLAB_STORE_USER : Z := 0x10000.
Definition SLAB_PANIC : Z := 0x40000.
Definition SLUB_NEVER_MERGE : Z := Z.lor (Z.lor SLAB_RED_ZONE SLAB_POISON) SLAB_STORE_USER.
Definition SLUB_MERGE_SAME : Z := SLAB_CACHE_DMA.
Definition __OBJECT_POISON : Z := 0x80000000.
Definition ZERO_SIZE_PTR : Z := 16.
Definition ZERO_OR_NULL_PTR (x : Z) : bool := x <=? ZERO_SIZE_PTR.
Definition POISON_INUSE : Z := 0x5a.
Definition MIN_PARTIAL : Z := 5.
Definition NR_KMEM_CACHE_CPU : nat := 100.
Definition GFP_DMA : Z := 1.
Definition GFP_ZERO : Z := 8.
Definition GFP_KERNEL : Z := 32.
Definition ARCH_SLAB_MINALIGN : Z := 8.
(** [ARCH_DMA_MINALIGN] *)
Definition ARCH_KMALLOC_MINALIGN : Z := 128.
Definition KMALLOC_MIN_SIZE : Z := 128.
Definition KMALLOC_SHIFT_LOW : Z := Z.log2 ARCH_KMALLOC_MINALIGN.
Definition SLUB_MAX_ORDER : Z := 11.
Definition ENOSYS : Z := 38.
Definition sizeof_ptr : Z := 8.

Definition has (flags mask : Z) : bool := negb (Z.land flags mask =? 0).
(** [ALIGN(x, a)] for [unsigned long] *)
Definition ALIGN (x a : Z) : Z := Z.land (u64 (x + (a - 1))) (u64 (Z.lnot (a - 1))).
(** [fls] of an [int] *)
Definition fls (x : Z) : Z := if u32 x =? 0 then 0 else Z.log2 (u32 x) + 1.

(** [&kmalloc_caches[i]], or a cache from [kmem_cache_create] *)
Inductive cache_ptr := Kmalloc (i : nat) | Created (a : Z).
(** [&kmem_cache_cpu[cpu][i]], or a structure from [kmalloc] *)
Inductive cpu_ptr := Pool (cpu i : nat) | Heap (a : Z).

#[global] Instance cache_ptr_eq_dec : EqDecision cache_ptr.
Proof. solve_decision. Defined.
#[global] Instance cache_ptr_countable : Countable cache_ptr.
Proof.
  refine (inj_countable' (λ c, match c with Kmalloc i => inl i | Created a => inr a end)
    (λ x, match x with inl i => Kmalloc i | inr a => Created a end) _); by intros [].
Defined.
#[global] Instance cpu_ptr_eq_dec : EqDecision cpu_ptr.
Proof. solve_decision. Defined.
#[global] Instance cpu_ptr_countable : Countable cpu_ptr.
Proof.
  refine (inj_countable' (λ c, match c with Pool i j => inl (i, j) | Heap a => inr a end)
    (λ x, match x with inl (i, j) => Pool i j | inr a => Heap a end) _); by intros [].
Defined.

Inductive slab_status := DOWN | PARTIAL | UP.

(** The fields of [struct page] for a slab; of [flags], the bits [PG_locked],
    [PG_slub] and [PG_active] (which means frozen). *)
Record slab_page := mk_page {
  pg_locked : bool; pg_slub : bool; pg_active : bool; pg_slab : option cache_ptr; pg_freelist : Z; pg_inuse : Z }.
Definition set_locked (b : bool) (p : slab_page) : slab_page :=
  mk_page b (pg_slub p) (pg_active p) (pg_slab p) (pg_freelist p) (pg_inuse p).
Definition set_slub (b : bool) (p : slab_page) : slab_page :=
  mk_page (pg_locked p) b (pg_active p) (pg_slab p) (pg_freelist p) (pg_inuse p).
Definition set_active (b : bool) (p : slab_page) : slab_page :=
  mk_page (pg_locked p) (pg_slub p) b (pg_slab p) (pg_freelist p) (pg_inuse p).
Definition set_slab (s : option cache_ptr) (p : slab_page) : slab_page :=
  mk_page (pg_locked p) (pg_slub p) (pg_active p) s (pg_freelist p) (pg_inuse p).
Definition set_freelist (f : Z) (p : slab_page) : slab_page :=
  mk_page (pg_locked p) (pg_slub p) (pg_active p) (pg_slab p) f (pg_inuse p).
Definition set_inuse (i : Z) (p : slab_page) : slab_page :=
  mk_page (pg_locked p) (pg_slub p) (pg_active p) (pg_slab p) (pg_freelist p) i.

Record kmem_cache_cpu := mk_cpu { c_freelist : Z; c_page : option Z; c_offset : Z; c_objsize : Z;
  (** the free list of the static array goes through the field [freelist] *)
  c_link : option cpu_ptr }.
Definition set_c_freelist (f : Z) (c : kmem_cache_cpu) : kmem_cache_cpu := mk_cpu f (c_page c) (c_offset c) (c_objsize c) (c_link c).
Definition set_c_page (p : option Z) (c : kmem_cache_cpu) : kmem_cache_cpu := mk_cpu (c_freelist c) p (c_offset c) (c_objsize c) (c_link c).
Definition set_c_objsize (n : Z) (c : kmem_cache_cpu) : kmem_cache_cpu := mk_cpu (c_freelist c) (c_page c) (c_offset c) n (c_link c).

Record kmem_cache_node := mk_node { nr_partial : Z; nr_slabs : Z; partial : list Z }.

(** The fields that [calculate_sizes] fixes, and the rest of [struct kmem_cache]. *)
Record layout := mk_layout {
  flags : Z; size : Z; objsize : Z; offset : Z; order : Z; objects : Z; inuse : Z; align : Z;
  ctor : option (Z → memory → memory) }.
Record kmem_cache := mk_cache { lay : layout; local_node : kmem_cache_node; refcount : Z; cpu_slab : list (option cpu_ptr) }.
Definition set_lay (l : layout) (s : kmem_cache) : kmem_cache := mk_cache l (local_node s) (refcount s) (cpu_slab s).
Definition set_node (n : kmem_cache_node) (s : kmem_cache) : kmem_cache := mk_cache (lay s) n (refcount s) (cpu_slab s).
Definition set_refcount (r : Z) (s : kmem_cache) : kmem_cache := mk_cache (lay s) (local_node s) r (cpu_slab s).
Definition set_cpu_slab (c : list (option cpu_ptr)) (s : kmem_cache) : kmem_cache := mk_cache (lay s) (local_node s) (refcount s) c.

(** ** Sizes *)

Section sizes.
(** [cache_line_size()], from a register. *)
Context (cache_line : Z).

Definition slub_min_order : Z := 0.
Definition slub_max_order : Z := 1.
Definition slub_min_objects : Z := 4.

Fixpoint slab_order_loop (fuel : nat) (order size min_objects max_order fract_leftover : Z) : option Z :=
  if order <=? max_order then
    match fuel with
    | O => None
    | S fuel =>
        let next := slab_order_loop fuel (order + 1) size min_objects max_order fract_leftover in
        let slab_size := u64 (Z.shiftl PAGE_SIZE order) in
        if slab_size <? u64 (s32 (min_objects * size)) then next else
        if (u64 size =? 0) || (fract_leftover =? 0) then None else
        let rem := s32 (slab_size mod u64 size) in
        if u64 rem <=? slab_size / fract_leftover then Some order else next
    end
  else Some order.
Definition slab_order (size min_objects max_order fract_leftover : Z) : option Z :=
  let order := Z.max slub_min_order (fls (s32 (s32 (min_objects * size) - 1)) - PAGE_SHIFT) in
  slab_order_loop (Z.to_nat (max_order + 1)) order size min_objects max_order fract_leftover.

(** The inner loop over [fraction], which is 8 and then 4. *)
Definition try_fractions (size min_objects : Z) : option (option Z) :=
  o ← slab_order size min_objects slub_max_order 8;
  if o <=? slub_max_order then Some (Some o) else
  o ← slab_order size min_objects slub_max_order 4;
  if o <=? slub_max_order then Some (Some o) else Some None.
Fixpoint calculate_order_loop (fuel : nat) (size min_objects : Z) : option (option Z) :=
  if min_objects >? 1 then
    match fuel with
    | O => None
    | S fuel =>
        r ← try_fractions size min_objects;
        match r with Some o => Some (Some o) | None => calculate_order_loop fuel size (min_objects / 2) end
    end
  else Some None.
Definition calculate_order (size : Z) : option Z :=
  r ← calculate_order_loop 3 size slub_min_objects;
  match r with
  | Some o => Some o
  | None =>
      o ← slab_order size 1 slub_max_order 1;
      if o <=? slub_max_order then Some o else
      o ← slab_order size 1 SLUB_MAX_ORDER 1;
      if o <=? SLUB_MAX_ORDER then Some o else Some (- ENOSYS)
  end.

Definition calculate_alignment (flags align size : Z) : Z :=
  if has flags SLAB_HWCACHE_ALIGN && (size >? u64 (cache_line / 2)) then Z.max align (u64 cache_line)
  else if align <? ARCH_SLAB_MINALIGN then ARCH_SLAB_MINALIGN
  else ALIGN align sizeof_ptr.

(** The cache with its layout, and whether there is one. *)
Definition calculate_sizes (s : layout) : option (layout * bool) :=
  let fl := if has (flags s) SLAB_POISON && negb (bool_decide (is_Some (ctor s)))
            then Z.lor (flags s) __OBJECT_POISON else Z.land (flags s) (u64 (Z.lnot __OBJECT_POISON)) in
  let sz := ALIGN (u64 (objsize s)) sizeof_ptr in
  let inuse := s32 sz in
  let moved := has (flags s) SLAB_POISON || bool_decide (is_Some (ctor s)) in
  let off := if moved then s32 sz else offset s in
  let sz := if moved then u64 (sz + sizeof_ptr) else sz in
  let al := calculate_alignment (flags s) (u64 (align s)) (u64 (objsize s)) in
  let sz := ALIGN sz al in
  o ← calculate_order (s32 sz);
  let s' n := mk_layout fl (s32 sz) (objsize s) off o n inuse (align s) (ctor s) in
  if o <? 0 then Some (s' (objects s), false) else
  if sz =? 0 then None else
  let n := s32 (u64 (Z.shiftl PAGE_SIZE o) / sz) in
  Some (s' n, negb (n =? 0)).
End sizes.

(** ** The state *)

Section slub.
Context {A : Type} `{BlockSource A}.

Record slub := mk_slub {
  mem : memory;
  pages : Z → slab_page;
  caches : gmap cache_ptr kmem_cache;
  cpus : gmap cpu_ptr kmem_cache_cpu;
  source : A;
  slab_caches : list cache_ptr;
  (** the free list of the static array of each processor, and whether it has been filled *)
  cpu_free : nat → option cpu_ptr;
  cpu_free_init : nat → bool;
  size_index : list Z;
  slab_state : slab_status }.
Notation M := (command slub).

Definition set_mem (m : memory) (s : slub) : slub :=
  mk_slub m (pages s) (caches s) (cpus s) (source s) (slab_caches s) (cpu_free s) (cpu_free_init s) (size_index s) (slab_state s).
Definition set_pages (p : Z → slab_page) (s : slub) : slub :=
  mk_slub (mem s) p (caches s) (cpus s) (source s) (slab_caches s) (cpu_free s) (cpu_free_init s) (size_index s) (slab_state s).
Definition set_caches (c : gmap cache_ptr kmem_cache) (s : slub) : slub :=
  mk_slub (mem s) (pages s) c (cpus s) (source s) (slab_caches s) (cpu_free s) (cpu_free_init s) (size_index s) (slab_state s).
Definition set_cpus (c : gmap cpu_ptr kmem_cache_cpu) (s : slub) : slub :=
  mk_slub (mem s) (pages s) (caches s) c (source s) (slab_caches s) (cpu_free s) (cpu_free_init s) (size_index s) (slab_state s).
Definition set_source (a : A) (s : slub) : slub :=
  mk_slub (mem s) (pages s) (caches s) (cpus s) a (slab_caches s) (cpu_free s) (cpu_free_init s) (size_index s) (slab_state s).
Definition set_slab_caches (l : list cache_ptr) (s : slub) : slub :=
  mk_slub (mem s) (pages s) (caches s) (cpus s) (source s) l (cpu_free s) (cpu_free_init s) (size_index s) (slab_state s).
Definition set_cpu_free (f : nat → option cpu_ptr) (s : slub) : slub :=
  mk_slub (mem s) (pages s) (caches s) (cpus s) (source s) (slab_caches s) f (cpu_free_init s) (size_index s) (slab_state s).
Definition set_cpu_free_init (f : nat → bool) (s : slub) : slub :=
  mk_slub (mem s) (pages s) (caches s) (cpus s) (source s) (slab_caches s) (cpu_free s) f (size_index s) (slab_state s).
Definition set_size_index (l : list Z) (s : slub) : slub :=
  mk_slub (mem s) (pages s) (caches s) (cpus s) (source s) (slab_caches s) (cpu_free s) (cpu_free_init s) l (slab_state s).
Definition set_slab_state (d : slab_status) (s : slub) : slub :=
  mk_slub (mem s) (pages s) (caches s) (cpus s) (source s) (slab_caches s) (cpu_free s) (cpu_free_init s) (size_index s) d.

Definition get_cache (s : cache_ptr) : M kmem_cache := getm (λ st, caches st !! s).
Definition mod_cache (s : cache_ptr) (f : kmem_cache → kmem_cache) : M unit :=
  c ← get_cache s; modify (λ st, set_caches (<[s := f c]> (caches st)) st).
Definition get_node (s : cache_ptr) : M kmem_cache_node := c ← get_cache s; mret (local_node c).
Definition put_node (s : cache_ptr) (n : kmem_cache_node) : M unit := mod_cache s (set_node n).
Definition get_cpu (c : cpu_ptr) : M kmem_cache_cpu := getm (λ st, cpus st !! c).
Definition mod_cpu (c : cpu_ptr) (f : kmem_cache_cpu → kmem_cache_cpu) : M unit :=
  x ← get_cpu c; modify (λ st, set_cpus (<[c := f x]> (cpus st)) st).
Definition get_page (p : Z) : M slab_page := gets (λ st, pages st p).
Definition mod_page (p : Z) (f : slab_page → slab_page) : M unit :=
  modify (λ st, set_pages (<[p := f (pages st p)]> (pages st)) st).
Definition get_cpu_slab (s : cache_ptr) (cpu : nat) : M cpu_ptr :=
  c ← get_cache s; lift (mjoin (cpu_slab c !! cpu)).

(** The first page of the address space is not mapped. *)
Definition load (a : Z) : M Z := BUG_ON (a <? PAGE_SIZE);; gets (λ st, load_bytes 8 (mem st) a).
Definition store (a v : Z) : M unit := BUG_ON (a <? PAGE_SIZE);; modify (λ st, set_mem (store_bytes 8 a v (mem st)) st).
Definition memset (a c n : Z) : M unit := BUG_ON (a <? PAGE_SIZE);; modify (λ st, set_mem (memset_bytes a c n (mem st)) st).

(** ** Pages *)

(** The virtual address of page frame 0 in the linear map. *)
Context (VA : Z).
Definition page_address (p : Z) : Z := VA + p * PAGE_SIZE.
Definition virt_to_page (x : Z) : Z := (x - VA) / PAGE_SIZE.
Definition virt_to_head_page (x : Z) : M Z := getm (λ st, head_page (source st) (virt_to_page x)).
Definition PageTail (p : Z) : M bool := h ← getm (λ st, head_page (source st) p); mret (bool_decide (h ≠ p)).

(** [alloc_pages] with the [clear_page] of [prep_new_page] *)
Definition get_pages (cpu : nat) (gfp : Z) (order : nat) : M (option Z) :=
  '(r, a) ← getm (λ st, alloc_pages cpu gfp order (source st));
  modify (set_source a);;
  match r with
  | Some p => when (has gfp GFP_ZERO) (memset (page_address p) 0 (Z.shiftl PAGE_SIZE (Z.of_nat order)))
  | None => mret tt
  end;;
  mret r.
(** [__free_pages] and [put_page]; [PAGE_FLAGS_CHECK_AT_FREE] *)
Definition clean (pg : slab_page) : bool := negb (pg_locked pg || pg_slub pg || pg_active pg).
Definition __free_pages (cpu : nat) (p : Z) (order : nat) : M unit :=
  pg ← get_page p; BUG_ON (negb (clean pg));;
  a ← getm (λ st, free_pages cpu p order (source st)); modify (set_source a).
Definition put_page (cpu : nat) (p : Z) : M unit :=
  pg ← get_page p; BUG_ON (negb (clean pg));;
  a ← getm (λ st, put_pages cpu p (source st)); modify (set_source a).

(** ** Slabs *)

Definition check_valid_pointer (s : layout) (p object : Z) : bool :=
  let base := page_address p in
  (object =? 0) ||
  negb ((object <? base) || (object >=? base + objects s * size s) || negb ((object - base) mod size s =? 0)).

Definition get_freepointer (s : layout) (object : Z) : M Z := load (object + offset s).
Definition set_freepointer (s : layout) (object fp : Z) : M unit := store (object + offset s) fp.
Definition slab_index (p : Z) (s : layout) (addr : Z) : Z := (p - addr) / size s.

Definition allocate_slab (cpu : nat) (s : layout) (gfp : Z) : M (option Z) :=
  get_pages cpu (if has (flags s) SLAB_CACHE_DMA then Z.lor gfp GFP_DMA else gfp) (Z.to_nat (order s)).

Definition setup_object (s : layout) (object : Z) : M unit :=
  match ctor s with Some f => modify (λ st, set_mem (f object (mem st)) st) | None => mret tt end.

(** The loop [for_each_object] of [new_slab]; it returns [last]. *)
Fixpoint init_objects (fuel : nat) (s : layout) (limit p last : Z) : M Z :=
  if p <? limit then
    match fuel with
    | O => BUG
    | S fuel => setup_object s last;; set_freepointer s last p;; init_objects fuel s limit (p + size s) p
    end
  else mret last.

Definition new_slab (cpu : nat) (s : cache_ptr) (gfp : Z) : M (option Z) :=
  c ← get_cache s;
  r ← allocate_slab cpu (lay c) gfp;
  match r with
  | None => mret None
  | Some page =>
      mod_cache s (λ c, set_node (mk_node (nr_partial (local_node c)) (s64 (nr_slabs (local_node c) + 1)) (partial (local_node c))) c);;
      mod_page page (set_slab (Some s));;
      mod_page page (set_slub true);;
      let start := page_address page in
      when (has (flags (lay c)) SLAB_POISON) (memset start POISON_INUSE (Z.shiftl PAGE_SIZE (order (lay c))));;
      last ← init_objects (Z.to_nat (objects (lay c))) (lay c) (start + objects (lay c) * size (lay c)) start start;
      setup_object (lay c) last;;
      set_freepointer (lay c) last 0;;
      mod_page page (set_freelist start);;
      mod_page page (set_inuse 0);;
      mret (Some page)
  end.

Definition __free_slab (cpu : nat) (s : cache_ptr) (page : Z) : M unit :=
  c ← get_cache s; __free_pages cpu page (Z.to_nat (order (lay c))).
Definition free_slab (cpu : nat) (s : cache_ptr) (page : Z) : M unit := __free_slab cpu s page.
Definition discard_slab (cpu : nat) (s : cache_ptr) (page : Z) : M unit :=
  mod_cache s (λ c, set_node (mk_node (nr_partial (local_node c)) (s64 (nr_slabs (local_node c) - 1)) (partial (local_node c))) c);;
  mod_page page (set_slub false);;
  free_slab cpu s page.

Definition slab_lock (page : Z) : M unit :=
  tail ← PageTail page; BUG_ON tail;;
  pg ← get_page page; BUG_ON (pg_locked pg);;
  mod_page page (set_locked true).
Definition slab_unlock (page : Z) : M unit :=
  tail ← PageTail page; BUG_ON tail;;
  mod_page page (set_locked false).
Definition slab_trylock (page : Z) : M bool :=
  pg ← get_page page;
  if pg_locked pg then mret false else mod_page page (set_locked true);; mret true.

(** ** The list of partial slabs *)

Definition add_partial_tail (s : cache_ptr) (page : Z) : M unit :=
  n ← get_node s; put_node s (mk_node (u64 (nr_partial n + 1)) (nr_slabs n) (partial n ++ [page])).
Definition add_partial (s : cache_ptr) (page : Z) : M unit :=
  n ← get_node s; put_node s (mk_node (u64 (nr_partial n + 1)) (nr_slabs n) (page :: partial n)).
(** [list_del] of a page that is not on the list is a crash. *)
Definition remove_partial (s : cache_ptr) (page : Z) : M unit :=
  n ← get_node s; BUG_ON (negb (bool_decide (page ∈ partial n)));;
  put_node s (mk_node (u64 (nr_partial n - 1)) (nr_slabs n) (filter (.≠ page) (partial n))).

Definition lock_and_freeze_slab (s : cache_ptr) (page : Z) : M bool :=
  ok ← slab_trylock page;
  if ok : bool then remove_partial s page;; mod_page page (set_active true);; mret true else mret false.

Fixpoint get_partial_loop (s : cache_ptr) (l : list Z) : M (option Z) :=
  match l with
  | [] => mret None
  | page :: l => ok ← lock_and_freeze_slab s page; if ok : bool then mret (Some page) else get_partial_loop s l
  end.
Definition get_partial_node (s : cache_ptr) : M (option Z) :=
  n ← get_node s;
  if nr_partial n =? 0 then mret None else get_partial_loop s (partial n).
Definition get_partial (s : cache_ptr) : M (option Z) := get_partial_node s.

(** ** The slab of a processor *)

Definition unfreeze_slab (cpu : nat) (s : cache_ptr) (page : Z) : M unit :=
  mod_page page (set_active false);;
  pg ← get_page page;
  if negb (pg_inuse pg =? 0) then
    when (negb (pg_freelist pg =? 0)) (add_partial s page);; slab_unlock page
  else
    n ← get_node s;
    if nr_partial n <? MIN_PARTIAL then add_partial_tail s page;; slab_unlock page
    else slab_unlock page;; discard_slab cpu s page.

(** [c->freelist[c->offset]] is 8 bytes for each unit of [c->offset]. *)
Fixpoint merge_freelist (fuel : nat) (c : cpu_ptr) (page : Z) : M unit :=
  x ← get_cpu c;
  if c_freelist x =? 0 then mret tt else
  match fuel with
  | O => BUG
  | S fuel =>
      let object := c_freelist x in
      next ← load (object + sizeof_ptr * c_offset x);
      mod_cpu c (set_c_freelist next);;
      pg ← get_page page;
      store (object + sizeof_ptr * c_offset x) (pg_freelist pg);;
      mod_page page (set_freelist object);;
      mod_page page (λ pg, set_inuse (u32 (pg_inuse pg - 1)) pg);;
      merge_freelist fuel c page
  end.
Definition deactivate_slab (cpu : nat) (s : cache_ptr) (c : cpu_ptr) : M unit :=
  k ← get_cache s;
  x ← get_cpu c;
  page ← lift (c_page x);
  merge_freelist (Z.to_nat (objects (lay k))) c page;;
  mod_cpu c (set_c_page None);;
  unfreeze_slab cpu s page.
Definition flush_slab (cpu : nat) (s : cache_ptr) (c : cpu_ptr) : M unit :=
  x ← get_cpu c; page ← lift (c_page x); slab_lock page;; deactivate_slab cpu s c.
Definition __flush_cpu_slab (s : cache_ptr) (cpu : nat) : M unit :=
  k ← get_cache s;
  match mjoin (cpu_slab k !! cpu) with
  | None => mret tt
  | Some c => x ← get_cpu c; match c_page x with Some _ => flush_slab cpu s c | None => mret tt end
  end.
Definition flush_cpu_slab (s : cache_ptr) (cpu : nat) : M unit := __flush_cpu_slab s cpu.

(** The processors that are online. *)
Context (online : list nat).
Definition flush_all (s : cache_ptr) : M unit := each (flush_cpu_slab s) online.

(** ** Allocation *)

(** The loop of [__slab_alloc] through its labels [load_freelist] and, when
    [fresh] holds, [new_slab]. *)
Fixpoint __slab_alloc_loop (fuel : nat) (fresh : bool) (cpu : nat) (s : cache_ptr) (gfp : Z) (c : cpu_ptr) : M Z :=
  match fuel with
  | O => BUG
  | S fuel =>
      if fresh then
        new ← get_partial s;
        match new with
        | Some page => mod_cpu c (set_c_page (Some page));; __slab_alloc_loop fuel false cpu s gfp c
        | None =>
            new ← new_slab cpu s gfp;
            match new with
            | None => mret 0
            | Some page =>
                c ← get_cpu_slab s cpu;
                x ← get_cpu c;
                when (bool_decide (is_Some (c_page x))) (flush_slab cpu s c);;
                slab_lock page;;
                mod_page page (set_active true);;
                mod_cpu c (set_c_page (Some page));;
                __slab_alloc_loop fuel false cpu s gfp c
            end
        end
      else
        x ← get_cpu c;
        page ← lift (c_page x);
        pg ← get_page page;
        let object := pg_freelist pg in
        if object =? 0 then deactivate_slab cpu s c;; __slab_alloc_loop fuel true cpu s gfp c
        else
          next ← load (object + sizeof_ptr * c_offset x);
          mod_cpu c (set_c_freelist next);;
          k ← get_cache s;
          mod_page page (set_inuse (u32 (objects (lay k))));;
          mod_page page (set_freelist 0);;
          slab_unlock page;;
          mret object
  end.
Definition __slab_alloc (cpu : nat) (s : cache_ptr) (gfp : Z) (c : cpu_ptr) : M Z :=
  x ← get_cpu c;
  match c_page x with
  | None => __slab_alloc_loop 3 true cpu s gfp c
  | Some page => slab_lock page;; __slab_alloc_loop 3 false cpu s gfp c
  end.

Definition slab_alloc (cpu : nat) (s : cache_ptr) (gfp : Z) : M Z :=
  c ← get_cpu_slab s cpu;
  x ← get_cpu c;
  object ← (if c_freelist x =? 0 then __slab_alloc cpu s gfp c
            else next ← load (c_freelist x + sizeof_ptr * c_offset x);
                 mod_cpu c (set_c_freelist next);; mret (c_freelist x));
  when (has gfp GFP_ZERO && negb (object =? 0)) (x ← get_cpu c; memset object 0 (c_objsize x));;
  mret object.
Definition kmem_cache_alloc (cpu : nat) (s : cache_ptr) (gfp : Z) : M Z := slab_alloc cpu s gfp.

(** ** Release *)

Definition __slab_free (cpu : nat) (s : cache_ptr) (page object off : Z) : M unit :=
  slab_lock page;;
  pg ← get_page page;
  let prior := pg_freelist pg in
  store (object + sizeof_ptr * off) prior;;
  mod_page page (set_freelist object);;
  mod_page page (λ pg, set_inuse (u32 (pg_inuse pg - 1)) pg);;
  pg ← get_page page;
  if pg_active pg then slab_unlock page
  else if pg_inuse pg =? 0 then
    when (negb (prior =? 0)) (remove_partial s page);;
    slab_unlock page;;
    discard_slab cpu s page
  else
    when (prior =? 0) (add_partial_tail s page);;
    slab_unlock page.

Definition slab_free (cpu : nat) (s : cache_ptr) (page x : Z) : M unit :=
  c ← get_cpu_slab s cpu;
  y ← get_cpu c;
  if decide (c_page y = Some page) then
    store (x + sizeof_ptr * c_offset y) (c_freelist y);; mod_cpu c (set_c_freelist x)
  else __slab_free cpu s page x (c_offset y).
Definition kmem_cache_free (cpu : nat) (s : cache_ptr) (x : Z) : M unit :=
  page ← virt_to_head_page x; slab_free cpu s page x.

Definition get_object_page (x : Z) : M (option Z) :=
  page ← virt_to_head_page x;
  pg ← get_page page;
  if pg_slub pg then mret (Some page) else mret None.
Definition kmem_ptr_validate (s : cache_ptr) (object : Z) : M bool :=
  page ← get_object_page object;
  match page with
  | None => mret false
  | Some page =>
      pg ← get_page page;
      if decide (pg_slab pg = Some s) then k ← get_cache s; mret (check_valid_pointer (lay k) page object) else mret false
  end.
Definition kmem_cache_size (s : cache_ptr) : M Z := k ← get_cache s; mret (u32 (objsize (lay k))).

(** ** [kmalloc] *)

Definition __get_order (size : Z) : nat := let size := Z.shiftr (u64 (size - 1)) PAGE_SHIFT in
  if size =? 0 then O else Z.to_nat (Z.log2 size + 1).
Definition get_order (constant : bool) (n : Z) : nat :=
  if constant then if n =? 0 then Z.to_nat (64 - PAGE_SHIFT) else if n <? 2 ^ PAGE_SHIFT then O else Z.to_nat (Z.log2 (n - 1) - PAGE_SHIFT + 1)
  else __get_order n.
Definition __get_free_pages (cpu : nat) (gfp : Z) (order : nat) : M Z :=
  r ← get_pages cpu gfp order; mret (match r with Some p => page_address p | None => 0 end).

(** [None] is [ZERO_SIZE_PTR]. *)
Definition get_slab (size : Z) : M (option cache_ptr) :=
  if size <=? 192 then
    if size =? 0 then mret None
    else i ← getm (λ st, size_index st !! Z.to_nat ((size - 1) / 8)); mret (Some (Kmalloc (Z.to_nat i)))
  else mret (Some (Kmalloc (Z.to_nat (fls (u64 (size - 1)))))).

Definition __kmalloc (cpu : nat) (size gfp : Z) : M Z :=
  if size >? PAGE_SIZE / 2 then __get_free_pages cpu gfp (get_order false size)
  else
    s ← get_slab size;
    match s with None => mret ZERO_SIZE_PTR | Some s => slab_alloc cpu s gfp end.

(** The choice of a cache for a size the compiler knows. *)
Definition kmalloc_index (size : Z) : Z :=
  if size =? 0 then 0 else if size <=? KMALLOC_MIN_SIZE then KMALLOC_SHIFT_LOW
  else if (size >? 64) && (size <=? 96) then 1
  else if (size >? 128) && (size <=? 192) then 2
  else if size <=? 8 then 3 else if size <=? 16 then 4 else if size <=? 32 then 5 else if size <=? 64 then 6
  else if size <=? 128 then 7 else if size <=? 256 then 8 else if size <=? 512 then 9 else if size <=? 1024 then 10
  else if size <=? 2 * 1024 then 11 else if size <=? 4 * 1024 then 12 else if size <=? 8 * 1024 then 13
  else if size <=? 16 * 1024 then 14 else if size <=? 32 * 1024 then 15 else if size <=? 64 * 1024 then 16
  else if size <=? 128 * 1024 then 17 else if size <=? 256 * 1024 then 18 else if size <=? 512 * 1024 then 19
  else if size <=? 1024 * 1024 then 20 else if size <=? 2 * 1024 * 1024 then 21 else -1.
Definition kmalloc_slab (size : Z) : option cache_ptr :=
  let index := kmalloc_index size in if index =? 0 then None else Some (Kmalloc (Z.to_nat index)).
Definition kmalloc (constant : bool) (cpu : nat) (size gfp : Z) : M Z :=
  if constant then
    if size >? PAGE_SIZE / 2 then __get_free_pages cpu gfp (get_order true size)
    else if has gfp GFP_DMA then __kmalloc cpu size gfp
    else match kmalloc_slab size with None => mret ZERO_SIZE_PTR | Some s => kmem_cache_alloc cpu s gfp end
  else __kmalloc cpu size gfp.

Definition ksize (object : Z) : M Z :=
  BUG_ON (object =? 0);;
  if object =? ZERO_SIZE_PTR then mret 0 else
  page ← virt_to_head_page object;
  pg ← get_page page;
  if negb (pg_slub pg) then o ← getm (λ st, block_order (source st) page); mret (Z.shiftl PAGE_SIZE (Z.of_nat o)) else
  s ← lift (pg_slab pg);
  k ← get_cache s;
  if has (flags (lay k)) (Z.lor SLAB_RED_ZONE SLAB_POISON) then mret (objsize (lay k)) else
  if has (flags (lay k)) SLAB_STORE_USER then mret (inuse (lay k)) else mret (size (lay k)).

Definition kfree (cpu : nat) (x : Z) : M unit :=
  if ZERO_OR_NULL_PTR x then mret tt else
  page ← virt_to_head_page x;
  pg ← get_page page;
  if negb (pg_slub pg) then put_page cpu page
  else s ← lift (pg_slab pg); slab_free cpu s page x.

(** ** Creation and destruction of caches *)

Context (cache_line kmem_size : Z).
Definition NR_CPUS : nat := 8.

Definition init_kmem_cache_cpu (s : layout) (c : cpu_ptr) : M unit :=
  modify (λ st, set_cpus (<[c := mk_cpu 0 None (u32 (offset s / sizeof_ptr)) (u32 (objsize s)) None]> (cpus st)) st).
Definition init_kmem_cache_node : kmem_cache_node := mk_node 0 0 [].

Definition sizeof_kmem_cache_cpu : Z := 24.
Definition alloc_kmem_cache_cpu (me : nat) (s : layout) (cpu : nat) (gfp : Z) : M (option cpu_ptr) :=
  f ← gets (λ st, cpu_free st cpu);
  r ← match f with
      | Some c =>
          x ← get_cpu c; modify (λ st, set_cpu_free (<[cpu := c_link x]> (cpu_free st)) st);; mret (Some c)
      | None =>
          a ← kmalloc false me (ALIGN sizeof_kmem_cache_cpu cache_line) gfp;
          if a =? 0 then mret None else mret (Some (Heap a))
      end;
  match r with
  | Some c => init_kmem_cache_cpu s c;; mret (Some c)
  | None => mret None
  end.

(** [c > kmem_cache_cpu[cpu] + NR_KMEM_CACHE_CPU] lets the first structure of
    the next processor pass. *)
Definition in_pool (c : cpu_ptr) (cpu : nat) : bool :=
  match c with Pool cpu' i => bool_decide (cpu' = cpu) || (bool_decide (cpu' = S cpu) && bool_decide (i = O)) | Heap _ => false end.
Definition free_kmem_cache_cpu (me : nat) (c : cpu_ptr) (cpu : nat) : M unit :=
  if negb (in_pool c cpu) then match c with Heap a => kfree me a | Pool _ _ => BUG end
  else
    link ← gets (λ st, cpu_free st cpu);
    mod_cpu c (λ x, mk_cpu (c_freelist x) (c_page x) (c_offset x) (c_objsize x) link);;
    modify (λ st, set_cpu_free (<[cpu := Some c]> (cpu_free st)) st).

Definition put_cpu_slab (s : cache_ptr) (cpu : nat) (c : option cpu_ptr) : M unit :=
  mod_cache s (λ k, set_cpu_slab (<[cpu := c]> (cpu_slab k)) k).
Definition free_kmem_cache_cpus (me : nat) (s : cache_ptr) : M unit :=
  each (λ cpu,
    k ← get_cache s;
    match mjoin (cpu_slab k !! cpu) with
    | Some c => put_cpu_slab s cpu None;; free_kmem_cache_cpu me c cpu
    | None => mret tt
    end) online.
Fixpoint alloc_kmem_cache_cpus_loop (me : nat) (s : cache_ptr) (gfp : Z) (l : list nat) : M bool :=
  match l with
  | [] => mret true
  | cpu :: l =>
      k ← get_cache s;
      match mjoin (cpu_slab k !! cpu) with
      | Some _ => alloc_kmem_cache_cpus_loop me s gfp l
      | None =>
          c ← alloc_kmem_cache_cpu me (lay k) cpu gfp;
          match c with
          | None => free_kmem_cache_cpus me s;; mret false
          | Some c => put_cpu_slab s cpu (Some c);; alloc_kmem_cache_cpus_loop me s gfp l
          end
      end
  end.
Definition alloc_kmem_cache_cpus (me : nat) (s : cache_ptr) (gfp : Z) : M bool :=
  alloc_kmem_cache_cpus_loop me s gfp online.

Definition init_alloc_cpu_cpu (me cpu : nat) : M unit :=
  done ← gets (λ st, cpu_free_init st cpu);
  if done : bool then mret tt else
  each (λ i, free_kmem_cache_cpu me (Pool cpu i) cpu) (reverse (seq 0 NR_KMEM_CACHE_CPU));;
  modify (λ st, set_cpu_free_init (<[cpu := true]> (cpu_free_init st)) st).
Definition init_alloc_cpu (me : nat) : M unit := each (init_alloc_cpu_cpu me) online.

Definition kmem_cache_open (me : nat) (s : cache_ptr) (gfp size align flags : Z) (ctor : option (Z → memory → memory)) : M bool :=
  let l := mk_layout flags 0 (s32 size) 0 0 0 0 (s32 align) ctor in
  modify (λ st, set_caches (<[s := mk_cache l init_kmem_cache_node 0 (replicate NR_CPUS None)]> (caches st)) st);;
  '(l, ok) ← lift (calculate_sizes cache_line l);
  mod_cache s (set_lay l);;
  ok ← (if ok : bool then
          mod_cache s (set_refcount 1);;
          mod_cache s (set_node init_kmem_cache_node);;
          alloc_kmem_cache_cpus me s (Z.land gfp (u32 (Z.lnot GFP_DMA)))
        else mret false);
  if ok : bool then mret true else BUG_ON (has flags SLAB_PANIC);; mret false.

Definition free_list (cpu : nat) (s : cache_ptr) : M Z :=
  n ← get_node s;
  let fix go l slabs_inuse :=
    match l with
    | [] => mret slabs_inuse
    | page :: l =>
        pg ← get_page page;
        if pg_inuse pg =? 0 then
          n ← get_node s; BUG_ON (negb (bool_decide (page ∈ partial n)));;
          put_node s (mk_node (nr_partial n) (nr_slabs n) (filter (.≠ page) (partial n)));;
          discard_slab cpu s page;; go l slabs_inuse
        else go l (slabs_inuse + 1)
    end in
  go (partial n) 0.

(** Whether slabs are left. *)
Definition kmem_cache_close (cpu : nat) (s : cache_ptr) : M bool :=
  flush_all s;;
  free_kmem_cache_cpus cpu s;;
  inuse ← free_list cpu s;
  n ← get_node s;
  put_node s (mk_node (u64 (nr_partial n - inuse)) (nr_slabs n) (partial n));;
  mret (negb (nr_slabs n =? 0)).

Definition kfree_cache (cpu : nat) (s : cache_ptr) : M unit :=
  modify (λ st, set_caches (delete s (caches st)) st);;
  match s with Created a => kfree cpu a | Kmalloc _ => BUG end.
Definition kmem_cache_destroy (cpu : nat) (s : cache_ptr) : M unit :=
  mod_cache s (λ k, set_refcount (s32 (refcount k - 1)) k);;
  k ← get_cache s;
  if refcount k =? 0 then
    modify (λ st, set_slab_caches (filter (.≠ s) (slab_caches st)) st);;
    _ ← kmem_cache_close cpu s; kfree_cache cpu s
  else mret tt.

Definition create_kmalloc_cache (cpu : nat) (i : nat) (size gfp : Z) : M unit :=
  let flags := if has gfp GFP_DMA then SLAB_CACHE_DMA else 0 in
  ok ← kmem_cache_open cpu (Kmalloc i) gfp size ARCH_KMALLOC_MINALIGN flags None;
  BUG_ON (negb ok);;
  modify (λ st, set_slab_caches (Kmalloc i :: slab_caches st) st).

Definition size_index_init : list Z := [3; 4; 5; 5; 6; 6; 6; 6; 1; 1; 1; 1; 7; 7; 7; 7; 2; 2; 2; 2; 2; 2; 2; 2].

(** The caches of [kmalloc], the table of their indices, and their names. *)
Definition create_kmalloc_caches (cpu : nat) : M unit :=
  when (KMALLOC_MIN_SIZE <=? 64) (create_kmalloc_cache cpu 1 96 GFP_KERNEL);;
  when (KMALLOC_MIN_SIZE <=? 128) (create_kmalloc_cache cpu 2 192 GFP_KERNEL);;
  each (λ i, create_kmalloc_cache cpu i (Z.shiftl 1 (Z.of_nat i)) GFP_KERNEL)
    (seq (Z.to_nat KMALLOC_SHIFT_LOW) (Z.to_nat (PAGE_SHIFT - KMALLOC_SHIFT_LOW))).
Definition patch_size_index : M unit :=
  each (λ i, modify (λ st, set_size_index (<[((8 * i - 1) / 8)%nat := KMALLOC_SHIFT_LOW]> (size_index st)) st))
    (seq 1 (Z.to_nat ((KMALLOC_MIN_SIZE - 1) / 8))).

(** [text] is what [vsnprintf] prints. *)
Definition kvasprintf (cpu : nat) (gfp : Z) (text : list Z) : M Z :=
  p ← kmalloc false cpu (Z.of_nat (length text) + 1) gfp;
  if p =? 0 then mret 0 else modify (λ st, set_mem (write_bytes p (text ++ [0]) (mem st)) st);; mret p.
(** ["kmalloc-%d"] *)
Definition kmalloc_name (i : nat) : list Z := [107; 109; 97; 108; 108; 111; 99; 45] ++ decimal 4 (Z.shiftl 1 (Z.of_nat i)).
Definition name_kmalloc_caches (cpu : nat) : M unit :=
  each (λ i, _ ← kvasprintf cpu GFP_KERNEL (kmalloc_name i); mret tt)
    (seq (Z.to_nat KMALLOC_SHIFT_LOW) (Z.to_nat (PAGE_SHIFT - KMALLOC_SHIFT_LOW))).

Definition kmem_cache_init (cpu : nat) : M unit :=
  init_alloc_cpu cpu;;
  modify (set_slab_state PARTIAL);;
  create_kmalloc_caches cpu;;
  patch_size_index;;
  modify (set_slab_state UP);;
  name_kmalloc_caches cpu.
Definition slab_is_available : M bool := d ← gets slab_state; mret (match d with UP => true | _ => false end).

Definition slab_unmergeable (s : kmem_cache) : bool :=
  has (flags (lay s)) SLUB_NEVER_MERGE || bool_decide (is_Some (ctor (lay s))) || (refcount s <? 0).
Definition mergeable (size align flags' : Z) (s : kmem_cache) : bool :=
  let sz := Slub.size (lay s) in
  negb (slab_unmergeable s) && negb (size >? u64 sz) &&
  (Z.land flags' SLUB_MERGE_SAME =? Z.land (flags (lay s)) SLUB_MERGE_SAME) &&
  (Z.land (u64 sz) (u64 (Z.lnot (align - 1))) =? u64 sz) && negb (u64 (u64 sz - size) >=? sizeof_ptr).
Fixpoint find_mergeable_loop (size align flags' : Z) (l : list cache_ptr) : M (option cache_ptr) :=
  match l with
  | [] => mret None
  | s :: l => k ← get_cache s; if mergeable size align flags' k then mret (Some s) else find_mergeable_loop size align flags' l
  end.
Definition find_mergeable (size align flags' : Z) (ctor : option (Z → memory → memory)) : M (option cache_ptr) :=
  if has flags' SLUB_NEVER_MERGE then mret None else
  match ctor with Some _ => mret None | None =>
    let size := ALIGN size sizeof_ptr in
    let align := calculate_alignment cache_line flags' align size in
    let size := ALIGN size align in
    l ← gets slab_caches; find_mergeable_loop size align flags' l
  end.

Definition merge_into (size : Z) (s : cache_ptr) : M unit :=
  mod_cache s (λ k, set_refcount (s32 (refcount k + 1)) k);;
  mod_cache s (λ k, let l := lay k in
    set_lay (mk_layout (flags l) (Slub.size l) (Z.max (objsize l) (s32 size)) (offset l) (order l) (objects l) (inuse l) (align l) (ctor l)) k);;
  k ← get_cache s;
  each (λ cpu, c ← get_cpu_slab s cpu; mod_cpu c (set_c_objsize (u32 (objsize (lay k))))) online;;
  mod_cache s (λ k, let l := lay k in
    set_lay (mk_layout (flags l) (Slub.size l) (objsize l) (offset l) (order l) (objects l)
      (Z.max (inuse l) (s32 (ALIGN size sizeof_ptr))) (align l) (ctor l)) k).

Definition kmem_cache_create (cpu : nat) (size align flags' : Z) (ctor : option (Z → memory → memory)) : M (option cache_ptr) :=
  r ← find_mergeable size align flags' ctor;
  match r with
  | Some s => merge_into size s;; mret (Some s)
  | None =>
      a ← kmalloc false cpu kmem_size GFP_KERNEL;
      ok ← (if a =? 0 then mret false else
              ok ← kmem_cache_open cpu (Created a) GFP_KERNEL size align flags' ctor;
              if ok : bool then modify (λ st, set_slab_caches (Created a :: slab_caches st) st);; mret true
              else kfree_cache cpu (Created a);; mret false);
      if ok : bool then mret (Some (Created a)) else BUG_ON (has flags' SLAB_PANIC);; mret None
  end.
End slub.
