(* ===== verification/SlubInv.v ===== *)
(** * Free lists in memory

    Facts on pointers stored as bytes, and the list of free objects that are
    linked through themselves. *)
From stdpp Require Import functions gmap.
From S2P Require Import Prelude Command BlockSource Slub.

(** The bytes [a .. a + n) are the same. *)
Definition same_bytes (a n : Z) (m m' : memory) : Prop := ∀ b, a ≤ b < a + n → m' b = m b.

Lemma same_bytes_sub a n b k m m' : same_bytes a n m m' → a ≤ b → b + k ≤ a + n → same_bytes b k m m'.
Proof. intros H ? ? c Hc. apply H. lia. Qed.
Lemma same_bytes_trans a n m m' m'' : same_bytes a n m m' → same_bytes a n m' m'' → same_bytes a n m m''.
Proof. intros H1 H2 b Hb. by rewrite H2, H1. Qed.

Lemma load_bytes_same n m m' a : same_bytes a (Z.of_nat n) m m' → load_bytes n m' a = load_bytes n m a.
Proof.
  revert a. induction n as [|n IH]; intros a Hs; cbn [load_bytes]; [done|].
  rewrite (Hs a) by lia. rewrite IH; [done|]. eapply same_bytes_sub; [exact Hs|lia..].
Qed.

Lemma store_bytes_out n a v m b : b < a ∨ a + Z.of_nat n ≤ b → store_bytes n a v m b = m b.
Proof.
  revert a v m. induction n as [|n IH]; intros a v m Hb; cbn [store_bytes]; [done|].
  rewrite IH by lia. rewrite fn_lookup_insert_ne by lia. done.
Qed.

Lemma load_store_bytes n a v m : 0 ≤ v < 256 ^ Z.of_nat n → load_bytes n (store_bytes n a v m) a = v.
Proof.
  revert a v m. induction n as [|n IH]; intros a v m Hv; [cbn [load_bytes]; change (256 ^ Z.of_nat 0) with 1 in Hv; lia|].
  cbn [load_bytes store_bytes]. rewrite store_bytes_out by lia. rewrite fn_lookup_insert.
  rewrite IH. { pose proof (Z.div_mod v 256). lia. }
  rewrite Nat2Z.inj_succ, Z.pow_succ_r in Hv by lia. split; [apply Z.div_pos; lia|]. apply Z.div_lt_upper_bound; lia.
Qed.

Lemma store_same n a v m b k : b + k ≤ a ∨ a + Z.of_nat n ≤ b → same_bytes b k m (store_bytes n a v m).
Proof. intros Hb c Hc. apply store_bytes_out. lia. Qed.

Lemma memset_in a c n m b : a ≤ b < a + n → memset_bytes a c n m b = c mod 256.
Proof. intros Hb. unfold memset_bytes. by destruct (Z.leb_spec a b), (Z.ltb_spec b (a + n)); try lia. Qed.
Lemma memset_out a c n m b : b < a ∨ a + n ≤ b → memset_bytes a c n m b = m b.
Proof. intros Hb. unfold memset_bytes. by destruct (Z.leb_spec a b), (Z.ltb_spec b (a + n)); try lia. Qed.
Lemma memset_same a c n m b k : b + k ≤ a ∨ a + n ≤ b → same_bytes b k m (memset_bytes a c n m).
Proof. intros Hb d Hd. apply memset_out. lia. Qed.

(** ** Chains of free objects *)

(** From the pointer [a], the objects [l], linked at the offset [off]. *)
Fixpoint chain (m : memory) (off a : Z) (l : list Z) : Prop :=
  match l with
  | [] => a = 0
  | x :: l => a = x ∧ PAGE_SIZE ≤ x < 2 ^ 64 ∧ chain m off (load_bytes 8 m (x + off)) l
  end.

Lemma chain_same m m' off a l :
  (∀ x, x ∈ l → same_bytes (x + off) 8 m m') → chain m off a l → chain m' off a l.
Proof.
  revert a. induction l as [|x l IH]; intros a Hs; cbn [chain]; [done|].
  intros (-> & Hx & Hc). split; [done|]. split; [done|]. rewrite (load_bytes_same 8 m m') by (apply Hs; by left).
  apply IH; [|done]. intros y Hy. apply Hs. by right.
Qed.

Lemma chain_null m off a l : chain m off a l → (a = 0 ↔ l = []).
Proof.
  destruct l as [|x l]; cbn [chain]; [done|]. intros (-> & Hx & _). split; [|done].
  intros ->. change PAGE_SIZE with 4096 in Hx. lia.
Qed.

Lemma chain_cons m off a l : a ≠ 0 → chain m off a l →
  ∃ l', l = a :: l' ∧ PAGE_SIZE ≤ a < 2 ^ 64 ∧ chain m off (load_bytes 8 m (a + off)) l'.
Proof. destruct l as [|x l]; cbn [chain]; [done|]. intros _ (-> & Hx & Hc). by exists l. Qed.

Lemma chain_nil m off : chain m off 0 [].
Proof. done. Qed.

(** A pointer that a list starts with. *)
Lemma chain_ptr m off a l : chain m off a l → 0 ≤ a < 256 ^ Z.of_nat 8.
Proof.
  change (256 ^ Z.of_nat 8) with (2 ^ 64). destruct l as [|x l]; cbn [chain]; [intros ->; lia|].
  intros (-> & Hx & _). change PAGE_SIZE with 4096 in Hx. lia.
Qed.

(** Linking an object in front of a list. *)
Lemma chain_push m off a l x :
  PAGE_SIZE ≤ x < 2 ^ 64 → (∀ y, y ∈ l → y + 8 ≤ x ∨ x + 8 ≤ y) →
  chain m off a l → chain (store_bytes 8 (x + off) a m) off x (x :: l).
Proof.
  intros Hx Hl Hc. split; [done|]. split; [done|]. rewrite load_store_bytes by by eapply chain_ptr.
  eapply chain_same; [|exact Hc]. intros y Hy. apply store_same. destruct (Hl y Hy); lia.
Qed.

(** ** Strings *)

Lemma write_bytes_out a l m b : b < a ∨ a + Z.of_nat (length l) ≤ b → write_bytes a l m b = m b.
Proof.
  revert a m. induction l as [|x l IH]; intros a m Hb; [done|]. cbn [write_bytes length] in *. rewrite IH by lia. apply fn_lookup_insert_ne. lia.
Qed.

(** ** The invariant of the slab allocator

    Every object of a slab is in use, on the free list of the slab, or on the
    free list of the processor that has frozen the slab; the lists in memory,
    the counters, the flags of the pages, the list of partial slabs and the
    blocks of the page allocator agree. *)

(** ** Layouts *)

Record layout_ok (l : layout) : Prop := {
  lo_size : 0 < size l < 2 ^ 31;
  lo_word : (8 | size l);
  lo_offset : 0 ≤ offset l;
  lo_offset_word : (8 | offset l);
  lo_fits : offset l + 8 ≤ size l;
  lo_objsize : 0 ≤ objsize l ≤ size l;
  lo_objects : 1 ≤ objects l < 2 ^ 31;
  lo_order : 0 ≤ order l;
  lo_block : objects l * size l ≤ PAGE_SIZE * 2 ^ order l;
  (** a constructor writes to its object only *)
  lo_ctor : ∀ f, ctor l = Some f → ∀ x m b, b < x ∨ x + objsize l ≤ b → f x m b = m b }.

(** The linear map has room for the page frames. *)
Definition linear_ok (VA : Z) : Prop := PAGE_SIZE ≤ VA ∧ (PAGE_SIZE | VA) ∧ VA + PFN_LIMIT * PAGE_SIZE ≤ 2 ^ 64.

Section objects.
Context (VA : Z).

Definition objs (l : layout) (p : Z) : list Z :=
  (λ i : nat, page_address VA p + Z.of_nat i * size l) <$> seq 0 (Z.to_nat (objects l)).

(** The bytes of the objects of a slab. *)
Definition in_slab (l : layout) (p b : Z) : Prop := page_address VA p ≤ b < page_address VA p + objects l * size l.

Lemma elem_of_objs l p x : layout_ok l → x ∈ objs l p ↔ ∃ i, 0 ≤ i < objects l ∧ x = page_address VA p + i * size l.
Proof.
  intros Hl. unfold objs. rewrite list_elem_of_fmap. split.
  - intros (i & -> & Hi%elem_of_seq). exists (Z.of_nat i). split; [lia|done].
  - intros (i & Hi & ->). exists (Z.to_nat i). rewrite elem_of_seq, Z2Nat.id by lia. split; [done|lia].
Qed.

Lemma objs_length l p : layout_ok l → Z.of_nat (length (objs l p)) = objects l.
Proof. intros Hl. unfold objs. rewrite length_fmap, length_seq, Z2Nat.id; [done|]. pose proof (lo_objects _ Hl). lia. Qed.

Lemma objs_NoDup l p : layout_ok l → NoDup (objs l p).
Proof.
  intros Hl. apply NoDup_fmap_2; [|apply NoDup_seq]. intros i j Hij.
  pose proof (lo_size _ Hl). assert (Z.of_nat i * size l = Z.of_nat j * size l) as E by lia.
  apply Z.mul_reg_r in E; lia.
Qed.

Lemma objs_bytes l p x b : layout_ok l → x ∈ objs l p → x ≤ b < x + size l → in_slab l p b.
Proof.
  intros Hl (i & Hi & ->)%elem_of_objs Hb; [|done]. unfold in_slab. pose proof (lo_size _ Hl). nia.
Qed.

Lemma objs_apart l p x y : layout_ok l → x ∈ objs l p → y ∈ objs l p → x ≠ y → x + size l ≤ y ∨ y + size l ≤ x.
Proof.
  intros Hl (i & Hi & ->)%elem_of_objs (j & Hj & ->)%elem_of_objs Hne; [|done..]. pose proof (lo_size _ Hl).
  destruct (Z.lt_trichotomy i j) as [Hij|[->|Hij]]; [left|done|right]; nia.
Qed.

Lemma slab_bytes_apart l p l' p' b :
  layout_ok l → layout_ok l' → apart p (Z.to_nat (order l)) p' (Z.to_nat (order l')) →
  in_slab l p b → in_slab l' p' b → False.
Proof.
  intros Hl Hl' Ha. unfold in_slab, page_address, apart in *.
  rewrite !Z2Nat.id in Ha by (apply lo_order; done).
  pose proof (lo_block _ Hl). pose proof (lo_block _ Hl'). change PAGE_SIZE with 4096 in *. lia.
Qed.

Lemma objs_ptr l p x : linear_ok VA → layout_ok l → 0 ≤ p → p + 2 ^ order l ≤ PFN_LIMIT → x ∈ objs l p →
  PAGE_SIZE ≤ x < 2 ^ 64 ∧ x + size l ≤ 2 ^ 64.
Proof.
  intros (HV & _ & HV2) Hl H0 Hp Hx. assert (in_slab l p x) as H1.
  { eapply objs_bytes; [done..|]. pose proof (lo_size _ Hl). lia. }
  assert (in_slab l p (x + size l - 1)) as H2. { eapply objs_bytes; [done..|]. pose proof (lo_size _ Hl). lia. }
  unfold in_slab, page_address in *. pose proof (lo_block _ Hl). change PAGE_SIZE with 4096 in *. unfold PFN_LIMIT in *. lia.
Qed.

(** The page of an object. *)
Lemma objs_page l p x : linear_ok VA → layout_ok l → x ∈ objs l p → in_block p (Z.to_nat (order l)) (virt_to_page VA x).
Proof.
  intros HV Hl Hx. assert (in_slab l p x) as H1. { eapply objs_bytes; [done..|]. pose proof (lo_size _ Hl). lia. }
  unfold in_slab, page_address, in_block, virt_to_page in *. pose proof (lo_block _ Hl). rewrite Z2Nat.id by by apply lo_order.
  change PAGE_SIZE with 4096 in *. split; [apply Z.div_le_lower_bound; lia|apply Z.div_lt_upper_bound; lia].
Qed.

End objects.

(** ** The invariant *)

(** Which cache a slab belongs to, the free objects of a slab and of the
    processor that has it, and the objects in use. *)
Record ghost := mk_ghost { slabs : gmap Z cache_ptr; fl : Z → list Z; cl : Z → list Z; used : gset Z }.

Section inv.
Context {A : Type} `{BlockSourceLaws A} (VA : Z).

Definition lay_of (st : slub (A := A)) (s : cache_ptr) : option layout := lay <$> caches st !! s.
Definition node_of (st : slub (A := A)) (s : cache_ptr) : option kmem_cache_node := local_node <$> caches st !! s.
Definition slot (st : slub (A := A)) (s : cache_ptr) (cpu : nat) : option cpu_ptr :=
  k ← caches st !! s; mjoin (cpu_slab k !! cpu).

(** The objects of the slab [p] with page fields [pg]: free ones [f] of the
    slab and [c] of a processor, and [u] in use. *)
Record slab_ok (m : memory) (l : layout) (p : Z) (pg : slab_page) (f c : list Z) (u : gset Z) : Prop := {
  so_chain : chain m (offset l) (pg_freelist pg) f;
  so_nodup : NoDup (f ++ c);
  so_free x : x ∈ f ++ c → x ∈ objs VA l p ∧ x ∉ u;
  so_all x : x ∈ objs VA l p → x ∈ u ∨ x ∈ f ++ c;
  so_inuse : pg_inuse pg = objects l - Z.of_nat (length f);
  so_thawed : pg_active pg = false → c = [] }.

Record node_ok (s : cache_ptr) (sl : gmap Z cache_ptr) (pgs : Z → slab_page) (n : kmem_cache_node) : Prop := {
  no_count : nr_partial n = Z.of_nat (length (partial n));
  no_nodup : NoDup (partial n);
  no_partial p : p ∈ partial n ↔ sl !! p = Some s ∧ pg_active (pgs p) = false ∧ pg_freelist (pgs p) ≠ 0;
  no_slabs : nr_slabs n = Z.of_nat (base.size (filter (λ x : Z * cache_ptr, x.2 = s) sl)) }.

Record cpu_ok (st : slub (A := A)) (g : ghost) (s : cache_ptr) (l : layout) (x : kmem_cache_cpu) : Prop := {
  co_offset : sizeof_ptr * c_offset x = offset l;
  co_objsize : c_objsize x = objsize l;
  co_page : match c_page x with
            | None => c_freelist x = 0
            | Some p => slabs g !! p = Some s ∧ pg_active (pages st p) = true ∧ chain (mem st) (offset l) (c_freelist x) (cl g p)
            end }.

Record slub_inv (st : slub (A := A)) (g : ghost) : Prop := {
  inv_source : blocks_ok (source st);
  inv_block p s : slabs g !! p = Some s →
    ∃ l, lay_of st s = Some l ∧ blocks (source st) !! p = Some (Z.to_nat (order l));
  inv_page p : pg_locked (pages st p) = false ∧ pg_slub (pages st p) = bool_decide (is_Some (slabs g !! p)) ∧
    (slabs g !! p = None → pg_active (pages st p) = false) ∧ (∀ s, slabs g !! p = Some s → pg_slab (pages st p) = Some s);
  inv_layout s l : lay_of st s = Some l → layout_ok l;
  inv_slab p s l : slabs g !! p = Some s → lay_of st s = Some l →
    slab_ok (mem st) l p (pages st p) (fl g p) (cl g p) (used g);
  inv_node s n : node_of st s = Some n → node_ok s (slabs g) (pages st) n;
  inv_cpu s l cpu c : slot st s cpu = Some c → lay_of st s = Some l → ∃ x, cpus st !! c = Some x ∧ cpu_ok st g s l x;
  inv_slot s cpu s' cpu' c : slot st s cpu = Some c → slot st s' cpu' = Some c → s = s' ∧ cpu = cpu';
  inv_owner p s : slabs g !! p = Some s → pg_active (pages st p) = true →
    ∃ cpu c x, slot st s cpu = Some c ∧ cpus st !! c = Some x ∧ c_page x = Some p;
  inv_unique s cpu c x s' cpu' c' x' p : slot st s cpu = Some c → cpus st !! c = Some x → c_page x = Some p →
    slot st s' cpu' = Some c' → cpus st !! c' = Some x' → c_page x' = Some p → c = c';
  inv_used x : x ∈ used g → ∃ p s l, slabs g !! p = Some s ∧ lay_of st s = Some l ∧ x ∈ objs VA l p }.

(** The pieces of memory in use: objects, and blocks of pages that are not slabs. *)
Inductive live (st : slub (A := A)) (g : ghost) (x n : Z) : Prop :=
  | live_object p s l : x ∈ used g → slabs g !! p = Some s → lay_of st s = Some l → x ∈ objs VA l p → n ≤ objsize l → live st g x n
  | live_block p o : x = page_address VA p → blocks (source st) !! p = Some o → slabs g !! p = None → n ≤ PAGE_SIZE * 2 ^ Z.of_nat o → live st g x n.

Lemma live_ext st st' g x n : (∀ s, lay_of st' s = lay_of st s) → source st' = source st → live st g x n → live st' g x n.
Proof.
  intros E1 E2 [p s l X1 X2 X3 X4 X5|p o X1 X2 X3 X4]; [eapply live_object|eapply live_block]; try done; by rewrite ?E1, ?E2.
Qed.

End inv.
