(* ===== verification/SlubStep.v ===== *)
(** * Steps that keep the invariant

    An operation on one slab touches its page, its objects, the list of its
    cache and one per-processor structure ([near]).  [inv_near] says when the
    invariant survives; [inv_grow] and [inv_shrink] are about a new slab and a
    slab that goes back to the page allocator. *)
From stdpp Require Import functions gmap.
From S2P Require Import Prelude Command BlockSource Slub SlubInv.

Section steps.
Context {A : Type} `{BlockSourceLaws A} (VA : Z).
Implicit Types (st : slub (A := A)) (g : ghost).

(** The variables that allocation and release leave alone. *)
Definition statics st := (slab_caches st, cpu_free st, cpu_free_init st, size_index st).

Record near st st' (s : cache_ptr) (p : Z) (c : cpu_ptr) : Prop := {
  nr_source : source st' = source st;
  nr_mem l b : lay_of st s = Some l → ¬ in_slab VA l p b → mem st' b = mem st b;
  nr_pages q : q ≠ p → pages st' q = pages st q;
  nr_lay s' : lay_of st' s' = lay_of st s';
  nr_slot s' cpu : slot st' s' cpu = slot st s' cpu;
  nr_node s' : s' ≠ s → node_of st' s' = node_of st s';
  nr_cpus c' : c' ≠ c → cpus st' !! c' = cpus st !! c';
  nr_static : statics st' = statics st }.

Lemma near_refl st s p c : near st st s p c.
Proof. by split. Qed.

Lemma near_trans st st' st'' s p c : near st st' s p c → near st' st'' s p c → near st st'' s p c.
Proof.
  intros H1 H2. split; [by rewrite (nr_source _ _ _ _ _ H2), (nr_source _ _ _ _ _ H1)| | | | | | |].
  - intros l b Hl Hb. rewrite (nr_mem _ _ _ _ _ H2 l b), (nr_mem _ _ _ _ _ H1 l b); [done..| |done]. by rewrite (nr_lay _ _ _ _ _ H1).
  - intros q Hq. by rewrite (nr_pages _ _ _ _ _ H2), (nr_pages _ _ _ _ _ H1).
  - intros s'. by rewrite (nr_lay _ _ _ _ _ H2), (nr_lay _ _ _ _ _ H1).
  - intros s' cpu. by rewrite (nr_slot _ _ _ _ _ H2), (nr_slot _ _ _ _ _ H1).
  - intros s' Hs. by rewrite (nr_node _ _ _ _ _ H2), (nr_node _ _ _ _ _ H1).
  - intros c' Hc. by rewrite (nr_cpus _ _ _ _ _ H2), (nr_cpus _ _ _ _ _ H1).
  - by rewrite (nr_static _ _ _ _ _ H2), (nr_static _ _ _ _ _ H1).
Qed.

(** ** Consequences of the invariant *)

Lemma inv_layout_at st g p s : slub_inv VA st g → slabs g !! p = Some s → ∃ l, lay_of st s = Some l ∧ layout_ok l ∧
  blocks (source st) !! p = Some (Z.to_nat (order l)) ∧ 0 ≤ p ∧ p + 2 ^ order l ≤ PFN_LIMIT.
Proof.
  intros Hi Hp. destruct (inv_block _ _ _ Hi p s Hp) as (l & Hl & Hb). pose proof (inv_layout _ _ _ Hi s l Hl) as Hok.
  exists l. split_and!; [done..| |].
  - by eapply block_range; [apply Hi|].
  - destruct (block_range p _ _ (inv_source _ _ _ Hi) Hb) as [_ Hr]. by rewrite Z2Nat.id in Hr by by apply lo_order.
Qed.

(** Slabs share no bytes. *)
Lemma inv_bytes st g p s l q s' l' b : slub_inv VA st g → slabs g !! p = Some s → lay_of st s = Some l →
  slabs g !! q = Some s' → lay_of st s' = Some l' → p ≠ q → in_slab VA l p b → ¬ in_slab VA l' q b.
Proof.
  intros Hi Hp Hl Hq Hl' Hne H1 H2. eapply slab_bytes_apart; [..|exact H1|exact H2]; [by eapply inv_layout..|].
  destruct (inv_block _ _ _ Hi p s Hp) as (l0 & E0 & Hb). destruct (inv_block _ _ _ Hi q s' Hq) as (l1 & E1 & Hb').
  simplify_eq. by eapply blocks_apart; [apply Hi|..].
Qed.

(** The chain of another slab does not notice a step. *)
Lemma chain_near st st' g s l p c q s' l' a xs :
  slub_inv VA st g → near st st' s p c → slabs g !! p = Some s → lay_of st s = Some l → slabs g !! q = Some s' →
  lay_of st s' = Some l' → q ≠ p → (∀ x, x ∈ xs → x ∈ objs VA l' q) →
  chain (mem st) (offset l') a xs → chain (mem st') (offset l') a xs.
Proof.
  intros Hi Hn Hp Hl Hq Hl' Hne Hxs. apply chain_same. intros x Hx b Hb.
  eapply nr_mem; [done..|]. eapply (inv_bytes st g q s' l' p s l); try done.
  pose proof (inv_layout _ _ _ Hi _ _ Hl') as Hok. eapply objs_bytes; [done|by apply Hxs|].
  pose proof (lo_offset _ Hok). pose proof (lo_fits _ Hok). lia.
Qed.

Lemma inv_free_objs st g p s l x : slub_inv VA st g → slabs g !! p = Some s → lay_of st s = Some l →
  x ∈ fl g p ++ cl g p → x ∈ objs VA l p.
Proof. intros Hi Hp Hl Hx. by apply (so_free _ _ _ _ _ _ _ _ (inv_slab _ _ _ Hi _ _ _ Hp Hl)). Qed.

(** An object of a slab is an object of no other slab. *)
Lemma inv_objs_one st g p s l q s' l' x : slub_inv VA st g → slabs g !! p = Some s → lay_of st s = Some l →
  slabs g !! q = Some s' → lay_of st s' = Some l' → x ∈ objs VA l p → x ∈ objs VA l' q → p = q.
Proof.
  intros Hi Hp Hl Hq Hl' Hx Hy. destruct (decide (p = q)) as [|Hne]; [done|]. exfalso.
  pose proof (inv_layout _ _ _ Hi _ _ Hl) as Ho. pose proof (inv_layout _ _ _ Hi _ _ Hl') as Ho'.
  eapply (inv_bytes st g p s l q s' l' x); try done.
  - eapply objs_bytes; [done..|]. pose proof (lo_size _ Ho). lia.
  - eapply objs_bytes; [done..|]. pose proof (lo_size _ Ho'). lia.
Qed.

(** ** A step on one slab *)

(** Who has the slab afterwards: this processor, nobody, or another one. *)
Inductive owning st st' g (p : Z) (l : layout) (x x' : kmem_cache_cpu) (c' : list Z) : Prop :=
  | own_mine : c_page x' = Some p → pg_active (pages st' p) = true → chain (mem st') (offset l) (c_freelist x') c' →
      pg_active (pages st p) = false ∧ c_page x = None ∨ c_page x = Some p → owning st st' g p l x x' c'
  | own_none : pg_active (pages st' p) = false →
      pg_active (pages st p) = false ∧ x' = x ∨ c_page x = Some p ∧ c_page x' = None ∧ c_freelist x' = 0 → owning st st' g p l x x' c'
  | own_theirs : pg_active (pages st' p) = true → pg_active (pages st p) = true → x' = x → c_page x ≠ Some p → c' = cl g p →
      (∀ a, chain (mem st) (offset l) a c' → chain (mem st') (offset l) a c') → owning st st' g p l x x' c'.

Record slab_step st st' g s l p c (x x' : kmem_cache_cpu) (f' c' : list Z) (u' : gset Z) : Prop := {
  ss_slab : slabs g !! p = Some s;
  ss_lay : lay_of st s = Some l;
  ss_cpu : cpus st !! c = Some x;
  ss_near : near st st' s p c;
  ss_cpu' : cpus st' !! c = Some x';
  ss_page : pg_locked (pages st' p) = false ∧ pg_slub (pages st' p) = true ∧ pg_slab (pages st' p) = Some s;
  ss_ok : slab_ok VA (mem st') l p (pages st' p) f' c' u';
  ss_node n : node_of st s = Some n → ∃ n', node_of st' s = Some n' ∧ nr_partial n' = Z.of_nat (length (partial n')) ∧
    NoDup (partial n') ∧ (∀ q, q ≠ p → q ∈ partial n' ↔ q ∈ partial n) ∧
    (p ∈ partial n' ↔ pg_active (pages st' p) = false ∧ pg_freelist (pages st' p) ≠ 0) ∧ nr_slabs n' = nr_slabs n;
  ss_same : c_offset x' = c_offset x ∧ c_objsize x' = c_objsize x;
  ss_own : owning st st' g p l x x' c';
  ss_used y : y ∉ objs VA l p → y ∈ u' ↔ y ∈ used g }.

Definition upd_ghost g (p : Z) (f' c' : list Z) (u' : gset Z) : ghost :=
  mk_ghost (slabs g) (<[p := f']> (fl g)) (<[p := c']> (cl g)) u'.

Section step.
Context st st' g s l p cpu c x x' f' c' u' (Hi : slub_inv VA st g) (Hslot : slot st s cpu = Some c)
  (Hs : slab_step st st' g s l p c x x' f' c' u').

Local Lemma step_slab q s' l' : slabs g !! q = Some s' → lay_of st' s' = Some l' →
  slab_ok VA (mem st') l' q (pages st' q) (<[p := f']> (fl g) q) (<[p := c']> (cl g) q) u'.
Proof using All.
  intros Hq Hl'. destruct Hs as [Hp Hl _ Hn _ _ Hok _ _ _ Hu]. rewrite (nr_lay _ _ _ _ _ Hn) in Hl'.
  destruct (decide (q = p)) as [->|Hne].
  { simplify_eq. by rewrite !fn_lookup_insert. }
  rewrite !fn_lookup_insert_ne by done. rewrite (nr_pages _ _ _ _ _ Hn) by done.
  destruct (inv_slab _ _ _ Hi q s' l' Hq Hl') as [H1 H2 H3 H4 H5 H6].
  assert (∀ y, y ∈ objs VA l' q → y ∈ u' ↔ y ∈ used g) as Hu'.
  { intros y Hy. apply Hu. intros Hy'. apply Hne. symmetry. by eapply (inv_objs_one st g p s l q). }
  split; [|done| | |done..].
  - eapply (chain_near st st' g s l p c q s'); try done. intros y Hy. apply H3. apply elem_of_app. by left.
  - intros y Hy. destruct (H3 y Hy) as [Ho Hn']. split; [done|]. by rewrite Hu'.
  - intros y Hy. rewrite Hu' by done. by apply H4.
Qed.

Local Lemma step_node s' n : node_of st' s' = Some n → node_ok s' (slabs g) (pages st') n.
Proof using All.
  intros Hn'. destruct Hs as [Hp Hl _ Hn _ _ _ Hnode _ _ _].
  destruct (decide (s' = s)) as [->|Hne].
  - unfold lay_of in Hl. destruct (caches st !! s) as [k|] eqn:Hk; [|done].
    assert (node_of st s = Some (local_node k)) as E by (unfold node_of; by rewrite Hk).
    destruct (Hnode _ E) as (n' & E' & H1 & H2 & H3 & H4 & H5). simplify_eq.
    destruct (inv_node _ _ _ Hi s _ E) as [G1 G2 G3 G4]. split; [done|done| |by rewrite H5].
    intros q. destruct (decide (q = p)) as [->|Hq]; [by rewrite H4; naive_solver|].
    by rewrite H3, G3, (nr_pages _ _ _ _ _ Hn).
  - rewrite (nr_node _ _ _ _ _ Hn) in Hn' by done. destruct (inv_node _ _ _ Hi s' n Hn') as [G1 G2 G3 G4].
    split; [done|done| |done]. intros q. rewrite G3. destruct (decide (q = p)) as [->|Hq]; [naive_solver|].
    by rewrite (nr_pages _ _ _ _ _ Hn).
Qed.

(** What [c] has belongs to no other structure. *)
Local Lemma step_other s1 cpu1 c1 x1 : slot st s1 cpu1 = Some c1 → c1 ≠ c → cpus st !! c1 = Some x1 →
  c_page x1 = Some p → pg_active (pages st p) = true ∧ c_page x ≠ Some p.
Proof using All.
  intros H1 Hne H2 H3. destruct Hs as [Hp Hl Hc _ _ _ _ _ _ _ _].
  assert (is_Some (lay_of st s1)) as [l1 Hl1].
  { unfold slot in H1. unfold lay_of. destruct (caches st !! s1); [by eexists|done]. }
  destruct (inv_cpu _ _ _ Hi s1 l1 cpu1 c1 H1 Hl1) as (y & Hy & [_ _ Hpg]). simplify_eq. rewrite H3 in Hpg.
  destruct Hpg as (_ & Ha & _). split; [done|]. intros Hx. apply Hne. by eapply (inv_unique _ _ _ Hi s1 cpu1 c1 x1 s cpu c x p).
Qed.

Local Lemma step_cpu s1 l1 cpu1 c1 : slot st' s1 cpu1 = Some c1 → lay_of st' s1 = Some l1 →
  ∃ y, cpus st' !! c1 = Some y ∧ cpu_ok st' (upd_ghost g p f' c' u') s1 l1 y.
Proof using All.
  intros H1 Hl1. pose proof Hs as Hs'. destruct Hs' as [Hp Hl Hc Hn Hc' _ _ _ [Ho1 Ho2] Hown _].
  rewrite (nr_slot _ _ _ _ _ Hn) in H1. rewrite (nr_lay _ _ _ _ _ Hn) in Hl1.
  destruct (inv_cpu _ _ _ Hi s1 l1 cpu1 c1 H1 Hl1) as (y & Hy & [G1 G2 G3]).
  (* the page of a structure that is not at [p] *)
  assert (∀ q, q ≠ p → slabs g !! q = Some s1 ∧ pg_active (pages st q) = true ∧ chain (mem st) (offset l1) (c_freelist y) (cl g q) →
    slabs g !! q = Some s1 ∧ pg_active (pages st' q) = true ∧ chain (mem st') (offset l1) (c_freelist y) (cl g q)) as Hfar.
  { intros q Hq (F1 & F2 & F3). rewrite (nr_pages _ _ _ _ _ Hn) by done. split_and!; [done..|].
    eapply (chain_near st st' g s l p c q s1); try done. intros z Hz. eapply inv_free_objs; [done..|]. apply elem_of_app. by right. }
  destruct (decide (c1 = c)) as [->|Hne].
  - destruct (inv_slot _ _ _ Hi _ _ _ _ _ H1 Hslot) as [-> ->]. simplify_eq. exists x'. split; [done|].
    split; [by rewrite Ho1|by rewrite Ho2|]. cbn [upd_ghost slabs cl].
    destruct Hown as [E1 E2 E3 _|E1 [[E2 ->]|(E2 & E3 & E4)]|E1 E2 -> E3 E4 E5].
    + rewrite E1, fn_lookup_insert. done.
    + destruct (c_page x) as [q|]; [|done]. destruct (decide (q = p)) as [->|Hq]; [naive_solver congruence|].
      rewrite fn_lookup_insert_ne by done. by apply Hfar.
    + by rewrite E3.
    + destruct (c_page x) as [q|]; [|done]. rewrite fn_lookup_insert_ne by congruence. apply Hfar; [congruence|done].
  - exists y. rewrite (nr_cpus _ _ _ _ _ Hn) by done. split; [done|]. split; [done|done|]. cbn [upd_ghost slabs cl].
    destruct (c_page y) as [q|] eqn:Eq; [|done]. destruct (decide (q = p)) as [->|Hq].
    + destruct (step_other s1 cpu1 c1 y H1 Hne Hy Eq) as [Ha Hx]. destruct G3 as (F1 & F2 & F3). rewrite fn_lookup_insert.
      destruct Hown as [E1 E2 E3 [[E4 _]|E4]|E1 [[E2 ->]|(E2 & E3 & E4)]|E1 E2 -> E3 -> E5]; try congruence.
      split_and!; [done..|]. simplify_eq. by apply E5.
    + rewrite fn_lookup_insert_ne by done. by apply Hfar.
Qed.

(** Looking up the structure of a slot. *)
Local Lemma step_lookup c1 x1 : cpus st' !! c1 = Some x1 → c1 = c ∧ x1 = x' ∨ c1 ≠ c ∧ cpus st !! c1 = Some x1.
Proof using All.
  intros Hx. destruct Hs as [_ _ _ Hn Hc' _ _ _ _ _ _]. destruct (decide (c1 = c)) as [->|Hne]; [left; by simplify_eq|].
  right. by rewrite (nr_cpus _ _ _ _ _ Hn) in Hx.
Qed.

Lemma inv_near : slub_inv VA st' (upd_ghost g p f' c' u').
Proof using All.
  pose proof Hs as Hs'. destruct Hs' as [Hp Hl Hc Hn Hc' (Hk1 & Hk2 & Hk3) Hok Hnode _ Hown Hu].
  split; cbn [upd_ghost slabs fl cl used].
  - rewrite (nr_source _ _ _ _ _ Hn). apply Hi.
  - intros q s' Hq. rewrite (nr_source _ _ _ _ _ Hn). setoid_rewrite (nr_lay _ _ _ _ _ Hn). by apply Hi.
  - intros q. destruct (decide (q = p)) as [->|Hq]; [|rewrite (nr_pages _ _ _ _ _ Hn) by done; apply Hi].
    rewrite Hk1, Hk2, Hk3, Hp. naive_solver.
  - intros s' l'. rewrite (nr_lay _ _ _ _ _ Hn). apply Hi.
  - intros q s' l' Hq Hl'. by eapply step_slab.
  - apply step_node.
  - intros s1 l1 cpu1 c1. apply step_cpu.
  - intros s1 cpu1 s2 cpu2 c1. rewrite !(nr_slot _ _ _ _ _ Hn). apply Hi.
  - intros q s' Hq Ha. setoid_rewrite (nr_slot _ _ _ _ _ Hn). destruct (decide (q = p)) as [->|Hne].
    + simplify_eq. destruct Hown as [E1 E2 E3 _|E1 _|E1 E2 -> E3 -> E5]; [by exists cpu, c, x'|congruence|].
      destruct (inv_owner _ _ _ Hi p s Hp E2) as (cpu1 & c1 & x1 & F1 & F2 & F3). exists cpu1, c1, x1.
      split_and!; [done| |done]. destruct (decide (c1 = c)) as [->|Hne]; [congruence|]. by rewrite (nr_cpus _ _ _ _ _ Hn).
    + rewrite (nr_pages _ _ _ _ _ Hn) in Ha by done. destruct (inv_owner _ _ _ Hi q s' Hq Ha) as (cpu1 & c1 & x1 & F1 & F2 & F3).
      exists cpu1, c1, x1. split_and!; [done| |done].
      destruct (decide (c1 = c)) as [->|Hne1]; [|by rewrite (nr_cpus _ _ _ _ _ Hn)]. simplify_eq.
      destruct Hown as [E1 E2 E3 [[E4 E5]|E4]|E1 [[E2 ->]|(E2 & E3 & E4)]|E1 E2 -> E3 E4 E5]; congruence.
  - intros s1 cpu1 c1 x1 s2 cpu2 c2 x2 q. rewrite !(nr_slot _ _ _ _ _ Hn). intros F1 F2 F3 F4 F5 F6.
    destruct (step_lookup _ _ F2) as [[-> ->]|[G1 G2]], (step_lookup _ _ F5) as [[-> ->]|[G3 G4]]; [done|..].
    + destruct (decide (q = p)) as [->|Hq].
      * destruct (step_other s2 cpu2 c2 x2 F4 G3 G4 F6) as [Ha Hx].
        destruct Hown as [E1 E2 E3 [[E4 _]|E4]|E1 [[E2 ->]|(E2 & E3 & E4)]|E1 E2 -> E3 E4 E5]; congruence.
      * destruct Hown as [E1 E2 E3 _|E1 [[E2 ->]|(E2 & E3 & E4)]|E1 E2 -> E3 E4 E5]; try congruence; by eapply (inv_unique _ _ _ Hi s1 cpu1 c x s2 cpu2 c2 x2 q).
    + destruct (decide (q = p)) as [->|Hq].
      * destruct (step_other s1 cpu1 c1 x1 F1 G1 G2 F3) as [Ha Hx].
        destruct Hown as [E1 E2 E3 [[E4 _]|E4]|E1 [[E2 ->]|(E2 & E3 & E4)]|E1 E2 -> E3 E4 E5]; congruence.
      * destruct Hown as [E1 E2 E3 _|E1 [[E2 ->]|(E2 & E3 & E4)]|E1 E2 -> E3 E4 E5]; try congruence; by eapply (inv_unique _ _ _ Hi s1 cpu1 c1 x1 s2 cpu2 c x q).
    + by eapply (inv_unique _ _ _ Hi s1 cpu1 c1 x1 s2 cpu2 c2 x2 q).
  - intros y Hy. setoid_rewrite (nr_lay _ _ _ _ _ Hn). destruct (decide (y ∈ objs VA l p)) as [Ho|Ho]; [by exists p, s, l|].
    apply Hu in Hy; [|done]. by apply Hi.
Qed.
End step.

(** ** A slab goes back *)

(** The list of the cache after the slab [p] has left. *)
Definition node_without (n n' : kmem_cache_node) (p : Z) : Prop :=
  nr_partial n' = Z.of_nat (length (partial n')) ∧ NoDup (partial n') ∧
  (∀ q, q ∈ partial n' ↔ q ∈ partial n ∧ q ≠ p) ∧ nr_slabs n' = nr_slabs n - 1.

Record shrunk st st' (s : cache_ptr) (l : layout) (p : Z) : Prop := {
  sh_source : blocks_ok (source st');
  sh_blocks : blocks (source st') = delete p (blocks (source st));
  sh_mem b : ¬ in_slab VA l p b → mem st' b = mem st b;
  sh_pages q : q ≠ p → pages st' q = pages st q;
  sh_page : clean (pages st' p) = true;
  sh_lay s' : lay_of st' s' = lay_of st s';
  sh_slot s' cpu : slot st' s' cpu = slot st s' cpu;
  sh_node s' : s' ≠ s → node_of st' s' = node_of st s';
  sh_node' n : node_of st s = Some n → ∃ n', node_of st' s = Some n' ∧ node_without n n' p;
  sh_cpus : cpus st' = cpus st;
  sh_static : statics st' = statics st }.

Definition drop_ghost g (p : Z) : ghost := mk_ghost (delete p (slabs g)) (fl g) (cl g) (used g).

Lemma inv_shrink st st' g s l p : slub_inv VA st g → slabs g !! p = Some s → lay_of st s = Some l →
  pg_active (pages st p) = false → (∀ x, x ∈ objs VA l p → x ∉ used g) → shrunk st st' s l p → slub_inv VA st' (drop_ghost g p).
Proof.
  intros Hi Hp Hl Ha Hfree Hsh. destruct Hsh as [Hsrc Hblk Hmem Hpages Hpage Hlay Hslot Hnode Hnode' Hcpus _].
  assert (∀ q s1 l1 a xs, q ≠ p → slabs g !! q = Some s1 → lay_of st s1 = Some l1 → (∀ x, x ∈ xs → x ∈ objs VA l1 q) →
    chain (mem st) (offset l1) a xs → chain (mem st') (offset l1) a xs) as Hchain.
  { intros q s1 l1 a xs Hq Hs1 Hl1 Hxs. apply chain_same. intros x Hx b Hb. apply Hmem.
    eapply (inv_bytes st g q s1 l1 p s l); try done. pose proof (inv_layout _ _ _ Hi _ _ Hl1) as Hok.
    eapply objs_bytes; [done|by apply Hxs|]. pose proof (lo_offset _ Hok). pose proof (lo_fits _ Hok). lia. }
  split; cbn [drop_ghost slabs fl cl used].
  - done.
  - intros q s' (Hne & Hq)%lookup_delete_Some. rewrite Hblk. setoid_rewrite Hlay.
    destruct (inv_block _ _ _ Hi q s' Hq) as (l' & E & Hb). exists l'. split; [done|]. by rewrite lookup_delete_ne.
  - intros q. destruct (decide (q = p)) as [->|Hq].
    + rewrite lookup_delete_eq. unfold clean in Hpage. destruct (pages st' p) as [[] [] [] ? ? ?]; cbn in *; naive_solver.
    + rewrite lookup_delete_ne, (Hpages q) by done. apply Hi.
  - intros s' l'. rewrite Hlay. apply Hi.
  - intros q s' l' (Hne & Hq)%lookup_delete_Some Hl'. rewrite Hlay in Hl'. rewrite Hpages by done.
    destruct (inv_slab _ _ _ Hi q s' l' Hq Hl') as [H1 H2 H3 H4 H5 H6]. split; [|done..].
    eapply Hchain; [..|done]; try done. intros x Hx. apply H3, elem_of_app. by left.
  - intros s' n Hn'. destruct (decide (s' = s)) as [->|Hne].
    + unfold lay_of in Hl. destruct (caches st !! s) as [k|] eqn:Hk; [|done].
      assert (node_of st s = Some (local_node k)) as E by (unfold node_of; by rewrite Hk).
      destruct (Hnode' _ E) as (n' & E' & H1 & H2 & H3 & H4). simplify_eq.
      destruct (inv_node _ _ _ Hi s _ E) as [G1 G2 G3 G4]. split; [done|done| |].
      * intros q. rewrite H3, G3, lookup_delete_Some. destruct (decide (q = p)) as [->|Hq]; [naive_solver|].
        rewrite (Hpages q) by done. naive_solver.
      * rewrite H4, G4, map_filter_delete. assert (filter (λ x : Z * cache_ptr, x.2 = s) (slabs g) !! p = Some s) as Hf.
        { by apply map_lookup_filter_Some. }
        rewrite map_size_delete_Some by by eexists. assert (base.size (filter (λ x : Z * cache_ptr, x.2 = s) (slabs g)) ≠ 0%nat).
        { intros H0'%map_size_empty_inv. by rewrite H0' in Hf. } lia.
    + rewrite Hnode in Hn' by done. destruct (inv_node _ _ _ Hi s' n Hn') as [G1 G2 G3 G4]. split; [done|done| |].
      * intros q. rewrite G3, lookup_delete_Some. destruct (decide (q = p)) as [->|Hq]; [naive_solver|].
        rewrite (Hpages q) by done. naive_solver.
      * rewrite G4, map_filter_delete_not; [done|]. intros y Hy. cbn. congruence.
  - intros s1 l1 cpu1 c1. rewrite Hslot, Hlay, Hcpus. intros H1 Hl1.
    destruct (inv_cpu _ _ _ Hi s1 l1 cpu1 c1 H1 Hl1) as (y & Hy & [G1 G2 G3]). exists y. split; [done|]. split; [done..|].
    cbn [drop_ghost slabs cl]. destruct (c_page y) as [q|]; [|done]. destruct G3 as (F1 & F2 & F3).
    assert (q ≠ p) by congruence. rewrite lookup_delete_ne, Hpages by done. split_and!; [done..|].
    eapply (Hchain q s1); try done. intros x Hx. eapply inv_free_objs; [done..|]. apply elem_of_app. by right.
  - intros s1 cpu1 s2 cpu2 c1. rewrite !Hslot. apply Hi.
  - intros q s' (Hne & Hq)%lookup_delete_Some Ha'. rewrite Hpages in Ha' by done. setoid_rewrite Hslot. rewrite Hcpus. by eapply inv_owner.
  - intros s1 cpu1 c1 x1 s2 cpu2 c2 x2 q. rewrite !Hslot, Hcpus. apply Hi.
  - intros y Hy. setoid_rewrite Hlay. destruct (inv_used _ _ _ Hi y Hy) as (q & s1 & l1 & F1 & F2 & F3). exists q, s1, l1.
    split_and!; [|done..]. apply lookup_delete_Some. split; [|done]. intros <-. simplify_eq. by eapply Hfree.
Qed.

(** ** A new slab, which the processor has at once *)

Record grown st st' g (s : cache_ptr) (l : layout) (p : Z) (c : cpu_ptr) (x' : kmem_cache_cpu) : Prop := {
  gr_source : blocks_ok (source st');
  gr_blocks : blocks (source st') = <[p := Z.to_nat (order l)]> (blocks (source st));
  gr_apart q o : blocks (source st) !! q = Some o → apart p (Z.to_nat (order l)) q o;
  gr_mem b : ¬ (page_address VA p ≤ b < page_address VA p + PAGE_SIZE * 2 ^ order l) → mem st' b = mem st b;
  gr_pages q : q ≠ p → pages st' q = pages st q;
  gr_page : pg_locked (pages st' p) = false ∧ pg_slub (pages st' p) = true ∧ pg_active (pages st' p) = true ∧
    pg_slab (pages st' p) = Some s ∧ pg_inuse (pages st' p) = 0;
  gr_chain : chain (mem st') (offset l) (pg_freelist (pages st' p)) (objs VA l p);
  gr_lay s' : lay_of st' s' = lay_of st s';
  gr_slot s' cpu : slot st' s' cpu = slot st s' cpu;
  gr_node s' : s' ≠ s → node_of st' s' = node_of st s';
  gr_node' n : node_of st s = Some n → node_of st' s = Some (mk_node (nr_partial n) (nr_slabs n + 1) (partial n));
  gr_cpus c' : c' ≠ c → cpus st' !! c' = cpus st !! c';
  gr_cpu : cpus st' !! c = Some x' ∧ c_page x' = Some p ∧ c_freelist x' = 0;
  gr_static : statics st' = statics st }.

Definition grow_ghost g (s : cache_ptr) (l : layout) (p : Z) : ghost :=
  mk_ghost (<[p := s]> (slabs g)) (<[p := objs VA l p]> (fl g)) (<[p := []]> (cl g)) (used g).

Section grow.
Context st st' g s l p cpu c x x' (Hi : slub_inv VA st g) (Hl : lay_of st s = Some l) (Hslot : slot st s cpu = Some c)
  (Hc : cpus st !! c = Some x) (Hidle : c_page x = None) (Hsame : c_offset x' = c_offset x ∧ c_objsize x' = c_objsize x)
  (Hg : grown st st' g s l p c x').

Local Lemma grow_fresh : slabs g !! p = None.
Proof using All.
  apply eq_None_not_Some. intros [s' Hp]. destruct (inv_block _ _ _ Hi p s' Hp) as (l' & Hl' & Hb).
  pose proof (gr_apart _ _ _ _ _ _ _ _ Hg p _ Hb) as [Ha|Ha].
  - pose proof (Z.pow_pos_nonneg 2 (Z.of_nat (Z.to_nat (order l)))). lia.
  - pose proof (Z.pow_pos_nonneg 2 (Z.of_nat (Z.to_nat (order l')))). lia.
Qed.

(** The bytes of the other slabs are not touched. *)
Local Lemma grow_bytes q s' l' b : slabs g !! q = Some s' → lay_of st s' = Some l' → in_slab VA l' q b → mem st' b = mem st b.
Proof using All.
  intros Hq Hl' Hb. apply (gr_mem _ _ _ _ _ _ _ _ Hg). intros Hb'.
  destruct (inv_block _ _ _ Hi q s' Hq) as (l0 & E & Hbl). simplify_eq.
  pose proof (gr_apart _ _ _ _ _ _ _ _ Hg q _ Hbl) as Ha. pose proof (inv_layout _ _ _ Hi _ _ Hl') as Ho'.
  unfold apart, in_slab, page_address in *. rewrite !Z2Nat.id in Ha by (apply lo_order; by eapply inv_layout).
  pose proof (lo_block _ Ho'). change PAGE_SIZE with 4096 in *. lia.
Qed.

Local Lemma grow_chain q s' l' a xs : slabs g !! q = Some s' → lay_of st s' = Some l' → (∀ y, y ∈ xs → y ∈ objs VA l' q) →
  chain (mem st) (offset l') a xs → chain (mem st') (offset l') a xs.
Proof using All.
  intros Hq Hl' Hxs. apply chain_same. intros y Hy b Hb. eapply grow_bytes; [done..|].
  pose proof (inv_layout _ _ _ Hi _ _ Hl') as Ho. eapply objs_bytes; [done|by apply Hxs|].
  pose proof (lo_offset _ Ho). pose proof (lo_fits _ Ho). lia.
Qed.

(** No object in use is in the new slab. *)
Local Lemma grow_used y : y ∈ objs VA l p → y ∉ used g.
Proof using All.
  intros Hy Hu. destruct (inv_used _ _ _ Hi y Hu) as (q & s' & l' & Hq & Hl' & Hy').
  destruct (inv_block _ _ _ Hi q s' Hq) as (l0 & E & Hbl). simplify_eq.
  pose proof (inv_layout _ _ _ Hi _ _ Hl) as Ho. pose proof (inv_layout _ _ _ Hi _ _ Hl') as Ho'.
  eapply (slab_bytes_apart VA l p l' q y); [done|done|by eapply gr_apart| |].
  - eapply objs_bytes; [done..|]. pose proof (lo_size _ Ho). lia.
  - eapply objs_bytes; [done..|]. pose proof (lo_size _ Ho'). lia.
Qed.

Local Lemma grow_node s' n : node_of st' s' = Some n → node_ok s' (<[p := s]> (slabs g)) (pages st') n.
Proof using All.
  intros Hn. pose proof grow_fresh as Hf. pose proof Hg as [_ _ _ _ Hpages (_ & _ & Ha & _) _ _ _ Hnode Hnode' _ _ _].
  assert (∀ q s1, slabs g !! q = Some s1 ∧ pg_active (pages st q) = false ∧ pg_freelist (pages st q) ≠ 0 ↔
    <[p := s]> (slabs g) !! q = Some s1 ∧ pg_active (pages st' q) = false ∧ pg_freelist (pages st' q) ≠ 0) as Hq.
  { intros q s1. destruct (decide (q = p)) as [->|Hq]; [rewrite Hf; naive_solver congruence|].
    by rewrite lookup_insert_ne, (Hpages q) by done. }
  destruct (decide (s' = s)) as [->|Hne].
  - unfold lay_of in Hl. destruct (caches st !! s) as [k|] eqn:Hk; [|done].
    assert (node_of st s = Some (local_node k)) as E by (unfold node_of; by rewrite Hk).
    rewrite (Hnode' _ E) in Hn. simplify_eq. destruct (inv_node _ _ _ Hi s _ E) as [G1 G2 G3 G4].
    split; cbn; [done|done|intros q; by rewrite G3, Hq|]. rewrite G4, map_filter_insert_True by done.
    rewrite map_size_insert_None; [lia|]. apply map_lookup_filter_None. left. by rewrite Hf.
  - rewrite Hnode in Hn by done. destruct (inv_node _ _ _ Hi s' n Hn) as [G1 G2 G3 G4].
    split; [done|done|intros q; by rewrite G3, Hq|]. rewrite G4, map_filter_insert_False by (cbn; congruence).
    by rewrite delete_id by by rewrite Hf.
Qed.

Local Lemma grow_lookup c1 x1 : cpus st' !! c1 = Some x1 → c1 = c ∧ x1 = x' ∨ c1 ≠ c ∧ cpus st !! c1 = Some x1.
Proof using All.
  intros Hx. pose proof Hg as [_ _ _ _ _ _ _ _ _ _ _ Hcpus (Hc' & _) _].
  destruct (decide (c1 = c)) as [->|Hne]; [left; by simplify_eq|]. right. by rewrite Hcpus in Hx.
Qed.

(** A structure that had a page did not have the new one. *)
Local Lemma grow_other s1 cpu1 c1 x1 q : slot st s1 cpu1 = Some c1 → cpus st !! c1 = Some x1 → c_page x1 = Some q → q ≠ p ∧ c1 ≠ c.
Proof using All.
  intros H1 H2 H3. assert (is_Some (lay_of st s1)) as [l1 Hl1].
  { unfold slot in H1. unfold lay_of. destruct (caches st !! s1); [by eexists|done]. }
  destruct (inv_cpu _ _ _ Hi s1 l1 cpu1 c1 H1 Hl1) as (y & Hy & [_ _ Hpg]). simplify_eq. rewrite H3 in Hpg.
  destruct Hpg as (Hq & _). split; [|congruence]. intros ->. by rewrite grow_fresh in Hq.
Qed.

Lemma inv_grow : slub_inv VA st' (grow_ghost g s l p).
Proof using All.
  pose proof grow_fresh as Hf. pose proof (inv_layout _ _ _ Hi _ _ Hl) as Ho.
  pose proof Hg as [Hsrc Hblk Hap Hmem Hpages (Hk1 & Hk2 & Hk3 & Hk4 & Hk5) Hch Hlay Hsl Hnode Hnode' Hcpus (Hc' & Hp' & Hf') _].
  split; cbn [grow_ghost slabs fl cl used].
  - done.
  - intros q s' Hq. rewrite Hblk. setoid_rewrite Hlay. apply lookup_insert_Some in Hq as [[<- <-]|[Hne Hq]].
    + exists l. by rewrite lookup_insert_eq.
    + rewrite lookup_insert_ne by done. by apply Hi.
  - intros q. destruct (decide (q = p)) as [->|Hq].
    + rewrite Hk1, Hk2, lookup_insert_eq. split_and!; [done|by rewrite bool_decide_true|done|naive_solver].
    + rewrite lookup_insert_ne, Hpages by done. apply Hi.
  - intros s' l'. rewrite Hlay. apply Hi.
  - intros q s' l' Hq. rewrite Hlay. intros Hl'. apply lookup_insert_Some in Hq as [[<- <-]|[Hne Hq]].
    + simplify_eq. rewrite !fn_lookup_insert. split; [done|by rewrite app_nil_r; apply objs_NoDup| | |rewrite Hk5, objs_length by done; lia|congruence].
      * intros y. rewrite app_nil_r. intros Hy. split; [done|by apply grow_used].
      * intros y Hy. right. by rewrite app_nil_r.
    + rewrite !fn_lookup_insert_ne, Hpages by done. destruct (inv_slab _ _ _ Hi q s' l' Hq Hl') as [H1 H2 H3 H4 H5 H6]. split; [|done..].
      eapply grow_chain; [..|exact H1]; try done. intros y Hy. apply H3, elem_of_app. by left.
  - apply grow_node.
  - intros s1 l1 cpu1 c1. rewrite Hsl, Hlay. intros H1 Hl1.
    destruct (inv_cpu _ _ _ Hi s1 l1 cpu1 c1 H1 Hl1) as (y & Hy & [G1 G2 G3]).
    destruct (decide (c1 = c)) as [->|Hne].
    + destruct (inv_slot _ _ _ Hi _ _ _ _ _ H1 Hslot) as [-> ->]. simplify_eq. exists x'. split; [done|]. destruct Hsame as [S1 S2].
      split; [by rewrite S1|by rewrite S2|]. rewrite Hp', Hf'. cbn [grow_ghost slabs cl]. by rewrite lookup_insert_eq, fn_lookup_insert.
    + exists y. rewrite Hcpus by done. split; [done|]. split; [done..|]. cbn [grow_ghost slabs cl].
      destruct (c_page y) as [q|] eqn:Eq; [|done]. destruct (grow_other s1 cpu1 c1 y q H1 Hy Eq) as [Hq _]. destruct G3 as (F1 & F2 & F3).
      rewrite lookup_insert_ne, fn_lookup_insert_ne, Hpages by done. split_and!; [done..|].
      eapply grow_chain; [..|exact F3]; try done. intros z Hz. eapply inv_free_objs; [done..|]. apply elem_of_app. by right.
  - intros s1 cpu1 s2 cpu2 c1. rewrite !Hsl. apply Hi.
  - intros q s' Hq Ha. setoid_rewrite Hsl. apply lookup_insert_Some in Hq as [[<- <-]|[Hne Hq]]; [by exists cpu, c, x'|].
    rewrite Hpages in Ha by done. destruct (inv_owner _ _ _ Hi q s' Hq Ha) as (cpu1 & c1 & x1 & F1 & F2 & F3).
    exists cpu1, c1, x1. destruct (grow_other _ _ _ _ _ F1 F2 F3) as [_ Hc1]. by rewrite Hcpus.
  - intros s1 cpu1 c1 x1 s2 cpu2 c2 x2 q. rewrite !Hsl. intros F1 F2 F3 F4 F5 F6.
    destruct (grow_lookup _ _ F2) as [[-> ->]|[G1 G2]], (grow_lookup _ _ F5) as [[-> ->]|[G3 G4]]; [done|..].
    + destruct (grow_other _ _ _ _ _ F4 G4 F6). congruence.
    + destruct (grow_other _ _ _ _ _ F1 G2 F3). congruence.
    + by eapply (inv_unique _ _ _ Hi s1 cpu1 c1 x1 s2 cpu2 c2 x2 q).
  - intros y Hy. setoid_rewrite Hlay. destruct (inv_used _ _ _ Hi y Hy) as (q & s1 & l1 & F1 & F2 & F3). exists q, s1, l1.
    split_and!; [|done..]. apply lookup_insert_Some. right. split; [|done]. intros <-. congruence.
Qed.
End grow.

(** ** What the clients see

    The objects [u] stay where they are with their bytes, and so do the blocks
    of pages that are not slabs. *)
Record evolves (u : gset Z) st g st' g' : Prop := {
  ev_lay s : lay_of st' s = lay_of st s;
  ev_slot s cpu : slot st' s cpu = slot st s cpu;
  ev_static : statics st' = statics st;
  ev_cpus c : (∀ s cpu, slot st s cpu ≠ Some c) → cpus st' !! c = cpus st !! c;
  ev_keep y p s l : y ∈ u → slabs g !! p = Some s → lay_of st s = Some l → y ∈ objs VA l p →
    slabs g' !! p = Some s ∧ same_bytes y (size l) (mem st) (mem st');
  ev_other q o : blocks (source st) !! q = Some o → slabs g !! q = None →
    slabs g' !! q = None ∧ blocks (source st') !! q = Some o ∧
    same_bytes (page_address VA q) (PAGE_SIZE * 2 ^ Z.of_nat o) (mem st) (mem st') }.

Lemma evolves_refl u st g : evolves u st g st g.
Proof. split; try done. Qed.

Lemma evolves_trans u st g st' g' st'' g'' : evolves u st g st' g' → evolves u st' g' st'' g'' → evolves u st g st'' g''.
Proof.
  intros H1 H2. split.
  - intros s. by rewrite (ev_lay _ _ _ _ _ H2), (ev_lay _ _ _ _ _ H1).
  - intros s cpu. by rewrite (ev_slot _ _ _ _ _ H2), (ev_slot _ _ _ _ _ H1).
  - by rewrite (ev_static _ _ _ _ _ H2), (ev_static _ _ _ _ _ H1).
  - intros c Hc. rewrite (ev_cpus _ _ _ _ _ H2), (ev_cpus _ _ _ _ _ H1); [done..|]. intros s cpu. rewrite (ev_slot _ _ _ _ _ H1). apply Hc.
  - intros y p s l Hy Hp Hl Ho. destruct (ev_keep _ _ _ _ _ H1 y p s l) as [E1 E2]; [done..|].
    destruct (ev_keep _ _ _ _ _ H2 y p s l) as [E3 E4]; [done|done|by rewrite (ev_lay _ _ _ _ _ H1)|done|].
    split; [done|by eapply same_bytes_trans].
  - intros q o Hq Hs. destruct (ev_other _ _ _ _ _ H1 q o) as (E1 & E2 & E3); [done..|].
    destruct (ev_other _ _ _ _ _ H2 q o) as (E4 & E5 & E6); [done..|]. split_and!; [done..|by eapply same_bytes_trans].
Qed.

(** Blocks that are not slabs share no bytes with slabs. *)
Lemma inv_other_bytes st g p s l q o b : slub_inv VA st g → slabs g !! p = Some s → lay_of st s = Some l →
  blocks (source st) !! q = Some o → slabs g !! q = None →
  page_address VA q ≤ b < page_address VA q + PAGE_SIZE * 2 ^ Z.of_nat o → ¬ in_slab VA l p b.
Proof.
  intros Hi Hp Hl Hq Hn Hb Hb'. destruct (inv_layout_at _ _ _ _ Hi Hp) as (l0 & E & Ho & Hbl & _). simplify_eq.
  assert (p ≠ q) as Hne by congruence. pose proof (blocks_apart _ _ _ _ _ (inv_source _ _ _ Hi) Hbl Hq Hne) as Ha.
  unfold apart, in_slab, page_address in *. rewrite Z2Nat.id in Ha by by apply lo_order.
  pose proof (lo_block _ Ho). change PAGE_SIZE with 4096 in *. lia.
Qed.

Lemma near_evolves u st st' g s l p cpu c f' c' u' : slub_inv VA st g → slabs g !! p = Some s → lay_of st s = Some l →
  near st st' s p c → slot st s cpu = Some c → (∀ y, y ∈ u → y ∈ objs VA l p → same_bytes y (size l) (mem st) (mem st')) →
  evolves u st g st' (upd_ghost g p f' c' u').
Proof.
  intros Hi Hp Hl Hn Hc Hu. split; [apply Hn..| | |]; cbn [upd_ghost slabs].
  - intros c1 Hc1. apply (nr_cpus _ _ _ _ _ Hn). intros ->. by eapply Hc1.
  - intros y q s' l' Hy Hq Hl' Ho. split; [done|]. destruct (decide (q = p)) as [->|Hne]; [simplify_eq; by apply Hu|].
    intros b Hb. eapply nr_mem; [done..|]. eapply (inv_bytes st g q s' l' p s l); try done.
    eapply objs_bytes; [by eapply inv_layout|done..].
  - intros q o Hq Hs. split; [done|]. rewrite (nr_source _ _ _ _ _ Hn). split; [done|].
    intros b Hb. eapply nr_mem; [done..|]. by eapply inv_other_bytes.
Qed.

Lemma shrink_evolves u st st' g s l p : slub_inv VA st g → slabs g !! p = Some s → lay_of st s = Some l →
  (∀ x, x ∈ objs VA l p → x ∉ u) → shrunk st st' s l p → evolves u st g st' (drop_ghost g p).
Proof.
  intros Hi Hp Hl Hu Hsh. split; [apply Hsh..|by rewrite (sh_cpus _ _ _ _ _ Hsh)| |]; cbn [drop_ghost slabs].
  - intros y q s' l' Hy Hq Hl' Ho. assert (q ≠ p) as Hne. { intros ->. simplify_eq. by eapply Hu. }
    split; [by rewrite lookup_delete_ne|]. intros b Hb. apply (sh_mem _ _ _ _ _ Hsh).
    eapply (inv_bytes st g q s' l' p s l); try done. eapply objs_bytes; [by eapply inv_layout|done..].
  - intros q o Hq Hs. assert (q ≠ p) by congruence. split; [by rewrite lookup_delete_ne|].
    rewrite (sh_blocks _ _ _ _ _ Hsh), lookup_delete_ne by done. split; [done|].
    intros b Hb. apply (sh_mem _ _ _ _ _ Hsh). by eapply inv_other_bytes.
Qed.

Lemma grow_evolves u st st' g s l p cpu c x x' : slub_inv VA st g → lay_of st s = Some l → slot st s cpu = Some c →
  cpus st !! c = Some x → c_page x = None → c_offset x' = c_offset x ∧ c_objsize x' = c_objsize x →
  grown st st' g s l p c x' → evolves u st g st' (grow_ghost g s l p).
Proof.
  intros Hi Hl Hs Hc Hp Hsame Hg. pose proof (grow_fresh st st' g s l p cpu c x x' Hi Hl Hs Hc Hp Hsame Hg) as Hf.
  split; [apply Hg..| | |]; cbn [grow_ghost slabs].
  - intros c1 Hc1. apply (gr_cpus _ _ _ _ _ _ _ _ Hg). intros ->. by eapply Hc1.
  - intros y q s' l' Hy Hq Hl' Ho. split; [rewrite lookup_insert_ne by congruence; done|]. intros b Hb.
    eapply grow_bytes; [exact Hi|exact Hl|exact Hs|exact Hc|done|done|exact Hg|exact Hq|exact Hl'|].
    eapply objs_bytes; [by eapply inv_layout|done..].
  - intros q o Hq Hs'. pose proof (gr_apart _ _ _ _ _ _ _ _ Hg q o Hq) as Ha.
    assert (p ≠ q) as Hne. { intros ->. destruct Ha as [Ha|Ha]; [pose proof (Z.pow_pos_nonneg 2 (Z.of_nat (Z.to_nat (order l))))|pose proof (Z.pow_pos_nonneg 2 (Z.of_nat o))]; lia. }
    rewrite (gr_blocks _ _ _ _ _ _ _ _ Hg), !lookup_insert_ne by done. split_and!; [done..|]. intros b Hb.
    apply (gr_mem _ _ _ _ _ _ _ _ Hg). unfold apart, page_address in *.
    rewrite Z2Nat.id in Ha by (apply lo_order; by eapply inv_layout). change PAGE_SIZE with 4096 in *. lia.
Qed.

End steps.

(** ** Running the slab allocator

    The rules for the primitive commands of [Slub], a tactic that runs them, and
    the effect of the commands that work on one slab ([near]). *)

Section rules.
Context {A : Type} `{BlockSource A}.
Implicit Types (st : slub (A := A)).

Lemma run_get_cache s k Q st : caches st !! s = Some k → Q k st → runs (get_cache s) Q st.
Proof. intros Hk HQ. by eapply run_getm. Qed.
Lemma run_mod_cache s f k Q st :
  caches st !! s = Some k → Q tt (set_caches (<[s := f k]> (caches st)) st) → runs (mod_cache s f) Q st.
Proof. intros Hk HQ. apply run_bind. eapply run_get_cache; [done|]. by apply run_modify. Qed.
Lemma run_get_node s k Q st : caches st !! s = Some k → Q (local_node k) st → runs (get_node s) Q st.
Proof. intros Hk HQ. apply run_bind. eapply run_get_cache; [done|]. by apply run_ret. Qed.
Lemma run_put_node s n k Q st :
  caches st !! s = Some k → Q tt (set_caches (<[s := set_node n k]> (caches st)) st) → runs (put_node s n) Q st.
Proof. intros Hk HQ. by eapply run_mod_cache. Qed.
Lemma run_get_cpu c x Q st : cpus st !! c = Some x → Q x st → runs (get_cpu c) Q st.
Proof. intros Hx HQ. by eapply run_getm. Qed.
Lemma run_mod_cpu c f x Q st :
  cpus st !! c = Some x → Q tt (set_cpus (<[c := f x]> (cpus st)) st) → runs (mod_cpu c f) Q st.
Proof. intros Hx HQ. apply run_bind. eapply run_get_cpu; [done|]. by apply run_modify. Qed.
Lemma run_get_page p Q st : Q (pages st p) st → runs (get_page p) Q st.
Proof. intros HQ. by apply run_gets. Qed.
Lemma run_mod_page p f Q st : Q tt (set_pages (<[p := f (pages st p)]> (pages st)) st) → runs (mod_page p f) Q st.
Proof. intros HQ. by apply run_modify. Qed.
Lemma run_get_cpu_slab s cpu c Q st : slot st s cpu = Some c → Q c st → runs (get_cpu_slab s cpu) Q st.
Proof.
  intros Hs HQ. unfold slot in Hs. destruct (caches st !! s) as [k|] eqn:Hk; [|done]. apply run_bind.
  eapply run_get_cache; [done|]. by eapply run_lift.
Qed.
Lemma run_load a Q st : PAGE_SIZE ≤ a → Q (load_bytes 8 (mem st) a) st → runs (load a) Q st.
Proof.
  intros Ha HQ. apply run_bind, run_BUG_ON; [by apply Z.ltb_ge|]. by apply run_gets.
Qed.
Lemma run_store a v Q st : PAGE_SIZE ≤ a → Q tt (set_mem (store_bytes 8 a v (mem st)) st) → runs (store a v) Q st.
Proof. intros Ha HQ. apply run_bind, run_BUG_ON; [by apply Z.ltb_ge|]. by apply run_modify. Qed.
Lemma run_memset a b n Q st : PAGE_SIZE ≤ a → Q tt (set_mem (memset_bytes a b n (mem st)) st) → runs (memset a b n) Q st.
Proof. intros Ha HQ. apply run_bind, run_BUG_ON; [by apply Z.ltb_ge|]. by apply run_modify. Qed.

(** ** Locks *)

Lemma run_PageTail p Q st : head_page (source st) p = Some p → Q false st → runs (PageTail p) Q st.
Proof.
  intros Hh HQ. apply run_bind. eapply run_getm; [done|]. apply run_ret. by rewrite bool_decide_eq_false_2 by naive_solver.
Qed.
Lemma run_slab_lock p Q st : head_page (source st) p = Some p → pg_locked (pages st p) = false →
  Q tt (set_pages (<[p := set_locked true (pages st p)]> (pages st)) st) → runs (slab_lock p) Q st.
Proof.
  intros Hh Hf HQ. apply run_bind, run_PageTail; [done|]. apply run_bind, run_BUG_ON; [done|].
  apply run_bind, run_get_page. apply run_bind, run_BUG_ON; [done|]. by apply run_mod_page.
Qed.
Lemma run_slab_unlock p Q st : head_page (source st) p = Some p →
  Q tt (set_pages (<[p := set_locked false (pages st p)]> (pages st)) st) → runs (slab_unlock p) Q st.
Proof. intros Hh HQ. apply run_bind, run_PageTail; [done|]. apply run_bind, run_BUG_ON; [done|]. by apply run_mod_page. Qed.

End rules.

(** What a field holds after the writes so far. *)
Ltac clook :=
  cbn [mem pages caches cpus source slab_caches cpu_free cpu_free_init size_index set_mem set_pages set_caches set_cpus set_source set_slab_caches];
  first [eassumption
        | rewrite lookup_insert_eq; reflexivity
        | rewrite lookup_insert_ne by (done || congruence); clook].

(** Run the next command: a read whose result is known, or a write. *)
Ltac cstep :=
  lazymatch goal with
  | |- runs (mbind _ _) _ _ => apply run_bind
  | |- runs (mret _) _ _ => apply run_ret
  | |- runs (gets _) _ _ => apply run_gets
  | |- runs (modify _) _ _ => apply run_modify
  | |- runs (get_cache _) _ _ => eapply run_get_cache; [clook|]
  | |- runs (mod_cache _ _) _ _ => eapply run_mod_cache; [clook|]
  | |- runs (get_node _) _ _ => eapply run_get_node; [clook|]
  | |- runs (put_node _ _) _ _ => eapply run_put_node; [clook|]
  | |- runs (get_cpu _) _ _ => eapply run_get_cpu; [clook|]
  | |- runs (mod_cpu _ _) _ _ => eapply run_mod_cpu; [clook|]
  | |- runs (get_page _) _ _ => apply run_get_page
  | |- runs (mod_page _ _) _ _ => apply run_mod_page
  | |- runs (lift _) _ _ => eapply run_lift; [eassumption|]
  end; cbv beta; cbn [mem pages caches cpus source slab_caches cpu_free cpu_free_init size_index
    set_mem set_pages set_caches set_cpus set_source set_slab_caches].
Ltac csteps := repeat cstep.

(** ** The parts of a state that a step touches *)

Section near.
Context {A : Type} `{BlockSourceLaws A} (VA : Z).
Implicit Types (st : slub (A := A)).

Lemma lay_of_cache st s k : caches st !! s = Some k → lay_of st s = Some (lay k).
Proof. intros Hk. unfold lay_of. by rewrite Hk. Qed.
Lemma node_of_cache st s k : caches st !! s = Some k → node_of st s = Some (local_node k).
Proof. intros Hk. unfold node_of. by rewrite Hk. Qed.
Lemma slot_of_cache st s k cpu : caches st !! s = Some k → slot st s cpu = mjoin (cpu_slab k !! cpu).
Proof. intros Hk. unfold slot. by rewrite Hk. Qed.

Lemma near_pages st st1 s p c pgs : near VA st st1 s p c → (∀ q, q ≠ p → pgs q = pages st1 q) → near VA st (set_pages pgs st1) s p c.
Proof. intros Hn Hp. eapply near_trans; [exact Hn|]. by split. Qed.
Lemma near_cpus st st1 s p c m : near VA st st1 s p c → (∀ c', c' ≠ c → m !! c' = cpus st1 !! c') → near VA st (set_cpus m st1) s p c.
Proof. intros Hn Hm. eapply near_trans; [exact Hn|]. by split. Qed.
Lemma near_mem st st1 s p c m l : near VA st st1 s p c → lay_of st s = Some l → (∀ b, ¬ in_slab VA l p b → m b = mem st1 b) →
  near VA st (set_mem m st1) s p c.
Proof.
  intros Hn Hl Hm. eapply near_trans; [exact Hn|]. split; try done. intros l' b Hl' Hb.
  rewrite (nr_lay _ _ _ _ _ _ Hn) in Hl'. simplify_eq. by apply Hm.
Qed.
Lemma near_node st st1 s p c m k n : near VA st st1 s p c → m = <[s := set_node n k]> (caches st1) → caches st1 !! s = Some k →
  near VA st (set_caches m st1) s p c.
Proof.
  intros Hn -> Hk. eapply near_trans; [exact Hn|].
  split; try done; intros s'; unfold lay_of, slot, node_of; cbn [caches set_caches].
  - destruct (decide (s' = s)) as [->|Hs]; [by rewrite lookup_insert_eq, Hk|by rewrite lookup_insert_ne].
  - intros cpu. destruct (decide (s' = s)) as [->|Hs]; [by rewrite lookup_insert_eq, Hk|by rewrite lookup_insert_ne].
  - intros Hs. by rewrite lookup_insert_ne.
Qed.

End near.

(** A state that was reached by writes to one slab, its list and one
    structure; what is written to memory is left to show. *)
Ltac nears :=
  lazymatch goal with
  | |- near _ ?st ?st _ _ _ => apply near_refl
  | |- near _ _ (set_pages _ _) _ _ _ =>
      eapply near_pages; [|intros ? ?; cbn [pages set_mem set_pages set_caches set_cpus]; by rewrite ?fn_lookup_insert_ne by done]; nears
  | |- near _ _ (set_cpus _ _) _ _ _ =>
      eapply near_cpus; [|intros ? ?; cbn [cpus set_mem set_pages set_caches set_cpus]; by rewrite ?lookup_insert_ne by done]; nears
  | |- near _ _ (set_caches _ _) _ _ _ => eapply near_node; [nears|reflexivity|clook]
  | |- near _ _ (set_mem _ _) _ _ _ => eapply near_mem; [nears|eassumption|]
  | |- near _ _ _ _ _ _ => try eassumption
  end.
