(* ===== verification/SlubOps.v ===== *)
(** * The operations of the slab allocator keep the invariant *)
From stdpp Require Import functions gmap.
From S2P Require Import Prelude Command BlockSource Slub SlubInv SlubStep.

Section ops.
Context {A : Type} `{BlockSourceLaws A} (VA : Z) (HVA : linear_ok VA).
Implicit Types (st : slub (A := A)) (g : ghost).

Definition locked (p : Z) st := set_pages (<[p := set_locked true (pages st p)]> (pages st)) st.

(** ** Facts about one slab *)

Lemma filter_absent (p : Z) (l : list Z) : p ∉ l → filter (.≠ p) l = l.
Proof.
  induction l as [|q l IH]; [done|]. rewrite not_elem_of_cons. intros [Hq Hl]. rewrite filter_cons_True by done. by rewrite IH.
Qed.

Lemma filter_length_one (p : Z) (l : list Z) : NoDup l → p ∈ l → Z.of_nat (length (filter (.≠ p) l)) = Z.of_nat (length l) - 1.
Proof.
  intros Hnd (l1 & l2 & ->)%list_elem_of_split. rewrite filter_app, filter_cons_False by naive_solver.
  apply NoDup_app in Hnd as (N1 & N2 & N3). apply NoDup_cons in N3 as [N3 _].
  rewrite !filter_absent by (try done; intros ?; by eapply N2; [done|left]). rewrite !length_app. cbn [length]. lia.
Qed.

Lemma inv_cache st g s l : slub_inv VA st g → lay_of st s = Some l → ∃ k, caches st !! s = Some k ∧ lay k = l.
Proof. intros _ Hl. unfold lay_of in Hl. destruct (caches st !! s) as [k|]; [|done]. exists k. split; [done|]. by injection Hl. Qed.

Lemma inv_head st g p s : slub_inv VA st g → slabs g !! p = Some s → head_page (source st) p = Some p.
Proof.
  intros Hi Hp. destruct (inv_layout_at _ _ _ _ _ Hi Hp) as (l & _ & Ho & Hb & _).
  eapply head_page_ok; [apply Hi|done|]. unfold in_block. pose proof (Z.pow_pos_nonneg 2 (Z.of_nat (Z.to_nat (order l)))). lia.
Qed.

(** The objects of a slab are pointers that can be followed. *)
Lemma inv_ptr st g p s l x : slub_inv VA st g → slabs g !! p = Some s → lay_of st s = Some l → x ∈ objs VA l p →
  PAGE_SIZE ≤ x < 2 ^ 64.
Proof.
  intros Hi Hp Hl Hx. destruct (inv_layout_at _ _ _ _ _ Hi Hp) as (l0 & E & Ho & _ & H1 & H2). simplify_eq.
  by eapply objs_ptr.
Qed.

(** The place of the free pointer of an object. *)
Lemma word_in_obj l p x : layout_ok l → x ∈ objs VA l p → ∀ b, x + offset l ≤ b < x + offset l + 8 → x ≤ b < x + size l ∧ in_slab VA l p b.
Proof.
  intros Ho Hx b Hb. pose proof (lo_offset _ Ho). pose proof (lo_fits _ Ho). split; [lia|]. eapply objs_bytes; [done..|lia].
Qed.

Lemma store_obj l p x v m b : layout_ok l → x ∈ objs VA l p → b < x ∨ x + size l ≤ b →
  store_bytes 8 (x + offset l) v m b = m b.
Proof.
  intros Ho Hx Hb. apply store_bytes_out. pose proof (lo_offset _ Ho). pose proof (lo_fits _ Ho). lia.
Qed.
Lemma store_slab l p x v m b : layout_ok l → x ∈ objs VA l p → ¬ in_slab VA l p b → store_bytes 8 (x + offset l) v m b = m b.
Proof.
  intros Ho Hx Hb. apply (store_obj l p); [done..|].
  destruct (Z.lt_ge_cases b x) as [|H1]; [by left|]. destruct (Z.le_gt_cases (x + size l) b) as [|H2]; [by right|].
  destruct Hb. by eapply objs_bytes.
Qed.

(** Pushing an object on a list of others. *)
Lemma chain_push_obj m l p a xs x : layout_ok l → PAGE_SIZE ≤ x < 2 ^ 64 → x ∈ objs VA l p → (∀ y, y ∈ xs → y ∈ objs VA l p) → x ∉ xs →
  chain m (offset l) a xs → chain (store_bytes 8 (x + offset l) a m) (offset l) x (x :: xs).
Proof.
  intros Ho Hp Hx Hxs Hn. apply chain_push; [done|]. intros y Hy.
  destruct (objs_apart VA l p y x Ho (Hxs y Hy) Hx) as [H1|H1]; [by intros ->| |];
    pose proof (lo_offset _ Ho); pose proof (lo_fits _ Ho); lia.
Qed.

(** A list of other objects does not notice the store. *)
Lemma chain_store_obj m l p a v xs x : layout_ok l → x ∈ objs VA l p → (∀ y, y ∈ xs → y ∈ objs VA l p) → x ∉ xs →
  chain m (offset l) a xs → chain (store_bytes 8 (x + offset l) v m) (offset l) a xs.
Proof.
  intros Ho Hx Hxs Hn. apply chain_same. intros y Hy b Hb. apply (store_obj l p); [done..|].
  destruct (objs_apart VA l p y x Ho (Hxs y Hy) Hx) as [H1|H1]; [by intros ->| |];
    pose proof (lo_offset _ Ho); pose proof (lo_fits _ Ho); lia.
Qed.

(** ** [deactivate_slab] *)

Lemma merge_freelist_post s l p c : layout_ok l → (∀ x, x ∈ objs VA l p → PAGE_SIZE ≤ x < 2 ^ 64) →
  ∀ cs fs fuel st x, lay_of st s = Some l → cpus st !! c = Some x → sizeof_ptr * c_offset x = offset l →
  chain (mem st) (offset l) (c_freelist x) cs → chain (mem st) (offset l) (pg_freelist (pages st p)) fs →
  NoDup (cs ++ fs) → (∀ y, y ∈ cs ++ fs → y ∈ objs VA l p) → pg_inuse (pages st p) = objects l - Z.of_nat (length fs) →
  (length cs ≤ fuel)%nat →
  runs (merge_freelist fuel c p) (λ _ st', near VA st st' s p c ∧ caches st' = caches st ∧
    cpus st' !! c = Some (set_c_freelist 0 x) ∧
    (∃ f i, pages st' p = set_inuse i (set_freelist f (pages st p))) ∧
    chain (mem st') (offset l) (pg_freelist (pages st' p)) (rev cs ++ fs) ∧
    pg_inuse (pages st' p) = objects l - Z.of_nat (length (rev cs ++ fs)) ∧
    (∀ b, (∀ y, y ∈ cs → b < y ∨ y + size l ≤ b) → mem st' b = mem st b)) st.
Proof.
  intros Ho Hptr. induction cs as [|o cs IH]; intros fs fuel st x Hl Hx Hoff Hcs Hfs Hnd Hin Huse Hfuel.
  - cbn [chain] in Hcs. destruct fuel; cbn [merge_freelist]; cstep; cstep; rewrite Hcs, Z.eqb_refl; cstep;
      (split_and!; [apply near_refl|done|by destruct x; cbn in *; subst|exists (pg_freelist (pages st p)), (pg_inuse (pages st p)); by destruct (pages st p)|done..]).
  - destruct fuel as [|fuel]; cbn [length] in Hfuel; [lia|].
    cbn [chain] in Hcs. destruct Hcs as (Hc0 & Hpo & Hcs). cbn [merge_freelist]. cstep. cstep.
    assert (o ∈ objs VA l p) as Hob by (apply Hin; by left).
    apply NoDup_cons in Hnd as [Hno Hnd]. rewrite not_elem_of_app in Hno. destruct Hno as [Hno1 Hno2].
    pose proof (lo_offset _ Ho) as Hoff0.
    rewrite (proj2 (Z.eqb_neq _ _)) by (change PAGE_SIZE with 4096 in Hpo; lia). rewrite Hc0, Hoff.
    apply run_bind, run_load; [lia|]. csteps.
    apply run_store; [lia|]. csteps.
    eapply run_mono; [eapply (IH (o :: fs))|].
    + done.
    + cbn [cpus set_mem set_pages set_cpus]. apply lookup_insert_eq.
    + done.
    + cbn [mem set_mem set_pages set_cpus c_freelist set_c_freelist]. apply (chain_store_obj _ l p); [done|done| |done|done].
      intros y Hy. apply Hin. right. apply elem_of_app. by left.
    + cbn [mem pages set_mem set_pages set_cpus]. rewrite fn_lookup_insert. cbn [pg_freelist set_inuse]. rewrite fn_lookup_insert.
      apply (chain_push_obj _ l p); [done|done|done| |done|done]. intros y Hy. apply Hin. right. apply elem_of_app. by right.
    + rewrite NoDup_app, NoDup_cons in *. destruct Hnd as (N1 & N2 & N3). split_and!; [done| |done|done].
      intros y Hy. rewrite not_elem_of_cons. split; [by intros ->|by apply N2].
    + intros y. rewrite elem_of_app, elem_of_cons. intros Hy. apply Hin. cbn [app]. rewrite elem_of_cons, elem_of_app. naive_solver.
    + cbn [pages set_mem set_pages set_cpus]. rewrite fn_lookup_insert. cbn [pg_inuse set_inuse]. rewrite fn_lookup_insert.
      cbn [pg_inuse set_freelist]. rewrite Huse. cbn [length]. unfold u32. pose proof (lo_objects _ Ho).
      (* a free object is left, so the count does not wrap *)
      assert (Z.of_nat (length (o :: fs)) ≤ objects l).
      { rewrite <-(objs_length VA l p Ho). apply inj_le, submseteq_length, NoDup_submseteq.
        - apply NoDup_cons. split; [done|]. rewrite NoDup_app in Hnd. apply Hnd.
        - intros y Hy. apply Hin. rewrite elem_of_cons in Hy. cbn [app]. rewrite elem_of_cons, elem_of_app. naive_solver. }
      cbn [length] in *. rewrite Z.mod_small; lia.
    + lia.
    + intros _ st' (Hn & Hca & Hcp & (f & i & Hpg) & Hch & Hus & Hmem). split_and!.
      * eapply near_trans; [|exact Hn]. nears. intros b Hb. cbn [mem set_cpus]. by apply (store_slab l p).
      * done.
      * done.
      * exists f, i. rewrite Hpg. cbn [pages set_mem set_pages set_cpus]. rewrite !fn_lookup_insert. by destruct (pages st p).
      * cbn [rev]. by rewrite <-app_assoc.
      * cbn [rev]. rewrite <-app_assoc. done.
      * intros b Hb. rewrite Hmem by (intros y Hy; apply Hb; by right). cbn [mem set_mem set_pages set_cpus].
        apply (store_obj l p); [done..|]. apply Hb. by left.
Qed.

(** ** Counters do not wrap *)

Lemma bounded_length (l : list Z) n : 0 ≤ n → NoDup l → (∀ x, x ∈ l → 0 ≤ x < n) → Z.of_nat (length l) ≤ n.
Proof.
  intros Hn Hl Hx. assert (length l ≤ length (seqZ 0 n))%nat as Hle.
  { apply submseteq_length, NoDup_submseteq; [done|]. intros x Hx'. apply elem_of_seqZ. specialize (Hx x Hx'). lia. }
  rewrite length_seqZ in Hle. lia.
Qed.

Lemma inv_page_range st g p s : slub_inv VA st g → slabs g !! p = Some s → 0 ≤ p < PFN_LIMIT.
Proof.
  intros Hi Hp. destruct (inv_layout_at _ _ _ _ _ Hi Hp) as (l & _ & Ho & _ & H1 & H2).
  pose proof (Z.pow_pos_nonneg 2 (order l) ltac:(lia) (lo_order _ Ho)). lia.
Qed.

Lemma inv_partial_bound st g s n : slub_inv VA st g → node_of st s = Some n → 0 ≤ nr_partial n ≤ PFN_LIMIT.
Proof.
  intros Hi Hn. destruct (inv_node _ _ _ Hi s n Hn) as [G1 G2 G3 _]. rewrite G1. split; [lia|].
  apply bounded_length; [done|done|]. intros p (Hp & _)%G3. by eapply inv_page_range.
Qed.

Lemma inv_slabs_bound st g s n : slub_inv VA st g → node_of st s = Some n → 0 ≤ nr_slabs n ≤ PFN_LIMIT.
Proof.
  intros Hi Hn. destruct (inv_node _ _ _ Hi s n Hn) as [_ _ _ G4]. rewrite G4. split; [lia|].
  rewrite <-length_map_to_list, <-(length_fmap fst). apply bounded_length; [done|apply NoDup_fst_map_to_list|].
  intros p ((q & s') & -> & Hq)%list_elem_of_fmap. apply elem_of_map_to_list, map_lookup_filter_Some in Hq as [Hq _].
  by eapply inv_page_range.
Qed.

(** A slab of the cache is counted. *)
Lemma inv_slabs_pos st g s n p : slub_inv VA st g → node_of st s = Some n → slabs g !! p = Some s → 1 ≤ nr_slabs n.
Proof.
  intros Hi Hn Hp. destruct (inv_node _ _ _ Hi s n Hn) as [_ _ _ G4]. rewrite G4.
  assert (base.size (filter (λ x : Z * cache_ptr, x.2 = s) (slabs g)) ≠ 0%nat); [|lia].
  intros H0'%map_size_empty_inv. assert (filter (λ x : Z * cache_ptr, x.2 = s) (slabs g) !! p = Some s) as Hf by by apply map_lookup_filter_Some.
  by rewrite H0' in Hf.
Qed.

(** ** [discard_slab] *)

(** [st] is the invariant state in which the empty slab [p] is on the list;
    in [st'] it is off it and about to go back. *)
Record leaving st st' (s : cache_ptr) (p : Z) : Prop := {
  lv_source : source st' = source st;
  lv_mem : mem st' = mem st;
  lv_pages q : q ≠ p → pages st' q = pages st q;
  lv_page : pg_locked (pages st' p) = false ∧ pg_active (pages st' p) = false;
  lv_lay s' : lay_of st' s' = lay_of st s';
  lv_slot s' cpu : slot st' s' cpu = slot st s' cpu;
  lv_node s' : s' ≠ s → node_of st' s' = node_of st s';
  lv_node' n : node_of st s = Some n → ∃ n', node_of st' s = Some n' ∧ nr_partial n' = Z.of_nat (length (partial n')) ∧
    NoDup (partial n') ∧ (∀ q, q ∈ partial n' ↔ q ∈ partial n ∧ q ≠ p) ∧ nr_slabs n' = nr_slabs n;
  lv_cpus : cpus st' = cpus st;
  lv_static : statics st' = statics st }.

Lemma discard_slab_post cpu st st1 g s l p : slub_inv VA st g → slabs g !! p = Some s → lay_of st s = Some l → leaving st st1 s p →
  runs (discard_slab cpu s p) (λ _ st', shrunk VA st st' s l p) st1.
Proof.
  intros Hi Hp Hl [L1 L2 L3 [L4 L4'] L5 L6 L7 L8 L9 L10].
  destruct (inv_cache _ _ _ _ Hi Hl) as (k & Hk & <-). pose proof (node_of_cache _ _ _ Hk) as Hn.
  destruct (L8 _ Hn) as (n' & Hn' & N1 & N2 & N3 & N4).
  assert (lay_of st1 s = Some (lay k)) as Hl1 by by rewrite L5.
  destruct (caches st1 !! s) as [k1|] eqn:Hk1; [|unfold lay_of in Hl1; by rewrite Hk1 in Hl1].
  pose proof (lay_of_cache _ _ _ Hk1) as E1. pose proof (node_of_cache _ _ _ Hk1) as E2. rewrite Hl1 in E1. rewrite Hn' in E2.
  injection E1 as E1. injection E2 as ->.
  unfold discard_slab, free_slab, __free_slab, __free_pages. csteps.
  rewrite fn_lookup_insert. apply run_BUG_ON. { unfold clean. cbn. by rewrite L4, L4'. }
  destruct (inv_layout_at _ _ _ _ _ Hi Hp) as (l0 & E0 & Ho & Hb & _). simplify_eq.
  destruct (free_pages_ok cpu p (Z.to_nat (order (lay k))) (source st) (inv_source _ _ _ Hi) Hb) as (a & Ha & Hok & Hbl).
  cstep. eapply run_getm. { cbn [lay set_node source set_pages set_caches]. rewrite <-E1, L1. exact Ha. } csteps.
  pose proof (inv_slabs_bound _ _ _ _ Hi Hn) as Hb1. pose proof (inv_slabs_pos _ _ _ _ _ Hi Hn Hp) as Hb2.
  split.
  - done.
  - done.
  - intros b _. cbn. by rewrite L2.
  - intros q Hq. cbn. rewrite fn_lookup_insert_ne by done. by apply L3.
  - cbn. rewrite fn_lookup_insert. unfold clean. cbn. by rewrite L4, L4'.
  - intros s'. rewrite <-L5. unfold lay_of. cbn. destruct (decide (s' = s)) as [->|]; [by rewrite lookup_insert_eq, Hk1|by rewrite lookup_insert_ne].
  - intros s' cpu'. rewrite <-L6. unfold slot. cbn. destruct (decide (s' = s)) as [->|]; [by rewrite lookup_insert_eq, Hk1|by rewrite lookup_insert_ne].
  - intros s' Hs. rewrite <-L7 by done. unfold node_of. cbn. by rewrite lookup_insert_ne.
  - intros n Hn0. simplify_eq. unfold node_of. cbn. rewrite lookup_insert_eq. eexists. split; [done|]. cbn. split_and!; [done..|].
    cbn [nr_slabs]. rewrite N4. unfold s64. rewrite Z.mod_small; unfold PFN_LIMIT in *; lia.
  - exact L9.
  - unfold statics. cbn. congruence.
Qed.

(** ** [unfreeze_slab] and [deactivate_slab] *)

(** The objects of a slab, all of them free. *)
Lemma all_free m l p pg f u : layout_ok l → slab_ok VA m l p pg f [] u → pg_inuse pg = 0 → ∀ x, x ∈ objs VA l p → x ∉ u.
Proof.
  intros Ho [H1 H2 H3 H4 H5 H6] H0' x Hx. rewrite app_nil_r in *.
  assert (f ≡ₚ objs VA l p) as Hsub.
  { apply submseteq_length_Permutation.
    - apply NoDup_submseteq; [done|]. intros y Hy. by apply H3.
    - pose proof (objs_length VA l p Ho). lia. }
  apply H3. by rewrite Hsub.
Qed.

(** What is left of the page and the structure when the slab [p] of [c] has
    been merged and given up, before [unfreeze_slab]. *)
Record merged st st1 g (s : cache_ptr) (l : layout) (p : Z) (c : cpu_ptr) (x : kmem_cache_cpu) : Prop := {
  mg_near : near VA st st1 s p c;
  mg_caches : caches st1 = caches st;
  mg_cpu : cpus st1 !! c = Some (set_c_page None (set_c_freelist 0 x));
  mg_page : pg_locked (pages st1 p) = true ∧ pg_slub (pages st1 p) = true ∧ pg_slab (pages st1 p) = Some s;
  mg_chain : chain (mem st1) (offset l) (pg_freelist (pages st1 p)) (rev (cl g p) ++ fl g p);
  mg_inuse : pg_inuse (pages st1 p) = objects l - Z.of_nat (length (rev (cl g p) ++ fl g p));
  mg_mem b : (∀ y, y ∈ cl g p → b < y ∨ y + size l ≤ b) → mem st1 b = mem st b }.

(** The slab is thawed and unlocked, with [n'] as the list of its cache. *)
Record thawed st1 st2 (s : cache_ptr) (p : Z) (n' : kmem_cache_node) : Prop := {
  th_near c : near VA st1 st2 s p c;
  th_page : pages st2 p = set_locked false (set_active false (pages st1 p));
  th_mem : mem st2 = mem st1;
  th_cpus : cpus st2 = cpus st1;
  th_node : node_of st2 s = Some n' }.

Section thaw.
Context st st1 g s k p cpu c x (Hi : slub_inv VA st g) (Hp : slabs g !! p = Some s) (Hk : caches st !! s = Some k)
  (Hs : slot st s cpu = Some c) (Hx : cpus st !! c = Some x) (Hpx : c_page x = Some p) (Hm : merged st st1 g s (lay k) p c x).

Definition thaw_ghost : ghost := upd_ghost g p (rev (cl g p) ++ fl g p) [] (used g).

Lemma thawed_step st2 n' : thawed st1 st2 s p n' →
  nr_partial n' = Z.of_nat (length (partial n')) → NoDup (partial n') → (∀ q, q ≠ p → q ∈ partial n' ↔ q ∈ partial (local_node k)) →
  (p ∈ partial n' ↔ pg_freelist (pages st1 p) ≠ 0) → nr_slabs n' = nr_slabs (local_node k) →
  slab_step VA st st2 g s (lay k) p c x (set_c_page None (set_c_freelist 0 x)) (rev (cl g p) ++ fl g p) [] (used g).
Proof using All.
  intros [T1 T2 T3 T4 T5] N1 N2 N3 N4 N5. destruct Hm as [M1 M2 M3 (M4 & M5 & M6) M7 M8 _].
  pose proof (lay_of_cache _ _ _ Hk) as Hl. destruct (inv_slab _ _ _ Hi _ _ _ Hp Hl) as [S1 S2 S3 S4 S5 S6].
  assert (∀ y, y ∈ rev (cl g p) ++ fl g p ↔ y ∈ fl g p ++ cl g p) as Hel.
  { intros y. rewrite !elem_of_app, !list_elem_of_In, <-in_rev. tauto. }
  split; try done; rewrite ?T2.
  - by eapply near_trans.
  - by rewrite T4.
  - done.
  - split; rewrite ?app_nil_r; [by rewrite T3| | | |done|done].
    + by rewrite <-Permutation_rev, Permutation_app_comm.
    + intros y. rewrite Hel. apply S3.
    + intros y. rewrite Hel. apply S4.
  - intros n Hn. rewrite (node_of_cache _ _ _ Hk) in Hn. simplify_eq. exists n'. rewrite T5.
    split_and!; [done|done|done|done| |done]. rewrite N4. naive_solver.
  - apply own_none; [by rewrite T2|]. right. by destruct x.
Qed.

(** The objects in use keep their bytes. *)
Lemma merged_evolves st2 f' c' u' : near VA st1 st2 s p c → mem st2 = mem st1 →
  evolves VA (used g) st g st2 (upd_ghost g p f' c' u').
Proof using All.
  intros Hn Hmem. destruct Hm as [M1 _ _ _ _ _ M9]. pose proof (lay_of_cache _ _ _ Hk) as Hl.
  eapply (near_evolves VA _ _ _ _ s (lay k) p cpu c); [done..|by eapply near_trans|done|].
  intros y Hy Ho b Hb. rewrite Hmem. apply M9. intros z Hz.
  destruct (inv_slab _ _ _ Hi _ _ _ Hp Hl) as [_ _ S3 _ _ _].
  destruct (S3 z) as [Hz1 Hz2]; [apply elem_of_app; by right|].
  destruct (objs_apart VA (lay k) p y z (inv_layout _ _ _ Hi _ _ Hl) Ho Hz1) as [F|F]; [by intros ->|left; lia|right; lia].
Qed.

Local Lemma owned_active : pg_active (pages st p) = true ∧ p ∉ partial (local_node k).
Proof using All.
  pose proof (lay_of_cache _ _ _ Hk) as Hl. destruct (inv_cpu _ _ _ Hi s _ cpu c Hs Hl) as (y & Hy & [_ _ Hpg]).
  simplify_eq. rewrite Hpx in Hpg. destruct Hpg as (_ & Ha & _). split; [done|].
  intros (_ & Ha' & _)%(no_partial _ _ _ _ (inv_node _ _ _ Hi s _ (node_of_cache _ _ _ Hk))). congruence.
Qed.

(** What [unfreeze_slab] and its callers promise. *)
Definition settled st' : Prop := ∃ g', slub_inv VA st' g' ∧ used g' = used g ∧ evolves VA (used g) st g st' g' ∧ cpus st' = cpus st1.

Lemma settled_kept st2 n' : thawed st1 st2 s p n' →
  nr_partial n' = Z.of_nat (length (partial n')) → NoDup (partial n') → (∀ q, q ≠ p → q ∈ partial n' ↔ q ∈ partial (local_node k)) →
  (p ∈ partial n' ↔ pg_freelist (pages st1 p) ≠ 0) → nr_slabs n' = nr_slabs (local_node k) → settled st2.
Proof using All.
  intros Ht N1 N2 N3 N4 N5. exists thaw_ghost. split_and!; [|done| |by apply Ht].
  - eapply inv_near; [done|done|]. by eapply thawed_step.
  - eapply merged_evolves; [apply Ht|apply Ht].
Qed.

Lemma settled_gone cpu0 st2 : thawed st1 st2 s p (local_node k) → pg_inuse (pages st1 p) = 0 →
  runs (discard_slab cpu0 s p) (λ _ st', settled st') st2.
Proof using All.
  intros Ht H0'. pose proof (lay_of_cache _ _ _ Hk) as Hl. pose proof (inv_layout _ _ _ Hi _ _ Hl) as Ho.
  destruct owned_active as [Hact Hnp]. pose proof (inv_node _ _ _ Hi s _ (node_of_cache _ _ _ Hk)) as [G1 G2 _ _].
  (* the state in which the slab is on the list *)
  set (n1 := mk_node (nr_partial (local_node k) + 1) (nr_slabs (local_node k)) (p :: partial (local_node k))).
  destruct Ht as [T1 T2 T3 T4 T5].
  assert (∃ k2, caches st2 !! s = Some k2 ∧ local_node k2 = local_node k) as (k2 & Hk2 & Hn2).
  { unfold node_of in T5. destruct (caches st2 !! s) as [k2|]; [|done]. exists k2. split; [done|]. by injection T5. }
  set (st3 := set_caches (<[s := set_node n1 k2]> (caches st2)) st2).
  assert (∀ c', near VA st2 st3 s p c') as Hn3 by (intros c'; unfold st3; nears).
  assert (thawed st1 st3 s p n1) as Ht3.
  { split; [intros c'; by eapply near_trans|done|done|done|]. unfold node_of, st3. cbn. by rewrite lookup_insert_eq. }
  assert (pg_freelist (pages st1 p) ≠ 0) as Hne.
  { destruct Hm as [_ _ _ _ M7 M8 _]. rewrite (chain_null _ _ _ _ M7). intros E. rewrite E in M8. cbn in M8.
    pose proof (lo_objects _ Ho). lia. }
  assert (slab_step VA st st3 g s (lay k) p c x (set_c_page None (set_c_freelist 0 x)) (rev (cl g p) ++ fl g p) [] (used g)) as Hss.
  { eapply thawed_step; [exact Ht3|cbn; lia|by apply NoDup_cons| | |done].
    - intros q Hq. cbn. rewrite elem_of_cons. naive_solver.
    - cbn. rewrite elem_of_cons. naive_solver. }
  pose proof (inv_near VA _ _ _ _ _ _ _ _ _ _ _ _ _ Hi Hs Hss) as Hi3.
  assert (lay_of st3 s = Some (lay k)) as Hl3 by (unfold st3, lay_of; cbn; rewrite lookup_insert_eq; cbn; f_equal;
    pose proof (nr_lay _ _ _ _ _ _ (T1 c) s) as E; rewrite (nr_lay _ _ _ _ _ _ (mg_near _ _ _ _ _ _ _ _ Hm)) in E; unfold lay_of in E; rewrite Hk2, Hk in E; by injection E).
  assert (∀ y, y ∈ objs VA (lay k) p → y ∉ used g) as Hfree.
  { eapply all_free; [done|apply Hss|]. rewrite (th_page _ _ _ _ _ Ht3). done. }
  eapply run_mono; [eapply (discard_slab_post cpu0 st3 st2 thaw_ghost); [exact Hi3|exact Hp|exact Hl3|]|].
  - pose proof (Hn3 c) as N. split; try done.
    + by rewrite T2.
    + intros s'. by rewrite (nr_lay _ _ _ _ _ _ N).
    + intros s' cpu'. by rewrite (nr_slot _ _ _ _ _ _ N).
    + intros s' Hs'. by rewrite (nr_node _ _ _ _ _ _ N).
    + intros n Hn. unfold node_of, st3 in Hn. cbn in Hn. rewrite lookup_insert_eq in Hn. injection Hn as <-.
      exists (local_node k). split_and!; [done|done|done| |done]. intros q. cbn. rewrite elem_of_cons. naive_solver.
  - intros ? st' Hsh. exists (drop_ghost thaw_ghost p). split_and!; [|done| |].
    + eapply inv_shrink; [exact Hi3|exact Hp|exact Hl3|by rewrite (th_page _ _ _ _ _ Ht3)|exact Hfree|exact Hsh].
    + eapply evolves_trans; [eapply (merged_evolves st3); [apply Hn3 || (eapply near_trans; [apply T1|apply Hn3])|by rewrite (th_mem _ _ _ _ _ Ht3)]|].
      by eapply shrink_evolves.
    + rewrite (sh_cpus _ _ _ _ _ _ Hsh). unfold st3. cbn. done.
Qed.

Lemma unfreeze_slab_post cpu0 : runs (unfreeze_slab cpu0 s p) (λ _ st', settled st') st1.
Proof using All.
  pose proof Hm as [M1 M2 M3 (M4 & M5 & M6) M7 M8 _]. destruct owned_active as [Hact Hnp].
  pose proof (node_of_cache _ _ _ Hk) as Hn. pose proof (inv_node _ _ _ Hi s _ Hn) as [G1 G2 _ _].
  pose proof (inv_partial_bound _ _ _ _ Hi Hn) as Hb. pose proof (inv_head _ _ _ _ Hi Hp) as Hh.
  assert (caches st1 !! s = Some k) as Hk1 by by rewrite M2. rewrite <-(nr_source _ _ _ _ _ _ M1) in Hh.
  assert (∀ (T : slub (A := A)) n', (∀ c', near VA st1 T s p c') → pages T p = set_locked false (set_active false (pages st1 p)) →
    mem T = mem st1 → cpus T = cpus st1 → node_of T s = Some n' → thawed st1 T s p n') as Hth by (intros; by split).
  unfold unfreeze_slab, add_partial, add_partial_tail. cstep. cstep. cstep. cstep. rewrite fn_lookup_insert. cbn [pg_inuse pg_freelist set_active].
  destruct (Z.eqb_spec (pg_inuse (pages st1 p)) 0) as [E0|E0]; cbn [negb].
  - cstep. cstep. destruct (Z.ltb_spec (nr_partial (local_node k)) MIN_PARTIAL) as [Hlt|Hge].
    + csteps. apply run_slab_unlock; [exact Hh|]. cbn [pages set_pages set_caches]. eapply settled_kept.
      * apply Hth; [intros c'; nears|cbn; by rewrite !fn_lookup_insert|done|done|]. unfold node_of. cbn. by rewrite lookup_insert_eq.
      * cbn. rewrite length_app. cbn. rewrite u64_small by (unfold PFN_LIMIT in *; lia). lia.
      * cbn. apply NoDup_app. split_and!; [done|set_solver|apply NoDup_singleton].
      * intros q Hq. cbn. set_solver.
      * cbn. split; [|set_solver]. intros _. rewrite (chain_null _ _ _ _ M7). intros E. rewrite E in M8. cbn in M8.
        pose proof (lo_objects _ (inv_layout _ _ _ Hi _ _ (lay_of_cache _ _ _ Hk))). lia.
      * done.
    + cstep. apply run_slab_unlock; [exact Hh|]. cbn [pages set_pages]. apply settled_gone; [|done].
      apply Hth; [intros c'; nears|cbn; by rewrite !fn_lookup_insert|done|done|]. unfold node_of. cbn. by rewrite Hk1.
  - cstep. apply run_when; intros Ef.
    + csteps. apply run_slab_unlock; [exact Hh|]. cbn [pages set_pages set_caches]. eapply settled_kept.
      * apply Hth; [intros c'; nears|cbn; by rewrite !fn_lookup_insert|done|done|]. unfold node_of. cbn. by rewrite lookup_insert_eq.
      * cbn. rewrite u64_small by (unfold PFN_LIMIT in *; lia). lia.
      * cbn. by apply NoDup_cons.
      * intros q Hq. cbn. set_solver.
      * cbn. split; [intros _|set_solver]. by destruct (Z.eqb_spec (pg_freelist (pages st1 p)) 0).
      * done.
    + apply run_slab_unlock; [exact Hh|]. cbn [pages set_pages]. eapply settled_kept.
      * apply Hth; [intros c'; nears|cbn; by rewrite !fn_lookup_insert|done|done|]. unfold node_of. cbn. by rewrite Hk1.
      * done.
      * done.
      * done.
      * split; [done|]. by destruct (Z.eqb_spec (pg_freelist (pages st1 p)) 0).
      * done.
Qed.

End thaw.

(** [c] has the slab [p] of the cache [s]. *)
Record owns st g (s : cache_ptr) (k : kmem_cache) (p : Z) (cpu : nat) (c : cpu_ptr) (x : kmem_cache_cpu) : Prop := {
  ow_cache : caches st !! s = Some k;
  ow_slot : slot st s cpu = Some c;
  ow_cpu : cpus st !! c = Some x;
  ow_page : c_page x = Some p;
  ow_slab : slabs g !! p = Some s;
  ow_active : pg_active (pages st p) = true;
  ow_offset : sizeof_ptr * c_offset x = offset (lay k);
  ow_chain : chain (mem st) (offset (lay k)) (c_freelist x) (cl g p) }.

Lemma inv_owns st g s k p cpu c x : slub_inv VA st g → caches st !! s = Some k → slot st s cpu = Some c → cpus st !! c = Some x →
  c_page x = Some p → owns st g s k p cpu c x.
Proof.
  intros Hi Hk Hs Hx Hp. destruct (inv_cpu _ _ _ Hi s _ cpu c Hs (lay_of_cache _ _ _ Hk)) as (y & Hy & [C1 _ C3]).
  simplify_eq. rewrite Hp in C3. destruct C3 as (? & ? & ?). by split.
Qed.

Lemma deactivate_slab_post cpu0 cpu st g s k p c x : slub_inv VA st g → owns st g s k p cpu c x →
  runs (deactivate_slab cpu0 s c) (λ _ st', ∃ g' x', slub_inv VA st' g' ∧ used g' = used g ∧ evolves VA (used g) st g st' g' ∧
    cpus st' !! c = Some x' ∧ c_page x' = None) (locked p st).
Proof.
  intros Hi [Hk Hs Hx Hpx Hp Ha Hoff Hch]. pose proof (lay_of_cache _ _ _ Hk) as Hl. pose proof (inv_layout _ _ _ Hi _ _ Hl) as Ho.
  destruct (inv_slab _ _ _ Hi _ _ _ Hp Hl) as [S1 S2 S3 S4 S5 S6]. destruct (inv_page _ _ _ Hi p) as (P1 & P2 & _ & P4).
  unfold deactivate_slab. unfold locked at 1. csteps.
  eapply run_mono; [eapply (merge_freelist_post s (lay k) p c Ho _ (cl g p) (fl g p))|].
  - exact Hl.
  - exact Hx.
  - exact Hoff.
  - exact Hch.
  - cbn. by rewrite fn_lookup_insert.
  - by rewrite Permutation_app_comm.
  - intros y Hy. apply S3. rewrite elem_of_app in *. tauto.
  - cbn. by rewrite fn_lookup_insert.
  - rewrite NoDup_app in S2. apply Nat2Z.inj_le. rewrite Z2Nat.id by (pose proof (lo_objects _ Ho); lia).
    rewrite <-(objs_length VA (lay k) p Ho). apply inj_le, submseteq_length, NoDup_submseteq; [apply S2|].
    intros y Hy. apply S3, elem_of_app. by right.
  - cbn beta. intros ? st1 (N & Hca & Hcp & (f & i & Hpg) & Hch1 & Hus & Hmem). csteps.
    assert (near VA st st1 s p c) as N1 by (eapply near_trans; [|exact N]; nears).
    assert (merged st (set_cpus (<[c := set_c_page None (set_c_freelist 0 x)]> (cpus st1)) st1) g s (lay k) p c x) as Hm.
    { split; cbn [caches cpus pages mem set_cpus].
      - nears.
      - by rewrite Hca.
      - by rewrite lookup_insert_eq.
      - rewrite Hpg. cbn. rewrite fn_lookup_insert. cbn. rewrite P2, bool_decide_eq_true_2 by by eexists. naive_solver.
      - done.
      - done.
      - done. }
    eapply run_mono; [eapply unfreeze_slab_post; [exact Hi|exact Hp|exact Hk|exact Hs|exact Hx|exact Hpx|exact Hm]|].
    intros ? st' (g' & I1 & I2 & I3 & I4). exists g', (set_c_page None (set_c_freelist 0 x)). split_and!; [done..| |done].
    rewrite I4. cbn. by rewrite lookup_insert_eq.
  Unshelve. intros y Hy. by eapply inv_ptr.
Qed.

Lemma flush_slab_post cpu0 cpu st g s k p c x : slub_inv VA st g → owns st g s k p cpu c x →
  runs (flush_slab cpu0 s c) (λ _ st', ∃ g' x', slub_inv VA st' g' ∧ used g' = used g ∧ evolves VA (used g) st g st' g' ∧
    cpus st' !! c = Some x' ∧ c_page x' = None) st.
Proof.
  intros Hi Hw. pose proof Hw as [Hk Hs Hx Hpx Hp _ _ _]. unfold flush_slab. cstep. cstep. cstep. cstep. cstep.
  apply run_slab_lock; [by eapply inv_head|by apply (inv_page _ _ _ Hi)|]. by eapply deactivate_slab_post.
Qed.

(** ** [load_freelist] *)

(** [st1] is [st] with the slab [p] locked. *)
Record locks st st1 (p : Z) : Prop := {
  lk_source : source st1 = source st;
  lk_mem : mem st1 = mem st;
  lk_caches : caches st1 = caches st;
  lk_cpus : cpus st1 = cpus st;
  lk_static : statics st1 = statics st;
  lk_pages q : q ≠ p → pages st1 q = pages st q;
  lk_page : pages st1 p = set_locked true (pages st p) }.

Lemma locked_locks p st : locks st (locked p st) p.
Proof. split; try done; unfold locked; cbn; [intros q Hq; by rewrite fn_lookup_insert_ne|by rewrite fn_lookup_insert]. Qed.

Lemma locks_near st st1 s p c : locks st st1 p → near VA st st1 s p c.
Proof. intros [L1 L2 L3 L4 L5 L6 L7]. split; unfold lay_of, slot, node_of; rewrite ?L1, ?L2, ?L3, ?L4; done. Qed.

(** The objects of the slab all go to the processor; the first one is handed out. *)
Lemma load_freelist_post cpu fuel gfp st st1 g s k p cpu0 c x o fs : slub_inv VA st g → owns st g s k p cpu c x → locks st st1 p →
  c_freelist x = 0 → fl g p = o :: fs →
  runs (__slab_alloc_loop VA (S fuel) false cpu0 s gfp c) (λ r st', r = o ∧
    slub_inv VA st' (upd_ghost g p [] fs ({[o]} ∪ used g)) ∧ evolves VA (used g) st g st' (upd_ghost g p [] fs ({[o]} ∪ used g)) ∧
    mem st' = mem st) st1.
Proof.
  intros Hi [Hk Hs Hx Hpx Hp Ha Hoff Hch] Hlk Hf Hfl. pose proof (locks_near st st1 s p c Hlk) as Hnl.
  destruct Hlk as [L1 L2 L3 L4 _ _ L7]. assert (caches st1 !! s = Some k) as Hk1 by by rewrite L3.
  assert (cpus st1 !! c = Some x) as Hx1 by by rewrite L4. pose proof (lay_of_cache _ _ _ Hk) as Hl. pose proof (inv_layout _ _ _ Hi _ _ Hl) as Ho.
  destruct (inv_slab _ _ _ Hi _ _ _ Hp Hl) as [S1 S2 S3 S4 S5 S6]. destruct (inv_page _ _ _ Hi p) as (P1 & P2 & _ & P4).
  rewrite Hf in Hch. assert (cl g p = []) as Hcl by by apply (chain_null _ _ _ _ Hch). rewrite Hcl, Hfl, ?app_nil_r in *.
  cbn [chain] in S1. destruct S1 as (F1 & F2 & F3). pose proof (lo_offset _ Ho). pose proof (lo_objects _ Ho).
  apply NoDup_cons in S2 as [S2 S2']. assert (o ∈ objs VA (lay k) p ∧ o ∉ used g) as [Hob Hou] by (apply S3; by left).
  cbn [__slab_alloc_loop]. csteps. rewrite L7. cbn [pg_freelist set_locked]. rewrite F1.
  rewrite (proj2 (Z.eqb_neq o 0)) by (change PAGE_SIZE with 4096 in *; lia). rewrite Hoff. cstep. apply run_load; [lia|]. csteps.
  apply run_slab_unlock. { cbn. rewrite L1. by eapply inv_head. } csteps. cbn [pages set_pages set_cpus].
  set (st' := set_pages _ _).
  assert (near VA st st' s p c) as Hn by (unfold st'; nears).
  assert (mem st' = mem st) as Hmm by done.
  split_and!; [done| | |done].
  - eapply inv_near; [done|done|]. split; [done|done|done|done|unfold st'; cbn; by rewrite lookup_insert_eq| | | |done| |].
    + unfold st'. cbn. rewrite !fn_lookup_insert, L7. cbn. rewrite P2, bool_decide_eq_true_2 by by eexists. naive_solver.
    + split; unfold st'; cbn [pages set_pages]; rewrite ?fn_lookup_insert, ?L7; cbn.
      * done.
      * done.
      * intros y Hy. destruct (S3 y) as [Y1 Y2]; [by right|]. split; [done|]. rewrite not_elem_of_union, not_elem_of_singleton. split; [|done]. by intros ->.
      * intros y Hy. destruct (S4 y Hy) as [Y|Y]; [left; set_solver|]. apply elem_of_cons in Y as [->|Y]; [left; set_solver|by right].
      * rewrite u32_small by lia. lia.
      * congruence.
    + intros n Hn'. rewrite (node_of_cache _ _ _ Hk) in Hn'. simplify_eq. exists (local_node k).
      pose proof (inv_node _ _ _ Hi s _ (node_of_cache _ _ _ Hk)) as [G1 G2 G3 G4].
      split_and!; [unfold node_of, st'; cbn; by rewrite Hk1|done|done|done| |done].
      rewrite G3. unfold st'. cbn. rewrite !fn_lookup_insert, L7. cbn. naive_solver congruence.
    + apply own_mine; [done|unfold st'; cbn; by rewrite !fn_lookup_insert, L7|rewrite Hmm; by rewrite L2|by right].
    + intros y Hy. rewrite elem_of_union, elem_of_singleton. split; [intros [->|]; done|by right].
  - eapply near_evolves; [done..|]. intros y Hy Hyo b Hb. by rewrite Hmm.
Qed.

(** ** [get_partial] *)

(** With the page of the structure set, the first partial slab is as if it
    had been locked by its owner. *)
Lemma get_partial_post st g s k cpu c x (Q : option Z → slub (A := A) → Prop) : slub_inv VA st g → caches st !! s = Some k →
  slot st s cpu = Some c → cpus st !! c = Some x → c_page x = None →
  (partial (local_node k) = [] → Q None st) →
  (∀ p st1, (∃ st0 g0, slub_inv VA st0 g0 ∧ used g0 = used g ∧ evolves VA (used g) st g st0 g0 ∧ mem st0 = mem st ∧ fl g0 p ≠ [] ∧
      owns st0 g0 s (set_node (mk_node (u64 (nr_partial (local_node k) - 1)) (nr_slabs (local_node k)) (filter (.≠ p) (partial (local_node k)))) k) p cpu c (set_c_page (Some p) x) ∧
      locks st0 (set_cpus (<[c := set_c_page (Some p) x]> (cpus st1)) st1) p) → cpus st1 !! c = Some x → Q (Some p) st1) →
  runs (get_partial s) Q st.
Proof.
  intros Hi Hk Hs Hx Hpx Q1 Q2. pose proof (node_of_cache _ _ _ Hk) as Hn. pose proof (lay_of_cache _ _ _ Hk) as Hl.
  pose proof (inv_node _ _ _ Hi s _ Hn) as [G1 G2 G3 G4]. pose proof (inv_partial_bound _ _ _ _ Hi Hn) as Hb.
  unfold get_partial, get_partial_node. csteps. destruct (Z.eqb_spec (nr_partial (local_node k)) 0) as [E|E].
  { apply run_ret, Q1. apply nil_length_inv. lia. }
  destruct (partial (local_node k)) as [|p ps] eqn:Eps; [cbn in G1; lia|]. cbn [get_partial_loop].
  destruct (proj1 (G3 p)) as (Hp & Hact & Hfree); [by left|]. destruct (inv_page _ _ _ Hi p) as (P1 & P2 & _ & P4).
  pose proof (inv_slab _ _ _ Hi _ _ _ Hp Hl) as [S1 S2 S3 S4 S5 S6].
  unfold lock_and_freeze_slab, slab_trylock, remove_partial. csteps. rewrite P1. csteps. rewrite Eps.
  apply run_BUG_ON. { rewrite bool_decide_eq_true_2; [done|by left]. } csteps. apply Q2; [|done].
  set (n' := mk_node (u64 (nr_partial (local_node k) - 1)) (nr_slabs (local_node k)) (filter (.≠ p) (p :: ps))).
  set (x' := set_c_page (Some p) x).
  set (st0 := set_cpus (<[c := x']> (cpus st)) (set_caches (<[s := set_node n' k]> (caches st))
    (set_pages (<[p := set_active true (pages st p)]> (pages st)) st))).
  assert (near VA st st0 s p c) as Hnr by (unfold st0; nears).
  assert (slab_step VA st st0 g s (lay k) p c x x' (fl g p) (cl g p) (used g)) as Hss.
  { assert (filter (.≠ p) (p :: ps) = ps) as Ef.
    { rewrite filter_cons_False by naive_solver. apply NoDup_cons in G2 as [G2 _]. by apply filter_absent. }
    apply NoDup_cons in G2 as [G2 G2'].
    split; try done; unfold st0; cbn [cpus pages mem set_cpus set_caches set_pages]; rewrite ?fn_lookup_insert.
    - by rewrite lookup_insert_eq.
    - cbn. rewrite P2, bool_decide_eq_true_2 by by eexists. naive_solver.
    - split; try done.
    - intros n Hn0. simplify_eq. exists n'. unfold node_of. cbn [caches set_cpus set_caches set_pages]. rewrite lookup_insert_eq. split; [done|]. subst n'. cbn [nr_partial partial nr_slabs]. rewrite Ef, Eps.
      split_and!; [|done| |cbn; naive_solver|done].
      + rewrite u64_small by (unfold PFN_LIMIT in *; lia). rewrite G1. cbn [length]. lia.
      + intros q Hq. rewrite elem_of_cons. naive_solver.
    - apply own_mine; [done|cbn; by rewrite fn_lookup_insert| |by left].
      destruct (inv_cpu _ _ _ Hi s _ cpu c Hs Hl) as (y & Hy & [_ _ C3]). simplify_eq. rewrite Hpx in C3. cbn. rewrite C3, S6; done. }
  exists st0, (upd_ghost g p (fl g p) (cl g p) (used g)).
  split_and!; [by eapply inv_near|done|eapply near_evolves; done|done| | |].
  - cbn. rewrite fn_lookup_insert. rewrite <-(chain_null _ _ _ _ S1). done.
  - eapply inv_owns; [by eapply inv_near|unfold st0; cbn; by rewrite lookup_insert_eq| |unfold st0; cbn; by rewrite lookup_insert_eq|done].
    by rewrite (nr_slot _ _ _ _ _ _ Hnr).
  - split; try done; unfold st0; cbn [cpus pages mem caches source set_cpus set_caches set_pages].
    + intros q Hq. by rewrite !fn_lookup_insert_ne.
    + rewrite !fn_lookup_insert. by destruct (pages st p).
Qed.

End ops.

(** ** A new slab

    [new_slab] threads the objects of a new block of pages onto one free list. *)

Section new.
Context {A : Type} `{BlockSourceLaws A} (VA : Z) (HVA : linear_ok VA).
Implicit Types (st : slub (A := A)) (g : ghost).

Definition obj (l : layout) (p i : Z) : Z := page_address VA p + i * size l.

(** The first [n] objects point to their successors. *)
Definition linked (m : memory) (l : layout) (p n : Z) : Prop :=
  ∀ j, 0 ≤ j < n → load_bytes 8 m (obj l p j + offset l) = obj l p (j + 1).

Lemma linked_same m m' l p n : layout_ok l → n ≤ objects l →
  (∀ b, page_address VA p ≤ b < obj l p n → m' b = m b) → linked m l p n → linked m' l p n.
Proof.
  intros Ho Hn Hs Hl j Hj. rewrite <-(Hl j Hj). apply load_bytes_same. intros b Hb. apply Hs. unfold obj in *.
  pose proof (lo_size _ Ho). pose proof (lo_offset _ Ho). pose proof (lo_fits _ Ho). nia.
Qed.

(** A list that is linked and ends. *)
Lemma linked_chain m l p : layout_ok l → (∀ x, x ∈ objs VA l p → PAGE_SIZE ≤ x < 2 ^ 64) → linked m l p (objects l - 1) →
  load_bytes 8 m (obj l p (objects l - 1) + offset l) = 0 → chain m (offset l) (page_address VA p) (objs VA l p).
Proof.
  intros Ho Hp Hl H0'. pose proof (lo_objects _ Ho) as Hob.
  assert (∀ n i, (i + n)%nat = Z.to_nat (objects l) → (0 < n)%nat →
    chain m (offset l) (obj l p (Z.of_nat i)) ((λ i : nat, page_address VA p + Z.of_nat i * size l) <$> seq i n)) as Hc.
  { intros n. induction n as [|n IH]; intros i Hi Hn; [lia|]. cbn [seq fmap list_fmap chain]. split; [done|]. split.
    - apply Hp. apply elem_of_objs; [done|]. exists (Z.of_nat i). split; [lia|done].
    - destruct n as [|n].
      + cbn. fold (obj l p (Z.of_nat i)). replace (Z.of_nat i) with (objects l - 1) by lia. done.
      + fold (obj l p (Z.of_nat i)). rewrite Hl by lia. replace (Z.of_nat i + 1) with (Z.of_nat (S i)) by lia. apply IH; lia. }
  replace (page_address VA p) with (obj l p (Z.of_nat 0)) at 1 by (unfold obj; lia). apply Hc; lia.
Qed.

Lemma setup_object_post l p x Q st : layout_ok l → x ∈ objs VA l p →
  (∀ m, (∀ b, b < x ∨ x + size l ≤ b → m b = mem st b) → Q tt (set_mem m st)) → runs (setup_object l x) Q st.
Proof.
  intros Ho Hx HQ. unfold setup_object. destruct (ctor l) as [f|] eqn:Hf.
  - apply run_modify, HQ. intros b Hb. apply (lo_ctor _ Ho _ Hf). pose proof (lo_objsize _ Ho). lia.
  - apply run_ret. replace st with (set_mem (mem st) st) by by destruct st. by apply HQ.
Qed.

(** Setting up an object and writing its free pointer. *)
Lemma setup_link_post l p x v Q st : layout_ok l → x ∈ objs VA l p → PAGE_SIZE ≤ x → 0 ≤ v < 2 ^ 64 →
  (∀ m, (∀ b, b < x ∨ x + size l ≤ b → m b = mem st b) → load_bytes 8 m (x + offset l) = v → Q tt (set_mem m st)) →
  runs (setup_object l x;; set_freepointer l x v) Q st.
Proof.
  intros Ho Hx Hp Hv HQ. apply run_bind. eapply setup_object_post; [done..|]. intros m Hm.
  pose proof (lo_offset _ Ho). pose proof (lo_fits _ Ho). unfold set_freepointer. apply run_store; [lia|].
  cbn [mem set_mem]. apply (HQ (store_bytes 8 (x + offset l) v m)).
  - intros b Hb. rewrite store_bytes_out by lia. by apply Hm.
  - by apply load_store_bytes.
Qed.

Lemma init_objects_post l p : layout_ok l → (∀ x, x ∈ objs VA l p → PAGE_SIZE ≤ x < 2 ^ 64) →
  ∀ fuel i st, 0 ≤ i ≤ objects l → objects l - i ≤ Z.of_nat fuel → linked (mem st) l p (Z.max 0 (i - 1)) →
  runs (init_objects fuel l (obj l p (objects l)) (obj l p i) (obj l p (Z.max 0 (i - 1))))
    (λ r st', r = obj l p (objects l - 1) ∧ linked (mem st') l p (objects l - 1) ∧ ∃ m, st' = set_mem m st ∧
      ∀ b, ¬ in_slab VA l p b → m b = mem st b) st.
Proof.
  intros Ho Hp fuel. pose proof (lo_objects _ Ho) as Hob. pose proof (lo_size _ Ho) as Hsz.
  assert (∀ j, 0 ≤ j < objects l → obj l p j ∈ objs VA l p) as Hin by (intros j Hj; apply elem_of_objs; [done|by exists j]).
  induction fuel as [|fuel IH]; intros i st Hi Hf Hlk; cbn [init_objects].
  - assert (i = objects l) as -> by lia. rewrite (proj2 (Z.ltb_ge _ _)) by lia. cstep.
    rewrite Z.max_r in * by lia. split_and!; [done..|]. exists (mem st). by destruct st.
  - destruct (Z.ltb_spec (obj l p i) (obj l p (objects l))) as [Hlt|Hge].
    2:{ assert (i = objects l) as -> by (unfold obj in Hge; nia). rewrite Z.max_r in * by lia. cstep.
        split_and!; [done..|]. exists (mem st). by destruct st. }
    assert (i < objects l) as Hi' by (unfold obj in Hlt; nia).
    set (j := Z.max 0 (i - 1)) in *. assert (0 ≤ j < objects l) as Hj by lia.
    assert (∀ (k : command (slub (A := A)) Z) Q, runs ((setup_object l (obj l p j);; set_freepointer l (obj l p j) (obj l p i)) ≫= λ _, k) Q st →
      runs (setup_object l (obj l p j);; set_freepointer l (obj l p j) (obj l p i);; k) Q st) as Hassoc.
    { intros k Q (r & s' & E & HQ). exists r, s'. split; [|done]. revert E. unfold mbind, command_bind.
      by destruct (setup_object l (obj l p j) st) as [[[] ?]|]. }
    apply Hassoc, run_bind. eapply setup_link_post; [done|by apply Hin|by apply Hp, Hin| |].
    { pose proof (Hp _ (Hin i ltac:(lia))). change PAGE_SIZE with 4096 in *. lia. }
    intros m Hm Hld. replace (obj l p i + size l) with (obj l p (i + 1)) by (unfold obj; lia).
    replace (obj l p i) with (obj l p (Z.max 0 (i + 1 - 1))) by (f_equal; lia).
    eapply run_mono; [apply (IH (i + 1)); [lia|lia|]|].
    + cbn [mem set_mem]. replace (Z.max 0 (i + 1 - 1)) with i by lia. intros j' Hj'. destruct (decide (j' = j)) as [->|Hne].
      * rewrite Hld. f_equal. lia.
      * apply (linked_same (mem st) m l p j); [done|lia| |done|lia]. intros b Hb. apply Hm. by left; unfold obj in *; lia.
    + cbn [mem set_mem]. intros r st' (-> & Hl' & m' & -> & Hm'). split_and!; [done..|]. exists m'. split; [done|].
      intros b Hb. rewrite Hm' by done. apply Hm.
      destruct (Z.lt_ge_cases b (obj l p j)) as [|H1]; [by left|]. destruct (Z.le_gt_cases (obj l p j + size l) b) as [|H2]; [by right|].
      destruct Hb. eapply objs_bytes; [done|by apply Hin|lia].
Qed.

(** ** Taking pages *)

Definition in_pages (p : Z) (o : nat) (b : Z) : Prop := page_address VA p ≤ b < page_address VA p + PAGE_SIZE * 2 ^ Z.of_nat o.

(** A block that was not out, or none. *)
Definition taken st (gfp : Z) (o : nat) (r : option Z) st' : Prop :=
  ∃ a m, st' = set_mem m (set_source a st) ∧ blocks_ok a ∧
    match r with
    | Some p => (∀ q o', blocks (source st) !! q = Some o' → apart p o q o') ∧ blocks a = <[p := o]> (blocks (source st)) ∧
        (∀ b, ¬ in_pages p o b → m b = mem st b) ∧ (has gfp GFP_ZERO = true → ∀ b, in_pages p o b → m b = 0)
    | None => blocks a = blocks (source st) ∧ m = mem st
    end.

Lemma page_address_low p : 0 ≤ p → PAGE_SIZE ≤ page_address VA p.
Proof using HVA. intros Hp. destruct HVA as (HV & _). unfold page_address. change PAGE_SIZE with 4096 in *. lia. Qed.

Lemma get_pages_post cpu gfp o st : blocks_ok (source st) → runs (get_pages VA cpu gfp o) (λ r st', taken st gfp o r st') st.
Proof using HVA H0.
  intros Hok. unfold get_pages. destruct (alloc_pages_ok cpu gfp o (source st) Hok) as (r & a & Ha & Hok' & Hr).
  apply run_bind. eapply run_getm; [exact Ha|]. cbv beta iota. cstep. cstep. destruct r as [p|].
  - destruct Hr as [Hap Hbl]. destruct (block_range p o a Hok') as [Hp _]; [by rewrite Hbl, lookup_insert_eq|].
    cstep. apply run_when; intros Hz.
    + apply run_memset; [by apply page_address_low|]. cstep. eexists a, _. split; [done|]. split; [done|].
      split_and!; [done|done| |]; cbn [mem set_source].
      * intros b Hb. apply memset_out. unfold in_pages in Hb. rewrite Z.shiftl_mul_pow2 by lia. lia.
      * intros _ b Hb. apply memset_in. unfold in_pages in Hb. rewrite Z.shiftl_mul_pow2 by lia. lia.
    + cstep. exists a, (mem st). split; [by destruct st|]. split; [done|]. split_and!; [done..|]. by rewrite Hz.
  - cstep. cstep. cstep. exists a, (mem st). split; [by destruct st|]. done.
Qed.

(** ** [new_slab] *)

Record fresh_slab st st1 (s : cache_ptr) (k : kmem_cache) (p : Z) : Prop := {
  fs_source : blocks_ok (source st1);
  fs_blocks : blocks (source st1) = <[p := Z.to_nat (order (lay k))]> (blocks (source st));
  fs_apart q o : blocks (source st) !! q = Some o → apart p (Z.to_nat (order (lay k))) q o;
  fs_mem b : ¬ (page_address VA p ≤ b < page_address VA p + PAGE_SIZE * 2 ^ order (lay k)) → mem st1 b = mem st b;
  fs_chain : chain (mem st1) (offset (lay k)) (page_address VA p) (objs VA (lay k) p);
  fs_pages q : q ≠ p → pages st1 q = pages st q;
  fs_page : pages st1 p = mk_page (pg_locked (pages st p)) true (pg_active (pages st p)) (Some s) (page_address VA p) 0;
  fs_caches : caches st1 = <[s := set_node (mk_node (nr_partial (local_node k)) (s64 (nr_slabs (local_node k) + 1)) (partial (local_node k))) k]> (caches st);
  fs_cpus : cpus st1 = cpus st;
  fs_static : statics st1 = statics st }.

Lemma new_slab_post cpu gfp st g s k : slub_inv VA st g → caches st !! s = Some k →
  runs (new_slab VA cpu s gfp) (λ r st1,
    match r with
    | Some p => fresh_slab st st1 s k p
    | None => ∃ a, st1 = set_source a st ∧ blocks_ok a ∧ blocks a = blocks (source st)
    end) st.
Proof using HVA H0.
  intros Hi Hk. pose proof (lay_of_cache _ _ _ Hk) as Hl. pose proof (inv_layout _ _ _ Hi _ _ Hl) as Ho.
  unfold new_slab, allocate_slab. cstep. cstep. cstep.
  eapply run_mono; [apply get_pages_post, Hi|]. cbv beta. intros r st1 (a & m & -> & Hok & Hr). destruct r as [p|].
  2:{ destruct Hr as [Hbl ->]. cstep. exists a. split; [by destruct st|done]. }
  destruct Hr as (Hap & Hbl & Hm & _).
  assert (0 ≤ p ∧ p + 2 ^ order (lay k) ≤ PFN_LIMIT) as [Hp1 Hp2].
  { destruct (block_range p (Z.to_nat (order (lay k))) a Hok) as [R1 R2]; [by rewrite Hbl, lookup_insert_eq|].
    rewrite Z2Nat.id in R2 by by apply lo_order. done. }
  assert (∀ x, x ∈ objs VA (lay k) p → PAGE_SIZE ≤ x < 2 ^ 64) as Hptr by (intros x Hx; by eapply objs_ptr).
  unfold in_pages in Hm. rewrite Z2Nat.id in Hm by by apply lo_order.
  csteps. cbn [caches set_mem set_source set_caches set_pages pages].
  assert (∀ m (T : slub (A := A)) Q, (∀ m', (∀ b, ¬ (page_address VA p ≤ b < page_address VA p + PAGE_SIZE * 2 ^ order (lay k)) → m' b = m b) → Q tt (set_mem m' T)) →
    mem T = m → runs (when (has (flags (lay k)) SLAB_POISON) (memset (page_address VA p) POISON_INUSE (Z.shiftl PAGE_SIZE (order (lay k))))) Q T) as Hpoison.
  { intros m0 T Q HQ <-. apply run_when; intros _.
    - apply run_memset; [by apply page_address_low|]. apply HQ. intros b Hb. apply memset_out.
      rewrite Z.shiftl_mul_pow2 by by apply lo_order. lia.
    - replace T with (set_mem (mem T) T) by by destruct T. by apply HQ. }
  eapply Hpoison; [|reflexivity]. intros m1 Hm1. cbn [mem set_mem set_pages set_caches set_source] in Hm1. cstep.
  replace (page_address VA p + objects (lay k) * size (lay k)) with (obj (lay k) p (objects (lay k))) by done.
  assert (obj (lay k) p 0 = page_address VA p) as E0 by (unfold obj; lia). rewrite <-E0 at 1 2.
  pose proof (lo_objects _ Ho) as Hob.
  eapply run_mono; [apply (init_objects_post (lay k) p Ho Hptr _ 0); [lia|lia|intros j Hj; lia]|].
  cbv beta. intros r st2 (-> & Hlk & m2 & -> & Hm2). cbn [mem set_mem] in Hlk, Hm2.
  assert (∀ (k0 : command (slub (A := A)) (option Z)) x T Q, runs ((setup_object (lay k) x;; set_freepointer (lay k) x 0) ≫= λ _, k0) Q T →
      runs (setup_object (lay k) x;; set_freepointer (lay k) x 0;; k0) Q T) as Hassoc.
  { intros k0 x T Q (r & s' & E & HQ). exists r, s'. split; [|done]. revert E. unfold mbind, command_bind.
    by destruct (setup_object (lay k) x T) as [[[] ?]|]. }
  assert (obj (lay k) p (objects (lay k) - 1) ∈ objs VA (lay k) p) as Hlast by (apply elem_of_objs; [done|]; eexists; split; [|done]; lia).
  apply Hassoc. cstep. eapply setup_link_post; [done|done|by apply Hptr|lia|]. intros m3 Hm3 Hld.
  csteps. cbn [pages caches mem source cpus set_mem set_pages set_caches set_source] in *.
  assert (∀ b, ¬ in_slab VA (lay k) p b → m3 b = m1 b) as Hm31.
  { intros b Hb. rewrite Hm3; [by apply Hm2|].
    destruct (Z.lt_ge_cases b (obj (lay k) p (objects (lay k) - 1))) as [|B1]; [by left|].
    destruct (Z.le_gt_cases (obj (lay k) p (objects (lay k) - 1) + size (lay k)) b) as [|B2]; [by right|].
    destruct Hb. eapply objs_bytes; [done|done|lia]. }
  split; cbn [pages caches mem source cpus set_mem set_pages set_caches set_source]; try done.
  - intros b Hb. rewrite Hm31, Hm1, Hm; [done..|]. unfold in_slab. pose proof (lo_block _ Ho). lia.
  - apply linked_chain; [done|done| |done]. eapply linked_same; [done|lia| |exact Hlk]. intros b Hb. apply Hm3. left. unfold obj in *. lia.
  - intros q Hq. by rewrite !fn_lookup_insert_ne.
  - by rewrite !fn_lookup_insert.
Qed.

End new.
