(* ===== verification/SlubAlloc.v ===== *)
(** * Allocation and release keep the invariant *)
From stdpp Require Import functions gmap.
From S2P Require Import Prelude BlockSource Command Slub SlubInv SlubStep SlubOps.

Section alloc.
Context {A : Type} `{BlockSourceLaws A} (VA : Z) (HVA : linear_ok VA).
Implicit Types (st : slub (A := A)) (g : ghost).

(** An object that was not in use, or [NULL] when the cache has no partial slab. *)
Definition alloc_done st g (s : cache_ptr) (r : Z) st' : Prop :=
  ∃ g', slub_inv VA st' g' ∧ evolves VA (used g) st g st' g' ∧
    (r = 0 ∧ used g' = used g ∧ (∀ n, node_of st' s = Some n → partial n = []) ∨
     ∃ p l, r ∉ used g ∧ used g' = {[r]} ∪ used g ∧ slabs g' !! p = Some s ∧ lay_of st s = Some l ∧ r ∈ objs VA l p).

(** The object that [load_freelist] hands out. *)
Lemma load_done st g st0 g0 s k p cpu c x st1 cpu0 fuel gfp :
  evolves VA (used g) st g st0 g0 → used g0 = used g → slub_inv VA st0 g0 → owns st0 g0 s k p cpu c x → c_freelist x = 0 → fl g0 p ≠ [] →
  locks st0 st1 p → runs (__slab_alloc_loop VA (S fuel) false cpu0 s gfp c) (alloc_done st g s) st1.
Proof using HVA H0.
  intros He Hu Hi Hw Hf Hne Hlk. destruct (fl g0 p) as [|o fs] eqn:Efl; [done|].
  eapply run_mono; [by eapply (load_freelist_post VA HVA cpu fuel gfp st0 st1 g0 s k p cpu0 c x o fs)|].
  cbv beta. intros r st' (-> & Hi' & He' & _). eexists. split; [exact Hi'|]. split.
  { eapply evolves_trans; [exact He|]. by rewrite <-Hu. }
  right. pose proof Hw as [Hk _ _ _ Hp _ _ _]. pose proof (lay_of_cache _ _ _ Hk) as Hl.
  destruct (so_free _ _ _ _ _ _ _ _ (inv_slab _ _ _ Hi _ _ _ Hp Hl) o) as [Ho Hno]; [rewrite Efl; by left|].
  exists p, (lay k). split_and!; [by rewrite <-Hu|cbn; by rewrite Hu|done|by rewrite <-(ev_lay _ _ _ _ _ _ He)|done].
Qed.

(** From a new slab to the state in which the processor has it. *)
Lemma fresh_grown st st1 g s k p cpu c x : slub_inv VA st g → caches st !! s = Some k → slot st s cpu = Some c → cpus st !! c = Some x →
  c_page x = None → fresh_slab VA st st1 s k p →
  grown VA st (set_cpus (<[c := set_c_page (Some p) x]> (cpus st1)) (set_pages (<[p := set_active true (pages st1 p)]> (pages st1)) st1))
    g s (lay k) p c (set_c_page (Some p) x).
Proof using HVA H0.
  intros Hi Hk Hs Hx Hpx [F1 F2 F3 F4 F5 F6 F7 F8 F9 F10]. destruct (inv_page _ _ _ Hi p) as (P1 & _).
  pose proof (node_of_cache _ _ _ Hk) as Hn. pose proof (inv_slabs_bound _ _ _ _ _ Hi Hn) as Hb.
  assert (∀ s', caches st1 !! s' = if decide (s' = s) then Some (set_node (mk_node (nr_partial (local_node k)) (s64 (nr_slabs (local_node k) + 1)) (partial (local_node k))) k) else caches st !! s') as Hc.
  { intros s'. rewrite F8. case_decide as E; [subst; by rewrite lookup_insert_eq|by rewrite lookup_insert_ne]. }
  split; cbn [source mem pages cpus caches set_cpus set_pages]; rewrite ?fn_lookup_insert, ?F7; try done.
  - intros q Hq. rewrite fn_lookup_insert_ne by done. by apply F6.
  - intros s'. unfold lay_of. cbn. rewrite Hc. case_decide as E; [subst; by rewrite Hk|done].
  - intros s' cpu'. unfold slot. cbn. rewrite Hc. case_decide as E; [subst; by rewrite Hk|done].
  - intros s' Hs'. unfold node_of. cbn. rewrite Hc. by rewrite decide_False.
  - intros n Hn'. simplify_eq. unfold node_of. cbn. rewrite Hc, decide_True by done. cbn. do 2 f_equal.
    unfold s64. rewrite Z.mod_small; unfold PFN_LIMIT in *; lia.
  - intros c' Hc'. rewrite lookup_insert_ne by done. by rewrite F9.
  - rewrite lookup_insert_eq. split_and!; [done..|]. cbn.
    destruct (inv_cpu _ _ _ Hi s _ cpu c Hs (lay_of_cache _ _ _ Hk)) as (y & Hy & [_ _ C3]). simplify_eq. by rewrite Hpx in C3.
Qed.

Lemma slab_alloc_fresh_post fuel gfp st0 g0 st g s k cpu c x :
  evolves VA (used g0) st0 g0 st g → used g = used g0 →
  slub_inv VA st g → caches st !! s = Some k → slot st s cpu = Some c → cpus st !! c = Some x → c_page x = None →
  runs (__slab_alloc_loop VA (S (S fuel)) true cpu s gfp c) (alloc_done st0 g0 s) st.
Proof using HVA H0.
  intros He0 Hu0 Hi Hk Hs Hx Hpx. pose proof (lay_of_cache _ _ _ Hk) as Hl.
  assert (c_freelist x = 0) as Hf.
  { destruct (inv_cpu _ _ _ Hi s _ cpu c Hs Hl) as (y & Hy & [_ _ C3]). simplify_eq. by rewrite Hpx in C3. }
  remember (S fuel) as fuel' eqn:Ef. cbn [__slab_alloc_loop]. cstep.
  eapply (get_partial_post VA); [exact Hi|exact Hk|exact Hs|exact Hx|exact Hpx| |].
  - intros Hnone. cstep. eapply run_mono; [eapply (new_slab_post VA HVA); [exact Hi|exact Hk]|]. cbv beta. intros [p|] st1 Hst1.
    + pose proof (fresh_grown _ _ _ _ _ _ _ _ _ Hi Hk Hs Hx Hpx Hst1) as Hg. destruct Hst1 as [F1 F2 F3 F4 F5 F6 F7 F8 F9 F10].
      destruct (inv_page _ _ _ Hi p) as (P1 & _). set (x' := set_c_page (Some p) x) in *.
      assert (slub_inv VA (set_cpus (<[c := x']> (cpus st1)) (set_pages (<[p := set_active true (pages st1 p)]> (pages st1)) st1)) (grow_ghost VA g s (lay k) p)) as Hi'.
      { eapply (inv_grow VA); [exact Hi|exact Hl|exact Hs|exact Hx|exact Hpx| |exact Hg]. done. }
      assert (slot st1 s cpu = Some c) as Hs1.
      { change (slot (set_cpus (<[c := x']> (cpus st1)) (set_pages (<[p := set_active true (pages st1 p)]> (pages st1)) st1)) s cpu = Some c).
        by rewrite (gr_slot _ _ _ _ _ _ _ _ _ Hg). }
      cstep. eapply run_get_cpu_slab; [exact Hs1|]. cbv beta. assert (cpus st1 !! c = Some x) as Hx1 by by rewrite F9. cstep. cstep.
      cstep. apply run_when; intros Hd. { rewrite Hpx in Hd. by apply bool_decide_eq_true, is_Some_None in Hd. }
      cstep. apply run_slab_lock. { apply (inv_head VA _ _ p s Hi'). cbn. by rewrite lookup_insert_eq. } { by rewrite F7. }
      cstep. cstep. cstep. cstep. subst fuel'.
      eapply (load_done st0 g0 _ (grow_ghost VA g s (lay k) p) s (set_node (mk_node (nr_partial (local_node k)) (s64 (nr_slabs (local_node k) + 1)) (partial (local_node k))) k) p cpu c x'); [| |exact Hi'| |exact Hf| |].
      * eapply evolves_trans; [exact He0|]. eapply (grow_evolves VA _ _ _ _ _ _ _ cpu c x x'); [exact Hi|exact Hl|exact Hs|exact Hx|exact Hpx|done|exact Hg].
      * done.
      * eapply (inv_owns VA); [exact Hi'|cbn; by rewrite F8, lookup_insert_eq|exact Hs1|cbn; by rewrite lookup_insert_eq|done].
      * cbn. rewrite fn_lookup_insert. intros E. pose proof (objs_length VA (lay k) p (inv_layout _ _ _ Hi _ _ Hl)) as E'.
        rewrite E in E'. pose proof (lo_objects _ (inv_layout _ _ _ Hi _ _ Hl)). cbn in E'. lia.
      * split; try done; cbn [cpus pages mem caches source set_cpus set_caches set_pages].
        -- intros q Hq. by rewrite !fn_lookup_insert_ne.
        -- by rewrite !fn_lookup_insert.
    + destruct Hst1 as (a & -> & Ha & Hbl). cstep. exists g.
      assert (slub_inv VA (set_source a st) g) as Hi'.
      { destruct Hi as [I1 I2 I3 I4 I5 I6 I7 I8 I9 I10 I11]. split; try done.
        - intros p s' Hp. cbn. rewrite Hbl. by apply I2.
        - intros s1 l1 cpu1 c1 Y1 Y2. destruct (I7 s1 l1 cpu1 c1 Y1 Y2) as (y & Y3 & [Y4 Y5 Y6]). exists y. by split. }
      split; [done|]. split.
      { eapply evolves_trans; [exact He0|]. split; try done. intros q o Hq Hq'. cbn. by rewrite Hbl. }
      left. split_and!; [done..|]. intros n Hn. unfold node_of in Hn. cbn in Hn. rewrite Hk in Hn. by injection Hn as <-.
  - intros p st1 (st2 & g2 & Hi2 & Hu2 & He2 & Hm2 & Hfl2 & Hw2 & Hlk2) Hx1. cstep. cstep. subst fuel'.
    eapply (load_done st0 g0 st2 g2); [|by rewrite Hu2| exact Hi2|exact Hw2|exact Hf|exact Hfl2|exact Hlk2].
    eapply evolves_trans; [exact He0|]. by rewrite <-Hu0.
Qed.

(** ** Writing to an object in use *)

Lemma inv_write st g r p s l m : slub_inv VA st g → slabs g !! p = Some s → lay_of st s = Some l → r ∈ objs VA l p → r ∈ used g →
  (∀ b, b < r ∨ r + size l ≤ b → m b = mem st b) → slub_inv VA (set_mem m st) g.
Proof using HVA H0.
  intros Hi Hp Hl Hr Hu Hm.
  assert (∀ q s' l' a xs, slabs g !! q = Some s' → lay_of st s' = Some l' → (∀ y, y ∈ xs → y ∈ fl g q ++ cl g q) →
    chain (mem st) (offset l') a xs → chain m (offset l') a xs) as Hchain.
  { intros q s' l' a xs Hq Hl' Hxs. apply chain_same. intros y Hy b Hb. apply Hm.
    pose proof (inv_layout _ _ _ Hi _ _ Hl') as Ho'. pose proof (inv_layout _ _ _ Hi _ _ Hl) as Ho.
    destruct (so_free _ _ _ _ _ _ _ _ (inv_slab _ _ _ Hi _ _ _ Hq Hl') y (Hxs y Hy)) as [Hy1 Hy2].
    destruct (word_in_obj VA l' q y Ho' Hy1 b Hb) as [Hb1 Hb2]. destruct (decide (q = p)) as [->|Hne].
    - simplify_eq. destruct (objs_apart VA l p y r Ho Hy1 Hr) as [F|F]; [by intros ->|left; lia|right; lia].
    - destruct (Z.lt_ge_cases b r) as [|B1]; [by left|]. destruct (Z.le_gt_cases (r + size l) b) as [|B2]; [by right|].
      exfalso. eapply (inv_bytes VA st g q s' l' p s l b); try done. eapply objs_bytes; [done..|lia]. }
  pose proof Hi as [I1 I2 I3 I4 I5 I6 I7 I8 I9 I10 I11]. split; try done.
  - intros q s' l' Hq Hl'. destruct (I5 q s' l' Hq Hl') as [S1 S2 S3 S4 S5 S6]. split; try done. cbn.
    eapply Hchain; [done..| |done]. intros y Hy. apply elem_of_app. by left.
  - intros s1 l1 cpu1 c1 Y1 Y2. destruct (I7 s1 l1 cpu1 c1 Y1 Y2) as (y & Y3 & [Y4 Y5 Y6]). exists y. split; [done|]. split; [done..|]. cbn.
    destruct (c_page y) as [q|]; [|done]. destruct Y6 as (Z1 & Z2 & Z3). split_and!; [done..|].
    eapply Hchain; [done..| |done]. intros z Hz. apply elem_of_app. by right.
Qed.

Lemma write_evolves u st g r p s l m : slub_inv VA st g → slabs g !! p = Some s → lay_of st s = Some l → r ∈ objs VA l p → r ∉ u →
  (∀ b, b < r ∨ r + size l ≤ b → m b = mem st b) → evolves VA u st g (set_mem m st) g.
Proof using HVA H0.
  intros Hi Hp Hl Hr Hu Hm. pose proof (inv_layout _ _ _ Hi _ _ Hl) as Ho.
  assert (∀ b, ¬ in_slab VA l p b → m b = mem st b) as Hm'.
  { intros b Hb. apply Hm. destruct (Z.lt_ge_cases b r) as [|B1]; [by left|]. destruct (Z.le_gt_cases (r + size l) b) as [|B2]; [by right|].
    destruct Hb. eapply objs_bytes; [done..|lia]. }
  split; try done.
  - intros y q s' l' Hy Hq Hl' Hyo. split; [done|]. intros b Hb. cbn. destruct (decide (q = p)) as [->|Hne].
    + simplify_eq. apply Hm. destruct (objs_apart VA l p y r Ho Hyo Hr) as [F|F]; [by intros ->|left; lia|right; lia].
    + apply Hm'. eapply (inv_bytes VA st g q s' l' p s l b); try done. eapply objs_bytes; [by eapply inv_layout|done..].
  - intros q o Hq Hq'. split_and!; [done..|]. intros b Hb. cbn. apply Hm'. by eapply inv_other_bytes.
Qed.

(** ** [slab_alloc] *)

Definition alloc_ok st g (s : cache_ptr) (gfp r : Z) st' : Prop :=
  ∃ g', slub_inv VA st' g' ∧ evolves VA (used g) st g st' g' ∧
    (r = 0 ∧ used g' = used g ∧ (∀ n, node_of st' s = Some n → partial n = []) ∨
     ∃ p l, r ∉ used g ∧ used g' = {[r]} ∪ used g ∧ slabs g' !! p = Some s ∧ lay_of st s = Some l ∧ r ∈ objs VA l p ∧
       (has gfp GFP_ZERO = true → ∀ b, r ≤ b < r + objsize l → mem st' b = 0)).

Lemma __slab_alloc_post gfp st g s k cpu c x : slub_inv VA st g → caches st !! s = Some k → slot st s cpu = Some c → cpus st !! c = Some x →
  c_freelist x = 0 → runs (__slab_alloc VA cpu s gfp c) (alloc_done st g s) st.
Proof using HVA H0.
  intros Hi Hk Hs Hx Hf. unfold __slab_alloc. cstep. cstep. destruct (c_page x) as [p|] eqn:Hpx.
  2:{ eapply slab_alloc_fresh_post; first [done|apply evolves_refl]. }
  pose proof (inv_owns VA _ _ _ _ _ _ _ _ Hi Hk Hs Hx Hpx) as Hw. pose proof Hw as [_ _ _ _ Hp _ _ _].
  pose proof (lay_of_cache _ _ _ Hk) as Hl. pose proof (so_chain _ _ _ _ _ _ _ _ (inv_slab _ _ _ Hi _ _ _ Hp Hl)) as Hch.
  cstep. apply run_slab_lock; [by eapply inv_head|by apply (inv_page _ _ _ Hi)|]. fold (locked p st).
  destruct (decide (fl g p = [])) as [He|Hne].
  - apply (chain_null _ _ _ _ Hch) in He. remember 2%nat as fuel. cbn [__slab_alloc_loop]. unfold locked at 1. csteps.
    rewrite fn_lookup_insert. cbn [pg_freelist set_locked]. rewrite He, Z.eqb_refl. cstep.
    fold (locked p st). eapply run_mono; [by eapply (deactivate_slab_post VA HVA cpu cpu)|]. cbv beta.
    intros ? st' (g' & x' & I1 & I2 & I3 & I4 & I5). subst fuel.
    assert (∃ k', caches st' !! s = Some k') as [k' Hk'].
    { pose proof (ev_lay _ _ _ _ _ _ I3 s) as E. rewrite Hl in E. unfold lay_of in E. destruct (caches st' !! s); [by eexists|done]. }
    eapply slab_alloc_fresh_post; try done. by rewrite (ev_slot _ _ _ _ _ _ I3).
  - eapply load_done; first [done|apply locked_locks|apply evolves_refl].
Qed.

Lemma fast_alloc_post st g s k p cpu c x : slub_inv VA st g → owns st g s k p cpu c x → c_freelist x ≠ 0 →
  alloc_done st g s (c_freelist x) (set_cpus (<[c := set_c_freelist (load_bytes 8 (mem st) (c_freelist x + sizeof_ptr * c_offset x)) x]> (cpus st)) st) ∧
  PAGE_SIZE ≤ c_freelist x.
Proof using HVA H0.
  intros Hi [Hk Hs Hx Hpx Hp Ha Hoff Hch] Hf. pose proof (lay_of_cache _ _ _ Hk) as Hl.
  destruct (inv_slab _ _ _ Hi _ _ _ Hp Hl) as [S1 S2 S3 S4 S5 S6]. destruct (inv_page _ _ _ Hi p) as (P1 & P2 & _ & P4).
  destruct (chain_cons _ _ _ _ Hf Hch) as (cs & Ecl & Hr & Hcs). set (o := c_freelist x) in *. rewrite Hoff. set (st' := set_cpus _ _).
  split; [|lia]. assert (near VA st st' s p c) as Hn by (unfold st'; nears).
  rewrite Ecl in *. assert (o ∈ objs VA (lay k) p ∧ o ∉ used g) as [Ho1 Ho2] by (apply S3; set_solver).
  apply NoDup_app in S2 as (S2 & S2' & S2''). apply NoDup_cons in S2'' as [S7 S8].
  exists (upd_ghost g p (fl g p) cs ({[o]} ∪ used g)). split_and!.
  - eapply (inv_near VA st st' g s (lay k) p cpu c x (set_c_freelist (load_bytes 8 (mem st) (o + offset (lay k))) x)); [done|done|]. split; try done; unfold st'; cbn [cpus pages mem set_cpus].
    + by rewrite lookup_insert_eq.
    + rewrite P2, bool_decide_eq_true_2 by by eexists. naive_solver.
    + split; try done.
      * apply NoDup_app. split_and!; [done| |done]. intros y Hy. specialize (S2' y Hy). set_solver.
      * intros y Hy. destruct (S3 y) as [Y1 Y2]; [set_solver|]. split; [done|]. assert (y ≠ o); [|set_solver].
        intros ->. apply elem_of_app in Hy as [Hy|Hy]; [|done]. by apply (S2' o Hy); left.
      * intros y Hy. destruct (S4 y Hy) as [Y|Y]; [left; set_solver|]. set_solver.
      * intros E. rewrite E in Ha. done.
    + intros n Hn'. exists n. pose proof (inv_node _ _ _ Hi s n Hn') as [G1 G2 G3 G4]. split_and!; [done..| |done]. rewrite G3. naive_solver.
    + apply own_mine; [done|done|done|by right].
    + intros y Hy. rewrite elem_of_union, elem_of_singleton. split; [intros [->|]; done|by right].
  - by eapply near_evolves.
  - right. by exists p, (lay k).
Qed.

Lemma slab_alloc_post gfp st g s k cpu c : slub_inv VA st g → caches st !! s = Some k → slot st s cpu = Some c →
  runs (slab_alloc VA cpu s gfp) (alloc_ok st g s gfp) st.
Proof using HVA H0.
  intros Hi Hk Hs. pose proof (lay_of_cache _ _ _ Hk) as Hl. destruct (inv_cpu _ _ _ Hi s _ cpu c Hs Hl) as (x & Hx & [C1 C2 C3]).
  unfold slab_alloc. cstep. eapply run_get_cpu_slab; [exact Hs|]. cbv beta. cstep. cstep. cstep.
  apply (run_mono _ (alloc_done st g s)).
  - destruct (Z.eqb_spec (c_freelist x) 0) as [Hf|Hf]; [by eapply __slab_alloc_post|].
    destruct (c_page x) as [p|] eqn:Hpx; [|done].
    destruct (fast_alloc_post st g s k p cpu c x Hi (inv_owns VA _ _ _ _ _ _ _ _ Hi Hk Hs Hx Hpx) Hf) as [Hd Hlow].
    cstep. apply run_load. { pose proof (lo_offset _ (inv_layout _ _ _ Hi _ _ Hl)). lia. } csteps. exact Hd.
  - intros r st1 (g1 & Hi1 & He1 & Hr). destruct Hr as [(-> & Hu & Hnone)|(p & l & Hr1 & Hr2 & Hr3 & Hr4 & Hr5)].
    { rewrite andb_false_r. cstep. apply run_when; [done|intros _]. cstep. exists g1. split; [done|]. split; [done|]. by left. }
    simplify_eq. assert (lay_of st1 s = Some (lay k)) as Hl1 by by rewrite (ev_lay _ _ _ _ _ _ He1).
    pose proof (inv_layout _ _ _ Hi1 _ _ Hl1) as Ho. pose proof (inv_ptr VA HVA _ _ _ _ _ _ Hi1 Hr3 Hl1 Hr5) as Hlow.
    cstep. apply run_when; intros Hz.
    + destruct (inv_cpu _ _ _ Hi1 s (lay k) cpu c) as (x1 & Hx1 & [D1 D2 D3]); [by rewrite (ev_slot _ _ _ _ _ _ He1)|done|].
      cstep. cstep. rewrite D2. apply run_memset; [lia|]. cstep.
      assert (∀ b, b < r ∨ r + size (lay k) ≤ b → memset_bytes r 0 (objsize (lay k)) (mem st1) b = mem st1 b) as Hm.
      { intros b Hb. apply memset_out. pose proof (lo_objsize _ Ho). lia. }
      exists g1. split; [eapply inv_write; try done; rewrite Hr2; set_solver|]. split.
      { eapply evolves_trans; [exact He1|]. by eapply write_evolves. }
      right. exists p, (lay k). split_and!; [done..|]. intros _ b Hb. cbn. by rewrite memset_in.
    + cstep. exists g1. split; [done|]. split; [done|]. right. exists p, (lay k). split_and!; [done..|].
      intros Hz'. rewrite Hz' in Hz. destruct (Z.eqb_spec r 0); [change PAGE_SIZE with 4096 in *; lia|done].
Qed.

(** ** [slab_free] *)

Definition free_ok st g (x : Z) st' : Prop :=
  ∃ g', slub_inv VA st' g' ∧ used g' = used g ∖ {[x]} ∧ evolves VA (used g ∖ {[x]}) st g st' g'.

Section free.
Context st g s k p cpu c y x (Hi : slub_inv VA st g) (Hk : caches st !! s = Some k) (Hp : slabs g !! p = Some s)
  (Hs : slot st s cpu = Some c) (Hy : cpus st !! c = Some y) (Hx : x ∈ objs VA (lay k) p) (Hu : x ∈ used g).

(** An object in use is on no list. *)
Local Lemma used_not_free : x ∉ fl g p ∧ x ∉ cl g p.
Proof using All.
  destruct (inv_slab _ _ _ Hi _ _ _ Hp (lay_of_cache _ _ _ Hk)) as [_ _ S3 _ _ _].
  split; intros Hf; (destruct (S3 x) as [_ Hn]; [apply elem_of_app; tauto|done]).
Qed.

(** The lists with the object on one of them. *)
Local Lemma push_lists f' c' : f' ++ c' ≡ₚ x :: fl g p ++ cl g p →
  NoDup (f' ++ c') ∧ (∀ z, z ∈ f' ++ c' → z ∈ objs VA (lay k) p ∧ z ∉ used g ∖ {[x]}) ∧
  (∀ z, z ∈ objs VA (lay k) p → z ∈ used g ∖ {[x]} ∨ z ∈ f' ++ c').
Proof using All.
  intros Hperm. destruct used_not_free as [N1 N2]. destruct (inv_slab _ _ _ Hi _ _ _ Hp (lay_of_cache _ _ _ Hk)) as [_ S2 S3 S4 _ _].
  split_and!.
  - rewrite Hperm. apply NoDup_cons. split; [|done]. rewrite elem_of_app. tauto.
  - intros z. rewrite Hperm, elem_of_cons. intros [->|Hz]; [set_solver|]. destruct (S3 z Hz). set_solver.
  - intros z Hz. rewrite Hperm, elem_of_cons. destruct (decide (z = x)) as [->|Hne]; [by right; left|].
    destruct (S4 z Hz); [left; set_solver|by right; right].
Qed.

Local Lemma stored_bytes v z : z ∈ used g ∖ {[x]} → z ∈ objs VA (lay k) p →
  same_bytes z (size (lay k)) (mem st) (store_bytes 8 (x + offset (lay k)) v (mem st)).
Proof using All.
  intros Hz Hz' b Hb. pose proof (inv_layout _ _ _ Hi _ _ (lay_of_cache _ _ _ Hk)) as Ho. eapply (store_obj VA (lay k) p); [done..|].
  destruct (objs_apart VA (lay k) p z x Ho Hz' Hx) as [F|F]; [set_solver|left; lia|right; lia].
Qed.

Local Lemma free_chain v a xs : (∀ z, z ∈ xs → z ∈ fl g p ++ cl g p) → chain (mem st) (offset (lay k)) a xs →
  chain (store_bytes 8 (x + offset (lay k)) v (mem st)) (offset (lay k)) a xs.
Proof using All.
  intros Hxs. destruct used_not_free as [N1 N2]. pose proof (inv_layout _ _ _ Hi _ _ (lay_of_cache _ _ _ Hk)) as Ho.
  eapply (chain_store_obj VA _ (lay k) p); [done|done| |].
  - intros z Hz. eapply (inv_free_objs VA); [done|done|by apply lay_of_cache|]. by apply Hxs.
  - intros Hz%Hxs. apply elem_of_app in Hz. tauto.
Qed.

Local Lemma free_push a xs : (∀ z, z ∈ xs → z ∈ fl g p ++ cl g p) → chain (mem st) (offset (lay k)) a xs →
  chain (store_bytes 8 (x + offset (lay k)) a (mem st)) (offset (lay k)) x (x :: xs).
Proof using All.
  intros Hxs. destruct used_not_free as [N1 N2]. pose proof (lay_of_cache _ _ _ Hk) as Hl. pose proof (inv_layout _ _ _ Hi _ _ Hl) as Ho.
  eapply (chain_push_obj VA _ (lay k) p); [done|by eapply (inv_ptr VA HVA)|done| |].
  - intros z Hz. eapply (inv_free_objs VA); [done..|]. by apply Hxs.
  - intros Hz%Hxs. apply elem_of_app in Hz. tauto.
Qed.

Local Lemma fast_free_ok : c_page y = Some p →
  free_ok st g x (set_cpus (<[c := set_c_freelist x y]> (cpus st)) (set_mem (store_bytes 8 (x + offset (lay k)) (c_freelist y) (mem st)) st)).
Proof using All.
  intros Hpy. pose proof (lay_of_cache _ _ _ Hk) as Hl. pose proof (inv_layout _ _ _ Hi _ _ Hl) as Ho.
  destruct (inv_owns VA _ _ _ _ _ _ _ _ Hi Hk Hs Hy Hpy) as [_ _ _ _ _ Ha Hoff Hch].
  pose proof (inv_slab _ _ _ Hi _ _ _ Hp Hl) as [S1 S2 S3 S4 S5 S6]. destruct (inv_page _ _ _ Hi p) as (P1 & P2 & _ & P4).
  destruct (push_lists (fl g p) (x :: cl g p)) as (L1 & L2 & L3); [by rewrite <-Permutation_middle|].
  set (st' := set_cpus _ _).
  assert (near VA st st' s p c) as Hn. { unfold st'. nears. intros b Hb. by eapply (store_slab VA (lay k) p). }
  exists (upd_ghost g p (fl g p) (x :: cl g p) (used g ∖ {[x]})). split_and!; [|done|].
  - eapply (inv_near VA st st' g s (lay k) p cpu c y (set_c_freelist x y)); [done|done|].
    split; try done; unfold st'; cbn [cpus pages mem set_cpus set_mem].
    + by rewrite lookup_insert_eq.
    + rewrite P2, bool_decide_eq_true_2 by by eexists. naive_solver.
    + split; try done; [|congruence]. apply free_chain; [|done]. intros z Hz. apply elem_of_app. by left.
    + intros n Hn'. exists n. pose proof (inv_node _ _ _ Hi s n Hn') as [G1 G2 G3 G4]. split_and!; [done..| |done]. rewrite G3. naive_solver.
    + apply own_mine; [done|done| |by right]. cbn. apply free_push; [|done]. intros z Hz. apply elem_of_app. by right.
    + intros z Hz. set_solver.
  - eapply near_evolves; [done..|]. intros z Hz Hz'. by apply stored_bytes.
Qed.

(** The object is on the list of the slab, which another processor may have. *)
Record pushed st2 n' : Prop := {
  pu_near c' : near VA st st2 s p c';
  pu_page : pages st2 p = set_inuse (pg_inuse (pages st p) - 1) (set_freelist x (pages st p));
  pu_mem : mem st2 = store_bytes 8 (x + offset (lay k)) (pg_freelist (pages st p)) (mem st);
  pu_cpus : cpus st2 = cpus st;
  pu_node : node_of st2 s = Some n' }.

Definition push_ghost : ghost := upd_ghost g p (x :: fl g p) (cl g p) (used g ∖ {[x]}).

Local Lemma pushed_inv st2 n' : c_page y ≠ Some p → pushed st2 n' →
  nr_partial n' = Z.of_nat (length (partial n')) → NoDup (partial n') → (∀ q, q ≠ p → q ∈ partial n' ↔ q ∈ partial (local_node k)) →
  (p ∈ partial n' ↔ pg_active (pages st p) = false) → nr_slabs n' = nr_slabs (local_node k) → slub_inv VA st2 push_ghost.
Proof using All.
  intros Hpy [U1 U2 U3 U4 U5] N1 N2 N3 N4 N5. pose proof (lay_of_cache _ _ _ Hk) as Hl. pose proof (inv_layout _ _ _ Hi _ _ Hl) as Ho.
  pose proof (inv_slab _ _ _ Hi _ _ _ Hp Hl) as [S1 S2 S3 S4 S5 S6]. destruct (inv_page _ _ _ Hi p) as (P1 & P2 & _ & P4).
  destruct (push_lists (x :: fl g p) (cl g p)) as (L1 & L2 & L3); [done|].
  pose proof (inv_ptr VA HVA _ _ _ _ _ _ Hi Hp Hl Hx) as Hlow.
  eapply (inv_near VA st st2 g s (lay k) p cpu c y y); [done|done|].
  split; try done; rewrite ?U2, ?U3, ?U4; cbn [pg_locked pg_slub pg_slab pg_active pg_freelist pg_inuse set_inuse set_freelist].
  - done.
  - rewrite P2, bool_decide_eq_true_2 by by eexists. naive_solver.
  - split; try done; cbn [pg_freelist pg_inuse set_inuse set_freelist].
    + apply free_push; [|done]. intros z Hz. apply elem_of_app. by left.
    + rewrite S5. cbn [length]. lia.
  - intros n Hn. rewrite (node_of_cache _ _ _ Hk) in Hn. simplify_eq. exists n'. rewrite U5. split_and!; [done..| |done].
    rewrite N4. change PAGE_SIZE with 4096 in *. split; [intros ?; split; [done|lia]|naive_solver].
  - destruct (pg_active (pages st p)) eqn:Ea.
    + apply own_theirs; [by rewrite U2|done|done|done|done|]. intros a Hc. rewrite U3. apply free_chain; [|done]. intros z Hz. apply elem_of_app. by right.
    + apply own_none; [by rewrite U2|by left].
  - intros z Hz. set_solver.
Qed.

Local Lemma pushed_evolves st2 n' : pushed st2 n' → evolves VA (used g ∖ {[x]}) st g st2 push_ghost.
Proof using All.
  intros [U1 U2 U3 U4 U5]. eapply (near_evolves VA _ _ _ _ _ _ _ cpu c); [done|done|by apply lay_of_cache|apply U1|done|].
  intros z Hz Hz'. rewrite U3. by apply stored_bytes.
Qed.

Local Lemma pushed_kept st2 n' : c_page y ≠ Some p → pushed st2 n' →
  nr_partial n' = Z.of_nat (length (partial n')) → NoDup (partial n') → (∀ q, q ≠ p → q ∈ partial n' ↔ q ∈ partial (local_node k)) →
  (p ∈ partial n' ↔ pg_active (pages st p) = false) → nr_slabs n' = nr_slabs (local_node k) → free_ok st g x st2.
Proof using All.
  intros Hpy Hpu N1 N2 N3 N4 N5. exists push_ghost. split_and!; [by eapply pushed_inv|done|by eapply pushed_evolves].
Qed.

(** The slab is empty and off the list. *)
Local Lemma pushed_gone st2 n' : c_page y ≠ Some p → pushed st2 n' → pg_active (pages st p) = false →
  pg_inuse (pages st p) = 1 → nr_partial n' = Z.of_nat (length (partial n')) → NoDup (partial n') →
  (∀ q, q ∈ partial n' ↔ q ∈ partial (local_node k) ∧ q ≠ p) → nr_slabs n' = nr_slabs (local_node k) →
  runs (discard_slab cpu s p) (λ _ st', free_ok st g x st') st2.
Proof using All.
  intros Hpy Hpu Hact Huse N1 N2 N3 N5. pose proof Hpu as [U1 U2 U3 U4 U5].
  pose proof (lay_of_cache _ _ _ Hk) as Hl. pose proof (inv_layout _ _ _ Hi _ _ Hl) as Ho. destruct (inv_page _ _ _ Hi p) as (P1 & P2 & _ & P4).
  set (n1 := mk_node (nr_partial n' + 1) (nr_slabs n') (p :: partial n')).
  assert (∃ k2, caches st2 !! s = Some k2) as (k2 & Hk2). { unfold node_of in U5. destruct (caches st2 !! s) as [k2|]; [by eexists|done]. }
  set (st3 := set_caches (<[s := set_node n1 k2]> (caches st2)) st2).
  assert (∀ c', near VA st2 st3 s p c') as Hn3 by (intros c'; unfold st3; nears).
  assert (pushed st3 n1) as Hpu3.
  { split; [intros c'; by eapply near_trans|done|done|done|]. unfold node_of, st3. cbn. by rewrite lookup_insert_eq. }
  assert (slub_inv VA st3 push_ghost) as Hi3.
  { eapply pushed_inv; [done|exact Hpu3|cbn; lia| | | |done].
    - cbn. apply NoDup_cons. split; [|done]. rewrite N3. tauto.
    - intros q Hq. cbn. rewrite elem_of_cons, N3. tauto.
    - cbn. rewrite Hact. set_solver. }
  assert (lay_of st3 s = Some (lay k)) as Hl3. { by rewrite (nr_lay _ _ _ _ _ _ (pu_near _ _ Hpu3 c)). }
  pose proof (inv_slab _ _ _ Hi3 p s (lay k) Hp Hl3) as Hsl. cbn [push_ghost upd_ghost fl cl used] in Hsl. rewrite !fn_lookup_insert in Hsl.
  assert (cl g p = []) as Ecl by by apply (inv_slab _ _ _ Hi _ _ _ Hp Hl). rewrite Ecl in Hsl.
  assert (∀ z, z ∈ objs VA (lay k) p → z ∉ used g ∖ {[x]}) as Hfree.
  { eapply all_free; [done|exact Hsl|]. rewrite (pu_page _ _ Hpu3). cbn. lia. }
  eapply run_mono; [eapply (discard_slab_post VA cpu st3 st2 push_ghost); [exact Hi3|exact Hp|exact Hl3|]|].
  - pose proof (Hn3 c) as N. split; try done.
    + rewrite U2. by cbn.
    + intros s'. by rewrite (nr_lay _ _ _ _ _ _ N).
    + intros s' cpu'. by rewrite (nr_slot _ _ _ _ _ _ N).
    + intros s' Hs'. by rewrite (nr_node _ _ _ _ _ _ N).
    + intros n Hn. rewrite (pu_node _ _ Hpu3) in Hn. injection Hn as <-.
      exists n'. split_and!; [done|done|done| |done]. intros q. cbn. rewrite elem_of_cons, N3. naive_solver.
  - intros ? st' Hsh. exists (drop_ghost push_ghost p). split_and!; [|done|].
    + eapply inv_shrink; [exact Hi3|exact Hp|exact Hl3|by rewrite (pu_page _ _ Hpu3)|exact Hfree|exact Hsh].
    + eapply evolves_trans; [by eapply pushed_evolves|]. by eapply shrink_evolves.
Qed.

Local Lemma used_counts : 1 ≤ pg_inuse (pages st p) < 2 ^ 31.
Proof using All.
  pose proof (lay_of_cache _ _ _ Hk) as Hl. pose proof (inv_layout _ _ _ Hi _ _ Hl) as Ho. pose proof (lo_objects _ Ho).
  destruct (inv_slab _ _ _ Hi _ _ _ Hp Hl) as [_ S2 S3 _ S5 _]. destruct used_not_free as [N1 _]. rewrite S5.
  assert (Z.of_nat (length (x :: fl g p)) ≤ objects (lay k)); [|cbn [length] in *; lia].
  rewrite <-(objs_length VA (lay k) p Ho). apply inj_le, submseteq_length, NoDup_submseteq.
  - apply NoDup_cons. split; [done|]. apply NoDup_app in S2. apply S2.
  - intros z [->|Hz]%elem_of_cons; [done|]. apply S3, elem_of_app. by left.
Qed.

(** The object has been written to the list of the slab, which is locked. *)
Record writing T : Prop := {
  wr_near c' : near VA st T s p c';
  wr_page : pages T p = set_inuse (pg_inuse (pages st p) - 1) (set_freelist x (set_locked true (pages st p)));
  wr_mem : mem T = store_bytes 8 (x + offset (lay k)) (pg_freelist (pages st p)) (mem st);
  wr_cpus : cpus T = cpus st;
  wr_cache : caches T !! s = Some k }.

(** The list of the cache is changed and the slab unlocked. *)
Local Lemma writing_pushed T n' : writing T → pushed (set_pages (<[p := set_locked false (pages T p)]> (pages T))
  (set_caches (<[s := set_node n' k]> (caches T)) T)) n'.
Proof using All.
  intros [W1 W2 W3 W4 W5]. destruct (inv_page _ _ _ Hi p) as (P1 & _). split; cbn.
  - intros c'. pose proof (W1 c'). nears.
  - rewrite fn_lookup_insert, W2. revert P1. by destruct (pages st p) as [[] ? ? ? ? ?].
  - done.
  - done.
  - unfold node_of. cbn. by rewrite lookup_insert_eq.
Qed.
Local Lemma writing_kept T : writing T → pushed (set_pages (<[p := set_locked false (pages T p)]> (pages T)) T) (local_node k).
Proof using All.
  intros [W1 W2 W3 W4 W5]. destruct (inv_page _ _ _ Hi p) as (P1 & _). split; cbn.
  - intros c'. pose proof (W1 c'). nears.
  - rewrite fn_lookup_insert, W2. revert P1. by destruct (pages st p) as [[] ? ? ? ? ?].
  - done.
  - done.
  - unfold node_of. cbn. by rewrite W5.
Qed.

Local Lemma writing_head T : writing T → head_page (source T) p = Some p.
Proof using All. intros [W1 _ _ _ _]. rewrite (nr_source _ _ _ _ _ _ (W1 c)). by eapply inv_head. Qed.

Local Lemma on_partial : p ∈ partial (local_node k) ↔ pg_active (pages st p) = false ∧ pg_freelist (pages st p) ≠ 0.
Proof using All. rewrite (no_partial _ _ _ _ (inv_node _ _ _ Hi s _ (node_of_cache _ _ _ Hk))). naive_solver. Qed.

(** The last object: the slab goes back to the page allocator. *)
Local Lemma free_empty T : c_page y ≠ Some p → writing T → pg_active (pages st p) = false → pg_inuse (pages st p) = 1 →
  runs (when (negb (pg_freelist (pages st p) =? 0)) (remove_partial s p);; slab_unlock p;; discard_slab cpu s p) (λ _ st', free_ok st g x st') T.
Proof using All.
  intros Hpy HT Ea E1. pose proof (wr_cache _ HT) as HkT. pose proof (node_of_cache _ _ _ Hk) as Hn.
  pose proof (inv_node _ _ _ Hi s _ Hn) as [G1 G2 G3 G4]. pose proof (inv_partial_bound VA _ _ _ _ Hi Hn) as Hb. unfold PFN_LIMIT in Hb.
  cstep. apply run_when; intros Ef.
  - assert (p ∈ partial (local_node k)) as Hin by (apply on_partial; by destruct (Z.eqb_spec (pg_freelist (pages st p)) 0)).
    unfold remove_partial. csteps. apply run_BUG_ON; [by rewrite bool_decide_eq_true_2|]. csteps. apply run_slab_unlock; [exact (writing_head T HT)|].
    pose proof (filter_length_one p (partial (local_node k)) G2 Hin) as Hlen.
    eapply pushed_gone; [done|exact (writing_pushed T _ HT)|done|done| | | |done]; cbn [nr_partial partial].
    + rewrite u64_small; lia.
    + by apply NoDup_filter.
    + intros q. rewrite list_elem_of_filter. tauto.
  - cstep. apply run_slab_unlock; [exact (writing_head T HT)|]. eapply pushed_gone; [done|exact (writing_kept T HT)|done|done|exact G1|exact G2| |done].
    intros q. split; [|tauto]. intros Hq. split; [done|]. intros ->. apply on_partial in Hq as [_ Hq]. by destruct (Z.eqb_spec (pg_freelist (pages st p)) 0).
Qed.

(** The slab stays, on the list of partial slabs. *)
Local Lemma free_partial T : c_page y ≠ Some p → writing T → pg_active (pages st p) = false →
  runs (when (pg_freelist (pages st p) =? 0) (add_partial_tail s p);; slab_unlock p) (λ _ st', free_ok st g x st') T.
Proof using All.
  intros Hpy HT Ea. pose proof (wr_cache _ HT) as HkT. pose proof (node_of_cache _ _ _ Hk) as Hn.
  pose proof (inv_node _ _ _ Hi s _ Hn) as [G1 G2 G3 G4]. pose proof (inv_partial_bound VA _ _ _ _ Hi Hn) as Hb. unfold PFN_LIMIT in Hb.
  cstep. apply run_when; intros Ef.
  - assert (p ∉ partial (local_node k)) as Hnp. { rewrite on_partial. intros [_ Hq]. by destruct (Z.eqb_spec (pg_freelist (pages st p)) 0). }
    unfold add_partial_tail. csteps. apply run_slab_unlock; [exact (writing_head T HT)|].
    eapply pushed_kept; [done|exact (writing_pushed T _ HT)| | | | |done]; cbn [nr_partial partial].
    + rewrite length_app, u64_small by lia. cbn. lia.
    + apply NoDup_app. split_and!; [done|set_solver|apply NoDup_singleton].
    + intros q Hq. set_solver.
    + rewrite Ea. set_solver.
  - apply run_slab_unlock; [exact (writing_head T HT)|]. eapply pushed_kept; [done|exact (writing_kept T HT)|exact G1|exact G2|done| |done].
    rewrite on_partial, Ea. split; [done|]. intros _. split; [done|]. by destruct (Z.eqb_spec (pg_freelist (pages st p)) 0).
Qed.

Lemma slab_free_post : runs (slab_free cpu s p x) (λ _ st', free_ok st g x st') st.
Proof using All.
  pose proof (lay_of_cache _ _ _ Hk) as Hl. pose proof (inv_layout _ _ _ Hi _ _ Hl) as Ho.
  destruct (inv_cpu _ _ _ Hi s _ cpu c Hs Hl) as (y' & Hy' & [Hoff _ _]). simplify_eq.
  pose proof (inv_ptr VA HVA _ _ _ _ _ _ Hi Hp Hl Hx) as Hlow. pose proof (lo_offset _ Ho) as Hoff0.
  unfold slab_free. cstep. eapply run_get_cpu_slab; [exact Hs|]. cbv beta. cstep. cstep. rewrite Hoff. case_decide as Hpy.
  { cstep. apply run_store; [lia|]. cstep. by apply fast_free_ok. }
  unfold __slab_free. replace (sizeof_ptr * c_offset y) with (offset (lay k)) by done.
  destruct (inv_page _ _ _ Hi p) as (P1 & P2 & _ & P4). pose proof (inv_head VA _ _ _ _ Hi Hp) as Hh. pose proof used_counts as Hcnt.
  cstep. apply run_slab_lock; [done|done|]. csteps. apply run_store; [lia|]. csteps.
  match goal with |- runs _ _ ?T0 => set (T := T0) end.
  assert (writing T) as HT.
  { unfold T. split; cbn; [|by rewrite !fn_lookup_insert, u32_small by (cbn; lia)|by rewrite fn_lookup_insert|done|done].
    intros c'. nears. intros b Hb'. rewrite fn_lookup_insert. by eapply (store_slab VA (lay k) p). }
  rewrite !fn_lookup_insert. cbn [pg_active pg_inuse pg_freelist set_inuse set_freelist set_locked]. rewrite u32_small by lia.
  destruct (pg_active (pages st p)) eqn:Ea.
  - apply run_slab_unlock; [exact (writing_head T HT)|]. pose proof (inv_node _ _ _ Hi s _ (node_of_cache _ _ _ Hk)) as [G1 G2 _ _].
    eapply pushed_kept; [done|exact (writing_kept T HT)|done|done|done| |done]. rewrite on_partial, Ea. naive_solver congruence.
  - destruct (Z.eqb_spec (pg_inuse (pages st p) - 1) 0) as [E0|E0]; [apply free_empty; try done; lia|by apply free_partial].
Qed.

End free.

End alloc.
