(* ===== verification/SlubSizes.v ===== *)
(** * The layout of a cache

    What [calculate_sizes] computes: an order that has room for the objects, and
    a layout that satisfies [layout_ok]. *)
From stdpp Require Import functions gmap.
From S2P Require Import Prelude BlockSource Slub SlubInv.

Lemma ALIGN_pow2 x e : 0 ≤ x < 2 ^ 40 → 0 ≤ e ≤ 40 →
  x ≤ ALIGN x (2 ^ e) < x + 2 ^ e ∧ (2 ^ e | ALIGN x (2 ^ e)).
Proof.
  intros Hx He. assert (0 < 2 ^ e ≤ 2 ^ 40) as Hp by (split; [lia|apply Z.pow_le_mono_r; lia]).
  assert (ALIGN x (2 ^ e) = round_down (x + (2 ^ e - 1)) (2 ^ e)) as ->.
  { unfold ALIGN, round_down, __round_mask. rewrite u64_small by lia. by rewrite (u64_small (2 ^ e - 1)) by lia. }
  rewrite round_down_pow2 by lia. pose proof (Z.div_mod (x + (2 ^ e - 1)) (2 ^ e)). pose proof (Z.mod_pos_bound (x + (2 ^ e - 1)) (2 ^ e)).
  split; [lia|]. apply Z.divide_factor_l.
Qed.

(** ** The order *)

Lemma slab_order_loop_spec fuel : ∀ order size n max fract, 0 ≤ order → max ≤ 11 → max + 1 - order ≤ Z.of_nat fuel →
  1 ≤ size → 1 ≤ n → n * size < 2 ^ 31 → 1 ≤ fract →
  ∃ o, slab_order_loop fuel order size n max fract = Some o ∧ order ≤ o ∧ (o ≤ max → n * size ≤ PAGE_SIZE * 2 ^ o).
Proof.
  induction fuel as [|fuel IH]; intros order size n max fract Ho Hm Hf Hs Hn Hns Hfr; cbn [slab_order_loop].
  { rewrite (proj2 (Z.leb_gt _ _)) by lia. exists order. split_and!; [done|lia|lia]. }
  destruct (Z.leb_spec order max) as [Hle|Hgt]; [|exists order; split_and!; [done|lia|lia]].
  destruct (IH (order + 1) size n max fract) as (o & Hrun & H1 & H2); [lia..|]. rewrite Hrun.
  assert (0 < 2 ^ order ≤ 2 ^ 11) as Hp by (split; [lia|apply Z.pow_le_mono_r; lia]).
  rewrite Z.shiftl_mul_pow2 by lia. assert (size ≤ n * size) by nia.
  rewrite (s32_small (n * size)), (u64_small (n * size)), (u64_small size), (u64_small (PAGE_SIZE * 2 ^ order)) by (change PAGE_SIZE with 4096; lia).
  destruct (Z.ltb_spec (PAGE_SIZE * 2 ^ order) (n * size)) as [Hlt|Hge]; [exists o; split_and!; [done|lia|done]|].
  rewrite (proj2 (Z.eqb_neq size 0)), (proj2 (Z.eqb_neq fract 0)) by lia. cbn [orb].
  case_match; [exists order; split_and!; [done|lia|lia]|]. exists o. split_and!; [done|lia|done].
Qed.

Lemma slab_order_spec size n max fract : 0 ≤ max ≤ 11 → 1 ≤ size → 1 ≤ n → n * size < 2 ^ 31 → 1 ≤ fract →
  ∃ o, slab_order size n max fract = Some o ∧ 0 ≤ o ∧ (o ≤ max → n * size ≤ PAGE_SIZE * 2 ^ o).
Proof.
  intros Hm Hs Hn Hns Hf. unfold slab_order, slub_min_order.
  destruct (slab_order_loop_spec (Z.to_nat (max + 1)) (Z.max 0 (fls (s32 (s32 (n * size) - 1)) - PAGE_SHIFT)) size n max fract) as (o & Hrun & H1 & H2); [lia..|].
  exists o. split_and!; [done|lia|done].
Qed.

(** With [fraction] 1 the first order that is large enough is taken. *)
Lemma slab_order_one size : 1 ≤ size ≤ PAGE_SIZE * 2 ^ 11 → ∃ o, slab_order size 1 11 1 = Some o ∧ 0 ≤ o ≤ 11 ∧ size ≤ PAGE_SIZE * 2 ^ o.
Proof.
  intros Hs. change (PAGE_SIZE * 2 ^ 11) with (2 ^ 23) in Hs. unfold slab_order, slub_min_order. rewrite Z.mul_1_l, (s32_small size), (s32_small (size - 1)) by lia.
  set (o := Z.max 0 (fls (size - 1) - PAGE_SHIFT)).
  assert (0 ≤ o ≤ 11 ∧ size ≤ PAGE_SIZE * 2 ^ o) as [H1 H2].
  { unfold o, fls. rewrite u32_small by lia. change PAGE_SHIFT with 12. change PAGE_SIZE with (2 ^ 12). destruct (Z.eqb_spec (size - 1) 0) as [E|E]; [cbn; lia|].
    pose proof (Z.log2_spec (size - 1) ltac:(lia)) as [L1 L2]. pose proof (Z.log2_nonneg (size - 1)) as L0.
    assert (Z.log2 (size - 1) < 23) by (apply Z.log2_lt_pow2; lia).
    split; [lia|]. rewrite <-Z.pow_add_r by lia.
    assert (2 ^ (Z.log2 (size - 1) + 1) ≤ 2 ^ (12 + Z.max 0 (Z.log2 (size - 1) + 1 - 12))); [apply Z.pow_le_mono_r; lia|]. lia. }
  exists o. split; [|done]. destruct (Z.to_nat (11 + 1)) as [|fuel] eqn:Ef; [done|]. clear Ef. cbn [slab_order_loop].
  rewrite (proj2 (Z.leb_le o 11)) by lia. rewrite Z.shiftl_mul_pow2 by lia. assert (0 < 2 ^ o ≤ 2 ^ 11) as Hp by (split; [lia|apply Z.pow_le_mono_r; lia]).
  rewrite Z.mul_1_l, (s32_small size), (u64_small size), (u64_small (PAGE_SIZE * 2 ^ o)) by (change PAGE_SIZE with 4096; lia).
  rewrite (proj2 (Z.ltb_ge _ _)) by lia. rewrite (proj2 (Z.eqb_neq size 0)) by lia. cbn [orb].
  pose proof (Z.mod_pos_bound (PAGE_SIZE * 2 ^ o) size ltac:(lia)) as Hmod. change (1 =? 0) with false. cbv iota.
  rewrite s32_small, u64_small, Z.div_1_r by lia.
  rewrite (proj2 (Z.leb_le _ _)); [done|]. lia.
Qed.

Lemma calculate_order_spec size : 1 ≤ size ≤ PAGE_SIZE * 2 ^ 11 → ∃ o, calculate_order size = Some o ∧ 0 ≤ o ≤ 11 ∧ size ≤ PAGE_SIZE * 2 ^ o.
Proof.
  intros Hs. assert (PAGE_SIZE * 2 ^ 11 = 2 ^ 23) as Hpow by done.
  assert (∀ n fract, 1 ≤ n ≤ 4 → 1 ≤ fract → ∃ o, slab_order size n slub_max_order fract = Some o ∧ 0 ≤ o ∧ (o ≤ slub_max_order → size ≤ PAGE_SIZE * 2 ^ o)) as Hso.
  { intros n fract Hn Hf. destruct (slab_order_spec size n slub_max_order fract) as (o & H1 & H2 & H3); [unfold slub_max_order; lia|lia|lia|nia|lia|].
    exists o. split_and!; [done..|]. intros Ho. specialize (H3 Ho). nia. }
  assert (∀ n, 1 ≤ n ≤ 4 → ∃ r, try_fractions size n = Some r ∧ ∀ o, r = Some o → 0 ≤ o ≤ 11 ∧ size ≤ PAGE_SIZE * 2 ^ o) as Htry.
  { intros n Hn. unfold try_fractions. destruct (Hso n 8 Hn ltac:(lia)) as (o1 & -> & H1 & H2). cbn [mbind option_bind].
    destruct (Z.leb_spec o1 slub_max_order); [eexists; split; [done|]; intros o [= <-]; unfold slub_max_order in *; split; [lia|by apply H2]|].
    destruct (Hso n 4 Hn ltac:(lia)) as (o2 & -> & H3 & H4). cbn [mbind option_bind].
    destruct (Z.leb_spec o2 slub_max_order); eexists; (split; [done|]); [intros o [= <-]; unfold slub_max_order in *; split; [lia|by apply H4]|done]. }
  unfold calculate_order. cbn [calculate_order_loop]. change (slub_min_objects >? 1) with true. cbv iota.
  destruct (Htry slub_min_objects) as (r1 & -> & Hr1); [unfold slub_min_objects; lia|]. cbn [mbind option_bind].
  destruct r1 as [o|]; [exists o; split; [done|by apply Hr1]|]. change (slub_min_objects / 2 >? 1) with true. cbv iota.
  destruct (Htry (slub_min_objects / 2)) as (r2 & -> & Hr2); [split; vm_compute; discriminate|]. cbn [mbind option_bind].
  destruct r2 as [o|]; [exists o; split; [done|by apply Hr2]|]. change (slub_min_objects / 2 / 2 >? 1) with false. cbv iota. cbn [mbind option_bind].
  destruct (Hso 1 1) as (o1 & -> & H1 & H2); [lia..|]. cbn [mbind option_bind].
  destruct (Z.leb_spec o1 slub_max_order); [exists o1; split; [done|]; unfold slub_max_order in *; split; [lia|by apply H2]|].
  destruct (slab_order_one size Hs) as (o2 & E & H3 & H4). unfold SLUB_MAX_ORDER. rewrite E. cbn [mbind option_bind].
  rewrite (proj2 (Z.leb_le o2 11)) by lia. by exists o2.
Qed.

(** ** Alignment *)

Definition pow2_between (lo hi x : Z) : Prop := ∃ e, lo ≤ e ≤ hi ∧ x = 2 ^ e.

Lemma pow2_le e f : 0 ≤ e → 0 ≤ f → 2 ^ e ≤ 2 ^ f → e ≤ f.
Proof. intros He Hf Hle. destruct (Z.le_gt_cases e f) as [|Hlt]; [done|]. pose proof (Z.pow_lt_mono_r 2 f e). lia. Qed.

Lemma calculate_alignment_spec cache_line flags align size : pow2_between 3 20 cache_line → align = 0 ∨ pow2_between 0 20 align →
  pow2_between 3 20 (calculate_alignment cache_line flags align size) ∧ align ≤ calculate_alignment cache_line flags align size.
Proof.
  intros (c & Hc & ->) Ha. unfold calculate_alignment, ARCH_SLAB_MINALIGN, sizeof_ptr.
  assert (8 ≤ 2 ^ c ≤ 2 ^ 20) as Hcb by (change 8 with (2 ^ 3); split; apply Z.pow_le_mono_r; lia).
  case_match.
  - rewrite u64_small by lia. split; [|lia]. destruct Ha as [->|(a & Ha & ->)]; [exists c; split; [lia|]; lia|].
    destruct (Z.max_spec (2 ^ a) (2 ^ c)) as [[H1 ->]|[H1 ->]]; [by exists c|]. exists a. split; [|done]. split; [|lia].
    apply pow2_le in H1; lia.
  - destruct (Z.ltb_spec align 8) as [Hlt|Hge]; [split; [exists 3; split; [lia|done]|lia]|].
    destruct Ha as [->|(a & Ha & ->)]; [lia|]. assert (3 ≤ a) as Ha3 by (apply pow2_le; [lia..|]; done).
    assert (2 ^ a ≤ 2 ^ 20) as Hab by (apply Z.pow_le_mono_r; lia).
    destruct (ALIGN_pow2 (2 ^ a) 3) as [H1 [k Hk]]; [lia..|]. change (2 ^ 3) with 8 in *.
    assert (ALIGN (2 ^ a) 8 = 2 ^ a) as ->; [|split; [exists a; split; [lia|done]|lia]].
    assert (2 ^ a = 2 ^ (a - 3) * 8) as Hs by (change 8 with (2 ^ 3); rewrite <-Z.pow_add_r by lia; f_equal; lia). lia.
Qed.

(** ** [calculate_sizes] *)

(** What a caller asks for. *)
Record asked (l : layout) : Prop := {
  as_objsize : 1 ≤ objsize l ≤ 2 ^ 22;
  as_align : align l = 0 ∨ pow2_between 0 20 (align l);
  as_offset : offset l = 0;
  as_ctor : ∀ f, ctor l = Some f → ∀ x m b, b < x ∨ x + objsize l ≤ b → f x m b = m b }.

Lemma calculate_sizes_spec cache_line l : pow2_between 3 20 cache_line → asked l →
  ∃ l', calculate_sizes cache_line l = Some (l', true) ∧ layout_ok l' ∧ objsize l' = objsize l ∧ ctor l' = ctor l ∧
    (align l ≠ 0 → (align l | size l')) ∧ (is_Some (ctor l) → objsize l ≤ offset l').
Proof.
  intros Hcl [A1 A2 A3 A4]. unfold calculate_sizes.
  assert (0 ≤ align l ≤ 2 ^ 20) as Hal.
  { destruct A2 as [->|(e & He & ->)]; [lia|]. split; [lia|]. apply Z.pow_le_mono_r; lia. }
  rewrite (u64_small (objsize l)), (u64_small (align l)) by lia.
  destruct (calculate_alignment_spec cache_line (flags l) (align l) (objsize l) Hcl A2) as [(e & He & Ee) Hle]. rewrite Ee in *.
  set (sz0 := ALIGN (objsize l) sizeof_ptr).
  destruct (ALIGN_pow2 (objsize l) 3) as [B1 B2]; [lia..|]. change (2 ^ 3) with sizeof_ptr in B1, B2. fold sz0 in B1, B2. unfold sizeof_ptr in B1.
  set (moved := has (flags l) SLAB_POISON || bool_decide (is_Some (ctor l))).
  set (sz1 := if moved then u64 (sz0 + sizeof_ptr) else sz0).
  assert (sz0 ≤ sz1 ≤ sz0 + 8 ∧ (moved = true → sz1 = sz0 + 8)) as [C1 C2].
  { unfold sz1, sizeof_ptr. destruct moved; [rewrite u64_small by lia|]; split; [lia|done|lia|done]. }
  destruct (ALIGN_pow2 sz1 e) as [D1 D2]; [lia..|]. set (sz := ALIGN sz1 (2 ^ e)) in *.
  assert (8 ≤ 2 ^ e ≤ 2 ^ 20) as Heb by (change 8 with (2 ^ 3); split; apply Z.pow_le_mono_r; lia).
  assert (8 | sz) as D3. { etransitivity; [|exact D2]. change 8 with (2 ^ 3). exists (2 ^ (e - 3)). rewrite <-Z.pow_add_r by lia. f_equal. lia. }
  assert (8 ≤ sz < 2 ^ 23) as Hsz. { split; [|lia]. destruct D3 as [q Hq]. lia. }
  destruct (calculate_order_spec sz) as (o & Ho & Ho1 & Ho2); [change (PAGE_SIZE * 2 ^ 11) with (2 ^ 23); lia|].
  rewrite (s32_small sz) by lia. rewrite Ho. cbn [mbind option_bind]. rewrite (proj2 (Z.ltb_ge o 0)) by lia.
  rewrite (proj2 (Z.eqb_neq sz 0)) by lia. rewrite Z.shiftl_mul_pow2 by lia.
  assert (0 < 2 ^ o ≤ 2 ^ 11) as Hp by (split; [lia|apply Z.pow_le_mono_r; lia]). change PAGE_SIZE with 4096 in *.
  rewrite (u64_small (4096 * 2 ^ o)) by lia.
  assert (1 ≤ 4096 * 2 ^ o / sz) as F1 by (apply Z.div_le_lower_bound; lia).
  pose proof (Z.mul_div_le (4096 * 2 ^ o) sz ltac:(lia)) as F2.
  assert (4096 * 2 ^ o / sz ≤ 4096 * 2 ^ o) as F3 by (apply Z.div_le_upper_bound; nia).
  rewrite (s32_small (4096 * 2 ^ o / sz)) by lia. rewrite (proj2 (Z.eqb_neq _ 0)) by lia. cbn [negb].
  eexists. split; [done|]. rewrite (s32_small sz0) by lia.
  assert (moved = true ∨ moved = false) as [Em|Em] by (destruct moved; tauto).
  all: rewrite Em in *; split; [split; cbn|]; cbn.
  all: try solve [lia | done | change 4096 with PAGE_SIZE; lia | rewrite A3; lia | rewrite A3; apply Z.divide_0_r].
  all: try solve [split_and!; [done|done| |]; [intros Hn; destruct A2 as [?|(a & Ha & Ea)]; [done|]; rewrite Ea in *; etransitivity; [|exact D2];
    exists (2 ^ (e - a)); rewrite <-Z.pow_add_r; [f_equal; lia|apply pow2_le in Hle; lia|lia]|]; [lia || (intros Hc; unfold moved in Em; rewrite bool_decide_eq_true_2 in Em by done; by rewrite orb_true_r in Em)]].
  all: change PAGE_SIZE with 4096; lia.
Qed.
