(* ===== verification/SlubInit.v ===== *)
(** * Creating caches

    [kmem_cache_open] adds an empty cache to a state that satisfies the
    invariant; [kmem_cache_init] builds the caches of [kmalloc] from nothing. *)
From stdpp Require Import functions gmap.
From S2P Require Import Prelude Command BlockSource Slub SlubInv SlubStep SlubOps SlubSizes.

(** The structures that are free in the static array of a processor. *)
Fixpoint pool_chain (m : gmap cpu_ptr kmem_cache_cpu) (a : option cpu_ptr) (l : list cpu_ptr) : Prop :=
  match l with
  | [] => a = None
  | c :: l => a = Some c ∧ ∃ x, m !! c = Some x ∧ pool_chain m (c_link x) l
  end.

Lemma pool_chain_same m m' a l : (∀ c, c ∈ l → m' !! c = m !! c) → pool_chain m a l → pool_chain m' a l.
Proof.
  revert a. induction l as [|c l IH]; intros a Hs; cbn [pool_chain]; [done|]. intros (-> & x & Hx & Hc). split; [done|].
  exists x. split; [by rewrite Hs by by left|]. apply IH; [|done]. intros c' Hc'. apply Hs. by right.
Qed.

Section boot.
Context {A : Type} `{BlockSourceLaws A} (VA : Z).
Implicit Types (st : slub (A := A)) (g : ghost).

Record pool_ok st (P : nat → list cpu_ptr) : Prop := {
  po_chain cpu : pool_chain (cpus st) (cpu_free st cpu) (P cpu);
  po_nodup cpu : NoDup (P cpu);
  po_mine cpu c : c ∈ P cpu → ∃ i, c = Pool cpu i;
  po_free cpu c s cpu' : c ∈ P cpu → slot st s cpu' ≠ Some c }.

Lemma pool_ok_ext st P P' : (∀ cpu, P' cpu = P cpu) → pool_ok st P → pool_ok st P'.
Proof. intros E [P1 P2 P3 P4]. split; intros cpu *; rewrite E; eauto. Qed.

(** ** Changes outside the slabs *)

(** The invariant looks at a cache through its layout, its list and its slots. *)
Lemma inv_ext st st' g : slub_inv VA st g → source st' = source st → mem st' = mem st → pages st' = pages st →
  (∀ s, lay_of st' s = lay_of st s) → (∀ s, node_of st' s = node_of st s) → (∀ s cpu, slot st' s cpu = slot st s cpu) →
  (∀ s cpu c, slot st s cpu = Some c → cpus st' !! c = cpus st !! c) → slub_inv VA st' g.
Proof.
  intros [I1 I2 I3 I4 I5 I6 I7 I8 I9 I10 I11] E1 E2 E3 E4 E5 E6 E7. split.
  - by rewrite E1.
  - intros p s Hp. rewrite E1. setoid_rewrite E4. by apply I2.
  - intros p. rewrite E3. apply I3.
  - intros s l. rewrite E4. apply I4.
  - intros p s l Hp. rewrite E2, E3, E4. by apply I5.
  - intros s n. rewrite E3, E5. apply I6.
  - intros s l cpu c. rewrite E4, E6. intros Hs Hl. destruct (I7 s l cpu c Hs Hl) as (x & Hx & [C1 C2 C3]). exists x.
    rewrite (E7 s cpu c Hs). split; [done|]. split; [done..|]. by rewrite E2, E3.
  - intros s cpu s' cpu' c. rewrite !E6. apply I8.
  - intros p s Hp. rewrite E3. intros Ha. destruct (I9 p s Hp Ha) as (cpu & c & x & Hs & Hx & Hpg). exists cpu, c, x. rewrite E6.
    split_and!; [done|by rewrite (E7 s cpu c Hs)|done].
  - intros s cpu c x s' cpu' c' x' p. rewrite !E6. intros Hs Hx Hp Hs' Hx' Hp'. rewrite (E7 s cpu c Hs) in Hx. rewrite (E7 s' cpu' c' Hs') in Hx'.
    by eapply (I10 s cpu c x s' cpu' c' x' p).
  - intros x. setoid_rewrite E4. apply I11.
Qed.

(** An empty cache is added. *)
Lemma inv_add_cache st g s k : slub_inv VA st g → caches st !! s = None → layout_ok (lay k) → local_node k = init_kmem_cache_node →
  cpu_slab k = replicate NR_CPUS None → slub_inv VA (set_caches (<[s := k]> (caches st)) st) g.
Proof.
  intros Hi Hs Hl Hn Hc. pose proof Hi as [I1 I2 I3 I4 I5 I6 I7 I8 I9 I10 I11].
  assert (∀ s', s' ≠ s → lay_of (set_caches (<[s := k]> (caches st)) st) s' = lay_of st s' ∧
    node_of (set_caches (<[s := k]> (caches st)) st) s' = node_of st s' ∧ ∀ cpu, slot (set_caches (<[s := k]> (caches st)) st) s' cpu = slot st s' cpu) as Hne.
  { intros s' Hs'. unfold lay_of, node_of, slot. cbn. by rewrite lookup_insert_ne. }
  assert (∀ s' cpu, slot (set_caches (<[s := k]> (caches st)) st) s' cpu = slot st s' cpu) as Hslot.
  { intros s' cpu. destruct (decide (s' = s)) as [->|Hs']; [|by apply Hne]. unfold slot. cbn. rewrite lookup_insert_eq, Hs. cbn. rewrite Hc.
    destruct (replicate NR_CPUS None !! cpu) as [o|] eqn:E; [|done]. apply lookup_replicate in E as [-> _]. done. }
  assert (∀ p s', slabs g !! p = Some s' → s' ≠ s) as Hg.
  { intros p s' Hp ->. destruct (I2 p s Hp) as (l & E & _). unfold lay_of in E. by rewrite Hs in E. }
  assert (∀ s' cpu c, slot st s' cpu = Some c → s' ≠ s) as Hsl. { intros s' cpu c E ->. unfold slot in E. by rewrite Hs in E. }
  split; try done.
  - intros p s' Hp. destruct (Hne s' (Hg p s' Hp)) as [E _]. rewrite E. by apply I2.
  - intros s' l. destruct (decide (s' = s)) as [->|Hs'].
    + unfold lay_of. cbn. rewrite lookup_insert_eq. by intros [= <-].
    + destruct (Hne s' Hs') as [E _]. rewrite E. apply I4.
  - intros p s' l Hp. destruct (Hne s' (Hg p s' Hp)) as [E _]. rewrite E. by apply I5.
  - intros s' n. destruct (decide (s' = s)) as [->|Hs'].
    + unfold node_of. cbn. rewrite lookup_insert_eq. intros [= <-]. rewrite Hn. split; cbn.
      * done.
      * apply NoDup_nil_2.
      * intros p. split; [by intros ?%elem_of_nil|]. intros (Hp & _). by destruct (Hg p s Hp).
      * assert (filter (λ x : Z * cache_ptr, x.2 = s) (slabs g) = ∅) as ->; [|done].
        apply map_empty. intros p. apply map_lookup_filter_None. right. intros s' Hp E. cbn in E. subst s'. by destruct (Hg p s Hp).
    + destruct (Hne s' Hs') as (_ & E & _). rewrite E. apply I6.
  - intros s' l cpu c. rewrite Hslot. intros E. destruct (Hne s' (Hsl _ _ _ E)) as [E' _]. rewrite E'. intros Hl'.
    destruct (I7 s' l cpu c E Hl') as (x & Hx & [C1 C2 C3]). exists x. split; [done|]. by split.
  - intros s1 cpu1 s2 cpu2 c. rewrite !Hslot. apply I8.
  - intros p s' Hp Ha. setoid_rewrite Hslot. by apply I9.
  - intros s1 cpu1 c1 x1 s2 cpu2 c2 x2 p. rewrite !Hslot. apply I10.
  - intros x Hx. destruct (I11 x Hx) as (p & s' & l & Hp & Hl' & Hx'). exists p, s', l. destruct (Hne s' (Hg p s' Hp)) as [E _]. by rewrite E.
Qed.

(** A structure that nobody has becomes the slot of a processor. *)
Lemma inv_add_slot st g s k cpu c x : slub_inv VA st g → caches st !! s = Some k → cpu_slab k !! cpu = Some None →
  (∀ s' cpu', slot st s' cpu' ≠ Some c) → sizeof_ptr * c_offset x = offset (lay k) → c_objsize x = objsize (lay k) → c_page x = None → c_freelist x = 0 →
  slub_inv VA (set_caches (<[s := set_cpu_slab (<[cpu := Some c]> (cpu_slab k)) k]> (caches st)) (set_cpus (<[c := x]> (cpus st)) st)) g.
Proof.
  intros Hi Hk Hcpu Hfree H1 H2 H3 H4. set (st' := set_caches _ _). pose proof Hi as [I1 I2 I3 I4 I5 I6 I7 I8 I9 I10 I11].
  assert (∀ s', lay_of st' s' = lay_of st s' ∧ node_of st' s' = node_of st s') as Hsame.
  { intros s'. unfold lay_of, node_of, st'. cbn. destruct (decide (s' = s)) as [->|Hs']; [by rewrite lookup_insert_eq, Hk|by rewrite lookup_insert_ne]. }
  assert (∀ s' cpu', slot st' s' cpu' = if decide (s' = s ∧ cpu' = cpu) then Some c else slot st s' cpu') as Hslot.
  { intros s' cpu'. unfold slot, st'. cbn. destruct (decide (s' = s)) as [->|Hs'].
    - rewrite lookup_insert_eq, Hk. cbn. destruct (decide (cpu' = cpu)) as [->|Hc'].
      + rewrite list_lookup_insert_eq by by eapply lookup_lt_Some. by rewrite decide_True.
      + rewrite list_lookup_insert_ne by done. by rewrite decide_False by naive_solver.
    - rewrite lookup_insert_ne by done. by rewrite decide_False by naive_solver. }
  assert (∀ s' cpu' c', slot st s' cpu' = Some c' → cpus st' !! c' = cpus st !! c') as Hcp.
  { intros s' cpu' c' E. unfold st'. cbn. rewrite lookup_insert_ne; [done|]. intros <-. by eapply Hfree. }
  assert (cpus st' !! c = Some x) as Hx by (unfold st'; cbn; by rewrite lookup_insert_eq).
  assert (slot st s cpu = None) as Hnone by (unfold slot; rewrite Hk; cbn; by rewrite Hcpu).
  split; try done.
  - intros p s' Hp. rewrite (proj1 (Hsame s')). by apply I2.
  - intros s' l. rewrite (proj1 (Hsame s')). apply I4.
  - intros p s' l Hp. rewrite (proj1 (Hsame s')). by apply I5.
  - intros s' n. rewrite (proj2 (Hsame s')). apply I6.
  - intros s' l cpu' c'. rewrite Hslot, (proj1 (Hsame s')). case_decide as E.
    + destruct E as [-> ->]. intros [= <-] Hl. unfold lay_of in Hl. rewrite Hk in Hl. injection Hl as <-. exists x. split; [done|]. split; [done..|]. by rewrite H3.
    + intros Hs' Hl. rewrite (Hcp _ _ _ Hs'). destruct (I7 s' l cpu' c' Hs' Hl) as (y & Hy & [C1 C2 C3]). exists y. split; [done|]. by split.
  - intros s1 cpu1 s2 cpu2 c'. rewrite !Hslot. repeat case_decide; destruct_and?; subst; try done.
    + intros [= <-] E. by destruct (Hfree s2 cpu2).
    + intros E [= <-]. by destruct (Hfree s1 cpu1).
    + apply I8.
  - intros p s' Hp Ha. destruct (I9 p s' Hp Ha) as (cpu' & c' & y & E1 & E2 & E3). exists cpu', c', y. rewrite Hslot.
    rewrite decide_False by (intros [-> ->]; congruence). split_and!; [done|by rewrite (Hcp _ _ _ E1)|done].
  - intros s1 cpu1 c1 x1 s2 cpu2 c2 x2 p. rewrite !Hslot. intros F1 F2 F3 F4 F5 F6.
    destruct (decide (s1 = s ∧ cpu1 = cpu)) as [D1|D1]; [destruct D1 as [-> ->]; injection F1 as <-; rewrite Hx in F2; injection F2 as <-; congruence|].
    destruct (decide (s2 = s ∧ cpu2 = cpu)) as [D2|D2]; [destruct D2 as [-> ->]; injection F4 as <-; rewrite Hx in F5; injection F5 as <-; congruence|].
    rewrite (Hcp _ _ _ F1) in F2. rewrite (Hcp _ _ _ F4) in F5. by eapply (I10 s1 cpu1 c1 x1 s2 cpu2 c2 x2 p).
  - intros y Hy. destruct (I11 y Hy) as (p & s' & l & Hp & Hl' & Hx'). exists p, s', l. by rewrite (proj1 (Hsame s')).
Qed.

(** ** The structures of the processors *)

(** What opening a cache leaves alone. *)
Record opened st st' (s : cache_ptr) : Prop := {
  op_caches s' : s' ≠ s → caches st' !! s' = caches st !! s';
  op_same : (mem st', pages st', source st', slab_caches st', cpu_free_init st', size_index st') =
            (mem st, pages st, source st, slab_caches st, cpu_free_init st, size_index st) }.

Lemma opened_trans st st' st'' s : opened st st' s → opened st' st'' s → opened st st'' s.
Proof.
  intros [H1 H2] [H3 H4]. split; [|congruence]. intros s' Hs'. by rewrite H3, H1.
Qed.

Lemma opened_slot st st' s s' cpu : opened st st' s → s' ≠ s → slot st' s' cpu = slot st s' cpu.
Proof. intros Ho Hs. unfold slot. by rewrite (op_caches _ _ _ Ho s' Hs). Qed.
Lemma opened_lay st st' s s' : opened st st' s → s' ≠ s → lay_of st' s' = lay_of st s'.
Proof. intros Ho Hs. unfold lay_of. by rewrite (op_caches _ _ _ Ho s' Hs). Qed.

Context (cache_line : Z) (online : list nat).

(** The first structure of the array of [cpu] is taken. *)
Definition take_pool (P : nat → list cpu_ptr) (cpu : nat) : nat → list cpu_ptr := <[cpu := tail (P cpu)]> P.

(** One turn of [alloc_kmem_cache_cpus] with a structure in the array. *)
Definition with_cpu st (s : cache_ptr) (k : kmem_cache) (cpu : nat) (c : cpu_ptr) (link : option cpu_ptr) : slub (A := A) :=
  set_caches (<[s := set_cpu_slab (<[cpu := Some c]> (cpu_slab k)) k]> (caches st))
    (set_cpus (<[c := mk_cpu 0 None (u32 (offset (lay k) / sizeof_ptr)) (u32 (objsize (lay k))) None]> (cpus st))
      (set_cpu_free (<[cpu := link]> (cpu_free st)) st)).

Lemma with_cpu_inv st g s k cpu c link : slub_inv VA st g → caches st !! s = Some k → cpu_slab k !! cpu = Some None →
  (∀ s' cpu', slot st s' cpu' ≠ Some c) → slub_inv VA (with_cpu st s k cpu c link) g.
Proof.
  intros Hi Hk Hc Hf. pose proof (inv_layout _ _ _ Hi s (lay k) (lay_of_cache _ _ _ Hk)) as Ho.
  pose proof (lo_size _ Ho). pose proof (lo_offset _ Ho). pose proof (lo_fits _ Ho). pose proof (lo_objsize _ Ho).
  destruct (lo_offset_word _ Ho) as [w Hw]. unfold with_cpu.
  eapply inv_ext; [eapply (inv_add_slot st g s k cpu c (mk_cpu 0 None (u32 (offset (lay k) / sizeof_ptr)) (u32 (objsize (lay k))) None)); try done|done..].
  - cbn. rewrite Hw, Z.div_mul, u32_small by (unfold sizeof_ptr; lia). unfold sizeof_ptr. lia.
  - cbn. rewrite u32_small; lia.
Qed.

Lemma with_cpu_pool st P s k cpu c l x : pool_ok st P → caches st !! s = Some k → (cpu < length (cpu_slab k))%nat → P cpu = c :: l →
  cpus st !! c = Some x → pool_chain (cpus st) (c_link x) l → pool_ok (with_cpu st s k cpu c (c_link x)) (take_pool P cpu).
Proof.
  intros [P1 P2 P3 P4] Hk Hcpu HP Hx Hl. pose proof (P2 cpu) as Hnd. rewrite HP in Hnd. apply NoDup_cons in Hnd as [Hc Hnd].
  destruct (P3 cpu c) as [i Hci]; [rewrite HP; by left|].
  assert (∀ cpu', take_pool P cpu cpu' = if decide (cpu' = cpu) then l else P cpu') as HT.
  { intros cpu'. unfold take_pool. case_decide; [subst cpu'; by rewrite fn_lookup_insert, HP|by rewrite fn_lookup_insert_ne]. }
  assert (∀ cpu', c ∉ take_pool P cpu cpu') as Hnot.
  { intros cpu'. rewrite HT. case_decide as E; [done|]. intros (j & Ej)%P3. congruence. }
  split.
  - intros cpu'. apply (pool_chain_same (cpus st)).
    + intros c' Hc'. cbn. rewrite lookup_insert_ne; [done|]. intros ->. by eapply Hnot.
    + cbn. rewrite HT. case_decide; [subst cpu'; by rewrite fn_lookup_insert|by rewrite fn_lookup_insert_ne].
  - intros cpu'. rewrite HT. by case_decide.
  - intros cpu' c'. rewrite HT. case_decide; [subst cpu'; intros Hc'; apply P3; rewrite HP; by right|apply P3].
  - intros cpu' c' s' cpu2 Hc' Hs'. assert (c' ≠ c) as Hne by (intros ->; by eapply Hnot).
    assert (c' ∈ P cpu') as Hin. { rewrite HT in Hc'. case_decide; [subst cpu'; rewrite HP; by right|done]. }
    apply (P4 cpu' c' s' cpu2 Hin). revert Hs'. unfold slot. cbn. destruct (decide (s' = s)) as [->|Hs']; [|by rewrite lookup_insert_ne].
    rewrite lookup_insert_eq, Hk. cbn. destruct (decide (cpu2 = cpu)) as [->|]; [rewrite list_lookup_insert_eq by done; cbn; congruence|].
    by rewrite list_lookup_insert_ne.
Qed.

Lemma alloc_cpus_post me s gfp : ∀ l st g P k, NoDup l → (∀ cpu, cpu ∈ l → P cpu ≠ [] ∧ cpu_slab k !! cpu = Some None) →
  slub_inv VA st g → pool_ok st P → caches st !! s = Some k →
  runs (alloc_kmem_cache_cpus_loop VA online cache_line me s gfp l) (λ r st', r = true ∧ slub_inv VA st' g ∧ opened st st' s ∧
    lay_of st' s = Some (lay k) ∧ (∀ cpu, cpu ∈ l → is_Some (slot st' s cpu)) ∧ (∀ cpu, cpu ∉ l → slot st' s cpu = slot st s cpu) ∧
    pool_ok st' (foldl take_pool P l)) st.
Proof.
  induction l as [|cpu l IH]; intros st g P k Hnd Hl Hi HP Hk; cbn [alloc_kmem_cache_cpus_loop].
  { cstep. split_and!; try done. by apply lay_of_cache. by intros ? ?%elem_of_nil. }
  apply NoDup_cons in Hnd as [Hcpu Hnd]. destruct (Hl cpu) as [HPc Hslot]; [by left|].
  destruct (P cpu) as [|c cs] eqn:Ec; [done|]. pose proof (po_chain _ _ HP cpu) as Hch. rewrite Ec in Hch. cbn in Hch.
  destruct Hch as (Hf & x & Hx & Hcs). cstep. cstep. rewrite Hslot. cbn [mjoin option_join]. cstep. unfold alloc_kmem_cache_cpu.
  cstep. cstep. rewrite Hf. cstep. cstep. cstep. cstep. cstep. cstep. unfold init_kmem_cache_cpu. csteps. unfold put_cpu_slab. csteps.
  match goal with |- runs _ _ ?st1 => change st1 with (with_cpu st s k cpu c (c_link x)) end.
  assert (opened st (with_cpu st s k cpu c (c_link x)) s) as Hop.
  { split; [|done]. intros s' Hs'. cbn. by rewrite lookup_insert_ne. }
  assert (caches (with_cpu st s k cpu c (c_link x)) !! s = Some (set_cpu_slab (<[cpu := Some c]> (cpu_slab k)) k)) as Hk' by (cbn; by rewrite lookup_insert_eq).
  assert (∀ cpu', slot (with_cpu st s k cpu c (c_link x)) s cpu' = if decide (cpu' = cpu) then Some c else slot st s cpu') as Hsl.
  { intros cpu'. unfold slot. rewrite Hk', Hk. cbn. case_decide; [subst; rewrite list_lookup_insert_eq by (by eapply lookup_lt_Some); done|by rewrite list_lookup_insert_ne]. }
  eapply run_mono; [apply (IH (with_cpu st s k cpu c (c_link x)) g (take_pool P cpu) (set_cpu_slab (<[cpu := Some c]> (cpu_slab k)) k))|].
  - done.
  - intros cpu' Hc'. assert (cpu' ≠ cpu) by congruence. destruct (Hl cpu') as [B1 B2]; [by right|].
    unfold take_pool. rewrite fn_lookup_insert_ne by done. split; [done|]. cbn. by rewrite list_lookup_insert_ne.
  - apply with_cpu_inv; [done..|]. intros s' cpu'. apply (po_free _ _ HP cpu). rewrite Ec. by left.
  - eapply with_cpu_pool; [done|done|by eapply lookup_lt_Some|done..].
  - done.
  - intros r st' (-> & I1 & I2 & I3 & I4 & I5 & I6). split_and!; [done|done|by eapply opened_trans|done| | |done].
    + intros cpu' [->|Hc']%elem_of_cons; [|by apply I4]. rewrite I5, Hsl by done. rewrite decide_True by done. by eexists.
    + intros cpu' [B1 B2]%not_elem_of_cons. by rewrite I5, Hsl, decide_False.
Qed.

End boot.

(** ** Opening a cache, and the start of the allocator

    [kmem_cache_open] gives a new cache a layout and a structure for each
    processor, and [kmem_cache_init] makes the caches of [kmalloc]. *)

Section init.
Context {A : Type} `{BlockSourceLaws A} (VA : Z) (cache_line : Z) (online : list nat).
Context (Hline : pow2_between 3 20 cache_line) (Honline : NoDup online) (Hcpus : ∀ cpu, cpu ∈ online → (cpu < NR_CPUS)%nat).
Implicit Types (st : slub (A := A)) (g : ghost).

(** The arguments of a cache that can be opened. *)
Record open_args (sz al : Z) (ctor : option (Z → memory → memory)) : Prop := {
  oa_size : 1 ≤ sz ≤ 2 ^ 22;
  oa_align : al = 0 ∨ pow2_between 0 20 al;
  oa_ctor f : ctor = Some f → ∀ x m b, b < x ∨ x + sz ≤ b → f x m b = m b }.

(** The cache [s] has objects of [sz] bytes and can be used on the processors. *)
Definition ready st (s : cache_ptr) (sz : Z) : Prop :=
  (∃ l, lay_of st s = Some l ∧ sz ≤ objsize l) ∧ ∀ cpu, cpu ∈ online → is_Some (slot st s cpu).

Lemma ready_opened st st' s s' sz : opened st st' s → s' ≠ s → ready st s' sz → ready st' s' sz.
Proof.
  intros Ho Hs [(l & Hl & Hsz) Hcpu]. split; [exists l; by rewrite (opened_lay _ _ _ _ Ho Hs)|].
  intros cpu Hin. rewrite (opened_slot _ _ _ _ _ Ho Hs). by apply Hcpu.
Qed.

Lemma kmem_cache_open_post me s gfp sz al fl ctor st g P : open_args sz al ctor → slub_inv VA st g → pool_ok st P →
  caches st !! s = None → (∀ cpu, cpu ∈ online → P cpu ≠ []) →
  runs (kmem_cache_open VA online cache_line me s gfp sz al fl ctor) (λ r st', r = true ∧ slub_inv VA st' g ∧ opened st st' s ∧
    ready st' s sz ∧ (∃ l, lay_of st' s = Some l ∧ (al ≠ 0 → (al | size l)) ∧ Slub.ctor l = ctor) ∧
    (∀ cpu, cpu ∉ online → slot st' s cpu = None) ∧ pool_ok st' (foldl take_pool P online)) st.
Proof using Hline Honline Hcpus.
  intros [A1 A2 A3] Hi HP Hs Hpool. unfold kmem_cache_open.
  assert (0 ≤ al ≤ 2 ^ 20) as Hal. { destruct A2 as [->|(e & He & ->)]; [lia|]. split; [lia|]. apply Z.pow_le_mono_r; lia. }
  rewrite (s32_small sz), (s32_small al) by lia. set (l0 := mk_layout fl 0 sz 0 0 0 0 al ctor).
  destruct (calculate_sizes_spec cache_line l0 Hline) as (l & Hcs & Ho & Hsz & Hct & Hdiv & _); [by split|].
  csteps. rewrite !insert_insert_eq.
  set (k := set_node init_kmem_cache_node (set_refcount 1 (set_lay l (mk_cache l0 init_kmem_cache_node 0 (replicate NR_CPUS None))))).
  set (st1 := set_caches (<[s := k]> (caches st)) st).
  assert (opened st st1 s) as Hop. { split; [|done]. intros s' Hs'. unfold st1. cbn. by rewrite lookup_insert_ne. }
  assert (∀ cpu, slot st1 s cpu = None) as Hnone.
  { intros cpu. unfold slot, st1. cbn [caches set_caches]. rewrite lookup_insert_eq. cbn [mbind option_bind]. unfold k. cbn [cpu_slab set_node set_refcount set_lay].
    destruct (replicate NR_CPUS None !! cpu) as [o|] eqn:E; [|done]. by apply lookup_replicate in E as [-> _]. }
  eapply run_mono; [apply (alloc_cpus_post VA cache_line online me s _ online st1 g P k)|].
  - done.
  - intros cpu Hc. split; [by apply Hpool|]. by apply lookup_replicate_2, Hcpus.
  - by apply inv_add_cache.
  - destruct HP as [P1 P2 P3 P4]. split; [done..|]. intros cpu c s' cpu' Hc E. destruct (decide (s' = s)) as [->|Hs'].
    + by rewrite Hnone in E.
    + rewrite (opened_slot _ _ _ _ _ Hop Hs') in E. by eapply P4.
  - unfold st1. cbn. by rewrite lookup_insert_eq.
  - intros r st' (-> & I1 & I2 & I3 & I4 & I5 & I6). apply run_ret. split_and!; [done..|by eapply opened_trans| | | |done].
    + split; [|done]. exists l. split; [done|]. by rewrite Hsz.
    + by exists l.
    + intros cpu Hc. by rewrite I5, Hnone.
Qed.

(** ** [kmem_cache_init] *)

Record boot_state st : Prop := {
  bs_source : blocks_ok (source st);
  bs_pages p : clean (pages st p) = true;
  bs_caches : caches st = ∅;
  bs_listed : slab_caches st = [];
  bs_pool cpu i : cpu ∈ online → (i < NR_KMEM_CACHE_CPU)%nat → is_Some (cpus st !! Pool cpu i);
  bs_free cpu : cpu_free st cpu = None;
  bs_init cpu : cpu_free_init st cpu = false;
  bs_size_index : size_index st = size_index_init }.

Definition no_slabs_yet : ghost := mk_ghost ∅ (λ _, []) (λ _, []) ∅.

Lemma boot_inv st : blocks_ok (source st) → (∀ p, clean (pages st p) = true) → caches st = ∅ → slub_inv VA st no_slabs_yet.
Proof.
  intros H1 H2 H3. split; unfold lay_of, node_of, slot; rewrite ?H3; try done.
  - intros p. specialize (H2 p). unfold clean in H2. cbn. destruct (pages st p) as [[] [] []]; cbn in *; naive_solver.
Qed.

(** A structure of the array goes to the front of the free list. *)
Lemma push_pool_post me st P cpu i x : pool_ok st P → caches st = ∅ → cpus st !! Pool cpu i = Some x → Pool cpu i ∉ P cpu →
  runs (free_kmem_cache_cpu VA me (Pool cpu i) cpu) (λ _ st', pool_ok st' (<[cpu := Pool cpu i :: P cpu]> P) ∧
    (mem st', pages st', caches st', source st', slab_caches st', cpu_free_init st', size_index st') =
    (mem st, pages st, caches st, source st, slab_caches st, cpu_free_init st, size_index st) ∧
    (∀ c, is_Some (cpus st !! c) → is_Some (cpus st' !! c))) st.
Proof.
  intros [P1 P2 P3 P4] Hca Hx Hni. unfold free_kmem_cache_cpu, in_pool. rewrite bool_decide_eq_true_2 by done. cbn [orb negb]. csteps.
  assert (∀ cpu', Pool cpu i ∉ P cpu') as Hno. { intros cpu' Hin. destruct (P3 cpu' _ Hin) as (j & Ej). simplify_eq. done. }
  split; [|split; [done|]].
  - split.
    + intros cpu'. cbn. destruct (decide (cpu' = cpu)) as [->|Hne].
      * rewrite !fn_lookup_insert. split; [done|]. eexists. rewrite lookup_insert_eq. split; [done|]. cbn.
        apply (pool_chain_same (cpus st)); [|apply P1]. intros c Hc. rewrite lookup_insert_ne; [done|]. intros <-. by eapply Hno.
      * rewrite !fn_lookup_insert_ne by done. apply (pool_chain_same (cpus st)); [|apply P1]. intros c Hc. rewrite lookup_insert_ne; [done|]. intros <-. by eapply Hno.
    + intros cpu'. destruct (decide (cpu' = cpu)) as [->|Hne]; [rewrite fn_lookup_insert; by apply NoDup_cons|by rewrite fn_lookup_insert_ne].
    + intros cpu' c. destruct (decide (cpu' = cpu)) as [->|Hne]; [rewrite fn_lookup_insert|rewrite fn_lookup_insert_ne by done; apply P3].
      intros [->|Hc]%elem_of_cons; [by exists i|by apply P3].
    + intros cpu' c s cpu2 _. unfold slot. cbn. by rewrite Hca.
  - intros c Hc. cbn. destruct (decide (c = Pool cpu i)) as [->|Hne]; [rewrite lookup_insert_eq; by eexists|by rewrite lookup_insert_ne].
Qed.

(** What filling the arrays leaves alone. *)
Definition filled st st' : Prop :=
  (mem st', pages st', caches st', source st', slab_caches st', size_index st') =
  (mem st, pages st, caches st, source st, slab_caches st, size_index st) ∧ ∀ c, is_Some (cpus st !! c) → is_Some (cpus st' !! c).

Lemma fill_pool_post me cpu : ∀ l st P, NoDup l → pool_ok st P → caches st = ∅ → (∀ i, i ∈ l → is_Some (cpus st !! Pool cpu i) ∧ Pool cpu i ∉ P cpu) →
  runs (each (λ i, free_kmem_cache_cpu VA me (Pool cpu i) cpu) l) (λ _ st', filled st st' ∧ cpu_free_init st' = cpu_free_init st ∧
    pool_ok st' (<[cpu := (Pool cpu <$> reverse l) ++ P cpu]> P)) st.
Proof.
  induction l as [|i l IH]; intros st P Hnd HP Hca Hl; cbn [each].
  { cstep. split_and!; [done..|]. apply (pool_ok_ext _ P); [|done].
    intros cpu'. destruct (decide (cpu' = cpu)) as [->|]; [by rewrite fn_lookup_insert|by rewrite fn_lookup_insert_ne]. }
  apply NoDup_cons in Hnd as [Hi Hnd]. destruct (Hl i) as [[x Hx] Hni]; [by left|]. cstep.
  eapply run_mono; [by eapply (push_pool_post me st P cpu i)|]. cbv beta. intros _ st1 (HP1 & Heq & Hc1).
  eapply run_mono; [apply (IH st1 _ Hnd HP1); [congruence|]|].
  - intros j Hj. destruct (Hl j) as [Hx' Hn']; [by right|]. split; [by apply Hc1|]. rewrite fn_lookup_insert. intros [?|?]%elem_of_cons; [|done].
    simplify_eq. done.
  - cbv beta. intros _ st' ((E1 & E2) & E3 & E4). split_and!; [split; [congruence|auto]|congruence|].
    eapply pool_ok_ext; [|exact E4]. intros cpu'. destruct (decide (cpu' = cpu)) as [->|].
    + by rewrite !fn_lookup_insert, reverse_cons, fmap_app, <-app_assoc.
    + by rewrite !fn_lookup_insert_ne.
Qed.

Definition full_pool (cpu : nat) : list cpu_ptr := Pool cpu <$> seq 0 NR_KMEM_CACHE_CPU.

Lemma init_alloc_cpu_post me : ∀ l st P, NoDup l → pool_ok st P → caches st = ∅ →
  (∀ cpu, cpu ∈ l → P cpu = [] ∧ cpu_free_init st cpu = false ∧ ∀ i, (i < NR_KMEM_CACHE_CPU)%nat → is_Some (cpus st !! Pool cpu i)) →
  runs (each (init_alloc_cpu_cpu VA me) l) (λ _ st', filled st st' ∧ ∃ P', pool_ok st' P' ∧
    (∀ cpu, cpu ∈ l → P' cpu = full_pool cpu) ∧ (∀ cpu, cpu ∉ l → P' cpu = P cpu)) st.
Proof.
  induction l as [|cpu l IH]; intros st P Hnd HP Hca Hl; cbn [each].
  { cstep. split; [done|]. exists P. split_and!; [done|by intros ? ?%elem_of_nil|done]. }
  apply NoDup_cons in Hnd as [Hc Hnd]. destruct (Hl cpu) as (Hemp & Hf & Hall); [by left|].
  cstep. unfold init_alloc_cpu_cpu. cstep. cstep. rewrite Hf. cstep.
  eapply run_mono; [apply (fill_pool_post me cpu (reverse (seq 0 NR_KMEM_CACHE_CPU)) st P)|].
  - rewrite reverse_Permutation. apply NoDup_seq.
  - done.
  - done.
  - intros i [_ Hi]%elem_of_reverse%elem_of_seq. split; [by apply Hall|]. rewrite Hemp. apply not_elem_of_nil.
  - cbv beta. intros _ st1 ((E1 & E2) & E3 & E4). rewrite reverse_involutive, Hemp, app_nil_r in E4. cstep.
    eapply run_mono; [apply (IH (set_cpu_free_init (<[cpu := true]> (cpu_free_init st1)) st1) (<[cpu := full_pool cpu]> P) Hnd)|].
    + destruct E4 as [Q1 Q2 Q3 Q4]. by split.
    + cbn. congruence.
    + intros cpu' Hin. assert (cpu' ≠ cpu) by congruence. destruct (Hl cpu') as (F1 & F2 & F3); [by right|]. cbn.
      rewrite !fn_lookup_insert_ne by done. split_and!; [done|congruence|]. auto.
    + cbv beta. intros _ st' ((G1 & G2) & P' & G3 & G4 & G5). cbn in G1, G2. split; [split; [congruence|auto]|]. exists P'. split_and!; [done| |].
      * intros cpu' [->|Hin]%elem_of_cons; [|by apply G4]. rewrite G5 by done. by rewrite fn_lookup_insert.
      * intros cpu' [N1 N2]%not_elem_of_cons. rewrite G5 by done. by rewrite fn_lookup_insert_ne.
Qed.

(** The sizes of the caches of [kmalloc]. *)
Definition kmalloc_size (i : nat) : Z := match i with 1%nat => 96 | 2%nat => 192 | _ => 2 ^ Z.of_nat i end.
Definition kmalloc_caches : list nat := [2; 7; 8; 9; 10; 11]%nat.
Definition size_index_done : list Z := replicate 16 7 ++ replicate 8 2.

(** [kmem_cache_init] has made the caches [l], and the arrays have [n] structures. *)
Record started st g (n : nat) (l : list nat) : Prop := {
  sd_inv : slub_inv VA st g;
  sd_pool : ∃ P, pool_ok st P ∧ ∀ cpu, cpu ∈ online → (n ≤ length (P cpu))%nat;
  sd_ready i : i ∈ l → ready st (Kmalloc i) (kmalloc_size i);
  sd_fresh s : (∀ i, i ∈ l → s ≠ Kmalloc i) → caches st !! s = None;
  sd_slots s cpu : is_Some (slot st s cpu) → cpu ∈ online;
  sd_listed s : s ∈ slab_caches st → ∃ i, i ∈ l ∧ s = Kmalloc i }.

Lemma started_caches st g n l : started st g n l → ∀ s, is_Some (lay_of st s) → ∃ i, i ∈ l ∧ s = Kmalloc i.
Proof.
  intros Hst [i|a] [y Hs].
  - destruct (decide (i ∈ l)) as [|Hn]; [by exists i|]. unfold lay_of in Hs. rewrite (sd_fresh _ _ _ _ Hst) in Hs; [done|]. by intros j Hj [= ->].
  - unfold lay_of in Hs. by rewrite (sd_fresh _ _ _ _ Hst) in Hs.
Qed.

Lemma take_pool_length P : ∀ l cpu, NoDup l → (length (P cpu) ≤ S (length (foldl take_pool P l cpu)))%nat.
Proof.
  intros l. revert P. induction l as [|c l IH]; intros P cpu Hnd; cbn [foldl]; [lia|]. apply NoDup_cons in Hnd as [Hc Hnd].
  destruct (decide (cpu = c)) as [->|Hne].
  - assert (∀ P, foldl take_pool P l c = P c) as Hsame.
    { clear IH. induction l as [|c' l IH]; intros P'; [done|]. cbn [foldl]. apply NoDup_cons in Hnd as [_ Hnd]. apply not_elem_of_cons in Hc as [Hc Hcl].
      rewrite IH by done. unfold take_pool. by rewrite fn_lookup_insert_ne. }
    rewrite Hsame. unfold take_pool. rewrite fn_lookup_insert. destruct (P c); cbn; lia.
  - specialize (IH (take_pool P c) cpu Hnd). unfold take_pool in IH at 1. by rewrite fn_lookup_insert_ne in IH.
Qed.

Lemma create_kmalloc_cache_post me st g n l i : started st g (S n) l → i ∉ l → 1 ≤ kmalloc_size i ≤ 2 ^ 22 →
  runs (create_kmalloc_cache VA online cache_line me i (kmalloc_size i) GFP_KERNEL)
    (λ _ st', started st' g n (i :: l) ∧ size_index st' = size_index st) st.
Proof using Hline Honline Hcpus.
  intros [Hi (P & HP & Hn) Hr Hf Hon Hli] Hni Hsz. unfold create_kmalloc_cache. cstep.
  eapply run_mono; [apply (kmem_cache_open_post me (Kmalloc i) GFP_KERNEL (kmalloc_size i) ARCH_KMALLOC_MINALIGN _ None st g P)|].
  - split; [done| |done]. right. exists 7. split; [lia|done].
  - done.
  - done.
  - apply Hf. intros j Hj [= ->]. done.
  - intros cpu Hc E. specialize (Hn cpu Hc). rewrite E in Hn. cbn in Hn. lia.
  - intros r st' (-> & I1 & I2 & I3 & _ & I5 & I4). csteps. apply run_BUG_ON; [done|]. csteps. split; [|by injection (op_same _ _ _ I2)]. split.
    + by eapply inv_ext.
    + exists (foldl take_pool P online). split; [by destruct I4|]. intros cpu Hc. pose proof (take_pool_length P online cpu Honline).
      specialize (Hn cpu Hc). lia.
    + intros j [->|Hj]%elem_of_cons; [done|]. eapply (ready_opened st st' (Kmalloc i) (Kmalloc j)); [done| |by apply Hr]. intros [= ->]. done.
    + intros s Hs. cbn. rewrite (op_caches _ _ _ I2); [|apply Hs; by left]. apply Hf. intros j Hj. apply Hs. by right.
    + intros s cpu. change (slot (set_slab_caches _ _) s cpu) with (slot st' s cpu). destruct (decide (s = Kmalloc i)) as [->|Hs].
      * intros Hc. destruct (decide (cpu ∈ online)) as [|Hn']; [done|]. rewrite (I5 cpu Hn') in Hc. by destruct Hc.
      * rewrite (opened_slot _ _ _ _ _ I2 Hs). apply Hon.
    + intros s. cbn. injection (op_same _ _ _ I2) as _ _ _ E _ _. rewrite E. intros [->|Hs]%elem_of_cons; [exists i; split; [by left|done]|].
      destruct (Hli s Hs) as (j & Hj & ->). exists j. split; [by right|done].
Qed.

Lemma create_kmalloc_caches_post me g n : ∀ ids st l, started st g (length ids + n) l → NoDup ids → (∀ i, i ∈ ids → i ∉ l ∧ 1 ≤ kmalloc_size i ≤ 2 ^ 22) →
  runs (each (λ i, create_kmalloc_cache VA online cache_line me i (kmalloc_size i) GFP_KERNEL) ids)
    (λ _ st', started st' g n (reverse ids ++ l) ∧ size_index st' = size_index st) st.
Proof using Hline Honline Hcpus.
  induction ids as [|i ids IH]; intros st l Hst Hnd His; cbn [each]; [by cstep|]. apply NoDup_cons in Hnd as [Hi Hnd].
  destruct (His i) as [N1 N2]; [by left|]. cstep. eapply run_mono; [by apply (create_kmalloc_cache_post me st g (length ids + n) l i)|].
  cbv beta. intros _ st1 [Hst1 E1]. eapply run_mono; [apply (IH st1 (i :: l)); [done|done|]|].
  - intros j Hj. destruct (His j) as [N3 N4]; [by right|]. split; [|done]. apply not_elem_of_cons. split; [congruence|done].
  - cbv beta. intros _ st' [Hst' E']. rewrite reverse_cons, <-app_assoc. split; [done|congruence].
Qed.

(** The caches of [kmalloc] can be used, and every cache has its structures. *)
Record kmalloc_ready st : Prop := {
  kr_caches i : i ∈ kmalloc_caches → ready st (Kmalloc i) (kmalloc_size i);
  kr_index : size_index st = size_index_done;
  kr_slots s cpu : is_Some (lay_of st s) → cpu ∈ online → is_Some (slot st s cpu) }.

Lemma kmalloc_ready_same st st' : (∀ s, lay_of st' s = lay_of st s) → (∀ s cpu, slot st' s cpu = slot st s cpu) → size_index st' = size_index st →
  kmalloc_ready st → kmalloc_ready st'.
Proof.
  intros E1 E2 E3 [K1 K2 K3]. split.
  - intros i Hi. destruct (K1 i Hi) as [(l & Hl & Hsz) Hc]. split; [exists l; by rewrite E1|]. intros cpu Hcpu. rewrite E2. by apply Hc.
  - congruence.
  - intros s cpu. rewrite E1, E2. apply K3.
Qed.

(** The other structures of the caches: the arrays of the processors, the list
    of caches, and the memory of the caches that were created. *)
Record caches_ok st g (P : nat → list cpu_ptr) : Prop := {
  ca_ready : kmalloc_ready st;
  ca_pool : pool_ok st P;
  ca_slots s cpu : is_Some (slot st s cpu) → cpu ∈ online;
  ca_listed s : s ∈ slab_caches st → is_Some (caches st !! s);
  ca_created a : is_Some (caches st !! Created a) → ∃ n, live VA st g a n }.

(** The loop that redirects the small sizes. *)
Lemma patch_index_post (v : Z) : ∀ l st,
  runs (each (λ i, modify (λ st, set_size_index (<[((8 * i - 1) / 8)%nat := v]> (size_index st)) st)) l)
    (λ _ st', st' = set_size_index (foldl (λ t i, <[((8 * i - 1) / 8)%nat := v]> t) (size_index st) l) st) st.
Proof.
  induction l as [|i l IH]; intros st; cbn [each foldl]; [cstep; by destruct st|]. cstep. cstep. eapply run_mono; [apply IH|].
  by intros _ st' ->.
Qed.

Lemma started_done st g n : started st g n (reverse [7; 8; 9; 10; 11]%nat ++ [2%nat]) → 
  slub_inv VA (set_size_index size_index_done st) g ∧
  ∃ P, caches_ok (set_size_index size_index_done st) g P ∧ ∀ cpu, cpu ∈ online → (n ≤ length (P cpu))%nat.
Proof.
  intros Hst. pose proof Hst as [S1 (P & S2 & S3) S4 S5 S6 S7]. split; [by eapply inv_ext|]. exists P. split; [|done].
  assert (∀ s, is_Some (caches st !! s) → ∃ i, i ∈ reverse [7; 8; 9; 10; 11]%nat ++ [2%nat] ∧ s = Kmalloc i) as Hall.
  { intros s Hs. apply (started_caches _ _ _ _ Hst). unfold lay_of. by apply fmap_is_Some. }
  split; [split|by destruct S2|done| |].
  - intros i Hi. apply S4. cbn. unfold kmalloc_caches in Hi. set_solver.
  - done.
  - intros s cpu [l Hl]. destruct (started_caches _ _ _ _ Hst s) as (i & Hi & ->); [by exists l|]. apply (S4 i Hi).
  - intros s Hs. destruct (S7 s Hs) as (i & Hi & ->). destruct (S4 i Hi) as [(l & Hl & _) _]. unfold lay_of in Hl.
    cbn. apply fmap_Some in Hl as (k & Hk & _). by exists k.
  - intros a Ha. by destruct (Hall _ Ha) as (i & _ & ?).
Qed.

(** [kmem_cache_init] up to the names of the caches. *)
Lemma kmem_cache_init_caches cpu st Q : boot_state st →
  (∀ st' P, slub_inv VA st' no_slabs_yet → caches_ok st' no_slabs_yet P → (∀ cpu, cpu ∈ online → (94 ≤ length (P cpu))%nat) →
     runs (name_kmalloc_caches VA cpu) Q st') →
  runs (kmem_cache_init VA online cache_line cpu) Q st.
Proof using H0 Hline Honline Hcpus.
  intros [B1 B2 B3 B8 B4 B5 B6 B7] HQ. unfold kmem_cache_init. cstep. unfold init_alloc_cpu.
  eapply run_mono; [apply (init_alloc_cpu_post cpu online st (λ _, []))|].
  - done.
  - split; cbn; [done|intros; apply NoDup_nil_2|by intros ? ? ?%elem_of_nil|by intros ? ? ? ? ?%elem_of_nil].
  - done.
  - intros c Hc. split_and!; [done..|]. intros i. by apply B4.
  - cbv beta. intros _ st1 ((E1 & E2) & P & HP & Hfull & _). injection E1 as E3 E4 E5 E6 E7 E8. cstep. cstep.
    set (st1' := set_slab_state PARTIAL st1). assert (started st1' no_slabs_yet (100) []) as Hst.
    { split; [apply boot_inv; cbn; congruence| |by intros ? ?%elem_of_nil| | |].
      - exists P. split; [by destruct HP|]. intros c Hc. rewrite Hfull by done. unfold full_pool. by rewrite length_fmap, length_seq.
      - intros s _. cbn. by rewrite E5, B3.
      - intros s c. unfold slot. cbn. rewrite E5, B3. by intros [? ?].
      - intros s. cbn. rewrite E7, B8. by intros ?%elem_of_nil. }
    cstep. unfold create_kmalloc_caches. cstep. apply run_when; [done|intros _]. cstep. apply run_when; [intros _|done].
    eapply run_mono; [apply (create_kmalloc_cache_post cpu st1' no_slabs_yet 99 [] 2 Hst); [apply not_elem_of_nil|done]|].
    cbv beta. intros _ st2 [Hst2 F1].
    eapply run_mono; [eapply (create_kmalloc_caches_post cpu no_slabs_yet 94 [7; 8; 9; 10; 11]%nat st2 [2%nat] Hst2)|].
    + repeat (apply NoDup_cons; split; [set_solver|]). apply NoDup_nil_2.
    + intros i Hi. rewrite !elem_of_cons in Hi. split; [set_solver|]. destruct_or!; subst; [done..|]. by apply elem_of_nil in Hi.
    + cbv beta. intros _ st3 [Hst3 F2]. cstep. eapply run_mono; [apply patch_index_post|]. cbv beta. intros _ st' ->. cstep. cstep.
      rewrite F2, F1. change (size_index st1') with (size_index st1). rewrite E8, B7.
      destruct (started_done st3 no_slabs_yet 94 Hst3) as (Hi & P' & [[K1 K2 K3] K4 K5 K6 K7] & Hlen).
      apply (HQ _ P'); [by eapply inv_ext| |done]. split; [by split|by destruct K4|done|done|].
      intros a Ha. destruct (K7 a Ha) as [n Hn]. exists n. by apply (live_ext VA (set_size_index size_index_done st3)).
Qed.

End init.
