(* ===== verification/SlubHeap.v ===== *)
(** * The heap of [kmalloc] and [kfree]

    What the clients of the slab allocator see: pieces of memory that share no
    byte and keep what is written to them.  The state of the allocator represents
    such a heap ([heap_rel]), and every request is a step of it ([heap_step]). *)
From stdpp Require Import functions gmap.
From S2P Require Import Prelude Command BlockSource Slub SlubInv SlubStep SlubOps SlubAlloc SlubSizes SlubInit.

(** ** The heap *)

(** The pieces in use, by their addresses, with the bytes that were asked for. *)
Notation heap := (gmap Z (list Z)).

Inductive heap_request :=
  | HAlloc (constant : bool) (cpu : nat) (size gfp : Z)
  | HFree (cpu : nat) (x : Z)
  | HWrite (x : Z) (i : nat) (b : Z)
  | HRead (x : Z) (i : nat).

(** A new piece, or [NULL]; [kmalloc(0)] is [ZERO_SIZE_PTR]. *)
Definition heap_step (h : heap) (req : heap_request) (r : Z) (h' : heap) : Prop :=
  match req with
  | HAlloc _ _ size gfp =>
      (size = 0 ∧ r = ZERO_SIZE_PTR ∧ h' = h) ∨ (size ≠ 0 ∧ r = 0 ∧ h' = h) ∨
      ∃ bs, size ≠ 0 ∧ PAGE_SIZE ≤ r ∧ Z.of_nat (length bs) = size ∧ h' = <[r := bs]> h ∧ (has gfp GFP_ZERO = true → Forall (.= 0) bs) ∧
        ∀ x bs', h !! x = Some bs' → r + size ≤ x ∨ x + Z.of_nat (length bs') ≤ r
  | HFree _ x => r = 0 ∧ h' = delete x h
  | HWrite x i b => ∃ bs, h !! x = Some bs ∧ r = 0 ∧ h' = <[x := <[i := b]> bs]> h
  | HRead x i => ∃ bs, h !! x = Some bs ∧ bs !! i = Some r ∧ h' = h
  end.

(** What a client may ask: [kfree] of a piece or of nothing, bytes of a piece. *)
Definition heap_allowed (online : list nat) (h : heap) (req : heap_request) : Prop :=
  match req with
  | HAlloc _ cpu size _ => cpu ∈ online ∧ 0 ≤ size < 2 ^ 63
  | HFree cpu x => cpu ∈ online ∧ (is_Some (h !! x) ∨ ZERO_OR_NULL_PTR x = true)
  | HWrite x i _ | HRead x i => ∃ bs, h !! x = Some bs ∧ (i < length bs)%nat
  end.

(** ** The choice of a cache *)

(** The check of one size: the two ways to choose agree, and the cache is the
    smallest one that is large enough. *)
Definition choice_ok (size : Z) : bool :=
  match kmalloc_slab size with
  | Some (Kmalloc i) =>
      bool_decide (i ∈ kmalloc_caches) && (size <=? kmalloc_size i) &&
      forallb (λ j, negb (size <=? kmalloc_size j) || (kmalloc_size i <=? kmalloc_size j)) kmalloc_caches &&
      (if size <=? 192 then bool_decide (size_index_done !! Z.to_nat ((size - 1) / 8) = Some (Z.of_nat i))
       else fls (u64 (size - 1)) =? Z.of_nat i)
  | _ => false
  end.

Lemma choices_ok : forallb choice_ok (Z.of_nat <$> seq 1 2048) = true.
Proof. vm_compute. reflexivity. Qed.

Lemma choice size : 1 ≤ size ≤ 2048 → choice_ok size = true.
Proof.
  intros Hs. pose proof choices_ok as E. rewrite forallb_forall in E. apply E, list_elem_of_In, list_elem_of_fmap.
  exists (Z.to_nat size). rewrite elem_of_seq. lia.
Qed.

Lemma kmalloc_slab_spec size : 1 ≤ size ≤ 2048 → ∃ i, kmalloc_slab size = Some (Kmalloc i) ∧ i ∈ kmalloc_caches ∧ size ≤ kmalloc_size i ∧
  ∀ j, j ∈ kmalloc_caches → size ≤ kmalloc_size j → kmalloc_size i ≤ kmalloc_size j.
Proof.
  intros Hs%choice. unfold choice_ok in Hs. destruct (kmalloc_slab size) as [[i|]|]; [|done..].
  rewrite !andb_true_iff, bool_decide_eq_true, Z.leb_le, forallb_forall in Hs. destruct Hs as (((H1 & H2) & H3) & _).
  exists i. split_and!; [done..|]. intros j Hj%list_elem_of_In Hle. specialize (H3 j Hj).
  rewrite (proj2 (Z.leb_le _ _) Hle) in H3. by apply Z.leb_le.
Qed.

Section heap.
Context {A : Type} `{BlockSourceLaws A} (VA : Z) (HVA : linear_ok VA) (online : list nat).
Implicit Types (st : slub (A := A)) (g : ghost).

Lemma get_slab_run size st : 0 ≤ size ≤ 2048 → size_index st = size_index_done → get_slab size st = Some (kmalloc_slab size, st).
Proof.
  intros Hs Hix. unfold get_slab. destruct (Z.eqb_spec size 0) as [->|Hne]; [done|].
  pose proof (choice size ltac:(lia)) as Hc. unfold choice_ok in Hc. destruct (kmalloc_slab size) as [[i|]|]; [|done..].
  rewrite !andb_true_iff in Hc. destruct Hc as [_ Hc]. destruct (size <=? 192).
  - apply bool_decide_eq_true in Hc. unfold mbind, command_bind, getm. rewrite Hix, Hc. cbn. by rewrite Nat2Z.id.
  - apply Z.eqb_eq in Hc. rewrite Hc, Nat2Z.id. done.
Qed.

(** The order for a size has room for it. *)
Lemma __get_order_fits size : 1 ≤ size < 2 ^ 63 → size ≤ PAGE_SIZE * 2 ^ Z.of_nat (__get_order size).
Proof.
  intros Hs. unfold __get_order. rewrite u64_small by lia. rewrite Z.shiftr_div_pow2 by done.
  change PAGE_SIZE with 4096. change (2 ^ PAGE_SHIFT) with 4096.
  pose proof (Z.div_mod (size - 1) 4096 ltac:(lia)) as Hd. pose proof (Z.mod_pos_bound (size - 1) 4096 ltac:(lia)) as Hm.
  destruct (Z.eqb_spec ((size - 1) / 4096) 0) as [E|E]; [cbn; lia|].
  assert (0 < (size - 1) / 4096) as Hp by (pose proof (Z.div_pos (size - 1) 4096); lia).
  pose proof (Z.log2_spec _ Hp) as [_ L]. pose proof (Z.log2_nonneg ((size - 1) / 4096)).
  rewrite Z2Nat.id by lia. unfold Z.succ in L. lia.
Qed.

(** The order that the compiler computes is the one computed at run time. *)
Lemma get_order_constant constant size : 1 ≤ size < 2 ^ 63 → get_order constant size = __get_order size.
Proof.
  intros Hs. destruct constant; [|done]. unfold get_order, __get_order. rewrite (proj2 (Z.eqb_neq size 0)) by lia.
  rewrite u64_small by lia. rewrite Z.shiftr_div_pow2 by done. change (2 ^ PAGE_SHIFT) with 4096. change PAGE_SHIFT with 12.
  pose proof (Z.div_mod (size - 1) 4096 ltac:(lia)) as Hd. pose proof (Z.mod_pos_bound (size - 1) 4096 ltac:(lia)) as Hm.
  destruct (Z.ltb_spec size 4096) as [Hlt|Hge]; [by rewrite (proj2 (Z.eqb_eq ((size - 1) / 4096) 0)) by (apply Z.div_small; lia)|].
  destruct (Z.eqb_spec ((size - 1) / 4096) 0) as [E|E].
  - assert (size = 4096) as -> by lia. done.
  - assert (Z.log2 ((size - 1) / 4096) = Z.log2 (size - 1) - 12) as ->; [|f_equal; lia].
    change 4096 with (2 ^ 12). rewrite <-Z.shiftr_div_pow2, Z.log2_shiftr by lia.
    assert (12 ≤ Z.log2 (size - 1)) by (apply Z.log2_le_pow2; [lia|]; pose proof (Z.div_pos (size - 1) 4096); lia). lia.
Qed.

(** ** Pieces in use *)

(** Pieces share no byte. *)
Lemma live_apart st g x n y n' : slub_inv VA st g → live VA st g x n → live VA st g y n' → 0 < n → 0 < n' → x ≠ y → x + n ≤ y ∨ y + n' ≤ x.
Proof.
  intros Hi Hx Hy Hn Hn' Hne.
  destruct (Z.le_gt_cases (x + n) y) as [|G1]; [by left|]. destruct (Z.le_gt_cases (y + n') x) as [|G2]; [by right|]. exfalso.
  set (b := Z.max x y). assert (x ≤ b < x + n ∧ y ≤ b < y + n') as [Bx By] by lia.
  assert (∀ z l p, layout_ok l → z ∈ objs VA l p → ∀ m, m ≤ objsize l → z ≤ b < z + m → in_slab VA l p b) as Hin.
  { intros z l p Hl Hz m Hm Hb. eapply objs_bytes; [done..|]. pose proof (lo_objsize _ Hl). lia. }
  destruct Hx as [p s l X1 X2 X3 X4 X5|p o X1 X2 X3 X4], Hy as [p' s' l' Y1 Y2 Y3 Y4 Y5|p' o' Y1 Y2 Y3 Y4].
  - pose proof (inv_layout _ _ _ Hi _ _ X3) as Hl. destruct (decide (p = p')) as [<-|Hp].
    + simplify_eq. pose proof (lo_objsize _ Hl). destruct (objs_apart VA l p x y Hl X4 Y4 Hne); lia.
    + eapply (inv_bytes VA st g p s l p' s' l' b); try done; eapply Hin; try done; by eapply inv_layout.
  - eapply (inv_other_bytes VA st g p s l p' o' b); try done; [lia|]. eapply Hin; try done. by eapply inv_layout.
  - eapply (inv_other_bytes VA st g p' s' l' p o b); try done; [lia|]. eapply Hin; try done. by eapply inv_layout.
  - assert (p ≠ p') as Hp by congruence. pose proof (blocks_apart _ _ _ _ _ (inv_source _ _ _ Hi) X2 Y2 Hp) as Ha.
    unfold apart, page_address in *. change PAGE_SIZE with 4096 in *. lia.
Qed.

Lemma live_ptr st g x n : slub_inv VA st g → live VA st g x n → PAGE_SIZE ≤ x.
Proof using HVA H0.
  intros Hi [p s l X1 X2 X3 X4 X5|p o -> X2 X3 X4]; [by eapply inv_ptr|].
  apply page_address_low; [done|]. by eapply block_range; [apply Hi|].
Qed.

Lemma live_less st g x n n' : n' ≤ n → live VA st g x n → live VA st g x n'.
Proof. intros Hn [p s l X1 X2 X3 X4 X5|p o X1 X2 X3 X4]; [eapply live_object|eapply live_block]; try done; lia. Qed.

Lemma live_same st g x n : slub_inv VA st g → live VA st g x n → ∀ u st' g', evolves VA u st g st' g' → (x ∈ used g → x ∈ u) → u ⊆ used g' →
  live VA st' g' x n ∧ same_bytes x n (mem st) (mem st').
Proof.
  intros Hi Hx u st' g' He Hu Hu'. destruct Hx as [p s l X1 X2 X3 X4 X5|p o X1 X2 X3 X4].
  - destruct (ev_keep _ _ _ _ _ _ He x p s l) as [K1 K2]; [by apply Hu|done..|]. split.
    + eapply live_object; try done; [by apply Hu', Hu|by rewrite (ev_lay _ _ _ _ _ _ He)].
    + intros b Hb. apply K2. pose proof (lo_objsize _ (inv_layout _ _ _ Hi _ _ X3)). lia.
  - destruct (ev_other _ _ _ _ _ _ He p o X2 X3) as (K1 & K2 & K3). split; [by eapply live_block|].
    intros b Hb. apply K3. lia.
Qed.

(** The page of a piece. *)
Lemma live_head st g x n : slub_inv VA st g → live VA st g x n → ∃ p, head_page (source st) (virt_to_page VA x) = Some p ∧
  ((∃ s l, x ∈ used g ∧ slabs g !! p = Some s ∧ lay_of st s = Some l ∧ x ∈ objs VA l p) ∨
   (∃ o, x = page_address VA p ∧ blocks (source st) !! p = Some o ∧ slabs g !! p = None)).
Proof using HVA H0.
  intros Hi [p s l X1 X2 X3 X4 X5|p o -> X2 X3 X4]; exists p.
  - split; [|left; by exists s, l]. destruct (inv_block _ _ _ Hi p s X2) as (l' & E & Hb). simplify_eq.
    eapply head_page_ok; [apply Hi|done|]. eapply objs_page; [done|by eapply inv_layout|done].
  - split; [|right; by exists o]. eapply head_page_ok; [apply Hi|done|]. unfold virt_to_page, page_address, in_block.
    replace (VA + p * PAGE_SIZE - VA) with (p * PAGE_SIZE) by lia. rewrite Z.div_mul by done. pose proof (Z.pow_pos_nonneg 2 (Z.of_nat o)). lia.
Qed.

(** ** Blocks of pages that are not slabs *)

Lemma inv_pages st g a m : slub_inv VA st g → blocks_ok a → (∀ q s, slabs g !! q = Some s → blocks a !! q = blocks (source st) !! q) →
  (∀ q s l b, slabs g !! q = Some s → lay_of st s = Some l → in_slab VA l q b → m b = mem st b) →
  slub_inv VA (set_mem m (set_source a st)) g.
Proof.
  intros Hi Ha Hb Hm. pose proof Hi as [I1 I2 I3 I4 I5 I6 I7 I8 I9 I10 I11].
  assert (∀ q s l z xs, slabs g !! q = Some s → lay_of st s = Some l → (∀ y, y ∈ xs → y ∈ fl g q ++ cl g q) →
    chain (mem st) (offset l) z xs → chain m (offset l) z xs) as Hch.
  { intros q s l z xs Hq Hl Hxs. apply chain_same. intros y Hy b Hb'. eapply Hm; [done..|].
    eapply (proj2 (word_in_obj VA l q y (I4 _ _ Hl) (inv_free_objs VA _ _ _ _ _ _ Hi Hq Hl (Hxs y Hy)) b Hb')). }
  split; try done; cbn [source set_mem set_source mem].
  - intros q s Hq. rewrite (Hb q s Hq). by apply I2.
  - intros q s l Hq Hl. destruct (I5 q s l Hq Hl) as [S1 S2 S3 S4 S5 S6]. split; try done. eapply Hch; [done..| |done].
    intros y Hy. apply elem_of_app. by left.
  - intros s l cpu c Hs Hl. destruct (I7 s l cpu c Hs Hl) as (x & Hx & [C1 C2 C3]). exists x. split; [done|]. split; [done..|].
    destruct (c_page x) as [q|]; [|done]. destruct C3 as (D1 & D2 & D3). split_and!; [done..|]. eapply Hch; [done..| |done].
    intros y Hy. apply elem_of_app. by right.
Qed.

Lemma take_block st g gfp o p st' : slub_inv VA st g → taken VA st gfp o (Some p) st' →
  slub_inv VA st' g ∧ slabs g !! p = None ∧ blocks (source st') !! p = Some o ∧ evolves VA (used g) st g st' g ∧
  (∀ q, slabs g !! q = None → is_Some (blocks (source st) !! q) → q ≠ p).
Proof.
  intros Hi (a & m & -> & Ha & Hap & Hbl & Hm & _).
  assert (∀ q o', blocks (source st) !! q = Some o' → q ≠ p) as Hne.
  { intros q o' Hq ->. pose proof (Z.pow_pos_nonneg 2 (Z.of_nat o)). pose proof (Z.pow_pos_nonneg 2 (Z.of_nat o')). destruct (Hap p o' Hq); lia. }
  assert (∀ q o' b, blocks (source st) !! q = Some o' → page_address VA q ≤ b < page_address VA q + PAGE_SIZE * 2 ^ Z.of_nat o' → m b = mem st b) as Hout.
  { intros q o' b Hq Hb. apply Hm. unfold in_pages. pose proof (Hap q o' Hq). unfold apart, page_address in *. change PAGE_SIZE with 4096 in *. lia. }
  assert (∀ q s l b, slabs g !! q = Some s → lay_of st s = Some l → in_slab VA l q b → m b = mem st b) as Hin.
  { intros q s l b Hq Hl Hb. destruct (inv_block _ _ _ Hi q s Hq) as (l' & E & Hbq). simplify_eq. eapply Hout; [done|].
    pose proof (inv_layout _ _ _ Hi _ _ Hl) as Ho. rewrite Z2Nat.id by by apply lo_order. pose proof (lo_block _ Ho). unfold in_slab in Hb. lia. }
  split_and!.
  - apply inv_pages; [done..| |done]. intros q s Hq. rewrite Hbl, lookup_insert_ne; [done|]. destruct (inv_block _ _ _ Hi q s Hq) as (l' & _ & Hbq).
    apply not_eq_sym. by eapply Hne.
  - apply eq_None_not_Some. intros [s Hp]. destruct (inv_block _ _ _ Hi p s Hp) as (l' & _ & Hbq). by eapply Hne.
  - cbn. by rewrite Hbl, lookup_insert_eq.
  - split; try done; cbn [mem set_mem source set_source].
    + intros y q s l Hy Hq Hl Ho. split; [done|]. intros b Hb. eapply Hin; [done..|]. eapply objs_bytes; [by eapply inv_layout|done..].
    + intros q o' Hq Hs. split_and!; [done| |].
      * rewrite Hbl, lookup_insert_ne; [done|]. apply not_eq_sym. by eapply Hne.
      * intros b Hb. by eapply Hout.
  - intros q _ [o' Hq]. by eapply Hne.
Qed.

(** ** [kmalloc] *)

(** A piece of [n] bytes that was not in use, or [NULL]. *)
Definition given st g (n gfp r : Z) st' : Prop :=
  ∃ g', slub_inv VA st' g' ∧ evolves VA (used g) st g st' g' ∧ used g ⊆ used g' ∧
    (r = 0 ∨ live VA st' g' r n ∧ (∀ x m, live VA st g x m → x ≠ r) ∧ (has gfp GFP_ZERO = true → ∀ b, r ≤ b < r + n → mem st' b = 0)).

Lemma slab_given st g s l n gfp r st' : slub_inv VA st g → lay_of st s = Some l → n ≤ objsize l → alloc_ok VA st g s gfp r st' → given st g n gfp r st'.
Proof.
  intros Hi Hl Hn (g' & Hi' & He & Hr). exists g'. split; [done|]. split; [done|].
  destruct Hr as [(-> & Hu & _)|(p & l' & R1 & R2 & R3 & R4 & R5 & R6)]; [split; [by rewrite Hu|by left]|].
  rewrite Hl in R4. injection R4 as <-. split; [rewrite R2; set_solver|]. right.
  assert (lay_of st' s = Some l) as Hl' by by rewrite (ev_lay _ _ _ _ _ _ He). split_and!.
  - eapply live_object; try done. rewrite R2. set_solver.
  - intros x m Hx ->. destruct Hx as [q s' l1 X1 X2 X3 X4 X5|q o X1 X2 X3 X4]; [done|].
    destruct (ev_other _ _ _ _ _ _ He q o X2 X3) as (K1 & K2 & K3). pose proof (inv_layout _ _ _ Hi' _ _ Hl') as Ho.
    eapply (inv_other_bytes VA st' g' p s l q o r); try done.
    + rewrite X1. pose proof (Z.pow_pos_nonneg 2 (Z.of_nat o)). change PAGE_SIZE with 4096. lia.
    + eapply objs_bytes; [done..|]. pose proof (lo_size _ Ho). lia.
  - intros Hz b Hb. apply R6; [done|lia].
Qed.

Lemma pages_given constant cpu st g n gfp : slub_inv VA st g → 1 ≤ n < 2 ^ 63 →
  runs (__get_free_pages VA cpu gfp (get_order constant n)) (given st g n gfp) st.
Proof using HVA H0.
  intros Hi Hn. rewrite get_order_constant by done. unfold __get_free_pages. cstep. eapply run_mono; [by apply get_pages_post; [..|apply Hi]|].
  cbv beta. intros [p|] st' Ht; cstep.
  - destruct (take_block st g gfp _ p st' Hi Ht) as (I1 & I2 & I3 & I4 & I5). exists g. split_and!; [done..|]. right. split_and!.
    + eapply live_block; try done. by apply __get_order_fits.
    + intros x m Hx E. destruct Hx as [q s l X1 X2 X3 X4 X5|q o X1 X2 X3 X4].
      * pose proof (inv_layout _ _ _ Hi _ _ X3) as Ho. assert (lay_of st' s = Some l) as Hl' by by rewrite (ev_lay _ _ _ _ _ _ I4).
        eapply (inv_other_bytes VA st' g q s l p _ x); try done.
        -- rewrite E. pose proof (Z.pow_pos_nonneg 2 (Z.of_nat (__get_order n))). change PAGE_SIZE with 4096. lia.
        -- eapply objs_bytes; [done..|]. pose proof (lo_size _ Ho). lia.
      * apply (I5 q X3); [by eexists|]. unfold page_address in *. change PAGE_SIZE with 4096 in *. lia.
    + intros Hz b Hb. destruct Ht as (a & m & -> & _ & _ & _ & _ & Hm). cbn. apply Hm; [done|]. unfold in_pages. pose proof (__get_order_fits n Hn). lia.
  - destruct Ht as (a & m & -> & Ha & Hbl & ->). exists g. split; [apply inv_pages; [done..| |done]; by rewrite Hbl|]. split; [|split; [done|by left]].
    split; try done. intros q o Hq Hs. cbn. by rewrite Hbl.
Qed.

Lemma kmalloc_post constant cpu size gfp st g : slub_inv VA st g → kmalloc_ready online st → cpu ∈ online → 1 ≤ size < 2 ^ 63 →
  runs (kmalloc VA constant cpu size gfp) (given st g size gfp) st.
Proof using HVA H0.
  intros Hi [Hr Hix _] Hcpu Hs.
  assert (size ≤ 2048 → ∃ s, kmalloc_slab size = Some s ∧ runs (slab_alloc VA cpu s gfp) (given st g size gfp) st) as Hslab.
  { intros Hle. destruct (kmalloc_slab_spec size) as (i & E & Hi1 & Hi2 & _); [lia|]. exists (Kmalloc i). split; [done|].
    destruct (Hr i Hi1) as [(l & Hl & Hsz) Hc]. destruct (Hc cpu Hcpu) as [c Hsl]. pose proof Hl as Hl'. unfold lay_of in Hl'.
    destruct (caches st !! Kmalloc i) as [k|] eqn:Hk; [|done]. eapply run_mono; [by eapply slab_alloc_post|].
    intros r st'. eapply slab_given; [done..|]. lia. }
  assert (runs (__kmalloc VA cpu size gfp) (given st g size gfp) st) as Hk.
  { unfold __kmalloc. change (PAGE_SIZE / 2) with 2048. destruct (Z.gtb_spec size 2048) as [Hgt|Hle]; [by apply pages_given|].
    destruct (Hslab Hle) as (s & E & Hrun). apply run_bind. exists (kmalloc_slab size), st. split; [apply get_slab_run; [lia|done]|]. by rewrite E. }
  unfold kmalloc. destruct constant; [|done]. change (PAGE_SIZE / 2) with 2048. destruct (Z.gtb_spec size 2048) as [Hgt|Hle]; [by apply pages_given|].
  destruct (has gfp GFP_DMA); [done|]. destruct (Hslab Hle) as (s & E & Hrun). by rewrite E.
Qed.

(** ** What is left alone *)

(** The caches, their structures and the pieces in use stay as they are. *)
Record frame st g st' g' : Prop := {
  fr_lay s : lay_of st' s = lay_of st s;
  fr_slot s cpu : slot st' s cpu = slot st s cpu;
  fr_static : statics st' = statics st;
  fr_cpus c : (∀ s cpu, slot st s cpu ≠ Some c) → cpus st' !! c = cpus st !! c;
  fr_live x n : live VA st g x n → live VA st' g' x n ∧ same_bytes x n (mem st) (mem st') }.

Lemma frame_trans st g st' g' st'' g'' : frame st g st' g' → frame st' g' st'' g'' → frame st g st'' g''.
Proof.
  intros [A1 A2 A3 A4 A5] [B1 B2 B3 B4 B5]. split.
  - intros s. by rewrite B1.
  - intros s cpu. by rewrite B2.
  - by rewrite B3.
  - intros c Hc. rewrite B4, A4; [done..|]. intros s cpu. by rewrite A2.
  - intros x n Hx. destruct (A5 x n Hx) as [X1 X2]. destruct (B5 x n X1) as [X3 X4]. split; [done|by eapply same_bytes_trans].
Qed.

Lemma evolves_frame st g st' g' : slub_inv VA st g → evolves VA (used g) st g st' g' → used g ⊆ used g' → frame st g st' g'.
Proof. intros Hi He Hu. split; [apply He..|]. intros x n Hx. by eapply (live_same st g x n Hi Hx (used g)). Qed.

(** Writing to a piece in use. *)
Lemma inv_write_live st g r n m : slub_inv VA st g → live VA st g r n → (∀ b, b < r ∨ r + n ≤ b → m b = mem st b) → slub_inv VA (set_mem m st) g.
Proof using HVA H0.
  intros Hi Hr Hm. destruct Hr as [p s l E1 E2 E3 E4 E5|p o E1 E2 E3 E4].
  - eapply inv_write; try done. intros b Hb. apply Hm. pose proof (lo_objsize _ (inv_layout _ _ _ Hi _ _ E3)). lia.
  - apply (inv_pages st g (source st)); [done|by apply Hi|done|]. intros q s l b Hq Hl Hb. apply Hm.
    destruct (Z.lt_ge_cases b r) as [|G1]; [by left|]. destruct (Z.le_gt_cases (r + n) b) as [|G2]; [by right|]. exfalso.
    eapply (inv_other_bytes VA st g q s l p o); try done. lia.
Qed.

(** A new piece may be written to. *)
Lemma frame_write st g st' g' r n m : slub_inv VA st' g' → frame st g st' g' → live VA st' g' r n → 0 < n → (∀ x k, live VA st g x k → x ≠ r) →
  (∀ b, b < r ∨ r + n ≤ b → m b = mem st' b) → frame st g (set_mem m st') g'.
Proof.
  intros Hi [A1 A2 A3 A4 A5] Hr Hn Hfr Hm. split; try done. intros x k Hx. destruct (A5 x k Hx) as [X1 X2]. split; [by apply (live_ext VA st')|].
  intros b Hb. cbn. rewrite Hm; [by apply X2|]. destruct (live_apart st' g' x k r n Hi X1 Hr) as [G|G]; [lia|done|by eapply Hfr|lia|lia].
Qed.

(** ** [kfree] *)

Lemma kfree_object_post cpu st g x p s l c : slub_inv VA st g → head_page (source st) (virt_to_page VA x) = Some p →
  x ∈ used g → slabs g !! p = Some s → lay_of st s = Some l → x ∈ objs VA l p → slot st s cpu = Some c →
  runs (kfree VA cpu x) (λ _ st', free_ok VA st g x st') st.
Proof using HVA H0.
  intros Hi Hh Hu Hp Hl Hx Hsl. pose proof (inv_ptr VA HVA st g p s l x Hi Hp Hl Hx) as [Hlow _].
  unfold kfree, ZERO_OR_NULL_PTR, ZERO_SIZE_PTR. rewrite (proj2 (Z.leb_gt x 16)) by (change PAGE_SIZE with 4096 in *; lia).
  cstep. eapply run_getm; [exact Hh|]. cstep. cstep. destruct (inv_page _ _ _ Hi p) as (_ & P2 & _ & P4).
  rewrite P2, bool_decide_eq_true_2 by by eexists. cbn [negb]. rewrite (P4 s Hp). cstep. eapply run_lift; [done|].
  pose proof Hl as Hl'. unfold lay_of in Hl'. destruct (caches st !! s) as [k|] eqn:Hk; [|done]. injection Hl' as El. subst l.
  destruct (inv_cpu _ _ _ Hi s (lay k) cpu c Hsl Hl) as (y & Hy & _). by eapply slab_free_post.
Qed.

Lemma kfree_block_post cpu st g p o : slub_inv VA st g → blocks (source st) !! p = Some o → slabs g !! p = None →
  runs (kfree VA cpu (page_address VA p)) (λ _ st', ∃ a, st' = set_source a st ∧ blocks_ok a ∧ blocks a = delete p (blocks (source st))) st.
Proof using HVA H0.
  intros Hi Hb Hs. assert (live VA st g (page_address VA p) 1) as Hlive.
  { eapply live_block; try done. pose proof (Z.pow_pos_nonneg 2 (Z.of_nat o)). change PAGE_SIZE with 4096. lia. }
  pose proof (live_ptr _ _ _ _ Hi Hlive) as Hlow.
  unfold kfree, ZERO_OR_NULL_PTR, ZERO_SIZE_PTR. rewrite (proj2 (Z.leb_gt _ 16)) by (change PAGE_SIZE with 4096 in *; lia).
  cstep. eapply (run_getm _ p).
  { eapply head_page_ok; [apply Hi|done|]. unfold virt_to_page, page_address, in_block.
    replace (VA + p * PAGE_SIZE - VA) with (p * PAGE_SIZE) by lia. rewrite Z.div_mul by done. pose proof (Z.pow_pos_nonneg 2 (Z.of_nat o)). lia. }
  cstep. cstep. destruct (inv_page _ _ _ Hi p) as (P1 & P2 & P3 & _). rewrite P2, bool_decide_eq_false_2 by (rewrite Hs; by intros []). cbn [negb].
  unfold put_page. cstep. cstep. cstep. apply run_BUG_ON. { unfold clean. by rewrite P1, P2, P3, bool_decide_eq_false_2 by (rewrite ?Hs; done || by intros []). }
  destruct (put_pages_ok cpu p o (source st) (inv_source _ _ _ Hi) Hb) as (a & Hput & Ha & Hbl).
  cstep. eapply run_getm; [exact Hput|]. cstep. by exists a.
Qed.

End heap.

(** ** The slab allocator implements a heap

    Each request of a client is a step of the heap, and so is any run of a
    client that looks at the results it has got. *)

Section refine.
Context {A : Type} `{BlockSourceLaws A} (VA : Z) (HVA : linear_ok VA) (online : list nat).
Implicit Types (st : slub (A := A)) (g : ghost) (h : heap).

Definition serve_heap (req : heap_request) : command (slub (A := A)) Z :=
  match req with
  | HAlloc constant cpu size gfp => kmalloc VA constant cpu size gfp
  | HFree cpu x => kfree VA cpu x;; mret 0
  | HWrite x i b => modify (λ st, set_mem (<[x + Z.of_nat i := b]> (mem st)) st);; mret 0
  | HRead x i => gets (λ st, mem st (x + Z.of_nat i))
  end.

(** The piece at [x] holds the bytes [bs]. *)
Record holds st g (x : Z) (bs : list Z) : Prop := {
  hl_pos : bs ≠ [];
  hl_live : live VA st g x (Z.of_nat (length bs));
  hl_bytes i b : bs !! i = Some b → mem st (x + Z.of_nat i) = b }.

Definition heap_rel st h : Prop :=
  ∃ g, slub_inv VA st g ∧ kmalloc_ready online st ∧ ∀ x bs, h !! x = Some bs → holds st g x bs.

Lemma ready_evolves u st g st' g' : evolves VA u st g st' g' → kmalloc_ready online st → kmalloc_ready online st'.
Proof. intros He. apply kmalloc_ready_same; [apply He..|]. by injection (ev_static _ _ _ _ _ _ He). Qed.

(** A piece keeps its bytes. *)
Lemma holds_evolves st g x bs u st' g' : slub_inv VA st g → holds st g x bs → evolves VA u st g st' g' → (x ∈ used g → x ∈ u) → u ⊆ used g' →
  holds st' g' x bs.
Proof.
  intros Hi [H1 H2 H3] He Hu Hu'. destruct (live_same VA st g x _ Hi H2 u st' g' He Hu Hu') as [L1 L2]. split; [done..|].
  intros i b Hb. rewrite L2; [by apply H3|]. apply lookup_lt_Some in Hb. lia.
Qed.

Lemma holds_apart st g x bs y bs' : slub_inv VA st g → holds st g x bs → holds st g y bs' → x ≠ y →
  x + Z.of_nat (length bs) ≤ y ∨ y + Z.of_nat (length bs') ≤ x.
Proof.
  intros Hi [X1 X2 X3] [Y1 Y2 Y3] Hne. apply (live_apart VA st g); try done; [destruct bs|destruct bs']; cbn; done || lia.
Qed.

(** ** The four requests *)

Lemma heap_alloc st h constant cpu size gfp : heap_rel st h → cpu ∈ online → 1 ≤ size < 2 ^ 63 →
  runs (kmalloc VA constant cpu size gfp) (λ r st', ∃ h', heap_step h (HAlloc constant cpu size gfp) r h' ∧ heap_rel st' h') st.
Proof using HVA H0.
  intros (g & Hi & Hr & Hh) Hcpu Hs. eapply run_mono; [by eapply kmalloc_post|]. cbv beta.
  intros r st' (g' & Hi' & He & Hu & Hres).
  assert (∀ x bs, h !! x = Some bs → holds st' g' x bs) as Hold by (intros x bs Hx; eapply (holds_evolves st g); [done|by apply Hh|done..]).
  destruct Hres as [->|(Hl & Hfr & Hz)].
  { exists h. split; [right; left; split_and!; [lia|done..]|]. exists g'. split_and!; [done|by eapply ready_evolves|done]. }
  set (bs := (λ i : nat, mem st' (r + Z.of_nat i)) <$> seq 0 (Z.to_nat size)).
  assert (Z.of_nat (length bs) = size) as Hlen by (unfold bs; rewrite length_fmap, length_seq; lia).
  assert (holds st' g' r bs) as Hnew.
  { split; [intros E; rewrite E in Hlen; cbn in Hlen; lia|by rewrite Hlen|]. intros i b. unfold bs.
    rewrite list_lookup_fmap, fmap_Some. by intros (j & [-> _]%lookup_seq & ->). }
  exists (<[r := bs]> h). split.
  - right. right. exists bs. split_and!; [lia|by eapply live_ptr|done|done| |].
    + intros Hzero. apply Forall_fmap, Forall_seq. intros j Hj. cbn. apply Hz; [done|lia].
    + intros x bs' Hx. rewrite <-Hlen. apply (holds_apart st' g'); [done..|by apply Hold|]. apply not_eq_sym. by eapply Hfr, (Hh x bs' Hx).
  - exists g'. split_and!; [done|by eapply ready_evolves|]. intros x bs' [[<- <-]|[Hne Hx]]%lookup_insert_Some; [done|by apply Hold].
Qed.

Lemma heap_free st h cpu x bs : heap_rel st h → cpu ∈ online → h !! x = Some bs → runs (kfree VA cpu x) (λ _ st', heap_rel st' (delete x h)) st.
Proof using HVA H0.
  intros (g & Hi & Hr & Hh) Hcpu Hx. destruct (live_head VA HVA st g x _ Hi (hl_live _ _ _ _ (Hh x bs Hx))) as (p & Hp & Hc).
  destruct Hc as [(s & l & U1 & U2 & U3 & U4)|(o & -> & U2 & U3)].
  - destruct (kr_slots _ _ Hr s cpu) as [c Hc]; [by eexists|done|]. eapply run_mono; [by eapply kfree_object_post|]. cbv beta.
    intros _ st' (g' & Hi' & Hu & He). exists g'. split_and!; [done|by eapply ready_evolves|]. intros y bs' [Hne Hy]%lookup_delete_Some.
    eapply (holds_evolves st g); [done|by apply Hh|done| |by rewrite Hu]. intros Hyu. set_solver.
  - eapply run_mono; [by eapply kfree_block_post|]. cbv beta. intros _ st' (a & -> & Ha & Hbl). exists g. split_and!.
    + apply (inv_pages VA st g a (mem st)); try done. intros q s Hq. rewrite Hbl, lookup_delete_ne; [done|]. congruence.
    + by apply (kmalloc_ready_same online st).
    + intros y bs' [Hne Hy]%lookup_delete_Some. destruct (Hh y bs' Hy) as [Y1 Y2 Y3]. split; [done| |done].
      destruct Y2 as [q s l|q o' E1 E2 E3 E4]; [by eapply live_object|]. eapply live_block; try done. cbn.
      rewrite Hbl, lookup_delete_ne; [done|]. intros ->. done.
Qed.

Lemma heap_write st h x i b bs : heap_rel st h → h !! x = Some bs → (i < length bs)%nat →
  heap_rel (set_mem (<[x + Z.of_nat i := b]> (mem st)) st) (<[x := <[i := b]> bs]> h).
Proof.
  intros (g & Hi & Hr & Hh) Hx Hlt. pose proof (Hh x bs Hx) as Hp. pose proof Hp as [X1 X2 X3]. exists g. split_and!.
  - eapply inv_write_live; [done|done|exact X2|]. intros b' Hb'. apply fn_lookup_insert_ne. lia.
  - by apply (kmalloc_ready_same online st).
  - intros y bs' [[<- <-]|[Hne Hy]]%lookup_insert_Some.
    + split; [by destruct bs, i| |].
      * rewrite length_insert. by apply (live_ext VA st).
      * intros j b' Hj. cbn. destruct (decide (j = i)) as [->|Hji].
        -- rewrite list_lookup_insert_eq in Hj by done. rewrite fn_lookup_insert. congruence.
        -- rewrite list_lookup_insert_ne in Hj by done. rewrite fn_lookup_insert_ne by lia. by apply X3.
    + pose proof (Hh y bs' Hy) as Hq. destruct (holds_apart st g x bs y bs' Hi Hp Hq Hne) as [G|G]; destruct Hq as [Y1 Y2 Y3].
      all: split; [done|by apply (live_ext VA st)|].
      all: intros j b' Hj; cbn; rewrite fn_lookup_insert_ne; [by apply Y3|]; apply lookup_lt_Some in Hj; lia.
Qed.

Lemma serve_heap_post st h req : heap_rel st h → heap_allowed online h req →
  runs (serve_heap req) (λ r st', ∃ h', heap_step h req r h' ∧ heap_rel st' h') st.
Proof using HVA H0.
  intros Hrel Ha. destruct req as [constant cpu size gfp|cpu x|x i b|x i]; cbn [serve_heap heap_allowed] in *.
  - destruct Ha as [Hcpu Hs]. destruct (decide (size = 0)) as [->|Hne]; [|apply heap_alloc; [done..|lia]].
    destruct Hrel as (g & Hi & Hr & Hh). exists ZERO_SIZE_PTR, st. split; [|exists h; split; [by left|by exists g]].
    unfold kmalloc, __kmalloc. destruct constant, (has gfp GFP_DMA); reflexivity.
  - destruct Ha as [Hcpu [[bs Hx]|Hz]]; cstep.
    + eapply run_mono; [by eapply heap_free|]. intros u st' Hrel'. cbv beta in Hrel'. clear u. cstep. by exists (delete x h).
    + unfold kfree. rewrite Hz. cstep. cstep. exists h. split; [|done]. split; [done|]. symmetry. apply delete_id.
      apply eq_None_not_Some. intros [bs Hx]. destruct Hrel as (g & Hi & _ & Hh). pose proof (live_ptr VA HVA _ _ _ _ Hi (hl_live _ _ _ _ (Hh x bs Hx))).
      apply Z.leb_le in Hz. unfold ZERO_SIZE_PTR in Hz. change PAGE_SIZE with 4096 in *. lia.
  - destruct Ha as (bs & Hx & Hi). cstep. cstep. cstep. exists (<[x := <[i := b]> bs]> h). split; [by exists bs|by apply heap_write].
  - destruct Ha as (bs & Hx & Hi). apply lookup_lt_is_Some in Hi as [b Hb]. cstep. exists h. split; [|done]. exists bs. split_and!; [done| |done].
    destruct Hrel as (g & _ & _ & Hh). by rewrite (hl_bytes _ _ _ _ (Hh x bs Hx) i b Hb).
Qed.

(** ** Clients *)

(** A client chooses the next request from the results so far. *)
Fixpoint run_client (client : list Z → heap_request) (n : nat) (rs : list Z) : command (slub (A := A)) (list Z) :=
  match n with
  | O => mret rs
  | S n => r ← serve_heap (client rs); run_client client n (rs ++ [r])
  end.

End refine.

Inductive heap_run (client : list Z → heap_request) : nat → list Z → heap → list Z → heap → Prop :=
  | heap_run_done rs h : heap_run client 0 rs h rs h
  | heap_run_step n rs h r h1 rs' h' : heap_step h (client rs) r h1 → heap_run client n (rs ++ [r]) h1 rs' h' → heap_run client (S n) rs h rs' h'.

(** A client that, whatever the heap answers, asks for what it may. *)
Definition well_behaved (online : list nat) (client : list Z → heap_request) (rs : list Z) (h : heap) : Prop :=
  ∀ n rs' h', heap_run client n rs h rs' h' → heap_allowed online h' (client rs').

Lemma run_client_post {A : Type} `{BlockSourceLaws A} VA online client (HVA : linear_ok VA) : ∀ n st h rs, heap_rel (A := A) VA online st h →
  well_behaved online client rs h →
  runs (run_client VA client n rs) (λ rs' st', ∃ h', heap_run client n rs h rs' h' ∧ heap_rel VA online st' h') st.
Proof.
  induction n as [|n IH]; intros st h rs Hrel Hw; cbn [run_client].
  { cstep. exists h. split; [constructor|done]. }
  cstep. eapply run_mono; [apply (serve_heap_post VA HVA online st h); [done|by apply (Hw 0%nat); constructor]|].
  cbv beta. intros r st1 (h1 & Hstep & Hrel1). eapply run_mono; [apply (IH st1 h1 (rs ++ [r])); [done|]|].
  - intros m rs' h' Hrun. eapply (Hw (S m)). by econstructor.
  - cbv beta. intros rs' st' (h' & Hrun & Hrel'). exists h'. split; [by econstructor|done].
Qed.
