(* ===== verification/SlubCreate.v ===== *)
(** * Creating caches

    [kmem_cache_create] shares a cache whose objects are large enough, or opens
    one in memory from [kmalloc]. *)
From stdpp Require Import functions gmap.
From S2P Require Import Prelude BlockSource Command Slub SlubInv SlubStep SlubOps SlubAlloc SlubSizes SlubInit SlubHeap.

Section create.
Context {A : Type} `{BlockSourceLaws A} (VA : Z) (HVA : linear_ok VA) (cache_line : Z) (online : list nat).
Context (Hline : pow2_between 3 20 cache_line) (Honline : NoDup online) (Hcpus : ∀ cpu, cpu ∈ online → (cpu < NR_CPUS)%nat).
Implicit Types (st : slub (A := A)) (g : ghost).

(** ** Sharing a cache *)

(** A layout whose objects are used for larger ones. *)
Record widened (l l' : layout) : Prop := {
  wd_size : size l' = size l;
  wd_offset : offset l' = offset l;
  wd_order : order l' = order l;
  wd_objects : objects l' = objects l;
  wd_ctor : ctor l' = ctor l;
  wd_objsize : objsize l ≤ objsize l' }.

Lemma widened_objs l l' p : widened l l' → objs VA l' p = objs VA l p.
Proof. intros [E1 _ _ E2 _ _]. unfold objs. by rewrite E1, E2. Qed.

Record merged_cache st st' (s : cache_ptr) (l l' : layout) : Prop := {
  mc_wide : widened l l';
  mc_ok : layout_ok l';
  mc_old : lay_of st s = Some l;
  mc_new : lay_of st' s = Some l';
  mc_lay s' : s' ≠ s → lay_of st' s' = lay_of st s';
  mc_node s' : node_of st' s' = node_of st s';
  mc_slot s' cpu : slot st' s' cpu = slot st s' cpu;
  mc_same : (mem st', pages st', source st') = (mem st, pages st, source st);
  mc_cpus s' cpu c x : slot st s' cpu = Some c → cpus st !! c = Some x → ∃ x', cpus st' !! c = Some x' ∧
    c_freelist x' = c_freelist x ∧ c_page x' = c_page x ∧ c_offset x' = c_offset x ∧
    c_objsize x' = if decide (s' = s) then objsize l' else c_objsize x }.

Lemma merged_lay st st' s l l' s' l1 : merged_cache st st' s l l' → lay_of st' s' = Some l1 → ∃ l0, lay_of st s' = Some l0 ∧ widened l0 l1.
Proof.
  intros Hm Hl. destruct (decide (s' = s)) as [->|Hne].
  - rewrite (mc_new _ _ _ _ _ Hm) in Hl. injection Hl as <-. exists l. split; apply Hm.
  - rewrite (mc_lay _ _ _ _ _ Hm) in Hl by done. exists l1. split; [done|]. by split.
Qed.

Lemma merged_inv st st' s l l' g : merged_cache st st' s l l' → slub_inv VA st g → slub_inv VA st' g.
Proof.
  intros Hm Hi. pose proof Hi as [I1 I2 I3 I4 I5 I6 I7 I8 I9 I10 I11]. injection (mc_same _ _ _ _ _ Hm) as E1 E2 E3.
  pose proof (mc_slot _ _ _ _ _ Hm) as Hslot.
  assert (∀ s' l0, lay_of st s' = Some l0 → ∃ l1, lay_of st' s' = Some l1 ∧ widened l0 l1) as Hfor.
  { intros s' l0 Hl0. destruct (decide (s' = s)) as [->|Hne].
    - rewrite (mc_old _ _ _ _ _ Hm) in Hl0. injection Hl0 as <-. exists l'. split; apply Hm.
    - exists l0. rewrite (mc_lay _ _ _ _ _ Hm) by done. split; [done|by split]. }
  assert (∀ s' cpu c x', slot st s' cpu = Some c → cpus st' !! c = Some x' → ∃ x, cpus st !! c = Some x ∧ c_page x' = c_page x) as Hback.
  { intros s' cpu c x' Hs Hx'. assert (is_Some (lay_of st s')) as [l0 Hl0].
    { unfold slot in Hs. unfold lay_of. destruct (caches st !! s'); [by eexists|done]. }
    destruct (I7 s' l0 cpu c Hs Hl0) as (x & Hx & _). exists x. split; [done|].
    destruct (mc_cpus _ _ _ _ _ Hm s' cpu c x Hs Hx) as (x2 & Hx2 & _ & Hp & _). congruence. }
  split; rewrite ?E1, ?E2, ?E3; try done.
  - intros p s' Hp. destruct (I2 p s' Hp) as (l0 & Hl0 & Hb). destruct (Hfor s' l0 Hl0) as (l1 & Hl1 & [_ _ Ho _ _ _]). exists l1. split; [done|]. by rewrite Ho.
  - intros s' l1 Hl1. destruct (decide (s' = s)) as [->|Hne].
    + rewrite (mc_new _ _ _ _ _ Hm) in Hl1. injection Hl1 as <-. apply Hm.
    + rewrite (mc_lay _ _ _ _ _ Hm) in Hl1 by done. by apply I4 in Hl1.
  - intros p s' l1 Hp Hl1. destruct (merged_lay _ _ _ _ _ _ _ Hm Hl1) as (l0 & Hl0 & Hw). destruct (I5 p s' l0 Hp Hl0) as [S1 S2 S3 S4 S5 S6].
    pose proof (widened_objs _ _ p Hw) as Ho. destruct Hw as [W1 W2 W3 W4 W5 W6]. split; rewrite ?Ho, ?W2, ?W4; done.
  - intros s' n. rewrite (mc_node _ _ _ _ _ Hm). apply I6.
  - intros s' l1 cpu c. rewrite Hslot. intros Hs Hl1. destruct (merged_lay _ _ _ _ _ _ _ Hm Hl1) as (l0 & Hl0 & Hw).
    destruct (I7 s' l0 cpu c Hs Hl0) as (x & Hx & [C1 C2 C3]). destruct (mc_cpus _ _ _ _ _ Hm s' cpu c x Hs Hx) as (x' & Hx' & F1 & F2 & F3 & F4).
    exists x'. split; [done|]. split; [by rewrite F3, (wd_offset _ _ Hw)| |by rewrite F1, F2, E1, E2, (wd_offset _ _ Hw)].
    rewrite F4. case_decide as D; [subst s'|].
    + rewrite (mc_new _ _ _ _ _ Hm) in Hl1. congruence.
    + rewrite (mc_lay _ _ _ _ _ Hm) in Hl1 by done. congruence.
  - intros s1 cpu1 s2 cpu2 c. rewrite !Hslot. apply I8.
  - intros p s' Hp Ha. destruct (I9 p s' Hp Ha) as (cpu & c & x & Hs & Hx & Hpg).
    destruct (mc_cpus _ _ _ _ _ Hm s' cpu c x Hs Hx) as (x' & Hx' & _ & F2 & _). exists cpu, c, x'. rewrite Hslot. by rewrite F2.
  - intros s1 cpu1 c1 x1 s2 cpu2 c2 x2 p. rewrite !Hslot. intros G1 G2 G3 G4 G5 G6.
    destruct (Hback _ _ _ _ G1 G2) as (y1 & Hy1 & Ey1). destruct (Hback _ _ _ _ G4 G5) as (y2 & Hy2 & Ey2).
    eapply (I10 s1 cpu1 c1 y1 s2 cpu2 c2 y2 p); congruence.
  - intros x Hx. destruct (I11 x Hx) as (p & s' & l0 & Hp & Hl0 & Ho). destruct (Hfor s' l0 Hl0) as (l1 & Hl1 & Hw).
    exists p, s', l1. split_and!; [done..|]. by rewrite (widened_objs _ _ p Hw).
Qed.

Lemma merged_live st st' s l l' g x n : merged_cache st st' s l l' → live VA st g x n → live VA st' g x n ∧ same_bytes x n (mem st) (mem st').
Proof.
  intros Hm Hx. injection (mc_same _ _ _ _ _ Hm) as E1 E2 E3. split; [|by rewrite E1].
  destruct Hx as [p s' l0 X1 X2 X3 X4 X5|p o X1 X2 X3 X4]; [|eapply live_block; try done; by rewrite E3].
  destruct (decide (s' = s)) as [->|Hne].
  - rewrite (mc_old _ _ _ _ _ Hm) in X3. injection X3 as <-. pose proof (mc_wide _ _ _ _ _ Hm) as Hw.
    pose proof (wd_objsize _ _ Hw). apply (live_object VA st' g x n p s l'); [done|done|apply Hm|by rewrite (widened_objs _ _ p Hw)|lia].
  - eapply live_object; try done. by rewrite (mc_lay _ _ _ _ _ Hm).
Qed.

(** The new size of the objects goes to the processors. *)
Lemma set_objsizes_post n s : ∀ l st, (∀ cpu, cpu ∈ l → ∃ c x, slot st s cpu = Some c ∧ cpus st !! c = Some x) →
  runs (each (λ cpu, c ← get_cpu_slab s cpu; mod_cpu c (set_c_objsize n)) l) (λ _ st', ∃ m, st' = set_cpus m st ∧
    (∀ c, (∀ cpu, cpu ∈ l → slot st s cpu ≠ Some c) → m !! c = cpus st !! c) ∧
    ∀ c x, cpus st !! c = Some x → ∃ x', m !! c = Some x' ∧ c_freelist x' = c_freelist x ∧ c_page x' = c_page x ∧ c_offset x' = c_offset x ∧
      ((∃ cpu, cpu ∈ l ∧ slot st s cpu = Some c) → c_objsize x' = n)) st.
Proof.
  induction l as [|cpu l IH]; intros st Hl; cbn [each].
  { cstep. exists (cpus st). split; [by destruct st|]. split; [done|]. intros c x Hx. exists x. split_and!; [done..|]. by intros (? & ?%elem_of_nil & _). }
  destruct (Hl cpu) as (c & x & Hc & Hx); [by left|]. cstep. cstep. eapply run_get_cpu_slab; [exact Hc|]. cstep.
  eapply run_mono; [apply IH|].
  - intros cpu' Hcpu'. destruct (Hl cpu') as (c' & x' & Hc' & Hx'); [by right|]. exists c'. cbn.
    destruct (decide (c' = c)) as [->|Hne]; [exists (set_c_objsize n x); by rewrite lookup_insert_eq|exists x'; by rewrite lookup_insert_ne].
  - cbv beta. intros _ st' (m & -> & Hm1 & Hm2). exists m. split; [done|]. cbn in Hm1, Hm2. split.
    + intros c' Hc'. rewrite Hm1; [rewrite lookup_insert_ne; [done|]|intros cpu' Hin; apply Hc'; by right]. intros <-. apply (Hc' cpu); [by left|done].
    + intros c' x' Hx'. destruct (decide (c' = c)) as [->|Hne].
      * simplify_eq. destruct (Hm2 c (set_c_objsize n x)) as (x1 & E1 & E2 & E3 & E4 & E5); [by rewrite lookup_insert_eq|].
        exists x1. split_and!; [done..|]. intros _. destruct (decide (Exists (λ cpu', slot st s cpu' = Some c) l)) as [Hin|Hout]; [by apply E5, Exists_exists|].
        assert (m !! c = Some (set_c_objsize n x)) as E; [|rewrite E in E1; by injection E1 as <-].
        rewrite Hm1; [by rewrite lookup_insert_eq|]. intros cpu' Hin E. apply Hout, Exists_exists. by exists cpu'.
      * destruct (Hm2 c' x') as (x1 & E1 & E2 & E3 & E4 & E5); [by rewrite lookup_insert_ne|]. exists x1. split_and!; [done..|].
        intros (cpu' & [->|Hin]%elem_of_cons & Hs'); [congruence|]. apply E5. by exists cpu'.
Qed.

Definition wide_layout (sz : Z) (l : layout) : layout :=
  mk_layout (flags l) (size l) (Z.max (objsize l) (s32 sz)) (offset l) (order l) (objects l) (Z.max (inuse l) (s32 (ALIGN sz sizeof_ptr))) (align l) (ctor l).

Lemma merge_into_post sz s l st g P : slub_inv VA st g → caches_ok VA online st g P → lay_of st s = Some l → ctor l = None → 1 ≤ sz ≤ size l →
  runs (merge_into online sz s) (λ _ st', merged_cache st st' s l (wide_layout sz l) ∧ caches_ok VA online st' g P) st.
Proof.
  intros Hi [[K1 K2 K3] K4 K5 K6 K7] Hl Hct Hsz. pose proof (inv_layout _ _ _ Hi _ _ Hl) as Ho. pose proof (lo_size _ Ho). pose proof (lo_objsize _ Ho).
  destruct (inv_cache VA st g s l Hi Hl) as (k & Hk & El). subst l. unfold merge_into. csteps. rewrite !insert_insert_eq.
  set (k1 := set_lay _ _). set (st1 := set_caches (<[s := k1]> (caches st)) st).
  assert (u32 (objsize (lay k1)) = Z.max (objsize (lay k)) sz) as Hu. { unfold k1. cbn. rewrite (s32_small sz), u32_small by lia. done. }
  assert (∀ s' cpu, slot st1 s' cpu = slot st s' cpu) as Hslot1.
  { intros s' cpu. unfold slot, st1. cbn. destruct (decide (s' = s)) as [->|Hne]; [by rewrite lookup_insert_eq, Hk|by rewrite lookup_insert_ne]. }
  eapply run_mono; [apply (set_objsizes_post _ s online st1)|].
  { intros cpu Hcpu. rewrite Hslot1. destruct (K3 s cpu) as [c Hc]; [by exists (lay k)|done|].
    destruct (inv_cpu _ _ _ Hi s (lay k) cpu c Hc Hl) as (x & Hx & _). by exists c, x. }
  cbv beta. intros _ st2 (m & -> & Hm1 & Hm2). rewrite Hu in Hm2. unfold st1. csteps. cbn [caches set_caches set_cpus].
  rewrite insert_insert_eq.
  match goal with |- context [set_caches (<[s := ?k0]> (caches st)) _] => set (k2 := k0); set (st' := set_caches _ _) end.
  assert (lay k2 = wide_layout sz (lay k)) as Hk2. { unfold k2, wide_layout. cbn. by rewrite (s32_small sz) by lia. }
  assert (∀ s', s' ≠ s → caches st' !! s' = caches st !! s') as Hne by (intros s' Hs; unfold st'; cbn; by rewrite lookup_insert_ne).
  assert (caches st' !! s = Some k2) as Heq by (unfold st'; cbn; by rewrite lookup_insert_eq).
  assert (∀ s' cpu, slot st' s' cpu = slot st s' cpu) as Hslot.
  { intros s' cpu. unfold slot. destruct (decide (s' = s)) as [->|Hs]; [by rewrite Heq, Hk|by rewrite Hne]. }
  assert (merged_cache st st' s (lay k) (wide_layout sz (lay k))) as Hmc.
  { split; try done.
    - split; try done. cbn. lia.
    - destruct Ho as [O1 O2 O3 O4 O5 O6 O7 O8 O9 O10]. split; try done; cbn; [rewrite s32_small by lia; lia|by rewrite Hct].
    - by rewrite (lay_of_cache _ _ _ Heq), Hk2.
    - intros s' Hs. unfold lay_of. by rewrite Hne.
    - intros s'. unfold node_of. destruct (decide (s' = s)) as [->|Hs]; [by rewrite Heq, Hk|by rewrite Hne].
    - intros s' cpu c x Hs Hx. destruct (Hm2 c x Hx) as (x' & E1 & E2 & E3 & E4 & E5). exists x'. split_and!; [done..|]. case_decide as D.
      + subst s'. cbn. rewrite (s32_small sz) by lia. apply E5. exists cpu. rewrite Hslot1. split; [|done]. apply (K5 s). by exists c.
      + rewrite Hm1 in E1; [cbn in E1; congruence|]. intros cpu' _. rewrite Hslot1. intros Hs'. apply D. by destruct (inv_slot _ _ _ Hi _ _ _ _ _ Hs Hs'). }
  split; [done|]. split.
  - split; [|done|].
    + intros i Hin. destruct (K1 i Hin) as [(l0 & Hl0 & Hs0) Hc]. split; [|intros cpu; rewrite Hslot; apply Hc].
      destruct (decide (Kmalloc i = s)) as [<-|Hs].
      * exists (wide_layout sz (lay k)). split; [apply Hmc|]. rewrite Hl in Hl0. injection Hl0 as <-. cbn. lia.
      * exists l0. by rewrite (mc_lay _ _ _ _ _ Hmc) by done.
    + intros s' cpu Hs'. rewrite Hslot. apply K3. destruct Hs' as [l1 Hl1]. destruct (merged_lay _ _ _ _ _ _ _ Hmc Hl1) as (l0 & Hl0 & _). by exists l0.
  - destruct K4 as [P1 P2 P3 P4]. split; [|done|done|intros cpu c s' cpu'; rewrite Hslot; apply P4].
    intros cpu. apply (pool_chain_same (cpus st)); [|apply P1]. intros c Hc. apply Hm1. intros cpu' _. rewrite Hslot1. by eapply P4.
  - intros s' cpu. rewrite Hslot. apply K5.
  - intros s' Hs'. destruct (decide (s' = s)) as [->|Hs]; [by exists k2|]. rewrite Hne by done. by apply K6.
  - intros a Ha. destruct (K7 a) as [n Hn]; [|exists n; by eapply merged_live].
    destruct (decide (Created a = s)) as [<-|Hs]; [by exists k|]. by rewrite Hne in Ha.
Qed.

(** ** Finding a cache to share *)

Lemma masked_divide x e : 0 ≤ x < 2 ^ 40 → 0 ≤ e ≤ 40 → Z.land (u64 x) (u64 (Z.lnot (2 ^ e - 1))) = u64 x → (2 ^ e | x).
Proof.
  intros Hx He. assert (0 < 2 ^ e ≤ 2 ^ 40) as Hp by (split; [lia|apply Z.pow_le_mono_r; lia]). rewrite (u64_small x) by lia.
  assert (Z.land x (u64 (Z.lnot (2 ^ e - 1))) = round_down x (2 ^ e)) as ->.
  { unfold round_down, __round_mask. by rewrite (u64_small (2 ^ e - 1)) by lia. }
  rewrite round_down_pow2 by lia. intros <-. apply Z.divide_factor_l.
Qed.

Lemma mergeable_spec sz e fl k : layout_ok (lay k) → 0 ≤ e ≤ 40 → mergeable sz (2 ^ e) fl k = true →
  ctor (lay k) = None ∧ sz ≤ size (lay k) ∧ (2 ^ e | size (lay k)).
Proof.
  intros Ho He. pose proof (lo_size _ Ho). unfold mergeable, slab_unmergeable. rewrite !andb_true_iff, !negb_true_iff, !orb_false_iff, bool_decide_eq_false.
  intros ((((((_ & Hct) & _) & Hsz) & _) & Hal) & _). split_and!.
  - destruct (ctor (lay k)); [|done]. by destruct Hct.
  - rewrite u64_small in Hsz by lia. destruct (Z.gtb_spec sz (size (lay k))); [done|lia].
  - apply Z.eqb_eq in Hal. apply masked_divide; [lia|done|done].
Qed.

Lemma find_mergeable_loop_post sz e fl st g : slub_inv VA st g → 0 ≤ e ≤ 40 → ∀ l, (∀ s, s ∈ l → is_Some (caches st !! s)) →
  runs (find_mergeable_loop sz (2 ^ e) fl l) (λ r st', st' = st ∧ ∀ s, r = Some s → ∃ lo, lay_of st s = Some lo ∧ ctor lo = None ∧
    sz ≤ size lo ∧ (2 ^ e | size lo)) st.
Proof.
  intros Hi He. induction l as [|s l IH]; intros Hl; cbn [find_mergeable_loop]; [by cstep|].
  destruct (Hl s) as [k Hk]; [by left|]. csteps. destruct (mergeable sz (2 ^ e) fl k) eqn:Em.
  - cstep. split; [done|]. intros s' [= <-]. exists (lay k). split; [by apply lay_of_cache|]. eapply mergeable_spec; [|done|done].
    eapply inv_layout; [done|by apply lay_of_cache].
  - apply IH. intros s' Hs'. apply Hl. by right.
Qed.

Lemma find_mergeable_post sz al fl ctor st g P : slub_inv VA st g → caches_ok VA online st g P → open_args sz al ctor →
  runs (find_mergeable cache_line sz al fl ctor) (λ r st', st' = st ∧ ∀ s, r = Some s → ctor = None ∧ ∃ l, lay_of st s = Some l ∧ Slub.ctor l = None ∧
    sz ≤ size l ∧ (al ≠ 0 → (al | size l))) st.
Proof using Hline.
  intros Hi Hc [A1 A2 A3]. unfold find_mergeable. destruct (has fl SLUB_NEVER_MERGE); [by cstep|]. destruct ctor as [f|]; [by cstep|].
  destruct (ALIGN_pow2 sz 3) as [B1 _]; [lia..|]. change (2 ^ 3) with sizeof_ptr in B1. unfold sizeof_ptr at 3 in B1.
  destruct (calculate_alignment_spec cache_line fl al (ALIGN sz sizeof_ptr) Hline A2) as [(e & He & Ee) Hle]. rewrite Ee in *.
  destruct (ALIGN_pow2 (ALIGN sz sizeof_ptr) e) as [D1 _]; [lia..|]. cstep. cstep.
  eapply run_mono; [apply (find_mergeable_loop_post _ e fl st g Hi); [lia|apply Hc]|]. cbv beta. intros r st' [-> Hr]. split; [done|].
  intros s Es. split; [done|]. destruct (Hr s Es) as (l & L1 & L2 & L3 & L4). exists l. split_and!; [done|done|lia|].
  intros Hne. destruct A2 as [?|(a & Ha & ->)]; [done|]. etransitivity; [|exact L4]. apply pow2_le in Hle; [|lia..].
  exists (2 ^ (e - a)). rewrite <-Z.pow_add_r by lia. f_equal. lia.
Qed.

(** ** A new cache *)

Lemma caches_ok_frame st g st' g' P : frame VA st g st' g' → caches_ok VA online st g P → caches_ok VA online st' g' P.
Proof.
  intros [F1 F2 F3 F4 F5] [K1 [P1 P2 P3 P4] K5 K6 K7]. injection F3 as E1 E2 E3 E4.
  assert (∀ s, is_Some (caches st' !! s) ↔ is_Some (caches st !! s)) as Hca.
  { intros s. pose proof (F1 s) as E. unfold lay_of in E. rewrite <-!(fmap_is_Some lay), E. done. }
  split.
  - by apply (kmalloc_ready_same online st).
  - split; [|done|done|].
    + intros cpu. rewrite E2. apply (pool_chain_same (cpus st)); [|apply P1]. intros c Hc. apply F4. intros s cpu'. by eapply P4.
    + intros cpu c s cpu' Hc. rewrite F2. by eapply P4.
  - intros s cpu. rewrite F2. apply K5.
  - intros s. rewrite E1, Hca. apply K6.
  - intros a. rewrite Hca. intros Ha. destruct (K7 a Ha) as [n Hn]. exists n. by apply F5.
Qed.

Lemma opened_live st st' g s x n : slub_inv VA st g → opened st st' s → caches st !! s = None → live VA st g x n → live VA st' g x n.
Proof.
  intros Hi Hop Hs Hx. injection (op_same _ _ _ Hop) as E1 E2 E3 E4 E5 E6.
  destruct Hx as [p s' l X1 X2 X3 X4 X5|p o X1 X2 X3 X4]; [|eapply live_block; try done; by rewrite E3].
  eapply live_object; try done. rewrite (opened_lay _ _ _ _ Hop); [done|]. intros ->. unfold lay_of in X3. by rewrite Hs in X3.
Qed.

(** The cache that was opened is put on the list. *)
Lemma caches_ok_opened st g P st' a sz : slub_inv VA st g → caches_ok VA online st g P → opened st st' (Created a) → ready online st' (Created a) sz →
  (∀ cpu, cpu ∉ online → slot st' (Created a) cpu = None) → pool_ok st' (foldl take_pool P online) → (∃ n, live VA st g a n) → caches st !! Created a = None →
  caches_ok VA online (set_slab_caches (Created a :: slab_caches st') st') g (foldl take_pool P online).
Proof.
  intros Hi [[K1 K2 K3] K4 K5 K6 K7] Hop Hr Hno HP Ha Hnew. injection (op_same _ _ _ Hop) as E1 E2 E3 E4 E5 E6. split.
  - split.
    + intros i Hin. eapply (ready_opened online st st' (Created a)); [done..|by apply K1].
    + change (size_index st' = size_index_done). congruence.
    + intros s cpu. change (lay_of (set_slab_caches _ _) s) with (lay_of st' s). change (slot (set_slab_caches _ _) s cpu) with (slot st' s cpu).
      destruct (decide (s = Created a)) as [->|Hs]; [intros _; apply Hr|]. rewrite (opened_lay _ _ _ _ Hop Hs), (opened_slot _ _ _ _ _ Hop Hs). apply K3.
  - by destruct HP.
  - intros s cpu. change (slot (set_slab_caches _ _) s cpu) with (slot st' s cpu). destruct (decide (s = Created a)) as [->|Hs].
    + intros [c Hc]. destruct (decide (cpu ∈ online)) as [|Hn]; [done|]. by rewrite (Hno cpu Hn) in Hc.
    + rewrite (opened_slot _ _ _ _ _ Hop Hs). apply K5.
  - intros s. cbn. destruct (decide (s = Created a)) as [->|Hs].
    + intros _. destruct Hr as [(l & Hl & _) _]. unfold lay_of in Hl. apply fmap_Some in Hl as (k & Hk & _). by exists k.
    + rewrite E4, (op_caches _ _ _ Hop s Hs). intros [?|Hin]%elem_of_cons; [done|]. by apply K6.
  - intros b Hb. assert (∃ n, live VA st g b n) as [n Hn]; [|exists n; apply (live_ext VA st'); [done..|]; by eapply (opened_live st st')].
    destruct (decide (b = a)) as [->|Hne]; [done|]. cbn in Hb. rewrite (op_caches _ _ _ Hop) in Hb by congruence. by apply K7.
Qed.

(** What [kmem_cache_create] leaves: every piece where it was with its bytes,
    and the cache that it returns. *)
Definition created st g (sz al : Z) (ctor : option (Z → memory → memory)) (r : option cache_ptr) st' : Prop :=
  ∃ g' P', slub_inv VA st' g' ∧ caches_ok VA online st' g' P' ∧
    (∀ x n, live VA st g x n → live VA st' g' x n ∧ same_bytes x n (mem st) (mem st')) ∧
    ∀ s, r = Some s → ∃ l, lay_of st' s = Some l ∧ sz ≤ objsize l ∧ (al ≠ 0 → (al | size l)) ∧ Slub.ctor l = ctor ∧
      ∀ cpu, cpu ∈ online → is_Some (slot st' s cpu).

Lemma new_cache_post kmem_size cpu sz al fl ctor st g P : slub_inv VA st g → caches_ok VA online st g P → (∀ c, c ∈ online → P c ≠ []) →
  open_args sz al ctor → 1 ≤ kmem_size < 2 ^ 63 → cpu ∈ online → has fl SLAB_PANIC = false →
  runs (a ← kmalloc VA false cpu kmem_size GFP_KERNEL;
      ok ← (if a =? 0 then mret false else
              ok ← kmem_cache_open VA online cache_line cpu (Created a) GFP_KERNEL sz al fl ctor;
              if ok : bool then modify (λ st, set_slab_caches (Created a :: slab_caches st) st);; mret true
              else kfree_cache VA cpu (Created a);; mret false);
      if ok : bool then mret (Some (Created a)) else BUG_ON (has fl SLAB_PANIC);; mret None)
    (created st g sz al ctor) st.
Proof using HVA H0 Hline Honline Hcpus.
  intros Hi Hc HP Ha Hkm Hcpu Hpan. cstep. eapply run_mono; [apply (kmalloc_post VA HVA online false cpu kmem_size GFP_KERNEL st g); [done|apply Hc|done|lia]|].
  cbv beta. intros a st1 (g1 & Hi1 & He1 & Hu1 & Hres). pose proof (evolves_frame VA _ _ _ _ Hi He1 Hu1) as Hf1.
  pose proof (caches_ok_frame _ _ _ _ _ Hf1 Hc) as Hc1. pose proof (fr_live _ _ _ _ _ Hf1) as Hlive.
  cstep. destruct (Z.eqb_spec a 0) as [->|Hne].
  { cstep. cstep. rewrite Hpan. apply run_BUG_ON; [done|]. cstep. by exists g1, P. }
  destruct Hres as [?|(Hla & Hfr & _)]; [done|].
  assert (caches st1 !! Created a = None) as Hnew.
  { apply eq_None_not_Some. intros Hs. assert (is_Some (caches st !! Created a)) as Hs'.
    { pose proof (ev_lay _ _ _ _ _ _ He1 (Created a)) as E. unfold lay_of in E. apply (fmap_is_Some lay). rewrite <-E. by apply fmap_is_Some. }
    destruct (ca_created _ _ _ _ _ Hc a Hs') as [n Hn]. by apply (Hfr a n). }
  cstep. eapply run_mono; [by apply (kmem_cache_open_post VA cache_line online Hline Honline Hcpus cpu (Created a) GFP_KERNEL sz al fl ctor st1 g1 P Ha Hi1 (ca_pool _ _ _ _ _ Hc1) Hnew HP)|].
  cbv beta. intros r st2 (-> & I1 & I2 & I3 & (l & L1 & L2 & L3) & I4 & I5). csteps.
  exists g1, (foldl take_pool P online). split; [by eapply inv_ext|]. split; [by eapply (caches_ok_opened st1); [..|eexists|]|]. split.
  - intros x n Hx. destruct (Hlive x n Hx) as [Hx1 Hb1]. injection (op_same _ _ _ I2) as E1 _ _ _ _ _. split.
    + apply (live_ext VA st2); [done..|]. by eapply (opened_live st1 st2).
    + cbn. by rewrite E1.
  - intros s [= <-]. exists l. destruct I3 as [(l' & L4 & L5) I3]. rewrite L1 in L4. injection L4 as <-. by split_and!.
Qed.

Lemma kmem_cache_create_post kmem_size cpu sz al fl ctor st g P : slub_inv VA st g → caches_ok VA online st g P → (∀ c, c ∈ online → P c ≠ []) →
  open_args sz al ctor → 1 ≤ kmem_size < 2 ^ 63 → cpu ∈ online → has fl SLAB_PANIC = false →
  runs (kmem_cache_create VA online cache_line kmem_size cpu sz al fl ctor) (created st g sz al ctor) st.
Proof using HVA H0 Hline Honline Hcpus.
  intros Hi Hc HP Ha Hkm Hcpu Hpan. unfold kmem_cache_create. cstep. eapply run_mono; [by eapply find_mergeable_post|]. cbv beta.
  intros [s|] st0 [-> Hr]; [|by eapply new_cache_post]. destruct (Hr s eq_refl) as (-> & l & L1 & L2 & L3 & L4). destruct Ha as [A1 A2 A3].
  cstep. eapply run_mono; [apply (merge_into_post sz s l st g P Hi Hc L1 L2); lia|]. cbv beta. intros _ st' [Hm Hc']. cstep.
  exists g, P. split; [by eapply merged_inv|]. split; [done|]. split; [intros x n; by eapply merged_live|].
  intros s' [= <-]. exists (wide_layout sz l). split; [apply Hm|]. split; [cbn; rewrite s32_small by lia; lia|]. split; [done|]. split; [done|].
  intros c Hon. apply (kr_slots _ _ (ca_ready _ _ _ _ _ Hc')); [|done]. exists (wide_layout sz l). apply Hm.
Qed.

(** ** The names of the caches of [kmalloc] *)

Lemma kvasprintf_post cpu gfp text st g P : slub_inv VA st g → caches_ok VA online st g P → cpu ∈ online → Z.of_nat (length text) < 2 ^ 62 →
  runs (kvasprintf VA cpu gfp text) (λ _ st', ∃ g', slub_inv VA st' g' ∧ caches_ok VA online st' g' P ∧ frame VA st g st' g') st.
Proof using HVA H0.
  intros Hi Hc Hcpu Hlen. unfold kvasprintf. cstep.
  eapply run_mono; [apply (kmalloc_post VA HVA online false cpu _ gfp st g); [done|apply Hc|done|lia]|].
  cbv beta. intros p st1 (g1 & Hi1 & He1 & Hu1 & Hres). pose proof (evolves_frame VA _ _ _ _ Hi He1 Hu1) as Hf1.
  destruct (Z.eqb_spec p 0) as [->|Hne].
  { cstep. exists g1. split_and!; [done|by eapply caches_ok_frame|done]. }
  destruct Hres as [?|(Hl & Hfr & _)]; [done|]. csteps. exists g1.
  assert (∀ b, b < p ∨ p + (Z.of_nat (length text) + 1) ≤ b → write_bytes p (text ++ [0]) (mem st1) b = mem st1 b) as Hm.
  { intros b Hb. apply write_bytes_out. rewrite length_app. cbn [length]. lia. }
  assert (frame VA st g (set_mem (write_bytes p (text ++ [0]) (mem st1)) st1) g1) as Hf2.
  { eapply frame_write; [done|done|exact Hl|lia|done|done]. }
  split_and!; [by eapply inv_write_live|by eapply caches_ok_frame|done].
Qed.

Lemma name_kmalloc_caches_post cpu : ∀ l st g P, slub_inv VA st g → caches_ok VA online st g P → cpu ∈ online →
  runs (each (λ i, _ ← kvasprintf VA cpu GFP_KERNEL (kmalloc_name i); mret tt) l)
    (λ _ st', ∃ g', slub_inv VA st' g' ∧ caches_ok VA online st' g' P) st.
Proof using HVA H0.
  induction l as [|i l IH]; intros st g P Hi Hc Hcpu; cbn [each]; [cstep; by exists g|]. cstep. cstep.
  eapply run_mono; [eapply kvasprintf_post; [done..|]|].
  - assert (length (kmalloc_name i) ≤ 12)%nat as Hlen; [|lia]. unfold kmalloc_name. rewrite length_app.
    assert (∀ n k, (length (decimal n k) ≤ n)%nat) as Hd; [|specialize (Hd 4%nat (Z.shiftl 1 (Z.of_nat i))); cbn [length]; lia].
    induction n as [|n IHn]; intros k; cbn [decimal]; [done|]. case_match; [cbn; lia|]. rewrite length_app. cbn. specialize (IHn (k / 10)). lia.
  - cbv beta. intros r st1 (g1 & Hi1 & Hc1 & _). cstep. by eapply IH.
Qed.

(** What [kmem_cache_init] leaves: the caches of [kmalloc] for every processor. *)
Lemma kmem_cache_init_post cpu st : boot_state online st → cpu ∈ online →
  runs (kmem_cache_init VA online cache_line cpu) (λ _ st', ∃ g P, slub_inv VA st' g ∧ caches_ok VA online st' g P ∧
    ∀ cpu, cpu ∈ online → (94 ≤ length (P cpu))%nat) st.
Proof using HVA H0 Hline Honline Hcpus.
  intros Hb Hcpu. apply kmem_cache_init_caches; [done..|]. intros st' P Hi Hc Hlen. eapply run_mono; [by eapply name_kmalloc_caches_post|].
  cbv beta. intros _ st2 (g & Hi2 & Hc2). by exists g, P.
Qed.

End create.
