(* ===== verification/SlubProps.v ===== *)
(** * Properties of the slab allocator *)
From stdpp Require Import functions gmap.
From S2P Require Import Prelude PageAllocSpec PageAllocProps PageSource BlockSource Command.
From S2P Require Import Slub SlubInv SlubStep SlubOps SlubAlloc SlubSizes SlubInit SlubHeap SlubCreate.

(** ** A machine with seven free pages *)

Module SlubExample.
Definition cpus : list nat := [0; 1]%nat.
#[export] Instance example_blocks : BlockSource page_state := node_blocks cpus.
#[export] Instance example_laws : BlockSourceLaws page_state := node_block_laws cpus.
Definition VA : Z := 0x100000.

Definition boot : slub (A := page_state) :=
  mk_slub (λ _, 0) (λ _, mk_page false false false None 0 0) ∅
    (list_to_map ((λ x : nat * nat, (Pool x.1 x.2, mk_cpu 0 None 0 0 None)) <$> (c ← cpus; i ← seq 0 NR_KMEM_CACHE_CPU; [(c, i)])))
    (PageExample.boot_node, ∅) [] (λ _, None) (λ _, false) size_index_init DOWN.

Lemma VA_ok : linear_ok VA.
Proof. unfold linear_ok. split_and!; [done|exists 256; done|done]. Qed.
Lemma line_ok : pow2_between 3 20 64.
Proof. exists 6. by split. Qed.
Lemma cpus_NoDup : NoDup cpus.
Proof. by apply (bool_decide_unpack _). Qed.
Lemma cpu0_online : 0%nat ∈ cpus.
Proof. by left. Qed.
Lemma cpus_bound cpu : cpu ∈ cpus → (cpu < NR_CPUS)%nat.
Proof. unfold cpus, NR_CPUS. intros Hc. rewrite !elem_of_cons, elem_of_nil in Hc. lia. Qed.

Lemma boot_ok : boot_state cpus boot.
Proof.
  split; try done.
  - exists PageExample.owned. split; [apply PageExample.boot_refines|]. intros zi q Hq. unfold PageExample.owned in Hq. unfold PFN_LIMIT. lia.
  - intros cpu i Hc Hi. assert (forallb (λ x : nat * nat, bool_decide (is_Some (Slub.cpus boot !! Pool x.1 x.2)))
      (c ← cpus; i ← seq 0 NR_KMEM_CACHE_CPU; [(c, i)]) = true) as E by (vm_compute; reflexivity).
    rewrite forallb_forall in E. eapply bool_decide_eq_true, (E (cpu, i)), list_elem_of_In, list_elem_of_bind.
    exists cpu. split; [|done]. apply list_elem_of_bind. exists i. split; [by left|]. apply elem_of_seq. lia.
Qed.

(** After [kmem_cache_init]. *)
Definition started_st : slub (A := page_state) := after (kmem_cache_init VA cpus 64 0) boot.

Lemma started_caches_ok : ∃ g P, slub_inv VA started_st g ∧ caches_ok VA cpus started_st g P ∧ ∀ c, c ∈ cpus → P c ≠ [].
Proof.
  destruct (run_after _ _ _ (kmem_cache_init_post VA VA_ok 64 cpus line_ok cpus_NoDup cpus_bound 0 boot boot_ok cpu0_online)) as (_ & g & P & Hi & Hc & Hn).
  exists g, P. split; [exact Hi|]. split; [exact Hc|]. intros c Hin E. specialize (Hn c Hin). rewrite E in Hn. cbn in Hn. lia.
Qed.
Lemma started_ok : ∃ g, slub_inv VA started_st g ∧ kmalloc_ready cpus started_st.
Proof. destruct started_caches_ok as (g & P & Hi & Hc & _). exists g. split; [exact Hi|apply Hc]. Qed.

(** After an object of the cache for 256 bytes has been taken. *)
Definition object : Z := VA + 19 * PAGE_SIZE.
Definition taken_st : slub (A := page_state) := after (slab_alloc VA 0 (Kmalloc 8) 0) started_st.

Lemma taken_run : slab_alloc VA 0 (Kmalloc 8) 0 started_st = Some (object, taken_st).
Proof. unfold taken_st. apply (after_run (slab_alloc VA 0 (Kmalloc 8) 0) started_st object). vm_compute. reflexivity. Qed.
Lemma taken_ok : ∃ g p l, slub_inv VA taken_st g ∧ object ∈ used g ∧ slabs g !! p = Some (Kmalloc 8) ∧ lay_of taken_st (Kmalloc 8) = Some l ∧
  object ∈ objs VA l p ∧ is_Some (slot taken_st (Kmalloc 8) 1).
Proof.
  destruct started_ok as (g0 & Hi & Hr). destruct (kr_caches _ _ Hr 8) as [(l & Hl & _) Hs]; [unfold kmalloc_caches; set_solver|].
  destruct (Hs 0%nat) as [c Hc]; [by left|]. pose proof Hl as Hk. unfold lay_of in Hk. destruct (caches started_st !! Kmalloc 8) as [k|] eqn:Ek; [|done].
  pose proof (slab_alloc_post VA VA_ok 0 started_st _ (Kmalloc 8) k 0 c Hi Ek Hc) as Hpost.
  pose proof (run_some _ _ _ _ _ Hpost taken_run) as (g & Hi' & He & [(E & _)|(p & l' & U1 & U2 & U3 & U4 & U5 & _)]); [done|].
  exists g, p, l'. split; [exact Hi'|]. split; [rewrite U2; apply elem_of_union_l, elem_of_singleton; reflexivity|]. split; [exact U3|]. split; [rewrite (ev_lay _ _ _ _ _ _ He); exact U4|].
  split; [exact U5|]. rewrite (ev_slot _ _ _ _ _ _ He). apply Hs. right. by left.
Qed.
End SlubExample.

(** ** The allocator as a heap *)

(** C25. After [kmem_cache_init], the requests of any well-behaved client
    ([kmalloc] and [kfree] on any processor, reads and writes of the bytes it
    was given, each chosen from the results so far) all succeed, and their
    results are those of a heap: a new piece overlaps no piece in use, is zero
    when zeroed memory was asked for, and keeps the bytes written to it until
    it is freed. *)
Theorem slub_refines {A : Type} `{BlockSourceLaws A} VA cache_line online cpu client n (st : slub (A := A)) :
  linear_ok VA → pow2_between 3 20 cache_line → NoDup online → (∀ c, c ∈ online → (c < NR_CPUS)%nat) → boot_state online st → cpu ∈ online →
  well_behaved online client [] ∅ →
  ∃ rs st' h', (kmem_cache_init VA online cache_line cpu;; run_client VA client n []) st = Some (rs, st') ∧
    heap_run client n [] ∅ rs h' ∧ heap_rel VA online st' h'.
Proof.
  intros HVA Hl Hn Hc Hb Hcpu Hw. assert (runs (kmem_cache_init VA online cache_line cpu;; run_client VA client n [])
    (λ rs st', ∃ h', heap_run client n [] ∅ rs h' ∧ heap_rel VA online st' h') st) as (rs & st' & Hrun & h' & H1 & H2); [|by exists rs, st', h'].
  cstep. eapply run_mono; [by apply kmem_cache_init_post|]. cbv beta. intros _ st1 (g & P & Hi & Hca & _).
  apply run_client_post; [done| |done]. exists g. split_and!; [done|apply Hca|]. intros x bs Hx. by rewrite lookup_empty in Hx.
Qed.

(** ** Objects *)

(** C26. [kmem_cache_alloc] never fails with a [BUG]; it returns an object of a
    slab of the cache that was not in use, zeroed when that was asked for, or
    [NULL] when the cache has no partial slab left and no page can be had.  The
    other objects in use, their bytes and the other blocks of pages stay as
    they are. *)
Theorem kmem_cache_alloc_correct {A : Type} `{BlockSourceLaws A} VA (st : slub (A := A)) g s l cpu gfp :
  linear_ok VA → slub_inv VA st g → lay_of st s = Some l → is_Some (slot st s cpu) →
  ∃ r st' g', kmem_cache_alloc VA cpu s gfp st = Some (r, st') ∧ slub_inv VA st' g' ∧ evolves VA (used g) st g st' g' ∧
    (r = 0 ∧ used g' = used g ∧ (∀ n, node_of st' s = Some n → partial n = []) ∨
     r ∉ used g ∧ used g' = {[r]} ∪ used g ∧ (∃ p, slabs g' !! p = Some s ∧ r ∈ objs VA l p) ∧
     (has gfp GFP_ZERO = true → ∀ b, r ≤ b < r + objsize l → mem st' b = 0)).
Proof.
  intros HVA Hi Hl [c Hc]. pose proof Hl as Hk. unfold lay_of in Hk. destruct (caches st !! s) as [k|] eqn:Ek; [|done].
  destruct (slab_alloc_post VA HVA gfp st g s k cpu c Hi Ek Hc) as (r & st' & Hrun & g' & Hi' & He & Hr). exists r, st', g'. split_and!; [done..|].
  destruct Hr as [Hr|(p & l' & U1 & U2 & U3 & U4 & U5 & U6)]; [by left|]. right. simplify_eq. split_and!; [done..|by exists p|done].
Qed.

(** C27. [kmem_cache_free] of an object in use, on any processor, never fails; the
    object is no longer in use, every other one keeps its place and its bytes,
    and the lists, counters and pages still agree. *)
Theorem kmem_cache_free_correct {A : Type} `{BlockSourceLaws A} VA (st : slub (A := A)) g s l p cpu x :
  linear_ok VA → slub_inv VA st g → lay_of st s = Some l → is_Some (slot st s cpu) → slabs g !! p = Some s → x ∈ objs VA l p → x ∈ used g →
  ∃ st' g', kmem_cache_free VA cpu s x st = Some (tt, st') ∧ slub_inv VA st' g' ∧ used g' = used g ∖ {[x]} ∧ evolves VA (used g ∖ {[x]}) st g st' g'.
Proof.
  intros HVA Hi Hl [c Hc] Hp Hx Hu. destruct (inv_cache VA st g s l Hi Hl) as (k & Hk & El). subst l.
  destruct (inv_cpu _ _ _ Hi s _ cpu c Hc Hl) as (y & Hy & _).
  assert (runs (kmem_cache_free VA cpu s x) (λ _ st', free_ok VA st g x st') st) as ([] & st' & Hrun & g' & Hf); [|by exists st', g'].
  unfold kmem_cache_free. cstep. destruct (live_head VA HVA st g x (objsize (lay k)) Hi) as (q & Hq & Hcase); [by eapply live_object|].
  eapply run_getm; [exact Hq|]. assert (q = p) as ->; [|by eapply slab_free_post].
  destruct (inv_block _ _ _ Hi p s Hp) as (l' & E & Hb). simplify_eq.
  pose proof (head_page_ok p _ _ _ (inv_source _ _ _ Hi) Hb (objs_page VA _ p x HVA (inv_layout _ _ _ Hi _ _ Hl) Hx)). congruence.
Qed.


(** C29. For every size up to half a page, the table that [kmem_cache_init] leaves
    behind and the comparisons that the compiler folds choose the same cache of
    [kmalloc]: the smallest one whose objects are large enough. *)
Theorem kmalloc_choice {A : Type} `{BlockSource A} online (st : slub (A := A)) size : kmalloc_ready online st → 1 ≤ size ≤ PAGE_SIZE / 2 →
  ∃ i, get_slab size st = Some (Some (Kmalloc i), st) ∧ kmalloc_slab size = Some (Kmalloc i) ∧ i ∈ kmalloc_caches ∧ size ≤ kmalloc_size i ∧
    ∀ j, j ∈ kmalloc_caches → size ≤ kmalloc_size j → kmalloc_size i ≤ kmalloc_size j.
Proof.
  change (PAGE_SIZE / 2) with 2048. intros Hr Hs. destruct (kmalloc_slab_spec size Hs) as (i & E & Hi). exists i.
  split; [|done]. rewrite get_slab_run; [by rewrite E|lia|apply Hr].
Qed.


(** An object of more than half the largest block gets an order that the page
    allocator never serves. *)
Lemma calculate_order_too_large : calculate_order (2 ^ 22 + 8) = Some (Z.of_nat PageAlloc.MAX_ORDER).
Proof. vm_compute. reflexivity. Qed.

(** ** Witnesses *)

Module SlubWitness.
Import SlubExample.

(** A client that takes a piece and then frees what it was last given. *)
Definition client (rs : list Z) : heap_request :=
  match last rs with None => HAlloc true 0 100 GFP_ZERO | Some r => HFree 1 r end.

Lemma client_ok : well_behaved cpus client [] ∅.
Proof.
  assert (∀ n rs h rs' h', heap_run client n rs h rs' h' →
    (rs = [] ∨ ∃ l r, rs = l ++ [r] ∧ (is_Some (h !! r) ∨ r = 0)) → heap_allowed cpus h' (client rs')) as Hall.
  { intros n rs h rs' h' Hrun. induction Hrun as [rs h|n rs h r h1 rs' h' Hstep Hrun IH]; intros Hr.
    - unfold client. destruct Hr as [->|(l & r & -> & Hr)]; [split; [by left|lia]|]. rewrite last_snoc. split; [right; by left|].
      destruct Hr as [Hr| ->]; [by left|by right].
    - apply IH. right. exists rs, r. split; [done|]. unfold client in Hstep. destruct Hr as [->|(l & r0 & -> & Hr)].
      + destruct Hstep as [(E & _)|[(_ & -> & _)|(bs & _ & _ & _ & -> & _)]]; [done|by right|left]. by rewrite lookup_insert_eq.
      + rewrite last_snoc in Hstep. right. apply Hstep. }
  intros n rs' h' Hrun. eapply Hall; [exact Hrun|by left].
Qed.

Lemma slub_refines_witness : ∃ rs st' h', (kmem_cache_init VA cpus 64 0;; run_client VA client 3 []) boot = Some (rs, st') ∧
  heap_run client 3 [] ∅ rs h' ∧ heap_rel VA cpus st' h'.
Proof.
  apply (slub_refines VA 64 cpus 0 client 3 boot); [apply VA_ok|apply line_ok|apply cpus_NoDup|apply cpus_bound|apply boot_ok|apply cpu0_online|apply client_ok].
Defined.

Lemma kmem_cache_alloc_witness : ∃ l r st' g', lay_of started_st (Kmalloc 8) = Some l ∧ kmem_cache_alloc VA 1 (Kmalloc 8) 0 started_st = Some (r, st') ∧
  slub_inv VA st' g' ∧ (r = 0 ∨ r ∈ used g').
Proof.
  destruct started_ok as (g0 & Hi & Hr). destruct (kr_caches _ _ Hr 8) as [(l & Hl & _) Hs]; [unfold kmalloc_caches; set_solver|].
  destruct (kmem_cache_alloc_correct VA started_st g0 (Kmalloc 8) l 1 0 VA_ok Hi Hl) as (r & st' & g' & Hrun & Hi' & _ & Hres); [apply Hs; right; by left|].
  exists l, r, st', g'. split; [exact Hl|]. split; [exact Hrun|]. split; [exact Hi'|]. destruct Hres as [(-> & _)|(_ & Hu & _)]; [by left|right]. rewrite Hu. apply elem_of_union_l, elem_of_singleton. reflexivity.
Defined.

Lemma kmem_cache_free_witness : ∃ g st' g', object ∈ used g ∧ kmem_cache_free VA 1 (Kmalloc 8) object taken_st = Some (tt, st') ∧
  slub_inv VA st' g' ∧ used g' = used g ∖ {[object]}.
Proof.
  destruct taken_ok as (g & p & l & Hi & Hu & Hp & Hl & Hx & Hs).
  destruct (kmem_cache_free_correct VA taken_st g (Kmalloc 8) l p 1 object VA_ok Hi Hl Hs Hp Hx Hu) as (st' & g' & Hrun & Hi' & Hu' & _).
  exists g, st', g'. split; [exact Hu|]. split; [exact Hrun|]. split; [exact Hi'|exact Hu'].
Defined.



Lemma kmalloc_choice_witness : ∃ i, get_slab 130 started_st = Some (Some (Kmalloc i), started_st) ∧ kmalloc_slab 130 = Some (Kmalloc i) ∧ kmalloc_size i = 192.
Proof.
  destruct (kmalloc_choice cpus started_st 130) as (i & H1 & H2 & _); [destruct started_ok as (g & _ & Hr); exact Hr|done|]. exists i. split; [exact H1|]. split; [exact H2|].
  vm_compute in H2. by injection H2 as <-.
Defined.

End SlubWitness.
